(* ===== verification/_CoqProject ===== *)
-Q . S2P
Prelude.v
StableSort.v
GoFloat.v
SiteConfig.v
RouteCooldowns.v
Catalog.v
Json.v
Router.v
Cooldown.v
Failover.v
RequestCooldowns.v
Concurrency.v
NoRoute.v
Inflight.v
LoginGuard.v
Pricing.v
Utf8.v
Regexp.v
UpstreamFailure.v
Credentials.v
CredentialWindow.v
RouteRows.v
StreamEvents.v
StopSequences.v
AnthropicStream.v
ChatStream.v
ResponsesStream.v
SemanticFailure.v
StreamPassthrough.v
StreamProxy.v
ResponsesEncoder.v
StreamClients.v
AnthropicDecoder.v
AnthropicClients.v
Answers.v
AnswerClients.v
RateLimit.v
RateLimitInv.v
RateConfig.v
RateQueue.v
ApiKeyStore.v
ApiKeyAccess.v
ApiKeyService.v
ApiKeyHistory.v
ModelsList.v
ModelsCache.v
