(* ===== verification/Prelude.v ===== *)
(** * The xLyra gateway: a verification library

    xLyra is a gateway for language models: clients with an API key send a request, the
    server chooses an upstream site that offers the model, forwards the request, and
    bills what was served.  This library models the core of [src/server/internal] in
    executable definitions and proves what they promise.  Paths below are relative to
    that directory.

    ** How a request goes through the program, and where each part is modelled

    - [auth/service.go] ([ValidateAPIKey]) finds the row of the presented key:
      [ApiKeyStore] has the rows, the quotas, the display order and the throttle of
      [last_used_at] ([store/api_key_*.go], [config/timezone.go]), [ApiKeyService] the
      shape of a key ([auth/tokens.go]) and the operations of the service, with the
      internal key of agents ([store/agent_repository.go]).  What a key may reach is
      [ApiKeyAccess] ([store/api_key_access_repository.go], [ResolveAPIKeyRouteAccess]
      and its helpers, [setupRoute] of [gateway/handler_chat.go]).  [ApiKeyHistory] runs
      the operations one after another on the tables.
    - [gateway/handler_chat.go] ([serveEndpoint]) drives a request.  A model rule of the
      API key may replace the model asked for: [Catalog] (rules and model names,
      [gateway/model_rules.go], [catalog/service.go], [store/api_key_model_rules.go]).
    - The router plans the upstream candidates: [Router] ([router/service.go]) over the
      rows of the store, the settings of a site in [SiteConfig]
      ([site/gateway_config.go]) and the cooldowns in [RouteCooldowns]
      ([store/route_cooldown_repository.go]).  [StableSort] is Go's stable sort,
      [GoFloat] its float64.  [RouteRows] reads these rows from the tables
      ([store/route_candidate_repository.go], [store/model_endpoint_policy.go]) and
      discharges the store the router is proved against.  A request without a route is answered from the cache of
      [NoRoute] ([gateway/no_route_suppression.go]).
    - Which keys of a site serve a model, and in which order, is [Credentials]
      ([store/gateway_repository.go], [store/site_api_key_model_repository.go],
      [gatewayCredentials] of [gateway/execution.go]); the sign-ins of a Grok site are
      chosen one by one by [CredentialWindow] ([gateway/grok_credential_selector.go]).
      What an upstream answered is classified, stored as a message and classified again
      when it is read: [UpstreamFailure] ([upstream/failure.go]) over the regular
      expressions of [Regexp], Go's leftmost-first matching.
    - A client may ask what it can use: [ModelsList] is the list of models of an API key,
      [ModelsCache] the cache in front of it (both [gateway/models_cache.go]).
    - The rate limiter admits the request: [RateLimit] (data and operations of
      [ratelimit/service.go] and the list part of [ratelimit/queue.go]),
      [RateLimitInv] (the counters over all interleavings), [RateConfig] (the cached
      limits, the exact decision, machine-width effects) and [RateQueue] (queued calls
      as a step relation).
    - The failover loop asks candidate after candidate, and credential after credential
      of each: [Failover] ([gateway/handler_chat.go], [gateway/execution.go]), with the
      cooldown a failure sets in [Cooldown] ([gateway/cooldown.go],
      [gateway/upstream_rate_limit_wait.go]) and the concurrency slots of an attempt in
      [Concurrency] ([gateway/concurrency.go]).  [RequestCooldowns] carries out the
      cooldowns of a whole request on the table.
    - A streamed answer is passed through or converted.  [StreamPassthrough]
      ([gateway/stream_runtime.go], [gateway/protocol_responses_downstream.go]) has the
      two pass-through loops; [StreamProxy] ([proxyCanonicalStream] of
      [gateway/protocol_canonical_stream.go]) the conversion, proved against the classes
      [canonicalStreamDecoder] and [canonicalStreamEncoder], whose instances are
      [ChatStream] (decoder and encoder of chat completions), [ResponsesStream] (decoder
      of the Responses API), [AnthropicDecoder] (decoder of the Messages API),
      [AnthropicStream] (encoder of the Messages API) and [ResponsesEncoder] (encoder of
      the Responses API).  [StreamClients] and [AnthropicClients] put decoder, loop and
      encoder together, for a chat upstream and for a Messages upstream.
      [SemanticFailure] ([gateway/semantic_failure.go]) tells what a line declares,
      [StopSequences] ([gateway/protocol_stop_sequences.go]) ends a stream early.  They
      share [Json] (JSON values), [Utf8] (runes) and [StreamEvents] (the canonical
      events, the capture of a stream, a monad over encoder, capture and connection
      with its program logic [wp]).
    - An answer that is not streamed is converted as a whole: [Answers]
      ([convertResponseBetweenProtocols] of [gateway/protocol_canonical.go],
      [gateway/protocol_anthropic_messages.go], [gateway/thinking_roundtrip.go]), and
      [AnswerClients] is what its clients are told.
    - What was served is billed: [Pricing] ([gateway/pricing.go],
      [gateway/pricing_long_context.go]).
    - Meanwhile the dashboard shows the requests that run: [Inflight]
      ([inflight/inflight.go]), a registry whose changes are published to subscribers.
    - Administrators log in past the guard of [LoginGuard] ([auth/login_guard.go],
      [auth/totp.go], [auth/totp_replay.go], [Login] of [auth/service.go]).

    ** Conventions

    A Go struct is a Record whose fields carry the names of the source, with a prefix
    where names repeat; a pointer, a nullable column and a two-valued result are
    options; an error is the [Err] of [result] or a type of its own.  [int] and [int64]
    are Z with the wrap-around of [add64], [sub64] and [mul64] wherever the source can
    overflow; a [time.Time] and a [time.Duration] are nanoseconds.  A string is a byte
    string; the functions of package [strings] that the code uses are defined below.
    Readings of the clock, choices of a [select], the order of a map iteration and the
    answers of upstreams and of the database are arguments, so that a theorem holds for
    all of them.  A table is the list of its rows in the order the database gives them;
    where a call reads the clock several times in a row the readings are one.  Concurrent
    code is cut where its locks are released: each critical section is one function, and
    runs are sequences of them.

    ** What the theorems show

    - [ApiKeyHistory]: after any history of operations a key is accepted exactly when
      its row is active, unexpired and within its quotas; a key that was issued stays
      valid until it is revoked, and is refused after it was rotated; the tables stay
      well formed; a request is opened exactly to the sites and models its key is
      allowed.  [ApiKeyStore]: the total counts every charge, the quota windows those of
      [AddUsageAt] in them; reordering shows the given order.
    - [Failover]: at most one upstream answers the client and only its tokens are
      charged; the request ends; pauses end before the deadlines.
    - [RateLimitInv]: in-flight slots and reserved tokens are exactly those of live
      reservations, within the limits.  [RateConfig]: admission is exactly the limits'
      condition, all or nothing; the limits in force are those of the two scopes and a
      change takes effect.  [RateQueue]: the head of a queue is a live call, and only
      the head acquires.
    - [Router]: the candidates are exactly the eligible rows, best first; plans are
      sound and exist exactly when a row is eligible; cooldowns take effect.
    - [RouteRows]: a route that is offered finds a key, the one it names, at the price it
      shows.  [Credentials]: the keys of a request do not depend on the order of the rows;
      a key that was refused stays refused, and no other.  [CredentialWindow]: the choice
      is the least loaded key by the record of all choices; a request asks each key once.
      [UpstreamFailure]: a failure keeps its kind when it is stored as text and read
      back; a limit that is named is found.  [ModelsList]: without Grok sign-in keys, a
      model is listed exactly when the router offers it; an alias stands for a listed
      model.  [ModelsCache]: no list
      is given out that an invalidation overtook.
    - [RouteCooldowns], [Cooldown]: one standing cooldown per place; a failure cools
      only its model or credential; transient cooldowns double up to five minutes and a
      recovery lifts them; pauses are bounded.  [RequestCooldowns]: a whole request, in
      the midst of others, touches the cooldowns of its candidates only.
    - [Concurrency]: limits hold in every interleaving; slots are all or nothing.
    - [NoRoute]: the cache refines "what was last remembered"; the delay is the first
      end of a cooldown in the way.
    - [StreamPassthrough], [StreamProxy]: as long as no header was sent nothing was, so
      that another upstream may answer; what is passed through arrives unchanged.
      [StreamClients]: a converted stream arrives whole at its client,
      proved once for every encoder that keeps the promises of [FaithfulEncoder], and in
      [AnthropicClients] for an upstream of the Messages API: [AnthropicDecoder] reads a
      stream as a client of that API would.  [AnswerClients]: a whole answer tells the
      client of another API the same text, but for white space around it, and the same
      calls.  [AnthropicStream], [ResponsesEncoder]: the frames obey the protocol of the
      client, as an automaton of the client checks it.  [ChatStream]: what the encoder
      writes, the decoder reads back.  [ResponsesStream]: the argument deltas of a call
      add up to the arguments the upstream stated for it.  [StopSequences]: the filter is
      a search of the text between two other events.
    - [Pricing]: prompt tokens are billed once, bills are never negative, the long
      context surcharge is applied once.
    - [Inflight]: events reach each subscriber once, a snapshot and the events after it
      give what the registry holds, the totals are those of a ledger, a request lives
      once between two starts under its identifier and expires.  [LoginGuard]: guesses are limited by time, a code is good for
      one use, lockouts double up to the maximum.
    - [SiteConfig], [Catalog]: normal forms are stable, settings read back as written,
      the precedence of model rules.
    - Where the code does not do what it means to do, a theorem states what it does:
      [created_limits_do_not_bind], [missing_limit_refuses],
      [agent_key_opens_by_its_name], [stale_mappings_restore_the_status],
      [release_signal_lost], [removed_limit_still_refuses], [stale_limits_after_set],
      [window_rollback_exceeds_limit], [token_estimate_overflow],
      [score_depends_on_map_order], [huge_retry_after_is_no_wait],
      [huge_retry_after_is_retried_at_once], [negative_count_charged_twice],
      [malformed_line_commits], [early_end_commits],
      [truncated_tool_call_looks_complete], [finish_chunk_drops_its_delta],
      [spaced_arguments_are_repeated], [nested_stop_sequences_depend_on_pieces],
      [usage_hides_a_stop_sequence], [output_order_is_not_place_order],
      [passed_on_event_keeps_its_number], [changed_response_id_renames_the_message],
      [overtaken_event_is_missed], [reused_identifier_ends_the_other], [overlapping_guesses_are_all_judged],
      [braces_hide_the_reason], [grok_keys_are_judged_twice], [closed_key_is_offered],
      [high_price_ranks_behind_none], [cooling_model_is_hidden],
      [stale_sign_in_is_listed], [waiter_stays_with_cancelled_build],
      [call_after_text_ends_as_stop], [calls_beside_text_are_dropped] and
      [cut_answers_look_complete].

    ** Bounds and fuel

    [Failover.serveLoop] has fuel, one unit per pass over the candidates; each pass reads
    the clock, and a pass that begins after the failover deadline is the last, so
    [serve_ends] needs one unit more than there are readings before the deadline.
    [Cooldown.escalate_loop] has fuel 39: a duration of at least a nanosecond doubled 39
    times exceeds five minutes ([escalateCooldownDuration_min]).  [Regexp.star_ends] and
    [Regexp.find_all] have the length of the text left as fuel, since each turn leaves
    less of it ([Regexp.ends_iff] relates the matcher to the relation [Ends], which has no
    fuel).  All other recursion is
    structural.

    ** What is not modelled

    The conversion of requests between the JSON dialects of vendors, whole answers with
    images or of Gemini, the stream encoder of Gemini and the stream decoder of
    Antigravity, the writing of responses, the request log's metadata, the descriptive metadata of listed
    models, OAuth, plugins, administration, synchronisation, backup and the dashboard; the database is
    the statements the code sends to it, and its failures are arguments.  The endpoint
    and protocol adapters are the class [Failover.Adapters]; [UUID.String] belongs to
    github.com/google/uuid and is the class [UuidString]; hashing and encryption of keys
    are the class [ApiKeyService.Secrets].  Parsing and printing JSON text
    and new UUIDs are arguments of the stream definitions; a write to the client counts
    whole frames, and fails from some frame on.

    ** Plan

    Next: the dialects of Gemini and Antigravity, the conversion of requests, the writing
    of keys and site models, retention of backups, bounds of settings.

    This file holds what the others share: results, fixed-width integers, time, Go
    strings, sums over finite maps, and the automation. *)

From Stdlib Require Export ZArith Lia Ascii Sorted.
From Stdlib Require OrderedTypeEx.
From stdpp Require Export base gmap strings list fin_maps option.
#[global] Open Scope Z_scope.

(** ** Results: Go functions that return a value and an error *)

Inductive result (T E : Type) :=
| Ok (v : T)
| Err (e : E).
Arguments Ok {T E} v.
Arguments Err {T E} e.

(** ** Fixed-width integers: [int64] and [int] on 64-bit platforms, with the
    two's complement wrap-around Go gives to [+], [-], [*] and [<<]. *)

Definition two63 : Z := 9223372036854775808.
Definition two64 : Z := 18446744073709551616.
Definition min_int64 : Z := -9223372036854775808.
Definition max_int64 : Z := 9223372036854775807.

Definition wrap64 (z : Z) : Z := (z + two63) `mod` two64 - two63.

Definition in_int64 (z : Z) : Prop := min_int64 ≤ z ≤ max_int64.

Definition add64 (a b : Z) : Z := wrap64 (a + b).
Definition sub64 (a b : Z) : Z := wrap64 (a - b).
Definition mul64 (a b : Z) : Z := wrap64 (a * b).
Definition shl64 (a k : Z) : Z := wrap64 (Z.shiftl a k).

(** ** [time.Time] and [time.Duration]: nanoseconds.  An instant is counted from
    Go's zero time (year 1, UTC), so [IsZero] is [t = 0] and
    [t.UTC().Truncate(d)], which Go computes from that same zero time, is
    [t - t mod d]; [Sub] saturates to the range of a [Duration]. *)

Definition Nanosecond : Z := 1.
Definition Second : Z := 1000000000.
Definition Minute : Z := 60000000000.
Definition Hour : Z := 3600000000000.

Definition time_truncate (t d : Z) : Z := t - t `mod` d.

Definition time_sub (a b : Z) : Z := Z.max min_int64 (Z.min max_int64 (a - b)).

(** [int64(math.Ceil(d.Seconds()))] for a duration of at most a minute. *)
Definition ceil_seconds (d : Z) : Z := (d + Second - 1) `div` Second.

(** ** UUIDs: 128-bit values; [uuid.Nil] is 0.  [UUID.String] belongs to
    github.com/google/uuid, so it is a parameter, with its documented laws. *)

Definition uuid : Type := N.
#[global] Instance uuid_eq_dec : EqDecision uuid := N.eq_dec.
#[global] Instance uuid_countable : Countable uuid := N_countable.
Definition uuid_Nil : uuid := 0%N.

Class UuidString := uuid_String : uuid → string.

(** ** Go strings: byte strings *)

(** [String.get] style helpers on byte lists. *)
Definition ascii_in (lo hi c : nat) : bool := (lo <=? c)%nat && (c <=? hi)%nat.

(** The bytes [unicode.IsSpace] accepts in the ASCII range. *)
Definition is_ascii_space (c : ascii) : bool :=
  let n := nat_of_ascii c in ascii_in 9 13 n || (n =? 32)%nat.

(** U+0085 and U+00A0 in UTF-8. *)
Definition is_space2 (c1 c2 : ascii) : bool :=
  let a := nat_of_ascii c1 in let b := nat_of_ascii c2 in
  (a =? 194)%nat && ((b =? 133)%nat || (b =? 160)%nat).

(** U+1680, U+2000..U+200A, U+2028, U+2029, U+202F, U+205F and U+3000. *)
Definition is_space3 (c1 c2 c3 : ascii) : bool :=
  let a := nat_of_ascii c1 in let b := nat_of_ascii c2 in let c := nat_of_ascii c3 in
  ((a =? 225)%nat && (b =? 154)%nat && (c =? 128)%nat)
  || ((a =? 226)%nat && (b =? 128)%nat
      && (ascii_in 128 138 c || (c =? 168)%nat || (c =? 169)%nat || (c =? 175)%nat))
  || ((a =? 226)%nat && (b =? 129)%nat && (c =? 159)%nat)
  || ((a =? 227)%nat && (b =? 128)%nat && (c =? 128)%nat).

(** Drop the spaces at the front of a byte list; [p1], [p2] and [p3] recognise a
    space of one, two and three bytes. *)
Fixpoint trim_front (p1 : ascii → bool) (p2 : ascii → ascii → bool)
    (p3 : ascii → ascii → ascii → bool) (l : list ascii) : list ascii :=
  match l with
  | [] => []
  | c1 :: r1 =>
      if p1 c1 then trim_front p1 p2 p3 r1
      else match r1 with
           | c2 :: r2 =>
               if p2 c1 c2 then trim_front p1 p2 p3 r2
               else match r2 with
                    | c3 :: r3 => if p3 c1 c2 c3 then trim_front p1 p2 p3 r3 else l
                    | [] => l
                    end
           | [] => l
           end
  end.

Definition trim_left_bytes : list ascii → list ascii :=
  trim_front is_ascii_space is_space2 is_space3.

(** The same from the end: the list is reversed, so the bytes of a multi-byte
    space come in the opposite order. *)
Definition trim_right_rev : list ascii → list ascii :=
  trim_front is_ascii_space (λ c1 c2, is_space2 c2 c1) (λ c1 c2 c3, is_space3 c3 c2 c1).

(** [strings.TrimSpace] *)
Definition TrimSpace (s : string) : string :=
  String.string_of_list_ascii
    (rev (trim_right_rev (rev (trim_left_bytes (String.list_ascii_of_string s))))).

Definition lower_ascii (c : ascii) : ascii :=
  let n := nat_of_ascii c in
  if ascii_in 65 90 n then ascii_of_nat (n + 32) else c.

(** [strings.ToLower].  Exact on ASCII; of the other runes it maps the two whose
    lower case is ASCII (U+0130 to i, U+212A to k) and leaves the others alone:
    every comparison of the modelled code is with ASCII text. *)
Fixpoint lower_bytes (l : list ascii) : list ascii :=
  match l with
  | [] => []
  | c1 :: r1 =>
      match r1 with
      | c2 :: r2 =>
          if (nat_of_ascii c1 =? 196)%nat && (nat_of_ascii c2 =? 176)%nat
          then "i"%char :: lower_bytes r2
          else match r2 with
               | c3 :: r3 =>
                   if (nat_of_ascii c1 =? 226)%nat && (nat_of_ascii c2 =? 132)%nat
                      && (nat_of_ascii c3 =? 170)%nat
                   then "k"%char :: lower_bytes r3
                   else lower_ascii c1 :: lower_bytes r1
               | [] => lower_ascii c1 :: lower_bytes r1
               end
      | [] => [lower_ascii c1]
      end
  end.

Definition ToLower (s : string) : string :=
  String.string_of_list_ascii (lower_bytes (String.list_ascii_of_string s)).

(** [strings.HasPrefix], [strings.Contains], [len], [strings.Join] *)
Definition HasPrefix (s p : string) : bool := String.prefix p s.

Fixpoint Contains (s sub : string) : bool :=
  String.prefix sub s ||
  match s with
  | EmptyString => false
  | String.String _ r => Contains r sub
  end.

Definition len (s : string) : Z := Z.of_nat (String.length s).

Definition Join (l : list string) (sep : string) : string := String.concat sep l.

(** [strconv.ParseInt(s, 10, 64)]: an optional sign, then decimal digits, in
    range; [None] is the error. *)
Definition digit_value (c : ascii) : option Z :=
  let n := nat_of_ascii c in
  if ascii_in 48 57 n then Some (Z.of_nat n - 48) else None.

Fixpoint parse_digits (l : list ascii) (acc : Z) : option Z :=
  match l with
  | [] => Some acc
  | c :: r => match digit_value c with
              | Some d => parse_digits r (10 * acc + d)
              | None => None
              end
  end.

Definition ParseInt64 (s : string) : option Z :=
  let body (neg : bool) (l : list ascii) :=
    match l with
    | [] => None
    | _ => z ← parse_digits l 0;
           let v := if neg then - z else z in
           if bool_decide (min_int64 ≤ v ∧ v ≤ max_int64) then Some v else None
    end in
  match String.list_ascii_of_string s with
  | c :: r => if (nat_of_ascii c =? 45)%nat then body true r
              else if (nat_of_ascii c =? 43)%nat then body false r
              else body false (c :: r)
  | [] => None
  end.

(** The order of Go strings is the byte order. *)
Definition string_ltb (a b : string) : bool := String.ltb a b.

(** ** Sums over finite maps *)

Definition map_sum {K A} `{Countable K} (f : A → Z) (m : gmap K A) : Z :=
  map_fold (λ _ x acc, f x + acc) 0 m.

(** ** Automation *)

Create HintDb xlyra discriminated.
Create Rewrite HintDb go64.
Create Rewrite HintDb gostr.

(** Split every boolean connective of the context and the goal. *)
Ltac bool_to_prop :=
  repeat match goal with
  | H : _ && _ = true |- _ => apply andb_true_iff in H as [??]
  | H : _ || _ = false |- _ => apply orb_false_iff in H as [??]
  | H : negb _ = true |- _ => apply negb_true_iff in H
  | H : negb _ = false |- _ => apply negb_false_iff in H
  | H : (_ <? _) = true |- _ => apply Z.ltb_lt in H
  | H : (_ <? _) = false |- _ => apply Z.ltb_ge in H
  | H : (_ <=? _) = true |- _ => apply Z.leb_le in H
  | H : (_ <=? _) = false |- _ => apply Z.leb_gt in H
  | H : (_ =? _) = true |- _ => apply Z.eqb_eq in H
  | H : (_ =? _) = false |- _ => apply Z.eqb_neq in H
  | H : bool_decide _ = true |- _ => apply bool_decide_eq_true in H
  | H : bool_decide _ = false |- _ => apply bool_decide_eq_false in H
  end.

(** Case analysis on the conditions of the goal, keeping their meaning. *)
Ltac go_cases :=
  repeat (case_match; bool_to_prop; simplify_eq/=).

(** ** Lemmas on wrapped integers *)

Lemma wrap64_small z : in_int64 z → wrap64 z = z.
Proof.
  unfold in_int64, wrap64, min_int64, max_int64, two63, two64; intros H.
  rewrite Z.mod_small; lia.
Qed.

Lemma wrap64_range z : in_int64 (wrap64 z).
Proof.
  unfold in_int64, wrap64, min_int64, max_int64, two63, two64.
  pose proof (Z.mod_pos_bound (z + 9223372036854775808) 18446744073709551616).
  lia.
Qed.

Lemma wrap64_add z : wrap64 (z + two64) = wrap64 z.
Proof.
  unfold wrap64. f_equal.
  replace (z + two64 + two63) with (z + two63 + 1 * two64) by lia.
  by rewrite Z.mod_add.
Qed.

Lemma wrap64_plus a b : wrap64 (wrap64 a + b) = wrap64 (a + b).
Proof.
  unfold wrap64. f_equal.
  replace ((a + two63) `mod` two64 - two63 + b + two63) with ((a + two63) `mod` two64 + b) by lia.
  rewrite Zplus_mod_idemp_l. f_equal. lia.
Qed.

Lemma add64_small a b : in_int64 (a + b) → add64 a b = a + b.
Proof. apply wrap64_small. Qed.

Lemma sub64_small a b : in_int64 (a - b) → sub64 a b = a - b.
Proof. apply wrap64_small. Qed.

Lemma mul64_small a b : in_int64 (a * b) → mul64 a b = a * b.
Proof. apply wrap64_small. Qed.

#[export] Hint Resolve wrap64_range : xlyra.
#[export] Hint Rewrite wrap64_small add64_small sub64_small mul64_small
  using (unfold in_int64, min_int64, max_int64 in *; lia) : go64.

(** ** Lemmas on instants and durations *)

Lemma time_truncate_le t d : 0 < d → time_truncate t d ≤ t < time_truncate t d + d.
Proof.
  intros Hd. unfold time_truncate.
  pose proof (Z.mod_pos_bound t d Hd). lia.
Qed.

Lemma time_truncate_mono a b d : 0 < d → a ≤ b → time_truncate a d ≤ time_truncate b d.
Proof.
  intros Hd Hab. unfold time_truncate.
  rewrite (Z.mod_eq a), (Z.mod_eq b) by lia.
  pose proof (Z.div_le_mono a b d Hd Hab). nia.
Qed.

Lemma time_sub_exact a b : in_int64 (a - b) → time_sub a b = a - b.
Proof. unfold time_sub, in_int64, min_int64, max_int64. lia. Qed.

Lemma ceil_seconds_spec d :
  0 < d → Second * (ceil_seconds d - 1) < d ≤ Second * ceil_seconds d.
Proof.
  unfold ceil_seconds, Second. intros Hd.
  pose proof (Z.div_mod (d + 1000000000 - 1) 1000000000).
  pose proof (Z.mod_pos_bound (d + 1000000000 - 1) 1000000000). lia.
Qed.

(** ** Sums over finite maps *)

Section map_sum.
Context {K A : Type} `{Countable K} (f : A → Z).
Implicit Types m : gmap K A.

Lemma map_sum_empty : map_sum f (∅ : gmap K A) = 0.
Proof. apply map_fold_empty. Qed.

Lemma map_sum_insert m k x :
  m !! k = None → map_sum f (<[k:=x]> m) = f x + map_sum f m.
Proof.
  intros Hk. unfold map_sum.
  rewrite map_fold_insert_L; [done | | done].
  intros; lia.
Qed.

Lemma map_sum_delete m k x :
  m !! k = Some x → map_sum f m = f x + map_sum f (delete k m).
Proof.
  intros Hk. rewrite <- (map_sum_insert (delete k m) k x); [|by rewrite lookup_delete_eq].
  by rewrite insert_delete_eq, insert_id.
Qed.

Lemma map_sum_insert_old m k x y :
  m !! k = Some y → map_sum f (<[k:=x]> m) = f x - f y + map_sum f m.
Proof.
  intros Hk. rewrite <- insert_delete_eq, map_sum_insert; [|by rewrite lookup_delete_eq].
  rewrite (map_sum_delete m k y Hk). lia.
Qed.

Lemma map_sum_nonneg m : (∀ k x, m !! k = Some x → 0 ≤ f x) → 0 ≤ map_sum f m.
Proof.
  induction m as [|k x m Hk IH] using map_ind; intros Hpos.
  - by rewrite map_sum_empty.
  - rewrite map_sum_insert by done.
    assert (0 ≤ f x) by (apply (Hpos k x); by rewrite lookup_insert_eq).
    assert (0 ≤ map_sum f m); [|lia].
    apply IH. intros j y Hj. apply (Hpos j y).
    rewrite lookup_insert_ne; [done|]. intros ->. congruence.
Qed.

Lemma map_sum_ge m k x :
  (∀ k x, m !! k = Some x → 0 ≤ f x) → m !! k = Some x → f x ≤ map_sum f m.
Proof.
  intros Hpos Hk. rewrite (map_sum_delete m k x Hk).
  assert (0 ≤ map_sum f (delete k m)); [|lia].
  apply map_sum_nonneg. intros j y [? Hj]%lookup_delete_Some. by apply (Hpos j y).
Qed.
End map_sum.

Lemma map_sum_ext {K A} `{Countable K} (f g : A → Z) (m : gmap K A) :
  (∀ k x, m !! k = Some x → f x = g x) → map_sum f m = map_sum g m.
Proof.
  induction m as [|k x m Hk IH] using map_ind; intros Heq.
  - by rewrite !map_sum_empty.
  - rewrite !map_sum_insert by done. f_equal.
    + apply (Heq k x). by rewrite lookup_insert_eq.
    + apply IH. intros j y Hj. apply (Heq j y).
      rewrite lookup_insert_ne; [done|]. intros ->. congruence.
Qed.

Lemma map_sum_le {K A} `{Countable K} (f g : A → Z) (m : gmap K A) :
  (∀ k x, m !! k = Some x → f x ≤ g x) → map_sum f m ≤ map_sum g m.
Proof.
  induction m as [|k x m Hk IH] using map_ind; intros Hle.
  - by rewrite !map_sum_empty.
  - rewrite !map_sum_insert by done.
    assert (f x ≤ g x) by (apply (Hle k x); by rewrite lookup_insert_eq).
    assert (map_sum f m ≤ map_sum g m); [|lia].
    apply IH. intros j y Hj. apply (Hle j y).
    rewrite lookup_insert_ne; [done|]. intros ->. congruence.
Qed.

(** ** Lemmas on [TrimSpace] *)

Section trim.
Variables (p1 : ascii → bool) (p2 : ascii → ascii → bool) (p3 : ascii → ascii → ascii → bool).

(** A space stands at the front. *)
Definition head_space (l : list ascii) : bool :=
  match l with
  | [] => false
  | c1 :: r1 =>
      p1 c1 || match r1 with
               | [] => false
               | c2 :: r2 => p2 c1 c2 || match r2 with [] => false | c3 :: _ => p3 c1 c2 c3 end
               end
  end.

Lemma trim_front_clean l : head_space l = false → trim_front p1 p2 p3 l = l.
Proof.
  destruct l as [|c1 [|c2 [|c3 l]]]; simpl; [done|..]; intros H;
    repeat (apply orb_false_iff in H as [-> H]); by rewrite ?H.
Qed.

Lemma trim_front_spec l :
  ∃ cut, l = cut ++ trim_front p1 p2 p3 l ∧ head_space (trim_front p1 p2 p3 l) = false.
Proof.
  revert l. fix IH 1. intros [|c1 r1]; [by exists []|].
  simpl. destruct (p1 c1) eqn:E1.
  { destruct (IH r1) as (cut & Heq & Hh). exists (c1 :: cut). split; [simpl; by rewrite <- Heq|done]. }
  destruct r1 as [|c2 r2]; [exists []; simpl; by rewrite E1|]. destruct (p2 c1 c2) eqn:E2.
  { destruct (IH r2) as (cut & Heq & Hh). exists (c1 :: c2 :: cut). split; [simpl; by rewrite <- Heq|done]. }
  destruct r2 as [|c3 r3]; [exists []; simpl; by rewrite E1, E2|].
  destruct (p3 c1 c2 c3) eqn:E3; [|exists []; simpl; by rewrite E1, E2, E3].
  destruct (IH r3) as (cut & Heq & Hh). exists (c1 :: c2 :: c3 :: cut).
  split; [simpl; by rewrite <- Heq|done].
Qed.

Lemma head_space_prefix l1 l2 : head_space (l1 ++ l2) = false → head_space l1 = false.
Proof.
  destruct l1 as [|c1 [|c2 [|c3 l1]]]; simpl; [done|..]; intros H;
    repeat (apply orb_false_iff in H as [-> H]); by rewrite ?H.
Qed.
End trim.

Definition left_space : list ascii → bool := head_space is_ascii_space is_space2 is_space3.
Definition right_space (l : list ascii) : bool :=
  head_space is_ascii_space (λ c1 c2, is_space2 c2 c1) (λ c1 c2 c3, is_space3 c3 c2 c1) (rev l).

(** What [TrimSpace] leaves has no space at either end, and such a string stays. *)
Lemma TrimSpace_clean s :
  left_space (String.list_ascii_of_string s) = false →
  right_space (String.list_ascii_of_string s) = false → TrimSpace s = s.
Proof.
  intros Hl Hr. unfold TrimSpace, trim_left_bytes, trim_right_rev.
  rewrite (trim_front_clean _ _ _ (String.list_ascii_of_string s) Hl).
  rewrite (trim_front_clean _ _ _ _ Hr), rev_involutive. apply String.string_of_list_ascii_of_string.
Qed.

Lemma TrimSpace_ends s :
  let l := String.list_ascii_of_string (TrimSpace s) in
  left_space l = false ∧ right_space l = false.
Proof.
  unfold TrimSpace. rewrite String.list_ascii_of_string_of_list_ascii. simpl.
  unfold trim_left_bytes, trim_right_rev, right_space, left_space. rewrite rev_involutive.
  set (a := trim_front _ _ _ (String.list_ascii_of_string s)).
  destruct (trim_front_spec is_ascii_space is_space2 is_space3 (String.list_ascii_of_string s))
    as (cut & _ & Ha). fold a in Ha.
  destruct (trim_front_spec is_ascii_space (λ c1 c2, is_space2 c2 c1)
              (λ c1 c2 c3, is_space3 c3 c2 c1) (rev a)) as (cut' & Heq & Hb).
  split; [|done]. apply (f_equal (@rev ascii)) in Heq. rewrite rev_involutive, rev_app_distr in Heq.
  rewrite Heq in Ha. by apply head_space_prefix in Ha.
Qed.

Lemma TrimSpace_idem s : TrimSpace (TrimSpace s) = TrimSpace s.
Proof. apply TrimSpace_clean; apply TrimSpace_ends. Qed.

(** Text of ASCII bytes that are not white space stays as it is. *)
Definition plain_char (c : ascii) : bool := negb (is_ascii_space c) && (nat_of_ascii c <? 128)%nat.

Lemma plain_char_facts c :
  plain_char c = true →
  is_ascii_space c = false ∧ (∀ c', is_space2 c c' = false ∧ is_space2 c' c = false)
  ∧ ∀ c' c'', is_space3 c c' c'' = false ∧ is_space3 c'' c' c = false.
Proof.
  intros [Hs%negb_true_iff Hlt%Nat.ltb_lt]%andb_prop.
  assert (Hne : ∀ n, (128 ≤ n)%nat → (nat_of_ascii c =? n)%nat = false) by (intros n Hn; apply Nat.eqb_neq; lia).
  assert (Hin : ascii_in 128 138 (nat_of_ascii c) = false)
    by (apply andb_false_iff; left; apply Nat.leb_gt; lia).
  split; [done|]. unfold is_space2, is_space3. split; intros; rewrite !Hne, ?Hin by lia; by rewrite ?andb_false_r.
Qed.

Lemma TrimSpace_plain s :
  Forall (λ c, plain_char c = true) (String.list_ascii_of_string s) → TrimSpace s = s.
Proof.
  assert (Hhead : ∀ l, Forall (λ c, plain_char c = true) l →
            left_space l = false ∧ head_space is_ascii_space (λ c1 c2, is_space2 c2 c1) (λ c1 c2 c3, is_space3 c3 c2 c1) l = false).
  { intros l [|c r Hc _]; [done|]. destruct (plain_char_facts c Hc) as (H1 & H2 & H3).
    unfold left_space, head_space. rewrite H1.
    destruct r as [|c2 [|c3 r]]; cbn; rewrite ?(proj1 (H2 c2)), ?(proj2 (H2 c2)); [done..|].
    by rewrite (proj1 (H3 c2 c3)), (proj2 (H3 c2 c3)). }
  intros Hs. apply TrimSpace_clean; [by apply Hhead|]. apply Hhead. by rewrite <- Permutation_rev.
Qed.

#[export] Hint Rewrite TrimSpace_idem : gostr.

(** ** Lemmas on concatenation *)

Lemma append_assoc (a b c : string) : a +:+ (b +:+ c) = (a +:+ b) +:+ c.
Proof. induction a as [|x a IH]; [done|]. exact (f_equal (String.String x) IH). Qed.

Lemma append_nil_r (a : string) : a +:+ "" = a.
Proof. induction a as [|x a IH]; [done|]. exact (f_equal (String.String x) IH). Qed.

Lemma append_eq_nil (a b : string) : a +:+ b = "" → a = "" ∧ b = "".
Proof. by destruct a. Qed.

#[export] Hint Rewrite append_nil_r : gostr.

Lemma concat_snoc (l : list string) (x : string) :
  String.concat "" (l ++ [x]) = String.concat "" l +:+ x.
Proof.
  induction l as [|y l IH]; [done|]. destruct l as [|z l]; [done|]. cbn [app String.concat] in *.
  rewrite IH. by rewrite !append_assoc.
Qed.

Lemma concat_strings_app (l m : list string) :
  String.concat "" (l ++ m) = String.concat "" l +:+ String.concat "" m.
Proof.
  induction m as [|x m IH] using rev_ind; [by rewrite app_nil_r, append_nil_r|].
  by rewrite app_assoc, !concat_snoc, IH, append_assoc.
Qed.

Lemma concat_strings_cons s (l : list string) : String.concat "" (s :: l) = s +:+ String.concat "" l.
Proof. by rewrite <- (concat_strings_app [s]). Qed.

(** ** Lemmas on lists *)

Lemma delete_subset {A} i (l : list A) : delete i l ⊆ l.
Proof.
  revert i. induction l as [|y l IH]; intros [|i] x; cbn; [done..|by right|].
  intros [->|H]%elem_of_cons; [by left|right; by eapply IH].
Qed.

Lemma delete_replaced {A} i (x : A) (l : list A) : delete i (<[i := x]> l) = delete i l.
Proof. revert i. induction l as [|y l IH]; intros [|i]; cbn; [done..|]. f_equal. apply IH. Qed.

Lemma filter_all {A} (P : A → Prop) `{!∀ x, Decision (P x)} l : Forall P l → filter P l = l.
Proof. induction 1; [done|]. rewrite filter_cons_True by done. by f_equal. Qed.

Lemma filter_none {A} (P : A → Prop) `{!∀ x, Decision (P x)} l : Forall (λ x, ¬ P x) l → filter P l = [].
Proof. induction 1; [done|]. by rewrite filter_cons_False by done. Qed.

Lemma StronglySorted_by_index {A} (R : A → A → Prop) l :
  (∀ i j a b, l !! i = Some a → l !! j = Some b → (i < j)%nat → R a b) → StronglySorted R l.
Proof.
  induction l as [|x l IH]; intros H; constructor.
  - apply IH. intros i j a b Ha Hb Hij. apply (H (S i) (S j)); [done..|lia].
  - apply list.Forall_lookup. intros i b Hb. apply (H O (S i)); [done..|lia].
Qed.

(** Exactly one element counts. *)
Lemma omap_unique {A B} (f : A → option B) (l : list A) i x y :
  (∀ j z, l !! j = Some z → is_Some (f z) → j = i) → l !! i = Some x → f x = Some y →
  omap f l = [y].
Proof.
  revert i. induction l as [|a l IH]; intros i Huniq Hi Hx; [done|].
  assert (Hnone : ∀ n, (∀ j z, l !! j = Some z → is_Some (f z) → S j = n) → n = O → omap f l = []).
  { clear. intros n Hl ->. induction l as [|b l IH]; [done|]. cbn.
    destruct (f b) eqn:E; [specialize (Hl O b eq_refl); naive_solver|].
    apply IH. intros j z Hj Hz. by specialize (Hl (S j) z Hj Hz). }
  destruct i as [|i]; cbn in *.
  - simplify_eq. rewrite Hx. f_equal. apply (Hnone O); [|done]. intros j z Hj Hz. by apply (Huniq (S j) z).
  - destruct (f a) eqn:E; [specialize (Huniq O a eq_refl); naive_solver|].
    apply (IH i); try done. intros j z Hj Hz. specialize (Huniq (S j) z Hj Hz). lia.
Qed.

Lemma omap_none {A B} (f : A → option B) (l : list A) :
  (∀ x, x ∈ l → f x = None) → omap f l = [].
Proof.
  induction l as [|a l IH]; intros Hnone; [done|]. cbn. rewrite Hnone by by left.
  apply IH. intros x Hx. apply Hnone. by right.
Qed.

(** ** Comparisons *)

Lemma bool_decide_refl {A} (x : A) `{!Decision (x = x)} : bool_decide (x = x) = true.
Proof. by apply bool_decide_eq_true_2. Qed.

(** ** The order of strings *)

Lemma string_ltb_lt a b : string_ltb a b = true ↔ OrderedTypeEx.String_as_OT.lt a b.
Proof.
  rewrite <- OrderedTypeEx.String_as_OT.cmp_lt. unfold string_ltb, String.ltb.
  unfold OrderedTypeEx.String_as_OT.cmp. by destruct (String.compare a b).
Qed.

Lemma string_ltb_asym a b : string_ltb a b = true → string_ltb b a = false.
Proof.
  unfold string_ltb, String.ltb. rewrite (String.compare_antisym b a).
  by destruct (String.compare a b).
Qed.

Lemma string_ltb_eq a b : string_ltb a b = false → string_ltb b a = false → a = b.
Proof.
  unfold string_ltb, String.ltb. rewrite (String.compare_antisym b a).
  destruct (String.compare a b) eqn:E; try done. intros _ _. by apply String.compare_eq_iff.
Qed.

Lemma string_not_ltb_trans a b c :
  string_ltb b a = false → string_ltb c b = false → string_ltb c a = false.
Proof.
  intros H1 H2. destruct (string_ltb c a) eqn:E; [|done]. exfalso.
  destruct (string_ltb a b) eqn:Eab.
  - apply not_true_iff_false in H2. apply H2, string_ltb_lt.
    eapply OrderedTypeEx.String_as_OT.lt_trans; by apply string_ltb_lt.
  - rewrite (string_ltb_eq a b) in E by done. congruence.
Qed.
