(* ===== verification/StableSort.v ===== *)
(** * Go's stable sort

    [sort.SliceStable] as the runtime's [insertionSort] does it: each element is
    swapped to the left while it is [less] than its left neighbour.  (On more
    than 20 elements the runtime sorts blocks and merges them; under a strict weak
    order every stable sort gives this same list, see [stable_sort_unique].) *)

From Stdlib Require Import Sorting.Sorted Sorting.Permutation.
From S2P Require Import Prelude.

Section definitions.
Context {A : Type} (less : A → A → bool).

(** The sorted prefix is kept in reverse: its head is the left neighbour. *)
Fixpoint sift (x : A) (rprefix : list A) : list A :=
  match rprefix with
  | [] => [x]
  | y :: ys => if less x y then y :: sift x ys else x :: rprefix
  end.

Definition SliceStable (l : list A) : list A :=
  rev (fold_left (λ rprefix x, sift x rprefix) l []).

(** [x] may stand before [y]. *)
Definition not_after (x y : A) : Prop := less y x = false.

(** Neither is less than the other. *)
Definition equivb (x y : A) : bool := negb (less x y) && negb (less y x).

(** What the comparator must satisfy on the elements being sorted. *)
Class StrictWeak (P : A → Prop) := {
  less_asym : ∀ x y, P x → P y → less x y = true → less y x = false;
  not_less_trans : ∀ x y z, P x → P y → P z →
    less y x = false → less z y = false → less z x = false
}.
End definitions.

Section theory.
Context {A : Type} (less : A → A → bool) (P : A → Prop) `{!StrictWeak less P}.

#[local] Abbreviation rsorted := (StronglySorted (λ x y, not_after less y x)).

Lemma sift_perm x l : Permutation (x :: l) (sift less x l).
Proof.
  induction l as [|y l IH]; simpl; [done|].
  destruct (less x y); [|done].
  etransitivity; [apply perm_swap|]. by constructor.
Qed.

Lemma fold_sift_perm l acc :
  Permutation (rev l ++ acc) (fold_left (λ r x, sift less x r) l acc).
Proof.
  revert acc; induction l as [|x l IH]; intros acc; simpl; [done|].
  rewrite <- IH, <- app_assoc. simpl. by rewrite <- sift_perm.
Qed.

Lemma SliceStable_perm l : Permutation l (SliceStable less l).
Proof.
  unfold SliceStable. rewrite <- Permutation_rev, <- (fold_sift_perm l []), app_nil_r.
  apply Permutation_rev.
Qed.

Lemma sift_sorted x l : P x → Forall P l → rsorted l → rsorted (sift less x l).
Proof.
  intros Hx HP Hs. induction Hs as [|y l Hs IH Hall]; simpl; [by repeat constructor|].
  apply Forall_cons_iff in HP as [Hy Hl].
  destruct (less x y) eqn:E.
  - constructor; [by apply IH|].
    eapply Permutation_Forall; [apply (sift_perm x l)|].
    constructor; [|done]. unfold not_after. by apply less_asym with (P := P).
  - constructor; [by constructor|]. constructor; [done|].
    rewrite Forall_forall in Hall |- *. intros z Hz. unfold not_after in *.
    rewrite Forall_forall in Hl.
    apply not_less_trans with (P := P) (y := y); auto.
Qed.

Lemma sorted_app_single (R : A → A → Prop) l x :
  StronglySorted R l → Forall (λ y, R y x) l → StronglySorted R (l ++ [x]).
Proof.
  induction 1 as [|y l Hs IH Hall]; simpl; intros Hx; [by repeat constructor|].
  apply Forall_cons_iff in Hx as [Hyx Hx].
  constructor; [by apply IH|]. apply Forall_app. by repeat constructor.
Qed.

Lemma rev_sorted (R : A → A → Prop) l :
  StronglySorted R l → StronglySorted (λ x y, R y x) (rev l).
Proof.
  induction 1 as [|x l Hs IH Hall]; simpl; [constructor|].
  apply sorted_app_single; [done|]. by apply Forall_rev.
Qed.

Lemma fold_sift_sorted l acc :
  Forall P l → Forall P acc → rsorted acc →
  rsorted (fold_left (λ r x, sift less x r) l acc).
Proof.
  revert acc; induction l as [|x l IH]; intros acc Hl Hacc Hs; simpl; [done|].
  apply Forall_cons_iff in Hl as [Hx Hl]. apply IH; [done| |by apply sift_sorted].
  eapply Permutation_Forall; [apply (sift_perm x acc)|]. by constructor.
Qed.

Lemma SliceStable_sorted l :
  Forall P l → StronglySorted (not_after less) (SliceStable less l).
Proof.
  intros Hl. unfold SliceStable.
  apply (rev_sorted (λ x y, not_after less y x)).
  apply fold_sift_sorted; [done|constructor|constructor].
Qed.

(** Stability: the elements equivalent to [e] keep their relative order. *)
Lemma sift_stable e x l :
  P e → P x → Forall P l → rsorted l →
  List.filter (equivb less e) (sift less x l) = List.filter (equivb less e) (x :: l).
Proof.
  intros He Hx HP Hs. induction Hs as [|y l Hs IH Hall]; simpl; [done|].
  apply Forall_cons_iff in HP as [Hy Hl].
  destruct (less x y) eqn:E; [|done]. simpl. rewrite IH by done. simpl.
  destruct (equivb less e x) eqn:Ex, (equivb less e y) eqn:Ey; try done.
  exfalso. unfold equivb in Ex, Ey. bool_to_prop.
  assert (less x y = false); [|congruence].
  apply not_less_trans with (P := P) (y := e); auto.

Qed.

Lemma fold_sift_stable e l acc :
  P e → Forall P l → Forall P acc → rsorted acc →
  List.filter (equivb less e) (fold_left (λ r x, sift less x r) l acc)
  = rev (List.filter (equivb less e) l) ++ List.filter (equivb less e) acc.
Proof.
  intros He. revert acc; induction l as [|x l IH]; intros acc Hl Hacc Hs; simpl; [done|].
  apply Forall_cons_iff in Hl as [Hx Hl]. rewrite IH; [|done| |by apply sift_sorted].
  - rewrite sift_stable by done. simpl.
    destruct (equivb less e x); simpl; [|done]. by rewrite <- app_assoc.
  - eapply Permutation_Forall; [apply (sift_perm x acc)|]. by constructor.
Qed.

Lemma list_filter_rev (p : A → bool) l :
  List.filter p (rev l) = rev (List.filter p l).
Proof.
  induction l as [|x l IH]; simpl; [done|].
  rewrite List.filter_app, IH. simpl. destruct (p x); simpl; [done|by rewrite app_nil_r].
Qed.

Lemma SliceStable_stable e l :
  P e → Forall P l →
  List.filter (equivb less e) (SliceStable less l) = List.filter (equivb less e) l.
Proof.
  intros He Hl. unfold SliceStable.
  rewrite list_filter_rev, fold_sift_stable by (done || constructor).
  simpl. by rewrite app_nil_r, rev_involutive.
Qed.

(** A list is determined by its order and by the order of its equivalent
    elements, so every stable sort returns the same list. *)
Lemma sorted_filter_eq l1 l2 :
  Forall P l1 → Forall P l2 →
  StronglySorted (not_after less) l1 → StronglySorted (not_after less) l2 →
  (∀ e, P e → List.filter (equivb less e) l1 = List.filter (equivb less e) l2) →
  l1 = l2.
Proof.
  assert (Hrefl : ∀ x, P x → equivb less x x = true).
  { intros x Hx. unfold equivb. destruct (less x x) eqn:E; [|done].
    pose proof (less_asym less x x Hx Hx E). congruence. }
  intros Hl1 Hl2 Hs1; revert l2 Hl2.
  induction Hs1 as [|x t1 Hs1 IH Hall1]; intros [|y t2] Hl2 Hs2 Heq; [done| | |].
  - apply Forall_cons_iff in Hl2 as [Hy _]. specialize (Heq y Hy). simpl in Heq.
    by rewrite Hrefl in Heq.
  - apply Forall_cons_iff in Hl1 as [Hx _]. specialize (Heq x Hx). simpl in Heq.
    by rewrite Hrefl in Heq.
  - apply Forall_cons_iff in Hl1 as [Hx Hl1]. apply Forall_cons_iff in Hl2 as [Hy Hl2].
    inversion_clear Hs2 as [|?? Hs2' Hall2].
    assert (Hin : x = y ∨ x ∈ t2).
    { assert (x ∈ List.filter (equivb less x) (y :: t2)) as Hin.
      { rewrite <- Heq by done. simpl. rewrite Hrefl by done. left. }
      rewrite list_elem_of_In, List.filter_In in Hin. destruct Hin as [[->|Hin] _]; [by left|].
      right. by apply list_elem_of_In. }
    assert (Hin' : x = y ∨ y ∈ t1).
    { assert (y ∈ List.filter (equivb less y) (x :: t1)) as Hin''.
      { rewrite Heq by done. simpl. rewrite Hrefl by done. left. }
      rewrite list_elem_of_In, List.filter_In in Hin''.
      destruct Hin'' as [[->|Hin''] _]; [by left|].
      right. by apply list_elem_of_In. }
    assert (x = y) as ->.
    { destruct Hin as [|Hin]; [done|]. destruct Hin' as [|Hin']; [done|].
      rewrite Forall_forall in Hall1, Hall2.
      apply list_elem_of_In in Hin, Hin'.
      pose proof (Hall1 y Hin') as H1. pose proof (Hall2 x Hin) as H2.
      unfold not_after in *. pose proof (Heq x Hx) as He. simpl in He.
      rewrite Hrefl in He by done. unfold equivb at 2 in He. rewrite H1, H2 in He.
      simpl in He. congruence. }
    f_equal. apply IH; [done..|]. intros e He. specialize (Heq e He). simpl in Heq.
    destruct (equivb less e y); congruence.
Qed.

Lemma stable_sort_unique l l' :
  Forall P l → Permutation l l' → StronglySorted (not_after less) l' →
  (∀ e, P e → List.filter (equivb less e) l' = List.filter (equivb less e) l) →
  l' = SliceStable less l.
Proof.
  intros Hl Hperm Hs Hst. apply sorted_filter_eq; [..|].
  - by eapply Permutation_Forall.
  - eapply Permutation_Forall; [apply SliceStable_perm|done].
  - done.
  - by apply SliceStable_sorted.
  - intros e He. by rewrite Hst, SliceStable_stable by done.
Qed.
End theory.

(** ** Lexicographic comparisons *)

Definition lex {A} (less1 less2 : A → A → bool) (x y : A) : bool :=
  if negb (less1 x y) && negb (less1 y x) then less2 x y else less1 x y.

#[export] Instance lex_strict_weak {A} (less1 less2 : A → A → bool) (P : A → Prop)
  `{!StrictWeak less1 P} `{!StrictWeak less2 P} : StrictWeak (lex less1 less2) P.
Proof.
  split; unfold lex.
  - intros x y Hx Hy H. destruct (less1 x y) eqn:E1; simpl in *.
    + pose proof (@less_asym _ less1 P _ x y Hx Hy E1) as E2. by rewrite E2.
    + destruct (less1 y x) eqn:E2; simpl in *; [done|]. by apply (@less_asym _ less2 P _) in H.
  - intros x y z Hx Hy Hz.
    pose proof (@not_less_trans _ less1 P _ x y z Hx Hy Hz).
    pose proof (@not_less_trans _ less1 P _ y z x Hy Hz Hx).
    pose proof (@not_less_trans _ less1 P _ z x y Hz Hx Hy).
    pose proof (@not_less_trans _ less1 P _ z y x Hz Hy Hx).
    pose proof (@not_less_trans _ less1 P _ y x z Hy Hx Hz).
    pose proof (@not_less_trans _ less1 P _ x z y Hx Hz Hy).
    pose proof (@not_less_trans _ less2 P _ x y z Hx Hy Hz).
    destruct (less1 x y) eqn:Exy, (less1 y x) eqn:Eyx, (less1 y z) eqn:Eyz, (less1 z y) eqn:Ezy,
      (less1 x z) eqn:Exz, (less1 z x) eqn:Ezx; simpl; intuition congruence.
Qed.

(** Where equivalent elements are equal the order before sorting does not matter. *)
Lemma perm_of_equals {A} (l l' : list A) :
  Permutation l l' → (∀ x y, x ∈ l → y ∈ l → x = y) → l = l'.
Proof.
  revert l'. induction l as [|x l IH]; intros l' Hp Heq.
  - symmetry. by apply Permutation_nil.
  - destruct l' as [|y l']; [by apply Permutation_sym, Permutation_nil in Hp|].
    assert (x = y) as ->.
    { apply Heq; [by left|]. rewrite Hp. by left. }
    f_equal. apply IH; [by eapply Permutation_cons_inv|]. intros u v Hu Hv. apply Heq; by right.
Qed.

Lemma list_filter_perm {A} (f : A → bool) (l l' : list A) :
  Permutation l l' → Permutation (List.filter f l) (List.filter f l').
Proof.
  induction 1 as [|x l l' Hp IH|x y l|l l' l'' Hp1 IH1 Hp2 IH2]; cbn.
  - done.
  - destruct (f x); [by constructor|done].
  - destruct (f x), (f y); try done. constructor.
  - by etransitivity.
Qed.

Section total.
Context {A : Type} (less : A → A → bool) (P : A → Prop) `{!StrictWeak less P}.

Lemma equivb_trans x y z :
  P x → P y → P z → equivb less x y = true → equivb less x z = true → equivb less y z = true.
Proof.
  unfold equivb. intros Hx Hy Hz. rewrite !andb_true_iff, !negb_true_iff. intros [H1 H2] [H3 H4].
  split; [by apply (@not_less_trans _ less P _ z x y)|by apply (@not_less_trans _ less P _ y x z)].
Qed.

Lemma SliceStable_no_order l l' :
  Forall P l → Permutation l l' → (∀ x y, x ∈ l → y ∈ l → equivb less x y = true → x = y) →
  SliceStable less l = SliceStable less l'.
Proof.
  intros Hl Hp Heq. assert (Hl' : Forall P l') by (by rewrite <-Hp).
  symmetry. apply (stable_sort_unique less P); [done| |by apply (SliceStable_sorted less P)|].
  { etransitivity; [exact Hp|apply SliceStable_perm]. }
  intros e He. rewrite (SliceStable_stable less P) by done. symmetry.
  apply perm_of_equals; [by apply list_filter_perm|].
  intros x y [Hx Ex]%list_elem_of_In%List.filter_In [Hy Ey]%list_elem_of_In%List.filter_In.
  apply list_elem_of_In in Hx, Hy. rewrite list.Forall_forall in Hl.
  apply Heq; [done..|]. by apply (equivb_trans e); auto.
Qed.
End total.
