(* ===== verification/GoFloat.v ===== *)
(** * Go's [float64]

    IEEE 754 binary64 with round to nearest even, as Stdlib's [SpecFloat] defines
    it (mantissa 53 bits, exponent bound 1024): executable, and without axioms. *)

From Stdlib Require Export SpecFloat.
From S2P Require Import Prelude.

Definition float64 : Type := spec_float.

Definition fadd : float64 → float64 → float64 := SFadd 53 1024.
Definition fsub : float64 → float64 → float64 := SFsub 53 1024.
Definition fmul : float64 → float64 → float64 := SFmul 53 1024.
Definition fdiv : float64 → float64 → float64 := SFdiv 53 1024.

(** [float64(n)] for an integer [n] *)
Definition of_int (n : Z) : float64 := binary_normalize 53 1024 n 0 false.

(** The literal n/d: both are exact, so the quotient is correctly rounded. *)
Definition flit (n d : Z) : float64 := fdiv (of_int n) (of_int d).

Definition fzero : float64 := S754_zero false.

Definition flt (x y : float64) : bool := SFltb x y.
Definition fgt (x y : float64) : bool := SFltb y x.
Definition fle (x y : float64) : bool := SFleb x y.
Definition feq (x y : float64) : bool := SFeqb x y.

Definition is_nan (x : float64) : bool :=
  match x with S754_nan => true | _ => false end.

(** [int64(x)]: truncation towards zero; [None] when the value is not
    representable, where the Go specification leaves the result to the
    implementation. *)
Definition trunc_int64 (x : float64) : option Z :=
  match x with
  | S754_zero _ => Some 0
  | S754_finite s m e =>
      let a := if e <? 0 then Z.shiftr (Zpos m) (- e) else Z.shiftl (Zpos m) e in
      let z := if s then - a else a in
      if bool_decide (min_int64 ≤ z ∧ z ≤ max_int64) then Some z else None
  | _ => None
  end.

(** The order key of a number that is not NaN: sign class, exponent, mantissa. *)
Definition fkey (x : float64) : Z * Z * Z :=
  match x with
  | S754_zero _ => (0, 0, 0)
  | S754_infinity false => (2, 0, 0)
  | S754_infinity true => (-2, 0, 0)
  | S754_finite false m e => (1, e, Zpos m)
  | S754_finite true m e => (-1, - e, - Zpos m)
  | S754_nan => (0, 0, 0)
  end.

Definition key_lt (a b : Z * Z * Z) : Prop :=
  let '(a1, a2, a3) := a in let '(b1, b2, b3) := b in
  a1 < b1 ∨ (a1 = b1 ∧ (a2 < b2 ∨ (a2 = b2 ∧ a3 < b3))).

#[global] Arguments fadd : simpl never.
#[global] Arguments fsub : simpl never.
#[global] Arguments fmul : simpl never.
#[global] Arguments fdiv : simpl never.
#[global] Arguments of_int : simpl never.
#[global] Arguments flit : simpl never.
#[global] Arguments flt : simpl never.
#[global] Arguments fgt : simpl never.
#[global] Arguments fle : simpl never.
#[global] Arguments feq : simpl never.

(** Not below zero: zero, a positive number, or NaN. *)
Definition fnonneg (x : float64) : Prop :=
  match x with
  | S754_zero s | S754_infinity s | S754_finite s _ _ => s = false
  | S754_nan => True
  end.

(** ** The comparison is the order of the keys *)

Lemma flt_key x y :
  is_nan x = false → is_nan y = false → flt x y = true ↔ key_lt (fkey x) (fkey y).
Proof.
  unfold flt, SFltb, SFcompare.
  destruct x as [[]|[]| |[] m e], y as [[]|[]| |[] m' e']; simpl; intros;
    try discriminate;
    try (split; [try discriminate; intros; lia | try reflexivity; intros; lia]).
  - destruct (Z.compare_spec e e') as [->|H1|H1];
      [|split; [discriminate|intros; lia]|split; [intros; lia|done]].
    change (Pos.compare_cont Eq m m') with (m ?= m')%positive.
    destruct (Pos.compare_spec m m') as [->|H1|H1]; simpl;
      (split; [try discriminate; intros; lia|try done; intros; lia]).
  - destruct (Z.compare_spec e e') as [->|H1|H1];
      [|split; [intros; lia|done]|split; [discriminate|intros; lia]].
    change (Pos.compare_cont Eq m m') with (m ?= m')%positive.
    destruct (Pos.compare_spec m m') as [->|H1|H1]; simpl;
      (split; [try discriminate; intros; lia|try done; intros; lia]).
Qed.

Lemma flt_false_key x y :
  is_nan x = false → is_nan y = false → flt x y = false ↔ ¬ key_lt (fkey x) (fkey y).
Proof.
  intros Hx Hy. rewrite <- flt_key by done. by rewrite not_true_iff_false.
Qed.

Lemma key_lt_asym a b : key_lt a b → ¬ key_lt b a.
Proof. destruct a as [[a1 a2] a3], b as [[b1 b2] b3]. simpl. lia. Qed.

Lemma key_not_lt_trans a b c : ¬ key_lt b a → ¬ key_lt c b → ¬ key_lt c a.
Proof.
  destruct a as [[a1 a2] a3], b as [[b1 b2] b3], c as [[c1 c2] c3]. simpl. lia.
Qed.

Lemma flt_asym x y : is_nan x = false → is_nan y = false → flt x y = true → flt y x = false.
Proof.
  intros Hx Hy H. apply flt_false_key; [done..|].
  apply key_lt_asym. by apply flt_key.
Qed.

Lemma not_flt_trans x y z :
  is_nan x = false → is_nan y = false → is_nan z = false →
  flt y x = false → flt z y = false → flt z x = false.
Proof.
  intros Hx Hy Hz. rewrite !flt_false_key by done. apply key_not_lt_trans.
Qed.

(** [==] is the equivalence of the order. *)
Lemma feq_flt x y :
  is_nan x = false → is_nan y = false →
  feq x y = negb (flt x y) && negb (flt y x).
Proof.
  unfold feq, SFeqb, flt, SFltb, SFcompare.
  destruct x as [[]|[]| |[] m e], y as [[]|[]| |[] m' e']; simpl; intros;
    try discriminate; try reflexivity;
    rewrite (Z.compare_antisym e e'); change (Pos.compare_cont Eq) with Pos.compare;
    rewrite (Pos.compare_antisym m m');
    destruct (e ?= e'), (m ?= m')%positive; reflexivity.
Qed.

Lemma flt_not_eq x y :
  is_nan x = false → is_nan y = false → feq x y = false → flt x y = negb (flt y x).
Proof.
  intros Hx Hy. rewrite feq_flt by done.
  destruct (flt x y) eqn:E; simpl.
  - by rewrite (flt_asym x y) by done.
  - by destruct (flt y x).
Qed.

(** ** Signs *)

Lemma round_aux_nonneg m e l : fnonneg (binary_round_aux 53 1024 false m e l).
Proof.
  unfold binary_round_aux. destruct (shr_fexp _ _ _ _ _) as [mrs e'].
  destruct (shr_fexp _ _ (round_nearest_even _ _) _ _) as [mrs' e''].
  destruct (shr_m mrs'); [done| |done]. by destruct (_ <=? _).
Qed.

Lemma round_nonneg m e : fnonneg (binary_round 53 1024 false m e).
Proof. unfold binary_round. destruct (shl_align _ _ _). apply round_aux_nonneg. Qed.

Lemma normalize_nonneg m e : 0 ≤ m → fnonneg (binary_normalize 53 1024 m e false).
Proof. destruct m; simpl; [done| |lia]. intros _. apply round_nonneg. Qed.

Lemma of_int_nonneg n : 0 ≤ n → fnonneg (of_int n).
Proof. apply normalize_nonneg. Qed.

Lemma fadd_nonneg x y : fnonneg x → fnonneg y → fnonneg (fadd x y).
Proof.
  unfold fadd, SFadd. destruct x as [[]|[]| |[] m e], y as [[]|[]| |[] m' e']; simpl; try done.
  intros _ _. apply round_nonneg.
Qed.

Lemma fmul_nonneg x y : fnonneg x → fnonneg y → fnonneg (fmul x y).
Proof.
  unfold fmul, SFmul. destruct x as [[]|[]| |[] m e], y as [[]|[]| |[] m' e']; simpl; try done.
  intros _ _. apply round_aux_nonneg.
Qed.

Lemma fdiv_nonneg x y : fnonneg x → fnonneg y → fnonneg (fdiv x y).
Proof.
  unfold fdiv, SFdiv. destruct x as [[]|[]| |[] m e], y as [[]|[]| |[] m' e']; try (simpl; done).
  intros _ _. destruct (SFdiv_core_binary _ _ _ _ _ _) as [[mz ez] lz]. apply round_aux_nonneg.
Qed.

(** What is above a number that is not negative, or not at most zero, is not negative. *)
Lemma fgt_nonneg x y : fnonneg y → fgt x y = true → fnonneg x.
Proof.
  unfold fgt, SFltb, SFcompare. by destruct x as [[]|[]| |[] m e], y as [[]|[]| |[] m' e'].
Qed.

Lemma fle_zero_nonneg x : fle x fzero = false → fnonneg x.
Proof. unfold fle, SFleb, SFcompare, fzero. by destruct x as [[]|[]| |[] m e]. Qed.

#[export] Hint Resolve of_int_nonneg fadd_nonneg fmul_nonneg fdiv_nonneg fle_zero_nonneg : fnonneg.
#[export] Hint Extern 1 (fnonneg fzero) => reflexivity : fnonneg.
#[export] Hint Extern 2 (0 ≤ _) => lia : fnonneg.
