(* ===== verification/SiteConfig.v ===== *)
(** * Gateway settings of a site

    [site/gateway_config.go]: the settings an upstream site carries in its
    metadata, their normalisation and the merge of a patch into stored settings.
    Reading the JSON text is the business of [encoding/json]: here the stored
    value is the decoded structure, and [None] one that is missing or malformed. *)

From S2P Require Import Prelude.

Definition ResponsesToolPolicyPassthrough : string := "passthrough".
Definition ResponsesToolPolicyCompatibility : string := "compatibility".
Definition ResponsesHostedToolImageGeneration : string := "image_generation".
Definition QuotaProbePluginPrefix : string := "plugin:".

(** [SitePluginKinds]: the kinds of [jsplugin/kinds.go] that take effect per site. *)
Definition SitePluginKinds : list string :=
  ["model_list"; "credential_check"; "error_classifier"; "pricing_parse"].

(** Slices and maps that may be nil are options. *)
Record GatewayConfig := mkGatewayConfig {
  RequestTimeoutMS : option Z;
  ConnectTimeoutMS : option Z;
  ResponseHeaderTimeoutMS : option Z;
  MaxConcurrency : option Z;
  MaxModelConcurrency : option Z;
  MaxCredentialConcurrency : option Z;
  MaxIdleConns : option Z;
  MaxIdleConnsPerHost : option Z;
  MaxConnsPerHost : option Z;
  IdleConnTimeoutMS : option Z;
  ResponsesToolPolicy : string;
  DisabledResponsesTools : option (list string);
  ResponsesImageGenerationPolicy : string;
  ImpersonateCodexClient : option bool;
  ImpersonateClaudeCodeClient : option bool;
  QuotaProbe : option string;
  Plugins : option (gmap string string)
}.

Definition noGatewayConfig : GatewayConfig :=
  mkGatewayConfig None None None None None None None None None None "" None "" None None None None.

(** ** Plugins bound to the site *)

Definition is_blank (c : ascii) : bool :=
  let n := nat_of_ascii c in
  (n =? 32)%nat || (n =? 9)%nat || (n =? 13)%nat || (n =? 10)%nat.

(** [strings.ContainsAny] with the four blanks. *)
Definition ContainsBlank (s : string) : bool := existsb is_blank (String.list_ascii_of_string s).

(** A plugin id as it is kept, or nothing. *)
Definition pluginID (id : string) : option string :=
  let id := TrimSpace id in
  if bool_decide (id = "") || ContainsBlank id then None else Some id.

Definition normalizeSitePlugins (plugins : option (gmap string string))
    : option (gmap string string) :=
  match plugins with
  | None => None
  | Some m =>
      if bool_decide (m = ∅) then None
      else
        let out := foldl (λ out kind, match pluginID (default "" (m !! kind)) with
                                      | Some id => <[kind := id]> out
                                      | None => out
                                      end) ∅ SitePluginKinds in
        if bool_decide (out = ∅) then None else Some out
  end.

Definition SitePluginID (cfg : option GatewayConfig) (kind : string) : string :=
  match cfg with
  | None => ""
  | Some c => default "" (default ∅ (Plugins c) !! kind)
  end.

(** ** Quota probes *)

Definition quotaProbeTypes : list string :=
  ["sub2api"; "newapi"; "xlyra"; "kimi"; "glm"; "moonshot"; "deepseek"].

Definition NormalizeQuotaProbeType (value : string) : result string string :=
  let v := TrimSpace value in
  if bool_decide (v = "" ∨ v = "none") then Ok ""
  else if bool_decide (v ∈ quotaProbeTypes) then Ok v
  else if HasPrefix value QuotaProbePluginPrefix then
    let id := TrimSpace (String.substring 7 (String.length value - 7) value) in
    if bool_decide (id = "") || Contains id " " then Err "unsupported quota_probe type"
    else Ok (QuotaProbePluginPrefix +:+ id)%string
  else Err "unsupported quota_probe type".

Definition QuotaProbeTypeFromConfig (cfg : option GatewayConfig) : string :=
  match cfg ≫= QuotaProbe with
  | None => ""
  | Some probe => match NormalizeQuotaProbeType probe with Ok v => v | Err _ => "" end
  end.

(** ** Responses tools *)

Definition NormalizeResponsesToolPolicy (value : string) : string :=
  if bool_decide (TrimSpace value = ResponsesToolPolicyCompatibility)
  then ResponsesToolPolicyCompatibility else ResponsesToolPolicyPassthrough.

Definition normalizeResponsesHostedTool (value : string) : string :=
  if bool_decide (TrimSpace value = ResponsesHostedToolImageGeneration)
  then ResponsesHostedToolImageGeneration else "".

(** The tools, each once, in order of appearance; nil when there is none. *)
Definition NormalizeDisabledResponsesTools (values : option (list string)) : option (list string) :=
  let fix go (seen : gset string) (values : list string) : list string :=
    match values with
    | [] => []
    | value :: rest =>
        let tool := normalizeResponsesHostedTool value in
        if bool_decide (tool = "") then go seen rest
        else if bool_decide (tool ∈ seen) then go seen rest
        else tool :: go ({[tool]} ∪ seen) rest
    end in
  match go ∅ (default [] values) with
  | [] => None
  | tools => Some tools
  end.

Definition ResponsesToolDisabled (cfg : option GatewayConfig) (tool : string) : bool :=
  match cfg with
  | None => false
  | Some c =>
      if negb (bool_decide (NormalizeResponsesToolPolicy (ResponsesToolPolicy c)
                            = ResponsesToolPolicyCompatibility)) then false
      else
        let tool := normalizeResponsesHostedTool tool in
        if bool_decide (tool = "") then false
        else existsb (λ item, bool_decide (item = tool))
               (default [] (NormalizeDisabledResponsesTools (DisabledResponsesTools c)))
  end.

(** ** The whole configuration *)

Definition set_tools (policy : string) (tools : option (list string)) (legacy : string)
    (c : GatewayConfig) : GatewayConfig :=
  mkGatewayConfig (RequestTimeoutMS c) (ConnectTimeoutMS c) (ResponseHeaderTimeoutMS c)
    (MaxConcurrency c) (MaxModelConcurrency c) (MaxCredentialConcurrency c) (MaxIdleConns c)
    (MaxIdleConnsPerHost c) (MaxConnsPerHost c) (IdleConnTimeoutMS c) policy tools legacy
    (ImpersonateCodexClient c) (ImpersonateClaudeCodeClient c) (QuotaProbe c) (Plugins c).

Definition set_probe_plugins (probe : option string) (plugins : option (gmap string string))
    (c : GatewayConfig) : GatewayConfig :=
  mkGatewayConfig (RequestTimeoutMS c) (ConnectTimeoutMS c) (ResponseHeaderTimeoutMS c)
    (MaxConcurrency c) (MaxModelConcurrency c) (MaxCredentialConcurrency c) (MaxIdleConns c)
    (MaxIdleConnsPerHost c) (MaxConnsPerHost c) (IdleConnTimeoutMS c) (ResponsesToolPolicy c)
    (DisabledResponsesTools c) (ResponsesImageGenerationPolicy c)
    (ImpersonateCodexClient c) (ImpersonateClaudeCodeClient c) probe plugins.

Definition normalizeLegacyResponsesToolConfig (c : GatewayConfig) : GatewayConfig :=
  let legacy := TrimSpace (ResponsesImageGenerationPolicy c) in
  if bool_decide (legacy = "strip_auto_tool" ∨ legacy = "disabled") then
    set_tools
      (if bool_decide (ResponsesToolPolicy c = "") then ResponsesToolPolicyCompatibility
       else ResponsesToolPolicy c)
      (Some (default [] (DisabledResponsesTools c) ++ [ResponsesHostedToolImageGeneration])) "" c
  else set_tools (ResponsesToolPolicy c) (DisabledResponsesTools c) "" c.

(** The fields that must be positive, with the names of their errors. *)
Definition positiveFields (c : GatewayConfig) : list (string * option Z) :=
  [("request_timeout_ms", RequestTimeoutMS c); ("connect_timeout_ms", ConnectTimeoutMS c);
   ("response_header_timeout_ms", ResponseHeaderTimeoutMS c);
   ("max_concurrency", MaxConcurrency c); ("max_model_concurrency", MaxModelConcurrency c);
   ("max_credential_concurrency", MaxCredentialConcurrency c);
   ("max_idle_conns", MaxIdleConns c); ("max_idle_conns_per_host", MaxIdleConnsPerHost c);
   ("max_conns_per_host", MaxConnsPerHost c); ("idle_conn_timeout_ms", IdleConnTimeoutMS c)].

Definition notPositiveField (f : string * option Z) : bool :=
  match f.2 with Some v => v <=? 0 | None => false end.

Definition NormalizeGatewayConfig (input : GatewayConfig) : result GatewayConfig string :=
  let c := normalizeLegacyResponsesToolConfig input in
  let policy := if bool_decide (ResponsesToolPolicy c = "") then ""
                else NormalizeResponsesToolPolicy (ResponsesToolPolicy c) in
  let tools := match DisabledResponsesTools c with
               | None => None
               | Some l => Some (default [] (NormalizeDisabledResponsesTools (Some l)))
               end in
  let c := set_tools policy tools "" c in
  match (match QuotaProbe c with
         | None => Ok None
         | Some probe => match NormalizeQuotaProbeType probe with
                         | Ok v => Ok (Some v)
                         | Err e => Err e
                         end
         end) with
  | Err e => Err e
  | Ok probe =>
      let c := set_probe_plugins probe (normalizeSitePlugins (Plugins c)) c in
      match List.find notPositiveField (positiveFields c) with
      | Some field => Err (field.1 +:+ " must be greater than 0")%string
      | None => Ok c
      end
  end.

(** [GatewayConfigFromSiteMeta] on the decoded [gateway] member. *)
Definition GatewayConfigFromSiteMeta (decoded : option GatewayConfig) : option GatewayConfig :=
  match decoded with
  | None => None
  | Some c => match NormalizeGatewayConfig c with Ok n => Some n | Err _ => None end
  end.

Definition orElse {A} (patch existing : option A) : option A :=
  match patch with Some _ => patch | None => existing end.

(** The plugins of a patch over the existing ones: a blank id removes a binding. *)
Definition mergePlugins (existing : option (gmap string string)) (patch : gmap string string)
    : option (gmap string string) :=
  normalizeSitePlugins (Some (foldl (λ merged kind,
    match patch !! kind with
    | None => merged
    | Some id => if bool_decide (TrimSpace id = "") then delete kind merged
                 else <[kind := TrimSpace id]> merged
    end) (default ∅ existing) SitePluginKinds)).

Definition mergeGatewayConfig (existing : option GatewayConfig) (patch : GatewayConfig)
    : GatewayConfig :=
  match existing with
  | None => set_probe_plugins (QuotaProbe patch) (normalizeSitePlugins (Plugins patch)) patch
  | Some e =>
      mkGatewayConfig
        (orElse (RequestTimeoutMS patch) (RequestTimeoutMS e))
        (orElse (ConnectTimeoutMS patch) (ConnectTimeoutMS e))
        (orElse (ResponseHeaderTimeoutMS patch) (ResponseHeaderTimeoutMS e))
        (orElse (MaxConcurrency patch) (MaxConcurrency e))
        (orElse (MaxModelConcurrency patch) (MaxModelConcurrency e))
        (orElse (MaxCredentialConcurrency patch) (MaxCredentialConcurrency e))
        (orElse (MaxIdleConns patch) (MaxIdleConns e))
        (orElse (MaxIdleConnsPerHost patch) (MaxIdleConnsPerHost e))
        (orElse (MaxConnsPerHost patch) (MaxConnsPerHost e))
        (orElse (IdleConnTimeoutMS patch) (IdleConnTimeoutMS e))
        (if bool_decide (ResponsesToolPolicy patch = "") then ResponsesToolPolicy e
         else NormalizeResponsesToolPolicy (ResponsesToolPolicy patch))
        (match DisabledResponsesTools patch with
         | Some l => NormalizeDisabledResponsesTools (Some l)
         | None => DisabledResponsesTools e
         end)
        (ResponsesImageGenerationPolicy e)
        (orElse (ImpersonateCodexClient patch) (ImpersonateCodexClient e))
        (orElse (ImpersonateClaudeCodeClient patch) (ImpersonateClaudeCodeClient e))
        (match QuotaProbe patch with
         | None => QuotaProbe e
         | Some probe => match NormalizeQuotaProbeType probe with
                         | Ok v => if bool_decide (v = "") then None else Some v
                         | Err _ => QuotaProbe e
                         end
         end)
        (match Plugins patch with
         | Some p => mergePlugins (Plugins e) p
         | None => Plugins e
         end)
  end.

(** [MergeSiteGatewayConfig] on the decoded [gateway] member: what is stored. *)
Definition MergeSiteGatewayConfig (existing : option GatewayConfig) (gateway : option GatewayConfig)
    : result (option GatewayConfig) string :=
  match gateway with
  | None => Ok existing
  | Some g =>
      match NormalizeGatewayConfig g with
      | Err e => Err e
      | Ok normalized =>
          let patch := set_probe_plugins (QuotaProbe normalized) (Plugins g) normalized in
          Ok (Some (mergeGatewayConfig (GatewayConfigFromSiteMeta existing) patch))
      end
  end.

(** The shape of a normalised configuration. *)
Definition well_formed (c : GatewayConfig) : Prop :=
  ResponsesImageGenerationPolicy c = ""
  ∧ ResponsesToolPolicy c ∈ [""; ResponsesToolPolicyPassthrough; ResponsesToolPolicyCompatibility]
  ∧ DisabledResponsesTools c ∈ [None; Some []; Some [ResponsesHostedToolImageGeneration]]
  ∧ (∀ probe, QuotaProbe c = Some probe → NormalizeQuotaProbeType probe = Ok probe)
  ∧ normalizeSitePlugins (Plugins c) = Plugins c
  ∧ List.find notPositiveField (positiveFields c) = None.

(** ** Quota probes *)

Lemma prefix_split p s : HasPrefix s p = true → ∃ r, s = (p +:+ r)%string.
Proof.
  unfold HasPrefix. revert s. induction p as [|a p IH]; intros s; [by exists s|].
  destruct s as [|b s]; simpl; [done|]. destruct (ascii_dec a b) as [->|]; [|done].
  intros [r ->]%IH. by exists r.
Qed.

Lemma substring_all s : String.substring 0 (String.length s) s = s.
Proof. induction s as [|c s IH]; simpl; [done|by rewrite IH]. Qed.

Lemma probe_plugin_id id :
  String.substring 7 (String.length (QuotaProbePluginPrefix +:+ id)%string - 7)
    (QuotaProbePluginPrefix +:+ id)%string = id.
Proof. simpl. rewrite Nat.sub_0_r. apply substring_all. Qed.

(** A trimmed id stays trimmed behind the prefix. *)
Lemma probe_plugin_trim id :
  TrimSpace id = id →
  TrimSpace (QuotaProbePluginPrefix +:+ id)%string = (QuotaProbePluginPrefix +:+ id)%string.
Proof.
  intros Hid. pose proof (TrimSpace_ends id) as [_ Hr]. rewrite Hid in Hr.
  apply TrimSpace_clean; [done|].
  assert (Hl : String.list_ascii_of_string (QuotaProbePluginPrefix +:+ id)%string
               = String.list_ascii_of_string QuotaProbePluginPrefix
                 ++ String.list_ascii_of_string id) by done.
  rewrite Hl. unfold right_space in *. rewrite rev_app_distr.
  destruct (rev (String.list_ascii_of_string id)) as [|c1 [|c2 [|c3 l]]]; simpl in *; done.
Qed.

Lemma NormalizeQuotaProbeType_idem v w :
  NormalizeQuotaProbeType v = Ok w → NormalizeQuotaProbeType w = Ok w.
Proof.
  unfold NormalizeQuotaProbeType at 1. intros H.
  case_bool_decide as H1; [by simplify_eq|]. case_bool_decide as H2.
  - injection H as <-. unfold NormalizeQuotaProbeType. rewrite TrimSpace_idem.
    by rewrite bool_decide_eq_false_2, bool_decide_eq_true_2.
  - case_match; [|done]. case_match eqn:Eid; [done|]. injection H as <-.
    set (id := TrimSpace (String.substring 7 (String.length v - 7) v)) in *.
    apply orb_false_iff in Eid as [Hne Hblank]. apply bool_decide_eq_false in Hne.
    assert (Hid : TrimSpace id = id) by apply TrimSpace_idem.
    unfold NormalizeQuotaProbeType. rewrite probe_plugin_trim by done.
    rewrite bool_decide_eq_false_2 by (by intros [?|?]).
    rewrite bool_decide_eq_false_2 by (unfold quotaProbeTypes; rewrite !elem_of_cons, elem_of_nil; naive_solver).
    rewrite probe_plugin_id, Hid.
    assert (HasPrefix (QuotaProbePluginPrefix +:+ id)%string QuotaProbePluginPrefix = true) as ->
      by (unfold HasPrefix; simpl; by destruct id).
    by rewrite bool_decide_eq_false_2, Hblank.
Qed.

(** ** Tools *)

Lemma NormalizeDisabledResponsesTools_cases l :
  NormalizeDisabledResponsesTools l = None
  ∨ NormalizeDisabledResponsesTools l = Some [ResponsesHostedToolImageGeneration].
Proof.
  unfold NormalizeDisabledResponsesTools.
  match goal with |- context [?f ∅ (default [] l)] => set (go := f) end.
  assert (Hseen : ∀ values seen, ResponsesHostedToolImageGeneration ∈ seen → go seen values = []).
  { induction values as [|v values IH]; intros seen Hs; simpl; [done|].
    unfold normalizeResponsesHostedTool. repeat case_bool_decide; simpl; try done; auto. }
  induction (default [] l) as [|v values IH]; simpl; [by left|].
  unfold normalizeResponsesHostedTool.
  destruct (bool_decide (TrimSpace v = ResponsesHostedToolImageGeneration)); [|exact IH].
  rewrite !bool_decide_eq_false_2 by (done || apply not_elem_of_empty).
  right. rewrite Hseen; [done|]. by apply elem_of_union_l, elem_of_singleton.
Qed.

Lemma NormalizeResponsesToolPolicy_cases p :
  NormalizeResponsesToolPolicy p ∈ [ResponsesToolPolicyPassthrough; ResponsesToolPolicyCompatibility].
Proof. unfold NormalizeResponsesToolPolicy. case_bool_decide; set_solver. Qed.

Lemma policy_fixed p :
  p ∈ [ResponsesToolPolicyPassthrough; ResponsesToolPolicyCompatibility] →
  NormalizeResponsesToolPolicy p = p.
Proof.
  rewrite !elem_of_cons, elem_of_nil.
  intros [->|[->|[]]]; by vm_compute.
Qed.

(** ** Plugins *)

Definition keepPlugin (m : gmap string string) (out : gmap string string) (kind : string)
    : gmap string string :=
  match pluginID (default "" (m !! kind)) with Some id => <[kind := id]> out | None => out end.

(** The bindings that are kept, as a function of the kind. *)
Lemma keepPlugins_lookup m kinds out k :
  foldl (keepPlugin m) out kinds !! k
  = if decide (k ∈ kinds) then match pluginID (default "" (m !! k)) with
                               | Some id => Some id
                               | None => out !! k
                               end
    else out !! k.
Proof.
  revert out. induction kinds as [|kind kinds IH]; intros out; simpl; [done|].
  rewrite IH. unfold keepPlugin.
  destruct (decide (k = kind)) as [->|Hne].
  - destruct (pluginID _) as [id|]; rewrite ?lookup_insert_eq;
      repeat case_decide; try done; set_solver.
  - assert (match pluginID (default "" (m !! kind)) with Some id => <[kind:=id]> out | None => out end !! k
            = out !! k) as ->
      by (destruct (pluginID (default "" (m !! kind))); [by rewrite lookup_insert_ne by congruence|done]).
    repeat case_decide; try done; set_solver.
Qed.

Lemma pluginID_idem id id' : pluginID id = Some id' → pluginID id' = Some id'.
Proof.
  unfold pluginID. intros H. case_match eqn:E; [done|]. injection H as <-.
  by rewrite TrimSpace_idem, E.
Qed.

Lemma normalizeSitePlugins_idem p : normalizeSitePlugins (normalizeSitePlugins p) = normalizeSitePlugins p.
Proof.
  destruct p as [m|]; [|done]. unfold normalizeSitePlugins at 2 3.
  case_bool_decide; [done|]. fold (keepPlugin m). set (out := foldl (keepPlugin m) ∅ SitePluginKinds).
  case_bool_decide as Hout; [done|]. unfold normalizeSitePlugins.
  rewrite bool_decide_eq_false_2 by done. fold (keepPlugin out).
  assert (foldl (keepPlugin out) ∅ SitePluginKinds = out) as ->; [|by rewrite bool_decide_eq_false_2].
  apply map_eq. intros k. unfold out at 2. rewrite !keepPlugins_lookup, lookup_empty.
  unfold out. rewrite keepPlugins_lookup, lookup_empty. case_decide; [|done].
  destruct (pluginID (default "" (m !! k))) as [id|] eqn:E; simpl; [|done].
  by rewrite (pluginID_idem _ _ E).
Qed.

(** ** The whole configuration *)

Lemma well_formed_normal c : well_formed c → NormalizeGatewayConfig c = Ok c.
Proof.
  intros (Hl & Hp & Ht & Hq & Hg & Hf). unfold NormalizeGatewayConfig, normalizeLegacyResponsesToolConfig.
  rewrite Hl. cbv zeta.
  assert (bool_decide (TrimSpace "" = "strip_auto_tool" ∨ TrimSpace "" = "disabled") = false) as ->
    by (by vm_compute).
  simpl (ResponsesToolPolicy (set_tools _ _ _ _)). simpl (DisabledResponsesTools (set_tools _ _ _ _)).
  assert ((if bool_decide (ResponsesToolPolicy c = "") then "" else
             NormalizeResponsesToolPolicy (ResponsesToolPolicy c)) = ResponsesToolPolicy c) as ->.
  { case_bool_decide as E; [done|]. apply policy_fixed. rewrite !elem_of_cons, elem_of_nil in *. tauto. }
  assert (match DisabledResponsesTools c with
          | None => None
          | Some l => Some (default [] (NormalizeDisabledResponsesTools (Some l)))
          end = DisabledResponsesTools c) as ->.
  { repeat (apply elem_of_cons in Ht as [Ht|Ht]; [rewrite Ht; by vm_compute|]).
    by apply not_elem_of_nil in Ht. }
  destruct c as [f1 f2 f3 f4 f5 f6 f7 f8 f9 f10 pol tools leg cx cc probe plugins]. simpl in *. subst leg.
  rewrite Hg. destruct probe as [v|]; [rewrite (Hq v eq_refl)|]; by rewrite Hf.
Qed.

Lemma NormalizeGatewayConfig_well_formed c n : NormalizeGatewayConfig c = Ok n → well_formed n.
Proof.
  unfold NormalizeGatewayConfig. generalize (normalizeLegacyResponsesToolConfig c). clear c. intros c.
  simpl (QuotaProbe (set_tools _ _ _ _)).
  match goal with |- match ?p with Ok _ => _ | Err _ => _ end = _ → _ =>
    destruct p as [probe|] eqn:Eprobe; [|done] end.
  destruct (List.find _ _) eqn:Ef; [done|]. intros [= <-]. split_and!; simpl; [done| | | | |exact Ef].
  - case_bool_decide; [by left|]. right. apply NormalizeResponsesToolPolicy_cases.
  - destruct (DisabledResponsesTools c) as [l|]; [|by left].
    destruct (NormalizeDisabledResponsesTools_cases (Some l)) as [-> | ->]; simpl; set_solver.
  - intros v ->. destruct (QuotaProbe c) as [w|]; [|done].
    destruct (NormalizeQuotaProbeType w) as [v'|] eqn:E; simplify_eq. by eapply NormalizeQuotaProbeType_idem.
  - apply normalizeSitePlugins_idem.
Qed.

Lemma find_orElse (fs gs : list (string * option Z)) :
  List.find notPositiveField fs = None → List.find notPositiveField gs = None →
  List.find notPositiveField (zip_with (λ f g, (f.1, orElse f.2 g.2)) fs gs) = None.
Proof.
  revert gs. induction fs as [|f fs IH]; intros [|g gs]; simpl; try done.
  destruct (notPositiveField f) eqn:Ef; [done|]. destruct (notPositiveField g) eqn:Eg; [done|].
  intros Hf Hg. assert (notPositiveField (f.1, orElse f.2 g.2) = false) as ->; [|by apply IH].
  unfold notPositiveField in *. simpl. by destruct f.2; simpl.
Qed.

Lemma merge_well_formed existing patch :
  (∀ e, existing = Some e → well_formed e) →
  well_formed (set_probe_plugins (QuotaProbe patch) (normalizeSitePlugins (Plugins patch)) patch) →
  well_formed (mergeGatewayConfig existing patch).
Proof.
  intros He Hp. destruct existing as [e|]; [|exact Hp].
  destruct (He e eq_refl) as (E1 & E2 & E3 & E4 & E5 & E6).
  destruct Hp as (P1 & P2 & P3 & P4 & P5 & P6). simpl in *. split_and!; simpl.
  - done.
  - case_bool_decide; [done|]. right. apply NormalizeResponsesToolPolicy_cases.
  - destruct (DisabledResponsesTools patch) as [l|]; [|done].
    destruct (NormalizeDisabledResponsesTools_cases (Some l)) as [-> | ->]; set_solver.
  - intros v. destruct (QuotaProbe patch) as [w|]; [|apply E4].
    destruct (NormalizeQuotaProbeType w) as [v'|] eqn:E; [|apply E4].
    case_bool_decide; [done|]. intros [= <-]. by eapply NormalizeQuotaProbeType_idem.
  - destruct (Plugins patch) as [m|]; [apply normalizeSitePlugins_idem|done].
  - apply (find_orElse (positiveFields patch) (positiveFields e)); done.
Qed.

(** normalising a configuration a second time changes nothing, and what it
    leaves is in a fixed small shape: no legacy policy, a known tool policy, at
    most the one known hosted tool, a canonical quota probe, usable plugin ids
    and positive limits. *)
Theorem normalize_idempotent (c n : GatewayConfig) :
  NormalizeGatewayConfig c = Ok n → NormalizeGatewayConfig n = Ok n ∧ well_formed n.
Proof.
  intros H%NormalizeGatewayConfig_well_formed. split; [by apply well_formed_normal|done].
Qed.

(** The settings written by a patch are read back exactly as they were merged:
    reading normalises again, and the merge of stored settings and a valid patch
    is already normal. *)
Theorem merged_settings_read_back (existing : option GatewayConfig) (g merged : GatewayConfig) :
  MergeSiteGatewayConfig existing (Some g) = Ok (Some merged) →
  GatewayConfigFromSiteMeta (Some merged) = Some merged.
Proof.
  unfold MergeSiteGatewayConfig. destruct (NormalizeGatewayConfig g) as [n|e] eqn:En; [|done].
  intros [= <-]. simpl. rewrite well_formed_normal; [done|]. apply merge_well_formed.
  - intros e. unfold GatewayConfigFromSiteMeta. destruct existing as [x|]; [|done].
    destruct (NormalizeGatewayConfig x) as [y|] eqn:Ex; [|done]. intros [= <-].
    by eapply NormalizeGatewayConfig_well_formed.
  - apply NormalizeGatewayConfig_well_formed in En as (? & ? & ? & ? & ? & ?).
    split_and!; simpl; try done. apply normalizeSitePlugins_idem.
Qed.

Lemma normalize_idempotent_witness :
  let c := mkGatewayConfig (Some 5000) None None None None None None None None None "" None
             " disabled " None None (Some " kimi ") (Some {["model_list" := " p1 "]}) in
  ∃ n, NormalizeGatewayConfig c = Ok n
       ∧ QuotaProbe n = Some "kimi" ∧ Plugins n = Some {["model_list" := "p1"]}
       ∧ ResponsesToolDisabled (Some n) "image_generation" = true
       ∧ NormalizeGatewayConfig n = Ok n.
Proof.
  eexists. split; [by vm_compute|]. split; [by vm_compute|]. split; [by vm_compute|].
  split; [by vm_compute|].
  eapply (normalize_idempotent (mkGatewayConfig (Some 5000) None None None None None None None None
           None "" None " disabled " None None (Some " kimi ") (Some {["model_list" := " p1 "]}))).
  by vm_compute.
Defined.

Lemma merged_settings_read_back_witness :
  ∃ merged, MergeSiteGatewayConfig (Some noGatewayConfig)
              (Some (set_probe_plugins (Some "plugin: x ") (Some {["error_classifier" := "p"]}) noGatewayConfig))
            = Ok (Some merged)
    ∧ QuotaProbe merged = Some "plugin:x"
    ∧ GatewayConfigFromSiteMeta (Some merged) = Some merged.
Proof.
  eexists. split; [by vm_compute|]. split; [by vm_compute|].
  eapply (merged_settings_read_back (Some noGatewayConfig)
           (set_probe_plugins (Some "plugin: x ") (Some {["error_classifier" := "p"]}) noGatewayConfig)).
  by vm_compute.
Defined.
