(* ===== verification/RouteCooldowns.v ===== *)
(** * Route cooldowns

    The [route_cooldowns] table as [store/route_cooldown_repository.go] uses it,
    and the entry points of [router/service.go] that write to it.  The table is
    the list of its rows in order of creation; a column that may be NULL is an
    option; the identifier of a new row comes from the database. *)

From S2P Require Import Prelude StableSort.

Record RouteCooldown := mkCooldown {
  rc_ID : uuid;
  rc_SiteID : uuid;
  rc_SiteModelID : option uuid;
  rc_SiteCredentialID : option uuid;
  rc_Scope : string;
  rc_Source : string;
  rc_Reason : string;
  rc_ActiveUntil : Z;
  rc_ClearedAt : option Z;
  rc_Metadata : string;
  rc_CreatedAt : Z
}.

Definition CooldownReasonCodexUsageLimitReached : string := "codex_usage_limit_reached".
Definition CooldownReasonUpstreamModelNotFound : string := "upstream_model_not_found".
Definition CooldownReasonUpstreamCredentialsExhausted : string := "upstream_credentials_exhausted".
Definition CooldownReasonUpstreamStreamUnstable : string := "upstream_stream_unstable".
Definition CooldownReasonUpstreamCredentialUnauthorized : string :=
  "upstream_credential_unauthorized".
Definition CooldownReasonUpstreamCredentialLimited : string := "upstream_credential_limited".
Definition CooldownReasonUpstreamInsufficientBalance : string := "upstream_insufficient_balance".
Definition CooldownReasonUpstreamSubscriptionLimitExceeded : string :=
  "upstream_subscription_limit_exceeded".
Definition CooldownReasonOpenCodeGoUsageLimitReached : string := "opencode_go_usage_limit_reached".

(** A cooldown of one model that the gateway itself set because of a failure that
    may pass: the model is used last, not skipped. *)
Definition TransientRouteCooldown (item : RouteCooldown) : bool :=
  bool_decide (rc_Source item = "gateway")
  && bool_decide (is_Some (rc_SiteModelID item))
  && bool_decide (rc_SiteCredentialID item = None)
  && negb (bool_decide (rc_Reason item = CooldownReasonUpstreamModelNotFound)).

(** ** Statements on the table *)

Definition clear_row (now : Z) (r : RouteCooldown) : RouteCooldown :=
  mkCooldown (rc_ID r) (rc_SiteID r) (rc_SiteModelID r) (rc_SiteCredentialID r) (rc_Scope r)
    (rc_Source r) (rc_Reason r) (rc_ActiveUntil r) (Some now) (rc_Metadata r) (rc_CreatedAt r).

(** [UPDATE ... SET cleared_at = now WHERE ...] *)
Definition clear_where (now : Z) (cond : RouteCooldown → bool) (table : list RouteCooldown)
    : list RouteCooldown :=
  map (λ r, if cond r then clear_row now r else r) table.

(** The condition of [clearMatching]; an empty source matches every source. *)
Definition matches (siteID : uuid) (siteModelID siteCredentialID : option uuid) (source : string)
    (protectedReasons : list string) (r : RouteCooldown) : bool :=
  bool_decide (rc_SiteID r = siteID) && bool_decide (rc_ClearedAt r = None)
  && bool_decide (rc_SiteModelID r = siteModelID)
  && bool_decide (rc_SiteCredentialID r = siteCredentialID)
  && (bool_decide (source = "") || bool_decide (rc_Source r = source))
  && negb (bool_decide (rc_Reason r ∈ protectedReasons)).

Definition clearMatching (now : Z) (siteID : uuid) (siteModelID siteCredentialID : option uuid)
    (source : string) (protectedReasons : list string) (table : list RouteCooldown)
    : list RouteCooldown :=
  clear_where now (matches siteID siteModelID siteCredentialID source protectedReasons) table.

Record ActivateRouteCooldownParams := mkActivate {
  ac_SiteID : uuid;
  ac_SiteModelID : option uuid;
  ac_SiteCredentialID : option uuid;
  ac_Scope : string;
  ac_Source : string;
  ac_Reason : string;
  ac_ActiveUntil : Z;
  ac_Metadata : string
}.

(** [nullUUIDFromAny]: the nil UUID is no UUID. *)
Definition nullUUID (value : option uuid) : option uuid :=
  match value with
  | Some id => if bool_decide (id = uuid_Nil) then None else Some id
  | None => None
  end.

Definition orDefault (value default : string) : string :=
  if bool_decide (value = "") then default else value.

(** The row [Activate] inserts. *)
Definition activated (now : Z) (id : uuid) (p : ActivateRouteCooldownParams) : RouteCooldown :=
  let model := nullUUID (ac_SiteModelID p) in
  let credential := nullUUID (ac_SiteCredentialID p) in
  mkCooldown id (ac_SiteID p) model credential
    (orDefault (ac_Scope p)
       (if bool_decide (is_Some credential) then "credential"
        else if bool_decide (model = None) then "site" else "model"))
    (orDefault (ac_Source p) "manual") (orDefault (ac_Reason p) "cooldown")
    (if ac_ActiveUntil p =? 0 then now else ac_ActiveUntil p) None
    (orDefault (ac_Metadata p) "{}") now.

(** The transaction of [Activate]: the cooldowns of the same place and source give
    way, except that a subscription limit only gives way to another one. *)
Definition Activate (now : Z) (id : uuid) (p : ActivateRouteCooldownParams)
    (table : list RouteCooldown) : list RouteCooldown * RouteCooldown :=
  let item := activated now id p in
  let protectedReasons :=
    if bool_decide (rc_Reason item = CooldownReasonUpstreamSubscriptionLimitExceeded) then []
    else [CooldownReasonUpstreamSubscriptionLimitExceeded] in
  (clearMatching now (rc_SiteID item) (rc_SiteModelID item) (rc_SiteCredentialID item)
     (rc_Source item) protectedReasons table ++ [item], item).

Definition ClearActive (now : Z) (siteID : uuid) (siteModelID siteCredentialID : option uuid)
    (source : string) (table : list RouteCooldown) : list RouteCooldown :=
  clearMatching now siteID (nullUUID siteModelID) (nullUUID siteCredentialID) source [] table.

Record ClearActiveCooldownFilter := mkClearFilter {
  cf_SiteID : uuid;
  cf_SiteCredentialID : option uuid;
  cf_Reasons : list string
}.

Definition filter_matches (f : ClearActiveCooldownFilter) (r : RouteCooldown) : bool :=
  bool_decide (rc_SiteID r = cf_SiteID f) && bool_decide (rc_ClearedAt r = None)
  && match cf_SiteCredentialID f with
     | Some id => bool_decide (rc_SiteCredentialID r = Some id)
     | None => true
     end
  && (bool_decide (cf_Reasons f = []) || bool_decide (rc_Reason r ∈ cf_Reasons f)).

(** The rows, and how many were cleared. *)
Definition ClearActiveMatching (now : Z) (f : ClearActiveCooldownFilter)
    (table : list RouteCooldown) : list RouteCooldown * Z :=
  if bool_decide (cf_SiteID f = uuid_Nil) then (table, 0)
  else (clear_where now (filter_matches f) table,
        Z.of_nat (length (List.filter (filter_matches f) table))).

Definition UpdateActiveUntil (cooldownID : uuid) (activeUntil : Z) (metadata : string)
    (table : list RouteCooldown) : list RouteCooldown :=
  if bool_decide (cooldownID = uuid_Nil) || (activeUntil =? 0) then table
  else map (λ r,
    if bool_decide (rc_ID r = cooldownID) && bool_decide (rc_ClearedAt r = None) then
      mkCooldown (rc_ID r) (rc_SiteID r) (rc_SiteModelID r) (rc_SiteCredentialID r) (rc_Scope r)
        (rc_Source r) (rc_Reason r) activeUntil (rc_ClearedAt r)
        (if bool_decide (metadata = "") then rc_Metadata r else metadata) (rc_CreatedAt r)
    else r) table.

(** A condition on a struct leaves out the fields that are zero, here a nil [siteID]. *)
Definition deleteWhere (siteID : uuid) (cond : RouteCooldown → bool) (table : list RouteCooldown)
    : list RouteCooldown :=
  List.filter (λ r, negb ((bool_decide (siteID = uuid_Nil) || bool_decide (rc_SiteID r = siteID)) && cond r)) table.

Definition DeleteBySiteModel (siteID siteModelID : uuid) : list RouteCooldown → list RouteCooldown :=
  deleteWhere siteID (λ r, bool_decide (rc_SiteModelID r = Some siteModelID)).

Definition DeleteBySiteCredential (siteID siteCredentialID : uuid) : list RouteCooldown → list RouteCooldown :=
  deleteWhere siteID (λ r, bool_decide (rc_SiteCredentialID r = Some siteCredentialID)).

Definition is_active (now : Z) (r : RouteCooldown) : bool :=
  bool_decide (rc_ClearedAt r = None) && (now <? rc_ActiveUntil r).

(** The latest end first, then the newest. *)
Definition active_less (a b : RouteCooldown) : bool :=
  if negb (rc_ActiveUntil a =? rc_ActiveUntil b) then rc_ActiveUntil b <? rc_ActiveUntil a
  else rc_CreatedAt b <? rc_CreatedAt a.

Definition ListActive (now : Z) (table : list RouteCooldown) : list RouteCooldown :=
  SliceStable active_less (List.filter (is_active now) table).

Definition ListActiveByCredential (now : Z) (siteID siteCredentialID : uuid)
    (reasons : list string) (table : list RouteCooldown) : list RouteCooldown :=
  if bool_decide (siteID = uuid_Nil) || bool_decide (siteCredentialID = uuid_Nil) then []
  else List.filter (λ r,
    bool_decide (rc_SiteID r = siteID)
    && bool_decide (rc_SiteCredentialID r = Some siteCredentialID) && is_active now r
    && (bool_decide (reasons = []) || bool_decide (rc_Reason r ∈ reasons))) table.

Record CountParams := mkCount {
  ct_SiteID : uuid;
  ct_SiteModelID : option uuid;
  ct_SiteCredentialID : option uuid;
  ct_Source : string;
  ct_Reasons : list string;
  ct_Since : Z
}.

Definition CountRecentActivations (p : CountParams) (table : list RouteCooldown) : Z :=
  if bool_decide (ct_SiteID p = uuid_Nil) then 0
  else Z.of_nat (length (List.filter (λ r,
    bool_decide (rc_SiteID r = ct_SiteID p) && (ct_Since p <=? rc_CreatedAt r)
    && bool_decide (rc_SiteModelID r = ct_SiteModelID p)
    && bool_decide (rc_SiteCredentialID r = ct_SiteCredentialID p)
    && (bool_decide (ct_Source p = "") || bool_decide (rc_Source r = ct_Source p))
    && (bool_decide (ct_Reasons p = []) || bool_decide (rc_Reason r ∈ ct_Reasons p))) table)).

(** ** The index of the router *)

Record cooldownIndex := mkIndex {
  ix_sites : gmap uuid RouteCooldown;
  ix_models : gmap uuid RouteCooldown;
  ix_transientModels : gmap uuid RouteCooldown;
  ix_siteCredentialCounts : gmap uuid Z;
  ix_modelCredentialCounts : gmap uuid Z
}.

Definition emptyIndex : cooldownIndex := mkIndex ∅ ∅ ∅ ∅ ∅.

Definition count_up (k : uuid) (m : gmap uuid Z) : gmap uuid Z := <[k := default 0 (m !! k) + 1]> m.

Definition index_add (ix : cooldownIndex) (item : RouteCooldown) : cooldownIndex :=
  let '(mkIndex s m t sc mc) := ix in
  match rc_SiteCredentialID item, rc_SiteModelID item with
  | Some _, Some model => mkIndex s m t sc (count_up model mc)
  | Some _, None => mkIndex s m t (count_up (rc_SiteID item) sc) mc
  | None, Some model =>
      if TransientRouteCooldown item then mkIndex s m (<[model := item]> t) sc mc
      else mkIndex s (<[model := item]> m) t sc mc
  | None, None => mkIndex (<[rc_SiteID item := item]> s) m t sc mc
  end.

Definition indexCooldowns (items : list RouteCooldown) : cooldownIndex :=
  fold_left index_add items emptyIndex.

(** ** Entry points of the router *)

Record CooldownInput := mkCooldownInput {
  ci_SiteID : uuid;
  ci_SiteModelID : option uuid;
  ci_SiteCredentialID : option uuid;
  ci_Scope : string;
  ci_Source : string;
  ci_Reason : string;
  ci_Duration : Z;
  ci_Metadata : string      (* as marshalled *)
}.

Definition ActivateCooldown (now : Z) (id : uuid) (input : CooldownInput)
    (table : list RouteCooldown) : list RouteCooldown * RouteCooldown :=
  let scope := orDefault (TrimSpace (ci_Scope input))
                 (if bool_decide (is_Some (ci_SiteModelID input)) then "model" else "site") in
  let source := orDefault (TrimSpace (ci_Source input)) "manual" in
  let reason := orDefault (TrimSpace (ci_Reason input)) "cooldown" in
  let duration := if ci_Duration input <=? 0 then 5 * Minute else ci_Duration input in
  Activate now id (mkActivate (ci_SiteID input) (ci_SiteModelID input) (ci_SiteCredentialID input)
                     scope source reason (now + duration) (ci_Metadata input)) table.

Definition ClearCooldown (now : Z) (siteID : uuid) (siteModelID siteCredentialID : option uuid)
    (source : string) (table : list RouteCooldown) : list RouteCooldown :=
  ClearActive now siteID siteModelID siteCredentialID source table.

(** ** The table over time *)

Inductive cooldown_op :=
| OpActivate (now : Z) (id : uuid) (input : CooldownInput)
| OpClear (now : Z) (siteID : uuid) (siteModelID siteCredentialID : option uuid) (source : string)
| OpClearMatching (now : Z) (f : ClearActiveCooldownFilter)
| OpUpdate (id : uuid) (activeUntil : Z) (metadata : string)
| OpDeleteModel (siteID siteModelID : uuid)
| OpDeleteCredential (siteID siteCredentialID : uuid).

Definition cooldown_exec (table : list RouteCooldown) (op : cooldown_op) : list RouteCooldown :=
  match op with
  | OpActivate now id input => fst (ActivateCooldown now id input table)
  | OpClear now siteID model credential source => ClearCooldown now siteID model credential source table
  | OpClearMatching now f => fst (ClearActiveMatching now f table)
  | OpUpdate id activeUntil metadata => UpdateActiveUntil id activeUntil metadata table
  | OpDeleteModel siteID siteModelID => DeleteBySiteModel siteID siteModelID table
  | OpDeleteCredential siteID siteCredentialID => DeleteBySiteCredential siteID siteCredentialID table
  end.

(** Where a cooldown applies and who set it. *)
Definition place_of (r : RouteCooldown) : uuid * option uuid * option uuid * string :=
  (rc_SiteID r, rc_SiteModelID r, rc_SiteCredentialID r, rc_Source r).

Definition is_subscription (r : RouteCooldown) : bool :=
  bool_decide (rc_Reason r = CooldownReasonUpstreamSubscriptionLimitExceeded).

(** The uncleared cooldowns of a place, those for a subscription limit apart. *)
Definition standing (place : uuid * option uuid * option uuid * string) (subscription : bool)
    (table : list RouteCooldown) : list RouteCooldown :=
  List.filter (λ r, bool_decide (place_of r = place) && bool_decide (rc_ClearedAt r = None)
                    && eqb (is_subscription r) subscription) table.

(** ** Lemmas *)

Lemma clear_where_filter now cond p table :
  (∀ r, p (clear_row now r) = false) →
  List.filter p (clear_where now cond table) = List.filter (λ r, p r && negb (cond r)) table.
Proof.
  intros Hp. unfold clear_where. induction table as [|r table IH]; simpl; [done|]. rewrite <- IH.
  destruct (cond r); simpl; [by rewrite Hp, andb_false_r|]. by rewrite andb_true_r.
Qed.

Lemma filter_weaken {A} (p q : A → bool) l :
  (∀ x, p x = true → q x = true) → (length (List.filter p l) ≤ length (List.filter q l))%nat.
Proof.
  intros Hpq. induction l as [|x l IH]; simpl; [done|].
  destruct (p x) eqn:E; [rewrite (Hpq x E); simpl; lia|]. destruct (q x); simpl; lia.
Qed.

Lemma list_filter_none {A} (p : A → bool) l : (∀ x, p x = false) → List.filter p l = [].
Proof. intros Hp. induction l as [|x l IH]; simpl; [done|by rewrite Hp]. Qed.

Lemma standing_clear_where now cond place sub table :
  standing place sub (clear_where now cond table)
  = List.filter (λ r, (bool_decide (place_of r = place) && bool_decide (rc_ClearedAt r = None)
                       && eqb (is_subscription r) sub) && negb (cond r)) table.
Proof.
  unfold standing. apply clear_where_filter. intros r.
  by rewrite (bool_decide_eq_false_2 (rc_ClearedAt (clear_row now r) = None)), andb_false_r.
Qed.

Lemma standing_clear_le now cond place sub table :
  (length (standing place sub (clear_where now cond table)) ≤ length (standing place sub table))%nat.
Proof. rewrite standing_clear_where. apply filter_weaken. intros r. by intros [-> _]%andb_prop. Qed.

Lemma orDefault_nonempty v d : d ≠ "" → orDefault v d ≠ "".
Proof. intros Hd. unfold orDefault. by case_bool_decide. Qed.

Lemma Activate_standing now id p place sub table :
  (length (standing place sub table) ≤ 1)%nat →
  (length (standing place sub (fst (Activate now id p table))) ≤ 1)%nat.
Proof.
  intros Hle. unfold Activate. set (item := activated now id p). cbn [fst].
  unfold standing. rewrite List.filter_app, length_app. fold (standing place sub).
  unfold clearMatching.
  match goal with |- context [clear_where now ?c table] => set (cond := c) end.
  fold (standing place sub (clear_where now cond table)).
  cbn [List.filter]. match goal with |- context [if ?b then [item] else []] => destruct b eqn:E end.
  2: { cbn [length]. pose proof (standing_clear_le now cond place sub table). lia. }
  rewrite standing_clear_where, list_filter_none; [simpl; lia|].
  intros r. apply andb_prop in E as [[Ep%bool_decide_eq_true _]%andb_prop Es%eqb_prop].
  destruct (bool_decide (place_of r = place)) eqn:Er; [|done]. apply bool_decide_eq_true in Er.
  destruct (bool_decide (rc_ClearedAt r = None)) eqn:Ec; [|done].
  destruct (eqb (is_subscription r) sub) eqn:Ers; [|done]. apply eqb_prop in Ers. simpl.
  apply negb_false_iff. unfold cond, matches. rewrite Ec. unfold place_of in *.
  assert (rc_SiteID r = rc_SiteID item ∧ rc_SiteModelID r = rc_SiteModelID item
    ∧ rc_SiteCredentialID r = rc_SiteCredentialID item ∧ rc_Source r = rc_Source item)
    as (-> & -> & -> & ->) by (by simplify_eq).
  rewrite !bool_decide_refl, orb_true_r. cbn [andb]. apply negb_true_iff, bool_decide_eq_false.
  assert (Hsame : is_subscription r = is_subscription item) by congruence.
  unfold is_subscription in Hsame.
  destruct (bool_decide (rc_Reason item = _)); [apply not_elem_of_nil|].
  rewrite list_elem_of_singleton. intros Hr. by rewrite Hr, bool_decide_refl in Hsame.
Qed.

Lemma map_standing f place sub table :
  (∀ r, place_of (f r) = place_of r ∧ rc_ClearedAt (f r) = rc_ClearedAt r
        ∧ rc_Reason (f r) = rc_Reason r) →
  length (standing place sub (map f table)) = length (standing place sub table).
Proof.
  intros Hf. unfold standing. set (c := λ r : RouteCooldown, _).
  assert (Hc : ∀ r, c (f r) = c r).
  { intros r. destruct (Hf r) as (Hp & Hcl & Hr). unfold c, is_subscription. by rewrite Hp, Hcl, Hr. }
  induction table as [|r table IH]; simpl; [done|]. rewrite Hc.
  destruct (c r); simpl; by rewrite IH.
Qed.

Lemma standing_filter_le f place sub table :
  (length (standing place sub (List.filter f table)) ≤ length (standing place sub table))%nat.
Proof.
  unfold standing. induction table as [|r table IH]; [done|]. cbn [List.filter]. destruct (f r); cbn [List.filter].
  - destruct (_ && _); cbn [length]; lia.
  - destruct (_ && _); cbn [length]; lia.
Qed.

Lemma cooldown_exec_standing op place sub table :
  (length (standing place sub table) ≤ 1)%nat →
  (length (standing place sub (cooldown_exec table op)) ≤ 1)%nat.
Proof.
  intros Hle. destruct op as [now id input|now site model cred source|now f|id until md|site model|site cred];
    cbn [cooldown_exec].
  - by apply Activate_standing.
  - unfold ClearCooldown, ClearActive, clearMatching.
    etrans; [apply standing_clear_le|done].
  - unfold ClearActiveMatching. case_bool_decide; simpl; [done|].
    etrans; [apply standing_clear_le|done].
  - unfold UpdateActiveUntil. case_match; [done|]. rewrite map_standing; [done|].
    intros r. by case_match.
  - etrans; [apply standing_filter_le|done].
  - etrans; [apply standing_filter_le|done].
Qed.

(** However cooldowns are activated, cleared, updated and deleted, a place (site, model,
    credential) has at most one uncleared cooldown per source, and beside it at
    most one for a subscription limit, which only another one replaces. *)
Theorem cooldowns_unique (ops : list cooldown_op)
    (place : uuid * option uuid * option uuid * string) (subscription : bool) :
  (length (standing place subscription (fold_left cooldown_exec ops [])) ≤ 1)%nat.
Proof.
  assert (Hgen : ∀ table, (length (standing place subscription table) ≤ 1)%nat →
    (length (standing place subscription (fold_left cooldown_exec ops table)) ≤ 1)%nat).
  { induction ops as [|op ops IH]; intros table Hle; simpl; [done|].
    by apply IH, cooldown_exec_standing. }
  apply Hgen. simpl. lia.
Qed.

(** ** The active cooldowns and their index *)

Lemma ListActive_elem now table r :
  r ∈ ListActive now table ↔ r ∈ table ∧ is_active now r = true.
Proof.
  unfold ListActive. rewrite <- (SliceStable_perm active_less).
  by rewrite !list_elem_of_In, List.filter_In.
Qed.

(** What a cooldown applies to. *)
Inductive target := TSite (id : uuid) | TModel (id : uuid) | TTransient (id : uuid).

Definition targets (r : RouteCooldown) (t : target) : Prop :=
  rc_SiteCredentialID r = None ∧
  match t with
  | TSite id => rc_SiteModelID r = None ∧ rc_SiteID r = id
  | TModel id => rc_SiteModelID r = Some id ∧ TransientRouteCooldown r = false
  | TTransient id => rc_SiteModelID r = Some id ∧ TransientRouteCooldown r = true
  end.

Definition index_lookup (ix : cooldownIndex) (t : target) : option RouteCooldown :=
  match t with
  | TSite id => ix_sites ix !! id
  | TModel id => ix_models ix !! id
  | TTransient id => ix_transientModels ix !! id
  end.

Lemma index_add_lookup ix item t :
  (targets item t ∧ index_lookup (index_add ix item) t = Some item)
  ∨ (¬ targets item t ∧ index_lookup (index_add ix item) t = index_lookup ix t).
Proof.
  destruct ix as [s m tm sc mc]. unfold targets, index_add.
  destruct (rc_SiteCredentialID item) as [c|], (rc_SiteModelID item) as [model|];
    try (right; split; [by intros [? _]|by destruct t]);
    try destruct (TransientRouteCooldown item) eqn:E; destruct t as [id|id|id]; simpl;
    rewrite ?lookup_insert; try case_decide; simplify_eq;
    first [left; by split_and! | right; split; [intros (? & ? & ?); congruence|done]
          | right; split; [intros (? & ?); congruence|done]].
Qed.

Lemma indexCooldowns_spec items t :
  match index_lookup (indexCooldowns items) t with
  | Some r => r ∈ items ∧ targets r t
  | None => ∀ r, r ∈ items → ¬ targets r t
  end.
Proof.
  unfold indexCooldowns. induction items as [|r items IH] using rev_ind.
  - simpl. destruct t; simpl; rewrite lookup_empty; intros r Hr; by apply not_elem_of_nil in Hr.
  - rewrite fold_left_app. simpl.
    destruct (index_add_lookup (fold_left index_add items emptyIndex) r t) as [[Ht ->]|[Hn ->]].
    + split; [apply elem_of_app; right; by left|done].
    + destruct (index_lookup _ t) as [r'|].
      * destruct IH. split; [apply elem_of_app; by left|done].
      * intros r' [Hr'| ->%list_elem_of_singleton]%elem_of_app; [by apply IH|done].
Qed.

(** The index holds a target exactly when an active cooldown applies to it. *)
Lemma index_active now table t :
  is_Some (index_lookup (indexCooldowns (ListActive now table)) t)
  ↔ ∃ r, r ∈ table ∧ is_active now r = true ∧ targets r t.
Proof.
  pose proof (indexCooldowns_spec (ListActive now table) t) as Hspec.
  destruct (index_lookup _ t) as [r|].
  - destruct Hspec as [[Hr Ha]%ListActive_elem Ht]. split; [|done]. by exists r.
  - split; [by intros [? ?]|]. intros (r & Hr & Ha & Ht). exfalso.
    apply (Hspec r); [by apply ListActive_elem|done].
Qed.
