(* ===== verification/Catalog.v ===== *)
(** * Model names

    The normalisation of model names of [catalog/service.go], the provider a name
    suggests, and the model rules of an API key ([store/api_key_model_rules.go],
    [gateway/model_rules.go]). *)

From S2P Require Import Prelude.

(** ** Byte-level string functions *)

#[local] Abbreviation bytes_of := String.list_ascii_of_string.
#[local] Abbreviation of_bytes := String.string_of_list_ascii.

(** [strings.TrimPrefix], [strings.TrimSuffix], [strings.HasSuffix] *)
Fixpoint cut_prefix (p l : list ascii) : option (list ascii) :=
  match p, l with
  | [], _ => Some l
  | a :: p', b :: l' => if ascii_dec a b then cut_prefix p' l' else None
  | _ :: _, [] => None
  end.

Definition TrimPrefix (value prefix : string) : string :=
  match cut_prefix (bytes_of prefix) (bytes_of value) with
  | Some rest => of_bytes rest
  | None => value
  end.

Definition TrimSuffix (value suffix : string) : string :=
  match cut_prefix (rev (bytes_of suffix)) (rev (bytes_of value)) with
  | Some rest => of_bytes (rev rest)
  | None => value
  end.

Definition HasSuffix (value suffix : string) : bool :=
  match cut_prefix (rev (bytes_of suffix)) (rev (bytes_of value)) with
  | Some _ => true
  | None => false
  end.

(** [strings.EqualFold] with an ASCII string: besides the case of ASCII letters,
    U+017F folds to s and U+212A to k. *)
Fixpoint fold_bytes (l : list ascii) : list ascii :=
  match l with
  | [] => []
  | c1 :: r1 =>
      match r1 with
      | c2 :: r2 =>
          if (nat_of_ascii c1 =? 197)%nat && (nat_of_ascii c2 =? 191)%nat
          then "s"%char :: fold_bytes r2
          else match r2 with
               | c3 :: r3 =>
                   if (nat_of_ascii c1 =? 226)%nat && (nat_of_ascii c2 =? 132)%nat
                      && (nat_of_ascii c3 =? 170)%nat
                   then "k"%char :: fold_bytes r3
                   else lower_ascii c1 :: fold_bytes r1
               | [] => lower_ascii c1 :: fold_bytes r1
               end
      | [] => [lower_ascii c1]
      end
  end.

Definition EqualFold (s ascii_text : string) : bool :=
  bool_decide (fold_bytes (bytes_of s) = fold_bytes (bytes_of ascii_text)).

(** [strings.ReplaceAll(value, "+", " plus ")] *)
Definition plus_words (l : list ascii) : list ascii :=
  flat_map (λ c, if ascii_dec c "+" then bytes_of " plus " else [c]) l.

(** The characters [modelKeySeparatorPattern], [^a-z0-9.], does not match; every
    byte of a longer rune is one it matches. *)
Definition key_char (c : ascii) : bool :=
  let n := nat_of_ascii c in
  ascii_in 97 122 n || ascii_in 48 57 n || (n =? 46)%nat.

(** Each maximal run of other characters becomes one dash. *)
Fixpoint dash_runs (in_run : bool) (l : list ascii) : list ascii :=
  match l with
  | [] => []
  | c :: r => if key_char c then c :: dash_runs false r
              else if in_run then dash_runs true r
              else "-"%char :: dash_runs true r
  end.

(** The cut set of [strings.Trim]: the dash and the dot. *)
Definition edge_char (c : ascii) : bool :=
  let n := nat_of_ascii c in (n =? 45)%nat || (n =? 46)%nat.

Fixpoint drop_edge (l : list ascii) : list ascii :=
  match l with
  | [] => []
  | c :: r => if edge_char c then drop_edge r else l
  end.

Definition trim_edges (l : list ascii) : list ascii := rev (drop_edge (rev (drop_edge l))).

(** ** Keys *)

Definition vendorPrefixes : list string :=
  ["models/"; "model/"; "openai/"; "anthropic/"; "google/"; "gemini/"; "deepseek/"; "xai/";
   "moonshotai/"; "nvidia/"].

(** The part the two normalisations share. *)
Definition key_bytes (value : string) : list ascii :=
  let value := fold_left TrimPrefix vendorPrefixes (ToLower (TrimSpace value)) in
  dash_runs false (plus_words (bytes_of value)).

Definition NormalizeModelKey (value : string) : string := of_bytes (trim_edges (key_bytes value)).

Definition NormalizeModelKeyPrefix (value : string) : string :=
  of_bytes (drop_edge (key_bytes value)).

Definition canonicalFamilyTokens : list string :=
  ["bge"; "claude"; "cohere"; "dall"; "deepseek"; "embedding"; "flux"; "gemma"; "gemini";
   "glm"; "gpt"; "grok"; "hermes"; "jina"; "kimi"; "lyria"; "mimo"; "minimax"; "moonshot";
   "moonshotai"; "nanobananapro"; "o1"; "o3"; "o4"; "perplexity"; "qwen"; "qwen2"; "qwen3";
   "rerank"; "sora"; "text"; "trinity"; "tts"; "veo"; "whisper"].

Definition canonicalSuffixNoiseTokens : list string :=
  ["business"; "inference"; "search"; "tiered"].

(** [strings.Split] at dashes *)
Fixpoint split_dash (l : list ascii) : list (list ascii) :=
  match l with
  | [] => [[]]
  | c :: r =>
      if ascii_dec c "-" then [] :: split_dash r
      else match split_dash r with
           | t :: ts => (c :: t) :: ts
           | [] => [[c]]
           end
  end.

Definition Split (value : string) : list string := map of_bytes (split_dash (bytes_of value)).

(** Drop noise from the end, but never the first token; the list is reversed. *)
Fixpoint drop_noise (rtokens : list string) : list string :=
  match rtokens with
  | t :: ((_ :: _) as rest) =>
      if bool_decide (t ∈ canonicalSuffixNoiseTokens) then drop_noise rest else rtokens
  | _ => rtokens
  end.

Definition trimCanonicalSuffixNoise (tokens : list string) : list string :=
  rev (drop_noise (rev tokens)).

(** The tokens from the first family token on. *)
Fixpoint from_family (tokens : list string) : option (list string) :=
  match tokens with
  | [] => None
  | t :: rest => if bool_decide (t ∈ canonicalFamilyTokens) then Some tokens else from_family rest
  end.

Definition CanonicalModelKeyFromUpstream (value : string) : string :=
  let normalized := NormalizeModelKey value in
  if bool_decide (normalized = "") then ""
  else match from_family (Split normalized) with
       | None => normalized
       | Some tokens => Join (trimCanonicalSuffixNoise tokens) "-"
       end.

(** ** Provider *)

Definition providerModelFamilyRules : list (string * list string) :=
  [("openai", ["gpt"; "o1"; "o3"; "o4"; "dall"; "sora"]);
   ("anthropic", ["claude"]);
   ("google", ["gemini"; "gemma"; "deep-research"; "lyria"; "nano-banana"; "veo"]);
   ("deepseek", ["deepseek"]);
   ("xai", ["grok"]);
   ("qwen", ["qwen"; "qwen2"; "qwen3"]);
   ("zhipuai", ["glm"]);
   ("moonshotai-cn", ["kimi"; "moonshot"; "moonshotai"; "k3"]);
   ("xiaomi", ["mimo"]);
   ("minimax", ["minimax"]);
   ("nvidia", ["nvidia"; "nemotron"]);
   ("bytedance", ["bytedance"; "doubao"; "seedance"; "seedream"]);
   ("vidu", ["vidu"; "viduq"]);
   ("stepfun", ["step"; "stepaudio"]);
   ("alibaba", ["funaudiollm"; "tongyi"; "wan"; "happyhorse"]);
   ("kuaishou", ["kling"; "kwai"; "kolors"]);
   ("baai", ["bge"]);
   ("flux", ["flux"]);
   ("hunyuan", ["hy"; "hunyuan"; "tencent-hunyuan"]);
   ("sensenova", ["sensenova"]);
   ("perplexity", ["perplexity"])].

Definition hasModelFamilyPrefix (modelKey family : string) : bool :=
  let modelKey := ToLower (TrimSpace modelKey) in
  let family := ToLower (TrimSpace family) in
  if bool_decide (modelKey = "") || bool_decide (family = "") then false
  else if bool_decide (modelKey = family) then true
  else match cut_prefix (bytes_of family) (bytes_of modelKey) with
       | Some (next :: _) =>
           let n := nat_of_ascii next in
           (n =? 45)%nat || (n =? 95)%nat || (n =? 46)%nat || ascii_in 48 57 n
       | _ => false
       end.

Definition InferProvider (modelKey : string) : string :=
  let modelKey := CanonicalModelKeyFromUpstream modelKey in
  match List.find (λ rule, existsb (hasModelFamilyPrefix modelKey) rule.2) providerModelFamilyRules with
  | Some rule => rule.1
  | None => "unknown"
  end.

(** ** Model rules of an API key *)

Record APIKeyModelRule := mkRule {
  rule_Pattern : string;
  rule_Target : string;
  rule_Mode : string
}.

Definition APIKeyModelRuleModeHard : string := "hard".
Definition APIKeyModelRuleModeSoft : string := "soft".

Definition IsCatchAll (r : APIKeyModelRule) : bool :=
  bool_decide (TrimSpace (rule_Pattern r) = "*").

Definition IsWildcard (r : APIKeyModelRule) : bool :=
  let pattern := TrimSpace (rule_Pattern r) in (1 <? len pattern) && HasSuffix pattern "*".

Definition IsExact (r : APIKeyModelRule) : bool := negb (IsCatchAll r) && negb (IsWildcard r).

Definition NormalizeAPIKeyModelRuleMode (mode : string) : string :=
  if EqualFold (TrimSpace mode) APIKeyModelRuleModeSoft
  then APIKeyModelRuleModeSoft else APIKeyModelRuleModeHard.

Definition NormalizeAPIKeyModelRules (rules : list APIKeyModelRule) : list APIKeyModelRule :=
  omap (λ rule,
    let pattern := TrimSpace (rule_Pattern rule) in
    let target := TrimSpace (rule_Target rule) in
    if bool_decide (pattern = "") || bool_decide (target = "") then None
    else Some (mkRule pattern target (NormalizeAPIKeyModelRuleMode (rule_Mode rule)))) rules.

(** The prefix a wildcard rule asks for; a star inside makes it useless. *)
Definition wildcardPrefix (r : APIKeyModelRule) : option string :=
  let rawPrefix := TrimSuffix (TrimSpace (rule_Pattern r)) "*" in
  if Contains rawPrefix "*" then None
  else let prefix := NormalizeModelKeyPrefix rawPrefix in
       if bool_decide (prefix = "") then None else Some prefix.

(** The loop of [matchModelRule]: the best wildcard so far with the length of its
    prefix, and the first catch-all. *)
Fixpoint matchLoop (normalized : string) (wildcard : option APIKeyModelRule) (wildcardLen : Z)
    (catchAll : option APIKeyModelRule) (rules : list APIKeyModelRule) : option APIKeyModelRule :=
  match rules with
  | [] => match wildcard with
          | Some rule => Some rule
          | None => catchAll
          end
  | rule :: rest =>
      if IsCatchAll rule then
        matchLoop normalized wildcard wildcardLen
          (match catchAll with Some _ => catchAll | None => Some rule end) rest
      else if IsWildcard rule then
        match wildcardPrefix rule with
        | None => matchLoop normalized wildcard wildcardLen catchAll rest
        | Some prefix =>
            if negb (HasPrefix normalized prefix) then
              matchLoop normalized wildcard wildcardLen catchAll rest
            else if wildcardLen <? len prefix then
              matchLoop normalized (Some rule) (len prefix) catchAll rest
            else matchLoop normalized wildcard wildcardLen catchAll rest
        end
      else if bool_decide (NormalizeModelKey (rule_Pattern rule) = normalized) then Some rule
      else matchLoop normalized wildcard wildcardLen catchAll rest
  end.

Definition matchModelRule (rules : list APIKeyModelRule) (requestedModel : string)
    : option APIKeyModelRule :=
  let normalized := NormalizeModelKey requestedModel in
  if bool_decide (normalized = "") then None
  else matchLoop normalized None (-1) None rules.

(** What a rule asks of a normalised name. *)
Definition exact_match (normalized : string) (r : APIKeyModelRule) : bool :=
  IsExact r && bool_decide (NormalizeModelKey (rule_Pattern r) = normalized).

Definition wildcard_match (normalized : string) (r : APIKeyModelRule) : option Z :=
  if IsCatchAll r || negb (IsWildcard r) then None
  else prefix ← wildcardPrefix r; if HasPrefix normalized prefix then Some (len prefix) else None.

#[global] Arguments NormalizeModelKey : simpl never.
#[global] Arguments NormalizeModelKeyPrefix : simpl never.

(** ** Normalised keys *)

Definition ok_char (c : ascii) : bool := key_char c || bool_decide (c = "-"%char).

(** Bytes that are already as [dash_runs] leaves them. *)
Definition dashed (l : list ascii) : Prop := dash_runs false l = l.

Lemma dash_runs_length b l : (length (dash_runs b l) ≤ length l)%nat.
Proof.
  revert b. induction l as [|c l IH]; intros b; simpl; [lia|].
  destruct (key_char c), b; simpl; pose proof (IH false); pose proof (IH true); lia.
Qed.

Lemma dash_runs_idem b l : dash_runs b (dash_runs b l) = dash_runs b l.
Proof.
  revert b. induction l as [|c l IH]; intros b; simpl; [done|].
  destruct (key_char c) eqn:E; [simpl; by rewrite E, IH|]. destruct b; simpl; by rewrite IH.
Qed.

Lemma dash_runs_ok b l : Forall (λ c, ok_char c = true) (dash_runs b l).
Proof.
  revert b. induction l as [|c l IH]; intros b; simpl; [constructor|].
  destruct (key_char c) eqn:E; [constructor; [unfold ok_char; by rewrite E|done]|].
  destruct b; [done|]. by constructor.
Qed.

Lemma dash_runs_false l : dash_runs true l = l → dash_runs false l = l.
Proof.
  destruct l as [|c l]; simpl; [done|]. destruct (key_char c); [done|]. intros Hl.
  pose proof (dash_runs_length true l) as Hlen. rewrite Hl in Hlen. simpl in Hlen. lia.
Qed.

Lemma dashed_tail c l : dashed (c :: l) → dashed l.
Proof.
  unfold dashed. simpl. destruct (key_char c); intros H; injection H; [done|].
  intros Hl _. by apply dash_runs_false.
Qed.

Lemma dashed_suffix l1 l2 : dashed (l1 ++ l2) → dashed l2.
Proof. induction l1 as [|c l1 IH]; simpl; [done|]. intros H%dashed_tail. auto. Qed.

Lemma dashed_prefix l1 l2 : dashed (l1 ++ l2) → dashed l1.
Proof.
  unfold dashed. generalize false. induction l1 as [|c l1 IH]; intros b; simpl; [done|].
  destruct (key_char c) eqn:E.
  - intros H. injection H as H. f_equal. by apply IH.
  - destruct b.
    + intros H. pose proof (dash_runs_length true (l1 ++ l2)) as Hlen. rewrite H in Hlen. simpl in Hlen. lia.
    + intros H. injection H as Hc H. f_equal; [done|by apply IH].
Qed.

Lemma drop_edge_split l : ∃ cut, l = cut ++ drop_edge l.
Proof.
  induction l as [|c l [cut Hl]]; simpl; [by exists []|].
  destruct (edge_char c); [exists (c :: cut); simpl; by f_equal|by exists []].
Qed.

Lemma drop_edge_head l : match drop_edge l with [] => True | c :: _ => edge_char c = false end.
Proof. induction l as [|c l IH]; simpl; [done|]. by destruct (edge_char c) eqn:E. Qed.

Lemma drop_edge_clean l :
  match l with [] => True | c :: _ => edge_char c = false end → drop_edge l = l.
Proof. destruct l as [|c l]; simpl; [done|]. by intros ->. Qed.

Lemma trim_edges_prefix l : ∃ cut, drop_edge l = trim_edges l ++ cut.
Proof.
  unfold trim_edges. destruct (drop_edge_split (rev (drop_edge l))) as [cut Hcut].
  exists (rev cut). rewrite <- rev_app_distr, <- Hcut. by rewrite rev_involutive.
Qed.

Lemma trim_edges_idem l : trim_edges (trim_edges l) = trim_edges l.
Proof.
  assert (Hd : drop_edge (trim_edges l) = trim_edges l).
  { apply drop_edge_clean. destruct (trim_edges_prefix l) as [cut Hcut].
    pose proof (drop_edge_head l) as Hh. rewrite Hcut in Hh. by destruct (trim_edges l). }
  unfold trim_edges at 1. rewrite Hd. unfold trim_edges. rewrite rev_involutive.
  by rewrite (drop_edge_clean (drop_edge _) (drop_edge_head _)).
Qed.

Lemma trim_edges_dashed l : dashed l → dashed (trim_edges l).
Proof.
  intros H. destruct (drop_edge_split l) as [c1 H1], (trim_edges_prefix l) as [c2 H2].
  rewrite H1 in H. apply dashed_suffix in H. rewrite H2 in H. by apply dashed_prefix in H.
Qed.

(** Facts about the characters of a key, by inspection of all bytes. *)
Lemma ok_char_facts c :
  ok_char c = true →
  is_ascii_space c = false ∧ lower_ascii c = c ∧ c ≠ "+"%char ∧ c ≠ "/"%char
  ∧ (nat_of_ascii c < 128)%nat.
Proof. destruct c as [[] [] [] [] [] [] [] []]; vm_compute; intros [=]; split_and!; try done; lia. Qed.

Lemma dashed_ok l : dashed l → Forall (λ c, ok_char c = true) l.
Proof. intros <-. apply dash_runs_ok. Qed.

Section ok_bytes.
Variables (l : list ascii) (Hok : Forall (λ c, ok_char c = true) l).

Lemma ok_lower : lower_bytes l = l.
Proof.
  induction Hok as [|c1 r1 H1 Hr1 IH]; [done|]. specialize (IH Hr1).
  destruct (ok_char_facts c1 H1) as (_ & Hl & _ & _ & Hlt).
  destruct r1 as [|c2 r2]; [simpl; by rewrite Hl|].
  change (lower_bytes (c1 :: c2 :: r2)) with
    (if (nat_of_ascii c1 =? 196)%nat && (nat_of_ascii c2 =? 176)%nat then "i"%char :: lower_bytes r2
     else match r2 with
          | c3 :: r3 => if (nat_of_ascii c1 =? 226)%nat && (nat_of_ascii c2 =? 132)%nat
                           && (nat_of_ascii c3 =? 170)%nat then "k"%char :: lower_bytes r3
                        else lower_ascii c1 :: lower_bytes (c2 :: r2)
          | [] => lower_ascii c1 :: lower_bytes (c2 :: r2)
          end).
  destruct (Nat.eqb_spec (nat_of_ascii c1) 196); [lia|]. cbn [andb].
  destruct (Nat.eqb_spec (nat_of_ascii c1) 226); [lia|]. cbn [andb].
  destruct r2; by rewrite Hl, IH.
Qed.

Lemma ok_plus : plus_words l = l.
Proof.
  induction Hok as [|c r H1 Hr IH]; [done|].
  change (plus_words (c :: r)) with
    ((if ascii_dec c "+" then bytes_of " plus " else [c]) ++ plus_words r).
  rewrite IH by done. destruct (ok_char_facts c H1) as (_ & _ & Hp & _). by destruct (ascii_dec c "+").
Qed.

Lemma ok_cut_prefix p : "/"%char ∈ p → cut_prefix p l = None.
Proof.
  revert p. induction Hok as [|c r H1 Hr IH]; intros [|a p] Hin; simpl;
    try done; try (by apply not_elem_of_nil in Hin).
  destruct (ascii_dec a c) as [Hac|]; [|done]. apply IH; [done|].
  apply elem_of_cons in Hin as [Ha|]; [|done].
  destruct (ok_char_facts _ H1) as (_ & _ & _ & Hc & _). congruence.
Qed.

Lemma ok_TrimPrefix : fold_left TrimPrefix vendorPrefixes (of_bytes l) = of_bytes l.
Proof.
  assert (Hall : Forall (λ p, "/"%char ∈ bytes_of p) vendorPrefixes).
  { apply list.Forall_forall. intros p Hp. apply (bool_decide_unpack _).
    revert p Hp. apply list.Forall_forall. apply (bool_decide_unpack _). by vm_compute. }
  induction Hall as [|p ps Hp Hps IH]; simpl; [done|].
  unfold TrimPrefix at 2. rewrite String.list_ascii_of_string_of_list_ascii, ok_cut_prefix by done.
  exact IH.
Qed.
End ok_bytes.

Lemma ok_plain c : ok_char c = true → plain_char c = true.
Proof.
  intros (Hs & _ & _ & _ & Hlt)%ok_char_facts. unfold plain_char. rewrite Hs. by apply Nat.ltb_lt.
Qed.

(** Normalisation leaves bytes that are already a key alone. *)
Lemma key_bytes_fixed l : dashed l → key_bytes (of_bytes l) = l.
Proof.
  intros Hd. pose proof (dashed_ok l Hd) as Hok. unfold key_bytes, ToLower.
  assert (TrimSpace (of_bytes l) = of_bytes l) as ->.
  { apply TrimSpace_plain. rewrite String.list_ascii_of_string_of_list_ascii.
    eapply list.Forall_impl; [exact Hok|]. apply ok_plain. }
  rewrite String.list_ascii_of_string_of_list_ascii, ok_lower, ok_TrimPrefix by done.
  by rewrite String.list_ascii_of_string_of_list_ascii, ok_plus.
Qed.

Lemma NormalizeModelKey_of_bytes l :
  dashed l → trim_edges l = l → NormalizeModelKey (of_bytes l) = of_bytes l.
Proof. intros Hd Ht. unfold NormalizeModelKey. by rewrite key_bytes_fixed, Ht. Qed.

(** normalising a model name twice is normalising it once, and a normalised
    name has only lower case letters, digits, dots and single dashes. *)
Theorem NormalizeModelKey_idempotent (value : string) :
  NormalizeModelKey (NormalizeModelKey value) = NormalizeModelKey value
  ∧ Forall (λ c, ok_char c = true) (String.list_ascii_of_string (NormalizeModelKey value))
  ∧ dashed (String.list_ascii_of_string (NormalizeModelKey value)).
Proof.
  assert (Hd : dashed (trim_edges (key_bytes value)))
    by (apply trim_edges_dashed; unfold key_bytes, dashed; apply dash_runs_idem).
  split; [|unfold NormalizeModelKey; rewrite String.list_ascii_of_string_of_list_ascii].
  - unfold NormalizeModelKey at 2 3. apply NormalizeModelKey_of_bytes; [done|apply trim_edges_idem].
  - split; [by apply dashed_ok|done].
Qed.

(** ** Model rules *)

#[local] Opaque NormalizeModelKey NormalizeModelKeyPrefix.

(** [r] stands at [i] and no earlier rule satisfies [p]. *)
Definition first_at {A} (p : A → bool) (l : list A) (i : nat) (r : A) : Prop :=
  l !! i = Some r ∧ p r = true ∧ ∀ j r', (j < i)%nat → l !! j = Some r' → p r' = false.

(** [r] stands at [i] and is the first wildcard of the greatest prefix length. *)
Definition longest_at (normalized : string) (l : list APIKeyModelRule) (i : nat)
    (r : APIKeyModelRule) : Prop :=
  ∃ n, l !! i = Some r ∧ wildcard_match normalized r = Some n
       ∧ ∀ j r' m, l !! j = Some r' → wildcard_match normalized r' = Some m →
           m < n ∨ (m = n ∧ (i ≤ j)%nat).

Definition no_match {A} (p : A → bool) (l : list A) : Prop := ∀ r, r ∈ l → p r = false.

(** The choice among [l], as the loop makes it. *)
Definition chosen (normalized : string) (l : list APIKeyModelRule)
    (choice : option APIKeyModelRule) : Prop :=
  match choice with
  | Some r => ∃ i,
      first_at (exact_match normalized) l i r
      ∨ (no_match (exact_match normalized) l ∧ longest_at normalized l i r)
      ∨ (no_match (exact_match normalized) l ∧ (∀ r', r' ∈ l → wildcard_match normalized r' = None)
         ∧ first_at IsCatchAll l i r)
  | None => no_match (exact_match normalized) l
            ∧ (∀ r', r' ∈ l → wildcard_match normalized r' = None) ∧ no_match IsCatchAll l
  end.

(** What the loop carries after the rules [l] had no exact match. *)
Definition carried (normalized : string) (l : list APIKeyModelRule)
    (wildcard : option APIKeyModelRule) (wildcardLen : Z) (catchAll : option APIKeyModelRule) : Prop :=
  no_match (exact_match normalized) l
  ∧ match wildcard with
    | Some r => ∃ i, longest_at normalized l i r ∧ wildcard_match normalized r = Some wildcardLen
    | None => wildcardLen = -1 ∧ ∀ r', r' ∈ l → wildcard_match normalized r' = None
    end
  ∧ match catchAll with
    | Some r => ∃ i, first_at IsCatchAll l i r
    | None => no_match IsCatchAll l
    end.

Lemma first_at_snoc {A} (p : A → bool) l i r x : first_at p l i r → first_at p (l ++ [x]) i r.
Proof.
  intros (Hi & Hp & Hj). split_and!; [by apply lookup_app_l_Some|done|].
  intros j r' Hlt Hr'. apply (Hj j r' Hlt). rewrite lookup_app_l in Hr'; [done|].
  apply lookup_lt_Some in Hi. lia.
Qed.

Lemma first_at_last {A} (p : A → bool) l x : no_match p l → p x = true → first_at p (l ++ [x]) (length l) x.
Proof.
  intros Hn Hp. split_and!; [|done|].
  - rewrite lookup_app_r by lia. by rewrite Nat.sub_diag.
  - intros j r' Hlt Hr'. rewrite lookup_app_l in Hr' by done. by eapply Hn, list_elem_of_lookup_2.
Qed.

Lemma no_match_snoc {A} (p : A → bool) l x : no_match p l → p x = false → no_match p (l ++ [x]).
Proof. intros Hn Hx r [?| ->%list_elem_of_singleton]%elem_of_app; auto. Qed.

Lemma snoc_lookup {A} (l : list A) x j r :
  (l ++ [x]) !! j = Some r → (l !! j = Some r ∧ (j < length l)%nat) ∨ (j = length l ∧ r = x).
Proof.
  intros H. apply lookup_app_Some in H as [H|[Hge H]]; [left|right].
  - split; [done|by eapply lookup_lt_Some].
  - destruct (j - length l)%nat as [|k] eqn:E; simplify_eq/=; [split; [lia|done]].
Qed.

Lemma wildcard_nonneg normalized r n : wildcard_match normalized r = Some n → 0 ≤ n.
Proof.
  unfold wildcard_match. case_match; [done|]. intros (p & _ & Hp)%bind_Some.
  case_match; simplify_eq. unfold len. lia.
Qed.

(** A wildcard that does not match, or not with a longer prefix, changes nothing. *)
Lemma longest_at_snoc normalized l i r x n :
  longest_at normalized l i r → wildcard_match normalized r = Some n →
  (∀ m, wildcard_match normalized x = Some m → m ≤ n) → longest_at normalized (l ++ [x]) i r.
Proof.
  intros (n' & Hi & Hn & Hj) Hn' Hx. assert (n' = n) as -> by congruence. exists n.
  split_and!; [by apply lookup_app_l_Some|done|].
  intros j r' m [[Hr' _]|[-> ->]]%snoc_lookup Hm; [by eapply Hj|].
  specialize (Hx m Hm). apply lookup_lt_Some in Hi. lia.
Qed.

Lemma longest_at_last normalized l x n :
  (∀ r m, r ∈ l → wildcard_match normalized r = Some m → m < n) →
  wildcard_match normalized x = Some n → longest_at normalized (l ++ [x]) (length l) x.
Proof.
  intros Hlt Hx. exists n. split_and!; [by rewrite lookup_app_r, Nat.sub_diag by lia|done|].
  intros j r' m [[Hr' _]|[-> ->]]%snoc_lookup Hm; [left|right; simplify_eq; lia].
  by eapply Hlt; [eapply list_elem_of_lookup_2|].
Qed.

Lemma no_wildcard_snoc normalized (l : list APIKeyModelRule) x :
  (∀ r, r ∈ l → wildcard_match normalized r = None) → wildcard_match normalized x = None →
  ∀ r, r ∈ l ++ [x] → wildcard_match normalized r = None.
Proof. intros Hn Hx r [?| ->%list_elem_of_singleton]%elem_of_app; auto. Qed.

Lemma carried_wildcard normalized l wildcard wildcardLen catchAll x :
  carried normalized l wildcard wildcardLen catchAll →
  match wildcard_match normalized x with
  | Some n =>
      if wildcardLen <? n
      then ∃ i, longest_at normalized (l ++ [x]) i x ∧ wildcard_match normalized x = Some n
      else ∃ r i, wildcard = Some r ∧ longest_at normalized (l ++ [x]) i r
                  ∧ wildcard_match normalized r = Some wildcardLen
  | None => match wildcard with
            | Some r => ∃ i, longest_at normalized (l ++ [x]) i r
                             ∧ wildcard_match normalized r = Some wildcardLen
            | None => wildcardLen = -1
                      ∧ ∀ r', r' ∈ l ++ [x] → wildcard_match normalized r' = None
            end
  end.
Proof.
  intros (_ & Hw & _). destruct (wildcard_match normalized x) as [n|] eqn:Ex.
  - pose proof (wildcard_nonneg _ _ _ Ex). destruct (Z.ltb_spec wildcardLen n) as [Hlt|Hge].
    + exists (length l). split; [|done]. eapply longest_at_last; [|done]. intros r m Hr Hm.
      destruct wildcard as [w|].
      * destruct Hw as (i & (n' & Hi & Hn' & Hj) & Hwl). simplify_eq.
        apply list_elem_of_lookup in Hr as [j Hr]. destruct (Hj j r m Hr Hm) as [?|[-> _]]; lia.
      * destruct Hw as [-> Hn]. by rewrite (Hn r Hr) in Hm.
    + destruct wildcard as [w|]; [|destruct Hw; lia]. destruct Hw as (i & Hl & Hwl).
      exists w, i. split_and!; [done| |done]. eapply longest_at_snoc; [done..|]. intros m Hm. by simplify_eq.
  - destruct wildcard as [w|].
    + destruct Hw as (i & Hl & Hwl). exists i. split; [|done].
      eapply longest_at_snoc; [done..|]. intros m Hm. by rewrite Ex in Hm.
    + destruct Hw as [-> Hn]. split; [done|]. by apply no_wildcard_snoc.
Qed.

Lemma carried_catchAll normalized l wildcard wildcardLen catchAll x :
  carried normalized l wildcard wildcardLen catchAll →
  match (if IsCatchAll x then match catchAll with Some _ => catchAll | None => Some x end
         else catchAll) with
  | Some r => ∃ i, first_at IsCatchAll (l ++ [x]) i r
  | None => no_match IsCatchAll (l ++ [x])
  end.
Proof.
  intros (_ & _ & Hc). destruct (IsCatchAll x) eqn:Ex, catchAll as [r|].
  - destruct Hc as [i Hi]. exists i. by apply first_at_snoc.
  - exists (length l). by apply first_at_last.
  - destruct Hc as [i Hi]. exists i. by apply first_at_snoc.
  - by apply no_match_snoc.
Qed.

Lemma exact_not_wildcard normalized r : exact_match normalized r = true → wildcard_match normalized r = None.
Proof.
  unfold exact_match, wildcard_match, IsExact. by destruct (IsCatchAll r), (IsWildcard r).
Qed.

Lemma matchLoop_chosen normalized l wildcard wildcardLen catchAll rules :
  carried normalized l wildcard wildcardLen catchAll →
  chosen normalized (l ++ rules) (matchLoop normalized wildcard wildcardLen catchAll rules).
Proof.
  revert l wildcard wildcardLen catchAll.
  induction rules as [|x rules IH]; intros l wildcard wildcardLen catchAll Hc.
  { rewrite app_nil_r. destruct Hc as (He & Hw & Hca). simpl. destruct wildcard as [w|].
    - destruct Hw as (i & Hl & _). exists i. right; left. done.
    - destruct Hw as [_ Hn]. destruct catchAll as [r|]; [|done].
      destruct Hca as [i Hi]. exists i. right; right. done. }
  pose proof (carried_wildcard _ _ _ _ _ x Hc) as Hw.
  pose proof (carried_catchAll _ _ _ _ _ x Hc) as Hca. pose proof Hc as (He & _ & _).
  assert (Happ : l ++ x :: rules = (l ++ [x]) ++ rules) by by rewrite <- app_assoc.
  assert (Hgo : exact_match normalized x = false → ∀ w' n' c',
    carried normalized (l ++ [x]) w' n' c' →
    chosen normalized (l ++ x :: rules) (matchLoop normalized w' n' c' rules))
    by (intros _ w' n' c' Hc'; rewrite Happ; by apply IH).
  cbn [matchLoop]. destruct (IsCatchAll x) eqn:Eca.
  { assert (Hx : exact_match normalized x = false) by (unfold exact_match, IsExact; by rewrite Eca).
    assert (Hwx : wildcard_match normalized x = None) by (unfold wildcard_match; by rewrite Eca).
    rewrite Hwx in Hw. apply Hgo; [done|]. split; [by apply no_match_snoc|by split]. }
  destruct (IsWildcard x) eqn:Ew.
  { assert (Hx : exact_match normalized x = false) by (unfold exact_match, IsExact; by rewrite Eca, Ew).
    unfold wildcard_match in Hw at 1. rewrite Eca, Ew in Hw. simpl in Hw.
    pose proof (no_match_snoc _ _ _ He Hx) as He'.
    destruct (wildcardPrefix x) as [prefix|]; simpl in Hw; [|apply Hgo; [done|by split_and!]].
    destruct (HasPrefix normalized prefix); simpl; [|apply Hgo; [done|by split_and!]].
    destruct (wildcardLen <? len prefix); apply Hgo; try done; split_and!; try done.
    destruct Hw as (r & i & -> & ? & ?). by exists i. }
  assert (Hwx : wildcard_match normalized x = None) by (unfold wildcard_match; by rewrite Eca, Ew).
  rewrite Hwx in Hw. case_bool_decide as Heq.
  - exists (length l). left. rewrite Happ.
    assert (Hx : exact_match normalized x = true)
      by (unfold exact_match, IsExact; rewrite Eca, Ew; simpl; exact (bool_decide_eq_true_2 _ Heq)).
    pose proof (first_at_last _ _ _ He Hx) as (H1 & H2 & H3). split_and!; [|done|].
    + by apply lookup_app_l_Some.
    + intros j r' Hlt Hr'. apply (H3 j r' Hlt). rewrite lookup_app_l in Hr'; [done|].
      rewrite length_app. simpl. lia.
  - assert (Hx : exact_match normalized x = false).
    { unfold exact_match. by rewrite (bool_decide_eq_false_2 _ Heq), andb_false_r. }
    apply Hgo; [done|]. split; [by apply no_match_snoc|by split].
Qed.

(** the rule an API key applies to a model is the first exact match if there is
    one; otherwise the first of the wildcards with the longest matching prefix;
    otherwise the first catch-all; and there is no rule only when none of them
    applies. *)
Theorem matchModelRule_precedence (rules : list APIKeyModelRule) (requestedModel : string) :
  NormalizeModelKey requestedModel ≠ "" →
  chosen (NormalizeModelKey requestedModel) rules (matchModelRule rules requestedModel).
Proof.
  intros Hne. unfold matchModelRule. rewrite bool_decide_eq_false_2 by done.
  apply (matchLoop_chosen _ []).
  assert (Hnil : ∀ (P : APIKeyModelRule → Prop) r, r ∈ [] → P r)
    by (intros P r Hr; by apply not_elem_of_nil in Hr).
  split; [exact (Hnil _)|]. split; [|exact (Hnil _)]. split; [done|exact (Hnil _)].
Qed.

Lemma matchModelRule_precedence_witness :
  let rules := [mkRule "*" "any" "hard"; mkRule "gpt-*" "a" "hard"; mkRule "gpt-4*" "b" "soft";
                mkRule "gpt-4o" "c" "hard"] in
  matchModelRule rules "openai/GPT 4.1" = Some (mkRule "gpt-4*" "b" "soft")
  ∧ chosen (NormalizeModelKey "openai/GPT 4.1") rules (Some (mkRule "gpt-4*" "b" "soft")).
Proof.
  intros rules. split; [by vm_compute|].
  exact (matchModelRule_precedence rules "openai/GPT 4.1" ltac:(by vm_compute)).
Defined.
