(* ===== verification/Json.v ===== *)
(** * JSON values

    The values [json.Unmarshal] gives and [json.Marshal] takes, and the small accessors of
    [gateway/values.go] and its neighbours.  Text is parsed and written by the Go library:
    where the modelled code parses, the parser is an argument; what this file adds is how
    a parsed object is bound to the fields of a struct. *)

From S2P Require Import Prelude GoFloat Catalog.

(** A Go [any] that came out of, or goes into, JSON; an [AInt] is a number without
    fraction and exponent. *)
Inductive any :=
| ANil
| ABool (b : bool)
| AInt (n : Z)
| AFloat (f : float64)
| AString (s : string)
| AArray (items : list any)
| AObject (members : list (string * any)).

(** ** Maps: [map[string]any] *)

(** [m[key]]: the last member of that name, as the parser leaves it. *)
Fixpoint map_get (members : list (string * any)) (key : string) : option any :=
  match members with
  | [] => None
  | (k, v) :: rest =>
      match map_get rest key with
      | Some w => Some w
      | None => if bool_decide (k = key) then Some v else None
      end
  end.

(** The value of a missing key is nil. *)
Definition map_index (members : list (string * any)) (key : string) : any :=
  default ANil (map_get members key).

(** [value.(map[string]any)], [nil] when it is another type. *)
Definition as_map (value : any) : list (string * any) :=
  match value with AObject members => members | _ => [] end.

Definition anyString (value : any) : string :=
  match value with AString text => TrimSpace text | _ => "" end.

Definition rawStringFromAny (value : any) : string :=
  match value with AString text => text | _ => "" end.

Definition stringFromMapAny (values : list (string * any)) (key : string) : string :=
  TrimSpace (rawStringFromAny (map_index values key)).

Definition emptyToNil (value : string) : any :=
  if bool_decide (TrimSpace value = "") then ANil else AString (TrimSpace value).

(** [nonEmptyString] and [firstNonEmptyGatewayString], the same function twice. *)
Fixpoint nonEmptyString (values : list string) : string :=
  match values with
  | [] => ""
  | value :: rest =>
      if bool_decide (TrimSpace value = "") then nonEmptyString rest else TrimSpace value
  end.

Definition firstNonEmptyGatewayString (values : list string) : string := nonEmptyString values.

(** A predicate on the type of a site, which the stream encoders ask too. *)
Definition isGrokSite (siteType : string) : bool := EqualFold (TrimSpace siteType) "grok".

(** ** Structs: how a member finds its field, and what the field accepts *)

(** The last member whose name is the field's but for case. *)
Fixpoint field (members : list (string * any)) (name : string) : any :=
  match members with
  | [] => ANil
  | (k, v) :: rest =>
      match field rest name with
      | ANil => if EqualFold k name then v else ANil
      | w => w
      end
  end.

(** A [null] leaves the zero value; a value of another type is an error ([None]). *)
Definition read_string (value : any) : option string :=
  match value with ANil => Some "" | AString s => Some s | _ => None end.

Definition read_int (value : any) : option Z :=
  match value with
  | ANil => Some 0
  | AInt n => if bool_decide (min_int64 ≤ n ∧ n ≤ max_int64) then Some n else None
  | _ => None
  end.

Definition read_map (value : any) : option (list (string * any)) :=
  match value with ANil => Some [] | AObject members => Some members | _ => None end.

Definition read_array (value : any) : option (list any) :=
  match value with ANil => Some [] | AArray items => Some items | _ => None end.

(** A pointer to a struct: [nil] on [null]. *)
Definition read_pointer {A} (read : list (string * any) → option A) (value : any)
    : option (option A) :=
  match value with
  | ANil => Some None
  | AObject members => a ← read members; Some (Some a)
  | _ => None
  end.

(** ** Lemmas *)

Lemma nonEmptyString_trimmed values : TrimSpace (nonEmptyString values) = nonEmptyString values.
Proof.
  induction values as [|v rest IH]; [done|]. cbn [nonEmptyString]. case_bool_decide; [done|].
  apply TrimSpace_idem.
Qed.
