(* ===== verification/Router.v ===== *)
(** * Choosing upstream routes

    [router/service.go]: which site models may serve a request, how they are
    scored and ordered, and the plan of a selection with its failover list.  The
    rows come from the database joins of [store/route_candidate_repository.go],
    the cooldowns from the table of [RouteCooldowns]. *)

From S2P Require Import Prelude StableSort GoFloat SiteConfig RouteCooldowns Catalog.

(** ** Data *)

(** [store.RouteCandidateRow], the columns the router reads; [SiteMeta] is its
    decoded [gateway] member. *)
Record RouteCandidateRow := mkCandidateRow {
  row_SiteID : uuid;
  row_SiteName : string;
  row_SiteSlug : string;
  row_SiteType : string;
  row_SiteBaseURL : string;
  row_SiteStatus : string;
  row_SiteEnabled : bool;
  row_SiteRoutingPriority : float64;
  row_SiteMeta : option GatewayConfig;
  row_SiteModelID : uuid;
  row_UpstreamModelName : string;
  row_SiteModelDisplayName : string;
  row_SiteModelStatus : string;
  row_MatchSource : string;
  row_MatchConfidence : Z;
  row_SiteHealthStatus : string;
  row_SiteHealthSuccessRate : option float64;
  row_SiteHealthAvgLatencyMS : option Z;
  row_SiteHealthFailures : Z;
  row_ModelSuccessRate : option float64;
  row_ModelAvgLatencyMS : option Z;
  row_ModelRequestCount : Z;
  row_ModelAPIKeyCount : Z;
  row_ModelAvailableKeyCount : Z;
  row_SiteCredentialCount : Z;
  row_PreferredCredentialID : option uuid;
  row_PreferredCredentialName : option string;
  row_PreferredCredentialRoutingPriority : float64;
  row_PreferredCredentialCostMultiplier : float64;
  row_PreferredCredentialGroupName : option string;
  row_PreferredCredentialCacheDomain : string;
  row_PricingGroupName : option string;
  row_PricingCurrency : option string;
  row_PricingInputValue : option float64;
  row_PricingOutputValue : option float64;
  row_PricingImageRatio : option float64;
  row_PricingPerRequestValue : option float64;
  row_PricingBillingType : option string;
  row_PricingQuotaType : option Z;
  row_SupportedEndpointTypes : list string
}.

Record CandidateQuery := mkQuery {
  q_ModelKey : string;
  q_EndpointType : string;
  q_ImageGeneration : bool;
  q_Debug : bool;
  q_AllowedSiteIDs : list uuid;
  q_AllowedSiteModelIDs : list uuid;
  q_ExcludeSiteIDs : list uuid;
  q_ExcludeSiteModelIDs : list uuid;
  q_Limit : Z;
  q_FailoverLimit : Z
}.

Record CandidateSite := mkCandidateSite {
  cs_ID : uuid;
  cs_Name : string;
  cs_Slug : string;
  cs_SiteType : string;
  cs_BaseURL : string;
  cs_RoutingPriority : float64;
  cs_ResponsesToolPolicy : string;
  cs_DisabledResponsesTools : option (list string);
  cs_ErrorClassifierPlugin : string
}.

Record CandidateModel := mkCandidateModel {
  cm_SiteModelID : uuid;
  cm_UpstreamName : string;
  cm_DisplayName : string;
  cm_MatchSource : string;
  cm_MatchConfidence : Z;
  cm_SupportedEndpointTypes : list string
}.

Record CandidateHealth := mkCandidateHealth {
  ch_Status : string;
  ch_RecentSuccessRate : option float64;
  ch_RecentAvgLatencyMS : option Z;
  ch_ConsecutiveFailures : Z;
  ch_ModelSuccessRate : option float64;
  ch_ModelAvgLatencyMS : option Z;
  ch_ModelRequestCount : Z
}.

Record CandidateCredential := mkCandidateCredential {
  cc_ID : option uuid;
  cc_Name : string;
  cc_RoutingPriority : float64;
  cc_GroupName : option string;
  cc_CacheDomain : string;
  cc_UpstreamCostMultiplier : float64
}.

Record CandidatePricing := mkCandidatePricing {
  cp_GroupName : option string;
  cp_Currency : option string;
  cp_BaseInputValue : option float64;
  cp_BaseOutputValue : option float64;
  cp_BasePerRequestValue : option float64;
  cp_InputValue : option float64;
  cp_OutputValue : option float64;
  cp_ImageRatio : option float64;
  cp_PerRequestValue : option float64;
  cp_BillingType : option string;
  cp_QuotaType : option Z;
  cp_UpstreamCostMultiplier : float64
}.

Record Candidate := mkCandidate {
  cd_Rank : Z;
  cd_Score : float64;
  cd_Cooling : bool;
  cd_CoolingReason : string;
  cd_Site : CandidateSite;
  cd_Model : CandidateModel;
  cd_Health : CandidateHealth;
  cd_AvailableAPIKeys : Z;
  cd_TotalAPIKeys : Z;
  cd_Credential : CandidateCredential;
  cd_Pricing : CandidatePricing;
  cd_ScoreBreakdown : option (gmap string float64)
}.

(** [store.CanonicalModel], by its identity and key. *)
Record CanonicalModel := mkCanonical { cn_ID : uuid; cn_ModelKey : string }.

(** The repositories the router asks; [Ok None] is gorm.ErrRecordNotFound. *)
Record RouteStore := mkRouteStore {
  st_GetByKey : string → result (option CanonicalModel) string;
  st_GetByNormalizedAlias : string → result (option CanonicalModel) string;
  st_ListByCanonicalModel : uuid → result (list RouteCandidateRow) string;
  st_Cooldowns : result (list RouteCooldown) string
}.

(** ** Endpoints a model serves *)

Definition endpointTypeFamily (endpointType : string) : string :=
  if bool_decide (endpointType ∈ ["openai"; "openai-response"; "anthropic-messages"; "google-gemini"])
  then "text"
  else if bool_decide (endpointType = "openai-image") then "image"
  else if bool_decide (endpointType = "openai-embedding") then "embedding"
  else if bool_decide (endpointType = "openai-audio-speech") then "audio-speech"
  else if bool_decide (endpointType ∈ ["systemone"; "typesafe-systemone"]) then "systemone"
  else "".

Definition endpointTypeSameFamily (a b : string) : bool :=
  negb (bool_decide (endpointTypeFamily a = ""))
  && bool_decide (endpointTypeFamily a = endpointTypeFamily b).

Definition isMiMoV25TTSRouteModel (model : string) : bool :=
  bool_decide (ToLower (TrimSpace model)
               ∈ ["mimo-v2.5-tts"; "mimo-v2.5-tts-voicedesign"; "mimo-v2.5-tts-voiceclone"]).

Definition routeCandidateSupportsEndpoint (row : RouteCandidateRow) (endpointType : string) : bool :=
  let endpointType := TrimSpace (ToLower endpointType) in
  let supported := map (λ item, TrimSpace (ToLower item)) (row_SupportedEndpointTypes row) in
  if bool_decide (endpointType = "") then true
  else if bool_decide (endpointType = "gemini-image") then
    existsb (λ s, bool_decide (s = "google-gemini") || bool_decide (s = "openai-image")) supported
  else if isMiMoV25TTSRouteModel (row_UpstreamModelName row) then
    bool_decide (endpointType = "openai") || bool_decide (endpointType = "openai-audio-speech")
  else existsb (endpointTypeSameFamily endpointType) supported.

(** ** Site settings *)

Definition siteGatewayConfig (meta : option GatewayConfig) : option GatewayConfig :=
  GatewayConfigFromSiteMeta meta.

Definition siteResponsesToolPolicy (meta : option GatewayConfig) : string :=
  match GatewayConfigFromSiteMeta meta with
  | None => ResponsesToolPolicyPassthrough
  | Some cfg => NormalizeResponsesToolPolicy (ResponsesToolPolicy cfg)
  end.

Definition siteDisabledResponsesTools (meta : option GatewayConfig) : option (list string) :=
  match GatewayConfigFromSiteMeta meta with
  | None => None
  | Some cfg => NormalizeDisabledResponsesTools (DisabledResponsesTools cfg)
  end.

(** ** Filtering *)

(** [uuidSet]: nil when empty. *)
Definition uuidSet (items : list uuid) : option (gset uuid) :=
  match items with [] => None | _ => Some (list_to_set items) end.

Definition availableAPIKeys (row : RouteCandidateRow) : Z * Z :=
  if negb (bool_decide (row_SiteType row = "newapi")) && (row_ModelAPIKeyCount row =? 0)
  then (row_SiteCredentialCount row, row_SiteCredentialCount row)
  else (row_ModelAvailableKeyCount row, row_ModelAPIKeyCount row).

(** The [continue] statements of the loop over the rows, in order. *)
Definition skipped (query : CandidateQuery) (ix : cooldownIndex) (row : RouteCandidateRow) : bool :=
  negb (row_SiteEnabled row) || negb (bool_decide (row_SiteStatus row = "active"))
  || negb (bool_decide (row_SiteModelStatus row = "active"))
  || negb (routeCandidateSupportsEndpoint row (q_EndpointType query))
  || (q_ImageGeneration query
      && ResponsesToolDisabled (siteGatewayConfig (row_SiteMeta row)) ResponsesHostedToolImageGeneration)
  || (fst (availableAPIKeys row) <=? 0)
  || match uuidSet (q_AllowedSiteIDs query) with
     | Some s => negb (bool_decide (row_SiteID row ∈ s)) | None => false end
  || match uuidSet (q_AllowedSiteModelIDs query) with
     | Some s => negb (bool_decide (row_SiteModelID row ∈ s)) | None => false end
  || match uuidSet (q_ExcludeSiteIDs query) with
     | Some s => bool_decide (row_SiteID row ∈ s) | None => false end
  || match uuidSet (q_ExcludeSiteModelIDs query) with
     | Some s => bool_decide (row_SiteModelID row ∈ s) | None => false end
  || bool_decide (is_Some (ix_sites ix !! row_SiteID row))
  || bool_decide (is_Some (ix_models ix !! row_SiteModelID row)).

Definition multipliedFloat (value : option float64) (multiplier : float64) : option float64 :=
  (λ v, fmul v multiplier) <$> value.

(** The candidate of a row, not scored yet. *)
Definition candidateOf (ix : cooldownIndex) (row : RouteCandidateRow) : Candidate :=
  let transient := ix_transientModels ix !! row_SiteModelID row in
  let multiplier := if fle (row_PreferredCredentialCostMultiplier row) fzero then of_int 1
                    else row_PreferredCredentialCostMultiplier row in
  mkCandidate 0 fzero (bool_decide (is_Some transient)) (default "" (rc_Reason <$> transient))
    (mkCandidateSite (row_SiteID row) (row_SiteName row) (row_SiteSlug row) (row_SiteType row)
       (row_SiteBaseURL row) (row_SiteRoutingPriority row)
       (siteResponsesToolPolicy (row_SiteMeta row)) (siteDisabledResponsesTools (row_SiteMeta row))
       (SitePluginID (siteGatewayConfig (row_SiteMeta row)) "error_classifier"))
    (mkCandidateModel (row_SiteModelID row) (row_UpstreamModelName row)
       (row_SiteModelDisplayName row) (row_MatchSource row) (row_MatchConfidence row)
       (row_SupportedEndpointTypes row))
    (mkCandidateHealth (row_SiteHealthStatus row) (row_SiteHealthSuccessRate row)
       (row_SiteHealthAvgLatencyMS row) (row_SiteHealthFailures row) (row_ModelSuccessRate row)
       (row_ModelAvgLatencyMS row) (row_ModelRequestCount row))
    (fst (availableAPIKeys row)) (snd (availableAPIKeys row))
    (mkCandidateCredential (row_PreferredCredentialID row)
       (default "" (row_PreferredCredentialName row)) (row_PreferredCredentialRoutingPriority row)
       (row_PreferredCredentialGroupName row) (row_PreferredCredentialCacheDomain row) multiplier)
    (mkCandidatePricing (row_PricingGroupName row) (row_PricingCurrency row)
       (row_PricingInputValue row) (row_PricingOutputValue row) (row_PricingPerRequestValue row)
       (multipliedFloat (row_PricingInputValue row) multiplier)
       (multipliedFloat (row_PricingOutputValue row) multiplier)
       (row_PricingImageRatio row)
       (multipliedFloat (row_PricingPerRequestValue row) multiplier)
       (row_PricingBillingType row) (row_PricingQuotaType row) multiplier)
    None.

(** ** Scoring *)

Definition healthScore (status : string) : float64 :=
  if bool_decide (status = "healthy") then of_int 40
  else if bool_decide (status = "degraded") then of_int 22
  else if bool_decide (status = "unknown") then of_int 12
  else fzero.

Definition successRateScore (rate : option float64) (maxScore : float64) : float64 :=
  match rate with None => fzero | Some r => fmul r maxScore end.

Definition latencyScore (latency : option Z) (maxScore : float64) : float64 :=
  match latency with
  | None => fzero
  | Some l => if l <=? 500 then maxScore
              else if l <=? 1500 then fmul maxScore (flit 6 10)
              else if l <=? 3000 then fmul maxScore (flit 25 100)
              else fzero
  end.

Definition candidatePriceValue (item : Candidate) : option float64 :=
  match cp_PerRequestValue (cd_Pricing item), cp_InputValue (cd_Pricing item),
        cp_OutputValue (cd_Pricing item) with
  | Some v, _, _ => Some v
  | None, Some i, Some o => Some (fadd (fadd fzero i) o)
  | None, Some i, None => Some (fadd fzero i)
  | None, None, Some o => Some (fadd fzero o)
  | None, None, None => None
  end.

Definition priceScore (item : Candidate) (minPrice maxPrice : float64) : float64 :=
  match candidatePriceValue item with
  | None => of_int 2
  | Some value =>
      if fle maxPrice minPrice then of_int 10
      else fmul (of_int 10) (fdiv (fsub maxPrice value) (fsub maxPrice minPrice))
  end.

Definition scoreKeys : list string :=
  ["site_health"; "site_success_rate"; "site_latency"; "model_success_rate"; "model_latency";
   "api_key_capacity"; "price"].

Definition breakdownOf (item : Candidate) (minPrice maxPrice : float64) : gmap string float64 :=
  let h := cd_Health item in
  list_to_map (zip scoreKeys
    [healthScore (ch_Status h); successRateScore (ch_RecentSuccessRate h) (of_int 10);
     latencyScore (ch_RecentAvgLatencyMS h) (of_int 5);
     successRateScore (ch_ModelSuccessRate h) (of_int 30);
     latencyScore (ch_ModelAvgLatencyMS h) (of_int 15);
     fmul (of_int (Z.min (cd_AvailableAPIKeys item) 5)) (of_int 3);
     priceScore item minPrice maxPrice]).

(** The sum runs over a Go map: [order] is the order in which this iteration
    happens to visit the keys. *)
Definition scoreCandidate (order : list string) (item : Candidate) (minPrice maxPrice : float64)
    : float64 * gmap string float64 :=
  let breakdown := breakdownOf item minPrice maxPrice in
  (fold_left (λ total key, fadd total (default fzero (breakdown !! key))) order fzero, breakdown).

(** The least and the greatest price, 0 when there is none. *)
Definition priceRange (values : list float64) : float64 * float64 :=
  match values with
  | [] => (fzero, fzero)
  | v :: rest =>
      fold_left (λ mm value, (if flt value (fst mm) then value else fst mm,
                              if fgt value (snd mm) then value else snd mm)) rest (v, v)
  end.

Definition with_score (score : float64) (breakdown : option (gmap string float64)) (c : Candidate)
    : Candidate :=
  mkCandidate (cd_Rank c) score (cd_Cooling c) (cd_CoolingReason c) (cd_Site c) (cd_Model c)
    (cd_Health c) (cd_AvailableAPIKeys c) (cd_TotalAPIKeys c) (cd_Credential c) (cd_Pricing c)
    breakdown.

Definition with_rank (rank : Z) (c : Candidate) : Candidate :=
  mkCandidate rank (cd_Score c) (cd_Cooling c) (cd_CoolingReason c) (cd_Site c) (cd_Model c)
    (cd_Health c) (cd_AvailableAPIKeys c) (cd_TotalAPIKeys c) (cd_Credential c) (cd_Pricing c)
    (cd_ScoreBreakdown c).

Definition scored (debug : bool) (orders : nat → list string) (minPrice maxPrice : float64)
    (index : nat) (c : Candidate) : Candidate :=
  let '(score, breakdown) := scoreCandidate (orders index) c minPrice maxPrice in
  with_score score (if debug then Some breakdown else cd_ScoreBreakdown c) c.

(** The comparison of [sort.SliceStable]. *)
Definition candidate_less (a b : Candidate) : bool :=
  if negb (Bool.eqb (cd_Cooling a) (cd_Cooling b)) then negb (cd_Cooling a)
  else if negb (feq (cs_RoutingPriority (cd_Site a)) (cs_RoutingPriority (cd_Site b)))
  then fgt (cs_RoutingPriority (cd_Site a)) (cs_RoutingPriority (cd_Site b))
  else if feq (cd_Score a) (cd_Score b)
  then string_ltb (cs_Name (cd_Site a)) (cs_Name (cd_Site b))
  else fgt (cd_Score a) (cd_Score b).

(** ** [Candidates], [Select] and [Plan] *)

(** From the rows to the list before [Limit] is applied. *)
Definition rankedCandidates (query : CandidateQuery) (orders : nat → list string)
    (ix : cooldownIndex) (rows : list RouteCandidateRow) : list Candidate :=
  let candidates := map (candidateOf ix) (List.filter (λ row, negb (skipped query ix row)) rows) in
  let '(minPrice, maxPrice) := priceRange (omap candidatePriceValue candidates) in
  let candidates := imap (scored (q_Debug query) orders minPrice maxPrice) candidates in
  imap (λ index c, with_rank (Z.of_nat index + 1) c) (SliceStable candidate_less candidates).

Definition limited (limit : Z) (items : list Candidate) : list Candidate :=
  if (0 <? limit) && (limit <? Z.of_nat (length items)) then take (Z.to_nat limit) items else items.

Definition resolveCanonicalModel (st : RouteStore) (modelKey : string)
    : result CanonicalModel string :=
  let normalized := CanonicalModelKeyFromUpstream modelKey in
  let normalized := if bool_decide (normalized = "") then NormalizeModelKey modelKey else normalized in
  match st_GetByKey st normalized with
  | Ok (Some canonical) => Ok canonical
  | Err e => Err e
  | Ok None => match st_GetByNormalizedAlias st normalized with
               | Ok (Some canonical) => Ok canonical
               | _ => Err "canonical model was not found"
               end
  end.

(** [Candidates] at the time [now]. *)
Definition Candidates (st : RouteStore) (orders : nat → list string) (now : Z)
    (query : CandidateQuery) : result (CanonicalModel * list Candidate) string :=
  let modelKey := TrimSpace (q_ModelKey query) in
  if bool_decide (modelKey = "") then Err "model_key is required"
  else match resolveCanonicalModel st modelKey with
       | Err e => Err e
       | Ok canonical =>
           match st_ListByCanonicalModel st (cn_ID canonical) with
           | Err e => Err e
           | Ok rows =>
               match st_Cooldowns st with
               | Err e => Err e
               | Ok table =>
                   let ix := indexCooldowns (ListActive now table) in
                   Ok (canonical, limited (q_Limit query) (rankedCandidates query orders ix rows))
               end
           end
       end.

Definition ErrNoRouteCandidates : string := "no route candidates available".

Definition Select (st : RouteStore) (orders : nat → list string) (now : Z)
    (query : CandidateQuery) : result (CanonicalModel * Candidate) string :=
  match Candidates st orders now query with
  | Err e => Err e
  | Ok (_, []) => Err ErrNoRouteCandidates
  | Ok (canonical, c :: _) => Ok (canonical, c)
  end.

Record SelectionPlan := mkPlan {
  plan_CanonicalModel : CanonicalModel;
  plan_Selected : Candidate;
  plan_Failover : list Candidate
}.

Definition Plan (st : RouteStore) (orders : nat → list string) (now : Z)
    (query : CandidateQuery) : result SelectionPlan string :=
  match Candidates st orders now query with
  | Err e => Err e
  | Ok (_, []) => Err ErrNoRouteCandidates
  | Ok (canonical, c :: rest) =>
      let failoverLimit := if q_FailoverLimit query <=? 0 then 3 else q_FailoverLimit query in
      Ok (mkPlan canonical c (take (Z.to_nat failoverLimit) rest))
  end.

(** ** What the theorems talk about *)

(** A row may serve the query at [now], given the cooldowns of the table. *)
Record eligible (query : CandidateQuery) (now : Z) (table : list RouteCooldown)
    (row : RouteCandidateRow) : Prop := {
  el_site : row_SiteEnabled row = true ∧ row_SiteStatus row = "active";
  el_model : row_SiteModelStatus row = "active";
  el_endpoint : routeCandidateSupportsEndpoint row (q_EndpointType query) = true;
  el_image : q_ImageGeneration query = true →
    ResponsesToolDisabled (siteGatewayConfig (row_SiteMeta row)) ResponsesHostedToolImageGeneration
      = false;
  el_keys : 0 < fst (availableAPIKeys row);
  el_allowed_site : q_AllowedSiteIDs query = [] ∨ row_SiteID row ∈ q_AllowedSiteIDs query;
  el_allowed_model :
    q_AllowedSiteModelIDs query = [] ∨ row_SiteModelID row ∈ q_AllowedSiteModelIDs query;
  el_excluded_site : row_SiteID row ∉ q_ExcludeSiteIDs query;
  el_excluded_model : row_SiteModelID row ∉ q_ExcludeSiteModelIDs query;
  el_site_cooldown : ∀ r, r ∈ table → is_active now r = true → ¬ targets r (TSite (row_SiteID row));
  el_model_cooldown :
    ∀ r, r ∈ table → is_active now r = true → ¬ targets r (TModel (row_SiteModelID row))
}.

(** What a candidate keeps of its row. *)
Definition identity (c : Candidate) : CandidateSite * CandidateModel * bool :=
  (cd_Site c, cd_Model c, cd_Cooling c).

(** Candidates the comparison orders: no score and no priority is NaN. *)
Definition ordered (c : Candidate) : Prop :=
  is_nan (cd_Score c) = false ∧ is_nan (cs_RoutingPriority (cd_Site c)) = false.

(** ** Filtering *)

Lemma uuidSet_elem l id :
  match uuidSet l with Some s => bool_decide (id ∈ s) | None => false end = bool_decide (id ∈ l).
Proof.
  destruct l as [|x l]; simpl; [done|]. apply bool_decide_ext. set_solver.
Qed.

Lemma uuidSet_allowed l id :
  match uuidSet l with Some s => negb (bool_decide (id ∈ s)) | None => false end = false
  ↔ l = [] ∨ id ∈ l.
Proof.
  pose proof (uuidSet_elem l id) as H. destruct l as [|x l]; simpl in *; [naive_solver|].
  rewrite H, negb_false_iff, bool_decide_eq_true. naive_solver.
Qed.

Lemma eligible_skipped query now table row :
  eligible query now table row ↔ skipped query (indexCooldowns (ListActive now table)) row = false.
Proof.
  pose proof (index_active now table (TSite (row_SiteID row))) as Hsite.
  pose proof (index_active now table (TModel (row_SiteModelID row))) as Hmodel.
  unfold skipped. rewrite !orb_false_iff, !uuidSet_allowed, !uuidSet_elem.
  rewrite !negb_false_iff, andb_false_iff, !bool_decide_eq_true, !bool_decide_eq_false.
  simpl in Hsite, Hmodel. rewrite Hsite, Hmodel, Z.leb_gt. split.
  - intros [[H1 H2] H3 H4 H5 H6 H7 H8 H9 H10 H11 H12]. split_and!; try done.
    + destruct (q_ImageGeneration query); [right; by apply H5|by left].
    + intros (r & ? & ? & ?). by eapply H11.
    + intros (r & ? & ? & ?). by eapply H12.
  - intros [[[[[[[[[[[H1 H2] H3] H4] H5] H6] H7] H8] H9] H10] H11] H12].
    split; try assumption; [done| | |].
    + intros Hi. destruct H5 as [H5|H5]; [congruence|exact H5].
    + intros r Hr Ha Ht. apply H11. by exists r.
    + intros r Hr Ha Ht. apply H12. by exists r.
Qed.

(** ** Order *)

Section order.

Definition less_cooling (a b : Candidate) : bool := negb (cd_Cooling a) && cd_Cooling b.
Definition less_priority (a b : Candidate) : bool :=
  flt (cs_RoutingPriority (cd_Site b)) (cs_RoutingPriority (cd_Site a)).
Definition less_score (a b : Candidate) : bool := flt (cd_Score b) (cd_Score a).
Definition less_name (a b : Candidate) : bool :=
  string_ltb (cs_Name (cd_Site a)) (cs_Name (cd_Site b)).

#[local] Instance cooling_order : StrictWeak less_cooling ordered.
Proof.
  unfold less_cooling. split; intros.
  - by destruct (cd_Cooling x), (cd_Cooling y).
  - by destruct (cd_Cooling x), (cd_Cooling y), (cd_Cooling z).
Qed.

#[local] Instance priority_order : StrictWeak less_priority ordered.
Proof.
  split.
  - intros x y [_ Hx] [_ Hy]. by apply flt_asym.
  - intros x y z [_ Hx] [_ Hy] [_ Hz] H1 H2. unfold less_priority in *. by eapply not_flt_trans; [..|exact H2|exact H1].
Qed.

#[local] Instance score_order : StrictWeak less_score ordered.
Proof.
  split.
  - intros x y [Hx _] [Hy _]. by apply flt_asym.
  - intros x y z [Hx _] [Hy _] [Hz _] H1 H2. unfold less_score in *. by eapply not_flt_trans; [..|exact H2|exact H1].
Qed.

#[local] Instance name_order : StrictWeak less_name ordered.
Proof.
  split.
  - intros x y _ _. apply string_ltb_asym.
  - intros x y z _ _ _. apply string_not_ltb_trans.
Qed.

(** The comparison, one criterion after the other. *)
Lemma candidate_less_lex a b :
  ordered a → ordered b →
  candidate_less a b = lex less_cooling (lex less_priority (lex less_score less_name)) a b.
Proof.
  intros [Ha1 Ha2] [Hb1 Hb2]. unfold candidate_less, lex, less_cooling, less_priority, less_score, less_name.
  change fgt with (λ x y, flt y x). cbv beta. rewrite !feq_flt by done.
  destruct (cd_Cooling a), (cd_Cooling b); simpl; try done.
  all: destruct (flt (cs_RoutingPriority (cd_Site b)) (cs_RoutingPriority (cd_Site a))),
         (flt (cs_RoutingPriority (cd_Site a)) (cs_RoutingPriority (cd_Site b))); simpl; try done.
  all: by destruct (flt (cd_Score b) (cd_Score a)), (flt (cd_Score a) (cd_Score b)).
Qed.

#[export] Instance candidate_less_order : StrictWeak candidate_less ordered.
Proof.
  pose proof (_ : StrictWeak (lex less_cooling (lex less_priority (lex less_score less_name))) ordered)
    as [Hasym Htrans].
  split.
  - intros x y Hx Hy. rewrite !candidate_less_lex by done. by apply Hasym.
  - intros x y z Hx Hy Hz. rewrite !candidate_less_lex by done. by apply Htrans.
Qed.
End order.

(** ** From the rows to the ranked list *)

#[global] Instance eligible_dec query now table row : Decision (eligible query now table row).
Proof.
  destruct (skipped query (indexCooldowns (ListActive now table)) row) eqn:E.
  - right. rewrite eligible_skipped. by rewrite E.
  - left. by rewrite eligible_skipped.
Defined.

(** The rows that may serve the query. *)
Definition served (query : CandidateQuery) (now : Z) (table : list RouteCooldown)
    (rows : list RouteCandidateRow) : list RouteCandidateRow :=
  filter (eligible query now table) rows.

Lemma served_filter query now table rows :
  List.filter (λ row, negb (skipped query (indexCooldowns (ListActive now table)) row)) rows
  = served query now table rows.
Proof.
  unfold served. induction rows as [|row rows IH]; [done|]. rewrite filter_cons. simpl.
  pose proof (eligible_skipped query now table row) as He.
  destruct (skipped _ _ row); simpl; rewrite IH; case_decide as Hd; try done.
  - by apply He in Hd.
  - by destruct Hd; apply He.
Qed.

Lemma identity_scored debug orders lo hi i c : identity (scored debug orders lo hi i c) = identity c.
Proof. done. Qed.

Lemma map_imap_same {A B C} (f : nat → A → B) (g : B → C) (h : A → C) l :
  (∀ i x, g (f i x) = h x) → map g (imap f l) = map h l.
Proof.
  intros H. revert f H. induction l as [|x l IH]; intros f H; simpl; [done|].
  rewrite H. f_equal. apply IH. intros i y. apply H.
Qed.

Lemma ranked_identity query orders ix rows :
  Permutation (map identity (rankedCandidates query orders ix rows))
    (map identity (map (candidateOf ix) (List.filter (λ row, negb (skipped query ix row)) rows))).
Proof.
  unfold rankedCandidates. destruct (priceRange _) as [lo hi].
  rewrite (map_imap_same _ identity identity) by done.
  rewrite <- (SliceStable_perm candidate_less), (map_imap_same _ identity identity); [done|].
  intros i x. apply identity_scored.
Qed.

Lemma limited_prefix limit items : ∃ rest, items = limited limit items ++ rest.
Proof.
  unfold limited. case_match; [exists (drop (Z.to_nat limit) items); by rewrite take_drop|].
  exists []. by rewrite app_nil_r.
Qed.

Lemma Candidates_inv st orders now query canonical items :
  Candidates st orders now query = Ok (canonical, items) →
  ∃ rows table, st_ListByCanonicalModel st (cn_ID canonical) = Ok rows
    ∧ st_Cooldowns st = Ok table
    ∧ items = limited (q_Limit query)
                (rankedCandidates query orders (indexCooldowns (ListActive now table)) rows).
Proof.
  unfold Candidates. intros H. case_bool_decide; [done|].
  destruct (resolveCanonicalModel st _) as [canonical'|]; [|done].
  destruct (st_ListByCanonicalModel st _) as [rows|] eqn:Er; [|done].
  destruct (st_Cooldowns st) as [table|] eqn:Et; [|done]. simplify_eq. by exists rows, table.
Qed.

(** ** Best first *)

(** [a] may stand before [b]: not cooling before cooling, then by priority, score
    and name. *)
Definition route_before (a b : Candidate) : Prop :=
  let pa := cs_RoutingPriority (cd_Site a) in let pb := cs_RoutingPriority (cd_Site b) in
  (cd_Cooling a = false ∧ cd_Cooling b = true)
  ∨ (cd_Cooling a = cd_Cooling b
     ∧ (fgt pa pb = true
        ∨ (feq pa pb = true
           ∧ (fgt (cd_Score a) (cd_Score b) = true
              ∨ (feq (cd_Score a) (cd_Score b) = true
                 ∧ string_ltb (cs_Name (cd_Site b)) (cs_Name (cd_Site a)) = false))))).

Lemma not_after_route a b :
  ordered a → ordered b → not_after candidate_less a b → route_before a b.
Proof.
  intros [Ha1 Ha2] [Hb1 Hb2]. unfold not_after, candidate_less, route_before.
  change fgt with (λ x y, flt y x). cbv beta zeta. rewrite !feq_flt by done.
  destruct (cd_Cooling a), (cd_Cooling b); simpl; try done; auto.
  all: destruct (flt (cs_RoutingPriority (cd_Site b)) (cs_RoutingPriority (cd_Site a))) eqn:E1,
         (flt (cs_RoutingPriority (cd_Site a)) (cs_RoutingPriority (cd_Site b))) eqn:E2; simpl; try done; auto.
  all: try (by rewrite (flt_asym _ _ Hb2 Ha2 E1) in E2).
  all: destruct (flt (cd_Score b) (cd_Score a)) eqn:E3, (flt (cd_Score a) (cd_Score b)) eqn:E4;
         simpl; try done; auto 10.
Qed.

Lemma imap_nth {A B} (f : nat → A → B) l i : imap f l !! i = f i <$> l !! i.
Proof. apply list_lookup_imap. Qed.

Lemma StronglySorted_lookup {A} (R : A → A → Prop) l i j x y :
  Sorted.StronglySorted R l → (i < j)%nat → l !! i = Some x → l !! j = Some y → R x y.
Proof.
  intros Hs. revert i j. induction Hs as [|z l Hs IH Hall]; intros i j Hij Hi Hj; [done|].
  destruct i as [|i], j as [|j]; try lia; simpl in *; simplify_eq.
  - rewrite list.Forall_forall in Hall. by eapply Hall, list_elem_of_lookup_2.
  - eapply IH; [|done..]. lia.
Qed.

(** the candidates come best first and their ranks count from 1: a route in a
    transient cooldown never stands before one that is not; then the higher
    priority, the higher score and the smaller name come first. *)
Theorem candidates_best_first (query : CandidateQuery) (orders : nat → list string)
    (ix : cooldownIndex) (rows : list RouteCandidateRow) (i j : nat) (a b : Candidate) :
  let items := rankedCandidates query orders ix rows in
  Forall ordered items → items !! i = Some a → items !! j = Some b → (i < j)%nat →
  route_before a b ∧ cd_Rank a = Z.of_nat i + 1.
Proof.
  unfold rankedCandidates. destruct (priceRange _) as [lo hi]. simpl.
  set (l := imap _ (map _ _)). intros Hord Hi Hj Hij.
  assert (Hl : Forall ordered l).
  { rewrite (SliceStable_perm candidate_less l). apply list.Forall_forall. intros x [k Hk]%list_elem_of_lookup.
    rewrite list.Forall_forall in Hord.
    apply (Hord (with_rank (Z.of_nat k + 1) x)).
    apply list_elem_of_lookup. exists k. by rewrite list_lookup_imap, Hk. }
  pose proof (SliceStable_sorted candidate_less ordered l Hl) as Hs.
  rewrite list_lookup_imap in Hi, Hj. apply fmap_Some in Hi as (a' & Ha & ->), Hj as (b' & Hb & ->).
  split; [|done].
  pose proof (StronglySorted_lookup _ _ _ _ _ _ Hs Hij Ha Hb) as Hab.
  rewrite (SliceStable_perm candidate_less l), list.Forall_forall in Hl.
  assert (Hr : route_before a' b').
  { apply not_after_route; [apply Hl; by eapply list_elem_of_lookup_2..|done]. }
  exact Hr.
Qed.

Lemma ranked_ranks query orders ix rows i c :
  rankedCandidates query orders ix rows !! i = Some c → cd_Rank c = Z.of_nat i + 1.
Proof.
  unfold rankedCandidates. destruct (priceRange _) as [lo hi]. simpl. rewrite list_lookup_imap.
  by intros (c' & _ & ->)%fmap_Some.
Qed.

Lemma limited_take limit items : limited limit items = if 0 <? limit then take (Z.to_nat limit) items else items.
Proof.
  unfold limited. destruct (Z.ltb_spec 0 limit); [|done]. cbn [andb].
  destruct (Z.ltb_spec limit (Z.of_nat (length items))); [done|]. by rewrite take_ge by lia.
Qed.

(** C34: The candidates of a query are exactly the rows that may serve it, best first: one
    candidate per eligible row, with the site, the model and the cooling mark of that row,
    ranked from 1.  Where no score and no priority is NaN, a route in a transient cooldown
    stands behind all that are not, and otherwise the higher priority, then the higher score,
    then the smaller name comes first.  A positive limit keeps the first so many of this list,
    and no limit all of it. *)
Theorem candidates_exact (st : RouteStore) (orders : nat → list string) (now : Z)
    (query : CandidateQuery) (canonical : CanonicalModel) (items : list Candidate)
    (rows : list RouteCandidateRow) (table : list RouteCooldown) :
  Candidates st orders now query = Ok (canonical, items) →
  st_ListByCanonicalModel st (cn_ID canonical) = Ok rows → st_Cooldowns st = Ok table →
  let ix := indexCooldowns (ListActive now table) in
  ∃ all,
    Permutation (map identity all) (map (λ row, identity (candidateOf ix row)) (served query now table rows))
    ∧ items = (if 0 <? q_Limit query then take (Z.to_nat (q_Limit query)) all else all)
    ∧ (∀ i c, all !! i = Some c → cd_Rank c = Z.of_nat i + 1)
    ∧ (Forall ordered all →
       ∀ i j a b, (i < j)%nat → all !! i = Some a → all !! j = Some b → route_before a b).
Proof.
  intros (rows' & table' & Hr & Ht & ->)%Candidates_inv Hr' Ht' ix.
  assert (rows' = rows) as -> by congruence. assert (table' = table) as -> by congruence. fold ix.
  exists (rankedCandidates query orders ix rows). split_and!.
  - rewrite ranked_identity, map_map. unfold ix. by rewrite served_filter.
  - apply limited_take.
  - apply ranked_ranks.
  - intros Hord i j a b Hij Ha Hb. by apply (candidates_best_first query orders ix rows i j).
Qed.

(** ** Plans *)

Lemma Candidates_rows st orders now query canonical items c :
  Candidates st orders now query = Ok (canonical, items) → c ∈ items →
  ∃ rows table row, st_ListByCanonicalModel st (cn_ID canonical) = Ok rows
    ∧ st_Cooldowns st = Ok table ∧ row ∈ rows ∧ eligible query now table row
    ∧ identity c = identity (candidateOf (indexCooldowns (ListActive now table)) row).
Proof.
  intros (rows & table & Hr & Ht & ->)%Candidates_inv Hc.
  set (ix := indexCooldowns (ListActive now table)) in *.
  destruct (limited_prefix (q_Limit query) (rankedCandidates query orders ix rows)) as [rest Hrest].
  assert (Hin : identity c ∈ map identity (rankedCandidates query orders ix rows)).
  { apply (list_elem_of_fmap_2 identity). rewrite Hrest. apply elem_of_app. by left. }
  rewrite ranked_identity in Hin. unfold ix in Hin. rewrite served_filter, map_map in Hin.
  apply (list_elem_of_fmap (λ row, identity (candidateOf ix row))) in Hin as (row & Hid & Hrow).
  apply list_elem_of_filter in Hrow as [He Hrow]. by exists rows, table, row.
Qed.

Lemma Candidates_models st orders now query canonical items rows :
  Candidates st orders now query = Ok (canonical, items) →
  st_ListByCanonicalModel st (cn_ID canonical) = Ok rows → NoDup (map row_SiteModelID rows) →
  NoDup (map (λ c, cm_SiteModelID (cd_Model c)) items).
Proof.
  intros (rows' & table & Hr & Ht & ->)%Candidates_inv Hr' Hnd. assert (rows' = rows) as -> by congruence.
  set (ix := indexCooldowns (ListActive now table)) in *.
  destruct (limited_prefix (q_Limit query) (rankedCandidates query orders ix rows)) as [rest Hrest].
  assert (Hall : NoDup (map (λ c, cm_SiteModelID (cd_Model c)) (rankedCandidates query orders ix rows))).
  { assert (Hmap : ∀ l, map (λ c, cm_SiteModelID (cd_Model c)) l
              = map (λ i : CandidateSite * CandidateModel * bool, cm_SiteModelID i.1.2) (map identity l))
      by (intros l; by rewrite map_map).
    rewrite Hmap, ranked_identity, !map_map. simpl.
    eapply sublist_NoDup; [exact Hnd|]. apply (fmap_sublist row_SiteModelID).
    clear. induction rows as [|row rows IH]; simpl; [constructor|].
    destruct (negb _); [by apply sublist_skip|by apply sublist_cons]. }
  rewrite Hrest, map_app in Hall. apply list.NoDup_app in Hall. tauto.
Qed.

(** A plan names routes that may serve the query, each site model at most once,
    at most [FailoverLimit] (3 by default) beside the selected one, which is the
    best. *)
Theorem plan_sound (st : RouteStore) (orders : nat → list string) (now : Z)
    (query : CandidateQuery) (p : SelectionPlan) (rows : list RouteCandidateRow)
    (table : list RouteCooldown) :
  Plan st orders now query = Ok p →
  st_ListByCanonicalModel st (cn_ID (plan_CanonicalModel p)) = Ok rows →
  st_Cooldowns st = Ok table → NoDup (map row_SiteModelID rows) →
  let routes := plan_Selected p :: plan_Failover p in
  (∃ rest, Candidates st orders now query = Ok (plan_CanonicalModel p, routes ++ rest))
  ∧ (∀ c, c ∈ routes → ∃ row, row ∈ rows ∧ eligible query now table row
       ∧ identity c = identity (candidateOf (indexCooldowns (ListActive now table)) row))
  ∧ NoDup (map (λ c, cm_SiteModelID (cd_Model c)) routes)
  ∧ Z.of_nat (length (plan_Failover p))
    ≤ if q_FailoverLimit query <=? 0 then 3 else q_FailoverLimit query.
Proof.
  unfold Plan. destruct (Candidates st orders now query) as [[canonical [|c items]]|] eqn:Ec; try done.
  intros [= <-] Hr Ht Hnd. simpl in *.
  set (k := Z.to_nat (if q_FailoverLimit query <=? 0 then 3 else q_FailoverLimit query)).
  pose proof (Candidates_models _ _ _ _ _ _ _ Ec Hr Hnd) as Hmodels.
  assert (Hsplit : c :: items = (c :: take k items) ++ drop k items) by (simpl; by rewrite take_drop).
  split_and!.
  - exists (drop k items). by rewrite Hsplit.
  - intros c' Hc'. destruct (Candidates_rows _ _ _ _ _ _ c' Ec) as (rows' & table' & row & ? & ? & ? & ? & ?).
    { rewrite Hsplit. apply elem_of_app. by left. }
    assert (rows' = rows) as -> by congruence. assert (table' = table) as -> by congruence. by exists row.
  - rewrite Hsplit, map_app in Hmodels. apply list.NoDup_app in Hmodels. simpl in Hmodels. tauto.
  - rewrite length_take. unfold k. destruct (Z.leb_spec (q_FailoverLimit query) 0); lia.
Qed.

(** planning and selecting fail for want of candidates exactly when no row may
    serve the query. *)
Theorem no_candidates_iff (st : RouteStore) (orders : nat → list string) (now : Z)
    (query : CandidateQuery) (canonical : CanonicalModel) (rows : list RouteCandidateRow)
    (table : list RouteCooldown) :
  TrimSpace (q_ModelKey query) ≠ "" →
  resolveCanonicalModel st (TrimSpace (q_ModelKey query)) = Ok canonical →
  st_ListByCanonicalModel st (cn_ID canonical) = Ok rows → st_Cooldowns st = Ok table →
  (Plan st orders now query = Err ErrNoRouteCandidates ↔ served query now table rows = [])
  ∧ (Select st orders now query = Err ErrNoRouteCandidates ↔ served query now table rows = []).
Proof.
  intros Hkey Hres Hr Ht. unfold Plan, Select, Candidates.
  rewrite bool_decide_eq_false_2, Hres, Hr, Ht by done. cbv zeta.
  set (ix := indexCooldowns (ListActive now table)).
  pose proof (ranked_identity query orders ix rows) as Hperm. unfold ix in Hperm at 2 3.
  rewrite served_filter in Hperm. fold ix in Hperm.
  assert (Hnil : limited (q_Limit query) (rankedCandidates query orders ix rows) = []
                 ↔ served query now table rows = []).
  { apply Permutation_length in Hperm. rewrite !length_map in Hperm. unfold limited.
    rewrite <- !length_zero_iff_nil, <- Hperm. destruct (_ && _) eqn:E; [|done].
    apply andb_prop in E as [E1%Z.ltb_lt E2%Z.ltb_lt]. rewrite length_take. lia. }
  rewrite <- Hnil. destruct (limited _ _) as [|c items]; simpl; split; done.
Qed.

(** ** Cooldowns *)

Lemma ActivateCooldown_item t id input table table' item :
  ActivateCooldown t id input table = (table', item) →
  item ∈ table' ∧ rc_SiteID item = ci_SiteID input
  ∧ rc_SiteModelID item = nullUUID (ci_SiteModelID input)
  ∧ rc_SiteCredentialID item = nullUUID (ci_SiteCredentialID input)
  ∧ ∀ now, 0 < t → now < t + (if ci_Duration input <=? 0 then 5 * Minute else ci_Duration input) →
      is_active now item = true.
Proof.
  unfold ActivateCooldown, Activate. intros [= <- <-]. split_and!; [|done..|].
  { apply elem_of_app. right. by left. }
  intros now Ht Hnow. set (d := if ci_Duration input <=? 0 then 5 * Minute else ci_Duration input) in *.
  assert (Hd : 0 < d) by (unfold d; destruct (Z.leb_spec (ci_Duration input) 0); [done|lia]).
  unfold is_active. simpl. fold d. destruct (Z.eqb_spec (t + d) 0); [lia|]. by apply Z.ltb_lt.
Qed.

(** C35: while a cooldown of a site lasts, no route of that site is offered, and
    while a cooldown of a model lasts, that model is not offered, unless the
    cooldown is a transient one of the gateway: then the model is offered marked
    as cooling. *)
Theorem cooldown_takes_effect (st : RouteStore) (orders : nat → list string) (t now : Z)
    (query : CandidateQuery) (id : uuid) (input : CooldownInput) (item : RouteCooldown)
    (table table' : list RouteCooldown) (canonical : CanonicalModel) (items : list Candidate) :
  ActivateCooldown t id input table = (table', item) → st_Cooldowns st = Ok table' →
  nullUUID (ci_SiteCredentialID input) = None →
  0 < t → now < t + (if ci_Duration input <=? 0 then 5 * Minute else ci_Duration input) →
  Candidates st orders now query = Ok (canonical, items) →
  ∀ c, c ∈ items →
    match nullUUID (ci_SiteModelID input) with
    | None => cs_ID (cd_Site c) ≠ ci_SiteID input
    | Some m => cm_SiteModelID (cd_Model c) = m →
                TransientRouteCooldown item = true ∧ cd_Cooling c = true
    end.
Proof.
  intros Hact Hst Hcred Ht Hnow Hc c Hin.
  destruct (ActivateCooldown_item _ _ _ _ _ _ Hact) as (Hitem & His & Him & Hic & Hlast).
  specialize (Hlast now Ht Hnow).
  destruct (Candidates_rows _ _ _ _ _ _ _ Hc Hin) as (rows & table0 & row & _ & Htab & _ & He & Hid).
  assert (table0 = table') as -> by congruence. clear Hact. rewrite Hcred in Hic.
  unfold identity, candidateOf in Hid. injection Hid as Hs Hm Hcool. rewrite Hs, Hm, Hcool. simpl.
  destruct (nullUUID (ci_SiteModelID input)) as [m|].
  - intros <-. destruct (TransientRouteCooldown item) eqn:Etr.
    + split; [done|]. apply bool_decide_eq_true.
      apply (index_active now _ (TTransient (row_SiteModelID row))).
      exists item. by unfold targets.
    + exfalso. eapply (el_model_cooldown _ _ _ _ He item); [done..|]. by unfold targets.
  - intros Heq. eapply (el_site_cooldown _ _ _ _ He item); [done..|]. split; [done|]. split; congruence.
Qed.

(** ** Instances *)

(** A healthy site with one key and one model. *)
Definition exampleRow (site model : uuid) (name : string) : RouteCandidateRow :=
  mkCandidateRow site name name "newapi" "https://example.org" "active" true fzero None model
    "gpt-4o" "gpt-4o" "active" "exact" 100 "healthy" (Some (flit 51 100)) (Some 700) 0
    (Some (flit 57 100)) (Some 900) 12 2 1 1 None None fzero fzero None "" None None
    (Some (flit 1 10)) (Some (flit 2 10)) None None None None ["openai"].

Definition exampleStore (rows : list RouteCandidateRow) (table : list RouteCooldown) : RouteStore :=
  mkRouteStore (λ key, Ok (Some (mkCanonical 9%N key))) (λ _, Ok None) (λ _, Ok rows) (Ok table).

Definition exampleQuery (limit : Z) : CandidateQuery :=
  mkQuery "gpt-4o" "openai" false false [] [] [] [] limit 0.

Definition exampleRows : list RouteCandidateRow :=
  [exampleRow 1%N 11%N "a"; exampleRow 2%N 12%N "b"; exampleRow 3%N 13%N "c"].

Definition fixedOrder : nat → list string := λ _, scoreKeys.

Definition twoRows : list RouteCandidateRow :=
  [exampleRow 1%N 11%N "a"; exampleRow 2%N 12%N "b"].

(** The first candidate is summed from the last key to the first. *)
Definition mixedOrder : nat → list string := λ i, if (i =? 0)%nat then rev scoreKeys else scoreKeys.

Definition rankedNames (orders : nat → list string) : list string :=
  map (λ c, cs_Name (cd_Site c)) (rankedCandidates (exampleQuery 0) orders emptyIndex twoRows).

Definition rankedScores (orders : nat → list string) : list float64 :=
  map cd_Score (rankedCandidates (exampleQuery 0) orders emptyIndex twoRows).

(** The score of a candidate depends on the order in which its iteration over
    the breakdown map happens to run, because the sum is of floats: two equal
    sites, which the comparison means to order by name, change places from one
    run to another. *)
Theorem score_depends_on_map_order :
  (∀ i, Permutation (fixedOrder i) scoreKeys ∧ Permutation (mixedOrder i) scoreKeys)
  ∧ rankedNames fixedOrder = ["a"; "b"] ∧ rankedNames mixedOrder = ["b"; "a"]
  ∧ existsb (λ s, existsb (λ s', flt s' s) (rankedScores fixedOrder)) (rankedScores fixedOrder) = false
  ∧ existsb (λ s, existsb (λ s', flt s' s) (rankedScores mixedOrder)) (rankedScores mixedOrder) = true.
Proof.
  split; [|split; [by vm_compute|split; [by vm_compute|split; by vm_compute]]].
  intros i. split; [done|]. unfold mixedOrder.
  destruct (i =? 0)%nat; [symmetry; apply Permutation_rev|done].
Qed.

(** The candidates of an answer. *)
Definition itemsOf (r : result (CanonicalModel * list Candidate) string) : list Candidate :=
  match r with Ok (_, items) => items | Err _ => [] end.

Lemma candidates_exact_witness :
  let itemsUpTo limit := itemsOf (Candidates (exampleStore exampleRows []) fixedOrder Minute (exampleQuery limit)) in
  (∃ all, itemsUpTo 2 = take 2 all ∧ length all = 3%nat)
  ∧ ∀ i j a b, (i < j)%nat → itemsUpTo 0 !! i = Some a → itemsUpTo 0 !! j = Some b → route_before a b.
Proof.
  intros itemsUpTo.
  assert (Hexact := λ limit, candidates_exact (exampleStore exampleRows []) fixedOrder Minute (exampleQuery limit)
              (mkCanonical 9%N "gpt-4o") (itemsUpTo limit) exampleRows []).
  split.
  - destruct (Hexact 2 ltac:(by vm_compute) eq_refl eq_refl) as (all & Hp & Hitems & _).
    exists all. split; [exact Hitems|]. apply Permutation_length in Hp. rewrite !length_map in Hp. by rewrite Hp.
  - destruct (Hexact 0 ltac:(by vm_compute) eq_refl eq_refl) as (all & _ & Hitems & _ & Hbest).
    change (itemsUpTo 0 = all) in Hitems. rewrite Hitems. apply Hbest. rewrite <- Hitems.
    assert (H : forallb (λ c, negb (is_nan (cd_Score c)) && negb (is_nan (cs_RoutingPriority (cd_Site c))))
                  (itemsUpTo 0) = true) by (by vm_compute).
    apply list.Forall_forall. intros c Hc. rewrite forallb_forall in H.
    apply list_elem_of_In, H, andb_prop in Hc as [H1 H2]. split; by apply negb_true_iff.
Defined.

Lemma candidates_best_first_witness :
  let items := rankedCandidates (exampleQuery 0) fixedOrder emptyIndex exampleRows in
  ∃ a b, items !! 0%nat = Some a ∧ items !! 2%nat = Some b ∧ cs_Name (cd_Site b) = "c"
         ∧ route_before a b ∧ cd_Rank a = 1.
Proof.
  intros items.
  destruct (items !! 0%nat) as [a|] eqn:Ea; [|by vm_compute in Ea].
  destruct (items !! 2%nat) as [b|] eqn:Eb; [|by vm_compute in Eb].
  exists a, b. split; [done|]. split; [done|]. split; [vm_compute in Eb; by injection Eb as <-|].
  apply (candidates_best_first (exampleQuery 0) fixedOrder emptyIndex exampleRows 0 2 a b);
    [|exact Ea|exact Eb|lia].
  assert (H : forallb (λ c, negb (is_nan (cd_Score c)) && negb (is_nan (cs_RoutingPriority (cd_Site c))))
                items = true) by (by vm_compute).
  apply list.Forall_forall. intros c Hc. rewrite forallb_forall in H.
  apply list_elem_of_In, H, andb_prop in Hc as [H1 H2]. split; by apply negb_true_iff.
Defined.

Lemma plan_sound_witness :
  ∃ p, Plan (exampleStore exampleRows []) fixedOrder Minute (exampleQuery 0) = Ok p
    ∧ length (plan_Failover p) = 2%nat
    ∧ NoDup (map (λ c, cm_SiteModelID (cd_Model c)) (plan_Selected p :: plan_Failover p)).
Proof.
  destruct (Plan (exampleStore exampleRows []) fixedOrder Minute (exampleQuery 0)) as [p|] eqn:E;
    [|by vm_compute in E].
  exists p. split; [done|]. split; [vm_compute in E; by injection E as <-|].
  exact (proj1 (proj2 (proj2 (plan_sound _ _ _ _ p exampleRows [] E eq_refl eq_refl
           ltac:(apply (bool_decide_unpack _); by vm_compute))))).
Defined.

Lemma no_candidates_iff_witness :
  Plan (exampleStore [] []) fixedOrder Minute (exampleQuery 0) = Err ErrNoRouteCandidates
  ∧ served (exampleQuery 0) Minute [] [] = [].
Proof.
  split; [by vm_compute|].
  apply (no_candidates_iff (exampleStore [] []) fixedOrder Minute (exampleQuery 0)
           (mkCanonical 9%N "gpt-4o") [] []); by vm_compute.
Defined.

Lemma cooldown_takes_effect_witness :
  let input := mkCooldownInput 1%N None None "" "" "" 0 "" in
  let table' := fst (ActivateCooldown Minute 7%N input []) in
  let items := itemsOf (Candidates (exampleStore exampleRows table') fixedOrder (2 * Minute)
                          (exampleQuery 0)) in
  length items = 2%nat ∧ ∀ c, c ∈ items → cs_ID (cd_Site c) ≠ 1%N.
Proof.
  intros input table' items. split; [by vm_compute|].
  apply (cooldown_takes_effect (exampleStore exampleRows table') fixedOrder Minute (2 * Minute)
           (exampleQuery 0) 7%N input (snd (ActivateCooldown Minute 7%N input [])) [] table'
           (mkCanonical 9%N "gpt-4o") items); [done|done|done|done|done|by vm_compute].
Defined.
