(* ===== verification/Cooldown.v ===== *)
(** * Failures of the gateway and the cooldowns they set

    [gateway/cooldown.go], with the result of an upstream attempt
    ([gateway/execution.go]), the streak of failures in the request log
    ([store/request_log_repository.go]) and the pauses a rate-limited upstream asks
    for ([gateway/upstream_rate_limit_wait.go]).  The table of cooldowns is that of
    [RouteCooldowns]; [json.Marshal] of a cooldown's metadata is an argument, as the
    table keeps its text only. *)

From S2P Require Import Prelude StableSort GoFloat RouteCooldowns Catalog Json Router.

(** ** Data *)

Record credentialFailoverDecision := mkDecision {
  NextCredentialAvailable : bool;
  ShouldTryNextCredential : bool;
  Action : string
}.

(** [gatewayAttemptResult], the fields that decide what happens next. *)
Record gatewayAttemptResult := mkResult {
  g_statusCode : Z;
  g_upstreamStatusCode : Z;
  g_body : string;
  g_success : bool;
  g_errorType : string;
  g_errorMessage : string;
  g_promptTokens : Z;
  g_completionTokens : Z;
  g_audioOutputTokens : Z;
  g_cachedPromptTokens : Z;
  g_responseStarted : bool;
  g_upstreamErrorCode : string;
  g_credentialID : uuid;
  g_credentialMasked : string;
  g_credentialAttempt : Z;
  g_credentialTotal : Z;
  g_cooldownReason : string;
  g_cooldownScope : string;
  g_cooldownDuration : Z;
  g_cooldownMetadata : gmap string any;
  g_retryAfterSeconds : Z;
  g_credentialDecision : option credentialFailoverDecision   (* [credentialDecisionSet] *)
}.

(** A row of [request_logs]: the columns read here.  [Metadata] is decoded, empty
    when it is absent or not a JSON object. *)
Record RequestLog := mkRequestLog {
  rl_SiteID : option uuid;
  rl_SiteModelID : option uuid;
  rl_StatusCode : Z;
  rl_Success : bool;
  rl_ErrorType : option string;
  rl_Metadata : gmap string any;
  rl_CreatedAt : Z
}.

(** ** Constants *)

Definition upstreamNoResponseCooldownDuration : Z := 2 * Minute.
Definition upstreamNoResponseCooldownThreshold : Z := 3.
Definition upstreamNoResponseCooldownWindow : Z := 10 * Minute.
Definition upstreamNoResponseCooldownAttemptLimit : Z := 20.
Definition transientCooldownBaseDuration : Z := 30 * Second.
Definition transientCooldownMaxDuration : Z := 5 * Minute.
Definition transientCooldownEscalationWindow : Z := 30 * Minute.
Definition streamFailureCooldownThreshold : Z := 3.
Definition credentialUnauthorizedCooldownDuration : Z := 5 * Minute.
Definition credentialUnauthorizedRepeatCooldownDuration : Z := 30 * Minute.

Definition upstreamRateLimitMaxWait : Z := 60 * Second.
Definition upstreamRateLimitDefaultWait : Z := 5 * Second.
Definition upstreamRateLimitMaxStep : Z := 30 * Second.

(** ** Kinds of sites *)

Definition isCodexSite (siteType : string) : bool := EqualFold (TrimSpace siteType) "codex".
Definition isAntigravitySite (siteType : string) : bool :=
  EqualFold (TrimSpace siteType) "antigravity".
Definition isOpenCodeGoSite (siteType : string) : bool :=
  EqualFold (TrimSpace siteType) "opencode_go".

(** [stringValue(&value, fallback)] *)
Definition stringValue (value fallback : string) : string :=
  if bool_decide (TrimSpace value = "") then fallback else TrimSpace value.

(** ** Another credential of the same site *)

Definition shouldTryNextCredential (result : gatewayAttemptResult) : bool :=
  if g_success result then false
  else if bool_decide (g_errorType result ∈
            ["upstream_credential_decrypt_failed"; "credential_concurrency_limited";
             "upstream_credential_limited"; "upstream_subscription_limit_exceeded";
             "upstream_credential_invalid"]) then true
  else bool_decide (g_statusCode result ∈ [401; 403; 404; 429]).

Definition credentialFailoverDecisionForAction (nextCredentialAvailable shouldRetry : bool)
    : credentialFailoverDecision :=
  let shouldRetry := shouldRetry && nextCredentialAvailable in
  mkDecision nextCredentialAvailable shouldRetry
    (if shouldRetry then "try_next_credential" else "stop").

Definition credentialFailoverDecisionForResult (result : gatewayAttemptResult)
    (nextCredentialAvailable : bool) : credentialFailoverDecision :=
  credentialFailoverDecisionForAction nextCredentialAvailable
    (negb (g_success result) && negb (g_responseStarted result) && nextCredentialAvailable
     && shouldTryNextCredential result).

Definition nextCredentialAvailableForResult (result : gatewayAttemptResult) : bool :=
  (0 <? g_credentialAttempt result) && (g_credentialAttempt result <? g_credentialTotal result).

Definition credentialFailoverDecisionForAttempt (result : gatewayAttemptResult)
    : credentialFailoverDecision :=
  match g_credentialDecision result with
  | Some decision => decision
  | None => credentialFailoverDecisionForResult result (nextCredentialAvailableForResult result)
  end.

(** ** Kinds of failures *)

Definition streamErrorTypes : list string :=
  ["upstream_stream_failed"; "upstream_stream_incomplete"; "upstream_stream_eof";
   "upstream_stream_error"; "upstream_stream_read_failed"; "upstream_stream_empty";
   "upstream_stream_preoutput_too_large"].

Definition noResponseErrorTypes : list string := ["upstream_timeout"; "upstream_transport_error"].

Definition upstreamStreamFailure (result : gatewayAttemptResult) : bool :=
  if g_success result then false else bool_decide (g_errorType result ∈ streamErrorTypes).

Definition upstreamNoResponseFailure (result : gatewayAttemptResult) : bool :=
  if g_success result || (0 <? g_upstreamStatusCode result) || g_responseStarted result then false
  else bool_decide (g_errorType result ∈ noResponseErrorTypes) && (500 <=? g_statusCode result).

Definition numericMetadataValue (value : option any) : float64 :=
  match value with
  | Some (AFloat v) => v
  | Some (AInt n) => of_int n
  | _ => fzero
  end.

Definition boolMetadataValue (value : option any) : bool :=
  match value with Some (ABool b) => b | _ => false end.

Definition requestLogStreamFailure (item : RequestLog) : bool :=
  match rl_ErrorType item with
  | Some errorType => negb (rl_Success item) && bool_decide (errorType ∈ streamErrorTypes)
  | None => false
  end.

Definition requestLogNoUpstreamResponseFailure (item : RequestLog) : bool :=
  if rl_Success item || (rl_StatusCode item <? 500) then false
  else match rl_ErrorType item with
  | None => false
  | Some errorType =>
      if negb (bool_decide (errorType ∈ noResponseErrorTypes)) then false
      else match rl_Metadata item !! "no_upstream_response" with
      | Some (ABool value) => value
      | _ =>
          if fgt (numericMetadataValue (rl_Metadata item !! "upstream_status_code")) fzero then false
          else if boolMetadataValue (rl_Metadata item !! "stream_started") then false
          else true
      end
  end.

Definition requestLogGatewayAttempt (item : RequestLog) : bool :=
  match rl_Metadata item !! "scope" with
  | Some (AString scope) => bool_decide (scope = "") || bool_decide (scope = "gateway")
  | _ => true
  end.

(** ** Streaks of failures *)

(** The loop over the attempts, [count] matches into it. *)
Fixpoint streak_loop (attempts : list RequestLog) (threshold count : Z)
    (matches : RequestLog → bool) : bool :=
  match attempts with
  | [] => false
  | item :: rest =>
      if negb (requestLogGatewayAttempt item) then streak_loop rest threshold count matches
      else if negb (matches item) then false
      else if threshold <=? count + 1 then true
      else streak_loop rest threshold (count + 1) matches
  end.

Definition failureStreakReached (attempts : list RequestLog) (threshold : Z)
    (matches : RequestLog → bool) : bool :=
  if threshold <=? 0 then true else streak_loop attempts threshold 0 matches.

Definition upstreamNoResponseFailureStreakReached (attempts : list RequestLog) (threshold : Z)
    : bool := failureStreakReached attempts threshold requestLogNoUpstreamResponseFailure.

Definition streamFailureStreakReached (attempts : list RequestLog) (threshold : Z) : bool :=
  failureStreakReached attempts threshold requestLogStreamFailure.

(** The newest attempts first; the database returns those of one instant in any
    order, the stable sort is one of them. *)
Definition newer (a b : RequestLog) : bool := rl_CreatedAt b <? rl_CreatedAt a.

Definition ListRecentSiteModelAttempts (siteID siteModelID : uuid) (since limit : Z)
    (logs : list RequestLog) : list RequestLog :=
  let limit := if limit <=? 0 then 10 else limit in
  take (Z.to_nat limit)
    (SliceStable newer (List.filter (λ r,
       bool_decide (rl_SiteID r = Some siteID) && bool_decide (rl_SiteModelID r = Some siteModelID)
       && (since <=? rl_CreatedAt r)) logs)).

(** ** Durations *)

Definition openCodeGoUsageLimitCooldownDuration (result : gatewayAttemptResult) : Z :=
  if 0 <? g_cooldownDuration result then g_cooldownDuration result
  else if 0 <? g_retryAfterSeconds result then mul64 (g_retryAfterSeconds result) Second
  else transientCooldownBaseDuration.

Definition rateLimitedCooldownDuration (retryAfterSeconds : Z) : Z :=
  if retryAfterSeconds <=? 0 then transientCooldownBaseDuration
  else let duration := mul64 retryAfterSeconds Second in
       if duration <? 5 * Second then 5 * Second
       else if 2 * Minute <? duration then 2 * Minute
       else duration.

(** The loop of [escalateCooldownDuration] at step [i]; 39 steps double any positive
    duration beyond the maximum. *)
Fixpoint escalate_loop (fuel : nat) (i recentActivations duration : Z) : Z :=
  match fuel with
  | O => duration
  | S fuel =>
      if (i <? recentActivations) && (duration <? transientCooldownMaxDuration)
      then escalate_loop fuel (i + 1) recentActivations (mul64 duration 2)
      else duration
  end.

Definition escalateCooldownDuration (base recentActivations : Z) : Z :=
  let base := if base <=? 0 then transientCooldownBaseDuration else base in
  let duration := escalate_loop 39 0 recentActivations base in
  if transientCooldownMaxDuration <? duration then transientCooldownMaxDuration else duration.

(** [int64(d.Seconds())] *)
Definition whole_seconds (d : Z) : Z :=
  default 0 (trunc_int64 (fadd (of_int (Z.quot d Second))
                               (fdiv (of_int (Z.rem d Second)) (of_int Second)))).

Definition with_retryAfter (seconds : Z) (r : gatewayAttemptResult) : gatewayAttemptResult :=
  mkResult (g_statusCode r) (g_upstreamStatusCode r) (g_body r) (g_success r) (g_errorType r)
    (g_errorMessage r) (g_promptTokens r) (g_completionTokens r) (g_audioOutputTokens r)
    (g_cachedPromptTokens r) (g_responseStarted r) (g_upstreamErrorCode r) (g_credentialID r)
    (g_credentialMasked r) (g_credentialAttempt r) (g_credentialTotal r) (g_cooldownReason r)
    (g_cooldownScope r) (g_cooldownDuration r) (g_cooldownMetadata r) seconds
    (g_credentialDecision r).

(** [parseTime] is [http.ParseTime]; [raw] the header's value. *)
Definition applyRetryAfterHeader (parseTime : string → option Z) (now : Z)
    (result : gatewayAttemptResult) (header : string) : gatewayAttemptResult :=
  let raw := TrimSpace header in
  let from_date :=
    match parseTime raw with
    | Some at_ =>
        let seconds := whole_seconds (time_sub at_ now) in
        if 0 <? seconds then with_retryAfter seconds result else result
    | None => result
    end in
  if (0 <? g_retryAfterSeconds result) || negb (g_upstreamStatusCode result =? 429) then result
  else if bool_decide (raw = "") then result
  else match ParseInt64 raw with
       | Some seconds => if 0 <? seconds then with_retryAfter seconds result else from_date
       | None => from_date
       end.

(** [jitter] is [rand.Int63n(int64(time.Second))]. *)
Definition upstreamRateLimitWaitDuration (jitter : Z) (result : gatewayAttemptResult) : Z :=
  let wait :=
    if 0 <? g_retryAfterSeconds result then
      let wait := mul64 (g_retryAfterSeconds result) Second in
      if upstreamRateLimitMaxStep <? wait then upstreamRateLimitMaxStep else wait
    else upstreamRateLimitDefaultWait in
  add64 wait jitter.

Definition upstreamRateLimitWaitable (candidate : Candidate) (result : gatewayAttemptResult)
    : bool :=
  if g_success result || g_responseStarted result then false
  else if negb (g_upstreamStatusCode result =? 429) then false
  else if bool_decide (g_errorType result = "upstream_subscription_limit_exceeded") then false
  else negb (isCodexSite (cs_SiteType (cd_Site candidate))
             || isAntigravitySite (cs_SiteType (cd_Site candidate))).

(** ** The cooldown of a failure *)

(** [CooldownInput.Metadata]: [cooldownMetadata] overrides the entries before it. *)
Definition failureMetadata (candidate : Candidate) (result : gatewayAttemptResult)
    : gmap string any :=
  let metadata : gmap string any := list_to_map
    [("status_code", AInt (g_statusCode result)); ("error_type", AString (g_errorType result));
     ("error_message", AString (g_errorMessage result));
     ("upstream_model", AString (cm_UpstreamName (cd_Model candidate)));
     ("credential_masked", emptyToNil (g_credentialMasked result));
     ("credential_attempt", AInt (g_credentialAttempt result));
     ("credential_total", AInt (g_credentialTotal result))] in
  let metadata := if 0 <? g_upstreamStatusCode result
    then <["upstream_status_code" := AInt (g_upstreamStatusCode result)]> metadata else metadata in
  let metadata := if 0 <? g_retryAfterSeconds result
    then <["retry_after_seconds" := AInt (g_retryAfterSeconds result)]> metadata else metadata in
  let metadata := g_cooldownMetadata result ∪ metadata in
  if upstreamNoResponseFailure result
  then <["no_upstream_response" := ABool true]> metadata else metadata.

(** The failures of a slot that is merely taken, which no cooldown answers. *)
Definition concurrencyErrorTypes : list string :=
  ["site_concurrency_limited"; "model_concurrency_limited"; "credential_concurrency_limited";
   "upstream_concurrency_wait_timeout"].

Section failures.
Context (marshal : gmap string any → string).

Definition cooldownInputForFailure (candidate : Candidate) (result : gatewayAttemptResult)
    : option CooldownInput :=
  let siteModelID := cm_SiteModelID (cd_Model candidate) in
  let credentialID := g_credentialID result in
  let errorType := g_errorType result in
  let siteType := cs_SiteType (cd_Site candidate) in
  let hasCredential := negb (bool_decide (credentialID = uuid_Nil)) in
  let oauthSite := isCodexSite siteType || isAntigravitySite siteType in
  let baseReason := g_cooldownReason result in
  let baseDuration := Z.max 0 (g_cooldownDuration result) in
  let input model credential scope reason duration :=
    Some (mkCooldownInput (cs_ID (cd_Site candidate)) model credential scope "gateway" reason
            duration (marshal (failureMetadata candidate result))) in
  let onModel := input (Some siteModelID) None "model" in
  let onCredential := input None (Some credentialID) "credential" in
  if bool_decide (errorType = "opencode_go_usage_limit") && hasCredential then
    onCredential CooldownReasonOpenCodeGoUsageLimitReached
      (openCodeGoUsageLimitCooldownDuration result)
  else if bool_decide (errorType = "upstream_subscription_limit_exceeded") && hasCredential then
    onCredential CooldownReasonUpstreamSubscriptionLimitExceeded (g_cooldownDuration result)
  else if bool_decide (errorType = "upstream_credential_limited") && hasCredential then
    if bool_decide (baseReason = CooldownReasonUpstreamInsufficientBalance)
    then onCredential baseReason (g_cooldownDuration result)
    else onCredential (orDefault baseReason CooldownReasonUpstreamCredentialLimited)
           (rateLimitedCooldownDuration (g_retryAfterSeconds result))
  else if bool_decide (errorType = "upstream_credential_invalid") && hasCredential then
    onCredential CooldownReasonUpstreamCredentialUnauthorized credentialUnauthorizedCooldownDuration
  else if upstreamNoResponseFailure result then
    onModel "upstream_no_response" upstreamNoResponseCooldownDuration
  else if bool_decide (errorType = "upstream_response_transform_failed") then
    onModel "upstream_response_transform_failed"
      (if baseDuration <=? 0 then 30 * Second else baseDuration)
  else if upstreamStreamFailure result then
    onModel CooldownReasonUpstreamStreamUnstable transientCooldownBaseDuration
  else if bool_decide (errorType = "upstream_credential_unavailable") then
    onModel CooldownReasonUpstreamCredentialsExhausted transientCooldownBaseDuration
  else if oauthSite && bool_decide (g_cooldownScope result = "model") then
    onModel (orDefault baseReason (stringValue errorType "upstream_model_unavailable"))
      (if baseDuration <=? 0 then 2 * Minute else baseDuration)
  else if oauthSite && bool_decide (g_cooldownScope result = "credential") && hasCredential then
    onCredential (orDefault baseReason (stringValue errorType "upstream_credential_unavailable"))
      (if baseDuration <=? 0 then 5 * Minute else baseDuration)
  else if (g_statusCode result =? 401) && hasCredential then
    onCredential CooldownReasonUpstreamCredentialUnauthorized credentialUnauthorizedCooldownDuration
  else if (g_statusCode result =? 403) && hasCredential then
    input (Some siteModelID) (Some credentialID) "credential" "upstream_credential_forbidden"
      (30 * Minute)
  else if (g_statusCode result =? 429) && hasCredential then
    onCredential "upstream_credential_rate_limited"
      (rateLimitedCooldownDuration (g_retryAfterSeconds result))
  else if g_statusCode result =? 404 then
    onModel CooldownReasonUpstreamModelNotFound (30 * Minute)
  else if ((500 <=? g_statusCode result) && negb (bool_decide (errorType ∈ concurrencyErrorTypes)))
          || bool_decide (errorType ∈ noResponseErrorTypes) then
    onModel (stringValue errorType "upstream_failed") transientCooldownBaseDuration
  else if bool_decide (errorType = "upstream_credential_decrypt_failed") && hasCredential then
    onCredential "upstream_credential_decrypt_failed" (30 * Minute)
  else None.

Definition escalatableModelCooldown (input : CooldownInput) (result : gatewayAttemptResult)
    : bool :=
  if negb (bool_decide (ci_Scope input = "model")) || bool_decide (is_Some (ci_SiteCredentialID input))
  then false
  else if 0 <? g_retryAfterSeconds result then false
  else negb (bool_decide (ci_Reason input ∈
              [CooldownReasonUpstreamModelNotFound; "upstream_no_response";
               "codex_model_capacity"; "antigravity_model_rate_limited"])).

(** ** The handler's side: database and clock *)

(** What one call of [cooldownAfterFailure] meets: whether there is a database, the
    request log, which of its three statements fail, the three readings of the
    clock and the identifier of the new row. *)
Record FailureEnv := mkFailureEnv {
  fe_db : bool;
  fe_logs : result (list RequestLog) string;
  fe_countFails : bool;
  fe_activateFails : bool;
  fe_thresholdNow : Z;
  fe_escalateNow : Z;
  fe_activateNow : Z;
  fe_newID : uuid
}.

Definition failureCooldownThresholdReached (env : FailureEnv) (candidate : Candidate)
    (threshold : Z) (matches : RequestLog → bool) : bool :=
  if negb (fe_db env) then true
  else match fe_logs env with
  | Err _ => true
  | Ok logs =>
      failureStreakReached
        (ListRecentSiteModelAttempts (cs_ID (cd_Site candidate)) (cm_SiteModelID (cd_Model candidate))
           (fe_thresholdNow env - upstreamNoResponseCooldownWindow)
           upstreamNoResponseCooldownAttemptLimit logs) threshold matches
  end.

Definition upstreamNoResponseCooldownThresholdReached (env : FailureEnv) (candidate : Candidate)
    : bool :=
  failureCooldownThresholdReached env candidate upstreamNoResponseCooldownThreshold
    requestLogNoUpstreamResponseFailure.

Definition streamFailureCooldownThresholdReached (env : FailureEnv) (candidate : Candidate) : bool :=
  failureCooldownThresholdReached env candidate streamFailureCooldownThreshold
    requestLogStreamFailure.

Definition escalatedCooldownDuration (env : FailureEnv) (candidate : Candidate)
    (input : CooldownInput) (result : gatewayAttemptResult) (table : list RouteCooldown) : Z :=
  let since := fe_escalateNow env - transientCooldownEscalationWindow in
  let modelCount :=
    CountRecentActivations
      (mkCount (cs_ID (cd_Site candidate)) (Some (cm_SiteModelID (cd_Model candidate))) None
         "gateway" [] since) table in
  let onModel :=
    if negb (escalatableModelCooldown input result) then ci_Duration input
    else if fe_countFails env then ci_Duration input
    else escalateCooldownDuration (ci_Duration input) modelCount in
  if negb (fe_db env) then ci_Duration input
  else match ci_SiteCredentialID input with
  | Some credentialID =>
      if bool_decide (ci_Reason input = CooldownReasonUpstreamCredentialUnauthorized) then
        let count := CountRecentActivations
          (mkCount (cs_ID (cd_Site candidate)) None (Some credentialID) "gateway"
             [CooldownReasonUpstreamCredentialUnauthorized] since) table in
        if negb (fe_countFails env) && (0 <? count)
        then credentialUnauthorizedRepeatCooldownDuration else ci_Duration input
      else onModel
  | None => onModel
  end.

Definition with_duration (duration : Z) (input : CooldownInput) : CooldownInput :=
  mkCooldownInput (ci_SiteID input) (ci_SiteModelID input) (ci_SiteCredentialID input)
    (ci_Scope input) (ci_Source input) (ci_Reason input) duration (ci_Metadata input).

(** The table after the call, and whether the caches of models were invalidated.
    [persistOpenCodeGoUsageLimit] only writes the usage shown for a key. *)
Definition cooldownAfterFailure (env : FailureEnv) (candidate : Candidate)
    (result : gatewayAttemptResult) (table : list RouteCooldown) : list RouteCooldown * bool :=
  if g_success result then (table, false)
  else match cooldownInputForFailure candidate result with
  | None => (table, false)
  | Some input =>
      if upstreamNoResponseFailure result
         && negb (upstreamNoResponseCooldownThresholdReached env candidate) then (table, false)
      else if upstreamStreamFailure result
         && negb (streamFailureCooldownThresholdReached env candidate) then (table, false)
      else
        let input := with_duration (escalatedCooldownDuration env candidate input result table) input in
        if fe_activateFails env then (table, false)
        else (fst (ActivateCooldown (fe_activateNow env) (fe_newID env) input table), true)
  end.

Definition clearCooldownAfterRecovery (now : Z) (clearFails : bool) (candidate : Candidate)
    (table : list RouteCooldown) : list RouteCooldown * bool :=
  if negb (cd_Cooling candidate) then (table, false)
  else if clearFails then (table, false)
  else (ClearCooldown now (cs_ID (cd_Site candidate)) (Some (cm_SiteModelID (cd_Model candidate)))
          None "gateway" table, true).
End failures.

(** ** Lemmas *)

Lemma escalate_loop_spec fuel i n d :
  0 < d ≤ 2 * transientCooldownMaxDuration →
  transientCooldownMaxDuration ≤ d * 2 ^ Z.of_nat fuel →
  Z.min transientCooldownMaxDuration (escalate_loop fuel i n d)
  = Z.min transientCooldownMaxDuration (d * 2 ^ Z.max 0 (n - i)).
Proof.
  unfold transientCooldownMaxDuration, Minute.
  revert i d. induction fuel as [|fuel IH]; intros i d Hd Hfuel; cbn [escalate_loop].
  { assert (1 ≤ 2 ^ Z.max 0 (n - i)) by (apply (Z.pow_le_mono_r 2 0); lia). nia. }
  destruct (i <? n) eqn:Ei; bool_to_prop; cbn [andb].
  - replace (Z.max 0 (n - i)) with (Z.succ (Z.max 0 (n - (i + 1)))) by lia.
    rewrite Z.pow_succ_r by lia.
    assert (1 ≤ 2 ^ Z.max 0 (n - (i + 1))) by (apply (Z.pow_le_mono_r 2 0); lia).
    unfold transientCooldownMaxDuration, Minute.
    destruct (d <? 5 * 60000000000) eqn:Ed; bool_to_prop.
    + rewrite mul64_small by (unfold in_int64, min_int64, max_int64; lia).
      rewrite IH; [f_equal; lia|lia|].
      rewrite Nat2Z.inj_succ, Z.pow_succ_r in Hfuel by lia. lia.
    + nia.
  - by rewrite (Z.max_l 0) by lia; rewrite Z.pow_0_r, Z.mul_1_r.
Qed.

Lemma escalateCooldownDuration_min base n :
  escalateCooldownDuration base n
  = Z.min transientCooldownMaxDuration
      ((if base <=? 0 then transientCooldownBaseDuration else base) * 2 ^ Z.max 0 n).
Proof.
  unfold escalateCooldownDuration. cbv zeta.
  set (b := if base <=? 0 then _ else base).
  assert (0 < b) by (subst b; destruct (base <=? 0) eqn:E; bool_to_prop;
    unfold transientCooldownBaseDuration, Second; lia).
  assert (Hm : Z.min transientCooldownMaxDuration (escalate_loop 39 0 n b)
    = Z.min transientCooldownMaxDuration (b * 2 ^ Z.max 0 n)).
  { destruct (Z.le_gt_cases b (2 * transientCooldownMaxDuration)) as [Hb|Hb].
    - rewrite escalate_loop_spec; [by rewrite Z.sub_0_r|lia|].
      unfold transientCooldownMaxDuration, Minute. change (2 ^ Z.of_nat 39) with 549755813888. lia.
    - assert (1 ≤ 2 ^ Z.max 0 n) by (apply (Z.pow_le_mono_r 2 0); lia).
      cbn [escalate_loop]. rewrite (proj2 (Z.ltb_ge b _)) by (unfold transientCooldownMaxDuration, Minute in *; lia).
      rewrite andb_false_r. unfold transientCooldownMaxDuration, Minute in *. nia. }
  rewrite <- Hm. destruct (transientCooldownMaxDuration <? _) eqn:E; bool_to_prop; lia.
Qed.

Lemma streak_loop_spec matches threshold attempts count :
  count < threshold →
  streak_loop attempts threshold count matches = true ↔
  threshold - count ≤ Z.of_nat (length (List.filter requestLogGatewayAttempt attempts)) ∧
  Forall (λ item, matches item = true)
    (take (Z.to_nat (threshold - count)) (List.filter requestLogGatewayAttempt attempts)).
Proof.
  revert count. induction attempts as [|item rest IH]; intros count Hc.
  { simpl. split; [done|]. intros [? _]. lia. }
  cbn [streak_loop List.filter].
  destruct (requestLogGatewayAttempt item); cbn [negb]; [|by apply IH].
  replace (Z.to_nat (threshold - count)) with (S (Z.to_nat (threshold - (count + 1)))) by lia.
  cbn [take firstn length]. rewrite list.Forall_cons.
  destruct (matches item) eqn:Em; cbn [negb].
  2: { split; [done|]. by intros [_ [? _]]. }
  destruct (threshold <=? count + 1) eqn:Et; bool_to_prop.
  - split; [|done]. intros _. replace (Z.to_nat (threshold - (count + 1))) with O by lia.
    rewrite Nat2Z.inj_succ. split_and!; [lia|done|constructor].
  - rewrite IH by lia. rewrite Nat2Z.inj_succ. split; [intros [? ?]|intros [? [_ ?]]];
      split_and!; try done; lia.
Qed.

(** a streak of failures is reached exactly when the newest [threshold] attempts of
    the gateway (probes and other scopes do not count) are there and all fail the
    same way. *)
Theorem streak_is_newest_attempts (attempts : list RequestLog) (threshold : Z)
    (matches : RequestLog → bool) :
  let gateway := List.filter requestLogGatewayAttempt attempts in
  failureStreakReached attempts threshold matches = true ↔
  threshold ≤ Z.of_nat (length gateway) ∧
  Forall (λ item, matches item = true) (take (Z.to_nat threshold) gateway).
Proof.
  cbv zeta. unfold failureStreakReached. destruct (threshold <=? 0) eqn:E; bool_to_prop.
  - split; [|done]. intros _. split; [lia|]. replace (Z.to_nat threshold) with O by lia. constructor.
  - rewrite streak_loop_spec by lia. by rewrite Z.sub_0_r.
Qed.

(** ** What a failure cools *)

Section failures_lemmas.
Context (marshal : gmap string any → string).

Lemma cooldownInput_shape candidate result input :
  cooldownInputForFailure marshal candidate result = Some input →
  ci_SiteID input = cs_ID (cd_Site candidate) ∧ ci_Source input = "gateway" ∧
  ((ci_Scope input = "model" ∧ ci_SiteModelID input = Some (cm_SiteModelID (cd_Model candidate))
    ∧ ci_SiteCredentialID input = None)
   ∨ (ci_Scope input = "credential" ∧ ci_SiteCredentialID input = Some (g_credentialID result)
      ∧ g_credentialID result ≠ uuid_Nil)).
Proof.
  unfold cooldownInputForFailure. cbv zeta.
  destruct (bool_decide (g_credentialID result = uuid_Nil)) eqn:Ec; cbn [negb];
    rewrite ?andb_false_r, ?andb_true_r; bool_to_prop;
    repeat match goal with
    | |- (if ?b then _ else _) = Some _ → _ => destruct b
    end; intros [= <-]; cbn; split_and!; try done; auto.
Qed.

(** The rows a clearing statement leaves alone keep acting. *)
Lemma clear_where_active now cond now' t table :
  (∀ r, targets r t → cond r = false) →
  (∃ r, r ∈ clear_where now cond table ∧ is_active now' r = true ∧ targets r t)
  ↔ (∃ r, r ∈ table ∧ is_active now' r = true ∧ targets r t).
Proof.
  intros Hcond. unfold clear_where. split.
  - intros (r & Hr & Ha & Ht). apply list_elem_of_fmap in Hr as (r0 & -> & Hr0).
    destruct (cond r0) eqn:E; [|by exists r0].
    unfold is_active in Ha. by rewrite bool_decide_eq_false_2 in Ha.
  - intros (r & Hr & Ha & Ht). exists r. split; [|done].
    apply list_elem_of_fmap. exists r. by rewrite (Hcond r Ht).
Qed.

Lemma Activate_other now id p now' t table :
  (∀ r, targets r t → place_of r ≠ place_of (activated now id p)) →
  is_Some (index_lookup (indexCooldowns (ListActive now' (fst (Activate now id p table)))) t)
  ↔ is_Some (index_lookup (indexCooldowns (ListActive now' table)) t).
Proof.
  intros Hplace. rewrite !index_active. unfold Activate, clearMatching. cbn [fst].
  set (item := activated now id p) in *. rewrite <- (clear_where_active now
    (matches (rc_SiteID item) (rc_SiteModelID item) (rc_SiteCredentialID item) (rc_Source item)
       (if bool_decide (rc_Reason item = CooldownReasonUpstreamSubscriptionLimitExceeded) then []
        else [CooldownReasonUpstreamSubscriptionLimitExceeded])) now' t table).
  - split; intros (r & Hr & Ha & Ht); exists r; split_and!; try done.
    + apply elem_of_app in Hr as [Hr| ->%list_elem_of_singleton]; [done|]. by destruct (Hplace _ Ht).
    + apply elem_of_app. by left.
  - intros r Ht. specialize (Hplace r Ht).
    destruct (matches _ _ _ _ _ r) eqn:E; [|done]. exfalso. apply Hplace.
    unfold matches in E. bool_to_prop. unfold place_of.
    assert (rc_Source item ≠ "").
    { unfold item, activated. cbn [rc_Source]. by apply orDefault_nonempty. }
    destruct (bool_decide (rc_Source item = "")) eqn:Es; bool_to_prop; [done|].
    cbn [orb] in *. bool_to_prop. congruence.
Qed.

Definition input_place (input : CooldownInput) : uuid * option uuid * option uuid * string :=
  (ci_SiteID input, nullUUID (ci_SiteModelID input), nullUUID (ci_SiteCredentialID input), "gateway").

Lemma ActivateCooldown_other now id input now' t table :
  ci_Source input = "gateway" →
  (∀ r, targets r t → place_of r ≠ input_place input) →
  is_Some (index_lookup (indexCooldowns (ListActive now' (fst (ActivateCooldown now id input table)))) t)
  ↔ is_Some (index_lookup (indexCooldowns (ListActive now' table)) t).
Proof.
  intros Hs Hplace. apply Activate_other. intros r Ht Heq. apply (Hplace r Ht). rewrite Heq.
  unfold place_of, activated, input_place. cbn. by rewrite Hs.
Qed.

(** A target that is not the candidate's model. *)
Definition other_target (candidate : Candidate) (t : target) : Prop :=
  t ≠ TModel (cm_SiteModelID (cd_Model candidate))
  ∧ t ≠ TTransient (cm_SiteModelID (cd_Model candidate)).

Lemma cooldownAfterFailure_other env candidate result table now t :
  cm_SiteModelID (cd_Model candidate) ≠ uuid_Nil → other_target candidate t →
  is_Some (index_lookup (indexCooldowns (ListActive now
    (fst (cooldownAfterFailure marshal env candidate result table)))) t)
  ↔ is_Some (index_lookup (indexCooldowns (ListActive now table)) t).
Proof.
  intros Hmodel Hother. unfold cooldownAfterFailure. destruct (g_success result); [done|].
  destruct (cooldownInputForFailure marshal candidate result) as [input|] eqn:Ei; [|done].
  destruct (_ && negb (upstreamNoResponseCooldownThresholdReached _ _)); [done|].
  destruct (_ && negb (streamFailureCooldownThresholdReached _ _)); [done|].
  destruct (fe_activateFails env); [done|]. cbn [fst].
  apply cooldownInput_shape in Ei as (_ & Hsource & Hshape).
  apply ActivateCooldown_other; [done|]. intros r [Hnone Ht] [= _ Hm Hc _].
  destruct Hshape as [(_ & Hmi & Hci)|(_ & Hci & Hnil)].
  - cbn in Hm. rewrite Hmi in Hm. unfold nullUUID in Hm. rewrite bool_decide_eq_false_2 in Hm by done.
    destruct Hother as [Ho1 Ho2], t as [i|i|i]; destruct Ht as [Ht ?]; congruence.
  - cbn in Hc. rewrite Hci in Hc. unfold nullUUID in Hc. rewrite bool_decide_eq_false_2 in Hc by done. congruence.
Qed.

(** A failure cools nothing but its own model or one credential: it never takes a
    whole site, nor another model, out of the routes, and gives none back. *)
Theorem failure_cools_only_its_model (env : FailureEnv) (candidate : Candidate)
    (result : gatewayAttemptResult) (table : list RouteCooldown) (now : Z) (t : target)
    (Hmodel : cm_SiteModelID (cd_Model candidate) ≠ uuid_Nil)
    (Hother : t ≠ TModel (cm_SiteModelID (cd_Model candidate))
              ∧ t ≠ TTransient (cm_SiteModelID (cd_Model candidate))) :
  let after := fst (cooldownAfterFailure marshal env candidate result table) in
  is_Some (index_lookup (indexCooldowns (ListActive now after)) t)
  ↔ is_Some (index_lookup (indexCooldowns (ListActive now table)) t).
Proof. cbv zeta. by apply cooldownAfterFailure_other. Qed.

(** Cooldowns the gateway set for a model since an instant, lifted ones included. *)
Definition recent_for_model (candidate : Candidate) (since : Z) (table : list RouteCooldown)
    : list RouteCooldown :=
  List.filter (λ r, bool_decide (rc_SiteID r = cs_ID (cd_Site candidate))
    && bool_decide (rc_SiteModelID r = Some (cm_SiteModelID (cd_Model candidate)))
    && bool_decide (rc_SiteCredentialID r = None) && bool_decide (rc_Source r = "gateway")
    && (since <=? rc_CreatedAt r)) table.

Lemma CountRecent_model candidate since table :
  cs_ID (cd_Site candidate) ≠ uuid_Nil →
  CountRecentActivations (mkCount (cs_ID (cd_Site candidate))
    (Some (cm_SiteModelID (cd_Model candidate))) None "gateway" [] since) table
  = Z.of_nat (length (recent_for_model candidate since table)).
Proof.
  intros Hs. unfold CountRecentActivations, recent_for_model. cbn [ct_SiteID].
  rewrite bool_decide_eq_false_2 by done. do 2 f_equal. apply filter_ext. intros r. cbn.
  rewrite (bool_decide_eq_false_2 ("gateway" = "")) by done.
  apply eq_iff_eq_true. cbn [orb]. rewrite !andb_true_iff, !bool_decide_eq_true. tauto.
Qed.

Lemma escalatable_model candidate result input :
  cooldownInputForFailure marshal candidate result = Some input →
  escalatableModelCooldown input result = true →
  ci_SiteID input = cs_ID (cd_Site candidate) ∧ ci_Source input = "gateway" ∧
  ci_SiteModelID input = Some (cm_SiteModelID (cd_Model candidate)) ∧ ci_SiteCredentialID input = None.
Proof.
  intros (Hs & Hsrc & Hshape)%cooldownInput_shape He. unfold escalatableModelCooldown in He.
  destruct Hshape as [(_ & ? & ?)|(_ & Hc & _)]; [done|].
  rewrite Hc, (bool_decide_eq_true_2 (is_Some _)) in He by done. by rewrite orb_true_r in He.
Qed.

(** when a transient failure cools a model, the cooldown starts now and lasts the
    base duration doubled once for each cooldown the gateway set on that model in the
    last half hour, but never above five minutes. *)
Theorem transient_cooldown_escalates (env : FailureEnv) (candidate : Candidate)
    (result : gatewayAttemptResult) (table : list RouteCooldown) (input : CooldownInput)
    (Hsite : cs_ID (cd_Site candidate) ≠ uuid_Nil)
    (Hmodel : cm_SiteModelID (cd_Model candidate) ≠ uuid_Nil)
    (Hfail : g_success result = false)
    (Hinput : cooldownInputForFailure marshal candidate result = Some input)
    (Hescalates : escalatableModelCooldown input result = true)
    (Hstreak : upstreamStreamFailure result = true →
               streamFailureCooldownThresholdReached env candidate = true)
    (Hanswered : upstreamNoResponseFailure result = false)
    (Hdb : fe_db env = true ∧ fe_countFails env = false ∧ fe_activateFails env = false) :
  let base := if ci_Duration input <=? 0 then 30 * Second else ci_Duration input in
  let recent := recent_for_model candidate (fe_escalateNow env - 30 * Minute) table in
  ∃ rows row, fst (cooldownAfterFailure marshal env candidate result table) = rows ++ [row]
    ∧ rc_SiteID row = cs_ID (cd_Site candidate)
    ∧ rc_SiteModelID row = Some (cm_SiteModelID (cd_Model candidate))
    ∧ rc_SiteCredentialID row = None ∧ rc_Source row = "gateway"
    ∧ rc_CreatedAt row = fe_activateNow env ∧ rc_ClearedAt row = None
    ∧ (0 < fe_activateNow env →
       rc_ActiveUntil row
       = fe_activateNow env + Z.min (5 * Minute) (base * 2 ^ Z.of_nat (length recent))).
Proof.
  cbv zeta. destruct Hdb as (Hdb & Hcount & Hact).
  pose proof (escalatable_model _ _ _ Hinput Hescalates) as (Hs & Hsrc & Hm & Hc).
  unfold cooldownAfterFailure. rewrite Hfail, Hinput, Hanswered. cbn [andb].
  destruct (upstreamStreamFailure result && _) eqn:E; bool_to_prop.
  { rewrite Hstreak in * by done. done. }
  clear E. rewrite Hact. cbn [fst]. unfold escalatedCooldownDuration.
  rewrite Hdb, Hc, Hescalates, Hcount. cbn [negb]. cbv zeta.
  unfold transientCooldownEscalationWindow. rewrite CountRecent_model by done.
  rewrite escalateCooldownDuration_min, Z.max_r by lia.
  set (n := Z.of_nat (length _)). unfold ActivateCooldown, Activate. cbn [fst].
  do 2 eexists. split; [reflexivity|]. unfold activated, with_duration. cbn.
  rewrite Hs, Hsrc, Hm, Hc. unfold nullUUID. rewrite bool_decide_eq_false_2 by done.
  split_and!; try done. intros Hnow.
  assert (0 < 2 ^ n) by (apply Z.pow_pos_nonneg; lia).
  unfold transientCooldownMaxDuration, transientCooldownBaseDuration.
  set (b := if ci_Duration input <=? 0 then _ else _).
  assert (0 < b) by (subst b; destruct (ci_Duration input <=? 0) eqn:?; bool_to_prop; unfold Second; lia).
  assert (0 < Z.min (5 * Minute) (b * 2 ^ n)) by (unfold Minute; nia).
  rewrite (proj2 (Z.leb_gt _ 0)) by done. by rewrite (proj2 (Z.eqb_neq _ 0)) by lia.
Qed.

Lemma clear_model_other t0 siteID m source reasons table now t :
  t ≠ TModel m → t ≠ TTransient m →
  is_Some (index_lookup (indexCooldowns (ListActive now
    (clear_where t0 (matches siteID (Some m) None source reasons) table))) t)
  ↔ is_Some (index_lookup (indexCooldowns (ListActive now table)) t).
Proof.
  intros Ht1 Ht2. rewrite !index_active. apply clear_where_active.
  intros r [Hn Ht]. destruct (matches _ _ _ _ _ r) eqn:E; [|done]. unfold matches in E. bool_to_prop.
  destruct t; destruct Ht; congruence.
Qed.

Lemma clearCooldownAfterRecovery_other t0 clearFails candidate table now t :
  cm_SiteModelID (cd_Model candidate) ≠ uuid_Nil → other_target candidate t →
  is_Some (index_lookup (indexCooldowns (ListActive now
    (fst (clearCooldownAfterRecovery t0 clearFails candidate table)))) t)
  ↔ is_Some (index_lookup (indexCooldowns (ListActive now table)) t).
Proof.
  intros Hmodel [Ht1 Ht2]. unfold clearCooldownAfterRecovery.
  destruct (cd_Cooling candidate); [|done]. destruct clearFails; [done|]. cbn [negb fst].
  unfold ClearCooldown, ClearActive, clearMatching, nullUUID. rewrite bool_decide_eq_false_2 by done.
  by apply clear_model_other.
Qed.

(** when a model answers again, the cooldowns the gateway set on it are lifted at
    once, the router no longer ranks it last, and no other site or model changes. *)
Theorem recovery_lifts_the_cooldown (t0 : Z) (candidate : Candidate) (table : list RouteCooldown)
    (now : Z)
    (Hcooling : cd_Cooling candidate = true)
    (Hmodel : cm_SiteModelID (cd_Model candidate) ≠ uuid_Nil)
    (Hsite : ∀ r, r ∈ table → rc_SiteModelID r = Some (cm_SiteModelID (cd_Model candidate)) →
                  rc_SiteID r = cs_ID (cd_Site candidate)) :
  let m := cm_SiteModelID (cd_Model candidate) in
  let after := indexCooldowns (ListActive now (fst (clearCooldownAfterRecovery t0 false candidate table))) in
  ix_transientModels after !! m = None
  ∧ ∀ t, t ≠ TModel m → t ≠ TTransient m →
    is_Some (index_lookup after t) ↔ is_Some (index_lookup (indexCooldowns (ListActive now table)) t).
Proof.
  cbv zeta. unfold clearCooldownAfterRecovery. rewrite Hcooling. cbn [negb fst].
  unfold ClearCooldown, ClearActive, clearMatching, nullUUID. rewrite bool_decide_eq_false_2 by done.
  set (m := cm_SiteModelID (cd_Model candidate)) in *. split.
  - apply eq_None_not_Some. intros Hsome.
    apply (index_active now _ (TTransient m)) in Hsome as (r & Hr & Ha & Hn & Hmr & Ht).
    unfold clear_where in Hr. apply list_elem_of_fmap in Hr as (r0 & -> & Hr0).
    destruct (matches _ _ _ _ _ r0) eqn:E.
    { unfold is_active in Ha. by rewrite bool_decide_eq_false_2 in Ha. }
    unfold matches in E. rewrite (Hsite r0 Hr0 Hmr), Hmr, Hn, !bool_decide_refl in E.
    unfold is_active in Ha. bool_to_prop. unfold TransientRouteCooldown in Ht. bool_to_prop.
    rewrite (bool_decide_eq_true_2 (rc_ClearedAt r0 = None)) in E by done.
    rewrite (bool_decide_eq_true_2 (rc_Source r0 = "gateway")) in E by done.
    rewrite (bool_decide_eq_false_2 (rc_Reason r0 ∈ [])) in E by (apply not_elem_of_nil).
    by rewrite orb_true_r in E.
  - intros t Ht1 Ht2. by apply clear_model_other.
Qed.
End failures_lemmas.

(** ** Pauses *)

(** a credential that hit a rate limit rests for what the upstream asked for, in
    seconds, but at least 5 s and at most 2 min (30 s when it asked for nothing), and
    the retry of the request waits at most 30 s and a second of jitter. *)
Theorem rate_limit_pauses (result : gatewayAttemptResult) (jitter : Z)
    (Hrange : g_retryAfterSeconds result ≤ 9223372036) (Hjitter : 0 ≤ jitter < Second) :
  rateLimitedCooldownDuration (g_retryAfterSeconds result)
  = (if g_retryAfterSeconds result <=? 0 then 30 * Second
     else Z.max (5 * Second) (Z.min (2 * Minute) (g_retryAfterSeconds result * Second)))
  ∧ upstreamRateLimitWaitDuration jitter result
    = (if g_retryAfterSeconds result <=? 0 then 5 * Second
       else Z.min (30 * Second) (g_retryAfterSeconds result * Second)) + jitter
  ∧ 0 < upstreamRateLimitWaitDuration jitter result < 31 * Second.
Proof.
  unfold rateLimitedCooldownDuration, upstreamRateLimitWaitDuration, upstreamRateLimitMaxStep,
    upstreamRateLimitDefaultWait, transientCooldownBaseDuration.
  set (s := g_retryAfterSeconds result) in *. rewrite (Z.ltb_antisym s 0).
  destruct (s <=? 0) eqn:E; bool_to_prop; cbn [negb];
    unfold Second, Minute in *.
  - autorewrite with go64. split_and!; lia.
  - rewrite (mul64_small s) by (unfold in_int64, min_int64, max_int64; lia).
    assert (Hw : (if 30 * 1000000000 <? s * 1000000000 then 30 * 1000000000 else s * 1000000000)
      = Z.min (30 * 1000000000) (s * 1000000000)).
    { destruct (30 * 1000000000 <? s * 1000000000) eqn:?; bool_to_prop; lia. }
    rewrite Hw, add64_small by (unfold in_int64, min_int64, max_int64; lia).
    split_and!; try lia.
    destruct (s * 1000000000 <? 5 * 1000000000) eqn:?, (2 * 60000000000 <? s * 1000000000) eqn:?;
      bool_to_prop; lia.
Qed.

(** the header is not bounded: a 429 with [Retry-After: N], N from 9223372037 to
    18446744073, overflows the duration, so the credential rests 5 s instead of 2 min
    and the wait before the retry is negative, which is no wait at all. *)
Theorem huge_retry_after_is_no_wait (parseTime : string → option Z) (now jitter seconds : Z)
    (header : string) (result : gatewayAttemptResult)
    (Hfirst : g_retryAfterSeconds result = 0) (H429 : g_upstreamStatusCode result = 429)
    (Hheader : ParseInt64 (TrimSpace header) = Some seconds)
    (Hrange : 9223372037 ≤ seconds ≤ 18446744073) (Hjitter : 0 ≤ jitter < Second) :
  let limited := applyRetryAfterHeader parseTime now result header in
  g_retryAfterSeconds limited = seconds
  ∧ rateLimitedCooldownDuration (g_retryAfterSeconds limited) = 5 * Second
  ∧ upstreamRateLimitWaitDuration jitter limited < Second.
Proof.
  assert (Hraw : bool_decide (TrimSpace header = "") = false).
  { apply bool_decide_eq_false. intros Hr. by rewrite Hr in Hheader. }
  assert (Happ : applyRetryAfterHeader parseTime now result header = with_retryAfter seconds result).
  { unfold applyRetryAfterHeader. rewrite Hfirst, H429, Hraw, Hheader. cbn.
    by rewrite (proj2 (Z.ltb_lt 0 seconds)) by lia. }
  cbv zeta. rewrite Happ. cbn [with_retryAfter g_retryAfterSeconds].
  assert (Hmul : mul64 seconds Second = seconds * Second - two64).
  { unfold mul64. rewrite <- (wrap64_small (seconds * Second - two64))
      by (unfold in_int64, min_int64, max_int64, Second, two64; lia).
    rewrite <- (wrap64_add (seconds * Second - two64)). f_equal. lia. }
  unfold rateLimitedCooldownDuration, upstreamRateLimitWaitDuration, upstreamRateLimitMaxStep.
  cbn [with_retryAfter g_retryAfterSeconds]. rewrite Hmul.
  assert (Hneg : seconds * Second - two64 < 0) by (unfold Second, two64; lia).
  rewrite (proj2 (Z.leb_gt seconds 0)), (proj2 (Z.ltb_lt 0 seconds)) by lia.
  rewrite (proj2 (Z.ltb_lt (seconds * Second - two64) (5 * Second))) by (unfold Second in *; lia).
  rewrite (proj2 (Z.ltb_ge (30 * Second) (seconds * Second - two64))) by (unfold Second in *; lia).
  rewrite add64_small by (unfold in_int64, min_int64, max_int64, Second, two64 in *; lia).
  split_and!; [done|done|unfold Second in *; lia].
Qed.

(** ** Concrete inputs *)

Definition exampleCandidate (cooling : bool) : Candidate :=
  mkCandidate 1 fzero cooling ""
    (mkCandidateSite 1%N "site" "site" "openai" "https://example.org" fzero "passthrough" None "")
    (mkCandidateModel 2%N "gpt" "gpt" "exact" 100 ["openai"])
    (mkCandidateHealth "healthy" None None 0 None None 0) 1 1
    (mkCandidateCredential (Some 3%N) "key" fzero None "" (of_int 1))
    (mkCandidatePricing None None None None None None None None None None None (of_int 1)) None.

Definition exampleFailure (status upstreamStatus retryAfter : Z) (errorType : string)
    : gatewayAttemptResult :=
  mkResult status upstreamStatus "" false errorType "" 0 0 0 0 false "" 3%N "" 1 1 "" "" 0 ∅
    retryAfter None.

Definition exampleEnv (now : Z) : FailureEnv :=
  mkFailureEnv true (Ok []) false false now now now 9%N.

(** A cooldown of the example's model, set by the gateway. *)
Definition exampleCooldown (now : Z) : RouteCooldown :=
  mkCooldown 8%N 1%N (Some 2%N) None "model" "gateway" "upstream_http_error" (now + 30 * Second) None
    "{}" now.

Lemma failure_cools_only_its_model_witness :
  is_Some (index_lookup (indexCooldowns (ListActive 1 (fst (cooldownAfterFailure (λ _, "{}")
    (exampleEnv 1) (exampleCandidate false) (exampleFailure 500 500 0 "upstream_http_error") []))))
    (TSite 1%N))
  ↔ is_Some (index_lookup (indexCooldowns (ListActive 1 [])) (TSite 1%N)).
Proof. apply failure_cools_only_its_model; [done|by split]. Defined.

Lemma transient_cooldown_escalates_witness :
  let env := exampleEnv (10 * Second) in
  ∃ rows row,
    fst (cooldownAfterFailure (λ _, "{}") env (exampleCandidate true)
      (exampleFailure 500 500 0 "upstream_http_error") [exampleCooldown 1]) = rows ++ [row]
    ∧ rc_ActiveUntil row = 70 * Second.
Proof.
  destruct (transient_cooldown_escalates (λ _, "{}") (exampleEnv (10 * Second)) (exampleCandidate true)
    (exampleFailure 500 500 0 "upstream_http_error") [exampleCooldown 1]
    (mkCooldownInput 1%N (Some 2%N) None "model" "gateway" "upstream_http_error" (30 * Second) "{}"))
    as (rows & row & Heq & _ & _ & _ & _ & _ & _ & Huntil);
    [done|done|reflexivity|vm_compute; reflexivity|vm_compute; reflexivity|done|reflexivity
    |by split_and!|].
  exists rows, row. split; [exact Heq|]. rewrite Huntil by done. vm_compute. reflexivity.
Defined.

Lemma recovery_lifts_the_cooldown_witness :
  ix_transientModels (indexCooldowns (ListActive 2
    (fst (clearCooldownAfterRecovery 2 false (exampleCandidate true) [exampleCooldown 1])))) !! 2%N
  = None.
Proof.
  apply (recovery_lifts_the_cooldown 2 (exampleCandidate true) [exampleCooldown 1] 2).
  - reflexivity.
  - done.
  - intros r Hr%list_elem_of_singleton _. by rewrite Hr.
Defined.

Lemma rate_limit_pauses_witness :
  rateLimitedCooldownDuration 40 = 40 * Second
  ∧ upstreamRateLimitWaitDuration 7 (exampleFailure 429 429 40 "") = 30 * Second + 7.
Proof.
  destruct (rate_limit_pauses (exampleFailure 429 429 40 "") 7) as (H1 & H2 & _);
    [cbn; lia|unfold Second; lia|]. split; [exact H1|exact H2].
Defined.

Lemma huge_retry_after_is_no_wait_witness :
  let limited := applyRetryAfterHeader (λ _, None) 0 (exampleFailure 429 429 0 "") " 9223372037" in
  rateLimitedCooldownDuration (g_retryAfterSeconds limited) = 5 * Second
  ∧ upstreamRateLimitWaitDuration 0 limited < Second.
Proof.
  destruct (huge_retry_after_is_no_wait (λ _, None) 0 0 9223372037 " 9223372037"
    (exampleFailure 429 429 0 "")) as (_ & H1 & H2);
    [reflexivity|reflexivity|vm_compute; reflexivity|lia|unfold Second; lia|].
  split; [exact H1|exact H2].
Defined.
