(* ===== verification/Failover.v ===== *)
(** * Failover: one request, several upstreams

    The loop of [serveEndpoint] ([gateway/handler_chat.go]) over the planned
    candidates, and inside it the loop of [forwardGatewayRequest]
    ([gateway/execution.go]) over the credentials of one site.  What the loops do is
    a list of actions (attempts, cooldowns, settled tokens, pauses, responses); what
    the world answers comes from an oracle indexed by the number of the call.  The
    endpoint and protocol adapters are an interface. *)

From S2P Require Import Prelude Catalog Json Router Cooldown.

(** ** Budgets and verdicts *)

Definition defaultGatewayFailoverBudget : Z := 300 * Second.
Definition defaultStreamingFailoverBudget : Z := 90 * Second.
Definition defaultImageFailoverBudget : Z := 180 * Second.

Definition gatewayFailoverBudget (stream : bool) (downstreamPath : string) : Z :=
  if stream then
    if bool_decide (downstreamPath = "/v1/images/generations")
       || bool_decide (downstreamPath = "/v1/images/edits")
    then defaultImageFailoverBudget else defaultStreamingFailoverBudget
  else defaultGatewayFailoverBudget.

Definition rateLimitTokenCount (result : gatewayAttemptResult) : Z :=
  add64 (add64 (g_promptTokens result) (g_completionTokens result)) (g_audioOutputTokens result).

Definition upstreamModelUnavailableFailure (result : gatewayAttemptResult) : bool :=
  let code := ToLower (TrimSpace (g_upstreamErrorCode result)) in
  let message := ToLower (TrimSpace (g_errorMessage result)) in
  if (g_upstreamStatusCode result =? 404) || (g_statusCode result =? 404) then true
  else Contains code "model_not_found" || Contains code "model-not-found"
       || (Contains message "model" && Contains message "not found").

Definition retainUpstreamRateLimitFailure (retained : option gatewayAttemptResult)
    (result : gatewayAttemptResult) : option gatewayAttemptResult :=
  if negb (g_upstreamStatusCode result =? 429) && negb (g_statusCode result =? 429)
  then retained else Some result.

Definition preferredFinalGatewayFailure (lastFailure retained : option gatewayAttemptResult)
    : option gatewayAttemptResult :=
  match retained, lastFailure with
  | Some _, None => retained
  | Some _, Some last =>
      if bool_decide (g_errorType last = "upstream_credential_unavailable") then retained
      else lastFailure
  | None, _ => lastFailure
  end.

Definition bridgeRescueEligible (result : gatewayAttemptResult) : bool :=
  if g_success result || g_responseStarted result then false
  else let haystack := ToLower (g_errorMessage result ++ " " ++ g_body result)%string in
       existsb (Contains haystack)
         ["image generation is not enabled"; "image generation is not supported";
          "images api is not supported"].

(** [appendUniqueStrings]: the values trimmed, the empty and the known ones dropped. *)
Definition appendUniqueStrings (dst values : list string) : list string :=
  fold_left (λ dst value,
    let value := TrimSpace value in
    if bool_decide (value = "") || bool_decide (value ∈ dst) then dst else dst ++ [value])
    values dst.

(** ** Actions *)

Inductive action :=
| ATry (candidate : Candidate) (result : gatewayAttemptResult)
| ABridged (candidate : Candidate) (result : gatewayAttemptResult)
| ACooldown (candidate : Candidate) (result : gatewayAttemptResult)
| AClear (candidate : Candidate)
| ASettle (tokens : Z)
| AFallback (model : string)
| ASleep (wait : Z).

(** An upstream was asked. *)
Definition is_try (a : action) : bool :=
  match a with ATry _ _ | ABridged _ _ => true | _ => false end.

(** An upstream was asked and bytes went, or are ready to go, to the client. *)
Definition answered (a : action) : bool :=
  match a with
  | ATry _ r | ABridged _ r => g_success r || g_responseStarted r
  | _ => false
  end.

(** ** The credentials of one site *)

Inductive transportError := ECanceled | ETimeout | EOther.

Definition transportErrorType (err : transportError) : string :=
  match err with
  | ECanceled => "downstream_client_cancelled"
  | ETimeout => "upstream_timeout"
  | EOther => "upstream_transport_error"
  end.

Definition transportFailureStatusCode (err : transportError) : Z :=
  match err with ECanceled => 499 | _ => 502 end.

(** What [acquireUpstreamConcurrency] returns when no slot was taken. *)
Inductive slotError :=
| SlotCanceled | SlotTimeout | SlotSite | SlotModel | SlotCredential | SlotOther.

Definition slotStatus (err : slotError) : Z :=
  match err with SlotCanceled => 499 | _ => 503 end.

Definition slotErrorType (err : slotError) : string :=
  match err with
  | SlotCanceled => "downstream_client_cancelled"
  | SlotTimeout => "upstream_concurrency_wait_timeout"
  | SlotSite => "site_concurrency_limited"
  | SlotModel => "model_concurrency_limited"
  | SlotCredential => "credential_concurrency_limited"
  | SlotOther => "upstream_concurrency_acquire_failed"
  end.

(** Failures before anything is sent, which no other credential would mend: the
    status and the type of the error. *)
Inductive localFailure :=
| CodexRefresh | AntigravityRefresh | ClaudeCodeRefresh
| EncodePayload (body : string) | ParamValidation | ClientUnavailable
| EncodeBody | RequestBuild | RequestSign.

Definition localFailureType (f : localFailure) : Z * string :=
  match f with
  | CodexRefresh => (502, "codex_oauth_refresh_failed")
  | AntigravityRefresh => (502, "antigravity_oauth_refresh_failed")
  | ClaudeCodeRefresh => (502, "claude_code_oauth_refresh_failed")
  | EncodePayload _ => (400, "request_encode_failed")
  | ParamValidation => (400, "request_param_validation_failed")
  | ClientUnavailable => (502, "upstream_client_unavailable")
  | EncodeBody => (400, "request_encode_failed")
  | RequestBuild => (502, "upstream_request_build_failed")
  | RequestSign => (502, "upstream_sign_failed")
  end.

(** What happens when the loop comes to a credential.  [StepResponse] is the result
    [handleStreamResponse] or [handleBufferedResponse] makes of a response. *)
Inductive credentialStep :=
| StepUnsupported
| StepNoneFree
| StepDecryptFailed (message : string)
| StepLocalFailure (f : localFailure) (message : string)
| StepGrokRefreshFailed (message : string)
| StepNoSlot (err : slotError) (message : string)
| StepTransport (err : transportError) (message : string)
| StepResponse (result : gatewayAttemptResult).

Record credentialTurn := mkTurn {
  ct_ID : uuid;
  ct_Masked : string;
  ct_Step : credentialStep
}.

Definition emptyResult : gatewayAttemptResult :=
  mkResult 0 0 "" false "" "" 0 0 0 0 false "" uuid_Nil "" 0 0 "" "" 0 ∅ 0 None.

(** A failed attempt with the decision [recordCredentialAttempt] attaches. *)
Definition recordedFailure (turn : credentialTurn) (index total status : Z)
    (body errorType message : string) (retry : bool) : gatewayAttemptResult :=
  mkResult status 0 body false errorType message 0 0 0 0 false "" (ct_ID turn) (ct_Masked turn)
    (index + 1) total "" "" 0 ∅ 0
    (Some (credentialFailoverDecisionForAction (index <? total - 1) retry)).

(** The failure of a step that does not reach the upstream's answer, and whether it
    asks for another credential. *)
Definition stepFailure (candidate : Candidate) (turn : credentialTurn) (index total : Z)
    : option gatewayAttemptResult :=
  let failure := recordedFailure turn index total in
  match ct_Step turn with
  | StepDecryptFailed message => Some (failure 502 "" "upstream_credential_decrypt_failed" message true)
  | StepLocalFailure f message =>
      Some (failure (fst (localFailureType f))
              (match f with EncodePayload body => body | _ => "" end)
              (snd (localFailureType f)) message false)
  | StepGrokRefreshFailed message => Some (failure 502 "" "grok_oauth_refresh_failed" message true)
  | StepNoSlot err message =>
      Some (failure (slotStatus err) "" (slotErrorType err) message
              (match err with SlotCredential => true | _ => false end))
  | StepTransport err message =>
      Some (failure (transportFailureStatusCode err) "" (transportErrorType err) message
              (isGrokSite (cs_SiteType (cd_Site candidate))))
  | _ => None
  end.

(** The loop over the credentials, from [index] on: the result and what was done. *)
Fixpoint credentialLoop (diagnostic : bool) (candidate : Candidate) (turns : list credentialTurn)
    (index total : Z) (lastResult : gatewayAttemptResult) : gatewayAttemptResult * list action :=
  match turns with
  | [] => (lastResult, [])
  | turn :: rest =>
      match ct_Step turn with
      | StepNoneFree => (lastResult, [])
      | StepUnsupported => credentialLoop diagnostic candidate rest (index + 1) total lastResult
      | StepResponse result =>
          if ShouldTryNextCredential (credentialFailoverDecisionForResult result (index <? total - 1))
          then
            let cooled := if negb diagnostic && negb (g_statusCode result =? 404)
                          then [ACooldown candidate result] else [] in
            let '(final, actions) := credentialLoop diagnostic candidate rest (index + 1) total result in
            (final, [ATry candidate result] ++ cooled ++ actions)
          else (result, [ATry candidate result])
      | _ =>
          match stepFailure candidate turn index total with
          | None => (lastResult, [])
          | Some result =>
              if match g_credentialDecision result with
                 | Some decision => ShouldTryNextCredential decision | None => false end
              then
                let '(final, actions) := credentialLoop diagnostic candidate rest (index + 1) total result in
                (final, [ATry candidate result] ++ actions)
              else (result, [ATry candidate result])
          end
      end
  end.

(** [Err] is a failure to load the credentials, or to find a usable one. *)
Definition forwardGatewayRequest (diagnostic : bool) (candidate : Candidate)
    (credentials : result (list credentialTurn) string) : gatewayAttemptResult * list action :=
  match credentials with
  | Err message =>
      let result := mkResult 502 0 "" false "upstream_credential_unavailable" message 0 0 0 0 false
                      "" uuid_Nil "" 0 0 "" "" 0 ∅ 0 None in
      (result, [ATry candidate result])
  | Ok turns => credentialLoop diagnostic candidate turns 0 (Z.of_nat (length turns)) emptyResult
  end.

(** ** The interface of the adapters *)

Class Adapters (request protocol : Type) := {
  rq_Stream : request → bool;
  rq_Diagnostic : request → bool;
  rq_DownstreamPath : request → string;
  rq_withModel : request → string → request;                    (* the soft fallback's request *)
  grokIncompatibleRequestParams : request → list string;
  resolveProtocol : request → Candidate → result protocol string;
  protocolIncompatibleParams : protocol → request → list string;  (* [] unless it is Grok's *)
  candidateRequiresImageBridge : Candidate → protocol → bool;
  requestForCodexImagePolicy : request → Candidate → option request
}.

(** What the world answers: the clock, the upstreams, the pauses. *)
Record Oracle := mkOracle {
  or_clock : nat → Z;
  or_credentials : nat → result (list credentialTurn) string;
  or_bridged : nat → gatewayAttemptResult;
  or_jitter : nat → Z;
  or_sleep : nat → bool;
  or_failAll : bool
}.

(** How far the request is in the oracle. *)
Record Progress := mkProgress { pg_clock : nat; pg_calls : nat; pg_waits : nat }.

Definition tick (p : Progress) : Progress := mkProgress (S (pg_clock p)) (pg_calls p) (pg_waits p).
Definition called (p : Progress) : Progress := mkProgress (pg_clock p) (S (pg_calls p)) (pg_waits p).

(** The variables one pass over the candidates sets. *)
Record PassState := mkPass {
  ps_lastFailure : option gatewayAttemptResult;
  ps_retained : option gatewayAttemptResult;
  ps_skippedImage : bool;
  ps_skippedGrok : list string;
  ps_waitable : bool
}.

Inductive failure :=
| FailParameters (message : string)       (* 422 upstream_parameter_not_supported *)
| FailBridge                              (* the open bridge stream was failed *)
| FailImage                               (* 400 image_generation_not_supported *)
| FailUpstream (result : gatewayAttemptResult)   (* the upstream's own response *)
| FailAllCandidates.                      (* 502 upstream_failed *)

Inductive outcome :=
| Served (result : gatewayAttemptResult)
| Cancelled
| Interrupted (result : gatewayAttemptResult)   (* it failed after its response had started *)
| Unresolved (message : string)                 (* 502 protocol_resolution_failed *)
| Failed (f : failure)
| OutOfFuel.

Inductive passEnd :=
| PassDone (ps : PassState)
| PassBudget (ps : PassState)
| PassReturn (o : outcome).

Section serve.
Context {request protocol : Type} `{!Adapters request protocol}.
Variables (oracle : Oracle) (bridge : bool) (startedAt failoverDeadline : Z).

(** After an attempt that served the client or was cancelled, the request is over. *)
Definition attemptOver (candidate : Candidate) (result : gatewayAttemptResult)
    : option (outcome * list action) :=
  if g_success result
  then Some (Served result, [ASettle (rateLimitTokenCount result); AClear candidate])
  else if bool_decide (g_errorType result = "downstream_client_cancelled")
  then Some (Cancelled, [])
  else None.

(** The failure of a candidate: noted, cooled down; over if its response had started. *)
Definition candidateFailed (candidate : Candidate) (result : gatewayAttemptResult) (ps : PassState)
    : sum outcome PassState :=
  if g_responseStarted result then inl (Interrupted result)
  else inr (mkPass (Some result) (retainUpstreamRateLimitFailure (ps_retained ps) result)
              (ps_skippedImage ps) (ps_skippedGrok ps)
              (ps_waitable ps && upstreamRateLimitWaitable candidate result)).

Inductive routing :=
| RSkipGrok (params : list string)
| RBridge
| RSkipImage
| RUnresolved (message : string)
| RForward (attemptRequest : request).

(** What the loop does with a candidate before it calls anything. *)
Definition route (req : request) (candidate : Candidate) : routing :=
  let grokParams := if isGrokSite (cs_SiteType (cd_Site candidate))
                    then grokIncompatibleRequestParams req else [] in
  let forward :=
    match requestForCodexImagePolicy req candidate with
    | None => RSkipImage
    | Some attemptRequest =>
        match resolveProtocol attemptRequest candidate with
        | Err message => RUnresolved message
        | Ok p =>
            match protocolIncompatibleParams p attemptRequest with
            | [] => RForward attemptRequest
            | params => RSkipGrok params
            end
        end
    end in
  match grokParams with
  | _ :: _ => RSkipGrok grokParams
  | [] =>
      if bridge then
        match resolveProtocol req candidate with
        | Ok p =>
            match protocolIncompatibleParams p req with
            | [] => if candidateRequiresImageBridge candidate p then RBridge else forward
            | params => RSkipGrok params
            end
        | Err _ => forward
        end
      else forward
  end.

(** [candidateLoop]: one pass. *)
Fixpoint candidateLoop (req : request) (attempts : list Candidate) (ps : PassState) (pg : Progress)
    : passEnd * Progress * list action :=
  match attempts with
  | [] => (PassDone ps, pg, [])
  | candidate :: rest =>
      let now := or_clock oracle (pg_clock pg) in
      let pg := tick pg in
      let continue ps pg actions :=
        let '(e, pg, more) := candidateLoop req rest ps pg in (e, pg, actions ++ more) in
      let failed result pg actions :=
        match candidateFailed candidate result ps with
        | inl o => (PassReturn o, pg, actions ++ [ACooldown candidate result])
        | inr ps => continue ps pg (actions ++ [ACooldown candidate result])
        end in
      if negb (now <? failoverDeadline) then (PassBudget ps, pg, [])
      else match route req candidate with
      | RSkipGrok params =>
          continue (mkPass (ps_lastFailure ps) (ps_retained ps) (ps_skippedImage ps)
                      (appendUniqueStrings (ps_skippedGrok ps) params) (ps_waitable ps)) pg []
      | RSkipImage =>
          continue (mkPass (ps_lastFailure ps) (ps_retained ps) true (ps_skippedGrok ps)
                      (ps_waitable ps)) pg []
      | RUnresolved message => (PassReturn (Unresolved message), pg, [])
      | RBridge =>
          let result := or_bridged oracle (pg_calls pg) in
          match attemptOver candidate result with
          | Some (o, actions) => (PassReturn o, called pg, [ABridged candidate result] ++ actions)
          | None => failed result (called pg) [ABridged candidate result]
          end
      | RForward attemptRequest =>
          let '(result, tries) :=
            forwardGatewayRequest (rq_Diagnostic attemptRequest) candidate
              (or_credentials oracle (pg_calls pg)) in
          match attemptOver candidate result with
          | Some (o, actions) => (PassReturn o, called pg, tries ++ actions)
          | None =>
              if bridge && bridgeRescueEligible result then
                let rescued := or_bridged oracle (S (pg_calls pg)) in
                match attemptOver candidate rescued with
                | Some (o, actions) =>
                    (PassReturn o, called (called pg), tries ++ [ABridged candidate rescued] ++ actions)
                | None => failed rescued (called (called pg)) (tries ++ [ABridged candidate rescued])
                end
              else failed result (called pg) tries
          end
      end
  end.

(** What the client is told when no candidate served it. *)
Definition finalFailure (ps : PassState) : failure :=
  let lastFailure := preferredFinalGatewayFailure (ps_lastFailure ps) (ps_retained ps) in
  let rest :=
    match lastFailure with
    | None => if ps_skippedImage ps then FailImage else FailAllCandidates
    | Some r =>
        if upstreamModelUnavailableFailure r then FailAllCandidates
        else if negb (bool_decide (g_body r = "")) && (400 <=? g_statusCode r) then FailUpstream r
        else FailAllCandidates
    end in
  if bool_decide (lastFailure = None) && negb (bool_decide (ps_skippedGrok ps = [])) then
    if bridge && or_failAll oracle then FailBridge
    else FailParameters ("no available upstream route candidate can preserve parameters: "
                         ++ Join (ps_skippedGrok ps) ", ")%string
  else if bridge && or_failAll oracle then FailBridge
  else rest.

(** The outer loop.  [fallback] is the soft mapping's target with the plan
    [setupRoute] finds for it, until it is used. *)
Fixpoint serveLoop (fuel : nat) (req : request) (attempts : list Candidate)
    (fallback : option (string * option (list Candidate))) (retained : option gatewayAttemptResult)
    (pg : Progress) : outcome * list action :=
  match fuel with
  | O => (OutOfFuel, [])
  | S fuel =>
      let '(e, pg, actions) := candidateLoop req attempts (mkPass None retained false [] true) pg in
      let stop ps := (Failed (finalFailure ps), actions) in
      let engage ps pg :=
        match fallback with
        | Some (target, Some attempts) =>
            let '(o, more) := serveLoop fuel (rq_withModel req target) attempts None (ps_retained ps) pg in
            (o, actions ++ [AFallback target] ++ more)
        | _ => stop ps
        end in
      match e with
      | PassReturn o => (o, actions)
      | PassBudget ps => stop ps
      | PassDone ps =>
          match ps_lastFailure ps with
          | Some last =>
              if negb (ps_waitable ps) then engage ps pg
              else
                let wait := upstreamRateLimitWaitDuration (or_jitter oracle (pg_waits pg)) last in
                let late1 := startedAt + upstreamRateLimitMaxWait <? or_clock oracle (pg_clock pg) + wait in
                let late2 := failoverDeadline <? or_clock oracle (S (pg_clock pg)) + wait in
                let pg1 := tick pg in
                if late1 then engage ps pg1
                else if late2 then engage ps (tick pg1)
                else
                  let pg := mkProgress (S (S (pg_clock pg))) (pg_calls pg) (S (pg_waits pg)) in
                  if or_sleep oracle (pg_waits pg) then
                    let '(o, more) := serveLoop fuel req attempts fallback (ps_retained ps) pg in
                    (o, actions ++ [ASleep wait] ++ more)
                  else (Cancelled, actions ++ [ASleep wait])
          | None =>
              if ps_skippedImage ps || negb (bool_decide (ps_skippedGrok ps = []))
              then engage ps pg else stop ps
          end
      end
  end.
End serve.

(** The part of [serveEndpoint] after the rate limit was taken: the plan's candidates
    with the deadlines of the request. *)
Definition serve {request protocol} `{!Adapters request protocol} (oracle : Oracle) (bridge : bool)
    (startedAt : Z) (fuel : nat) (req : request) (attempts : list Candidate)
    (fallback : option (string * option (list Candidate))) : outcome * list action :=
  serveLoop oracle bridge startedAt
    (startedAt + gatewayFailoverBudget (rq_Stream req) (rq_DownstreamPath req))
    fuel req attempts fallback None (mkProgress 0 0 0).

(** ** Lemmas on actions *)

Definition quiet (l : list action) : Prop := Forall (λ a, answered a = false) l.
Definition no_try (l : list action) : Prop := Forall (λ a, is_try a = false) l.

(** After an action that answers the client, no upstream is asked any more. *)
Definition one_answer (l : list action) : Prop :=
  ∀ before a after, l = before ++ a :: after → answered a = true → no_try after.

Definition settled (l : list action) : list Z :=
  omap (λ a, match a with ASettle tokens => Some tokens | _ => None end) l.

Lemma answered_is_try a : is_try a = false → answered a = false.
Proof. by destruct a. Qed.

Lemma no_try_quiet l : no_try l → quiet l.
Proof. apply Forall_impl, answered_is_try. Qed.

Lemma quiet_one_answer l : quiet l → one_answer l.
Proof.
  intros Hq before a after -> Ha. exfalso. apply Forall_app in Hq as [_ Hq].
  apply list.Forall_cons in Hq as [Hq _]. congruence.
Qed.

Lemma one_answer_nil : one_answer [].
Proof. apply quiet_one_answer. constructor. Qed.

Lemma quiet_app l1 l2 : quiet l1 → quiet l2 → quiet (l1 ++ l2).
Proof. intros. by apply Forall_app. Qed.

Lemma one_answer_quiet_app l1 l2 : quiet l1 → one_answer l2 → one_answer (l1 ++ l2).
Proof.
  intros Hq. induction l1 as [|x l1 IH]; intros H2; [done|].
  apply list.Forall_cons in Hq as [Hx Hq]. intros before a after Heq Ha.
  destruct before as [|y before]; simplify_eq/=; [congruence|]. by eapply IH.
Qed.

Lemma one_answer_cons x l : no_try l → one_answer (x :: l).
Proof.
  intros Hl before a after Heq Ha. destruct before as [|y before]; simplify_eq/=; [done|].
  apply Forall_app in Hl as [_ Hl]. by apply list.Forall_cons in Hl as [_ Hl].
Qed.

Lemma one_answer_one x : one_answer [x].
Proof. apply one_answer_cons. constructor. Qed.

Lemma one_answer_app_no_try l1 l2 : one_answer l1 → no_try l2 → one_answer (l1 ++ l2).
Proof.
  intros H1 H2. revert H1. induction l1 as [|x l1 IH]; intros H1; [by apply quiet_one_answer, no_try_quiet|].
  intros before a after Heq Ha. destruct before as [|y before]; simplify_eq/=.
  - apply Forall_app. split; [|done]. by apply (H1 [] a l1).
  - eapply IH; [|done|done]. intros b' a' af' -> Ha'. by apply (H1 (y :: b') a' af').
Qed.

Lemma settled_app l1 l2 : settled (l1 ++ l2) = settled l1 ++ settled l2.
Proof. apply omap_app. Qed.

#[local] Hint Resolve quiet_app quiet_one_answer one_answer_quiet_app one_answer_cons
  one_answer_app_no_try : core.
#[local] Hint Constructors Forall : core.

(** ** The credentials *)

Definition shown (r : gatewayAttemptResult) : bool := g_success r || g_responseStarted r.

Lemma quiet_try c r : shown r = false → quiet [ATry c r].
Proof. intros H. constructor; [exact H|constructor]. Qed.

Lemma quiet_bridged c r : shown r = false → quiet [ABridged c r].
Proof. intros H. constructor; [exact H|constructor]. Qed.

#[local] Hint Resolve quiet_try quiet_bridged : core.

Lemma stepFailure_hidden candidate turn index total r :
  stepFailure candidate turn index total = Some r → shown r = false.
Proof. unfold stepFailure. destruct (ct_Step turn); intros; simplify_eq; done. Qed.

Lemma retried_hidden result next :
  ShouldTryNextCredential (credentialFailoverDecisionForResult result next) = true → shown result = false.
Proof.
  unfold credentialFailoverDecisionForResult, credentialFailoverDecisionForAction, shown. cbn.
  destruct (g_success result), (g_responseStarted result); simpl; try done.
Qed.

(** The loop ends with the attempt that answered, if one did. *)
Lemma credentialLoop_answers diagnostic candidate turns index total last :
  let '(r, acts) := credentialLoop diagnostic candidate turns index total last in
  one_answer acts ∧ settled acts = [] ∧ (shown r = false → quiet acts).
Proof.
  revert index last. induction turns as [|turn rest IH]; intros index last; cbn [credentialLoop].
  { split_and!; [apply one_answer_nil|done|by constructor]. }
  assert (Hlocal : ∀ (r : gatewayAttemptResult) (retry : bool), shown r = false →
    let '(r, acts) :=
      if retry then
        let '(final, actions) := credentialLoop diagnostic candidate rest (index + 1) total r in
        (final, [ATry candidate r] ++ actions)
      else (r, [ATry candidate r]) in
    one_answer acts ∧ settled acts = [] ∧ (shown r = false → quiet acts)).
  { intros r retry Hr. destruct retry.
    - specialize (IH (index + 1) r). destruct (credentialLoop _ _ _ _ _ r) as [r' acts].
      destruct IH as (H1 & H2 & H3). pose proof (quiet_try candidate r Hr).
      split_and!; [by apply one_answer_quiet_app|done|intros; apply quiet_app; auto].
    - split_and!; [apply one_answer_one|done|apply quiet_try]. }
  destruct (ct_Step turn) as [| |msg|f msg|msg|err msg|err msg|res] eqn:Estep;
    [apply IH|split_and!; [apply one_answer_nil|done|by constructor]|..];
    try (destruct (stepFailure candidate turn index total) as [r|] eqn:Ef;
         [apply Hlocal; by eapply stepFailure_hidden
         |split_and!; [apply one_answer_nil|done|by constructor]]).
  destruct (ShouldTryNextCredential _) eqn:Er.
  - apply retried_hidden in Er. specialize (IH (index + 1) res).
    destruct (credentialLoop _ _ _ _ _ res) as [r' acts]. destruct IH as (H1 & H2 & H3).
    assert (Hq : quiet ([ATry candidate res] ++
      (if negb diagnostic && negb (g_statusCode res =? 404) then [ACooldown candidate res] else []))).
    { apply quiet_app; [by apply quiet_try|]. destruct (_ && _); by repeat constructor. }
    rewrite app_assoc. split_and!; [by apply one_answer_quiet_app| |auto].
    rewrite settled_app, H2. by destruct (_ && _).
  - split_and!; [apply one_answer_one|done|apply quiet_try].
Qed.

Lemma forward_answers diagnostic candidate credentials :
  let '(r, acts) := forwardGatewayRequest diagnostic candidate credentials in
  one_answer acts ∧ settled acts = [] ∧ (shown r = false → quiet acts).
Proof.
  destruct credentials as [turns|msg]; [apply credentialLoop_answers|].
  cbn -[shown]. split_and!; [apply one_answer_one|done|apply quiet_try].
Qed.

(** ** The passes *)

Section serve_lemmas.
Context {request protocol : Type} `{!Adapters request protocol}.
Variables (oracle : Oracle) (bridge : bool) (startedAt failoverDeadline : Z).

(** What a pass leaves: quiet actions when the loop goes on, at most one answer and
    the tokens of the served attempt when it returns. *)
Definition over_ok (o : outcome) (acts : list action) : Prop :=
  one_answer acts ∧
  settled acts = match o with Served r => [rateLimitTokenCount r] | _ => [] end.

Definition pass_ok (e : passEnd) (acts : list action) : Prop :=
  match e with
  | PassReturn o => over_ok o acts ∧ o ≠ OutOfFuel
  | _ => quiet acts ∧ settled acts = []
  end.

(** The result of a pass that began at [pg] and read the clock [n] times or more. *)
Definition pass_spec (n : nat) (pg : Progress) (r : passEnd * Progress * list action) : Prop :=
  let '(e, pg', acts) := r in pass_ok e acts ∧ (pg_clock pg + n ≤ pg_clock pg')%nat.

Lemma pass_ok_prefix e pre acts :
  quiet pre → settled pre = [] → pass_ok e acts → pass_ok e (pre ++ acts).
Proof.
  intros Hq Hs. destruct e; simpl; unfold over_ok; rewrite settled_app, Hs.
  1-2: intros [? ?]; split; auto.
  intros [[? ?] ?]; split_and!; auto.
Qed.

Lemma attemptOver_ok candidate r o actions pre :
  attemptOver candidate r = Some (o, actions) → one_answer pre → settled pre = [] →
  pass_ok (PassReturn o) (pre ++ actions).
Proof.
  unfold attemptOver, pass_ok, over_ok. intros H Hp Hs. rewrite settled_app, Hs.
  destruct (g_success r); [|case_bool_decide]; simplify_eq/=; split_and!; try done.
  - apply one_answer_app_no_try; [done|by repeat constructor].
  - by rewrite app_nil_r.
Qed.

Lemma attemptOver_none candidate r : attemptOver candidate r = None → g_success r = false.
Proof. unfold attemptOver. by destruct (g_success r). Qed.

Lemma continue_spec n pg pg' pre (r : passEnd * Progress * list action) :
  pass_spec n pg' r → quiet pre → settled pre = [] → (pg_clock pg < pg_clock pg')%nat →
  pass_spec 1 pg (let '(e, p, more) := r in (e, p, pre ++ more)).
Proof.
  destruct r as [[e p] more]. intros [Hok Hle] Hq Hs Hlt. split; [by apply pass_ok_prefix|lia].
Qed.

Lemma over_spec candidate r o actions pre pg pg' :
  attemptOver candidate r = Some (o, actions) → one_answer pre → settled pre = [] →
  (pg_clock pg < pg_clock pg')%nat → pass_spec 1 pg (PassReturn o, pg', pre ++ actions).
Proof. intros Ho Hone Hs Hlt. split; [by eapply attemptOver_ok|lia]. Qed.

(** A failed attempt, followed by the rest of the pass unless its response started. *)
Lemma failed_spec n candidate result ps pg pg' pre
    (rest : PassState → passEnd * Progress * list action) :
  (∀ ps, pass_spec n pg' (rest ps)) →
  g_success result = false → one_answer pre → settled pre = [] →
  (shown result = false → quiet pre) → (pg_clock pg < pg_clock pg')%nat →
  pass_spec 1 pg
    match candidateFailed candidate result ps with
    | inl o => (PassReturn o, pg', pre ++ [ACooldown candidate result])
    | inr ps => let '(e, p, more) := rest ps in (e, p, (pre ++ [ACooldown candidate result]) ++ more)
    end.
Proof.
  intros Hrest Hsucc Hone Hs Hq Hlt. unfold candidateFailed.
  destruct (g_responseStarted result) eqn:Est.
  - split; [|lia]. split; [|done]. split; [|by rewrite settled_app, Hs].
    apply one_answer_app_no_try; [done|by repeat constructor].
  - apply (continue_spec n pg pg'); [by apply Hrest| |by rewrite settled_app, Hs|done].
    apply quiet_app; [|by repeat constructor]. apply Hq. unfold shown. by rewrite Hsucc, Est.
Qed.

Lemma candidateLoop_spec req attempts ps pg :
  pass_spec (Nat.min 1 (length attempts)) pg
    (candidateLoop oracle bridge failoverDeadline req attempts ps pg).
Proof.
  revert ps pg. induction attempts as [|candidate rest IH]; intros ps pg; cbn [candidateLoop].
  { split; [by repeat constructor|simpl; lia]. }
  cbv zeta. replace (Nat.min 1 (length (candidate :: rest))) with 1%nat by (simpl; lia).
  destruct (negb (_ <? _)); [split; [by repeat constructor|simpl; lia]|].
  assert (Htick : (pg_clock pg < pg_clock (tick pg))%nat) by (simpl; lia).
  destruct (route bridge req candidate) as [params| | |msg|attemptRequest].
  - eapply continue_spec; [apply IH|constructor|done|done].
  - set (result := or_bridged _ _).
    destruct (attemptOver candidate result) as [[o actions]|] eqn:Eo.
    { by apply (over_spec _ _ _ _ [ABridged candidate result] _ _ Eo); [apply one_answer_one|..]. }
    eapply failed_spec; [intros ?; apply IH|by apply attemptOver_none in Eo|apply one_answer_one|done| |done].
    apply quiet_bridged.
  - eapply continue_spec; [apply IH|constructor|done|done].
  - split; [|simpl; lia]. split; [split; [apply one_answer_nil|done]|done].
  - pose proof (forward_answers (rq_Diagnostic attemptRequest) candidate
      (or_credentials oracle (pg_calls (tick pg)))) as Hfw.
    destruct (forwardGatewayRequest _ _ _) as [result tries]. destruct Hfw as (H1 & H2 & H3).
    destruct (attemptOver candidate result) as [[o actions]|] eqn:Eo.
    { by apply (over_spec _ _ _ _ tries _ _ Eo). }
    apply attemptOver_none in Eo. destruct (bridge && bridgeRescueEligible result) eqn:Er;
      [|by eapply failed_spec; [intros ?; apply IH|..]].
    apply andb_prop in Er as [_ Er]. unfold bridgeRescueEligible in Er.
    destruct (g_success result || g_responseStarted result) eqn:Esh; [done|].
    set (rescued := or_bridged _ _).
    assert (Hone : one_answer (tries ++ [ABridged candidate rescued])).
    { apply one_answer_quiet_app; [by apply H3|apply one_answer_one]. }
    assert (Hset : settled (tries ++ [ABridged candidate rescued]) = []) by (by rewrite settled_app, H2).
    destruct (attemptOver candidate rescued) as [[o actions]|] eqn:Eo'.
    { rewrite app_assoc. by apply (over_spec _ _ _ _ _ _ _ Eo'). }
    eapply failed_spec; [intros ?; apply IH|by apply attemptOver_none in Eo'|done|done| |done].
    intros Hsh. apply quiet_app; [by apply H3|by apply quiet_bridged].
Qed.

Lemma serveLoop_answers fuel req attempts fallback retained pg :
  let '(o, acts) := serveLoop oracle bridge startedAt failoverDeadline fuel req attempts fallback retained pg in
  over_ok o acts.
Proof.
  revert req attempts fallback retained pg.
  induction fuel as [|fuel IH]; intros req attempts fallback retained pg; cbn [serveLoop].
  { split; [apply one_answer_nil|done]. }
  pose proof (candidateLoop_spec req attempts (mkPass None retained false [] true) pg) as Hpass.
  destruct (candidateLoop _ _ _ _ _ _ _) as [[e pg'] actions]. destruct Hpass as [Hpass _].
  destruct e as [ps|ps|o]; simpl in Hpass; [|destruct Hpass; split; auto|apply Hpass].
  destruct Hpass as [Hq Hs]. cbv zeta.
  assert (Hstop : over_ok (Failed (finalFailure oracle bridge ps)) actions) by (split; auto).
  assert (Hmore : ∀ o more a, quiet [a] → settled [a] = [] → over_ok o more →
    over_ok o (actions ++ [a] ++ more)).
  { intros o more a Ha Hsa [H1 H2]. split; [auto|]. by rewrite !settled_app, Hs, Hsa. }
  assert (Hengage : ∀ pg, let '(o, acts) :=
    match fallback with
    | Some (target, Some attempts) =>
        let '(o, more) := serveLoop oracle bridge startedAt failoverDeadline fuel
          (rq_withModel req target) attempts None (ps_retained ps) pg in
        (o, actions ++ [AFallback target] ++ more)
    | _ => (Failed (finalFailure oracle bridge ps), actions)
    end in over_ok o acts).
  { intros pg0. destruct fallback as [[target [attempts'|]]|]; [|done..].
    specialize (IH (rq_withModel req target) attempts' None (ps_retained ps) pg0).
    destruct (serveLoop _ _ _ _ fuel _ _ _ _ _) as [o more]. apply Hmore; [by repeat constructor|done..]. }
  destruct (ps_lastFailure ps) as [last|].
  - destruct (negb (ps_waitable ps)); [apply Hengage|].
    destruct (_ <? _); [apply Hengage|]. destruct (_ <? _); [apply Hengage|].
    destruct (or_sleep _ _).
    + specialize (IH req attempts fallback (ps_retained ps)
        (mkProgress (S (S (pg_clock pg'))) (pg_calls pg') (S (pg_waits pg')))).
      destruct (serveLoop _ _ _ _ fuel _ _ _ _ _) as [o more]. apply Hmore; [by repeat constructor|done..].
    + split; [|by rewrite settled_app, Hs]. apply quiet_one_answer, quiet_app; [done|by repeat constructor].
  - destruct (_ || _); [apply Hengage|done].
Qed.
End serve_lemmas.

(** C10: one request reaches the client with the answer of at most one upstream: after
    an attempt that succeeded, or whose response had started, no credential, candidate,
    bridge or fallback model is asked any more; the rate limit is charged the tokens of
    the attempt that was served, once, and of no other. *)
Theorem client_gets_one_answer {request protocol : Type} `{!Adapters request protocol}
    (oracle : Oracle) (bridge : bool) (startedAt : Z) (fuel : nat) (req : request)
    (attempts : list Candidate) (fallback : option (string * option (list Candidate))) :
  let '(o, actions) := serve oracle bridge startedAt fuel req attempts fallback in
  (∀ before a after, actions = before ++ a :: after → answered a = true →
     Forall (λ later, is_try later = false) after)
  ∧ settled actions = match o with Served r => [rateLimitTokenCount r] | _ => [] end.
Proof. apply serveLoop_answers. Qed.

(** ** Termination *)

Section termination.
Context {request protocol : Type} `{!Adapters request protocol}.
Variables (oracle : Oracle) (bridge : bool) (startedAt failoverDeadline : Z).

(** A pass ends the loop when the time is over. *)
Lemma candidateLoop_late req attempts ps pg :
  attempts ≠ [] → failoverDeadline ≤ or_clock oracle (pg_clock pg) →
  candidateLoop oracle bridge failoverDeadline req attempts ps pg = (PassBudget ps, tick pg, []).
Proof.
  destruct attempts as [|candidate rest]; [done|]. intros _ Hlate. cbn [candidateLoop]. cbv zeta.
  by rewrite (proj2 (Z.ltb_ge _ failoverDeadline)).
Qed.

Definition plans_nonempty (attempts : list Candidate)
    (fallback : option (string * option (list Candidate))) : Prop :=
  attempts ≠ [] ∧ match fallback with Some (_, Some plan) => plan ≠ [] | _ => True end.

Lemma serveLoop_returns (N fuel : nat) req attempts fallback retained pg :
  (∀ n, (N ≤ n)%nat → failoverDeadline ≤ or_clock oracle n) →
  plans_nonempty attempts fallback → (N < fuel + pg_clock pg)%nat → (0 < fuel)%nat →
  fst (serveLoop oracle bridge startedAt failoverDeadline fuel req attempts fallback retained pg)
  ≠ OutOfFuel.
Proof.
  intros Hclock. revert req attempts fallback retained pg.
  induction fuel as [|fuel IH]; intros req attempts fallback retained pg [Hne Hfb] HN Hpos; [lia|].
  cbn [serveLoop].
  destruct (Z.le_gt_cases failoverDeadline (or_clock oracle (pg_clock pg))) as [Hlate|Hearly].
  { by rewrite candidateLoop_late. }
  assert ((pg_clock pg < N)%nat).
  { destruct (le_lt_dec N (pg_clock pg)) as [Hle|]; [|done]. specialize (Hclock _ Hle). lia. }
  pose proof (candidateLoop_spec oracle bridge failoverDeadline req attempts
    (mkPass None retained false [] true) pg) as Hspec.
  replace (Nat.min 1 (length attempts)) with 1%nat in Hspec by (destruct attempts; [done|simpl; lia]).
  destruct (candidateLoop _ _ _ _ _ _ _) as [[e pg'] actions]. destruct Hspec as [Hok Hpg].
  destruct e as [ps|ps|o]; [|done|by destruct Hok].
  cbv zeta.
  assert (Hengage : ∀ pg0, (pg_clock pg' ≤ pg_clock pg0)%nat →
    fst match fallback with
    | Some (target, Some attempts) =>
        let '(o, more) := serveLoop oracle bridge startedAt failoverDeadline fuel
          (rq_withModel req target) attempts None (ps_retained ps) pg0 in
        (o, actions ++ [AFallback target] ++ more)
    | _ => (Failed (finalFailure oracle bridge ps), actions)
    end ≠ OutOfFuel).
  { intros pg0 Hle. destruct fallback as [[target [plan|]]|]; [|done..].
    specialize (IH (rq_withModel req target) plan None (ps_retained ps) pg0).
    destruct (serveLoop _ _ _ _ fuel _ _ _ _ _). apply IH; [done|lia|lia]. }
  destruct (ps_lastFailure ps) as [last|].
  - destruct (negb (ps_waitable ps)); [by apply Hengage|].
    destruct (_ <? _); [apply Hengage; simpl; lia|]. destruct (_ <? _); [apply Hengage; simpl; lia|].
    destruct (or_sleep _ _); [|done].
    specialize (IH req attempts fallback (ps_retained ps)
      (mkProgress (S (S (pg_clock pg'))) (pg_calls pg') (S (pg_waits pg')))).
    destruct (serveLoop _ _ _ _ fuel _ _ _ _ _). apply IH; [done|simpl; lia|lia].
  - destruct (_ || _); [by apply Hengage|done].
Qed.
End termination.

(** C38: the request ends: once the clock has passed the failover deadline after [N]
    readings, [N + 1] passes are enough, whatever the upstreams answer. *)
Theorem serve_ends {request protocol : Type} `{!Adapters request protocol}
    (oracle : Oracle) (bridge : bool) (startedAt : Z) (N fuel : nat) (req : request)
    (attempts : list Candidate) (fallback : option (string * option (list Candidate)))
    (Hclock : ∀ n, (N ≤ n)%nat →
       startedAt + gatewayFailoverBudget (rq_Stream req) (rq_DownstreamPath req) ≤ or_clock oracle n)
    (Hplans : plans_nonempty attempts fallback)
    (Hfuel : (N < fuel)%nat) :
  fst (serve oracle bridge startedAt fuel req attempts fallback) ≠ OutOfFuel.
Proof. apply (serveLoop_returns _ _ _ _ N); simpl; [done|done|lia|lia]. Qed.

(** ** What every action satisfies *)

(** [P] holds of all a pass can do with a candidate. *)
Definition allowed (P : action → Prop) (candidate : Candidate) : Prop :=
  (∀ r, P (ATry candidate r)) ∧ (∀ r, P (ABridged candidate r)) ∧ (∀ r, P (ACooldown candidate r))
  ∧ P (AClear candidate) ∧ (∀ tokens, P (ASettle tokens)).

Section every_action.
Context {request protocol : Type} `{!Adapters request protocol}.
Variables (oracle : Oracle) (bridge : bool) (startedAt failoverDeadline : Z) (P : action → Prop).

Lemma credentialLoop_Forall diagnostic candidate turns index total last :
  allowed P candidate →
  Forall P (snd (credentialLoop diagnostic candidate turns index total last)).
Proof.
  intros (Htry & _ & Hcool & _ & _). revert index last.
  induction turns as [|turn rest IH]; intros index last; cbn [credentialLoop]; [constructor|].
  destruct (ct_Step turn); try apply IH; try (destruct (stepFailure _ _ _ _) as [r|]); try constructor;
    match goal with |- context [if ?b then _ else _] => destruct b end;
    try (match goal with |- context [credentialLoop diagnostic candidate rest ?i total ?r] =>
           specialize (IH i r); destruct (credentialLoop diagnostic candidate rest i total r) end);
    cbn; try destruct (_ && _); repeat (constructor; auto).
Qed.

Lemma forward_Forall diagnostic candidate credentials :
  allowed P candidate → Forall P (snd (forwardGatewayRequest diagnostic candidate credentials)).
Proof.
  intros Hall. destruct credentials; [by apply credentialLoop_Forall|].
  destruct Hall as [Htry _]. by repeat constructor.
Qed.

Lemma attemptOver_Forall candidate r o actions :
  allowed P candidate → attemptOver candidate r = Some (o, actions) → Forall P actions.
Proof.
  intros (_ & _ & _ & Hclear & Hsettle). unfold attemptOver.
  destruct (g_success r); [|case_bool_decide]; intros; simplify_eq; by repeat constructor.
Qed.

Lemma candidateLoop_Forall req attempts ps pg :
  (∀ c, c ∈ attempts → allowed P c) →
  Forall P (snd (candidateLoop oracle bridge failoverDeadline req attempts ps pg)).
Proof.
  revert ps pg. induction attempts as [|candidate rest IH]; intros ps pg Hall; cbn [candidateLoop];
    [constructor|].
  assert (Hc : allowed P candidate) by (apply Hall; by left).
  assert (Hrest : ∀ ps pg, Forall P (snd (candidateLoop oracle bridge failoverDeadline req rest ps pg))).
  { intros. apply IH. intros c ?. apply Hall. by right. }
  cbv zeta. destruct (negb (_ <? _)); [constructor|].
  assert (Hcont : ∀ ps pg pre, Forall P pre →
    Forall P (snd (let '(e, pg, more) := candidateLoop oracle bridge failoverDeadline req rest ps pg in
                   (e, pg, pre ++ more)))).
  { intros ps' pg' pre Hp. specialize (Hrest ps' pg').
    destruct (candidateLoop _ _ _ _ rest ps' pg') as [[e pg''] more]. by apply Forall_app. }
  assert (Hfailed : ∀ result pg' pre, Forall P pre →
    Forall P (snd
      match candidateFailed candidate result ps with
      | inl o => (PassReturn o, pg', pre ++ [ACooldown candidate result])
      | inr ps => let '(e, pg, more) := candidateLoop oracle bridge failoverDeadline req rest ps pg' in
                  (e, pg, (pre ++ [ACooldown candidate result]) ++ more)
      end)).
  { intros result pg' pre Hp. unfold candidateFailed.
    assert (Forall P (pre ++ [ACooldown candidate result])).
    { apply Forall_app. split; [done|]. constructor; [apply Hc|constructor]. }
    destruct (g_responseStarted result); [done|by apply Hcont]. }
  assert (Hbridged : ∀ r, Forall P [ABridged candidate r]).
  { intros r. constructor; [apply Hc|constructor]. }
  destruct (route bridge req candidate) as [params| | |msg|attemptRequest];
    [apply Hcont; constructor| |apply Hcont; constructor|constructor|].
  - destruct (attemptOver _ _) as [[o actions]|] eqn:E; [|by apply Hfailed].
    apply attemptOver_Forall in E; [|done]. by apply Forall_app.
  - pose proof (forward_Forall (rq_Diagnostic attemptRequest) candidate
      (or_credentials oracle (pg_calls (tick pg))) Hc) as Hfw.
    destruct (forwardGatewayRequest _ _ _) as [result tries]. cbn [snd] in Hfw.
    destruct (attemptOver candidate result) as [[o actions]|] eqn:E.
    { apply attemptOver_Forall in E; [|done]. by apply Forall_app. }
    destruct (_ && _); [|by apply Hfailed].
    destruct (attemptOver candidate (or_bridged _ _)) as [[o actions]|] eqn:E'.
    { apply attemptOver_Forall in E'; [|done]. apply Forall_app. split; [done|]. by apply Forall_app. }
    apply Hfailed. by apply Forall_app.
Qed.

Lemma serveLoop_Forall fuel req attempts fallback retained pg :
  (∀ c, c ∈ attempts → allowed P c) →
  (∀ target plan c, fallback = Some (target, Some plan) → c ∈ plan → allowed P c) →
  (∀ wait, P (ASleep wait)) → (∀ model, P (AFallback model)) →
  Forall P (snd (serveLoop oracle bridge startedAt failoverDeadline fuel req attempts fallback retained pg)).
Proof.
  intros Hall Hfb Hsleep Hfall. revert req attempts fallback retained pg Hall Hfb.
  induction fuel as [|fuel IH]; intros req attempts fallback retained pg Hall Hfb; cbn [serveLoop];
    [constructor|].
  pose proof (candidateLoop_Forall req attempts (mkPass None retained false [] true) pg Hall) as Hpass.
  destruct (candidateLoop _ _ _ _ _ _ _) as [[e pg'] actions]. cbn [snd] in Hpass. cbv zeta.
  assert (Hengage : ∀ ps pg, Forall P (snd
    match fallback with
    | Some (target, Some attempts) =>
        let '(o, more) := serveLoop oracle bridge startedAt failoverDeadline fuel
          (rq_withModel req target) attempts None (ps_retained ps) pg in
        (o, actions ++ [AFallback target] ++ more)
    | _ => (Failed (finalFailure oracle bridge ps), actions)
    end)).
  { intros ps pg0. destruct fallback as [[target [plan|]]|]; [|done..].
    specialize (IH (rq_withModel req target) plan None (ps_retained ps) pg0).
    destruct (serveLoop _ _ _ _ fuel _ _ _ _ _) as [o more]. cbn [snd] in *.
    apply Forall_app. split; [done|]. constructor; [done|]. apply IH; [by eauto|done]. }
  destruct e as [ps|ps|o]; [|done..].
  destruct (ps_lastFailure ps) as [last|]; [|destruct (_ || _); [apply Hengage|done]].
  destruct (negb (ps_waitable ps)); [apply Hengage|]. destruct (_ <? _); [apply Hengage|].
  destruct (_ <? _); [apply Hengage|]. destruct (or_sleep _ _).
  - specialize (IH req attempts fallback (ps_retained ps)
      (mkProgress (S (S (pg_clock pg'))) (pg_calls pg') (S (pg_waits pg')))).
    destruct (serveLoop _ _ _ _ fuel _ _ _ _ _) as [o more]. cbn [snd] in *.
    apply Forall_app. split; [done|]. constructor; [done|]. by apply IH.
  - apply Forall_app. split; [done|]. by repeat constructor.
Qed.
End every_action.

(** ** Pauses *)

Section pauses.
Context {request protocol : Type} `{!Adapters request protocol}.
Variables (oracle : Oracle) (bridge : bool) (startedAt failoverDeadline : Z).

(** A pause is what the last failure asks for, and two readings of the clock found it
    to end before the deadlines. *)
Definition pause_ok (wait : Z) : Prop :=
  ∃ n m r, wait = upstreamRateLimitWaitDuration (or_jitter oracle m) r
    ∧ or_clock oracle n + wait ≤ startedAt + upstreamRateLimitMaxWait
    ∧ or_clock oracle (S n) + wait ≤ failoverDeadline.

Lemma candidateLoop_no_sleep req attempts ps pg wait :
  ASleep wait ∉ snd (candidateLoop oracle bridge failoverDeadline req attempts ps pg).
Proof.
  intros Hin. assert (Hall : Forall (λ a, a ≠ ASleep wait)
    (snd (candidateLoop oracle bridge failoverDeadline req attempts ps pg))).
  { apply candidateLoop_Forall. intros c _. by split_and!. }
  rewrite list.Forall_forall in Hall. by apply (Hall _ Hin).
Qed.

Lemma serveLoop_pauses fuel req attempts fallback retained pg wait :
  ASleep wait ∈ snd (serveLoop oracle bridge startedAt failoverDeadline fuel req attempts fallback
                       retained pg) → pause_ok wait.
Proof.
  revert req attempts fallback retained pg.
  induction fuel as [|fuel IH]; intros req attempts fallback retained pg; cbn [serveLoop].
  { intros H. by apply not_elem_of_nil in H. }
  pose proof (candidateLoop_no_sleep req attempts (mkPass None retained false [] true) pg wait) as Hpass.
  destruct (candidateLoop _ _ _ _ _ _ _) as [[e pg'] actions]. cbn [snd] in Hpass. cbv zeta.
  assert (Hengage : ∀ ps pg,
    ASleep wait ∈ snd match fallback with
    | Some (target, Some attempts) =>
        let '(o, more) := serveLoop oracle bridge startedAt failoverDeadline fuel
          (rq_withModel req target) attempts None (ps_retained ps) pg in
        (o, actions ++ [AFallback target] ++ more)
    | _ => (Failed (finalFailure oracle bridge ps), actions)
    end → pause_ok wait).
  { intros ps pg0. destruct fallback as [[target [attempts'|]]|]; cbn [snd]; [|done..].
    specialize (IH (rq_withModel req target) attempts' None (ps_retained ps) pg0).
    destruct (serveLoop _ _ _ _ fuel _ _ _ _ _) as [o more]. cbn [snd] in *.
    intros [?|[?%list_elem_of_singleton|?]%elem_of_app]%elem_of_app; [done|done|by apply IH]. }
  destruct e as [ps|ps|o]; [|done..].
  destruct (ps_lastFailure ps) as [last|]; [|destruct (_ || _); [apply Hengage|done]].
  destruct (negb (ps_waitable ps)); [apply Hengage|].
  destruct (_ <? _) eqn:E1; [apply Hengage|]. destruct (failoverDeadline <? _) eqn:E2; [apply Hengage|].
  bool_to_prop.
  assert (Hpause : pause_ok (upstreamRateLimitWaitDuration (or_jitter oracle (pg_waits pg')) last)).
  { by exists (pg_clock pg'), (pg_waits pg'), last. }
  destruct (or_sleep _ _).
  - specialize (IH req attempts fallback (ps_retained ps)
      (mkProgress (S (S (pg_clock pg'))) (pg_calls pg') (S (pg_waits pg')))).
    destruct (serveLoop _ _ _ _ fuel _ _ _ _ _) as [o more]. cbn [snd] in *.
    intros [?|[[= ->]%list_elem_of_singleton|?]%elem_of_app]%elem_of_app; [done|done|by apply IH].
  - cbn [snd]. intros [?|[= ->]%list_elem_of_singleton]%elem_of_app; done.
Qed.
End pauses.

(** the request only pauses for a rate limit when the pause would end within a
    minute of the request's start and before the failover deadline. *)
Theorem pauses_end_in_time {request protocol : Type} `{!Adapters request protocol}
    (oracle : Oracle) (bridge : bool) (startedAt : Z) (fuel : nat) (req : request)
    (attempts : list Candidate) (fallback : option (string * option (list Candidate))) (wait : Z)
    (Hwait : ASleep wait ∈ snd (serve oracle bridge startedAt fuel req attempts fallback)) :
  ∃ n, or_clock oracle n + wait ≤ startedAt + 60 * Second
    ∧ or_clock oracle (S n) + wait
      ≤ startedAt + gatewayFailoverBudget (rq_Stream req) (rq_DownstreamPath req).
Proof.
  apply serveLoop_pauses in Hwait as (n & m & r & _ & H1 & H2). by exists n.
Qed.

(** ** Concrete runs *)

(** Adapters that accept every request; a request is whether it streams. *)
#[local] Instance plainAdapters : Adapters bool unit := {
  rq_Stream := id;
  rq_Diagnostic := λ _, false;
  rq_DownstreamPath := λ _, "/v1/chat/completions";
  rq_withModel := λ req _, req;
  grokIncompatibleRequestParams := λ _, [];
  resolveProtocol := λ _ _, Ok tt;
  protocolIncompatibleParams := λ _ _, [];
  candidateRequiresImageBridge := λ _ _, false;
  requestForCodexImagePolicy := λ req _, Some req
}.

(** Every credential meets a 429 that asks for [retryAfter] seconds; the clock moves
    a second per reading from [start] on and is past every deadline after [n]. *)
Definition limitedOracle (start : Z) (n : nat) (retryAfter : Z) : Oracle :=
  mkOracle (λ k, if (k <? n)%nat then start + Z.of_nat k * Second else start + 1000 * Second)
    (λ _, Ok [mkTurn 3%N "" (StepResponse (exampleFailure 429 429 retryAfter "upstream_http_error"))])
    (λ _, emptyResult) (λ _, 0) (λ _, true) false.

Lemma serve_ends_witness :
  fst (serve (limitedOracle 0 4 1) false 0 5 false [exampleCandidate false] None) ≠ OutOfFuel.
Proof.
  apply (serve_ends _ _ _ 4); [|done|lia].
  intros n Hn. unfold limitedOracle. cbn [or_clock].
  rewrite (proj2 (Nat.ltb_ge n 4) Hn). vm_compute. discriminate.
Defined.

Lemma pauses_end_in_time_witness :
  ASleep Second ∈ snd (serve (limitedOracle 0 3 1) false 0 5 false [exampleCandidate false] None)
  ∧ ∃ n, or_clock (limitedOracle 0 3 1) n + Second ≤ 0 + 60 * Second
    ∧ or_clock (limitedOracle 0 3 1) (S n) + Second ≤ 0 + 300 * Second.
Proof.
  assert (H : ASleep Second
    ∈ snd (serve (limitedOracle 0 3 1) false 0 5 false [exampleCandidate false] None)).
  { vm_compute. right. right. left. }
  split; [exact H|]. exact (pauses_end_in_time _ _ _ _ _ _ _ _ H).
Defined.

(** [Retry-After: 9223372037] defeats the minute: 61 s after the request began the
    loop still goes on, its pauses last less than nothing, and the upstream that asked
    to be left alone is asked again at once until the failover deadline. *)
Theorem huge_retry_after_is_retried_at_once :
  let '(o, actions) :=
    serve (limitedOracle (61 * Second) 9 9223372037) false 0 20 false [exampleCandidate false] None in
  length (List.filter is_try actions) = 3%nat
  ∧ omap (λ a, match a with ASleep wait => Some (wait <? 0) | _ => None end) actions
    = [true; true; true].
Proof. vm_compute. by split. Qed.
