(* ===== verification/RequestCooldowns.v ===== *)
(** * What one request leaves in the table of cooldowns

    [Failover.serve] lists what a request does; here those of its actions that write
    cooldowns ([cooldownAfterFailure] and [clearCooldownAfterRecovery], called from
    [gateway/execution.go] and [gateway/handler_chat.go]) are carried out on the table of
    [RouteCooldowns], so that the loop, the choice of a failure's cooldown and the table
    are seen working together. *)

From S2P Require Import Prelude StableSort GoFloat RouteCooldowns Catalog Json Router Cooldown Failover.

(** ** Carrying the actions out *)

(** What one action meets: the database and the clock of a failure, or those of a
    recovery. *)
Record StepEnv := mkStepEnv {
  se_failure : FailureEnv;
  se_clearNow : Z;
  se_clearFails : bool
}.

Section effects.
Context (marshal : gmap string any → string).

Definition action_cooldowns (env : StepEnv) (a : action) (table : list RouteCooldown)
    : list RouteCooldown :=
  match a with
  | ACooldown candidate result =>
      fst (cooldownAfterFailure marshal (se_failure env) candidate result table)
  | AClear candidate =>
      fst (clearCooldownAfterRecovery (se_clearNow env) (se_clearFails env) candidate table)
  | ATry _ _ | ABridged _ _ | ASettle _ | AFallback _ | ASleep _ => table
  end.

(** The actions in their order, the n-th in the n-th environment; [others] is what the
    rest of the gateway did to the table just before. *)
Fixpoint run_cooldowns (envs : nat → StepEnv) (others : nat → list RouteCooldown → list RouteCooldown)
    (n : nat) (actions : list action) (table : list RouteCooldown) : list RouteCooldown :=
  match actions with
  | [] => table
  | a :: rest =>
      run_cooldowns envs others (S n) rest (action_cooldowns (envs n) a (others n table))
  end.

(** ** Lemmas *)

(** [t] is cooling at [now]. *)
Definition cooling (now : Z) (t : target) (table : list RouteCooldown) : Prop :=
  is_Some (index_lookup (indexCooldowns (ListActive now table)) t).

(** The action is about a candidate other than [t]. *)
Definition spares (t : target) (a : action) : Prop :=
  match a with
  | ACooldown c _ | AClear c => cm_SiteModelID (cd_Model c) ≠ uuid_Nil ∧ other_target c t
  | _ => True
  end.

Lemma action_cooldowns_spares env a now t table :
  spares t a → cooling now t (action_cooldowns env a table) ↔ cooling now t table.
Proof.
  destruct a; cbn [spares action_cooldowns]; try done; intros [? ?];
    [by apply cooldownAfterFailure_other|by apply clearCooldownAfterRecovery_other].
Qed.

Lemma run_cooldowns_spares envs others n actions now t table :
  (∀ n table, cooling now t (others n table) ↔ cooling now t table) →
  Forall (spares t) actions →
  cooling now t (run_cooldowns envs others n actions table) ↔ cooling now t table.
Proof.
  intros Hothers Hall. revert n table. induction Hall as [|a rest Ha _ IH]; intros n table; [done|].
  cbn [run_cooldowns]. by rewrite IH, action_cooldowns_spares, Hothers by done.
Qed.

Lemma spares_allowed t candidate :
  cm_SiteModelID (cd_Model candidate) ≠ uuid_Nil → other_target candidate t →
  allowed (spares t) candidate.
Proof. intros. by split_and!. Qed.
End effects.

(** The candidates a request may be sent to. *)
Definition attemptable (attempts : list Candidate)
    (fallback : option (string * option (list Candidate))) : list Candidate :=
  attempts ++ match fallback with Some (_, Some plan) => plan | _ => [] end.

(** However a request goes (every upstream failing, fallback included, the client
    gone), it never starts or ends the cooldown of a whole site or of a model that was
    not among its candidates: what cools there is what cooled before, but for what
    others did meanwhile. *)
Theorem request_cools_only_its_candidates {request protocol : Type} `{!Adapters request protocol}
    (marshal : gmap string any → string) (oracle : Oracle) (bridge : bool) (startedAt : Z)
    (fuel : nat) (req : request) (attempts : list Candidate)
    (fallback : option (string * option (list Candidate))) (envs : nat → StepEnv)
    (others : nat → list RouteCooldown → list RouteCooldown) (table : list RouteCooldown)
    (now : Z) (t : target)
    (Hids : ∀ c, c ∈ attemptable attempts fallback → cm_SiteModelID (cd_Model c) ≠ uuid_Nil)
    (Hforeign : ∀ c, c ∈ attemptable attempts fallback → other_target c t)
    (Hothers : ∀ n table, cooling now t (others n table) ↔ cooling now t table) :
  cooling now t (run_cooldowns marshal envs others 0
    (snd (serve oracle bridge startedAt fuel req attempts fallback)) table)
  ↔ cooling now t table.
Proof.
  apply run_cooldowns_spares; [done|]. apply serveLoop_Forall; try done.
  - intros c Hc. apply spares_allowed; [apply Hids|apply Hforeign]; apply elem_of_app; by left.
  - intros target plan c -> Hc.
    apply spares_allowed; [apply Hids|apply Hforeign]; apply elem_of_app; by right.
Qed.

(** ** A concrete run *)

#[local] Instance acceptingAdapters : Adapters unit unit := {
  rq_Stream := λ _, false;
  rq_Diagnostic := λ _, false;
  rq_DownstreamPath := λ _, "/v1/chat/completions";
  rq_withModel := λ req _, req;
  grokIncompatibleRequestParams := λ _, [];
  resolveProtocol := λ _ _, Ok tt;
  protocolIncompatibleParams := λ _ _, [];
  candidateRequiresImageBridge := λ _ _, false;
  requestForCodexImagePolicy := λ req _, Some req
}.

(** An upstream that answers 500. *)
Definition brokenOracle : Oracle :=
  mkOracle (λ k, Z.of_nat k * Second)
    (λ _, Ok [mkTurn 3%N "" (StepResponse (exampleFailure 500 500 0 "upstream_http_error"))])
    (λ _, emptyResult) (λ _, 0) (λ _, true) false.

(** The run does write a cooldown: the model's; the site is left in the routes. *)
Lemma request_cools_only_its_candidates_witness :
  let after := run_cooldowns (λ _, "{}") (λ n, mkStepEnv (exampleEnv Second) Second false) (λ _, id) 0
    (snd (serve brokenOracle false 0 5 tt [exampleCandidate false] None)) [] in
  cooling Second (TTransient 2%N) after
  ∧ (cooling Second (TSite 1%N) after ↔ cooling Second (TSite 1%N) []).
Proof.
  split.
  - vm_compute. by eexists.
  - apply (request_cools_only_its_candidates (λ _, "{}") brokenOracle false 0 5 tt
      [exampleCandidate false] None); [|by intros c ->%list_elem_of_singleton|done].
    by intros c ->%list_elem_of_singleton.
Defined.
