(* ===== verification/Concurrency.v ===== *)
(** * Concurrency limits of upstreams

    [gateway/concurrency.go]: a buffered channel per site, model or credential, in a
    cache that forgets idle ones.  A channel is its capacity and its length; the
    critical section of [Acquire] and its [select] are two steps, since other calls
    may run between them. *)

From S2P Require Import Prelude SiteConfig Router Cooldown Failover.

Definition concurrencySweepInterval : Z := Minute.
Definition concurrencyIdleTTL : Z := 10 * Minute.

Inductive concurrencyScope := ScopeSite | ScopeModel | ScopeCredential.

Definition scope_string (scope : concurrencyScope) : string :=
  match scope with
  | ScopeSite => "site" | ScopeModel => "site_model" | ScopeCredential => "credential"
  end.

Record concurrencyLimiter := mkLimiter {
  li_ch : nat;       (* the channel, by its number *)
  li_limit : Z;
  li_lastUsed : Z
}.

(** [upstreamConcurrencyCache], with the channels ever made: capacity and length. *)
Record upstreamConcurrencyCache := mkCache {
  uc_limiters : gmap string concurrencyLimiter;
  uc_lastSweep : Z;
  uc_channels : list (Z * Z)
}.

Definition newUpstreamConcurrencyCache : upstreamConcurrencyCache := mkCache ∅ 0 [].

Section keys.
Context `{UuidString}.

Definition limiterKey (scope : concurrencyScope) (id : uuid) : string :=
  (scope_string scope ++ ":" ++ uuid_String id)%string.
End keys.

Definition chan_len (c : upstreamConcurrencyCache) (ch : nat) : Z :=
  match uc_channels c !! ch with Some (_, n) => n | None => 0 end.

Definition evictIdleLocked (now : Z) (c : upstreamConcurrencyCache) : upstreamConcurrencyCache :=
  mkCache
    (filter (λ kv, negb ((chan_len c (li_ch kv.2) =? 0)
                         && (concurrencyIdleTTL <? time_sub now (li_lastUsed kv.2)))) (uc_limiters c))
    (uc_lastSweep c) (uc_channels c).

Definition limiterScopeError (scope : concurrencyScope) : slotError :=
  match scope with
  | ScopeModel => SlotModel | ScopeCredential => SlotCredential | ScopeSite => SlotSite
  end.

(** The critical section of [Acquire]: the channel to use. *)
Definition acquireLocked (now : Z) (key : string) (limit : Z) (c : upstreamConcurrencyCache)
    : nat * upstreamConcurrencyCache :=
  let c := if concurrencySweepInterval <=? time_sub now (uc_lastSweep c)
           then let c := evictIdleLocked now c in mkCache (uc_limiters c) now (uc_channels c)
           else c in
  let fresh := length (uc_channels c) in
  let rebuilt := (fresh, mkCache (<[key := mkLimiter fresh limit now]> (uc_limiters c))
                           (uc_lastSweep c) (uc_channels c ++ [(limit, 0)])) in
  match uc_limiters c !! key with
  | Some entry =>
      if li_limit entry =? limit
      then (li_ch entry, mkCache (<[key := mkLimiter (li_ch entry) limit now]> (uc_limiters c))
                           (uc_lastSweep c) (uc_channels c))
      else rebuilt
  | None => rebuilt
  end.

Definition set_channels (chs : list (Z * Z)) (c : upstreamConcurrencyCache)
    : upstreamConcurrencyCache := mkCache (uc_limiters c) (uc_lastSweep c) chs.

(** The state of the request's context. *)
Inductive contextState := CtxLive | CtxCanceled | CtxDeadline.

Definition ctx_error (ctx : contextState) : option slotError :=
  match ctx with
  | CtxLive => None | CtxCanceled => Some SlotCanceled | CtxDeadline => Some SlotTimeout
  end.

(** The [select]: when the context is done and the channel has room, Go picks either;
    [pickSend] is that choice.  [None] is success. *)
Definition select_send (ctx : contextState) (pickSend : bool) (scope : concurrencyScope) (ch : nat)
    (c : upstreamConcurrencyCache) : option slotError * upstreamConcurrencyCache :=
  let send :=
    match uc_channels c !! ch with
    | Some (cap, n) =>
        if n <? cap then Some (set_channels (<[ch := (cap, n + 1)]> (uc_channels c)) c) else None
    | None => None
    end in
  match ctx_error ctx, send with
  | Some err, Some c' => if pickSend then (None, c') else (Some err, c)
  | Some err, None => (Some err, c)
  | None, Some c' => (None, c')
  | None, None => (Some (limiterScopeError scope), c)
  end.

(** The function [Acquire] returns: takes one token out, if there is one. *)
Definition release (ch : nat) (c : upstreamConcurrencyCache) : upstreamConcurrencyCache :=
  match uc_channels c !! ch with
  | Some (cap, n) => if 0 <? n then set_channels (<[ch := (cap, n - 1)]> (uc_channels c)) c else c
  | None => c
  end.

(** [Acquire] without another call in between; [inl None] releases nothing. *)
Definition Acquire (now : Z) (ctx : contextState) (pickSend : bool) (scope : concurrencyScope)
    (key : string) (limit : Z) (c : upstreamConcurrencyCache)
    : (option nat + slotError) * upstreamConcurrencyCache :=
  if limit <=? 0 then (inl None, c)
  else
    let '(ch, c) := acquireLocked now key limit c in
    match select_send ctx pickSend scope ch c with
    | (None, c) => (inl (Some ch), c)
    | (Some err, c) => (inr err, c)
    end.

Definition releaseAll (held : list nat) (c : upstreamConcurrencyCache) : upstreamConcurrencyCache :=
  fold_right release c held.

(** The closure [acquire]: [held] are the releases so far, oldest first. *)
Definition acquireOne `{UuidString} (now : Z) (ctx : contextState) (pickSend : bool)
    (scope : concurrencyScope) (id : uuid) (limit : option Z) (held : list nat)
    (c : upstreamConcurrencyCache) : (list nat + slotError) * upstreamConcurrencyCache :=
  match limit with
  | None => (inl held, c)
  | Some limit =>
      if (limit <=? 0) || bool_decide (id = uuid_Nil) then (inl held, c)
      else match Acquire now ctx pickSend scope (limiterKey scope id) limit c with
           | (inr err, c) => (inr err, releaseAll held c)
           | (inl None, c) => (inl held, c)
           | (inl (Some ch), c) => (inl (held ++ [ch]), c)
           end
  end.

(** [now], [ctx] and [pickSend] at each of the three calls. *)
Definition acquireUpstreamConcurrency `{UuidString} (at_ : nat → Z * contextState * bool)
    (candidate : Candidate) (credentialID : uuid) (cfg : option GatewayConfig)
    (c : upstreamConcurrencyCache) : (list nat + slotError) * upstreamConcurrencyCache :=
  match cfg with
  | None => (inl [], c)
  | Some cfg =>
      let call n := acquireOne (fst (fst (at_ n))) (snd (fst (at_ n))) (snd (at_ n)) in
      match call 0%nat ScopeSite (cs_ID (cd_Site candidate)) (MaxConcurrency cfg) [] c with
      | (inr err, c) => (inr err, c)
      | (inl held, c) =>
          match call 1%nat ScopeModel (cm_SiteModelID (cd_Model candidate)) (MaxModelConcurrency cfg)
                  held c with
          | (inr err, c) => (inr err, c)
          | (inl held, c) =>
              call 2%nat ScopeCredential credentialID (MaxCredentialConcurrency cfg) held c
          end
      end
  end.

(** ** Calls that run at once *)

(** A call between its two steps, and a call that holds a token. *)
Record waitingCall := mkWaiting { wc_key : string; wc_ch : nat; wc_time : Z }.

Record World := mkWorld {
  wd_cache : upstreamConcurrencyCache;
  wd_time : Z;                              (* the last reading of the clock *)
  wd_waiting : gmap nat waitingCall;
  wd_holding : gmap nat (string * nat)
}.

Inductive event :=
| EvLock (call : nat) (key : string) (limit now : Z)
| EvSelect (call : nat) (scope : concurrencyScope) (ctx : contextState) (pickSend : bool)
| EvRelease (call : nat).

Definition step (w : World) (ev : event) : World :=
  match ev with
  | EvLock call key limit now =>
      if limit <=? 0 then w
      else
        let '(ch, c) := acquireLocked now key limit (wd_cache w) in
        mkWorld c now (<[call := mkWaiting key ch now]> (wd_waiting w)) (wd_holding w)
  | EvSelect call scope ctx pickSend =>
      match wd_waiting w !! call with
      | None => w
      | Some p =>
          match select_send ctx pickSend scope (wc_ch p) (wd_cache w) with
          | (None, c) => mkWorld c (wd_time w) (delete call (wd_waiting w))
                           (<[call := (wc_key p, wc_ch p)]> (wd_holding w))
          | (Some _, c) => mkWorld c (wd_time w) (delete call (wd_waiting w)) (wd_holding w)
          end
      end
  | EvRelease call =>
      match wd_holding w !! call with
      | None => w
      | Some (_, ch) => mkWorld (release ch (wd_cache w)) (wd_time w) (wd_waiting w)
                          (delete call (wd_holding w))
      end
  end.

(** What may happen next: a call has one number; the clock does not go back; and no
    call spends ten minutes between its two steps. *)
Definition schedulable (w : World) (ev : event) : Prop :=
  match ev with
  | EvLock call _ _ now =>
      wd_waiting w !! call = None ∧ wd_holding w !! call = None ∧ wd_time w ≤ now
      ∧ map_Forall (λ _ p, now - wc_time p ≤ concurrencyIdleTTL) (wd_waiting w)
  | _ => True
  end.

Fixpoint run (w : World) (evs : list event) : World :=
  match evs with [] => w | ev :: evs => run (step w ev) evs end.

Fixpoint schedule (w : World) (evs : list event) : Prop :=
  match evs with [] => True | ev :: evs => schedulable w ev ∧ schedule (step w ev) evs end.

(** Every call for [key] comes with the same limit. *)
Definition steady (key : string) (limit : Z) (ev : event) : Prop :=
  match ev with EvLock _ k l _ => k = key → l = limit | _ => True end.

(** The calls for [key] that are with the upstream now, and those that hold a token
    of a channel. *)
Definition in_flight (key : string) (w : World) : Z :=
  map_sum (λ h : string * nat, if bool_decide (h.1 = key) then 1 else 0) (wd_holding w).

Definition holders (ch : nat) (holding : gmap nat (string * nat)) : Z :=
  map_sum (λ h : string * nat, if bool_decide (h.2 = ch) then 1 else 0) holding.

(** ** The invariant *)

Record chans_ok (c : upstreamConcurrencyCache) (holding : gmap nat (string * nat)) : Prop := {
  co_len : ∀ ch cap n, uc_channels c !! ch = Some (cap, n) → n = holders ch holding ∧ n ≤ cap;
  co_known : ∀ k h, holding !! k = Some h → (h.2 < length (uc_channels c))%nat;
  co_cap : ∀ k l, uc_limiters c !! k = Some l → ∃ n, uc_channels c !! li_ch l = Some (li_limit l, n)
}.

Record key_ok (key : string) (limit : Z) (w : World) : Prop := {
  ko_limit : ∀ l, uc_limiters (wd_cache w) !! key = Some l → li_limit l = limit;
  ko_holding : ∀ k h, wd_holding w !! k = Some h → h.1 = key →
    ∃ l, uc_limiters (wd_cache w) !! key = Some l ∧ li_ch l = h.2;
  ko_waiting : ∀ k p, wd_waiting w !! k = Some p → wc_key p = key →
    ∃ l, uc_limiters (wd_cache w) !! key = Some l ∧ li_ch l = wc_ch p
         ∧ wc_time p ≤ li_lastUsed l
}.

Record world_ok (key : string) (limit : Z) (w : World) : Prop := {
  wo_chans : chans_ok (wd_cache w) (wd_holding w);
  wo_key : key_ok key limit w;
  wo_waiting : ∀ k p, wd_waiting w !! k = Some p →
    (wc_ch p < length (uc_channels (wd_cache w)))%nat ∧ wc_time p ≤ wd_time w
    ∧ wd_holding w !! k = None
}.

Lemma holders_insert ch k h holding :
  holding !! k = None →
  holders ch (<[k:=h]> holding) = (if bool_decide (h.2 = ch) then 1 else 0) + holders ch holding.
Proof. apply map_sum_insert. Qed.

Lemma holders_delete ch k h holding :
  holding !! k = Some h →
  holders ch (delete k holding) = holders ch holding - (if bool_decide (h.2 = ch) then 1 else 0).
Proof. intros Hk. unfold holders. rewrite (map_sum_delete _ holding k h Hk). lia. Qed.

Lemma holders_nonneg ch holding : 0 ≤ holders ch holding.
Proof. apply map_sum_nonneg. intros k x _. by case_bool_decide. Qed.

Lemma holders_pos k h holding : holding !! k = Some h → 1 ≤ holders h.2 holding.
Proof.
  intros Hk. rewrite <- (insert_delete_id holding k h Hk), holders_insert by apply lookup_delete_eq.
  rewrite bool_decide_eq_true_2 by done. pose proof (holders_nonneg h.2 (delete k holding)). lia.
Qed.

Lemma holders_fresh ch holding :
  (∀ k h, holding !! k = Some h → (h.2 < ch)%nat) → holders ch holding = 0.
Proof.
  intros Hlt. unfold holders. rewrite (map_sum_ext _ (λ _, 0)).
  - induction holding as [|k x m Hk IH] using map_ind; [apply map_sum_empty|].
    rewrite map_sum_insert by done. rewrite IH; [done|]. intros j h Hj. apply (Hlt j).
    rewrite lookup_insert_ne; [done|]. intros ->. congruence.
  - intros k x Hx. specialize (Hlt k x Hx). case_bool_decide; [lia|done].
Qed.

Lemma in_flight_bound key limit w :
  0 ≤ limit → world_ok key limit w → in_flight key w ≤ limit.
Proof.
  intros Hl [Hc Hk _]. destruct (uc_limiters (wd_cache w) !! key) as [l|] eqn:El.
  - destruct (co_cap _ _ Hc _ _ El) as [n En]. destruct (co_len _ _ Hc _ _ _ En) as [-> Hn].
    rewrite (ko_limit _ _ _ Hk l El) in Hn. etrans; [|exact Hn]. unfold in_flight, holders.
    apply map_sum_le. intros k h Hh. case_bool_decide as E1; case_bool_decide as E2; try lia.
    destruct (ko_holding _ _ _ Hk k h Hh E1) as (l' & Hl' & Hch). congruence.
  - etrans; [|exact Hl]. unfold in_flight.
    rewrite (map_sum_ext _ (λ _, 0)); [|intros k h Hh; case_bool_decide as E1; [|done]].
    + clear. induction (wd_holding w) as [|k x m Hk IH] using map_ind; [by rewrite map_sum_empty|].
      rewrite map_sum_insert by done. lia.
    + destruct (ko_holding _ _ _ Hk k h Hh E1) as (l' & Hl' & _). congruence.
Qed.

(** *** The critical section *)

Lemma evict_lookup now c key l :
  uc_limiters (evictIdleLocked now c) !! key = Some l ↔
  uc_limiters c !! key = Some l
  ∧ ¬ (chan_len c (li_ch l) = 0 ∧ concurrencyIdleTTL < time_sub now (li_lastUsed l)).
Proof.
  unfold evictIdleLocked. cbn [uc_limiters]. rewrite map_lookup_filter_Some. cbn [snd].
  rewrite Is_true_true, negb_true_iff, andb_false_iff, Z.eqb_neq, Z.ltb_ge.
  split; intros [? ?]; (split; [done|]); lia.
Qed.

Lemma sweep_ok now c holding :
  chans_ok c holding → chans_ok (evictIdleLocked now c) holding.
Proof.
  intros [H1 H2 H3]. split; [done|done|]. intros k l [Hl _]%evict_lookup. by apply H3 in Hl.
Qed.

(** The entry of a key in use outlives a sweep. *)
Lemma sweep_keeps now key limit w :
  world_ok key limit w →
  map_Forall (λ _ p, now - wc_time p ≤ concurrencyIdleTTL) (wd_waiting w) →
  world_ok key limit (mkWorld (evictIdleLocked now (wd_cache w)) (wd_time w) (wd_waiting w) (wd_holding w)).
Proof.
  intros [Hc Hk Hw] Hprompt. split; [by apply sweep_ok| |done].
  destruct Hk as [H1 H2 H3]. split; cbn [wd_cache wd_holding wd_waiting].
  - intros l [Hl _]%evict_lookup. by apply H1.
  - intros k h Hh Hkey. destruct (H2 k h Hh Hkey) as (l & Hl & Hch). exists l. split; [|done].
    apply evict_lookup. split; [done|]. intros [Hlen _].
    destruct (co_cap _ _ Hc _ _ Hl) as [n En]. unfold chan_len in Hlen. rewrite En in Hlen.
    destruct (co_len _ _ Hc _ _ _ En) as [Hn _]. rewrite Hlen, Hch in Hn.
    pose proof (holders_pos _ _ _ Hh). lia.
  - intros k p Hp Hkey. destruct (H3 k p Hp Hkey) as (l & Hl & Hch & Ht). exists l.
    split; [|done]. apply evict_lookup. split; [done|]. intros [_ Hidle].
    specialize (Hprompt k p Hp). cbn in Hprompt. unfold time_sub, concurrencyIdleTTL, min_int64, max_int64, Minute in *.
    lia.
Qed.

Lemma set_sweep_ok key limit now w :
  world_ok key limit w →
  world_ok key limit (mkWorld (mkCache (uc_limiters (wd_cache w)) now (uc_channels (wd_cache w)))
                        (wd_time w) (wd_waiting w) (wd_holding w)).
Proof. intros [[] [] Hw]. by split. Qed.

Lemma use_entry_ok key limit w call k l now :
  world_ok key limit w → wd_time w ≤ now → wd_holding w !! call = None →
  uc_limiters (wd_cache w) !! k = Some l →
  world_ok key limit
    (mkWorld (mkCache (<[k := mkLimiter (li_ch l) (li_limit l) now]> (uc_limiters (wd_cache w)))
                (uc_lastSweep (wd_cache w)) (uc_channels (wd_cache w)))
       now (<[call := mkWaiting k (li_ch l) now]> (wd_waiting w)) (wd_holding w)).
Proof.
  intros [Hc Hk Hw] Htime Hcall Hl. destruct Hc as [C1 C2 C3], Hk as [K1 K2 K3].
  destruct (C3 k l Hl) as [n En]. apply lookup_lt_Some in En as Hlt.
  split; [split|split|]; cbn [wd_cache uc_channels uc_limiters wd_holding wd_waiting wd_time]; try done.
  - intros k' l'. rewrite lookup_insert_Some. intros [[<- <-]|[_ Hl']]; [by exists n|by apply C3 in Hl'].
  - intros l'. rewrite lookup_insert_Some. intros [[-> <-]|[_ Hl']]; [by apply (K1 l)|by apply K1].
  - intros k' h Hh Hkey. destruct (K2 k' h Hh Hkey) as (l' & Hl' & Hch).
    destruct (decide (k = key)) as [->|Hne].
    + eexists. split; [apply lookup_insert_eq|]. simpl. congruence.
    + exists l'. by rewrite lookup_insert_ne.
  - intros k' p. rewrite lookup_insert_Some. intros [[<- <-]|[_ Hp]] Hkey.
    + simpl in Hkey. subst k. eexists. split; [apply lookup_insert_eq|]. simpl. split; [done|lia].
    + destruct (K3 k' p Hp Hkey) as (l' & Hl' & Hch & Ht). destruct (decide (k = key)) as [->|Hne].
      * eexists. split; [apply lookup_insert_eq|]. simpl. simplify_eq. split; [done|].
        destruct (Hw k' p Hp) as (_ & ? & _). lia.
      * exists l'. by rewrite lookup_insert_ne.
  - intros k' p. rewrite lookup_insert_Some. intros [[<- <-]|[_ Hp]].
    + by split_and!.
    + destruct (Hw k' p Hp) as (? & ? & ?). split_and!; [done|lia|done].
Qed.

Lemma rebuild_ok key limit w call k lim now :
  world_ok key limit w → wd_time w ≤ now → wd_holding w !! call = None → 0 < lim →
  (k = key → lim = limit ∧ uc_limiters (wd_cache w) !! k = None) →
  let fresh := length (uc_channels (wd_cache w)) in
  world_ok key limit
    (mkWorld (mkCache (<[k := mkLimiter fresh lim now]> (uc_limiters (wd_cache w)))
                (uc_lastSweep (wd_cache w)) (uc_channels (wd_cache w) ++ [(lim, 0)]))
       now (<[call := mkWaiting k fresh now]> (wd_waiting w)) (wd_holding w)).
Proof.
  intros [Hc Hk Hw] Htime Hcall Hlim Hkeyk fresh. destruct Hc as [C1 C2 C3], Hk as [K1 K2 K3].
  split; [split|split|]; cbn [wd_cache uc_channels uc_limiters wd_holding wd_waiting wd_time].
  - intros ch cap n. rewrite lookup_snoc_Some. intros [[_ Hch]|[Hch Hpair]]; [by apply C1|].
    injection Hpair as <- <-. split; [|lia]. symmetry. apply holders_fresh. intros k' h Hh.
    rewrite Hch. by apply C2 in Hh.
  - intros k' h Hh. rewrite length_app. apply C2 in Hh. simpl. lia.
  - intros k' l'. rewrite lookup_insert_Some. intros [[<- <-]|[_ Hl']].
    + exists 0. cbn [li_ch li_limit]. unfold fresh. rewrite lookup_app_r by lia. by rewrite Nat.sub_diag.
    + destruct (C3 _ _ Hl') as [n Hn]. exists n. rewrite lookup_app_l; [done|]. by eapply lookup_lt_Some.
  - intros l'. rewrite lookup_insert_Some. intros [[Hk <-]|[_ Hl']]; [by apply Hkeyk in Hk as [-> _]|by apply K1].
  - intros k' h Hh Hkey. destruct (K2 k' h Hh Hkey) as (l' & Hl' & Hch). exists l'.
    rewrite lookup_insert_ne; [done|]. intros Heq. destruct (Hkeyk Heq) as [_ Hnone]. congruence.
  - intros k' p. rewrite lookup_insert_Some. intros [[<- <-]|[_ Hp]] Hkey.
    + simpl in Hkey. subst k. eexists. split; [apply lookup_insert_eq|]. simpl. split; [done|lia].
    + destruct (K3 k' p Hp Hkey) as (l' & Hl' & Hrest). exists l'. rewrite lookup_insert_ne; [done|].
      intros Heq. destruct (Hkeyk Heq) as [_ Hnone]. congruence.
  - intros k' p. rewrite lookup_insert_Some, length_app. intros [[<- <-]|[_ Hp]].
    + simpl. split_and!; [lia|lia|done].
    + destruct (Hw k' p Hp) as (? & ? & ?). simpl. split_and!; [lia|lia|done].
Qed.

Lemma lock_ok key limit w call k lim now :
  world_ok key limit w → 0 < lim → (k = key → lim = limit) →
  schedulable w (EvLock call k lim now) →
  world_ok key limit (step w (EvLock call k lim now)).
Proof.
  intros Hok Hlim Hk (_ & Hcall & Htime & Hprompt). cbn [step].
  rewrite (proj2 (Z.leb_gt lim 0)) by done. unfold acquireLocked.
  set (c0 := if concurrencySweepInterval <=? _ then _ else _).
  assert (Hok0 : world_ok key limit (mkWorld c0 (wd_time w) (wd_waiting w) (wd_holding w))).
  { subst c0. destruct (_ <=? _); [|by destruct w].
    by apply (set_sweep_ok key limit now (mkWorld (evictIdleLocked now (wd_cache w)) (wd_time w)
                (wd_waiting w) (wd_holding w))), sweep_keeps. }
  clearbody c0. destruct (uc_limiters c0 !! k) as [l|] eqn:El.
  - destruct (li_limit l =? lim) eqn:Elim; bool_to_prop.
    + subst lim. by apply (use_entry_ok key limit _ call k l now Hok0).
    + apply (rebuild_ok key limit _ call k lim now Hok0); [done..|]. intros ->. exfalso.
      apply Elim. destruct (ko_limit _ _ _ (wo_key _ _ _ Hok0) l El). by rewrite Hk.
  - apply (rebuild_ok key limit _ call k lim now Hok0); [done..|]. intros ->. by rewrite Hk.
Qed.

(** *** Taking and giving back a token *)

Lemma select_send_sent ctx pickSend scope ch c c' :
  select_send ctx pickSend scope ch c = (None, c') →
  ∃ cap n, uc_channels c !! ch = Some (cap, n) ∧ n < cap
    ∧ c' = set_channels (<[ch := (cap, n + 1)]> (uc_channels c)) c.
Proof.
  unfold select_send. destruct (uc_channels c !! ch) as [[cap n]|];
    [destruct (n <? cap) eqn:E; bool_to_prop|];
    destruct ctx, pickSend; simpl; intros; simplify_eq; by exists cap, n.
Qed.

Lemma select_send_refused ctx pickSend scope ch c err c' :
  select_send ctx pickSend scope ch c = (Some err, c') → c' = c.
Proof.
  unfold select_send. destruct (uc_channels c !! ch) as [[cap n]|]; [destruct (n <? cap)|];
    destruct ctx, pickSend; simpl; intros; by simplify_eq.
Qed.

(** A channel whose length changes by [d] as its holders do. *)
Lemma set_channel_ok c holding holding' ch cap n d :
  chans_ok c holding → uc_channels c !! ch = Some (cap, n) → n + d ≤ cap →
  (∀ ch', holders ch' holding' = holders ch' holding + (if bool_decide (ch = ch') then d else 0)) →
  (∀ k h, holding' !! k = Some h → holding !! k = Some h ∨ h.2 = ch) →
  chans_ok (set_channels (<[ch := (cap, n + d)]> (uc_channels c)) c) holding'.
Proof.
  intros [C1 C2 C3] Hch Hcap Hholders Hsub.
  split; cbn [set_channels uc_channels uc_limiters].
  - intros ch' cap' n'. rewrite list_lookup_insert_Some, Hholders.
    intros [(<- & [= <- <-] & _)|[Hne Hl]].
    + rewrite bool_decide_eq_true_2 by done. destruct (C1 _ _ _ Hch). lia.
    + rewrite bool_decide_eq_false_2 by done. apply C1 in Hl. lia.
  - intros k h Hh. rewrite length_insert.
    destruct (Hsub k h Hh) as [Hold| ->]; [by apply C2 in Hold|by eapply lookup_lt_Some].
  - intros k l Hl. destruct (C3 k l Hl) as [m Hm]. destruct (decide (ch = li_ch l)) as [->|Hne].
    + exists (n + d). rewrite list_lookup_insert_eq by (by eapply lookup_lt_Some). congruence.
    + exists m. by rewrite list_lookup_insert_ne.
Qed.

Lemma key_ok_cache key limit w w' :
  key_ok key limit w →
  uc_limiters (wd_cache w') = uc_limiters (wd_cache w) →
  (∀ k p, wd_waiting w' !! k = Some p → wd_waiting w !! k = Some p) →
  (∀ k h, wd_holding w' !! k = Some h → wd_holding w !! k = Some h
     ∨ ∃ k' p, wd_waiting w !! k' = Some p ∧ h = (wc_key p, wc_ch p)) →
  key_ok key limit w'.
Proof.
  intros [K1 K2 K3] Hl Hw Hh. split; rewrite Hl; [done| |by eauto].
  intros k h Hk Hkey. destruct (Hh k h Hk) as [Hold|(k' & p & Hp & ->)]; [by eauto|].
  destruct (K3 k' p Hp Hkey) as (l & ? & ? & _). by exists l.
Qed.

Lemma step_ok key limit w ev :
  world_ok key limit w → steady key limit ev → schedulable w ev → world_ok key limit (step w ev).
Proof.
  intros Hok Hsteady Hsched. destruct ev as [call k lim now|call scope ctx pickSend|call].
  - destruct (Z.leb_spec lim 0) as [Hle|Hgt].
    + cbn [step]. by rewrite (proj2 (Z.leb_le lim 0)).
    + by apply lock_ok.
  - cbn [step]. destruct (wd_waiting w !! call) as [p|] eqn:Ep; [|done].
    destruct Hok as [Hc Hk Hw]. destruct (Hw call p Ep) as (Hlt & Ht & Hnone).
    destruct (select_send _ _ _ _ _) as [[err|] c] eqn:Es.
    + apply select_send_refused in Es as ->. split; [done| |].
      * apply (key_ok_cache _ _ w); [done|done|intros k q; cbn [wd_waiting wd_holding]; intros [_ ?]%lookup_delete_Some; done|by left].
      * intros k q; cbn [wd_waiting wd_holding]; intros [_ Hq]%lookup_delete_Some. by apply Hw.
    + apply select_send_sent in Es as (cap & n & Hch & Hn & ->). split.
      * apply (set_channel_ok _ (wd_holding w)); [done|done|lia| |].
        { intros ch'. cbn [wd_holding]. rewrite holders_insert by done. simpl. lia. }
        intros k h. cbn [wd_holding]. rewrite lookup_insert_Some. intros [[_ <-]|[_ ?]]; [by right|by left].
      * apply (key_ok_cache _ _ w); [done|done|intros k q; cbn [wd_waiting wd_holding]; intros [_ ?]%lookup_delete_Some; done|].
        intros k h. cbn [wd_holding]. rewrite lookup_insert_Some. intros [[_ <-]|[_ ?]]; [right|by left].
        by exists call, p.
      * intros k q; cbn [wd_waiting wd_holding]; intros [Hne Hq]%lookup_delete_Some. destruct (Hw k q Hq) as (? & ? & ?).
        cbn [wd_cache set_channels uc_channels wd_time wd_holding]. rewrite length_insert, lookup_insert_ne by done.
        by split_and!.
  - cbn [step]. destruct (wd_holding w !! call) as [[k ch]|] eqn:Eh; [|done].
    destruct Hok as [Hc Hk Hw].
    assert (∃ cap n, uc_channels (wd_cache w) !! ch = Some (cap, n)) as (cap & n & Hch).
    { apply (co_known _ _ Hc) in Eh. cbn [snd] in Eh. apply lookup_lt_is_Some_2 in Eh as [[cap n] E].
      by exists cap, n. }
    destruct (co_len _ _ Hc _ _ _ Hch) as [Hn Hle]. pose proof (holders_pos _ _ _ Eh) as Hpos.
    cbn [snd] in Hpos. unfold release. rewrite Hch, (proj2 (Z.ltb_lt 0 n)) by lia. split.
    + apply (set_channel_ok _ (wd_holding w) _ _ _ _ (-1)); [done|done|lia| |].
      * intros ch'. cbn [wd_holding]. rewrite (holders_delete _ _ _ _ Eh). cbn [snd].
        destruct (bool_decide (ch = ch')); lia.
      * intros k' h; cbn [wd_waiting wd_holding]; intros [_ ?]%lookup_delete_Some. by left.
    + apply (key_ok_cache _ _ w); [done|done|done|]. intros k' h; cbn [wd_waiting wd_holding]; intros [_ ?]%lookup_delete_Some. by left.
    + intros k' q Hq. destruct (Hw k' q Hq) as (? & ? & ?).
      cbn [wd_cache set_channels uc_channels wd_time wd_holding].
      rewrite length_insert. split_and!; [done|done|]. by apply lookup_delete_None; right.
Qed.

Definition emptyWorld : World := mkWorld newUpstreamConcurrencyCache 0 ∅ ∅.

Lemma emptyWorld_ok key limit : world_ok key limit emptyWorld.
Proof. split; [split|split|]; intros; set_solver. Qed.

Lemma run_ok key limit evs w :
  world_ok key limit w → Forall (steady key limit) evs → schedule w evs →
  world_ok key limit (run w evs).
Proof.
  revert w. induction evs as [|ev evs IH]; intros w Hok Hst Hsc; [done|].
  apply list.Forall_cons in Hst as [? ?]. destruct Hsc as [? ?].
  cbn [run]. apply IH; [by apply step_ok|done|done].
Qed.

(** C36: however calls interleave, and whatever idle limiters are swept meanwhile, the
    calls with the upstream for one site, model or credential never exceed its limit,
    as long as the limit is not changed. *)
Theorem concurrency_limit_holds (key : string) (limit : Z) (evs : list event)
    (Hlimit : 0 < limit) (Hsteady : Forall (steady key limit) evs)
    (Hschedule : schedule emptyWorld evs) :
  in_flight key (run emptyWorld evs) ≤ limit.
Proof. apply in_flight_bound; [lia|]. apply run_ok; [apply emptyWorld_ok|done|done]. Qed.

(** ** All or nothing *)

Definition taken (ch : nat) (held : list nat) : Z :=
  Z.of_nat (length (List.filter (λ x, bool_decide (x = ch)) held)).

(** The tokens in [c] are those of [c0] and the [held] ones. *)
Definition holds_over (c0 c : upstreamConcurrencyCache) (held : list nat) : Prop :=
  ∀ ch, 0 ≤ chan_len c0 ch ∧ chan_len c ch = chan_len c0 ch + taken ch held.

Lemma acquireLocked_len now key limit c ch :
  chan_len (snd (acquireLocked now key limit c)) ch = chan_len c ch.
Proof.
  assert (Hsnoc : ∀ c', uc_channels c' = uc_channels c →
    chan_len (mkCache (<[key := mkLimiter (length (uc_channels c')) limit now]> (uc_limiters c'))
      (uc_lastSweep c') (uc_channels c' ++ [(limit, 0)])) ch = chan_len c ch).
  { intros c' Heq. unfold chan_len. cbn [uc_channels]. rewrite Heq.
    destruct (uc_channels c !! ch) as [[cap n]|] eqn:E.
    - by rewrite (lookup_app_l_Some _ _ _ _ E).
    - destruct ((uc_channels c ++ [(limit, 0)]) !! ch) as [[cap n]|] eqn:E'; [|done].
      apply lookup_snoc_Some in E' as [[_ E']|[_ E']]; congruence. }
  unfold acquireLocked. set (c0 := if _ <=? _ then _ else _).
  assert (Heq : uc_channels c0 = uc_channels c) by (subst c0; by destruct (_ <=? _)).
  clearbody c0. destruct (uc_limiters c0 !! key) as [l|]; [|by apply Hsnoc].
  destruct (_ =? _); [|by apply Hsnoc]. unfold chan_len. cbn [snd uc_channels]. by rewrite Heq.
Qed.

Lemma chan_len_set c ch cap n ch' :
  uc_channels c !! ch = Some (cap, n) →
  ∀ m, chan_len (set_channels (<[ch := (cap, m)]> (uc_channels c)) c) ch'
  = if bool_decide (ch = ch') then m else chan_len c ch'.
Proof.
  intros Hch m. unfold chan_len. cbn [set_channels uc_channels]. case_bool_decide as E.
  - subst ch'. by rewrite list_lookup_insert_eq by (by eapply lookup_lt_Some).
  - by rewrite list_lookup_insert_ne.
Qed.

Lemma taken_cons ch x held : taken ch (x :: held) = (if bool_decide (x = ch) then 1 else 0) + taken ch held.
Proof. unfold taken. cbn [List.filter]. destruct (bool_decide (x = ch)); simpl length; lia. Qed.

Lemma taken_snoc ch x held : taken ch (held ++ [x]) = (if bool_decide (x = ch) then 1 else 0) + taken ch held.
Proof.
  induction held as [|y held IH]; [apply taken_cons|].
  cbn [app]. rewrite !taken_cons, IH. lia.
Qed.

Lemma taken_nonneg ch held : 0 ≤ taken ch held.
Proof. unfold taken. lia. Qed.

Lemma release_len ch c ch' :
  0 < chan_len c ch →
  chan_len (release ch c) ch' = chan_len c ch' - (if bool_decide (ch = ch') then 1 else 0).
Proof.
  unfold release, chan_len at 1. destruct (uc_channels c !! ch) as [[cap n]|] eqn:E; [|lia].
  intros Hn. rewrite (proj2 (Z.ltb_lt 0 n)) by done. rewrite (chan_len_set _ _ _ _ _ E).
  case_bool_decide as Ec; [|lia]. subst ch'. unfold chan_len. by rewrite E.
Qed.

Lemma releaseAll_len c0 c held :
  holds_over c0 c held → ∀ ch, chan_len (releaseAll held c) ch = chan_len c0 ch.
Proof.
  assert (Hgen : ∀ held c, (∀ ch, taken ch held ≤ chan_len c ch) →
    ∀ ch, chan_len (releaseAll held c) ch = chan_len c ch - taken ch held).
  { clear. induction held as [|x held IH]; intros c Hle ch.
    { unfold taken. simpl. lia. }
    cbn [releaseAll fold_right]. fold (releaseAll held c).
    assert (Hle' : ∀ ch, taken ch held ≤ chan_len c ch).
    { intros ch'. specialize (Hle ch'). rewrite taken_cons in Hle. case_bool_decide; lia. }
    rewrite release_len, IH, taken_cons; [lia|done|].
    rewrite IH by done. specialize (Hle x). rewrite taken_cons, bool_decide_eq_true_2 in Hle by done. lia. }
  intros Hov ch. rewrite Hgen; [destruct (Hov ch) as [? ->]; lia|].
  intros ch'. destruct (Hov ch') as [? ->]. lia.
Qed.

Lemma acquireOne_holds `{UuidString} now ctx pickSend scope id limit held c0 c :
  holds_over c0 c held →
  match acquireOne now ctx pickSend scope id limit held c with
  | (inl held', c') => holds_over c0 c' held'
  | (inr _, c') => ∀ ch, chan_len c' ch = chan_len c0 ch
  end.
Proof.
  intros Hov. unfold acquireOne, Acquire. destruct limit as [limit|]; [|done].
  destruct (limit <=? 0); [done|]. destruct (bool_decide _); [done|]. cbn [orb].
  pose proof (acquireLocked_len now (limiterKey scope id) limit c) as Hlock.
  destruct (acquireLocked _ _ _ c) as [ch c1]. cbn [snd] in Hlock.
  destruct (select_send _ _ _ _ _) as [[err|] c2] eqn:Es.
  - apply select_send_refused in Es as ->. apply releaseAll_len. intros ch'. rewrite Hlock. apply Hov.
  - apply select_send_sent in Es as (cap & n & Hch & _ & ->). intros ch'.
    rewrite (chan_len_set _ _ _ _ _ Hch), taken_snoc. specialize (Hov ch') as [? Heq].
    split; [done|]. case_bool_decide as E; [subst ch'|rewrite Hlock; lia].
    rewrite <- Hlock in Heq. unfold chan_len at 1 in Heq. rewrite Hch in Heq. lia.
Qed.

(** the three limits of an attempt are taken together or not at all: a refused
    attempt leaves no token behind, and the release of a granted one gives back all it
    took. *)
Theorem slots_all_or_nothing `{UuidString} (at_ : nat → Z * contextState * bool)
    (candidate : Candidate) (credentialID : uuid) (cfg : option GatewayConfig)
    (c : upstreamConcurrencyCache) (Hlens : ∀ ch, 0 ≤ chan_len c ch) :
  match acquireUpstreamConcurrency at_ candidate credentialID cfg c with
  | (inl held, c') =>
      ∀ ch, chan_len c' ch = chan_len c ch + taken ch held
            ∧ chan_len (releaseAll held c') ch = chan_len c ch
  | (inr _, c') => ∀ ch, chan_len c' ch = chan_len c ch
  end.
Proof.
  assert (Hdone : ∀ held c', holds_over c c' held → ∀ ch,
    chan_len c' ch = chan_len c ch + taken ch held ∧ chan_len (releaseAll held c') ch = chan_len c ch).
  { intros held c' Hov ch. split; [apply Hov|by apply releaseAll_len]. }
  assert (H0 : holds_over c c []) by (intros ch; split; [done|unfold taken; simpl; lia]).
  unfold acquireUpstreamConcurrency. destruct cfg as [cfg|]; [|by apply Hdone]. cbv zeta.
  match goal with |- context [acquireOne ?n ?x ?p ScopeSite ?i ?l [] c] =>
    pose proof (acquireOne_holds n x p ScopeSite i l [] c c H0) as H1;
    destruct (acquireOne n x p ScopeSite i l [] c) as [[held1|err] c1] end; [|done].
  match goal with |- context [acquireOne ?n ?x ?p ScopeModel ?i ?l held1 c1] =>
    pose proof (acquireOne_holds n x p ScopeModel i l held1 c c1 H1) as H2;
    destruct (acquireOne n x p ScopeModel i l held1 c1) as [[held2|err] c2] end; [|done].
  match goal with |- context [acquireOne ?n ?x ?p ScopeCredential ?i ?l held2 c2] =>
    pose proof (acquireOne_holds n x p ScopeCredential i l held2 c c2 H2) as H3;
    destruct (acquireOne n x p ScopeCredential i l held2 c2) as [[held3|err] c3] end; [|done].
  by apply Hdone.
Qed.

(** ** Concrete runs *)

(** Two calls reach a limit of one; the second is refused until the first is done. *)
Definition twoCalls : list event :=
  [EvLock 1 "site:a" 1 1; EvLock 2 "site:a" 1 1; EvSelect 2 ScopeSite CtxLive true;
   EvSelect 1 ScopeSite CtxLive true].

Lemma concurrency_limit_holds_witness :
  in_flight "site:a" (run emptyWorld twoCalls) = 1 ∧ in_flight "site:a" (run emptyWorld twoCalls) ≤ 1.
Proof.
  split; [vm_compute; reflexivity|].
  apply concurrency_limit_holds; [lia|by repeat constructor|].
  cbn [schedule twoCalls schedulable].
  repeat match goal with
  | |- _ ∧ _ => split
  | |- True => exact I
  | |- map_Forall _ _ => apply (bool_decide_unpack _); vm_compute; exact I
  | |- _ ≤ _ => vm_compute; discriminate
  | |- _ = None => vm_compute; reflexivity
  end.
Defined.

(** Two at once per site, one per credential. *)
Definition exampleLimits : GatewayConfig :=
  mkGatewayConfig None None None (Some 2) None (Some 1) None None None None "" None "" None None None None.

Lemma slots_all_or_nothing_witness :
  let c := newUpstreamConcurrencyCache in
  match @acquireUpstreamConcurrency (λ _, "u") (λ _, (1, CtxLive, true)) (exampleCandidate false) 3%N
          (Some exampleLimits) c with
  | (inl held, c') => ∀ ch, chan_len c' ch = chan_len c ch + taken ch held
                            ∧ chan_len (releaseAll held c') ch = chan_len c ch
  | (inr _, c') => ∀ ch, chan_len c' ch = chan_len c ch
  end.
Proof. intros c. apply slots_all_or_nothing. intros ch. by destruct ch. Defined.
