(* ===== verification/NoRoute.v ===== *)
(** * Suppressing requests that have no route

    [gateway/no_route_suppression.go]: a request that found no candidate is answered
    from memory for a while, with a [Retry-After] taken from the cooldowns that keep
    its routes away. *)

From S2P Require Import Prelude StableSort RouteCooldowns Router.

Definition noRouteSuppressionDefaultTTL : Z := 30 * Second.
Definition noRouteSuppressionMaxTTL : Z := 60 * Second.

Record routeAccessForNoRoute := mkAccess {
  na_ModelKey : string;
  na_AllowedSiteIDs : list uuid;
  na_AllowedSiteModelIDs : list uuid
}.

Record noRouteSuppressionKey := mkSuppressionKey {
  sk_APIKeyID : uuid;
  sk_Endpoint : string;
  sk_ModelKey : string;
  sk_AllowedSiteIDs : list uuid;
  sk_AllowedSiteModelIDs : list uuid;
  sk_Code : string
}.

Record noRouteSuppressionEntry := mkSuppressionEntry { se_ExpiresAt : Z; se_RetryAfter : Z }.

(** ** The cache *)

Section keys.
Context `{UuidString}.

(** [sort.Strings] sorts by the byte order; equal strings are the same. *)
Definition joinSortedUUIDs (items : list uuid) : string :=
  match items with
  | [] => ""
  | _ => Join (SliceStable string_ltb (map uuid_String items)) ","
  end.

Definition cacheKey (k : noRouteSuppressionKey) : string :=
  Join [uuid_String (sk_APIKeyID k); TrimSpace (sk_Endpoint k); TrimSpace (sk_ModelKey k);
        joinSortedUUIDs (sk_AllowedSiteIDs k); joinSortedUUIDs (sk_AllowedSiteModelIDs k);
        TrimSpace (sk_Code k)] "|".
End keys.

Definition deleteExpired (now : Z) (c : gmap string noRouteSuppressionEntry) : gmap string noRouteSuppressionEntry :=
  filter (λ kv, now < se_ExpiresAt kv.2) c.

(** The answer, and the cache without what has expired. *)
Definition retryAfter (key : string) (now : Z) (c : gmap string noRouteSuppressionEntry)
    : option Z * gmap string noRouteSuppressionEntry :=
  let c := deleteExpired now c in
  (match c !! key with
   | Some entry => if now <? se_ExpiresAt entry then Some (se_RetryAfter entry) else None
   | None => None
   end, c).

Definition clampTTL (ttl : Z) : Z :=
  let ttl := if ttl <=? 0 then noRouteSuppressionDefaultTTL else ttl in
  if noRouteSuppressionMaxTTL <? ttl then noRouteSuppressionMaxTTL else ttl.

Definition remember (key : string) (ttl retryAfter now : Z) (c : gmap string noRouteSuppressionEntry)
    : gmap string noRouteSuppressionEntry :=
  let retryAfter := if retryAfter <? 1 then 1 else retryAfter in
  <[key := mkSuppressionEntry (now + clampTTL ttl) retryAfter]> (deleteExpired now c).

(** [rememberNoRoute] *)
Definition rememberNoRoute (key : string) (retryAfter now : Z) (c : gmap string noRouteSuppressionEntry)
    : gmap string noRouteSuppressionEntry :=
  remember key (mul64 retryAfter Second) retryAfter now c.

(** ** The suggested delay *)

Definition consulted (access : routeAccessForNoRoute) (now : Z) (item : RouteCooldown) : bool :=
  negb (bool_decide (rc_Source item = "site_health"))
  && bool_decide (rc_SiteCredentialID item = None) && (now <? rc_ActiveUntil item)
  && match uuidSet (na_AllowedSiteIDs access) with
     | Some s => bool_decide (rc_SiteID item ∈ s) | None => true end
  && match rc_SiteModelID item, uuidSet (na_AllowedSiteModelIDs access) with
     | Some model, Some s => bool_decide (model ∈ s) | _, _ => true end.

(** The loop: [best] is 0 until there is one. *)
Definition best_step (access : routeAccessForNoRoute) (now : Z) (best : Z) (item : RouteCooldown) : Z :=
  if negb (consulted access now item) then best
  else
    let remaining := time_sub (rc_ActiveUntil item) now in
    if remaining <=? 0 then best
    else if (best =? 0) || (remaining <? best) then remaining else best.

Definition noRouteRetryAfterFromCooldowns (cooldowns : list RouteCooldown)
    (access : routeAccessForNoRoute) (now : Z) : Z :=
  let best := fold_left (best_step access now) cooldowns 0 in
  if best <=? 0 then noRouteSuppressionDefaultTTL else best.

(** [None]: no router, or its cooldowns could not be read. *)
Definition noRouteRetryAfter (cooldowns : option (list RouteCooldown))
    (access : routeAccessForNoRoute) (now : Z) : Z :=
  match cooldowns with
  | None => noRouteSuppressionDefaultTTL
  | Some cooldowns => noRouteRetryAfterFromCooldowns cooldowns access now
  end.

(** [int64(ttl.Seconds())] is exact below a minute. *)
Definition noRouteRetryAfterSeconds (cooldowns : option (list RouteCooldown))
    (access : routeAccessForNoRoute) (now : Z) : Z :=
  let seconds := Z.quot (clampTTL (noRouteRetryAfter cooldowns access now)) Second in
  if seconds <? 1 then 1 else seconds.

(** ** The cache over time *)

Inductive cache_op :=
| OpRemember (key : string) (retryAfter now : Z)
| OpAsk (key : string) (now : Z).

Definition op_time (op : cache_op) : Z :=
  match op with OpRemember _ _ now | OpAsk _ now => now end.

Definition cache_exec (c : gmap string noRouteSuppressionEntry) (op : cache_op) : gmap string noRouteSuppressionEntry :=
  match op with
  | OpRemember key seconds now => rememberNoRoute key seconds now c
  | OpAsk key now => snd (retryAfter key now c)
  end.

(** What the cache promises: the last thing remembered of a key, latest operation
    first. *)
Fixpoint last_remembered (key : string) (history : list cache_op) : option (Z * Z) :=
  match history with
  | [] => None
  | OpRemember k seconds now :: history =>
      if bool_decide (k = key) then Some (seconds, now) else last_remembered key history
  | OpAsk _ _ :: history => last_remembered key history
  end.

(** The clock does not go back; the latest operation comes first. *)
Fixpoint in_order (history : list cache_op) (now : Z) : Prop :=
  match history with
  | [] => True
  | op :: history => op_time op ≤ now ∧ in_order history (op_time op)
  end.

Definition promised (key : string) (history : list cache_op) (now : Z) : option Z :=
  match last_remembered key history with
  | Some (seconds, at_) =>
      if now <? at_ + clampTTL (mul64 seconds Second) then Some (Z.max 1 seconds) else None
  | None => None
  end.

Lemma deleteExpired_lookup now c key e :
  deleteExpired now c !! key = Some e ↔ c !! key = Some e ∧ now < se_ExpiresAt e.
Proof. unfold deleteExpired. by rewrite map_lookup_filter_Some. Qed.

(** What the cache holds of a key: the promise, unless it has expired. *)
Lemma cache_holds key history now :
  in_order history now →
  match fold_right (λ op c, cache_exec c op) ∅ history !! key with
  | Some e => ∃ seconds at_, last_remembered key history = Some (seconds, at_)
      ∧ e = mkSuppressionEntry (at_ + clampTTL (mul64 seconds Second)) (Z.max 1 seconds)
  | None => promised key history now = None
  end.
Proof.
  revert now. induction history as [|op history IH]; intros now; cbn [fold_right in_order].
  { intros _. by rewrite lookup_empty. }
  intros [Hop Hin]. specialize (IH (op_time op) Hin).
  set (c := fold_right (λ op c, cache_exec c op) ∅ history) in *.
  assert (Hdel : ∀ t, op_time op ≤ t → op_time op = t →
    match deleteExpired t c !! key with
    | Some e => ∃ seconds at_, last_remembered key history = Some (seconds, at_)
        ∧ e = mkSuppressionEntry (at_ + clampTTL (mul64 seconds Second)) (Z.max 1 seconds)
    | None => promised key history now = None
    end).
  { intros t _ <-. destruct (deleteExpired (op_time op) c !! key) as [e|] eqn:Ed.
    - apply deleteExpired_lookup in Ed as [Ed _]. by rewrite Ed in IH.
    - unfold promised in *. destruct (last_remembered key history) as [[seconds at_]|] eqn:El; [|done].
      destruct (now <? _) eqn:En; [|done]. bool_to_prop. exfalso.
      destruct (c !! key) as [e|] eqn:Ec.
      + destruct IH as (s & a & [= <- <-] & ->).
        assert (deleteExpired (op_time op) c !! key
          = Some (mkSuppressionEntry (at_ + clampTTL (mul64 seconds Second)) (Z.max 1 seconds)));
          [|congruence].
        apply deleteExpired_lookup. split; [done|]. simpl. lia.
      + rewrite (proj2 (Z.ltb_lt (op_time op) _)) in IH by lia. done. }
  destruct op as [k seconds at_|k at_]; cbn [op_time cache_exec] in *.
  - unfold rememberNoRoute, remember. cbn [last_remembered promised].
    destruct (bool_decide (k = key)) eqn:Ek; bool_to_prop.
    + subst k. rewrite lookup_insert_eq. exists seconds, at_.
      split; [done|]. f_equal. destruct (seconds <? 1) eqn:?; bool_to_prop; lia.
    + rewrite lookup_insert_ne by done. specialize (Hdel at_ ltac:(done) eq_refl).
      unfold promised in *. cbn [last_remembered]. by rewrite bool_decide_eq_false_2.
  - cbn [retryAfter snd]. by apply Hdel.
Qed.

(** A route that was missing is answered from memory exactly from when it was last
    remembered until its delay is over, which is at most a minute, with the delay it
    was remembered with, whatever else was asked, remembered and dropped meanwhile. *)
Theorem suppression_is_last_remembered (key : string) (history : list cache_op) (now : Z)
    (Horder : in_order history now) :
  let c := fold_right (λ op c, cache_exec c op) ∅ history in
  fst (retryAfter key now c) = promised key history now
  ∧ ∀ seconds at_, last_remembered key history = Some (seconds, at_) →
      at_ + 60 * Second ≤ now → fst (retryAfter key now c) = None.
Proof.
  cbv zeta. set (c := fold_right _ ∅ history).
  assert (Hmain : fst (retryAfter key now c) = promised key history now).
  { pose proof (cache_holds key history now Horder) as Hc. fold c in Hc. unfold retryAfter. cbn [fst].
    destruct (deleteExpired now c !! key) as [e|] eqn:Ed.
    - apply deleteExpired_lookup in Ed as [Ed Hlt]. rewrite Ed in Hc.
      destruct Hc as (s & a & Hl & ->). unfold promised. by rewrite Hl.
    - destruct (c !! key) as [e|] eqn:Ec; [|done]. destruct Hc as (s & a & Hl & ->).
      unfold promised. rewrite Hl. destruct (now <? _) eqn:En; [|done]. bool_to_prop. exfalso.
      assert (deleteExpired now c !! key = Some (mkSuppressionEntry (a + clampTTL (mul64 s Second)) (Z.max 1 s)));
        [by apply deleteExpired_lookup|congruence]. }
  split; [done|]. intros seconds at_ Hl Hnow. rewrite Hmain. unfold promised. rewrite Hl.
  rewrite (proj2 (Z.ltb_ge now _)); [done|].
  assert (clampTTL (mul64 seconds Second) ≤ 60 * Second); [|lia].
  unfold clampTTL. destruct (noRouteSuppressionMaxTTL <? _) eqn:E; bool_to_prop; [done|].
  unfold noRouteSuppressionMaxTTL in *. lia.
Qed.

Lemma suppression_is_last_remembered_witness :
  fst (retryAfter "k" (10 * Second) (cache_exec ∅ (OpRemember "k" 40 0))) = Some 40.
Proof.
  destruct (suppression_is_last_remembered "k" [OpRemember "k" 40 0] (10 * Second)) as [H _];
    [split; [unfold Second; simpl; lia|done]|]. cbn [fold_right] in H. rewrite H.
  vm_compute. reflexivity.
Defined.

(** ** The delay *)

Lemma best_fold access now items best :
  0 ≤ best →
  let r := fold_left (best_step access now) items best in
  let ends := map (λ i, time_sub (rc_ActiveUntil i) now) (List.filter (consulted access now) items) in
  0 ≤ r ∧ (best ≠ 0 → r ≠ 0 ∧ r ≤ best) ∧ (∀ e, e ∈ ends → 0 < e → r ≠ 0 ∧ r ≤ e)
  ∧ (r = best ∨ r ∈ ends).
Proof.
  cbv zeta. revert best. induction items as [|item items IH]; intros best Hbest; cbn [fold_left List.filter].
  { split_and!; [done|lia| |by left]. intros e He. by apply not_elem_of_nil in He. }
  assert (Hstep : best_step access now best item = best
      ∧ (consulted access now item = true → 0 < time_sub (rc_ActiveUntil item) now →
         best ≠ 0 ∧ best ≤ time_sub (rc_ActiveUntil item) now)
    ∨ consulted access now item = true ∧ best_step access now best item = time_sub (rc_ActiveUntil item) now
      ∧ 0 < time_sub (rc_ActiveUntil item) now
      ∧ (best ≠ 0 → time_sub (rc_ActiveUntil item) now ≤ best)).
  { unfold best_step. destruct (consulted access now item); cbn [negb]; [|by left].
    destruct (_ <=? 0) eqn:E1; bool_to_prop; [left; split; [done|lia]|].
    destruct (best =? 0) eqn:E2; cbn [orb]; bool_to_prop; [right; split_and!; try done; lia|].
    destruct (_ <? best) eqn:E3; bool_to_prop; [right; split_and!; try done; lia|left; split; [done|lia]]. }
  set (best' := best_step access now best item) in *.
  assert (Hb' : 0 ≤ best') by (destruct Hstep as [[-> _]|(_ & -> & ? & _)]; lia).
  destruct (IH best' Hb') as (R0 & R1 & R2 & R3). set (r := fold_left _ items best') in *.
  destruct Hstep as [[Heq Hc]|(Hc & Heq & Hpos & Hle)].
  - rewrite Heq in *. split_and!; [done|done| |].
    + intros e He Hpos. destruct (consulted access now item); [|by apply R2].
      cbn [map] in He. apply elem_of_cons in He as [->|He]; [|by apply R2].
      destruct (Hc eq_refl Hpos). destruct (R1 ltac:(done)). split; [done|lia].
    + destruct R3 as [?|?]; [by left|right]. destruct (consulted access now item); [|done].
      cbn [map]. by right.
  - rewrite Hc. cbn [map]. destruct (R1 ltac:(lia)) as [Hr0 Hr]. split_and!; [done| | |].
    + intros Hb. specialize (Hle Hb). split; [done|lia].
    + intros e [->|He]%elem_of_cons Hp; [split; [done|lia]|by apply R2].
    + right. destruct R3 as [->|?]; [rewrite Heq; by left|by right].
Qed.

(** the delay a client without a route is told is the time until the first of the
    cooldowns in its way ends, rounded down to seconds within 1 and 60; half a minute
    when there is none. *)
Theorem retry_after_is_first_end (cooldowns : list RouteCooldown) (access : routeAccessForNoRoute)
    (now : Z) (Hspan : ∀ r, r ∈ cooldowns → in_int64 (rc_ActiveUntil r - now)) :
  let in_the_way := List.filter (consulted access now) cooldowns in
  let seconds := noRouteRetryAfterSeconds (Some cooldowns) access now in
  (in_the_way = [] → seconds = 30)
  ∧ (∀ r, r ∈ in_the_way → seconds = 1 ∨ seconds * Second ≤ rc_ActiveUntil r - now)
  ∧ (in_the_way ≠ [] → ∃ r, r ∈ in_the_way ∧
       seconds = Z.max 1 (Z.min 60 ((rc_ActiveUntil r - now) `div` Second)))
  ∧ 1 ≤ seconds ≤ 60.
Proof.
  cbv zeta. unfold noRouteRetryAfterSeconds, noRouteRetryAfter, noRouteRetryAfterFromCooldowns.
  destruct (best_fold access now cooldowns 0 ltac:(lia)) as (R0 & _ & R2 & R3).
  set (way := List.filter (consulted access now) cooldowns) in *.
  set (best := fold_left (best_step access now) cooldowns 0) in *.
  assert (Hway : ∀ r, r ∈ way → time_sub (rc_ActiveUntil r) now = rc_ActiveUntil r - now
                               ∧ 0 < rc_ActiveUntil r - now).
  { intros r Hr. apply list_elem_of_In, filter_In in Hr as [Hr Hc].
    apply list_elem_of_In in Hr. split; [by apply time_sub_exact, Hspan|].
    unfold consulted in Hc. bool_to_prop. lia. }
  assert (Hsec : ∀ b, 0 < b → (let s := Z.quot (clampTTL b) Second in if s <? 1 then 1 else s)
    = Z.max 1 (Z.min 60 (b `div` Second))).
  { intros b Hb. cbv zeta. unfold clampTTL. rewrite (proj2 (Z.leb_gt b 0)) by done.
    unfold noRouteSuppressionMaxTTL, Second in *.
    destruct (60 * 1000000000 <? b) eqn:E; bool_to_prop.
    - rewrite Z.quot_mul by lia. assert (60 ≤ b `div` 1000000000) by (apply Z.div_le_lower_bound; lia). simpl. lia.
    - rewrite Z.quot_div_nonneg by lia.
      assert (b `div` 1000000000 ≤ 60) by (apply Z.div_le_upper_bound; lia).
      destruct (_ <? 1) eqn:?; bool_to_prop; lia. }
  destruct way as [|r0 way'] eqn:Eway.
  - destruct R3 as [->|Hin]; [|by apply not_elem_of_nil in Hin]. cbn [Z.leb Z.compare].
    change (0 <=? 0) with true. cbv iota.
    assert (H30 : Z.quot (clampTTL noRouteSuppressionDefaultTTL) Second = 30) by reflexivity.
    rewrite H30. split_and!; [done|by intros r Hr; apply not_elem_of_nil in Hr|done|done|done].
  - assert (Hb : best ≠ 0).
    { destruct (Hway r0) as [Ht Hp]; [by left|]. apply (R2 (time_sub (rc_ActiveUntil r0) now)); [by left|lia]. }
    rewrite (proj2 (Z.leb_gt best 0)) by lia. specialize (Hsec best ltac:(lia)). cbv zeta in Hsec.
    rewrite Hsec. destruct R3 as [|Hin]; [done|].
    apply list_elem_of_fmap in Hin as (r & Heq & Hr). destruct (Hway r Hr) as [Ht Hp].
    split_and!; [done| | |lia|lia].
    + intros r' Hr'. destruct (Hway r' Hr') as [Ht' Hp'].
      destruct (R2 (time_sub (rc_ActiveUntil r') now)) as [_ Hle];
        [apply list_elem_of_fmap; by exists r'|lia|].
      pose proof (Z.mul_div_le best Second ltac:(done)).
      destruct (Z.le_gt_cases (Z.min 60 (best `div` Second)) 1) as [?|?]; [left; lia|right].
      assert (Z.max 1 (Z.min 60 (best `div` Second)) ≤ best `div` Second) by lia.
      unfold Second in *. nia.
    + intros _. exists r. split; [done|]. by rewrite Heq, Ht.
Qed.

Lemma retry_after_is_first_end_witness :
  noRouteRetryAfterSeconds (Some [mkCooldown 1%N 2%N None None "site" "gateway" "x" (7 * Second) None "" 0])
    (mkAccess "m" [] []) 0 ≤ 60.
Proof.
  apply retry_after_is_first_end. intros r ->%list_elem_of_singleton.
  vm_compute. split; discriminate.
Defined.
