(* ===== verification/Inflight.v ===== *)
(** * The registry of requests in flight

    [inflight/inflight.go]: the dashboard's live view.  The registry keeps the requests that
    are running, or ended a moment ago, and the token counts of API keys, sites and models;
    each change is published as an event to the subscribers, whose channels drop what they
    cannot hold.  A world is the registry with what is under way around it: events whose
    lock was released but which are not delivered yet, the timers that remove finished
    requests, and, for the theorems, the log of all events and the ledger of all counts.
    The clock is an argument of every step that reads it; a nil registry is not modelled. *)

From stdpp Require Import sorting.
From S2P Require Import Prelude StableSort.

(** ** Data *)

Definition defaultTerminalRetention : Z := 3 * Second.

Definition PhaseAccepted : string := "accepted".
Definition PhaseRouted : string := "routed".
Definition PhaseResponding : string := "responding".
Definition PhaseCompleted : string := "completed".
Definition PhaseFailed : string := "failed".
Definition PhaseCancelled : string := "cancelled".

Record Request := mkRequest {
  rq_RequestID : string; rq_APIKeyID : string; rq_APIKeyName : string;
  rq_ModelKey : string; rq_ModelProvider : string;
  rq_SiteID : string; rq_SiteName : string; rq_SiteType : string;
  rq_Attempt : Z; rq_Stream : bool; rq_Phase : string; rq_StartedAt : Z; rq_UpdatedAt : Z
}.

Record Route := mkRoute {
  ro_SiteID : string; ro_SiteName : string; ro_SiteType : string; ro_Attempt : Z
}.

Record TokenAmount := mkAmount { ta_Total : Z; ta_Input : Z; ta_Output : Z; ta_Cached : Z }.

Definition normalizedAmount (amount : TokenAmount) : TokenAmount :=
  let input := Z.max 0 (ta_Input amount) in
  let output := Z.max 0 (ta_Output amount) in
  mkAmount (if ta_Total amount <=? 0 then add64 input output else ta_Total amount)
    input output (Z.max 0 (ta_Cached amount)).

Record UsageTotal := mkUsageTotal { ut_ID : string; ut_Name : string; ut_TotalTokens : Z }.

Record UsageCell := mkUsageCell {
  uc_APIKeyID : string; uc_APIKeyName : string; uc_SiteID : string; uc_SiteName : string;
  uc_ModelKey : string; uc_ModelProvider : string;
  uc_TotalTokens : Z; uc_InputTokens : Z; uc_OutputTokens : Z; uc_CachedTokens : Z
}.

(** API key, site, model *)
Definition usageCellKey : Type := string * string * string.
Definition cell_key (cell : UsageCell) : usageCellKey :=
  (uc_APIKeyID cell, uc_SiteID cell, uc_ModelKey cell).

Record Event := mkEvent {
  ev_Sequence : Z; ev_Type : string; ev_Request : option Request; ev_RequestID : string;
  ev_Tokens : Z; ev_TotalTokens : Z;
  ev_DownstreamUsage : option UsageTotal; ev_UpstreamUsage : option UsageTotal;
  ev_UsageCell : option UsageCell
}.

Record Snapshot := mkSnapshot {
  sn_Sequence : Z; sn_Requests : list Request; sn_TotalTokens : Z;
  sn_DownstreamUsage : list UsageTotal; sn_UpstreamUsage : list UsageTotal;
  sn_UsageCells : list UsageCell
}.

Record Registry := mkRegistry {
  rg_requests : gmap string Request;
  rg_subscribers : gmap Z (list Event);       (* what each channel holds *)
  rg_nextID : Z;
  rg_sequence : Z;
  rg_totalTokens : Z;
  rg_downstreamUsage : gmap string UsageTotal;
  rg_upstreamUsage : gmap string UsageTotal;
  rg_usageCells : gmap usageCellKey UsageCell;
  rg_terminalRetention : Z
}.

Definition NewRegistry : Registry := mkRegistry ∅ ∅ 0 0 0 ∅ ∅ ∅ defaultTerminalRetention.

(** [sequence++] of a uint64 *)
Definition next64 (n : Z) : Z := (n + 1) `mod` two64.

Definition isTerminalPhase (phase : string) : bool :=
  bool_decide (phase = PhaseCompleted) || bool_decide (phase = PhaseFailed)
  || bool_decide (phase = PhaseCancelled).

Definition set_requests (requests : gmap string Request) (sequence : Z) (r : Registry) : Registry :=
  mkRegistry requests (rg_subscribers r) (rg_nextID r) sequence (rg_totalTokens r)
    (rg_downstreamUsage r) (rg_upstreamUsage r) (rg_usageCells r) (rg_terminalRetention r).

Definition set_subscribers (subscribers : gmap Z (list Event)) (nextID : Z) (r : Registry) : Registry :=
  mkRegistry (rg_requests r) subscribers nextID (rg_sequence r) (rg_totalTokens r)
    (rg_downstreamUsage r) (rg_upstreamUsage r) (rg_usageCells r) (rg_terminalRetention r).

(** ** The critical sections *)

(** [newEventLocked]: the number of the event, and the event. *)
Definition newEventLocked (r : Registry) (eventType : string) (request : option Request)
    (requestID : string) : Event :=
  mkEvent (next64 (rg_sequence r)) eventType request
    (match request with Some q => rq_RequestID q | None => requestID end) 0 0 None None None.

(** What a call does once its lock is released: publish the event and, after [Finish], set the
    timer for the request and the time it ended. *)
Record publication := mkPublication { pb_event : Event; pb_timer : option (string * Z) }.

(** A request is stored and published. *)
Definition upsert (request : Request) (id : string) (r : Registry) : Registry * Event :=
  let event := newEventLocked r "upsert" (Some request) "" in
  (set_requests (<[id := request]> (rg_requests r)) (ev_Sequence event) r, event).

Definition with_phase (phase : string) (now : Z) (q : Request) : Request :=
  mkRequest (rq_RequestID q) (rq_APIKeyID q) (rq_APIKeyName q) (rq_ModelKey q) (rq_ModelProvider q)
    (rq_SiteID q) (rq_SiteName q) (rq_SiteType q) (rq_Attempt q) (rq_Stream q) phase
    (rq_StartedAt q) now.

Definition Start (now : Z) (request : Request) (r : Registry) : Registry * option publication :=
  if bool_decide (rq_RequestID request = "") then (r, None)
  else
    let request := mkRequest (rq_RequestID request) (rq_APIKeyID request) (rq_APIKeyName request)
      (rq_ModelKey request) (rq_ModelProvider request) (rq_SiteID request) (rq_SiteName request)
      (rq_SiteType request) (rq_Attempt request) (rq_Stream request) PhaseAccepted now now in
    let '(r, event) := upsert request (rq_RequestID request) r in
    (r, Some (mkPublication event None)).

(** [change] leaves the identifier alone, see its three uses. *)
Definition update (now : Z) (requestID : string) (change : Request → Request) (r : Registry)
    : Registry * option publication :=
  if bool_decide (requestID = "") then (r, None)
  else match rg_requests r !! requestID with
  | None => (r, None)
  | Some request =>
      if isTerminalPhase (rq_Phase request) then (r, None)
      else
        let request := change request in
        let '(r, event) := upsert (with_phase (rq_Phase request) now request) requestID r in
        (r, Some (mkPublication event None))
  end.

Definition to_route (route : Route) (q : Request) : Request :=
  mkRequest (rq_RequestID q) (rq_APIKeyID q) (rq_APIKeyName q) (rq_ModelKey q) (rq_ModelProvider q)
    (ro_SiteID route) (ro_SiteName route) (ro_SiteType route) (ro_Attempt route) (rq_Stream q)
    PhaseRouted (rq_StartedAt q) (rq_UpdatedAt q).

Definition to_model (modelKey provider : string) (q : Request) : Request :=
  mkRequest (rq_RequestID q) (rq_APIKeyID q) (rq_APIKeyName q) modelKey provider
    (rq_SiteID q) (rq_SiteName q) (rq_SiteType q) (rq_Attempt q) (rq_Stream q)
    (rq_Phase q) (rq_StartedAt q) (rq_UpdatedAt q).

Definition to_responding (q : Request) : Request := with_phase PhaseResponding (rq_UpdatedAt q) q.

Definition RouteRequest (now : Z) (requestID : string) (route : Route) :=
  update now requestID (to_route route).
Definition SetModel (now : Z) (requestID modelKey provider : string) :=
  update now requestID (to_model modelKey provider).
Definition MarkResponding (now : Z) (requestID : string) := update now requestID to_responding.

Definition Finish (now : Z) (requestID phase : string) (r : Registry) : Registry * option publication :=
  if bool_decide (requestID = "") then (r, None)
  else
    let phase := if isTerminalPhase phase then phase else PhaseFailed in
    match rg_requests r !! requestID with
    | None => (r, None)
    | Some request =>
        if isTerminalPhase (rq_Phase request) then (r, None)
        else
          let '(r, event) := upsert (with_phase phase now request) requestID r in
          (r, Some (mkPublication event (Some (requestID, now))))
    end.

Definition add_usage (id name : string) (total : Z) (m : gmap string UsageTotal) : UsageTotal :=
  mkUsageTotal id name (add64 (from_option ut_TotalTokens 0 (m !! id)) total).

Definition add_cell (q : Request) (amount : TokenAmount) (m : gmap usageCellKey UsageCell) : UsageCell :=
  let cell := m !! (rq_APIKeyID q, rq_SiteID q, rq_ModelKey q) in
  mkUsageCell (rq_APIKeyID q) (rq_APIKeyName q) (rq_SiteID q) (rq_SiteName q) (rq_ModelKey q)
    (rq_ModelProvider q)
    (add64 (from_option uc_TotalTokens 0 cell) (ta_Total amount))
    (add64 (from_option uc_InputTokens 0 cell) (ta_Input amount))
    (add64 (from_option uc_OutputTokens 0 cell) (ta_Output amount))
    (add64 (from_option uc_CachedTokens 0 cell) (ta_Cached amount)).

Definition file_usage (usage : option UsageTotal) (m : gmap string UsageTotal) : gmap string UsageTotal :=
  match usage with Some u => <[ut_ID u := u]> m | None => m end.
Definition file_cell (cell : option UsageCell) (m : gmap usageCellKey UsageCell)
    : gmap usageCellKey UsageCell :=
  match cell with Some c => <[cell_key c := c]> m | None => m end.

(** The request as it is when its tokens are counted; a request that is gone counts for the
    total only. *)
Definition AddTokens (requestID : string) (amount : TokenAmount) (r : Registry)
    : Registry * option publication :=
  let amount := normalizedAmount amount in
  if ta_Total amount <=? 0 then (r, None)
  else
    let totalTokens := add64 (rg_totalTokens r) (ta_Total amount) in
    let keyed := (q ← rg_requests r !! requestID; if bool_decide (rq_APIKeyID q = "") then None else Some q) in
    let routed := (q ← rg_requests r !! requestID; if bool_decide (rq_SiteID q = "") then None else Some q) in
    let downstreamUsage :=
      (λ q, add_usage (rq_APIKeyID q) (rq_APIKeyName q) (ta_Total amount) (rg_downstreamUsage r)) <$> keyed in
    let usageCell := (λ q, add_cell q amount (rg_usageCells r)) <$> keyed in
    let upstreamUsage :=
      (λ q, add_usage (rq_SiteID q) (rq_SiteName q) (ta_Total amount) (rg_upstreamUsage r)) <$> routed in
    let event := newEventLocked r "usage" None requestID in
    (mkRegistry (rg_requests r) (rg_subscribers r) (rg_nextID r) (ev_Sequence event) totalTokens
       (file_usage downstreamUsage (rg_downstreamUsage r)) (file_usage upstreamUsage (rg_upstreamUsage r))
       (file_cell usageCell (rg_usageCells r)) (rg_terminalRetention r),
     Some (mkPublication
       (mkEvent (ev_Sequence event) "usage" None requestID (ta_Total amount) totalTokens
          downstreamUsage upstreamUsage usageCell) None)).

Definition remove (requestID : string) (finishedAt : Z) (r : Registry) : Registry * option publication :=
  match rg_requests r !! requestID with
  | None => (r, None)
  | Some request =>
      if negb (rq_UpdatedAt request =? finishedAt) || negb (isTerminalPhase (rq_Phase request)) then (r, None)
      else
        let event := newEventLocked r "remove" None requestID in
        (set_requests (delete requestID (rg_requests r)) (ev_Sequence event) r,
         Some (mkPublication event None))
  end.

Definition channelSize : nat := 128.

(** The send of [publish] to one channel; [false] is the [default] of its select. *)
Definition send (event : Event) (channel : list Event) : list Event * bool :=
  if (length channel <? channelSize)%nat then (channel ++ [event], true) else (channel, false).

Definition Subscribe (r : Registry) : Registry * Z :=
  (set_subscribers (<[rg_nextID r := []]> (rg_subscribers r)) (next64 (rg_nextID r)) r, rg_nextID r).

Definition unsubscribe (id : Z) (r : Registry) : Registry :=
  set_subscribers (delete id (rg_subscribers r)) (rg_nextID r) r.

(** ** Snapshots *)

Section snapshot.
(** [sort.Slice], which keeps no order among equals, and the order of a map iteration. *)
Context (sortSlice : ∀ A, (A → A → bool) → list A → list A)
        (values : ∀ K A `{Countable K}, gmap K A → list A).
#[local] Arguments sortSlice {A}.
#[local] Arguments values {K A _ _}.

Definition request_less (a b : Request) : bool :=
  if rq_StartedAt a =? rq_StartedAt b then string_ltb (rq_RequestID a) (rq_RequestID b)
  else rq_StartedAt a <? rq_StartedAt b.

Definition usage_less (a b : UsageTotal) : bool :=
  if negb (ut_TotalTokens a =? ut_TotalTokens b) then ut_TotalTokens b <? ut_TotalTokens a
  else string_ltb (ut_Name a) (ut_Name b).

Definition cell_less (a b : UsageCell) : bool :=
  if negb (uc_TotalTokens a =? uc_TotalTokens b) then uc_TotalTokens b <? uc_TotalTokens a
  else if negb (bool_decide (uc_APIKeyName a = uc_APIKeyName b))
  then string_ltb (uc_APIKeyName a) (uc_APIKeyName b)
  else if negb (bool_decide (uc_SiteName a = uc_SiteName b))
  then string_ltb (uc_SiteName a) (uc_SiteName b)
  else string_ltb (uc_ModelKey a) (uc_ModelKey b).

Definition usageTotals (items : gmap string UsageTotal) : list UsageTotal :=
  sortSlice usage_less (values items).
Definition usageCells (items : gmap usageCellKey UsageCell) : list UsageCell :=
  sortSlice cell_less (values items).

Definition CurrentSnapshot (r : Registry) : Snapshot :=
  mkSnapshot (rg_sequence r) (sortSlice request_less (values (rg_requests r))) (rg_totalTokens r)
    (usageTotals (rg_downstreamUsage r)) (usageTotals (rg_upstreamUsage r)) (usageCells (rg_usageCells r)).
End snapshot.

(** ** The world around the registry *)

Inductive operation :=
| OStart (now : Z) (request : Request)
| ORoute (now : Z) (requestID : string) (route : Route)
| OModel (now : Z) (requestID modelKey provider : string)
| OResponding (now : Z) (requestID : string)
| OFinish (now : Z) (requestID phase : string)
| OAddTokens (requestID : string) (amount : TokenAmount)
| ORemove (requestID : string) (finishedAt : Z).

Definition perform (o : operation) : Registry → Registry * option publication :=
  match o with
  | OStart now request => Start now request
  | ORoute now id route => RouteRequest now id route
  | OModel now id modelKey provider => SetModel now id modelKey provider
  | OResponding now id => MarkResponding now id
  | OFinish now id phase => Finish now id phase
  | OAddTokens id amount => AddTokens id amount
  | ORemove id finishedAt => remove id finishedAt
  end.

(** A [publish] that has not returned: [None] before it took the read lock, then the
    subscribers it has still to serve. *)
Record ongoing := mkOngoing { og_publication : publication; og_remaining : option (gset Z) }.

(** For the theorems, what became of a subscriber's events: how long the log was when it
    subscribed, what was on its way then, what it received and what was dropped. *)
Record subscription := mkSubscription {
  su_since : nat; su_owed : list Event; su_got : list Event; su_lost : list Event
}.

(** Tokens that were counted, and for which request. *)
Record booking := mkBooking { bk_request : option Request; bk_amount : TokenAmount }.

Record world := mkWorld {
  wd_registry : Registry;
  wd_ongoing : list ongoing;
  wd_timers : list (Z * (string * Z));        (* when, and what [remove] is called with *)
  wd_log : list Event;
  wd_ledger : list booking;
  wd_seen : gmap Z subscription
}.

Definition newWorld : world := mkWorld NewRegistry [] [] [] [] ∅.

(** The writers' lock is free: no [publish] holds the readers'. *)
Definition unlocked (w : world) : bool :=
  forallb (λ g, bool_decide (og_remaining g = None)) (wd_ongoing w).

Definition booked (o : operation) (r : Registry) : list booking :=
  match o with
  | OAddTokens id amount =>
      if ta_Total (normalizedAmount amount) <=? 0 then []
      else [mkBooking (rg_requests r !! id) (normalizedAmount amount)]
  | _ => []
  end.

(** A critical section, the event logged and about to be published. *)
Definition critical (o : operation) (timers : list (Z * (string * Z))) (w : world) : world :=
  let '(r, p) := perform o (wd_registry w) in
  mkWorld r (wd_ongoing w ++ match p with Some p => [mkOngoing p None] | None => [] end) timers
    (wd_log w ++ match p with Some p => [pb_event p] | None => [] end)
    (wd_ledger w ++ booked o (wd_registry w)) (wd_seen w).

Inductive action :=
| ACall (o : operation)
| ATimer (now : Z) (i : nat)
| ABegin (i : nat)
| ADeliver (i : nat) (id : Z)
| AEnd (now : Z) (i : nat)
| ASubscribe
| AUnsubscribe (id : Z)
| AReceive (id : Z).

Definition with_ongoing (l : list ongoing) (w : world) : world :=
  mkWorld (wd_registry w) l (wd_timers w) (wd_log w) (wd_ledger w) (wd_seen w).

(** One event goes to one subscriber, or is dropped. *)
Definition deliver (event : Event) (id : Z) (w : world) : option world :=
  channel ← rg_subscribers (wd_registry w) !! id;
  su ← wd_seen w !! id;
  let r := wd_registry w in
  let '(channel, sent) := send event channel in
  Some (mkWorld (set_subscribers (<[id := channel]> (rg_subscribers r)) (rg_nextID r) r)
          (wd_ongoing w) (wd_timers w) (wd_log w) (wd_ledger w)
          (<[id := mkSubscription (su_since su) (su_owed su) (su_got su)
                     (if sent then su_lost su else su_lost su ++ [event])]> (wd_seen w))).

(** One step; [None] when it is not possible now.  A timer calls [remove] once its time has
    come; sends to a closed channel cannot happen, since closing takes the writers' lock. *)
Definition exec (a : action) (w : world) : option world :=
  let r := wd_registry w in
  match a with
  | ACall (ORemove _ _) => None
  | ACall o => if unlocked w then Some (critical o (wd_timers w) w) else None
  | ATimer now i =>
      timer ← wd_timers w !! i;
      if unlocked w && (timer.1 <=? now)
      then Some (critical (ORemove timer.2.1 timer.2.2) (delete i (wd_timers w)) w) else None
  | ABegin i =>
      g ← wd_ongoing w !! i;
      match og_remaining g with
      | None => Some (with_ongoing (<[i := mkOngoing (og_publication g) (Some (dom (rg_subscribers r)))]>
                                      (wd_ongoing w)) w)
      | Some _ => None
      end
  | ADeliver i id =>
      g ← wd_ongoing w !! i;
      remaining ← og_remaining g;
      if bool_decide (id ∈ remaining) then
        deliver (pb_event (og_publication g)) id
          (with_ongoing (<[i := mkOngoing (og_publication g) (Some (remaining ∖ {[id]}))]> (wd_ongoing w)) w)
      else None
  | AEnd now i =>
      g ← wd_ongoing w !! i;
      if bool_decide (og_remaining g = Some ∅) then
        let retention := if rg_terminalRetention r <=? 0 then defaultTerminalRetention
                         else rg_terminalRetention r in
        Some (mkWorld r (delete i (wd_ongoing w))
          (wd_timers w ++ match pb_timer (og_publication g) with
                          | Some t => [(now + retention, t)] | None => [] end)
          (wd_log w) (wd_ledger w) (wd_seen w))
      else None
  | ASubscribe =>
      if unlocked w then
        let '(r, id) := Subscribe r in
        Some (mkWorld r (wd_ongoing w) (wd_timers w) (wd_log w) (wd_ledger w)
          (<[id := mkSubscription (length (wd_log w)) (map (λ g, pb_event (og_publication g)) (wd_ongoing w))
                     [] []]> (wd_seen w)))
      else None
  | AUnsubscribe id =>
      if unlocked w then
        Some (mkWorld (unsubscribe id r) (wd_ongoing w) (wd_timers w) (wd_log w) (wd_ledger w)
                (delete id (wd_seen w)))
      else None
  | AReceive id =>
      channel ← rg_subscribers r !! id;
      su ← wd_seen w !! id;
      match channel with
      | [] => None
      | event :: rest =>
          Some (mkWorld (set_subscribers (<[id := rest]> (rg_subscribers r)) (rg_nextID r) r)
            (wd_ongoing w) (wd_timers w) (wd_log w) (wd_ledger w)
            (<[id := mkSubscription (su_since su) (su_owed su) (su_got su ++ [event]) (su_lost su)]>
               (wd_seen w)))
      end
  end.

Fixpoint run (actions : list action) (w : world) : option world :=
  match actions with
  | [] => Some w
  | a :: rest => exec a w ≫= run rest
  end.

Definition reachable (w : world) : Prop := ∃ actions, run actions newWorld = Some w.

(** ** What a reader of the events knows *)

Record view := mkView {
  vw_requests : gmap string Request; vw_totalTokens : Z;
  vw_downstream : gmap string UsageTotal; vw_upstream : gmap string UsageTotal;
  vw_cells : gmap usageCellKey UsageCell
}.

Definition view_of (r : Registry) : view :=
  mkView (rg_requests r) (rg_totalTokens r) (rg_downstreamUsage r) (rg_upstreamUsage r) (rg_usageCells r).

Definition viewEvent (e : Event) (v : view) : view :=
  if bool_decide (ev_Type e = "upsert") then
    match ev_Request e with
    | Some q => mkView (<[rq_RequestID q := q]> (vw_requests v)) (vw_totalTokens v) (vw_downstream v)
                  (vw_upstream v) (vw_cells v)
    | None => v
    end
  else if bool_decide (ev_Type e = "remove") then
    mkView (delete (ev_RequestID e) (vw_requests v)) (vw_totalTokens v) (vw_downstream v)
      (vw_upstream v) (vw_cells v)
  else
    mkView (vw_requests v) (ev_TotalTokens e) (file_usage (ev_DownstreamUsage e) (vw_downstream v))
      (file_usage (ev_UpstreamUsage e) (vw_upstream v)) (file_cell (ev_UsageCell e) (vw_cells v)).

(** A reader starts from a snapshot and leaves out events that are not newer than what it
    has seen. *)
Definition readEvent (reader : view * Z) (e : Event) : view * Z :=
  if ev_Sequence e <=? reader.2 then reader else (viewEvent e reader.1, ev_Sequence e).

Definition index_by {K A} `{Countable K} (key : A → K) (l : list A) : gmap K A :=
  list_to_map (map (λ x, (key x, x)) l).

Definition view_of_snapshot (s : Snapshot) : view :=
  mkView (index_by rq_RequestID (sn_Requests s)) (sn_TotalTokens s)
    (index_by ut_ID (sn_DownstreamUsage s)) (index_by ut_ID (sn_UpstreamUsage s))
    (index_by cell_key (sn_UsageCells s)).

(** What is still on its way to a subscriber. *)
Definition outstanding (w : world) (id : Z) : list Event :=
  omap (λ g, match og_remaining g with
             | Some remaining => if bool_decide (id ∈ remaining) then Some (pb_event (og_publication g)) else None
             | None => Some (pb_event (og_publication g))
             end) (wd_ongoing w).

(** ** Every critical section: what it changes is what it publishes *)

Record well_formed (r : Registry) : Prop := mkWellFormed {
  wf_requests : map_Forall (λ id q, rq_RequestID q = id ∧ id ≠ "") (rg_requests r);
  wf_downstream : map_Forall (λ id u, ut_ID u = id ∧ id ≠ "") (rg_downstreamUsage r);
  wf_upstream : map_Forall (λ id u, ut_ID u = id ∧ id ≠ "") (rg_upstreamUsage r);
  wf_cells : map_Forall (λ key c, cell_key c = key ∧ uc_APIKeyID c ≠ "") (rg_usageCells r)
}.

(** What an operation may do. *)
Definition publishes (r : Registry) (res : Registry * option publication) : Prop :=
  rg_subscribers res.1 = rg_subscribers r ∧ rg_nextID res.1 = rg_nextID r ∧
  match res.2 with
  | None => res.1 = r
  | Some p =>
      rg_sequence res.1 = next64 (rg_sequence r) ∧ ev_Sequence (pb_event p) = next64 (rg_sequence r)
      ∧ view_of res.1 = viewEvent (pb_event p) (view_of r) ∧ well_formed res.1
  end.

Lemma publishes_none r : publishes r (r, None).
Proof. done. Qed.

Lemma publishes_upsert r id q timer :
  well_formed r → rq_RequestID q = id → id ≠ "" →
  publishes r (let '(r', event) := upsert q id r in (r', Some (mkPublication event timer))).
Proof.
  intros Hr Hid Hne. unfold publishes, upsert. cbn. split_and!; try done.
  - unfold viewEvent, view_of. cbn. by rewrite Hid.
  - destruct Hr. split; cbn; [|done..]. by apply map_Forall_insert_2.
Qed.

Lemma publishes_update now id change r :
  well_formed r → (∀ q, rq_RequestID (change q) = rq_RequestID q) → publishes r (update now id change r).
Proof.
  intros Hr Hchange. unfold update. case_bool_decide; [done|].
  destruct (rg_requests r !! id) as [q|] eqn:E; [|done]. destruct (isTerminalPhase _); [done|].
  destruct (wf_requests r Hr id q E) as [Hid Hne]. apply publishes_upsert; [done| |done].
  cbn. by rewrite Hchange.
Qed.

Lemma add_usage_wf id name n (m : gmap string UsageTotal) :
  id ≠ "" → map_Forall (λ id u, ut_ID u = id ∧ id ≠ "") m →
  map_Forall (λ id u, ut_ID u = id ∧ id ≠ "") (file_usage (Some (add_usage id name n m)) m).
Proof. intros ??. by apply map_Forall_insert_2. Qed.

Lemma publishes_tokens id amount r : well_formed r → publishes r (AddTokens id amount r).
Proof.
  intros Hr. unfold AddTokens. destruct (_ <=? 0); [done|]. unfold publishes. cbn. split_and!; try done.
  destruct Hr as [H1 H2 H3 H4]. split; cbn; [done|..]; destruct (rg_requests r !! id) as [q|]; cbn; try done;
    case_bool_decide; cbn; try done.
  - by apply add_usage_wf.
  - by apply add_usage_wf.
  - by apply map_Forall_insert_2.
Qed.

Lemma perform_publishes o r : well_formed r → publishes r (perform o r).
Proof.
  intros Hr. destruct o; cbn; try by apply publishes_update.
  - unfold Start. case_bool_decide; [done|]. by apply publishes_upsert.
  - unfold Finish. case_bool_decide; [done|]. destruct (rg_requests r !! _) as [q|] eqn:E; [|done].
    destruct (isTerminalPhase (rq_Phase q)); [done|].
    destruct (wf_requests r Hr _ q E). by apply publishes_upsert.
  - by apply publishes_tokens.
  - unfold remove. destruct (rg_requests r !! _) as [q|] eqn:E; [|done].
    destruct (_ || _); [done|]. unfold publishes. cbn. split_and!; try done.
    destruct Hr. split; cbn; [|done..]. by apply map_Forall_delete.
Qed.

(** ** The log of a world is the history of its registry *)

Definition empty_view : view := mkView ∅ 0 ∅ ∅ ∅.

Definition replay (log : list Event) (v : view) : view := fold_left (λ v e, viewEvent e v) log v.

(** The number of the [n]th event. *)
Definition numbered (n : nat) : Z := Z.of_nat n `mod` two64.

Lemma numbered_S n : numbered (S n) = next64 (numbered n).
Proof.
  unfold numbered, next64. rewrite Nat2Z.inj_succ, <- Z.add_1_r. symmetry. apply Zplus_mod_idemp_l.
Qed.

Record log_inv (w : world) : Prop := mkLogInv {
  li_wf : well_formed (wd_registry w);
  li_view : replay (wd_log w) empty_view = view_of (wd_registry w);
  li_sequence : rg_sequence (wd_registry w) = numbered (length (wd_log w));
  li_numbers : ∀ i e, wd_log w !! i = Some e → ev_Sequence e = numbered (S i)
}.

Lemma log_inv_new : log_inv newWorld.
Proof. by split; [split| | |]. Qed.

(** The steps that are not critical sections leave the registry's contents and the log. *)
Definition same_registry (w w' : world) : Prop :=
  view_of (wd_registry w') = view_of (wd_registry w)
  ∧ rg_sequence (wd_registry w') = rg_sequence (wd_registry w) ∧ wd_log w' = wd_log w
  ∧ wd_ledger w' = wd_ledger w.

Lemma same_log_inv w w' : same_registry w w' → log_inv w → log_inv w'.
Proof.
  intros (Hv & Hs & Hl & _) [[H1 H2 H3 H4] Hview ? ?]. split; rewrite ?Hl, ?Hs, ?Hv; try done.
  unfold view_of in Hv. injection Hv as Hr _ Hd Hu Hc. by split; rewrite ?Hr, ?Hd, ?Hu, ?Hc.
Qed.

Lemma critical_log_inv o timers w : log_inv w → log_inv (critical o timers w).
Proof.
  intros [Hwf Hv Hs Hn]. unfold critical. pose proof (perform_publishes o (wd_registry w) Hwf) as (_ & _ & H).
  destruct (perform o (wd_registry w)) as [r [p|]]; cbn in H; cbn [fst snd] in H.
  2: { subst r. split; cbn; rewrite ?app_nil_r; done. }
  destruct H as (Hs' & Hev & Hv' & Hwf'). split; cbn; [done|..].
  - unfold replay. rewrite fold_left_app. cbn. by rewrite Hv', <- Hv.
  - rewrite Hs', Hs, length_app, Nat.add_1_r. by rewrite numbered_S.
  - intros i e [H|[Hlen H]]%lookup_app_Some; [by apply Hn|].
    apply list_lookup_singleton_Some in H as [Hi <-].
    replace i with (length (wd_log w)) by lia. by rewrite Hev, numbered_S, Hs.
Qed.

(** A step is a critical section or leaves the registry's contents alone. *)
Lemma exec_cases a w w' :
  exec a w = Some w' →
  same_registry w w'
  ∨ ∃ o timers, w' = critical o timers w ∧ unlocked w = true
      ∧ ((∃ now i t, a = ATimer now i ∧ wd_timers w !! i = Some (t, (match o with ORemove id at_ => (id, at_) | _ => ("", 0) end))
           ∧ timers = delete i (wd_timers w) ∧ ∃ id at_, o = ORemove id at_)
         ∨ (a = ACall o ∧ timers = wd_timers w ∧ ∀ id at_, o ≠ ORemove id at_)).
Proof.
  unfold exec, same_registry. intros H. destruct a as [o|now i|i|i id|now i| |id|id].
  - right. destruct (unlocked w) eqn:Hu.
    + exists o, (wd_timers w). destruct o; simplify_eq; (split_and!; [done..|]; right; by split_and!).
    + by destruct o.
  - right. destruct (wd_timers w !! i) as [[t [id at_]]|] eqn:E; [|done]. cbn in H.
    destruct (unlocked w); [|done]. destruct (t <=? now); [|done]. cbn in H. simplify_eq.
    eexists (ORemove id at_), _. split_and!; [done..|]. left. exists now, i, t. split_and!; try done. by eexists _, _.
  - left. destruct (wd_ongoing w !! i) as [[p [rem|]]|]; cbn in H; simplify_eq. done.
  - left. destruct (wd_ongoing w !! i) as [[p [rem|]]|]; cbn in H; simplify_eq.
    case_bool_decide; [|done]. unfold deliver in H. cbn in H.
    destruct (rg_subscribers _ !! id); [|done]. cbn in H. destruct (wd_seen w !! id); [|done]. cbn in H.
    destruct (send _ _). by simplify_eq.
  - left. destruct (wd_ongoing w !! i); [|done]. cbn in H. case_bool_decide; by simplify_eq.
  - left. destruct (unlocked w); cbn in H; by simplify_eq.
  - left. destruct (unlocked w); cbn in H; by simplify_eq.
  - left. destruct (rg_subscribers _ !! id) as [[|e ch]|]; cbn in H; try done; destruct (wd_seen w !! id); cbn in H; by simplify_eq.
Qed.

Lemma run_snoc_inv (P : world → Prop) :
  (∀ a w w', exec a w = Some w' → P w → P w') → ∀ actions w w', run actions w = Some w' → P w → P w'.
Proof.
  intros Hstep. induction actions as [|a rest IH]; intros w w'; cbn; [by intros [= <-]|].
  destruct (exec a w) as [w1|] eqn:E; [|done]. cbn. intros Hrun Hw. eapply IH; [done|]. by eapply Hstep.
Qed.

Lemma log_inv_step a w w' : exec a w = Some w' → log_inv w → log_inv w'.
Proof.
  intros [?|(o & timers & -> & _)]%exec_cases; [by apply same_log_inv|by apply critical_log_inv].
Qed.

Lemma log_inv_reachable w : reachable w → log_inv w.
Proof. intros [actions H]. eapply run_snoc_inv; [exact log_inv_step|exact H|exact log_inv_new]. Qed.

(** The log only grows. *)
Lemma log_prefix actions w w' : run actions w = Some w' → wd_log w `prefix_of` wd_log w'.
Proof.
  intros H. eapply (run_snoc_inv (λ w', wd_log w `prefix_of` wd_log w')); [|exact H|done].
  intros a w1 w2 [(_ & _ & -> & _)|(o & timers & -> & _)]%exec_cases Hp; [done|].
  etransitivity; [exact Hp|]. unfold critical. destruct (perform _ _). cbn. by eexists.
Qed.

(** ** Deliveries: every event reaches a subscriber, waits, is dropped or is on its way *)

Definition on_its_way (id : Z) (g : ongoing) : option Event :=
  match og_remaining g with
  | Some remaining => if bool_decide (id ∈ remaining) then Some (pb_event (og_publication g)) else None
  | None => Some (pb_event (og_publication g))
  end.

Ltac world_cbn :=
  cbn [wd_registry wd_ongoing wd_timers wd_log wd_ledger wd_seen with_ongoing set_subscribers
       unsubscribe Subscribe rg_subscribers rg_nextID fst snd].

Lemma outstanding_split id (l : list ongoing) i g :
  l !! i = Some g →
  omap (on_its_way id) l
  ≡ₚ option_list (on_its_way id g) ++ omap (on_its_way id) (delete i l).
Proof.
  intros H. rewrite <- (take_drop_middle l i g H) at 1. rewrite delete_take_drop, !omap_app. cbn.
  destruct (on_its_way id g); cbn; [|done]. by rewrite Permutation_middle.
Qed.

Lemma outstanding_insert id (l : list ongoing) i g g' :
  l !! i = Some g →
  omap (on_its_way id) (<[i := g']> l)
  ≡ₚ option_list (on_its_way id g') ++ omap (on_its_way id) (delete i l).
Proof.
  intros H. rewrite (outstanding_split id (<[i := g']> l) i g').
  - by rewrite delete_replaced.
  - apply list_lookup_insert_eq. by eapply lookup_lt_Some.
Qed.

Lemma outstanding_unlocked w id :
  unlocked w = true →
  outstanding w id = map (λ g, pb_event (og_publication g)) (wd_ongoing w).
Proof.
  unfold unlocked, outstanding. induction (wd_ongoing w) as [|g l IH]; [done|]. cbn.
  intros [Hg Hl]%andb_prop. apply bool_decide_eq_true in Hg. rewrite Hg. by f_equal; apply IH.
Qed.

Definition accounted (w : world) (id : Z) (su : subscription) (channel : list Event) : Prop :=
  (su_since su ≤ length (wd_log w))%nat ∧ (length channel ≤ channelSize)%nat
  ∧ su_owed su ++ drop (su_since su) (wd_log w)
    ≡ₚ su_got su ++ channel ++ su_lost su ++ outstanding w id.

Definition delivery_inv (w : world) : Prop :=
  ∀ id su, wd_seen w !! id = Some su →
    ∃ channel, rg_subscribers (wd_registry w) !! id = Some channel ∧ accounted w id su channel.

Lemma critical_delivery o timers w : log_inv w → delivery_inv w → delivery_inv (critical o timers w).
Proof.
  intros Hlog Hw id su Hsu. unfold critical in *.
  destruct (perform_publishes o (wd_registry w) (li_wf w Hlog)) as (Hsub & _ & _).
  destruct (perform o (wd_registry w)) as [r p]. cbn in *. rewrite Hsub.
  destruct (Hw id su Hsu) as (ch & Hch & Hsince & Hlen & Hperm). exists ch. split; [done|].
  unfold accounted in *. cbn. rewrite length_app, drop_app_le by done. split_and!; [lia|done|].
  rewrite app_assoc, Hperm, <- !app_assoc. do 3 f_equiv. unfold outstanding. cbn.
  rewrite omap_app. f_equiv. by destruct p.
Qed.

(** A change of one publication that owes this subscriber the same. *)
Lemma outstanding_same id (l : list ongoing) i g g' :
  l !! i = Some g → on_its_way id g' = on_its_way id g →
  omap (on_its_way id) (<[i := g']> l) ≡ₚ omap (on_its_way id) l.
Proof. intros H Hg. by rewrite (outstanding_insert id l i g g' H), Hg, <- outstanding_split. Qed.

Lemma begin_delivery w i p :
  wd_ongoing w !! i = Some (mkOngoing p None) → delivery_inv w →
  delivery_inv (with_ongoing (<[i := mkOngoing p (Some (dom (rg_subscribers (wd_registry w))))]>
                                (wd_ongoing w)) w).
Proof.
  intros Hi Hw id su Hsu. destruct (Hw id su Hsu) as (ch & Hch & Hs & Hl & Hperm).
  exists ch. split; [done|]. split_and!; [done..|]. cbn. rewrite Hperm. do 3 f_equiv. symmetry.
  eapply outstanding_same; [exact Hi|]. cbn. rewrite bool_decide_true; [done|].
  apply elem_of_dom. by exists ch.
Qed.

Lemma deliver_delivery w w' i p remaining id :
  wd_ongoing w !! i = Some (mkOngoing p (Some remaining)) → id ∈ remaining →
  deliver (pb_event p) id
    (with_ongoing (<[i := mkOngoing p (Some (remaining ∖ {[id]}))]> (wd_ongoing w)) w) = Some w' →
  delivery_inv w → delivery_inv w'.
Proof.
  intros Hi Hid Hdel Hw. unfold deliver in Hdel. cbn in Hdel.
  destruct (rg_subscribers (wd_registry w) !! id) as [ch|] eqn:Ech; [|done]. cbn in Hdel.
  destruct (wd_seen w !! id) as [su|] eqn:Esu; [|done]. cbn in Hdel.
  destruct (Hw id su Esu) as (ch0 & Hch0 & Hs & Hl & Hperm). rewrite Ech in Hch0. injection Hch0 as <-.
  pose proof (outstanding_split id _ i _ Hi) as Hout. cbn in Hout. rewrite bool_decide_true in Hout by done.
  pose proof (outstanding_insert id _ i _ (mkOngoing p (Some (remaining ∖ {[id]}))) Hi) as Hin.
  cbn in Hin. rewrite bool_decide_false in Hin by set_solver. cbn in Hout, Hin.
  destruct (send (pb_event p) ch) as [ch' sent] eqn:Esend. injection Hdel as <-.
  intros id' su'. world_cbn. intros Hsu'. destruct (decide (id' = id)) as [->|Hne].
  - rewrite lookup_insert_eq in Hsu'. rewrite lookup_insert_eq. injection Hsu' as <-. exists ch'. split; [done|].
    unfold send in Esend. destruct (length ch <? channelSize)%nat eqn:Elen; injection Esend as <- <-; cbn.
    + apply Nat.ltb_lt in Elen. unfold accounted. cbn. rewrite length_app. cbn. split_and!; [done|lia|].
      rewrite Hperm. unfold outstanding; cbn. rewrite Hout, Hin. solve_Permutation.
    + unfold accounted. cbn. split_and!; [done|done|]. rewrite Hperm. unfold outstanding; cbn.
      rewrite Hout, Hin. solve_Permutation.
  - rewrite lookup_insert_ne in Hsu' by done. rewrite lookup_insert_ne by done. destruct (Hw id' su' Hsu') as (ch2 & Hch2 & ? & ? & Hp2).
    exists ch2. split; [done|]. split_and!; [done..|]. cbn. rewrite Hp2. do 3 f_equiv. symmetry.
    eapply outstanding_same; [exact Hi|]. cbn. by rewrite (bool_decide_ext (id' ∈ remaining ∖ {[id]}) (id' ∈ remaining)) by set_solver.
Qed.

Lemma delivery_inv_step a w w' : log_inv w → exec a w = Some w' → delivery_inv w → delivery_inv w'.
Proof.
  intros Hlog Hexec Hw. destruct a as [o|now i|i|i id|now i| |id|id].
  1,2: destruct (exec_cases _ _ _ Hexec) as [Hsame|(o' & timers & -> & _)]; [|by apply critical_delivery].
  - cbn in Hexec. destruct o, (unlocked w); simplify_eq; by apply critical_delivery.
  - cbn in Hexec. destruct (wd_timers w !! i); [|done]. cbn in Hexec.
    destruct (_ && _); simplify_eq. by apply critical_delivery.
  - cbn in Hexec. destruct (wd_ongoing w !! i) as [[p [rem|]]|] eqn:E; cbn in Hexec; simplify_eq.
    by apply begin_delivery.
  - cbn in Hexec. destruct (wd_ongoing w !! i) as [[p [rem|]]|] eqn:E; cbn in Hexec; simplify_eq.
    destruct (bool_decide_reflect (id ∈ rem)); [|done]. by eapply deliver_delivery.
  - cbn in Hexec. destruct (wd_ongoing w !! i) as [g|] eqn:E; [|done]. cbn in Hexec.
    destruct (bool_decide_reflect (og_remaining g = Some ∅)) as [Hg|]; simplify_eq.
    intros id su Hsu. destruct (Hw id su Hsu) as (ch & Hch & ? & ? & Hp). exists ch. split; [done|].
    split_and!; [done..|]. cbn. rewrite Hp. do 3 f_equiv. unfold outstanding. cbn.
    etransitivity; [by apply (outstanding_split id _ i g)|]. unfold on_its_way at 1. rewrite Hg.
    by rewrite bool_decide_false by set_solver.
  - cbn in Hexec. destruct (unlocked w) eqn:Hu; cbn in Hexec; simplify_eq. intros id su. world_cbn.
    destruct (decide (id = rg_nextID (wd_registry w))) as [->|Hne].
    + rewrite !lookup_insert_eq. intros [= <-]. exists []. split; [done|]. split_and!; cbn; [done|lia|].
      rewrite drop_all, app_nil_r. unfold outstanding. cbn. fold (outstanding w (rg_nextID (wd_registry w))).
      by rewrite outstanding_unlocked.
    + rewrite !lookup_insert_ne by done. intros Hsu. destruct (Hw id su Hsu) as (ch & ? & ?). by exists ch.
  - cbn in Hexec. destruct (unlocked w) eqn:Hu; cbn in Hexec; simplify_eq. intros id' su. world_cbn.
    rewrite lookup_delete_Some. intros [Hne Hsu]. destruct (Hw id' su Hsu) as (ch & ? & ?). exists ch.
    by rewrite lookup_delete_ne.
  - cbn in Hexec. destruct (rg_subscribers (wd_registry w) !! id) as [ch|] eqn:Ech; [|done]. cbn in Hexec.
    destruct (wd_seen w !! id) as [su|] eqn:Esu; [|done]. cbn in Hexec.
    destruct ch as [|e rest]; simplify_eq. destruct (Hw id su Esu) as (ch0 & Hch0 & Hs & Hl & Hp).
    rewrite Ech in Hch0. injection Hch0 as <-. intros id' su'. world_cbn. destruct (decide (id' = id)) as [->|Hne].
    + rewrite !lookup_insert_eq. intros [= <-]. exists rest. split; [done|]. cbn in Hl.
      split_and!; cbn; [done|lia|]. rewrite Hp. cbn. rewrite <- !app_assoc. done.
    + rewrite !lookup_insert_ne by done. intros Hsu. destruct (Hw id' su' Hsu) as (ch & ? & ?). by exists ch.
Qed.

Lemma reachable_inv (P : world → Prop) :
  P newWorld → (∀ a w w', log_inv w → exec a w = Some w' → P w → P w') → ∀ w, reachable w → P w.
Proof.
  intros Hnew Hstep w [actions H].
  refine (proj2 (run_snoc_inv (λ w, log_inv w ∧ P w) _ actions newWorld w H (conj log_inv_new Hnew))).
  intros a w1 w2 Hexec [Hlog HP]. split; [by eapply log_inv_step|by eapply Hstep].
Qed.


(** ** A reader that gets its events in order knows the registry *)

Record owed_inv (w : world) : Prop := mkOwedInv {
  ow_ongoing : Forall (λ g, pb_event (og_publication g) ∈ wd_log w) (wd_ongoing w);
  ow_owed : ∀ id su, wd_seen w !! id = Some su →
    (su_since su ≤ length (wd_log w))%nat
    ∧ Forall (λ e, e ∈ take (su_since su) (wd_log w)) (su_owed su)
}.

(** Steps that publish nothing, and what they do to the two parts of the invariant. *)
Lemma owed_inv_same w w' :
  wd_log w' = wd_log w →
  Forall (λ g, ∃ g', g' ∈ wd_ongoing w ∧ og_publication g' = og_publication g) (wd_ongoing w') →
  (∀ id su', wd_seen w' !! id = Some su' →
     (∃ su, wd_seen w !! id = Some su ∧ su_since su' = su_since su ∧ su_owed su' = su_owed su)
     ∨ su_since su' = length (wd_log w)
       ∧ su_owed su' = map (λ g, pb_event (og_publication g)) (wd_ongoing w)) →
  owed_inv w → owed_inv w'.
Proof.
  intros Hl Hg Hs [H1 H2]. split.
  - rewrite Hl. eapply list.Forall_impl; [exact Hg|]. cbn. intros g (g' & Hin & <-).
    by eapply list.Forall_forall in H1.
  - intros id su' Hsu'. rewrite Hl. destruct (Hs id su' Hsu') as [(su & Hsu & -> & ->)|[-> ->]].
    + by apply H2 in Hsu.
    + split; [done|]. rewrite take_ge by done. apply list.Forall_fmap. exact H1.
Qed.

Lemma ongoing_insert (l : list ongoing) i g g' :
  l !! i = Some g → og_publication g' = og_publication g →
  Forall (λ x, ∃ y, y ∈ l ∧ og_publication y = og_publication x) (<[i := g']> l).
Proof.
  intros Hi Hg. apply list.Forall_forall. intros x Hx.
  apply list_elem_of_lookup in Hx as [j Hj]. apply list_lookup_insert_Some in Hj as [(-> & <- & _)|[_ Hj]].
  - exists g. split; [by eapply list_elem_of_lookup_2|done].
  - exists x. split; [by eapply list_elem_of_lookup_2|done].
Qed.

Lemma ongoing_kept (l l' : list ongoing) :
  l' ⊆ l → Forall (λ x, ∃ y, y ∈ l ∧ og_publication y = og_publication x) l'.
Proof. intros H. apply list.Forall_forall. intros x Hx. exists x. split; [by apply H|done]. Qed.

Lemma owed_inv_critical o timers w : owed_inv w → owed_inv (critical o timers w).
Proof.
  intros [H1 H2]. unfold critical. destruct (perform o (wd_registry w)) as [r p]. split; cbn.
  - apply Forall_app. split.
    + eapply list.Forall_impl; [exact H1|]. cbn. intros g Hg. apply elem_of_app. by left.
    + destruct p; [|done]. apply list.Forall_singleton. cbn. apply elem_of_app. right. by left.
  - intros id su Hsu. destruct (H2 id su Hsu) as [Hs Ho]. split; [rewrite length_app; lia|].
    by rewrite take_app_le.
Qed.

Lemma owed_inv_step a w w' : log_inv w → exec a w = Some w' → owed_inv w → owed_inv w'.
Proof.
  intros _ Hexec Hw. destruct (exec_cases _ _ _ Hexec) as [(_ & _ & Hl & _)|(o & timers & -> & _)];
    [|by apply owed_inv_critical].
  destruct a as [o|now i|i|i id|now i| |id|id]; cbn in Hexec.
  - destruct o, (unlocked w); simplify_eq; by apply owed_inv_critical.
  - destruct (wd_timers w !! i); [|done]. cbn in Hexec. destruct (_ && _); simplify_eq.
    by apply owed_inv_critical.
  - destruct (wd_ongoing w !! i) as [[p [rem|]]|] eqn:E; cbn in Hexec; simplify_eq.
    eapply owed_inv_same; [done|by eapply ongoing_insert| |exact Hw]. intros id su Hsu. left. by exists su.
  - destruct (wd_ongoing w !! i) as [[p [rem|]]|] eqn:E; cbn in Hexec; simplify_eq.
    destruct (bool_decide (id ∈ rem)); [|done]. unfold deliver in Hexec. cbn in Hexec.
    destruct (rg_subscribers (wd_registry w) !! id) as [ch|]; [|done]. cbn in Hexec.
    destruct (wd_seen w !! id) as [su|] eqn:Esu; [|done]. cbn in Hexec. destruct (send _ ch). simplify_eq.
    eapply owed_inv_same; [done|by eapply ongoing_insert| |exact Hw]. intros id' su'. world_cbn.
    rewrite lookup_insert_Some. intros [[<- <-]|[_ H]]; left; by eexists.
  - destruct (wd_ongoing w !! i) as [g|]; [|done]. cbn in Hexec. case_bool_decide; simplify_eq.
    eapply owed_inv_same; [done| | |exact Hw].
    + apply ongoing_kept. apply delete_subset.
    + intros id su Hsu. left. by exists su.
  - destruct (unlocked w); cbn in Hexec; simplify_eq.
    eapply owed_inv_same; [done|by apply ongoing_kept| |exact Hw]. intros id su. world_cbn.
    rewrite lookup_insert_Some. intros [[_ <-]|[_ H]]; [by right|left; by eexists].
  - destruct (unlocked w); cbn in Hexec; simplify_eq.
    eapply owed_inv_same; [done|by apply ongoing_kept| |exact Hw]. intros id' su. world_cbn.
    rewrite lookup_delete_Some. intros [_ H]. left; by eexists.
  - destruct (rg_subscribers (wd_registry w) !! id) as [ch|]; [|done]. cbn in Hexec.
    destruct (wd_seen w !! id) as [su|] eqn:Esu; [|done]. cbn in Hexec. destruct ch as [|e rest]; simplify_eq.
    eapply owed_inv_same; [done|by apply ongoing_kept| |exact Hw]. intros id' su'. world_cbn.
    rewrite lookup_insert_Some. intros [[<- <-]|[_ H]]; left; by eexists.
Qed.

(** Events in the order they were made. *)
Definition earlier (a b : Event) : Prop := ev_Sequence a < ev_Sequence b.

Definition newer_than (n : Z) (events : list Event) : list Event := filter (λ e, n < ev_Sequence e) events.

#[local] Instance earlier_antisym : AntiSymm (=) earlier.
Proof. intros a b. unfold earlier. lia. Qed.

Lemma newer_cons n e l :
  newer_than n (e :: l) = if decide (n < ev_Sequence e) then e :: newer_than n l else newer_than n l.
Proof. exact (list.filter_cons _ e l). Qed.

Lemma newer_tighten n m l :
  n ≤ m → Forall (λ e, m < ev_Sequence e) (newer_than n l) → newer_than m l = newer_than n l.
Proof.
  intros Hnm. induction l as [|e l IH]; [done|]. rewrite !newer_cons.
  destruct (decide (n < ev_Sequence e)).
  - rewrite list.Forall_cons. intros [He Hl]. rewrite decide_True by done. f_equal. by apply IH.
  - intros Hl. rewrite decide_False by lia. by apply IH.
Qed.

Lemma read_newer l v n :
  StronglySorted earlier (newer_than n l) →
  fold_left readEvent l (v, n)
  = (replay (newer_than n l) v, from_option ev_Sequence n (list.last (newer_than n l))).
Proof.
  revert v n. induction l as [|e l IH]; intros v n; [done|]. rewrite newer_cons. cbn [fold_left].
  unfold readEvent at 2. cbn [fst snd].
  destruct (decide (n < ev_Sequence e)) as [He|He].
  - intros [Hs Hf]%StronglySorted_inv. rewrite (proj2 (Z.leb_gt _ _)) by done.
    assert (newer_than (ev_Sequence e) l = newer_than n l) as Heq.
    { apply newer_tighten; [lia|]. eapply list.Forall_impl; [exact Hf|]. done. }
    rewrite IH; rewrite Heq; [|done]. cbn [replay fold_left]. f_equal.
    rewrite last_cons. by destruct (list.last (newer_than n l)).
  - intros Hs. rewrite (proj2 (Z.leb_le _ _)) by lia. by apply IH.
Qed.

Lemma numbered_small n : Z.of_nat n < two64 → numbered n = Z.of_nat n.
Proof. intros H. apply Z.mod_small. lia. Qed.

(** The log after its first [n] events is what is newer than the [n]th. *)
Lemma log_newer w n :
  log_inv w → Z.of_nat (length (wd_log w)) < two64 → (n ≤ length (wd_log w))%nat →
  ∀ k, (k ≤ n)%nat → newer_than (Z.of_nat n) (drop k (wd_log w)) = drop n (wd_log w).
Proof.
  intros Hw Hlen Hn k Hk.
  assert (∀ i e, wd_log w !! i = Some e → ev_Sequence e = Z.of_nat (S i)) as Hseq.
  { intros i e H. rewrite (li_numbers w Hw i e H). apply numbered_small.
    apply lookup_lt_Some in H. lia. }
  replace (drop n (wd_log w)) with (drop (n - k) (drop k (wd_log w))) by (rewrite drop_drop; f_equal; lia).
  rewrite <- (take_drop (n - k) (drop k (wd_log w))) at 1. unfold newer_than. rewrite list.filter_app.
  rewrite (filter_all _ (drop (n - k) (drop k (wd_log w)))), (filter_none _ (take _ _)); [done|..].
  - apply list.Forall_lookup. intros i e [H Hi]%lookup_take_Some. rewrite lookup_drop in H.
    rewrite (Hseq _ _ H). lia.
  - apply list.Forall_lookup. intros i e H. rewrite !lookup_drop in H. rewrite (Hseq _ _ H). lia.
Qed.

Lemma log_sorted w n :
  log_inv w → Z.of_nat (length (wd_log w)) < two64 → StronglySorted earlier (drop n (wd_log w)).
Proof.
  intros Hw Hlen. apply StronglySorted_by_index. intros i j a b Ha Hb Hij. rewrite !lookup_drop in *.
  unfold earlier. rewrite (li_numbers w Hw _ _ Ha), (li_numbers w Hw _ _ Hb).
  pose proof (lookup_lt_Some _ _ _ Hb). rewrite !numbered_small; lia.
Qed.

Lemma events_are_delivered_sound w id su :
  reachable w → wd_seen w !! id = Some su →
  rg_subscribers (wd_registry w) !! id = Some [] → su_lost su = [] → outstanding w id = [] →
  su_owed su ++ drop (su_since su) (wd_log w) ≡ₚ su_got su
  ∧ Forall (λ e, e ∈ take (su_since su) (wd_log w)) (su_owed su).
Proof.
  intros Hw Hsu Hch Hlost Hout. split.
  - destruct (reachable_inv delivery_inv) with (w := w) (id := id) (su := su)
      as (ch & Hch' & _ & _ & Hp); [done|apply delivery_inv_step|done|done|].
    rewrite Hch in Hch'. injection Hch' as <-. by rewrite Hp, Hlost, Hout, !app_nil_r.
  - assert (owed_inv w) as Ho by (apply reachable_inv; [by split|apply owed_inv_step|done]).
    by destruct (ow_owed w Ho id su Hsu).
Qed.

(** ** Snapshots hold the whole view *)

Section reader.
Context (sortSlice : ∀ A, (A → A → bool) → list A → list A)
        (values : ∀ K A `{Countable K}, gmap K A → list A).
#[local] Arguments sortSlice {A}.
#[local] Arguments values {K A _ _}.
Hypothesis sortSlice_perm : ∀ A less (l : list A), sortSlice less l ≡ₚ l.
Hypothesis values_perm : ∀ K A `{Countable K} (m : gmap K A), values m ≡ₚ (map_to_list m).*2.

Lemma index_sorted {K A} `{Countable K} (key : A → K) less (m : gmap K A) :
  map_Forall (λ k x, key x = k) m → index_by key (sortSlice less (values m)) = m.
Proof.
  intros Hkey. unfold index_by.
  assert (map (λ x, (key x, x)) (map_to_list m).*2 = map_to_list m) as Heq.
  { change (map ?f ?l) with (f <$> l). rewrite <- list_fmap_compose.
    etransitivity; [|apply list_fmap_id]. apply list_fmap_ext. intros i [k x] Hi%list_elem_of_lookup_2.
    apply elem_of_map_to_list in Hi. cbn. by rewrite (Hkey k x Hi). }
  transitivity (list_to_map (map_to_list m) : gmap K A); [|apply list_to_map_to_list].
  rewrite <- Heq. symmetry. apply list_to_map_proper.
  - rewrite Heq. apply NoDup_fst_map_to_list.
  - change (map ?f ?l) with (f <$> l). by rewrite sortSlice_perm, values_perm.
Qed.

Lemma snapshot_view r :
  well_formed r → view_of_snapshot (CurrentSnapshot (@sortSlice) (@values) r) = view_of r.
Proof.
  intros [H1 H2 H3 H4]. unfold view_of_snapshot, view_of, CurrentSnapshot, usageTotals, usageCells.
  cbn [sn_Requests sn_TotalTokens sn_DownstreamUsage sn_UpstreamUsage sn_UsageCells].
  rewrite !index_sorted; [done|..]; (eapply map_Forall_impl; [eassumption|]); by intros ? ? [? ?].
Qed.

(** C30: The dashboard shows the registry.  Take any subscriber and a snapshot made while it
    was subscribed, however the snapshot's lists are ordered: when later its channel is
    empty, nothing was dropped or is on its way, and the events newer than the snapshot came
    in the order they were made, then reading all it received on top of the snapshot - leaving
    out what is not newer than what was read - gives exactly what the registry now holds, and
    the number of its last event. *)
Theorem subscriber_follows_registry actions w1 w2 id su :
  reachable w1 → run actions w1 = Some w2 → Z.of_nat (length (wd_log w2)) < two64 →
  wd_seen w2 !! id = Some su → (su_since su ≤ length (wd_log w1))%nat →
  rg_subscribers (wd_registry w2) !! id = Some [] → su_lost su = [] → outstanding w2 id = [] →
  let s := CurrentSnapshot (@sortSlice) (@values) (wd_registry w1) in
  StronglySorted earlier (newer_than (sn_Sequence s) (su_got su)) →
  fold_left readEvent (su_got su) (view_of_snapshot s, sn_Sequence s)
  = (view_of (wd_registry w2), rg_sequence (wd_registry w2)).
Proof.
  intros Hw1 Hrun Hlen Hsu Hsince Hch Hlost Hout s Hsorted.
  assert (reachable w2) as Hw2.
  { destruct Hw1 as [before Hb]. exists (before ++ actions). revert Hb. generalize newWorld as w.
    induction before as [|a rest IH]; intros w; cbn; [by intros [= ->]|].
    destruct (exec a w); [|done]. cbn. apply IH. }
  pose proof (log_inv_reachable w1 Hw1) as Hl1. pose proof (log_inv_reachable w2 Hw2) as Hl2.
  destruct (log_prefix _ _ _ Hrun) as [more Hmore].
  set (n := length (wd_log w1)) in *. assert (n ≤ length (wd_log w2))%nat as Hn.
  { rewrite Hmore, length_app. lia. }
  assert (sn_Sequence s = Z.of_nat n) as Hseq.
  { subst s. cbn. rewrite (li_sequence w1 Hl1). apply numbered_small. lia. }
  rewrite Hseq in *.
  destruct (events_are_delivered_sound w2 id su Hw2 Hsu Hch Hlost Hout) as [Hperm Howed].
  assert (newer_than (Z.of_nat n) (su_got su) = drop n (wd_log w2)) as Hfresh.
  { apply (StronglySorted_unique earlier); [done|by apply log_sorted|].
    unfold newer_than. rewrite <- Hperm, list.filter_app.
    change (filter _ (drop _ _)) with (newer_than (Z.of_nat n) (drop (su_since su) (wd_log w2))).
    rewrite (log_newer w2 n) by done. rewrite filter_none; [done|].
    eapply list.Forall_impl; [exact Howed|]. cbn. intros e [i [He Hi]%lookup_take_Some]%list_elem_of_lookup.
    rewrite (li_numbers w2 Hl2 i e He), numbered_small; lia. }
  rewrite read_newer by done. rewrite Hfresh. f_equal.
  - subst s. rewrite snapshot_view by apply Hl1. rewrite <- (li_view w1 Hl1), <- (li_view w2 Hl2), Hmore.
    unfold replay. rewrite fold_left_app. subst n. by rewrite drop_app_length.
  - rewrite (li_sequence w2 Hl2), numbered_small by done.
    destruct (decide (n = length (wd_log w2))) as [->|Hne].
    + by rewrite drop_all.
    + rewrite last_lookup, lookup_drop, length_drop.
      replace (n + pred (length (wd_log w2) - n))%nat with (pred (length (wd_log w2))) by lia.
      destruct (lookup_lt_is_Some_2 (wd_log w2) (pred (length (wd_log w2)))) as [e He]; [lia|].
      rewrite He. cbn. rewrite (li_numbers w2 Hl2 _ _ He), numbered_small; lia.
Qed.
End reader.
(** C31: Every event reaches every subscriber exactly once, waits in its channel, was dropped
    when the channel was full, or is still on its way.  In every interleaving of calls,
    timers, publications that overlap, and receivers: for each subscriber, the events
    published since it subscribed, and those on their way at that moment, are just these,
    none twice; and a channel never holds more than it can. *)
Theorem events_are_delivered_once w id su :
  reachable w → wd_seen w !! id = Some su →
  ∃ channel, rg_subscribers (wd_registry w) !! id = Some channel
    ∧ (length channel ≤ channelSize)%nat
    ∧ su_owed su ++ drop (su_since su) (wd_log w)
      ≡ₚ su_got su ++ channel ++ su_lost su ++ outstanding w id.
Proof.
  intros Hw Hsu. destruct (reachable_inv delivery_inv) with (w := w) (id := id) (su := su)
    as (ch & Hch & _ & Hlen & Hp); [done|apply delivery_inv_step|done|done|by exists ch].
Qed.

(** ** The books *)

(** The bookings for which [key] gives [k]. *)
Definition concerning {K} `{EqDecision K} (key : Request → K) (k : K) (ledger : list booking)
    : list (Request * TokenAmount) :=
  omap (λ b, q ← bk_request b; if bool_decide (key q = k) then Some (q, bk_amount b) else None) ledger.

Definition total {A} (f : A → Z) (l : list A) : Z := foldr (λ x n, f x + n) 0 l.

(** The account of an API key or a site: its last name, and the sum. *)
Definition account (id name : Request → string) (k : string) (ledger : list booking) : option UsageTotal :=
  (λ q : Request * TokenAmount, mkUsageTotal k (name q.1)
     (wrap64 (total (λ b, ta_Total b.2) (concerning id k ledger))))
  <$> list.last (concerning id k ledger).

Definition request_cell (q : Request) : usageCellKey := (rq_APIKeyID q, rq_SiteID q, rq_ModelKey q).

Definition cell_account (k : usageCellKey) (ledger : list booking) : option UsageCell :=
  let l := concerning request_cell k ledger in
  (λ q : Request * TokenAmount,
     mkUsageCell k.1.1 (rq_APIKeyName q.1) k.1.2 (rq_SiteName q.1) k.2 (rq_ModelProvider q.1)
       (wrap64 (total (λ b, ta_Total b.2) l)) (wrap64 (total (λ b, ta_Input b.2) l))
       (wrap64 (total (λ b, ta_Output b.2) l)) (wrap64 (total (λ b, ta_Cached b.2) l)))
  <$> list.last l.

Record books_inv (r : Registry) (ledger : list booking) : Prop := mkBooks {
  bi_total : rg_totalTokens r = wrap64 (total (λ b, ta_Total (bk_amount b)) ledger);
  bi_downstream : ∀ k, k ≠ "" → rg_downstreamUsage r !! k = account rq_APIKeyID rq_APIKeyName k ledger;
  bi_upstream : ∀ k, k ≠ "" → rg_upstreamUsage r !! k = account rq_SiteID rq_SiteName k ledger;
  bi_cells : ∀ k, k.1.1 ≠ "" → rg_usageCells r !! k = cell_account k ledger
}.

Lemma total_snoc {A} (f : A → Z) l x : total f (l ++ [x]) = total f l + f x.
Proof. unfold total. rewrite foldr_app. cbn. induction l; cbn; lia. Qed.

Lemma concerning_snoc {K} `{EqDecision K} (key : Request → K) k ledger q amount :
  concerning key k (ledger ++ [mkBooking (Some q) amount])
  = concerning key k ledger ++ if bool_decide (key q = k) then [(q, amount)] else [].
Proof. unfold concerning. rewrite omap_app. f_equal. cbn. by destruct (bool_decide _). Qed.

Lemma concerning_none {K} `{EqDecision K} (key : Request → K) k ledger amount :
  concerning key k (ledger ++ [mkBooking None amount]) = concerning key k ledger.
Proof. unfold concerning. rewrite omap_app. apply app_nil_r. Qed.

Lemma add64_total {A} (f : A → Z) l x : add64 (wrap64 (total f l)) (f x) = wrap64 (total f (l ++ [x])).
Proof. unfold add64. by rewrite wrap64_plus, total_snoc. Qed.

(** The sum before the booking, which is nothing for a new account. *)
Lemma account_total id name k ledger :
  from_option ut_TotalTokens 0 (account id name k ledger)
  = wrap64 (total (λ b, ta_Total b.2) (concerning id k ledger)).
Proof.
  unfold account. destruct (concerning id k ledger) as [|q l]; [done|].
  rewrite last_cons. by destruct (list.last l).
Qed.

Lemma file_account id name q amount k ledger (m : gmap string UsageTotal) :
  k ≠ "" → (∀ k, k ≠ "" → m !! k = account id name k ledger) →
  file_usage ((λ q, add_usage (id q) (name q) (ta_Total amount) m)
                <$> (if bool_decide (id q = "") then None else Some q)) m !! k
  = account id name k (ledger ++ [mkBooking (Some q) amount]).
Proof.
  intros Hk Hm. unfold account. rewrite concerning_snoc.
  destruct (bool_decide_reflect (id q = k)) as [<-|Hne].
  - rewrite bool_decide_false by done. cbn. rewrite lookup_insert_eq. unfold add_usage.
    rewrite Hm, account_total, last_snoc by done. cbn. do 2 f_equal.
    exact (add64_total (λ b : Request * TokenAmount, ta_Total b.2) _ (q, amount)).
  - rewrite app_nil_r. destruct (bool_decide (id q = "")); cbn; [by apply Hm|].
    rewrite lookup_insert_ne by done. by apply Hm.
Qed.

Lemma cell_total (f : UsageCell → Z) (g : TokenAmount → Z) k ledger :
  (∀ q : Request, ∀ l : list (Request * TokenAmount), f (mkUsageCell k.1.1 (rq_APIKeyName q) k.1.2 (rq_SiteName q) k.2 (rq_ModelProvider q)
       (wrap64 (total (λ b, ta_Total b.2) l)) (wrap64 (total (λ b, ta_Input b.2) l))
       (wrap64 (total (λ b, ta_Output b.2) l)) (wrap64 (total (λ b, ta_Cached b.2) l)))
     = wrap64 (total (λ b, g b.2) l)) →
  from_option f 0 (cell_account k ledger)
  = wrap64 (total (λ b, g b.2) (concerning request_cell k ledger)).
Proof.
  intros Hf. unfold cell_account. destruct (concerning request_cell k ledger) as [|q l]; [done|].
  rewrite last_cons. destruct (list.last l); cbn [fmap option_fmap option_map from_option]; apply Hf.
Qed.

Lemma file_cell_account (q : Request) (amount : TokenAmount) (k : usageCellKey) (ledger : list booking) (m : gmap usageCellKey UsageCell) :
  k.1.1 ≠ "" → (∀ k : usageCellKey, k.1.1 ≠ "" → m !! k = cell_account k ledger) →
  file_cell ((λ q, add_cell q amount m) <$> (if bool_decide (rq_APIKeyID q = "") then None else Some q)) m !! k
  = cell_account k (ledger ++ [mkBooking (Some q) amount]).
Proof.
  intros Hk Hm. unfold cell_account. rewrite concerning_snoc.
  destruct (bool_decide_reflect (request_cell q = k)) as [<-|Hne].
  - rewrite bool_decide_false by done. cbn [fmap option_fmap option_map file_cell].
    change (cell_key (add_cell q amount m)) with (request_cell q). rewrite lookup_insert_eq.
    unfold add_cell. fold (request_cell q). rewrite Hm, last_snoc by done. cbn [fmap option_fmap option_map].
    rewrite (cell_total uc_TotalTokens ta_Total), (cell_total uc_InputTokens ta_Input),
      (cell_total uc_OutputTokens ta_Output), (cell_total uc_CachedTokens ta_Cached) by done.
    by rewrite <- !add64_total.
  - rewrite app_nil_r. destruct (bool_decide (rq_APIKeyID q = "")); [by apply Hm|].
    cbn [fmap option_fmap option_map file_cell].
    change (cell_key (add_cell q amount m)) with (request_cell q).
    rewrite lookup_insert_ne by done. by apply Hm.
Qed.

Lemma books_tokens id amount r ledger :
  books_inv r ledger →
  books_inv (AddTokens id amount r).1 (ledger ++ booked (OAddTokens id amount) r).
Proof.
  intros [H1 H2 H3 H4]. unfold AddTokens, booked. destruct (_ <=? 0); [by rewrite app_nil_r|].
  split; cbn [fst rg_totalTokens rg_downstreamUsage rg_upstreamUsage rg_usageCells].
  - rewrite H1. exact (add64_total (λ b, ta_Total (bk_amount b)) ledger (mkBooking _ _)).
  - intros k Hk. destruct (rg_requests r !! id) as [q|]; [by apply file_account|].
    unfold account. rewrite concerning_none. by apply H2.
  - intros k Hk. destruct (rg_requests r !! id) as [q|]; [by apply file_account|].
    unfold account. rewrite concerning_none. by apply H3.
  - intros k Hk. destruct (rg_requests r !! id) as [q|]; [by apply file_cell_account|].
    unfold cell_account. rewrite concerning_none. by apply H4.
Qed.

(** The other operations do not touch the books. *)
Lemma books_upsert q id timer r ledger :
  books_inv r ledger →
  books_inv (let '(r', event) := upsert q id r in (r', Some (mkPublication event timer))).1 ledger.
Proof. intros []. by split. Qed.

Lemma books_update now id change r ledger : books_inv r ledger → books_inv (update now id change r).1 ledger.
Proof.
  intros H. unfold update. case_bool_decide; [done|]. destruct (_ !! _) as [q|]; [|done].
  destruct (isTerminalPhase _); [done|]. by apply books_upsert.
Qed.

Lemma books_perform o r ledger : books_inv r ledger → books_inv (perform o r).1 (ledger ++ booked o r).
Proof.
  intros H. destruct o; try (unfold booked; rewrite app_nil_r); cbn [perform].
  - unfold Start. case_bool_decide; [done|]. by apply books_upsert.
  - by apply books_update.
  - by apply books_update.
  - by apply books_update.
  - unfold Finish. case_bool_decide; [done|]. destruct (_ !! _) as [q|]; [|done].
    destruct (isTerminalPhase (rq_Phase q)); [done|]. by apply books_upsert.
  - by apply books_tokens.
  - unfold remove. destruct (_ !! _); [|done]. destruct (_ || _); [done|]. destruct H. by split.
Qed.

(** The books are right.  In every interleaving, with whatever amounts reported: the total
    is the sum of all tokens counted; an API key, a site, and a cell of key, site and model
    has exactly the sum of what was counted for it - total, input, output and cached - under
    the name it had last, and there is no entry where nothing was counted; all in 64 bits. *)
Theorem usage_is_the_ledger w :
  reachable w →
  let r := wd_registry w in let ledger := wd_ledger w in
  rg_totalTokens r = wrap64 (total (λ b, ta_Total (bk_amount b)) ledger)
  ∧ (∀ k, k ≠ "" → rg_downstreamUsage r !! k = account rq_APIKeyID rq_APIKeyName k ledger)
  ∧ (∀ k, k ≠ "" → rg_upstreamUsage r !! k = account rq_SiteID rq_SiteName k ledger)
  ∧ (∀ k, k.1.1 ≠ "" → rg_usageCells r !! k = cell_account k ledger)
  ∧ rg_downstreamUsage r !! "" = None ∧ rg_upstreamUsage r !! "" = None
  ∧ ∀ s m, rg_usageCells r !! ("", s, m) = None.
Proof.
  intros Hw r ledger.
  destruct (reachable_inv (λ w, books_inv (wd_registry w) (wd_ledger w))) with (w := w) as [? ? ? ?]; [| |done|].
  { by split. }
  { clear. intros a w w' _ [(Hv & _ & _ & ->)|(o & timers & -> & _)]%exec_cases H.
    - unfold view_of in Hv. injection Hv as _ Ht Hd Hu Hc. destruct H. by split; rewrite ?Ht, ?Hd, ?Hu, ?Hc.
    - unfold critical. pose proof (books_perform o _ _ H) as H'. by destruct (perform o (wd_registry w)). }
  destruct (li_wf w (log_inv_reachable w Hw)) as [_ Hd Hu Hc]. split_and!; try done.
  - apply eq_None_not_Some. intros [u Hk]. by destruct (Hd "" u Hk).
  - apply eq_None_not_Some. intros [u Hk]. by destruct (Hu "" u Hk).
  - intros s m. apply eq_None_not_Some. intros [c Hk]. destruct (Hc _ c Hk) as [Hkey Hne].
    unfold cell_key in Hkey. congruence.
Qed.

(** ** The life of a request *)

(** What stays of a request from its start. *)
Definition origin (q : Request) : string * string * string * bool * Z :=
  (rq_RequestID q, rq_APIKeyID q, rq_APIKeyName q, rq_Stream q, rq_StartedAt q).

(** What one step may do to the entry of an identifier, other than a call of [Start] for it. *)
Inductive moves : option Request → option Request → Prop :=
| stays q : moves q q
| goes_on q q' :
    isTerminalPhase (rq_Phase q) = false → isTerminalPhase (rq_Phase q') = false → origin q' = origin q →
    moves (Some q) (Some q')
| ends q phase now :
    isTerminalPhase (rq_Phase q) = false → isTerminalPhase phase = true →
    moves (Some q) (Some (with_phase phase now q))
| expires q : isTerminalPhase (rq_Phase q) = true → moves (Some q) None.

(** The entry that a call of [Start] for [id] makes. *)
Definition started_by (a : action) (id : string) : option Request :=
  match a with
  | ACall (OStart now q) =>
      if bool_decide (rq_RequestID q = id) && negb (bool_decide (id = "")) then
        Some (mkRequest (rq_RequestID q) (rq_APIKeyID q) (rq_APIKeyName q) (rq_ModelKey q)
                (rq_ModelProvider q) (rq_SiteID q) (rq_SiteName q) (rq_SiteType q) (rq_Attempt q)
                (rq_Stream q) PhaseAccepted now now)
      else None
  | _ => None
  end.

Lemma moves_upsert (m : gmap string Request) key id q :
  moves (m !! key) (Some q) → moves (m !! id) (<[key := q]> m !! id).
Proof.
  intros Hq. destruct (decide (key = id)) as [->|Hne].
  - by rewrite lookup_insert_eq.
  - rewrite lookup_insert_ne by done. constructor.
Qed.

Lemma moves_update now key change r id :
  (∀ q, isTerminalPhase (rq_Phase q) = false → isTerminalPhase (rq_Phase (change q)) = false) →
  (∀ q, origin (change q) = origin q) →
  moves (rg_requests r !! id) (rg_requests (update now key change r).1 !! id).
Proof.
  intros Hphase Hsame. unfold update. case_bool_decide; [constructor|].
  destruct (rg_requests r !! key) as [q|] eqn:E; [|constructor].
  destruct (isTerminalPhase (rq_Phase q)) eqn:Eq; [constructor|]. apply moves_upsert. rewrite E.
  apply goes_on; [done|by apply Hphase|by apply Hsame].
Qed.

(** A start puts its request, whatever was there; anything else moves the entry. *)
Lemma moves_perform o r id :
  match started_by (ACall o) id with
  | Some q => rg_requests (perform o r).1 !! id = Some q
  | None => moves (rg_requests r !! id) (rg_requests (perform o r).1 !! id)
  end.
Proof.
  destruct o; cbn [perform started_by]; try by apply moves_update.
  - unfold Start. destruct (bool_decide_reflect (rq_RequestID request = id)) as [<-|Hne]; cbn [andb].
    + case_bool_decide; cbn [negb]; [constructor|]. cbn [fst upsert set_requests rg_requests]. by rewrite lookup_insert_eq.
    + case_bool_decide; [constructor|]. cbn [fst upsert set_requests rg_requests]. rewrite lookup_insert_ne by done. constructor.
  - unfold Finish. case_bool_decide; [constructor|].
    destruct (rg_requests r !! requestID) as [q|] eqn:E; [|constructor].
    destruct (isTerminalPhase (rq_Phase q)) eqn:Eq; [constructor|]. apply moves_upsert. rewrite E.
    apply ends; [done|]. by destruct (isTerminalPhase phase) eqn:Ep.
  - unfold AddTokens. destruct (_ <=? 0); constructor.
  - unfold remove. destruct (rg_requests r !! requestID) as [q|] eqn:E; [|constructor].
    destruct (_ || _) eqn:Eb; [constructor|]. apply orb_false_elim in Eb as [_ Ht%negb_false_iff].
    cbn [fst set_requests rg_requests]. destruct (decide (requestID = id)) as [<-|Hne].
    + rewrite lookup_delete_eq, E. by apply expires.
    + rewrite lookup_delete_ne by done. constructor.
Qed.

Definition entry (id : string) (w : world) : option Request := rg_requests (wd_registry w) !! id.

Lemma critical_entry o timers w id : entry id (critical o timers w) = rg_requests (perform o (wd_registry w)).1 !! id.
Proof. unfold entry, critical. by destruct (perform o (wd_registry w)). Qed.

Lemma exec_moves a w w' id :
  exec a w = Some w' →
  match started_by a id with Some q => entry id w' = Some q | None => moves (entry id w) (entry id w') end.
Proof.
  intros H. destruct (exec_cases _ _ _ H) as [(Hv & _)|(o & timers & -> & _ & Ho)].
  - assert (moves (entry id w) (entry id w')) as Hm by (unfold entry; injection Hv as -> _ _ _ _; constructor).
    destruct a as [o| | | | | | |]; try exact Hm. pose proof (moves_perform o (wd_registry w) id) as Hp.
    assert (w' = critical o (wd_timers w) w) as -> by (destruct o; cbn [exec] in H; destruct (unlocked w); congruence).
    by rewrite critical_entry.
  - rewrite critical_entry. pose proof (moves_perform o (wd_registry w) id) as Hm.
    destruct Ho as [(now & i & t & -> & _ & _ & fid & at_ & ->)|(-> & _ & _)]; exact Hm.
Qed.

(** What moves make of an entry: one that is not there stays away, one that is keeps its
    origin, and one that has ended is left as it is or goes. *)
Definition later (before after : option Request) : Prop :=
  match before, after with
  | None, after => after = None
  | Some q, Some q' => origin q' = origin q ∧ (isTerminalPhase (rq_Phase q) = true → q' = q)
  | Some _, None => True
  end.

Lemma moves_later before after : rtc moves before after → later before after.
Proof.
  intros H. induction H as [x|x y z Hm _ IH]; [by destruct x|].
  destruct Hm as [x|q q' Hq Hq' Ho|q phase now Hq Hp|q Hq]; [done|..].
  - destruct z as [q2|]; [|done]. destruct IH as [E _]. split; [by rewrite E|congruence].
  - destruct z as [q2|]; [|done]. destruct IH as [E _]. split; [by rewrite E|congruence].
  - cbn in IH. by subst z.
Qed.

Lemma run_app l1 l2 w : run (l1 ++ l2) w = run l1 w ≫= run l2.
Proof. revert w. induction l1 as [|a l1 IH]; intros w; [done|]. cbn. destruct (exec a w); [apply IH|done]. Qed.

Lemma run_moves id actions : ∀ w w',
  run actions w = Some w' → Forall (λ a, started_by a id = None) actions → rtc moves (entry id w) (entry id w').
Proof.
  induction actions as [|a rest IH]; intros w w' Hrun Hno; cbn in Hrun; [injection Hrun as <-; constructor|].
  apply list.Forall_cons in Hno as [Ha Hno]. destruct (exec a w) as [w1|] eqn:E; [|done].
  apply exec_moves with (id := id) in E. rewrite Ha in E. by eapply rtc_l; [exact E|apply (IH w1)].
Qed.

(** C32: From one start to the next a request lives once.  [Start] puts the entry of its
    identifier in the accepted phase, whatever was there before; from then on, in every
    interleaving and as long as [Start] is not called again for this identifier, the entry
    only goes on, ends in a terminal phase and expires when it has ended: at any moment it
    still has the key, name and start it began with; once it has ended it is not changed
    again; once it is gone it does not come back; and while it has not ended nothing removes
    it, stale timers included. *)
Theorem requests_live_once a earlier rest w0 w1 w2 id q :
  exec a w0 = Some w1 → started_by a id = Some q →
  run (earlier ++ rest) w1 = Some w2 → Forall (λ a, started_by a id = None) (earlier ++ rest) →
  ∃ w, run earlier w1 = Some w
    ∧ entry id w1 = Some q ∧ rq_Phase q = PhaseAccepted
    ∧ rtc moves (Some q) (entry id w) ∧ later (Some q) (entry id w)
    ∧ rtc moves (entry id w) (entry id w2) ∧ later (entry id w) (entry id w2).
Proof.
  intros Hexec Hstart Hrun [Hno1 Hno2]%Forall_app. apply exec_moves with (id := id) in Hexec. rewrite Hstart in Hexec.
  rewrite run_app in Hrun. destruct (run earlier w1) as [w|] eqn:E1; [|done]. cbn in Hrun.
  pose proof (run_moves id _ _ _ E1 Hno1) as H1. pose proof (run_moves id _ _ _ Hrun Hno2) as H2. rewrite Hexec in H1.
  exists w. split_and!; [done|done| |done|by apply moves_later|done|by apply moves_later].
  destruct a as [o| | | | | | |]; try done. destruct o; try done. cbn in Hstart. destruct (_ && _); [|done]. by injection Hstart as <-.
Qed.

(** The removals that are set, or will be when their event is delivered. *)
Definition due (w : world) : list (string * Z) :=
  (wd_timers w).*2 ++ omap (λ g, pb_timer (og_publication g)) (wd_ongoing w).

Definition expiry_inv (w : world) : Prop :=
  ∀ id q, rg_requests (wd_registry w) !! id = Some q → isTerminalPhase (rq_Phase q) = true →
    (id, rq_UpdatedAt q) ∈ due w.

(** What a critical section does to the finished requests: they were there, or it ended them
    and will set the timer. *)
Lemma perform_finished o r id q :
  rg_requests (perform o r).1 !! id = Some q → isTerminalPhase (rq_Phase q) = true →
  rg_requests r !! id = Some q
  ∨ ∃ p, (perform o r).2 = Some p ∧ pb_timer p = Some (id, rq_UpdatedAt q).
Proof.
  destruct o; cbn [perform].
  - unfold Start. case_bool_decide; [by left|]. cbn [fst upsert set_requests rg_requests].
    rewrite lookup_insert_Some. intros [[_ <-]|[_ ?]]; [done|by left].
  - unfold RouteRequest, update. case_bool_decide; [by left|].
    destruct (_ !! requestID) as [q0|]; [|by left]. destruct (isTerminalPhase _); [by left|].
    cbn [fst upsert set_requests rg_requests]. rewrite lookup_insert_Some. intros [[_ <-]|[_ ?]]; [done|by left].
  - unfold SetModel, update. case_bool_decide; [by left|].
    destruct (_ !! requestID) as [q0|]; [|by left]. destruct (isTerminalPhase _) eqn:E; [by left|].
    cbn [fst upsert set_requests rg_requests]. rewrite lookup_insert_Some.
    intros [[_ <-]|[_ ?]]; [cbn; congruence|by left].
  - unfold MarkResponding, update. case_bool_decide; [by left|].
    destruct (_ !! requestID) as [q0|]; [|by left]. destruct (isTerminalPhase _); [by left|].
    cbn [fst upsert set_requests rg_requests]. rewrite lookup_insert_Some. intros [[_ <-]|[_ ?]]; [done|by left].
  - unfold Finish. case_bool_decide; [by left|].
    destruct (_ !! requestID) as [q0|]; [|by left]. destruct (isTerminalPhase (rq_Phase q0)); [by left|].
    cbn [fst snd upsert set_requests rg_requests]. rewrite lookup_insert_Some.
    intros [[<- <-]|[_ ?]] _; [right; by eexists|by left].
  - unfold AddTokens. destruct (_ <=? 0); by left.
  - unfold remove. destruct (_ !! requestID); [|by left]. destruct (_ || _); [by left|].
    cbn [fst set_requests rg_requests]. rewrite lookup_delete_Some. intros [_ ?]; by left.
Qed.

(** The timer that fires takes its request with it. *)
Lemma remove_takes id at_ r q :
  rg_requests r !! id = Some q → rq_UpdatedAt q = at_ → isTerminalPhase (rq_Phase q) = true →
  rg_requests (remove id at_ r).1 !! id = None.
Proof.
  intros Hq <- Ht. unfold remove. rewrite Hq, Z.eqb_refl, Ht. cbn. apply lookup_delete_eq.
Qed.

Lemma remove_keeps id at_ r q :
  rg_requests (remove id at_ r).1 !! id = Some q → rg_requests r !! id = Some q.
Proof.
  unfold remove. destruct (rg_requests r !! id) as [q0|] eqn:E; cbn [fst]; [|congruence].
  destruct (_ || _); cbn [fst]; [congruence|].
  cbn. by rewrite lookup_delete_eq.
Qed.

Lemma due_critical o timers w :
  due (critical o timers w)
  = timers.*2 ++ omap (λ g, pb_timer (og_publication g)) (wd_ongoing w)
    ++ option_list ((perform o (wd_registry w)).2 ≫= pb_timer).
Proof.
  unfold critical, due. destruct (perform o (wd_registry w)) as [r [p|]]; cbn; rewrite omap_app; [|done].
  cbn. by destruct (pb_timer p).
Qed.

Lemma expiry_critical o timers w :
  (∀ id q, rg_requests (perform o (wd_registry w)).1 !! id = Some q → isTerminalPhase (rq_Phase q) = true →
     (id, rq_UpdatedAt q) ∈ (wd_timers w).*2 → (id, rq_UpdatedAt q) ∈ timers.*2) →
  expiry_inv w → expiry_inv (critical o timers w).
Proof.
  intros Htimers Hw id q Hq Ht. rewrite due_critical, !elem_of_app.
  assert (Hq' : rg_requests (perform o (wd_registry w)).1 !! id = Some q).
  { revert Hq. unfold critical. by destruct (perform o (wd_registry w)). }
  destruct (perform_finished o (wd_registry w) id q Hq' Ht) as [Hold|(p' & Hp & Ht')].
  - specialize (Hw id q Hold Ht). unfold due in Hw. apply elem_of_app in Hw as [H|H]; [left; by apply Htimers|by right; left].
  - right. right. rewrite Hp. cbn. rewrite Ht'. by left.
Qed.

Lemma due_insert (l : list ongoing) i g g' :
  l !! i = Some g → og_publication g' = og_publication g →
  omap (λ g, pb_timer (og_publication g)) (<[i := g']> l) = omap (λ g, pb_timer (og_publication g)) l.
Proof.
  revert i. induction l as [|x l IH]; intros [|i]; cbn; [done..| |].
  - by intros [= ->] ->.
  - intros Hi Hg. specialize (IH i Hi Hg). destruct (pb_timer (og_publication x)); [f_equal|]; exact IH.
Qed.

Lemma due_delete (l : list ongoing) i g :
  l !! i = Some g →
  omap (λ g, pb_timer (og_publication g)) l
  ≡ₚ option_list (pb_timer (og_publication g)) ++ omap (λ g, pb_timer (og_publication g)) (delete i l).
Proof.
  intros H. rewrite <- (take_drop_middle l i g H) at 1. rewrite delete_take_drop, !omap_app. cbn.
  destruct (pb_timer (og_publication g)); cbn; [|done]. by rewrite Permutation_middle.
Qed.

(** The other steps lose no removal. *)
Lemma quiet_due a w w' :
  exec a w = Some w' →
  match a with ACall _ | ATimer _ _ => True | _ => due w' ≡ₚ due w end.
Proof.
  intros H. destruct a as [o|now i|i|i id|now i| |id|id]; cbn in H; try done.
  - destruct (wd_ongoing w !! i) as [[p [rem|]]|] eqn:E; cbn in H; simplify_eq.
    unfold due. cbn. by rewrite (due_insert _ _ _ _ E).
  - destruct (wd_ongoing w !! i) as [[p [rem|]]|] eqn:E; cbn in H; simplify_eq.
    destruct (bool_decide (id ∈ rem)); [|done]. unfold deliver in H. cbn in H.
    destruct (rg_subscribers (wd_registry w) !! id); [|done]. cbn in H.
    destruct (wd_seen w !! id); [|done]. cbn in H. destruct (send _ _). simplify_eq. unfold due. cbn. by rewrite (due_insert _ _ _ _ E).
  - destruct (wd_ongoing w !! i) as [g|] eqn:E; [|done]. cbn in H. case_bool_decide; simplify_eq.
    unfold due. cbn. rewrite fmap_app, (due_delete _ _ _ E).
    destruct (pb_timer (og_publication g)); cbn; [|by rewrite app_nil_r]. by rewrite <- app_assoc.
  - destruct (unlocked w); cbn in H; by simplify_eq.
  - destruct (unlocked w); cbn in H; by simplify_eq.
  - destruct (rg_subscribers (wd_registry w) !! id) as [[|e ch]|]; cbn in H; try done;
      destruct (wd_seen w !! id); cbn in H; by simplify_eq.
Qed.

Lemma deleted_elem {A} (l : list A) i x y : l !! i = Some x → y ∈ l → y = x ∨ y ∈ delete i l.
Proof.
  intros Hi. rewrite <- (take_drop_middle l i x Hi) at 1. rewrite delete_take_drop, !elem_of_app, elem_of_cons.
  tauto.
Qed.

Lemma expiry_inv_step a w w' : log_inv w → exec a w = Some w' → expiry_inv w → expiry_inv w'.
Proof.
  intros Hlog H Hw. pose proof (quiet_due a w w' H) as Hdue.
  assert (match a with ACall _ | ATimer _ _ => False | _ => True end → expiry_inv w') as Hquiet.
  { intros Ha. destruct (exec_cases _ _ _ H) as [(Hv & _)|(o & timers & _ & _ & Ho)].
    - unfold view_of in Hv. injection Hv as Hreq _ _ _ _. intros id q Hq Ht. rewrite Hreq in Hq.
      specialize (Hw id q Hq Ht). destruct a; try done; by rewrite Hdue.
    - by destruct Ho as [(now & i & t & -> & _)|(-> & _)]. }
  destruct a as [o|now i|i|i id|now i| |id|id]; try by apply Hquiet.
  - cbn in H. destruct o, (unlocked w); simplify_eq; by apply expiry_critical.
  - cbn in H. destruct (wd_timers w !! i) as [[t [tid at_]]|] eqn:Hi; [|done]. cbn in H.
    destruct (_ && _); simplify_eq. apply expiry_critical; [|done]. intros id q Hq Ht Hex.
    apply list_elem_of_fmap in Hex as (x & Hx & Hin).
    destruct (deleted_elem _ _ _ _ Hi Hin) as [->|Hin']; [|apply list_elem_of_fmap; by exists x].
    cbn in Hx. injection Hx as <- <-. cbn [perform] in Hq.
    destruct (rg_requests (wd_registry w) !! id) as [q0|] eqn:Eq0.
    + pose proof (remove_keeps id (rq_UpdatedAt q) (wd_registry w) q Hq) as Hsame.
      by rewrite (remove_takes _ _ _ _ Hsame) in Hq.
    + unfold remove in Hq. rewrite Eq0 in Hq. cbn in Hq. congruence.
Qed.

(** C33: What has ended goes away.  In every interleaving, for each request that has ended there
    is a timer with its name and the time it ended, or its last event is still being delivered
    and the timer will be set then; once such a timer fires the request is gone.  So when
    nothing is on its way and no timer is left, only running requests are in the registry. *)
Theorem finished_requests_expire w :
  reachable w →
  (∀ id q, rg_requests (wd_registry w) !! id = Some q → isTerminalPhase (rq_Phase q) = true →
     (id, rq_UpdatedAt q) ∈ (wd_timers w).*2 ++ omap (λ g, pb_timer (og_publication g)) (wd_ongoing w)
     ∧ ∀ now i t w', wd_timers w !! i = Some (t, (id, rq_UpdatedAt q)) → exec (ATimer now i) w = Some w' →
         rg_requests (wd_registry w') !! id = None)
  ∧ (wd_ongoing w = [] → wd_timers w = [] →
     map_Forall (λ _ q, isTerminalPhase (rq_Phase q) = false) (rg_requests (wd_registry w))).
Proof.
  intros Hw. assert (expiry_inv w) as Hinv by (apply reachable_inv; [done|apply expiry_inv_step|done]).
  split.
  - intros id q Hq Ht. split; [by apply Hinv|]. intros now i t w' Hi H. cbn in H. rewrite Hi in H. cbn in H.
    destruct (_ && _); [|done]. injection H as <-.
    pose proof (remove_takes id _ _ q Hq eq_refl Ht) as Hgone. unfold critical. cbn [perform].
    by destruct (remove _ _ _).
  - intros Hg Htm id q Hq. apply not_true_is_false. intros Ht. specialize (Hinv id q Hq Ht).
    unfold due in Hinv. rewrite Hg, Htm in Hinv. by apply not_elem_of_nil in Hinv.
Qed.

(** ** Concrete runs *)

Definition sample_request (id : string) : Request :=
  mkRequest id "key-1" "Client" "gpt-5" "openai" "" "" "" 0 true "" 0 0.

(** An event is made, delivered to subscriber 0 and received. *)
Definition told (now : Z) (o : operation) : list action :=
  [ACall o; ABegin 0; ADeliver 0 0; AEnd now 0; AReceive 0].

Definition sample_start : list action := ASubscribe :: told 10 (OStart 10 (sample_request "r1")).

Definition sample_rest : list action :=
  told 11 (ORoute 11 "r1" (mkRoute "site-1" "Primary" "openai" 1))
  ++ told 12 (OAddTokens "r1" (mkAmount 0 900 300 400))
  ++ told 13 (OFinish 13 "r1" "completed")
  ++ told 14 (OStart 14 (sample_request "r2"))
  ++ ATimer (14 + 3 * Second) 0 :: tail (told 15 (OResponding 15 "r2")).

Definition world_after (actions : list action) : world := default newWorld (run actions newWorld).

Definition sample_sort : ∀ A, (A → A → bool) → list A → list A := λ A less l, SliceStable less l.
Definition sample_values : ∀ K A `{Countable K}, gmap K A → list A := λ K A _ _ m, (map_to_list m).*2.

Lemma world_reachable actions : is_Some (run actions newWorld) → reachable (world_after actions).
Proof. intros [w Hw]. exists actions. unfold world_after. by rewrite Hw. Qed.

Lemma events_are_delivered_once_witness :
  let w := world_after (sample_start ++ sample_rest) in
  ∃ su channel, wd_seen w !! 0 = Some su ∧ length (wd_log w) = 6%nat
    ∧ rg_subscribers (wd_registry w) !! 0 = Some channel ∧ (length channel ≤ channelSize)%nat
    ∧ su_owed su ++ drop (su_since su) (wd_log w)
      ≡ₚ su_got su ++ channel ++ su_lost su ++ outstanding w 0.
Proof.
  intros w. assert (Hw : reachable w) by (apply world_reachable; vm_compute; by eexists).
  destruct (wd_seen w !! 0) as [su|] eqn:Hsu; [|vm_compute in Hsu; discriminate Hsu].
  destruct (events_are_delivered_once w 0 su Hw Hsu) as (channel & H1 & H2 & H3).
  exists su, channel. split_and!; [done|vm_compute; reflexivity|done|done|done].
Defined.

Lemma subscriber_follows_registry_witness :
  let w1 := world_after sample_start in let w2 := world_after (sample_start ++ sample_rest) in
  let s := CurrentSnapshot sample_sort sample_values (wd_registry w1) in
  ∃ su, wd_seen w2 !! 0 = Some su
    ∧ fold_left readEvent (su_got su) (view_of_snapshot s, sn_Sequence s)
      = (view_of (wd_registry w2), rg_sequence (wd_registry w2)).
Proof.
  intros w1 w2 s. destruct (wd_seen w2 !! 0) as [su|] eqn:Hsu; [|vm_compute in Hsu; discriminate Hsu].
  exists su. split; [done|].
  assert (Hgot : wd_seen w2 !! 0 = Some (mkSubscription 0 [] (su_got su) [])
    ∧ StronglySorted earlier (newer_than (sn_Sequence s) (su_got su))).
  { vm_compute in Hsu. injection Hsu as <-. split; [vm_compute; reflexivity|].
    apply StronglySorted_by_index. intros i j a b Ha Hb Hij. unfold earlier.
    assert (∀ k e, newer_than (sn_Sequence s) (su_got (default (mkSubscription 0 [] [] []) (wd_seen w2 !! 0))) !! k = Some e →
      ev_Sequence e = Z.of_nat k + 2) as Hk.
    { intros k e. vm_compute. do 6 (destruct k as [|k]; [intros [= <-]; done|]). done. }
    rewrite (Hk i a Ha), (Hk j b Hb). lia. }
  destruct Hgot as [Hgot Hsorted]. rewrite Hgot in Hsu. injection Hsu as Hsu.
  apply (subscriber_follows_registry sample_sort sample_values) with (actions := sample_rest) (id := 0).
  - intros A less l. symmetry. apply SliceStable_perm.
  - done.
  - apply world_reachable. vm_compute. by eexists.
  - vm_compute. reflexivity.
  - vm_compute. reflexivity.
  - rewrite Hgot. by rewrite Hsu.
  - rewrite <- Hsu. cbn. lia.
  - vm_compute. reflexivity.
  - by rewrite <- Hsu.
  - vm_compute. reflexivity.
  - exact Hsorted.
Defined.

Lemma usage_is_the_ledger_witness :
  let w := world_after (sample_start ++ sample_rest) in
  rg_totalTokens (wd_registry w) = 1200
  ∧ rg_downstreamUsage (wd_registry w) !! "key-1" = account rq_APIKeyID rq_APIKeyName "key-1" (wd_ledger w)
  ∧ account rq_APIKeyID rq_APIKeyName "key-1" (wd_ledger w) = Some (mkUsageTotal "key-1" "Client" 1200).
Proof.
  intros w. assert (Hw : reachable w) by (apply world_reachable; vm_compute; by eexists).
  destruct (usage_is_the_ledger w Hw) as (_ & H & _).
  split_and!; [vm_compute; reflexivity|by apply H|vm_compute; reflexivity].
Defined.

(** "r2" starts, is routed, ends and expires. *)
Definition sample_life : list action :=
  told 15 (ORoute 15 "r2" (mkRoute "site-1" "Primary" "openai" 1)) ++ told 16 (OFinish 16 "r2" "cancelled")
  ++ [ATimer (16 + 3 * Second) 0].

Lemma requests_live_once_witness :
  let w0 := world_after sample_start in
  let a := ACall (OStart 14 (sample_request "r2")) in
  ∃ q w1 w2 w, exec a w0 = Some w1 ∧ run (tail (told 14 (OStart 14 (sample_request "r2"))) ++ sample_life) w1 = Some w2
    ∧ entry "r2" w1 = Some q ∧ rtc moves (Some q) (entry "r2" w) ∧ rtc moves (entry "r2" w) (entry "r2" w2)
    ∧ rq_Phase q = "accepted" ∧ entry "r2" w2 = None.
Proof.
  intros w0 a. destruct (exec a w0) as [w1|] eqn:E1; [|vm_compute in E1; discriminate E1].
  destruct (started_by a "r2") as [q|] eqn:Eq; [|vm_compute in Eq; discriminate Eq].
  destruct (run (tail (told 14 (OStart 14 (sample_request "r2"))) ++ sample_life) w1) as [w2|] eqn:E2;
    [|exfalso; vm_compute in E1; injection E1 as <-; vm_compute in E2; discriminate E2].
  destruct (requests_live_once a (tail (told 14 (OStart 14 (sample_request "r2")))) sample_life w0 w1 w2 "r2" q E1 Eq E2)
    as (w & _ & H1 & H2 & H3 & _ & H4 & _); [repeat constructor|].
  exists q, w1, w2, w. split_and!; [done|done|exact H1|exact H3|exact H4|exact H2|].
  vm_compute in E1. injection E1 as <-. vm_compute in E2. by injection E2 as <-.
Defined.

Lemma finished_requests_expire_witness :
  let w := world_after (sample_start ++ told 13 (OFinish 13 "r1" "completed")) in
  ∃ q, rg_requests (wd_registry w) !! "r1" = Some q ∧ rq_Phase q = "completed"
    ∧ ("r1", rq_UpdatedAt q) ∈ (wd_timers w).*2 ++ omap (λ g, pb_timer (og_publication g)) (wd_ongoing w).
Proof.
  intros w. assert (Hw : reachable w) by (apply world_reachable; vm_compute; by eexists).
  destruct (rg_requests (wd_registry w) !! "r1") as [q|] eqn:Hq; [|vm_compute in Hq; discriminate Hq].
  destruct (finished_requests_expire w Hw) as [H _].
  assert (Hp : rq_Phase q = "completed") by (vm_compute in Hq; by injection Hq as <-).
  exists q. split_and!; [done|done|]. apply (H "r1" q Hq). by rewrite Hp.
Defined.

(** An identifier may be used again while its request runs: it is the client's X-Request-Id
    where it sends one.  The second [Start] takes the place of the first request, and the end
    of the first ends the entry of the second, which still runs. *)
Theorem reused_identifier_ends_the_other :
  let second := mkRequest "r1" "key-2" "Other" "gpt-5" "" "" "" "" 0 false "" 0 0 in
  let started := sample_start ++ told 11 (OStart 11 second) in
  (∃ q, entry "r1" (world_after started) = Some q ∧ rq_APIKeyID q = "key-2" ∧ rq_Phase q = "accepted")
  ∧ ∃ q, entry "r1" (world_after (started ++ told 12 (OFinish 12 "r1" "completed"))) = Some q
         ∧ rq_APIKeyID q = "key-2" ∧ rq_Phase q = "completed".
Proof. split; eexists; split_and!; vm_compute; reflexivity. Qed.

(** [publish] runs after the lock is released: of two events made one after the other the
    second can be delivered first.  A reader that leaves out what is not newer than what it
    has read, as the dashboard does, then misses the first, until the next snapshot. *)
Theorem overtaken_event_is_missed :
  let w1 := world_after [ASubscribe] in
  let s := CurrentSnapshot sample_sort sample_values (wd_registry w1) in
  let w2 := world_after ([ASubscribe; ACall (OStart 10 (sample_request "r1"));
                          ACall (OStart 11 (sample_request "r2")); ABegin 1; ADeliver 1 0; AEnd 12 1;
                          ABegin 0; ADeliver 0 0; AEnd 12 0; AReceive 0; AReceive 0]) in
  ∃ su, wd_seen w2 !! 0 = Some su ∧ map ev_RequestID (su_got su) = ["r2"; "r1"]
    ∧ su_lost su = [] ∧ outstanding w2 0 = []
    ∧ is_Some (rg_requests (wd_registry w2) !! "r1")
    ∧ vw_requests (fold_left readEvent (su_got su) (view_of_snapshot s, sn_Sequence s)).1 !! "r1" = None.
Proof.
  vm_compute. eexists. split; [reflexivity|]. split_and!; try reflexivity. by eexists.
Qed.
