(* ===== verification/LoginGuard.v ===== *)
(** * Logging in: the guard against guessing, one-time codes and their replay

    [auth/login_guard.go], [auth/totp.go], [auth/totp_replay.go] and [Login] of
    [auth/service.go].  Every reading of the clock is an argument; the table of
    administrators, password hashes, the decryption of secrets, base32 and HMAC-SHA1 are
    parameters.  A guard is never nil here ([NewService] makes both).
    Two names that differ in the case of a letter outside ASCII are two names here.  What a
    login that succeeds notes of itself - [UpdateLastLogin] - is not modelled. *)

From S2P Require Import Prelude.

(** ** The login guard *)

Definition loginMaxFailures : Z := 5.
Definition loginFailureWindow : Z := 15 * Minute.
Definition loginLockoutBase : Z := 1 * Minute.
Definition loginLockoutMax : Z := 30 * Minute.
Definition loginGuardMaxEntries : nat := 20000.

Record loginAttemptState := mkAttempts {
  la_failures : Z; la_windowStart : Z; la_lockedUntil : Z; la_lockCount : Z
}.

Record loginGuard := mkGuard {
  lg_entries : gmap string loginAttemptState;
  lg_maxFailures : Z; lg_window : Z; lg_lockoutBase : Z; lg_lockoutMax : Z
}.

Definition newLoginGuard : loginGuard :=
  mkGuard ∅ loginMaxFailures loginFailureWindow loginLockoutBase loginLockoutMax.

Definition set_entries (entries : gmap string loginAttemptState) (g : loginGuard) : loginGuard :=
  mkGuard entries (lg_maxFailures g) (lg_window g) (lg_lockoutBase g) (lg_lockoutMax g).

(** The remaining lockout of a key. *)
Definition retryAfter (key : string) (now : Z) (g : loginGuard) : option Z :=
  if bool_decide (key = "") then None
  else
    st ← lg_entries g !! key;
    if now <? la_lockedUntil st then Some (time_sub (la_lockedUntil st) now) else None.

(** An entry [sweepLocked] drops. *)
Definition sweepable (window now : Z) (st : loginAttemptState) : bool :=
  (la_lockedUntil st <? now) && (window <? time_sub now (la_windowStart st)).

Definition sweepLocked (now : Z) (g : loginGuard) : loginGuard :=
  if (size (lg_entries g) <? loginGuardMaxEntries)%nat then g
  else set_entries (filter (λ kv, sweepable (lg_window g) now kv.2 = false) (lg_entries g)) g.

(** [lockoutBase << lockCount], capped. *)
Definition lockoutFor (g : loginGuard) (lockCount : Z) : Z :=
  let lockout := shl64 (lg_lockoutBase g) lockCount in
  if (lockout <=? 0) || (lg_lockoutMax g <? lockout) then lg_lockoutMax g else lockout.

(** The entry after one more failure, and the lockout it causes. *)
Definition countFailure (now : Z) (st : loginAttemptState) (g : loginGuard)
    : loginAttemptState * option Z :=
  let st := if lg_window g <? time_sub now (la_windowStart st)
            then mkAttempts 0 now (la_lockedUntil st) (la_lockCount st) else st in
  let failures := add64 (la_failures st) 1 in
  if lg_maxFailures g <=? failures then
    let lockout := lockoutFor g (la_lockCount st) in
    (mkAttempts 0 now (now + lockout) (add64 (la_lockCount st) 1), Some lockout)
  else (mkAttempts failures (la_windowStart st) (la_lockedUntil st) (la_lockCount st), None).

Definition recordFailure (key : string) (now : Z) (g : loginGuard) : loginGuard * option Z :=
  if bool_decide (key = "") then (g, None)
  else
    let g := sweepLocked now g in
    let st := default (mkAttempts 0 now 0 0) (lg_entries g !! key) in
    if now <? la_lockedUntil st
    then (set_entries (<[key := st]> (lg_entries g)) g, Some (time_sub (la_lockedUntil st) now))
    else
      let '(st, lockout) := countFailure now st g in
      (set_entries (<[key := st]> (lg_entries g)) g, lockout).

Definition reset (key : string) (g : loginGuard) : loginGuard :=
  if bool_decide (key = "") then g else set_entries (delete key (lg_entries g)) g.

(** [net.SplitHostPort]: the host, when there is a port. *)
Fixpoint index_of (c : ascii) (l : list ascii) : option nat :=
  match l with
  | [] => None
  | x :: rest => if bool_decide (x = c) then Some O else S <$> index_of c rest
  end.

Definition last_index (c : ascii) (l : list ascii) : option nat :=
  i ← index_of c (rev l); Some (length l - 1 - i)%nat.

Definition hostOf (address : list ascii) : option (list ascii) :=
  i ← last_index ":" address;
  match address with
  | "["%char :: _ =>
      close ← index_of "]" address;
      if negb (bool_decide (S close = i)) then None
      else if bool_decide (index_of "[" (drop 1 address) = None)
              && bool_decide (index_of "]" (drop (S close) address) = None)
      then Some (take (close - 1) (drop 1 address)) else None
  | _ =>
      let host := take i address in
      if bool_decide (index_of ":" host = None) && bool_decide (index_of "[" address = None)
         && bool_decide (index_of "]" address = None)
      then Some host else None
  end.

Definition loginAttemptKey (remoteAddr username : string) : string :=
  let ip := TrimSpace remoteAddr in
  let ip := match hostOf (String.list_ascii_of_string ip) with
            | Some host => String.string_of_list_ascii host | None => ip end in
  ToLower ip +:+ String (ascii_of_nat 0) (ToLower (TrimSpace username)).

(** ** One-time codes *)

Definition totpPeriodSeconds : Z := 30.
Definition totpReplayRetention : Z := 5 * Minute.

(** Seconds since 1970. *)
Definition Unix (t : Z) : Z := t `div` Second - 62135596800.

(** [fmt.Sprintf("%06d", n)] for [0 <= n < 1000000] *)
Fixpoint pad_digits (width : nat) (n : Z) (acc : list ascii) : list ascii :=
  match width with
  | O => acc
  | S width => pad_digits width (n `div` 10) (ascii_of_nat (48 + Z.to_nat (n `mod` 10)) :: acc)
  end.

(** [strings.ToUpper], exact where the result is ASCII: of the other runes, U+0131 becomes I
    and U+017F becomes S. *)
Definition upper_ascii (c : ascii) : ascii :=
  let n := nat_of_ascii c in
  if ascii_in 97 122 n then ascii_of_nat (n - 32) else c.

Fixpoint upper_bytes (l : list ascii) : list ascii :=
  match l with
  | [] => []
  | c1 :: r1 =>
      match r1 with
      | c2 :: r2 =>
          if (nat_of_ascii c1 =? 196)%nat && (nat_of_ascii c2 =? 177)%nat then "I"%char :: upper_bytes r2
          else if (nat_of_ascii c1 =? 197)%nat && (nat_of_ascii c2 =? 191)%nat
          then "S"%char :: upper_bytes r2
          else upper_ascii c1 :: upper_bytes r1
      | [] => [upper_ascii c1]
      end
  end.

Definition ToUpper (s : string) : string :=
  String.string_of_list_ascii (upper_bytes (String.list_ascii_of_string s)).

(** [hmac] is HMAC-SHA1 of a message under a secret; [decodeSecret] is base32 without
    padding. *)
Section totp.
Context (hmac : list Z → list Z → list Z) (decodeSecret : string → option (list Z)).

(** The counter, big-endian. *)
Definition counter_bytes (counter : Z) : list Z :=
  map (λ i, Z.land (Z.shiftr counter (8 * i)) 255) [7; 6; 5; 4; 3; 2; 1; 0].

Definition totpCode (secret : list Z) (counter : Z) : string :=
  let sum := hmac secret (counter_bytes counter) in
  let offset := Z.to_nat (Z.land (default 0 (list.last sum)) 15) in
  let at_ k := default 0 (sum !! (offset + k)%nat) in
  let binary := Z.lor (Z.shiftl (Z.land (at_ 0%nat) 127) 24)
    (Z.lor (Z.shiftl (Z.land (at_ 1%nat) 255) 16)
       (Z.lor (Z.shiftl (Z.land (at_ 2%nat) 255) 8) (Z.land (at_ 3%nat) 255))) in
  String.string_of_list_ascii (pad_digits 6 (binary `mod` 1000000) []).

Definition is_digit (c : ascii) : bool := ascii_in 48 57 (nat_of_ascii c).

Definition matchTOTPCounter (secret code : string) (now : Z) : option Z :=
  let code := TrimSpace code in
  if negb (String.length code =? 6)%nat then None
  else if negb (forallb is_digit (String.list_ascii_of_string code)) then None
  else
    secretBytes ← decodeSecret (ToUpper (TrimSpace secret));
    let counter := Z.quot (Unix now) totpPeriodSeconds in
    List.find (λ candidate, bool_decide (totpCode secretBytes candidate = code))
      [counter - 1; counter; counter + 1].

Record totpReplayEntry := mkReplayEntry { re_counter : Z; re_seenAt : Z }.

(** What each administrator's last accepted code was. *)
Definition totpReplayGuard : Type := gmap uuid totpReplayEntry.

Definition pruneLocked (now : Z) (g : totpReplayGuard) : totpReplayGuard :=
  filter (λ kv, time_sub now (re_seenAt kv.2) ≤ totpReplayRetention) g.

Definition accept (adminID : uuid) (counter now : Z) (g : totpReplayGuard) : totpReplayGuard * bool :=
  let g := pruneLocked now g in
  let file := (<[adminID := mkReplayEntry counter now]> g, true) in
  match g !! adminID with
  | Some entry => if counter <=? re_counter entry then (g, false) else file
  | None => file
  end.

(** [now] when the code is matched, [later] when it is accepted. *)
Definition verifyTOTPForAdmin (adminID : uuid) (secret code : string) (now later : Z)
    (g : totpReplayGuard) : totpReplayGuard * bool :=
  match matchTOTPCounter secret code now with
  | Some counter => accept adminID counter later g
  | None => (g, false)
  end.

(** ** Logging in *)

Record Admin := mkAdmin {
  ad_ID : uuid; ad_Status : string; ad_PasswordHash : string; ad_TOTPEnabled : bool;
  ad_TOTPSecretEncrypted : string
}.

Inductive loginError :=
| LockoutError (retryAfter : Z)
| InvalidCredentials
| ErrTOTPRequired
| ErrTOTPInvalid
| SessionFailed (message : string).

Record auth := mkAuth { au_guard : loginGuard; au_replay : totpReplayGuard }.

Definition newAuth : auth := mkAuth newLoginGuard ∅.

Context (GetByUsername : string → option Admin) (ComparePassword : string → string → bool)
        (Decrypt : string → option string) (issueAdminSession : Admin → option string).

(** Name, password and code, the remote address and the clock as it is read along the way. *)
Record attempt := mkAttempt {
  at_username : string; at_password : string; at_totpCode : string; at_remoteAddr : string;
  at_checked : Z; at_matched : Z; at_accepted : Z; at_failed : Z
}.

Definition attemptKey (a : attempt) : string := loginAttemptKey (at_remoteAddr a) (at_username a).

(** What a guess turned out to be. *)
Inductive verdict :=
| Wrong (cause : loginError)       (* counted by [failedLogin] *)
| NeedsCode
| Right (admin : Admin).

(** The part of [Login] between the two uses of the guard. *)
Definition verify (a : attempt) (g : totpReplayGuard) : totpReplayGuard * verdict :=
  match GetByUsername (TrimSpace (at_username a)) with
  | None => (g, Wrong InvalidCredentials)
  | Some admin =>
      if negb (bool_decide (ad_Status admin = "active"))
         || negb (ComparePassword (ad_PasswordHash admin) (at_password a))
      then (g, Wrong InvalidCredentials)
      else if ad_TOTPEnabled admin then
        if bool_decide (TrimSpace (at_totpCode a) = "") then (g, NeedsCode)
        else match Decrypt (ad_TOTPSecretEncrypted admin) with
        | None => (g, Wrong ErrTOTPInvalid)
        | Some secret =>
            let '(g, ok) := verifyTOTPForAdmin (ad_ID admin) secret (at_totpCode a) (at_matched a)
                              (at_accepted a) g in
            (g, if ok then Right admin else Wrong ErrTOTPInvalid)
        end
      else (g, Right admin)
  end.

(** [failedLogin] *)
Definition failedLogin (key : string) (cause : loginError) (now : Z) (g : loginGuard)
    : loginGuard * loginError :=
  match recordFailure key now g with
  | (g, Some retry) => (g, LockoutError retry)
  | (g, None) => (g, cause)
  end.

(** The rest of [Login] once the guess is judged. *)
Definition conclude (a : attempt) (v : verdict) (s : auth) : auth * result Admin loginError :=
  match v with
  | Wrong cause =>
      let '(g, e) := failedLogin (attemptKey a) cause (at_failed a) (au_guard s) in
      (mkAuth g (au_replay s), Err e)
  | NeedsCode => (s, Err ErrTOTPRequired)
  | Right admin =>
      (mkAuth (reset (attemptKey a) (au_guard s)) (au_replay s),
       match issueAdminSession admin with Some message => Err (SessionFailed message) | None => Ok admin end)
  end.

Definition Login (a : attempt) (s : auth) : auth * result Admin loginError :=
  match retryAfter (attemptKey a) (at_checked a) (au_guard s) with
  | Some retry => (s, Err (LockoutError retry))
  | None =>
      let '(replay, v) := verify a (au_replay s) in
      conclude a v (mkAuth (au_guard s) replay)
  end.
End totp.

(** ** The lockout doubles up to its maximum *)

(** The guard with its settings, whatever its entries. *)
Definition standard (g : loginGuard) : Prop :=
  lg_maxFailures g = loginMaxFailures ∧ lg_window g = loginFailureWindow
  ∧ lg_lockoutBase g = loginLockoutBase ∧ lg_lockoutMax g = loginLockoutMax.

Lemma shifted_out a k : 64 ≤ k → shl64 a k = 0.
Proof.
  intros Hk. unfold shl64, wrap64. rewrite Z.shiftl_mul_pow2 by lia.
  replace (a * 2 ^ k) with (a * 2 ^ (k - 64) * two64).
  - rewrite Z.add_comm, Z.mod_add by done. done.
  - replace (2 ^ k) with (2 ^ (k - 64) * 2 ^ 64) by (rewrite <- Z.pow_add_r by lia; f_equal; lia).
    change two64 with (2 ^ 64). ring.
Qed.

Lemma lockoutFor_capped g k :
  standard g → 0 ≤ k → lockoutFor g k = Z.min (30 * Minute) (Minute * 2 ^ k).
Proof.
  intros (_ & _ & Hbase & Hmax) Hk. unfold lockoutFor. rewrite Hbase, Hmax.
  destruct (Z.le_gt_cases 64 k) as [Hbig|Hsmall].
  - rewrite shifted_out by done. cbn [Z.leb Z.compare orb]. unfold loginLockoutMax.
    rewrite Z.min_l; [done|]. transitivity (Minute * 2 ^ 5); [done|].
    apply Z.mul_le_mono_nonneg_l; [done|]. apply Z.pow_le_mono_r; lia.
  - assert (∀ i : nat, (i < 64)%nat →
      (if (shl64 loginLockoutBase (Z.of_nat i) <=? 0) || (loginLockoutMax <? shl64 loginLockoutBase (Z.of_nat i))
       then loginLockoutMax else shl64 loginLockoutBase (Z.of_nat i))
      = Z.min (30 * Minute) (Minute * 2 ^ Z.of_nat i)) as H.
    { intros i Hi. do 64 (destruct i as [|i]; [vm_compute; reflexivity|]). lia. }
    rewrite <- (Z2Nat.id k) by done. apply H. lia.
Qed.

(** ** How many wrong guesses a key is granted *)

Lemma time_sub_gt d a b : in_int64 d → d < max_int64 → (d <? time_sub a b) = (d <? a - b).
Proof.
  unfold in_int64, time_sub, min_int64, max_int64. intros ??.
  destruct (d <? a - b) eqn:E; [apply Z.ltb_lt in E; apply Z.ltb_lt|apply Z.ltb_ge in E; apply Z.ltb_ge]; lia.
Qed.

Lemma window_passed a b : (loginFailureWindow <? time_sub a b) = (loginFailureWindow <? a - b).
Proof. by apply time_sub_gt. Qed.

#[local] Abbreviation W := loginFailureWindow.

Ltac guard_lia := unfold loginFailureWindow, Minute in *; lia.

(** The guesses so far are paid for by time.  [t0] is when the key was first used, [now] the
    latest time, [wrong] the wrong guesses judged, [n] bounds the lockouts.  An entry that was
    made at [made] has had [restarts] windows, each longer than [W], that ended without a
    lockout; all but five of its lockouts were followed by at least [W]. *)
Inductive paid (t0 now wrong n : Z) : option loginAttemptState → Prop :=
| paid_absent : W * wrong ≤ 38 * (now - t0) → paid t0 now wrong n None
| paid_present st made restarts :
    t0 ≤ made ≤ la_windowStart st → la_windowStart st ≤ now →
    0 ≤ la_failures st ≤ 4 → 0 ≤ la_lockCount st ≤ n → 0 ≤ restarts →
    W * wrong ≤ 38 * (made - t0) + W * (5 * la_lockCount st + 4 * restarts + la_failures st) →
    W * restarts ≤ la_windowStart st - made →
    W * (la_lockCount st - 5) ≤ la_windowStart st - made →
    (1 ≤ la_lockCount st
       ∧ la_lockedUntil st = la_windowStart st + Z.min (30 * Minute) (Minute * 2 ^ (la_lockCount st - 1))
     ∨ W * (la_lockCount st - 4) ≤ la_windowStart st - made) →
    paid t0 now wrong n (Some st).

Lemma paid_later t0 now now' wrong n n' o :
  now ≤ now' → n ≤ n' → paid t0 now wrong n o → paid t0 now' wrong n' o.
Proof.
  intros Hnow Hn []; [constructor; lia|]. econstructor; try eassumption; lia.
Qed.

Lemma paid_swept t0 now now' wrong n st :
  now ≤ now' → sweepable W now' st = true → paid t0 now wrong n (Some st) → paid t0 now' wrong n None.
Proof.
  intros Hnow [_ Hw]%andb_prop. rewrite window_passed in Hw. apply Z.ltb_lt in Hw.
  inversion 1; subst. constructor. guard_lia.
Qed.

Lemma paid_bound t0 now wrong n o : t0 ≤ now → paid t0 now wrong n o → W * (wrong - 29) ≤ 38 * (now - t0).
Proof. intros Ht []; guard_lia. Qed.

(** A lockout after the fifth is longer than the window. *)
Lemma late_lockout k : 4 ≤ k → W ≤ Z.min (30 * Minute) (Minute * 2 ^ k).
Proof.
  intros Hk. apply Z.min_glb; [done|]. transitivity (Minute * 2 ^ 4); [done|].
  apply Z.mul_le_mono_nonneg_l; [done|]. apply Z.pow_le_mono_r; lia.
Qed.

Lemma paid_new t0 now now' wrong n g :
  standard g → t0 ≤ now → now ≤ now' → 0 ≤ n → paid t0 now wrong n None →
  paid t0 now' (wrong + 1) (n + 1) (Some (countFailure now' (mkAttempts 0 now' 0 0) g).1).
Proof.
  intros (Hmax & Hwin & _ & _) Ht Hnow Hn Hp. inversion Hp; subst. unfold countFailure. rewrite Hmax, Hwin. cbn [la_windowStart].
  rewrite window_passed, Z.sub_diag. change (W <? 0) with false. cbn [la_failures].
  change (add64 0 1) with 1. change (loginMaxFailures <=? 1) with false.
  apply paid_present with (made := now') (restarts := 0); cbn; unfold loginFailureWindow, Minute in *; lia.
Qed.

Lemma paid_counted t0 now now' wrong n st g :
  standard g → now ≤ now' → la_lockedUntil st ≤ now' → n < max_int64 →
  paid t0 now wrong n (Some st) →
  paid t0 now' (wrong + 1) (n + 1) (Some (countFailure now' st g).1).
Proof.
  intros Hg Hnow Hlocked Hn Hp. inversion Hp as [|? made restarts Hmade Hws Hf HL Hr HE HR HL5 Hepoch]; subst.
  pose proof Hg as (Hmax & Hwin & _). unfold countFailure. rewrite Hmax, Hwin, window_passed.
  destruct (W <? now' - la_windowStart st) eqn:Ew; cbn [la_failures la_windowStart la_lockedUntil la_lockCount].
  - apply Z.ltb_lt in Ew. change (add64 0 1) with 1. change (loginMaxFailures <=? 1) with false.
    apply paid_present with (made := made) (restarts := restarts + 1); cbn; unfold loginFailureWindow, Minute in *; lia.
  - assert (add64 (la_failures st) 1 = la_failures st + 1) as ->.
    { apply add64_small. unfold in_int64, min_int64, max_int64. lia. }
    unfold loginMaxFailures. destruct (5 <=? la_failures st + 1) eqn:E5; cbn [fst].
    + apply Z.leb_le in E5. rewrite (lockoutFor_capped g) by (done || lia).
      assert (add64 (la_lockCount st) 1 = la_lockCount st + 1) as ->.
      { apply add64_small. unfold in_int64, min_int64, max_int64 in *. lia. }
      apply paid_present with (made := made) (restarts := restarts); cbn; try (guard_lia).
      * destruct Hepoch as [[H1 Hlock]|H4]; [|guard_lia].
        destruct (Z.le_gt_cases 5 (la_lockCount st)); [|guard_lia].
        pose proof (late_lockout (la_lockCount st - 1)). guard_lia.
      * left. split; [lia|]. by replace (la_lockCount st + 1 - 1) with (la_lockCount st) by lia.
    + apply Z.leb_gt in E5.
      apply paid_present with (made := made) (restarts := restarts); cbn; try assumption; guard_lia.
Qed.

Lemma guard_sweep_lookup now g key :
  lg_entries (sweepLocked now g) !! key = lg_entries g !! key
  ∨ ∃ st, lg_entries g !! key = Some st ∧ sweepable (lg_window g) now st = true
      ∧ lg_entries (sweepLocked now g) !! key = None.
Proof.
  unfold sweepLocked. destruct (_ <? _)%nat; [by left|]. cbn.
  destruct (lg_entries g !! key) as [st|] eqn:E.
  - destruct (sweepable (lg_window g) now st) eqn:Es; [right; exists st; split_and!; [done..|]|left].
    + apply map_lookup_filter_None. right. intros st' Hst'. rewrite E in Hst'. injection Hst' as <-. cbn. congruence.
    + by apply map_lookup_filter_Some.
  - left. apply map_lookup_filter_None. by left.
Qed.

Lemma sweep_standard now g : standard g → standard (sweepLocked now g).
Proof. unfold sweepLocked. by destruct (_ <? _)%nat. Qed.

Lemma paid_sweep t0 now now' wrong n g key :
  standard g → now ≤ now' → paid t0 now wrong n (lg_entries g !! key) →
  paid t0 now' wrong n (lg_entries (sweepLocked now' g) !! key).
Proof.
  intros (_ & Hwin & _) Hnow Hp. destruct (guard_sweep_lookup now' g key) as [->|(st & E & Hs & ->)].
  - by eapply paid_later.
  - rewrite E in Hp. rewrite Hwin in Hs. by eapply paid_swept.
Qed.

Lemma record_standard key now g : standard g → standard (recordFailure key now g).1.
Proof.
  intros Hg. unfold recordFailure. case_bool_decide; [done|]. pose proof (sweep_standard now g Hg).
  destruct (_ <? _); [done|]. by destruct (countFailure _ _ _).
Qed.

Lemma paid_other t0 now now' wrong n g key key' :
  standard g → now ≤ now' → key' ≠ key → paid t0 now wrong n (lg_entries g !! key) →
  paid t0 now' wrong n (lg_entries (recordFailure key' now' g).1 !! key).
Proof.
  intros Hg Hnow Hne Hp. unfold recordFailure. case_bool_decide; [by eapply paid_later|].
  pose proof (paid_sweep t0 now now' wrong n g key Hg Hnow Hp) as Hs.
  destruct (now' <? _); [cbn; by rewrite lookup_insert_ne|].
  destruct (countFailure _ _ _). cbn. by rewrite lookup_insert_ne.
Qed.

Lemma paid_record t0 now checked now' wrong n g key :
  standard g → key ≠ "" → t0 ≤ now → now ≤ checked → checked ≤ now' → 0 ≤ now' → 0 ≤ n < max_int64 →
  retryAfter key checked g = None → paid t0 now wrong n (lg_entries g !! key) →
  paid t0 now' (wrong + 1) (n + 1) (lg_entries (recordFailure key now' g).1 !! key).
Proof.
  intros Hg Hkey Ht Hnow Hchecked Hpos Hn Hretry Hp. unfold retryAfter, recordFailure in *.
  rewrite bool_decide_false in Hretry |- * by done.
  pose proof (sweep_standard now' g Hg) as Hg'.
  destruct (guard_sweep_lookup now' g key) as [Heq|(st & E & Hs & ->)].
  - rewrite Heq. destruct (lg_entries g !! key) as [st|] eqn:E.
    + change (default ?x (Some st)) with st. cbn in Hretry. destruct (checked <? la_lockedUntil st) eqn:El; [done|]. apply Z.ltb_ge in El.
      rewrite (proj2 (Z.ltb_ge _ _)) by lia.
      pose proof (paid_counted t0 now now' wrong n st (sweepLocked now' g) Hg' ltac:(lia) ltac:(lia) (proj2 Hn) Hp) as H.
      destruct (countFailure _ _ _). cbn in *. by rewrite lookup_insert_eq.
    + change (default ?x None) with x. rewrite (proj2 (Z.ltb_ge _ _)) by (cbn; lia).
      pose proof (paid_new t0 now now' wrong n (sweepLocked now' g) Hg' Ht ltac:(lia) (proj1 Hn) Hp) as H.
      destruct (countFailure _ _ _). cbn in *. by rewrite lookup_insert_eq.
  - rewrite E in Hp. change (default ?x None) with x. rewrite (proj2 (Z.ltb_ge _ _)) by (cbn; lia).
    destruct Hg as (_ & Hwin & _). rewrite Hwin in Hs.
    pose proof (paid_swept t0 now now' wrong n st ltac:(lia) Hs Hp) as Hp'.
    pose proof (paid_new t0 now' now' wrong n (sweepLocked now' g) Hg' ltac:(lia) ltac:(lia) (proj1 Hn) Hp') as H.
    destruct (countFailure _ _ _). cbn in *. by rewrite lookup_insert_eq.
Qed.

Lemma attemptKey_nonempty a : attemptKey a ≠ "".
Proof. unfold attemptKey, loginAttemptKey. intros H%append_eq_nil. by destruct H. Qed.

Section login.
Context (hmac : list Z → list Z → list Z) (decodeSecret : string → option (list Z))
        (GetByUsername : string → option Admin) (ComparePassword : string → string → bool)
        (Decrypt : string → option string) (issueAdminSession : Admin → option string).

#[local] Abbreviation verify := (verify hmac decodeSecret GetByUsername ComparePassword Decrypt).
#[local] Abbreviation Login := (Login hmac decodeSecret GetByUsername ComparePassword Decrypt issueAdminSession).

(** Calls that do not overlap, at times that do not go back. *)
Fixpoint in_order (now : Z) (l : list attempt) : Prop :=
  match l with
  | [] => True
  | a :: rest => now ≤ at_checked a ∧ at_checked a ≤ at_failed a ∧ in_order (at_failed a) rest
  end.

Fixpoint end_time (now : Z) (l : list attempt) : Z :=
  match l with [] => now | a :: rest => end_time (at_failed a) rest end.

(** The guess is judged, and wrong. *)
Definition judged_wrong (key : string) (a : attempt) (s : auth) : bool :=
  bool_decide (attemptKey a = key) && bool_decide (retryAfter key (at_checked a) (au_guard s) = None)
  && match (verify a (au_replay s)).2 with Wrong _ => true | _ => false end.

Fixpoint wrong_guesses (key : string) (l : list attempt) (s : auth) : Z :=
  match l with
  | [] => 0
  | a :: rest => (if judged_wrong key a s then 1 else 0) + wrong_guesses key rest (Login a s).1
  end.

(** Nobody logs in under the key meanwhile. *)
Fixpoint nobody_enters (key : string) (l : list attempt) (s : auth) : Prop :=
  match l with
  | [] => True
  | a :: rest =>
      (attemptKey a = key → ∀ admin, (verify a (au_replay s)).2 ≠ Right admin)
      ∧ nobody_enters key rest (Login a s).1
  end.

Lemma login_paid t0 now wrong n key a s :
  standard (au_guard s) → 0 ≤ t0 → t0 ≤ now → now ≤ at_checked a → at_checked a ≤ at_failed a →
  0 ≤ n < max_int64 →
  (attemptKey a = key → ∀ admin, (verify a (au_replay s)).2 ≠ Right admin) →
  paid t0 now wrong n (lg_entries (au_guard s) !! key) →
  standard (au_guard (Login a s).1)
  ∧ paid t0 (at_failed a) (wrong + if judged_wrong key a s then 1 else 0) (n + 1)
      (lg_entries (au_guard (Login a s).1) !! key).
Proof.
  intros Hg H0 Ht Hc Hf Hn Hnot Hp. unfold Login, judged_wrong.
  destruct (retryAfter (attemptKey a) (at_checked a) (au_guard s)) as [retry|] eqn:Er.
  { split; [done|]. replace (bool_decide (attemptKey a = key) && _) with false.
    - cbn. rewrite Z.add_0_r. eapply paid_later; [..|done]; lia.
    - destruct (bool_decide_reflect (attemptKey a = key)) as [<-|]; [|done].
      by rewrite Er. }
  destruct (verify a (au_replay s)) as [replay v]. cbn [snd] in *. unfold conclude.
  destruct v as [cause| |admin]; cbn [fst au_guard].
  - unfold failedLogin. pose proof (record_standard (attemptKey a) (at_failed a) (au_guard s) Hg) as Hstd.
    destruct (decide (attemptKey a = key)) as [<-|Hne].
    + rewrite !bool_decide_true, !andb_true_r by done. cbn [andb].
      pose proof (paid_record t0 now (at_checked a) (at_failed a) wrong n (au_guard s) (attemptKey a) Hg
        (attemptKey_nonempty a) Ht Hc Hf ltac:(lia) Hn Er Hp) as H.
      by destruct (recordFailure _ _ _) as [g [|]].
    + rewrite bool_decide_false by done. cbn [andb]. rewrite Z.add_0_r.
      pose proof (paid_other t0 now (at_failed a) wrong n (au_guard s) key (attemptKey a) Hg ltac:(lia) Hne Hp) as H.
      destruct (recordFailure _ _ _) as [g [|]]; cbn in *; (split; [done|eapply paid_later; [..|exact H]; lia]).
  - split; [done|]. rewrite andb_false_r, Z.add_0_r. eapply paid_later; [..|exact Hp]; lia.
  - rewrite andb_false_r, Z.add_0_r. unfold reset. rewrite bool_decide_false by apply attemptKey_nonempty.
    split; [done|]. destruct (decide (attemptKey a = key)) as [Heq|Hne].
    + by destruct (Hnot Heq admin).
    + cbn. rewrite lookup_delete_ne by done. eapply paid_later; [..|exact Hp]; lia.
Qed.

Lemma logins_paid key l : ∀ t0 now wrong n s,
  standard (au_guard s) → 0 ≤ t0 → t0 ≤ now → in_order now l → 0 ≤ n → n + Z.of_nat (length l) ≤ max_int64 →
  nobody_enters key l s → paid t0 now wrong n (lg_entries (au_guard s) !! key) →
  W * (wrong + wrong_guesses key l s - 29) ≤ 38 * (end_time now l - t0).
Proof.
  induction l as [|a rest IH]; intros t0 now wrong n s Hg H0 Ht Hl Hn Hlen Henter Hp; cbn [in_order nobody_enters] in *.
  - cbn. rewrite Z.add_0_r. by eapply paid_bound.
  - destruct Hl as (Hc & Hf & Hrest). destruct Henter as [Hnot Henter]. cbn [length] in Hlen.
    destruct (login_paid t0 now wrong n key a s Hg H0 Ht Hc Hf) as [Hg' Hp']; [lia|done..|].
    cbn [wrong_guesses end_time].
    rewrite Z.add_assoc. eapply IH; [exact Hg'|done|lia|done| | |done|exact Hp']; lia.
Qed.

(** C25: Guessing is slow.  Whatever logins are tried one after the other, under whatever names
    and addresses, however the administrators' table and the codes look, and though the guard
    forgets entries when it is full: as long as nobody logs in under an address and a name,
    the wrong guesses judged under them are at most 29, and 38 more for each 15 minutes. *)
Theorem guesses_are_limited key l t0 :
  0 ≤ t0 → in_order t0 l → Z.of_nat (length l) ≤ max_int64 → nobody_enters key l newAuth →
  (15 * Minute) * (wrong_guesses key l newAuth - 29) ≤ 38 * (end_time t0 l - t0).
Proof.
  intros H0 Hl Hlen Henter.
  apply (logins_paid key l t0 t0 0 0 newAuth); try done. constructor. lia.
Qed.
End login.

(** ** A code is good for one use *)

Section replay.
Context (hmac : list Z → list Z → list Z) (decodeSecret : string → option (list Z)).

(** A code that is tried: matched at [tr_matched], looked up in the guard at [tr_accepted]. *)
Record trial := mkTrial {
  tr_admin : uuid; tr_secret : string; tr_code : string; tr_matched : Z; tr_accepted : Z
}.

Definition try_code (t : trial) (g : totpReplayGuard) : totpReplayGuard * bool :=
  verifyTOTPForAdmin hmac decodeSecret (tr_admin t) (tr_secret t) (tr_code t) (tr_matched t) (tr_accepted t) g.

(** The order in which the guard sees them; a call takes at most three minutes between its
    two readings of the clock. *)
Fixpoint tried_in_order (now : Z) (l : list trial) : Prop :=
  match l with
  | [] => True
  | t :: rest =>
      now ≤ tr_accepted t ∧ tr_matched t ≤ tr_accepted t ≤ tr_matched t + 3 * Minute
      ∧ tried_in_order (tr_accepted t) rest
  end.

(** The periods whose codes an administrator was let in with. *)
Fixpoint periods_used (admin : uuid) (l : list trial) (g : totpReplayGuard) : list Z :=
  match l with
  | [] => []
  | t :: rest =>
      let '(g', ok) := try_code t g in
      (if ok && bool_decide (tr_admin t = admin)
       then option_list (matchTOTPCounter hmac decodeSecret (tr_secret t) (tr_code t) (tr_matched t)) else [])
      ++ periods_used admin rest g'
  end.

Definition period (t : Z) : Z := Z.quot (Unix t) totpPeriodSeconds.

Lemma period_mono a b : a ≤ b → period a ≤ period b.
Proof.
  intros H. unfold period, Unix, totpPeriodSeconds. apply Z.quot_le_mono; [done|].
  pose proof (Z.div_le_mono a b Second eq_refl H). lia.
Qed.

Lemma period_apart a b : a + 2 * Minute < b → period a + 3 ≤ period b.
Proof.
  intros H. unfold period, Unix, totpPeriodSeconds, Minute, Second in *.
  pose proof (Z.quot_rem' (a `div` 1000000000 - 62135596800) 30).
  pose proof (Z.quot_rem' (b `div` 1000000000 - 62135596800) 30).
  pose proof (Z.rem_bound_abs (a `div` 1000000000 - 62135596800) 30).
  pose proof (Z.rem_bound_abs (b `div` 1000000000 - 62135596800) 30).
  assert (a `div` 1000000000 + 120 ≤ b `div` 1000000000).
  { rewrite <- Z.div_add by done. apply Z.div_le_mono; lia. }
  lia.
Qed.

Lemma match_period secret code now c :
  matchTOTPCounter hmac decodeSecret secret code now = Some c → period now - 1 ≤ c ≤ period now + 1.
Proof.
  unfold matchTOTPCounter, period. destruct (negb _); [done|]. destruct (negb _); [done|].
  destruct (decodeSecret _); [|done]. cbn [mbind option_bind]. intros [Hin _]%find_some.
  cbn in Hin. set (q := Z.quot _ _) in *. lia.
Qed.

(** [used] are periods used before [now]: the guard remembers one that is not older, or they
    are out of reach. *)
Definition remembered (admin : uuid) (now : Z) (used : list Z) (g : totpReplayGuard) : Prop :=
  (∀ c, c ∈ used → (∃ e, g !! admin = Some e ∧ c ≤ re_counter e) ∨ c + 2 ≤ period (now - 3 * Minute))
  ∧ ∀ e, g !! admin = Some e → re_counter e ≤ period (re_seenAt e) + 1.

Lemma pruned admin now now' used g :
  now ≤ now' → remembered admin now used g → remembered admin now' used (pruneLocked now' g).
Proof.
  intros Hnow [Hu He]. split.
  - intros c Hc. destruct (Hu c Hc) as [(e & Hg & Hce)|Hdead].
    + destruct (decide (time_sub now' (re_seenAt e) ≤ totpReplayRetention)) as [Hk|Hk].
      * left. exists e. split; [|done]. by apply map_lookup_filter_Some.
      * right. specialize (He e Hg). pose proof (period_apart (re_seenAt e) (now' - 3 * Minute)).
        unfold time_sub, totpReplayRetention, Minute, max_int64, min_int64 in *. lia.
    + right. etransitivity; [exact Hdead|]. apply period_mono. lia.
  - intros e [H _]%map_lookup_filter_Some. by apply He.
Qed.

Lemma try_remembers admin now used t g :
  now ≤ tr_accepted t → tr_matched t ≤ tr_accepted t ≤ tr_matched t + 3 * Minute →
  remembered admin now used g →
  let '(g', ok) := try_code t g in
  if ok && bool_decide (tr_admin t = admin)
  then ∃ c, matchTOTPCounter hmac decodeSecret (tr_secret t) (tr_code t) (tr_matched t) = Some c
         ∧ (∀ c0, c0 ∈ used → c0 < c) ∧ remembered admin (tr_accepted t) (used ++ [c]) g'
  else remembered admin (tr_accepted t) used g'.
Proof.
  intros Hnow Ht Hrem. unfold try_code, verifyTOTPForAdmin.
  destruct (matchTOTPCounter _ _ _ _ _) as [c|] eqn:Ec.
  2: { cbn. destruct Hrem as [Hu He]. split; [|done]. intros c Hc.
       destruct (Hu c Hc) as [?|Hdead]; [by left|right]. etransitivity; [exact Hdead|]. apply period_mono. lia. }
  pose proof (match_period _ _ _ _ Ec) as Hc. pose proof (pruned admin now (tr_accepted t) used g Hnow Hrem) as Hp.
  unfold accept. set (g1 := pruneLocked (tr_accepted t) g) in *. clearbody g1.
  set (file := (<[tr_admin t := mkReplayEntry c (tr_accepted t)]> g1, true)).
  assert (period (tr_matched t) ≤ period (tr_accepted t)) as Hmono by (apply period_mono; lia).
  assert (period (tr_accepted t - 3 * Minute) ≤ period (tr_matched t)) as Hlate by (apply period_mono; lia).
  assert (Hfile : (∀ e, g1 !! tr_admin t = Some e → re_counter e < c) →
    let '(g', ok) := file in
    if ok && bool_decide (tr_admin t = admin)
    then ∃ c0, Some c = Some c0 ∧ (∀ c1, c1 ∈ used → c1 < c0) ∧ remembered admin (tr_accepted t) (used ++ [c0]) g'
    else remembered admin (tr_accepted t) used g').
  { intros Hfresh. subst file. cbn. destruct (bool_decide_reflect (tr_admin t = admin)) as [<-|Hne].
    - destruct Hp as [Hu He]. assert (∀ c1, c1 ∈ used → c1 < c) as Hlt.
      { intros c1 Hc1. destruct (Hu c1 Hc1) as [(e & Hg & ?)|?]; [specialize (Hfresh e Hg); lia|lia]. }
      exists c. split_and!; [done|done|]. split.
      + intros c1 [Hc1| ->%list_elem_of_singleton]%elem_of_app; left;
          exists (mkReplayEntry c (tr_accepted t)); (split; [apply lookup_insert_eq|cbn]); [|done].
        specialize (Hlt c1 Hc1). lia.
      + intros e He'. pose proof (eq_trans (eq_sym He') (lookup_insert_eq g1 (tr_admin t) _)) as [= ->]. cbn. lia.
    - destruct Hp as [Hu He]. pose proof (lookup_insert_ne g1 (tr_admin t) admin (mkReplayEntry c (tr_accepted t)) Hne) as H.
      split.
      + intros c0 Hc0. destruct (Hu c0 Hc0) as [(e & Hg & ?)|?]; [left; exists e|by right].
        split; [exact (eq_trans H Hg)|done].
      + intros e He'. apply He. exact (eq_trans (eq_sym H) He'). }
  destruct (g1 !! tr_admin t) as [e|] eqn:Eg.
  - destruct (c <=? re_counter e) eqn:Ele; [done|]. apply Z.leb_gt in Ele. apply Hfile. by intros e' [= <-].
  - by apply Hfile.
Qed.

Lemma periods_sorted admin l : ∀ now used g,
  tried_in_order now l → remembered admin now used g →
  StronglySorted Z.lt (periods_used admin l g)
  ∧ ∀ c c0, c ∈ periods_used admin l g → c0 ∈ used → c0 < c.
Proof.
  induction l as [|t rest IH]; intros now used g; cbn [tried_in_order periods_used].
  { split; [constructor|]. by intros ? ? ?%not_elem_of_nil. }
  intros (Hnow & Ht & Hrest) Hrem. pose proof (try_remembers admin now used t g Hnow Ht Hrem) as H.
  destruct (try_code t g) as [g' ok]. destruct (ok && _).
  - destruct H as (c & Hc & Hlt & Hrem'). rewrite Hc. cbn [option_list app].
    destruct (IH _ _ _ Hrest Hrem') as [Hs Hall]. split.
    + constructor; [done|]. apply list.Forall_forall. intros x Hx. apply (Hall x c Hx).
      apply elem_of_app. right. by left.
    + intros x c0 [->|Hx]%elem_of_cons Hc0; [by apply Hlt|]. apply (Hall x c0 Hx). apply elem_of_app. by left.
  - cbn [app]. by eapply IH.
Qed.

(** A one-time code lets in once.  Whatever codes are tried, for whatever administrators and
    however the calls overlap - each taking at most three minutes between its two readings of
    the clock: the periods whose codes an administrator was let in with only increase, so no
    code is accepted a second time, nor an older one after it, although the guard forgets what
    it has seen after five minutes. *)
Theorem codes_are_used_once admin l t0 :
  tried_in_order t0 l → StronglySorted Z.lt (periods_used admin l ∅).
Proof.
  intros Hl. eapply (periods_sorted admin l t0 [] ∅ Hl). split; [by intros ? ?%not_elem_of_nil|done].
Qed.
End replay.

(** However often a key was locked out before - the shift is done in 64 bits and the count
    has no bound - the next lockout lasts exactly a minute doubled once per lockout so far, at
    most 30 minutes. *)
Theorem lockout_doubles_to_the_maximum g k :
  standard g → 0 ≤ k → lockoutFor g k = Z.min (30 * Minute) (Minute * 2 ^ k).
Proof. apply lockoutFor_capped. Qed.

(** ** Logins that overlap *)

Section overlap.
Context (hmac : list Z → list Z → list Z) (decodeSecret : string → option (list Z))
        (GetByUsername : string → option Admin) (ComparePassword : string → string → bool)
        (Decrypt : string → option string) (issueAdminSession : Admin → option string).

(** [Login] holds no lock between its look at the guard and its verdict: a call begins, and
    the call that began first concludes. *)
Inductive login_step := Begin (a : attempt) | Conclude.

Record overlap := mkOverlap { ov_auth : auth; ov_begun : list attempt; ov_judged : nat }.

Definition overlap_step (o : overlap) (st : login_step) : overlap :=
  match st with
  | Begin a =>
      if bool_decide (retryAfter (attemptKey a) (at_checked a) (au_guard (ov_auth o)) = None)
      then mkOverlap (ov_auth o) (ov_begun o ++ [a]) (ov_judged o) else o
  | Conclude =>
      match ov_begun o with
      | [] => o
      | a :: rest =>
          let '(replay, v) := verify hmac decodeSecret GetByUsername ComparePassword Decrypt a (au_replay (ov_auth o)) in
          mkOverlap (conclude issueAdminSession a v (mkAuth (au_guard (ov_auth o)) replay)).1 rest (S (ov_judged o))
      end
  end.

Definition overlapping (steps : list login_step) (o : overlap) : overlap := fold_left overlap_step steps o.

Lemma login_overlaps a s :
  overlapping [Begin a; Conclude] (mkOverlap s [] 0)
  = mkOverlap (Login hmac decodeSecret GetByUsername ComparePassword Decrypt issueAdminSession a s).1 []
      (if bool_decide (retryAfter (attemptKey a) (at_checked a) (au_guard s) = None) then 1 else 0).
Proof.
  unfold overlapping, Login. cbn.
  destruct (retryAfter _ _ _); cbn; [done|]. by destruct (verify _ _ _ _ _ _ _).
Qed.

(** However many guesses begin before the first concludes, all of them are judged. *)
Theorem overlapping_guesses_are_all_judged l :
  ov_judged (overlapping (map Begin l ++ map (λ _, Conclude) l) (mkOverlap newAuth [] 0)) = length l.
Proof.
  unfold overlapping. rewrite fold_left_app.
  assert (H : ∀ begun, fold_left overlap_step (map Begin l) (mkOverlap newAuth begun 0) = mkOverlap newAuth (begun ++ l) 0).
  { induction l as [|a rest IH]; intros begun; cbn [map fold_left]; [by rewrite app_nil_r|].
    unfold overlap_step at 2. cbn [ov_auth ov_begun ov_judged newAuth au_guard].
    rewrite bool_decide_true.
    - by rewrite IH, <- app_assoc.
    - unfold retryAfter. by destruct (bool_decide _). }
  rewrite H. cbn [app]. clear H.
  assert (H : ∀ s n, ov_judged (fold_left overlap_step (map (λ _, Conclude) l) (mkOverlap s l n)) = (n + length l)%nat).
  { induction l as [|a rest IH]; intros s n; cbn [map fold_left length]; [cbn; lia|].
    unfold overlap_step at 2. cbn [ov_begun ov_auth ov_judged].
    destruct (verify _ _ _ _ _ _ _). rewrite IH. lia. }
  apply H.
Qed.
End overlap.

(** ** Concrete runs *)

Definition wrong_guess (t : Z) : attempt := mkAttempt "root" "guess" "" "10.0.0.7:4711" t t t t.

(** Seven guesses in a row: the sixth and the seventh are turned away. *)
Definition seven_guesses : list attempt := map wrong_guess [0; 1; 2; 3; 4; 5; 6].

(** A code that shows the counter it was made for. *)
Definition plain_hmac (secret message : list Z) : list Z := rev message ++ secret.

Definition plain_trial (code : string) (t : Z) : trial :=
  mkTrial 7%N "SECRET" code (Second * 62135596800 + t * Second) (Second * 62135596800 + t * Second).

Definition three_trials : list trial :=
  [plain_trial (totpCode plain_hmac [0] 2) 65; plain_trial (totpCode plain_hmac [0] 2) 70;
   plain_trial (totpCode plain_hmac [0] 3) 75].

Lemma lockout_doubles_to_the_maximum_witness :
  standard newLoginGuard ∧ lockoutFor newLoginGuard 3 = 8 * Minute
  ∧ lockoutFor newLoginGuard 70 = Z.min (30 * Minute) (Minute * 2 ^ 70).
Proof. split_and!; [done..|]. by apply (lockout_doubles_to_the_maximum newLoginGuard 70). Defined.

Lemma guesses_are_limited_witness :
  wrong_guesses plain_hmac (λ _, None) (λ _, None) (λ _ _, false) (λ _, None) (λ _, None)
    "10.0.0.7" seven_guesses newAuth = 0
  ∧ wrong_guesses plain_hmac (λ _, None) (λ _, None) (λ _ _, false) (λ _, None) (λ _, None)
      (attemptKey (wrong_guess 0)) seven_guesses newAuth = 5
  ∧ (15 * Minute) * (wrong_guesses plain_hmac (λ _, None) (λ _, None) (λ _ _, false) (λ _, None) (λ _, None)
      (attemptKey (wrong_guess 0)) seven_guesses newAuth - 29) ≤ 38 * (end_time 0 seven_guesses - 0).
Proof.
  split_and!; [vm_compute; reflexivity..|].
  apply (guesses_are_limited plain_hmac (λ _, None) (λ _, None) (λ _ _, false) (λ _, None) (λ _, None)
    (attemptKey (wrong_guess 0)) seven_guesses 0); [lia| |done|].
  - unfold seven_guesses, wrong_guess. cbn. lia.
  - cbn. repeat split; intros _ ? [=].
Defined.

Lemma codes_are_used_once_witness :
  periods_used plain_hmac (λ _, Some [0]) 7%N three_trials ∅ = [2; 3]
  ∧ StronglySorted Z.lt (periods_used plain_hmac (λ _, Some [0]) 7%N three_trials ∅).
Proof.
  split; [vm_compute; reflexivity|].
  apply (codes_are_used_once plain_hmac (λ _, Some [0]) 7%N three_trials 0).
  vm_compute. repeat split; discriminate.
Defined.
