(* ===== verification/Pricing.v ===== *)
(** * What a request costs

    [gateway/pricing.go] and [gateway/pricing_long_context.go]: the prices that apply
    to an attempt, the token counts an upstream reports, the cost they make and the
    multipliers on it.  Counts are [int], prices [float64]. *)

From Stdlib Require Import ZifyBool.
From S2P Require Import Prelude GoFloat Catalog Json Router Cooldown.

(** ** Data *)

Record longContextRule := mkLongContext {
  ThresholdTokens : Z;
  InputMultiplier : float64;
  OutputMultiplier : float64
}.

(** [PricingVariants] is read only to find the long-context rule and the fast mode's
    prices, which take it as an argument. *)
Record selectedPricing := mkPricing {
  p_GroupName : string;
  p_Currency : string;
  p_InputValue : option float64;
  p_OutputValue : option float64;
  p_CacheRatio : option float64;
  p_CacheWriteRatio : option float64;
  p_CacheWrite1hRatio : option float64;
  p_GroupRatio : option float64;
  p_ModelRatio : option float64;
  p_CompletionRatio : option float64;
  p_ImageRatio : option float64;
  p_AudioRatio : option float64;
  p_AudioCompletionRatio : option float64;
  p_ModelPrice : option float64;
  p_PerRequestValue : option float64;
  p_BillingType : string;
  p_QuotaType : option Z;
  p_LongContextRule : option longContextRule;
  p_LongContextApplied : bool
}.

(** [promptTokensDetails]: cached and cache-write tokens. *)
Record promptTokensDetails := mkDetails { d_CachedTokens : Z; d_CacheWriteTokens : Z }.

Record gatewayUsage := mkUsage {
  PromptTokens : Z;
  CompletionTokens : Z;
  TotalTokens : Z;
  ImageCount : Z;
  CachedPromptTokens : Z;
  PromptCacheHitTokens : Z;
  PromptCacheMissTokens : Z;
  CacheWriteTokens : Z;
  CacheCreationInputTokens : Z;
  CacheCreation5mInputTokens : Z;
  CacheCreation1hInputTokens : Z;
  ReasoningTokens : Z;
  InputTextTokens : Z;
  InputImageTokens : Z;
  OutputImageTokens : Z;
  AudioOutputTokens : Z;
  PromptTokensDetail : option promptTokensDetails
}.

(** ** Token counts *)

(** The statements of [normalized], in order; each one reads what those before it
    left. *)
Definition normalized (u : gatewayUsage) : gatewayUsage :=
  let hit := Z.max 0 (PromptCacheHitTokens u) in
  let miss := Z.max 0 (PromptCacheMissTokens u) in
  let prompt := if (PromptTokens u =? 0) && ((0 <? hit) || (0 <? miss)) then add64 hit miss
                else PromptTokens u in
  let cached := if (CachedPromptTokens u =? 0) && (0 <? hit) then hit else CachedPromptTokens u in
  let cached := match PromptTokensDetail u with
                | Some d => if cached =? 0 then d_CachedTokens d else cached
                | None => cached end in
  let cached := Z.max 0 cached in
  let written := match PromptTokensDetail u with
                 | Some d => if CacheWriteTokens u =? 0 then d_CacheWriteTokens d else CacheWriteTokens u
                 | None => CacheWriteTokens u end in
  let written := Z.max 0 written in
  let created := if CacheCreationInputTokens u =? 0
                 then add64 (CacheCreation5mInputTokens u) (CacheCreation1hInputTokens u)
                 else CacheCreationInputTokens u in
  let created5m := if (CacheCreation5mInputTokens u =? 0) && (CacheCreation1hInputTokens u =? 0)
                      && (0 <? created) then created else CacheCreation5mInputTokens u in
  let cached := if (0 <? prompt) && (prompt <? cached) then prompt else cached in
  let written := if (0 <? prompt) && (prompt <? written) then prompt else written in
  let total := if TotalTokens u =? 0 then add64 prompt (CompletionTokens u) else TotalTokens u in
  mkUsage prompt (CompletionTokens u) total (ImageCount u) cached hit miss written created created5m
    (CacheCreation1hInputTokens u) (ReasoningTokens u) (InputTextTokens u) (InputImageTokens u)
    (OutputImageTokens u) (AudioOutputTokens u) (PromptTokensDetail u).

Definition hasCacheCreationBreakdown (u : gatewayUsage) : bool :=
  (0 <? CacheCreation5mInputTokens u) || (0 <? CacheCreation1hInputTokens u).

Definition uncachedPromptTokens (u : gatewayUsage) : Z :=
  let uncached := sub64 (sub64 (sub64 (PromptTokens u) (CachedPromptTokens u))
                               (CacheCreationInputTokens u)) (CacheWriteTokens u) in
  if uncached <? 0 then 0 else uncached.

Definition inputTextTokensOrPrompt (u : gatewayUsage) : Z :=
  if 0 <? InputTextTokens u then InputTextTokens u
  else if InputImageTokens u =? 0 then PromptTokens u else 0.

Definition outputImageTokensOrCompletion (u : gatewayUsage) : Z :=
  if 0 <? OutputImageTokens u then OutputImageTokens u else CompletionTokens u.

(** ** Costs: [None] is a nil pointer, or [ok = false]. *)

Definition million : float64 := of_int 1000000.

(** [float64(tokens) * value / 1_000_000] *)
Definition token_cost (tokens : Z) (value : float64) : float64 :=
  fdiv (fmul (of_int tokens) value) million.

(** [float64(tokens) * value * ratio / 1_000_000] *)
Definition token_cost_ratio (tokens : Z) (value ratio : float64) : float64 :=
  fdiv (fmul (fmul (of_int tokens) value) ratio) million.

Definition cacheWriteRatioValue (ratio : option float64) : float64 := default (of_int 1) ratio.

(** [total += cost; usedPrice = true], from [total = 0] and [usedPrice = false]. *)
Definition charge (total : option float64) (cost : option float64) : option float64 :=
  match cost with
  | Some c => Some (fadd (default fzero total) c)
  | None => total
  end.

Definition charge_all (costs : list (option float64)) : option float64 := fold_left charge costs None.

(** A cost that is only charged for a positive number of tokens. *)
Definition if_tokens (tokens : Z) (cost : float64) : option float64 :=
  if 0 <? tokens then Some cost else None.

Definition cacheWriteTokenCost (usage : gatewayUsage) (pricing : selectedPricing) : option float64 :=
  match p_InputValue pricing with
  | None => None
  | Some input =>
      let usage := normalized usage in
      let write tokens ratio :=
        if_tokens tokens (token_cost_ratio tokens input (cacheWriteRatioValue ratio)) in
      let ratio1h := match p_CacheWrite1hRatio pricing with
                     | Some r => Some r | None => p_CacheWriteRatio pricing end in
      charge_all
        (write (CacheWriteTokens usage) (p_CacheWriteRatio pricing) ::
         if hasCacheCreationBreakdown usage
         then [write (CacheCreation5mInputTokens usage) (p_CacheWriteRatio pricing);
               write (CacheCreation1hInputTokens usage) ratio1h]
         else [write (CacheCreationInputTokens usage) (p_CacheWriteRatio pricing)])
  end.

Definition audioOutputUnitValue (pricing : selectedPricing) : option float64 :=
  input ← p_InputValue pricing;
  ratio ← p_AudioRatio pricing;
  Some (match p_AudioCompletionRatio pricing with
        | Some r => fmul (fmul input ratio) r
        | None => fmul input ratio
        end).

Definition imageUnitCost (pricing : selectedPricing) : option float64 :=
  input ← p_InputValue pricing;
  ratio ← p_ImageRatio pricing;
  Some (fmul input ratio).

Definition imageTokenCost (usage : gatewayUsage) (pricing : selectedPricing) : option float64 :=
  charge_all
    [ input ← p_InputValue pricing;
      if_tokens (inputTextTokensOrPrompt usage) (token_cost (inputTextTokensOrPrompt usage) input);
      input ← p_InputValue pricing;
      ratio ← p_ImageRatio pricing;
      if_tokens (InputImageTokens usage) (token_cost_ratio (InputImageTokens usage) input ratio);
      output ← p_OutputValue pricing;
      if_tokens (outputImageTokensOrCompletion usage)
        (token_cost (outputImageTokensOrCompletion usage) output) ].

Definition isPerRequestPricing (pricing : selectedPricing) : bool :=
  if bool_decide (p_QuotaType pricing = Some 1) then true
  else bool_decide (TrimSpace (ToLower (p_BillingType pricing)) ∈ ["per_request"; "fixed"]).

Definition perRequestCost (pricing : selectedPricing) : option float64 :=
  match p_PerRequestValue pricing, p_ModelPrice pricing with
  | Some value, _ => Some value
  | None, None => None
  | None, Some price => Some (fmul price (default (of_int 1) (p_GroupRatio pricing)))
  end.

Definition estimateCost (usage : gatewayUsage) (pricing : selectedPricing) : option float64 :=
  let usage := normalized usage in
  if isPerRequestPricing pricing then perRequestCost pricing
  else if 0 <? ImageCount usage then
    match imageTokenCost usage pricing with
    | Some total => Some total
    | None => (λ value, fmul (of_int (ImageCount usage)) value) <$> imageUnitCost pricing
    end
  else charge_all
    [ input ← p_InputValue pricing;
      if_tokens (uncachedPromptTokens usage) (token_cost (uncachedPromptTokens usage) input);
      input ← p_InputValue pricing;
      ratio ← p_CacheRatio pricing;
      if_tokens (CachedPromptTokens usage) (token_cost_ratio (CachedPromptTokens usage) input ratio);
      cacheWriteTokenCost usage pricing;
      output ← p_OutputValue pricing;
      if_tokens (CompletionTokens usage) (token_cost (CompletionTokens usage) output);
      value ← audioOutputUnitValue pricing;
      if_tokens (AudioOutputTokens usage) (token_cost (AudioOutputTokens usage) value) ].

(** ** Long contexts *)

Definition with_values (input output : option float64) (applied : bool) (p : selectedPricing)
    : selectedPricing :=
  mkPricing (p_GroupName p) (p_Currency p) input output (p_CacheRatio p) (p_CacheWriteRatio p)
    (p_CacheWrite1hRatio p) (p_GroupRatio p) (p_ModelRatio p) (p_CompletionRatio p) (p_ImageRatio p)
    (p_AudioRatio p) (p_AudioCompletionRatio p) (p_ModelPrice p) (p_PerRequestValue p)
    (p_BillingType p) (p_QuotaType p) (p_LongContextRule p) applied.

Definition applyLongContextPricing (usage : gatewayUsage) (pricing : selectedPricing)
    : selectedPricing :=
  match p_LongContextRule pricing with
  | None => pricing
  | Some rule =>
      if p_LongContextApplied pricing then pricing
      else if isPerRequestPricing pricing then pricing
      else
        let usage := normalized usage in
        if (0 <? ImageCount usage) || (PromptTokens usage <=? ThresholdTokens rule) then pricing
        else with_values
               ((λ v, fmul v (InputMultiplier rule)) <$> p_InputValue pricing)
               ((λ v, fmul v (OutputMultiplier rule)) <$> p_OutputValue pricing) true pricing
  end.

(** [value.(map[string]any)[key]]: nil when it is no map or has no such key; the last
    member of a name counts. *)
Definition member (value : any) (key : string) : any :=
  match value with
  | AObject members =>
      default ANil (snd <$> list_find (λ kv, kv.1 = key) (rev members) ≫= λ kv, Some kv.2)
  | _ => ANil
  end.

Definition as_float (value : any) : option float64 :=
  match value with AFloat f => Some f | _ => None end.

(** The first tier of type context with a size: the tier and the size. *)
Fixpoint contextTier (tiers : list any) : option (any * float64) :=
  match tiers with
  | [] => None
  | price :: rest =>
      match member (member price "tier") "type", as_float (member (member price "tier") "size") with
      | AString t, Some size => if bool_decide (t = "context") then Some (price, size) else contextTier rest
      | _, _ => contextTier rest
      end
  end.

(** [toInt] is Go's conversion of a float that no [int] represents, which the language
    leaves open. *)
Definition longContextRuleForVariants (toInt : float64 → Z) (raw : any) : option longContextRule :=
  let c := member raw "cost" in
  let '(over, threshold) :=
    match member c "tiers" with
    | AArray tiers =>
        match contextTier tiers with
        | Some (price, size) => (price, default (toInt size) (trunc_int64 size))
        | None => (member c "context_over_200k", 200000)
        end
    | _ => (member c "context_over_200k", 200000)
    end in
  let number v := default fzero (as_float v) in
  let input := number (member c "input") in
  let output := number (member c "output") in
  let overInput := number (member over "input") in
  let overOutput := number (member over "output") in
  if fle input fzero || fle output fzero || fle overInput fzero || fle overOutput fzero then None
  else Some (mkLongContext threshold (fdiv overInput input) (fdiv overOutput output)).

(** ** The prices of an attempt *)

(** [store.GatewayPricing]; NULL is [None]. *)
Record GatewayPricing := mkGatewayPricing {
  gp_GroupName : option string;
  gp_Currency : option string;
  gp_InputValue : option float64;
  gp_OutputValue : option float64;
  gp_CacheRatio : option float64;
  gp_CreateCacheRatio : option float64;
  gp_CreateCache1hRatio : option float64;
  gp_GroupRatio : option float64;
  gp_ModelRatio : option float64;
  gp_CompletionRatio : option float64;
  gp_ImageRatio : option float64;
  gp_AudioRatio : option float64;
  gp_AudioCompletionRatio : option float64;
  gp_ModelPrice : option float64;
  gp_PerRequestValue : option float64;
  gp_BillingType : option string;
  gp_QuotaType : option Z
}.

Definition firstPricingValue {A} (primary fallback : option A) : option A :=
  match primary with Some v => Some v | None => fallback end.

(** [stringValue] of a pointer *)
Definition stringPtrValue (value : option string) (fallback : string) : string :=
  match value with Some v => stringValue v fallback | None => fallback end.

(** [row] is what [GetPricingForSiteModel] finds, [variants] the model's decoded
    pricing variants. *)
Definition gatewayPricing (toInt : float64 → Z) (candidate : Candidate) (variants : any)
    (row : result GatewayPricing string) : selectedPricing :=
  let c := cd_Pricing candidate in
  let fallback :=
    mkPricing (stringPtrValue (cp_GroupName c) "") (stringPtrValue (cp_Currency c) "USD")
      (firstPricingValue (cp_BaseInputValue c) (cp_InputValue c))
      (firstPricingValue (cp_BaseOutputValue c) (cp_OutputValue c))
      None None None None None None None None None None
      (firstPricingValue (cp_BasePerRequestValue c) (cp_PerRequestValue c))
      (default "" (cp_BillingType c)) (cp_QuotaType c)
      (longContextRuleForVariants toInt variants) false in
  match row with
  | Err _ => fallback
  | Ok r =>
      mkPricing (default (p_GroupName fallback) (gp_GroupName r))
        (stringPtrValue (gp_Currency r) (p_Currency fallback))
        (firstPricingValue (gp_InputValue r) (p_InputValue fallback))
        (firstPricingValue (gp_OutputValue r) (p_OutputValue fallback))
        (gp_CacheRatio r) (gp_CreateCacheRatio r) (gp_CreateCache1hRatio r) (gp_GroupRatio r)
        (gp_ModelRatio r) (gp_CompletionRatio r) (gp_ImageRatio r) (gp_AudioRatio r)
        (gp_AudioCompletionRatio r) (gp_ModelPrice r)
        (firstPricingValue (gp_PerRequestValue r) (p_PerRequestValue fallback))
        (default (p_BillingType fallback) (gp_BillingType r))
        (firstPricingValue (gp_QuotaType r) (p_QuotaType fallback))
        (p_LongContextRule fallback) false
  end.

(** ** Multipliers *)

Record billingAdjustment := mkAdjustment {
  ServiceTier : string;
  Mode : string;
  Multiplier : float64;
  Reason : string
}.

Definition isFastServiceTier (serviceTier : string) : bool :=
  bool_decide (TrimSpace (ToLower serviceTier) ∈ ["fast"; "priority"]).

(** [tier] is [payload["service_tier"]]. *)
Definition billingAdjustmentFromPayload (tier : any) : billingAdjustment :=
  let serviceTier :=
    match tier with AString s => TrimSpace (ToLower (TrimSpace s)) | _ => "" end in
  if bool_decide (serviceTier = "standard") then mkAdjustment serviceTier "standard" (of_int 1) ""
  else if negb (isFastServiceTier serviceTier) then mkAdjustment serviceTier "" (of_int 1) ""
  else mkAdjustment serviceTier "fast" (of_int 1) "".

(** [gatewayAttemptResult], the fields that make the bill. *)
Record billedResult := mkBilled {
  b_estimatedCost : option float64;
  b_baseEstimatedCost : option float64;
  b_pricing : selectedPricing;
  b_billingMode : string;
  b_costMultiplier : float64;
  b_credentialCostMultiplier : float64;
  b_apiKeyBillingMultiplier : float64
}.

Definition gatewayBillingMultiplier (r : billedResult) : float64 :=
  let credential := if fle (b_credentialCostMultiplier r) fzero then of_int 1
                    else b_credentialCostMultiplier r in
  let apiKey := if fle (b_apiKeyBillingMultiplier r) fzero then of_int 1
                else b_apiKeyBillingMultiplier r in
  let service := if bool_decide (b_billingMode r = "fast") && fgt (b_costMultiplier r) (of_int 1)
                 then b_costMultiplier r else of_int 1 in
  fmul (fmul credential service) apiKey.

Definition applyEstimatedCostBillingAdjustment (r : billedResult) : billedResult :=
  match b_estimatedCost r with
  | None => r
  | Some baseCost =>
      let multiplier := gatewayBillingMultiplier r in
      let cost := if feq multiplier (of_int 1) then baseCost else fmul baseCost multiplier in
      mkBilled (Some cost) (Some baseCost) (b_pricing r) (b_billingMode r) (b_costMultiplier r)
        (b_credentialCostMultiplier r) (b_apiKeyBillingMultiplier r)
  end.

(** The bill [handleBufferedResponse] makes of a successful response. *)
Definition billed (usage : gatewayUsage) (r : billedResult) : billedResult :=
  let pricing := applyLongContextPricing usage (b_pricing r) in
  applyEstimatedCostBillingAdjustment
    (mkBilled (estimateCost usage pricing) (b_baseEstimatedCost r) pricing (b_billingMode r)
       (b_costMultiplier r) (b_credentialCostMultiplier r) (b_apiKeyBillingMultiplier r)).

Definition cacheWriteCostForAttempt (usage : gatewayUsage) (r : billedResult) : option float64 :=
  (λ cost, fmul cost (gatewayBillingMultiplier r)) <$> cacheWriteTokenCost usage (b_pricing r).

(** [applyCatalogCost]: the three ratios are separate fields, so the order in which the
    map of them is visited does not matter. *)
Definition applyCatalogCost (pricing : selectedPricing) (cost : any) : selectedPricing :=
  let input := firstPricingValue (as_float (member cost "input")) (p_InputValue pricing) in
  let output := firstPricingValue (as_float (member cost "output")) (p_OutputValue pricing) in
  let ratio key old :=
    match input, as_float (member cost key) with
    | Some i, Some v => if fgt i fzero then Some (fdiv v i) else old
    | _, _ => old
    end in
  mkPricing (p_GroupName pricing) (p_Currency pricing) input output
    (ratio "cache_read" (p_CacheRatio pricing)) (ratio "cache_write" (p_CacheWriteRatio pricing))
    (ratio "cache_write_1h" (p_CacheWrite1hRatio pricing)) (p_GroupRatio pricing) (p_ModelRatio pricing)
    (p_CompletionRatio pricing) (p_ImageRatio pricing) (p_AudioRatio pricing)
    (p_AudioCompletionRatio pricing) (p_ModelPrice pricing) (p_PerRequestValue pricing)
    (p_BillingType pricing) (p_QuotaType pricing) (p_LongContextRule pricing)
    (p_LongContextApplied pricing).

(** ** Counts of an honest upstream *)

(** No count is negative, and sums fit in an [int]. *)
Definition count_ok (n : Z) : Prop := 0 ≤ n ≤ 2 ^ 60.

Record usage_ok (u : gatewayUsage) : Prop := {
  uo_prompt : count_ok (PromptTokens u);
  uo_completion : count_ok (CompletionTokens u);
  uo_cached : count_ok (CachedPromptTokens u);
  uo_hit : count_ok (PromptCacheHitTokens u);
  uo_miss : count_ok (PromptCacheMissTokens u);
  uo_written : count_ok (CacheWriteTokens u);
  uo_created : count_ok (CacheCreationInputTokens u);
  uo_created5m : count_ok (CacheCreation5mInputTokens u);
  uo_created1h : count_ok (CacheCreation1hInputTokens u);
  uo_detail : ∀ d, PromptTokensDetail u = Some d → count_ok (d_CachedTokens d) ∧ count_ok (d_CacheWriteTokens d)
}.

(** Decide the conditions one by one; [lia] closes the impossible cases. *)
Ltac counts :=
  unfold count_ok in *;
  repeat first
    [ match goal with
      | |- context [add64 ?a ?b] =>
          rewrite (add64_small a b) by (unfold in_int64, min_int64, max_int64; lia)
      end
    | match goal with
      | |- context [if ?b then _ else _] =>
          lazymatch b with context [if _ then _ else _] => fail | _ => destruct b eqn:?; try lia end
      end ];
  try lia.

Lemma normalized_idempotent u : usage_ok u → normalized (normalized u) = normalized u.
Proof.
  intros [Hp Hc Hca Hh Hm Hw Hcr H5 H1 Hd].
  unfold normalized. cbn.
  assert (Hdet : ∀ d, PromptTokensDetail u = Some d → count_ok (d_CachedTokens d) ∧ count_ok (d_CacheWriteTokens d)) by done.
  destruct (PromptTokensDetail u) as [d|]; [destruct (Hdet d eq_refl) as [Hd1 Hd2]|]; f_equal; clear Hd Hdet.
  all: try solve [counts].
Qed.

(** The breakdown by lifetime, when both are reported, adds up to the total. *)
Definition breakdown_ok (u : gatewayUsage) : Prop :=
  CacheCreationInputTokens u = 0
  ∨ (CacheCreation5mInputTokens u = 0 ∧ CacheCreation1hInputTokens u = 0)
  ∨ CacheCreationInputTokens u = CacheCreation5mInputTokens u + CacheCreation1hInputTokens u.

(** What [normalized] makes of the cache-creation counts. *)
Lemma normalized_created u :
  usage_ok u → breakdown_ok u →
  let n := normalized u in
  0 ≤ CacheCreation5mInputTokens n ∧ 0 ≤ CacheCreation1hInputTokens n
  ∧ CacheCreationInputTokens n = CacheCreation5mInputTokens n + CacheCreation1hInputTokens n.
Proof.
  intros [Hp Hc Hca Hh Hm Hw Hcr H5 H1 Hd] Hb. unfold normalized, breakdown_ok in *. cbn.
  clear Hd. split_and!; counts.
Qed.

Lemma normalized_range u :
  usage_ok u →
  let n := normalized u in
  0 ≤ PromptTokens n ≤ 2 ^ 61 ∧ 0 ≤ CachedPromptTokens n ≤ 2 ^ 61
  ∧ 0 ≤ CacheWriteTokens n ≤ 2 ^ 61 ∧ 0 ≤ CacheCreationInputTokens n ≤ 2 ^ 61.
Proof.
  intros [Hp Hc Hca Hh Hm Hw Hcr H5 H1 Hd]. unfold normalized. cbn.
  destruct (PromptTokensDetail u) as [d|];
    [destruct (Hd d eq_refl) as [Hd1 Hd2]|]; clear Hd; split_and!; counts.
Qed.

Lemma cacheWriteTokenCost_lines u pricing input :
  usage_ok u → breakdown_ok u → p_InputValue pricing = Some input →
  let n := normalized u in
  let write tokens ratio :=
    if_tokens tokens (token_cost_ratio tokens input (cacheWriteRatioValue ratio)) in
  cacheWriteTokenCost n pricing
  = charge_all [write (CacheWriteTokens n) (p_CacheWriteRatio pricing);
                write (CacheCreation5mInputTokens n) (p_CacheWriteRatio pricing);
                write (CacheCreation1hInputTokens n)
                  (firstPricingValue (p_CacheWrite1hRatio pricing) (p_CacheWriteRatio pricing))].
Proof.
  intros Hok Hb Hi. cbv zeta. unfold cacheWriteTokenCost. rewrite Hi, normalized_idempotent by done.
  destruct (normalized_created u Hok Hb) as (H5 & H1 & Hsum).
  set (n := normalized u) in *. unfold hasCacheCreationBreakdown.
  destruct (_ || _) eqn:E; [done|].
  assert (CacheCreation5mInputTokens n = 0) as -> by lia.
  assert (CacheCreation1hInputTokens n = 0) as -> by lia.
  by assert (CacheCreationInputTokens n = 0) as -> by lia.
Qed.

(** C40: Take a price per token with an input price, a request that makes no image, and
    counts that are not negative, whose classes fit into the prompt and whose cache creation
    adds up.  Then every prompt token falls in exactly one class - uncached, read from the
    cache, written to it plainly, for 5 minutes or for an hour - and the estimate is the sum
    of these classes at their rates, of the completion and of the audio.  Tokens read from
    the cache cost nothing when the price has no cache ratio. *)
Theorem prompt_tokens_billed_once (u : gatewayUsage) (pricing : selectedPricing) (input : float64)
    (Hok : usage_ok u) (Hbreakdown : breakdown_ok u)
    (Hfit : CachedPromptTokens (normalized u) + CacheCreationInputTokens (normalized u)
            + CacheWriteTokens (normalized u) ≤ PromptTokens (normalized u))
    (Hinput : p_InputValue pricing = Some input)
    (Htext : isPerRequestPricing pricing = false ∧ ImageCount u ≤ 0) :
  let n := normalized u in
  let write tokens ratio :=
    if_tokens tokens (token_cost_ratio tokens input (cacheWriteRatioValue ratio)) in
  uncachedPromptTokens n + CachedPromptTokens n + CacheWriteTokens n
    + CacheCreation5mInputTokens n + CacheCreation1hInputTokens n = PromptTokens n
  ∧ estimateCost u pricing
    = charge_all
        [ if_tokens (uncachedPromptTokens n) (token_cost (uncachedPromptTokens n) input);
          ratio ← p_CacheRatio pricing;
          if_tokens (CachedPromptTokens n) (token_cost_ratio (CachedPromptTokens n) input ratio);
          charge_all
            [ write (CacheWriteTokens n) (p_CacheWriteRatio pricing);
              write (CacheCreation5mInputTokens n) (p_CacheWriteRatio pricing);
              write (CacheCreation1hInputTokens n)
                (firstPricingValue (p_CacheWrite1hRatio pricing) (p_CacheWriteRatio pricing)) ];
          output ← p_OutputValue pricing;
          if_tokens (CompletionTokens u) (token_cost (CompletionTokens u) output);
          value ← audioOutputUnitValue pricing;
          if_tokens (AudioOutputTokens u) (token_cost (AudioOutputTokens u) value) ].
Proof.
  destruct Htext as [Htext Himg]. cbv zeta. split.
  - destruct (normalized_created u Hok Hbreakdown) as (H5 & H1 & Hsum).
    destruct (normalized_range u Hok) as (? & ? & ? & ?).
    set (n := normalized u) in *. unfold uncachedPromptTokens.
    rewrite (sub64_small (PromptTokens n)) by (unfold in_int64, min_int64, max_int64; lia).
    rewrite (sub64_small (PromptTokens n - _)) by (unfold in_int64, min_int64, max_int64; lia).
    rewrite sub64_small by (unfold in_int64, min_int64, max_int64; lia).
    rewrite (proj2 (Z.ltb_ge _ 0)) by lia. lia.
  - unfold estimateCost. rewrite Htext.
    change (ImageCount (normalized u)) with (ImageCount u).
    rewrite (proj2 (Z.ltb_ge 0 (ImageCount u))) by done.
    rewrite (cacheWriteTokenCost_lines u pricing input) by done. by rewrite Hinput.
Qed.

(** ** The bill *)

Definition price_ok (price : option float64) : Prop := ∀ v, price = Some v → fnonneg v.

Record pricing_ok (p : selectedPricing) : Prop := {
  po_input : price_ok (p_InputValue p);
  po_output : price_ok (p_OutputValue p);
  po_cache : price_ok (p_CacheRatio p);
  po_write : price_ok (p_CacheWriteRatio p);
  po_write1h : price_ok (p_CacheWrite1hRatio p);
  po_image : price_ok (p_ImageRatio p);
  po_audio : price_ok (p_AudioRatio p);
  po_audioCompletion : price_ok (p_AudioCompletionRatio p);
  po_group : price_ok (p_GroupRatio p);
  po_model : price_ok (p_ModelPrice p);
  po_request : price_ok (p_PerRequestValue p);
  po_long : ∀ r, p_LongContextRule p = Some r → fnonneg (InputMultiplier r) ∧ fnonneg (OutputMultiplier r)
}.

Lemma charge_all_ok costs : Forall price_ok costs → price_ok (charge_all costs).
Proof.
  unfold charge_all. assert (Hgen : ∀ total, price_ok total → Forall price_ok costs →
    price_ok (fold_left charge costs total)); [|by apply Hgen].
  induction costs as [|c costs IH]; intros total Ht Hc; [done|].
  apply list.Forall_cons in Hc as [Hc Hcs]. cbn [fold_left]. apply IH; [|done].
  destruct c as [c|]; [|done]. intros v [= <-].
  destruct total as [t|]; cbn; auto with fnonneg.
Qed.

Lemma token_cost_ok tokens cost :
  (0 < tokens → fnonneg cost) → price_ok (if_tokens tokens cost).
Proof.
  intros Hc v. unfold if_tokens. destruct (0 <? tokens) eqn:E; intros [= <-]. apply Hc. lia.
Qed.

Lemma price_bind_ok (price : option float64) (f : float64 → option float64) :
  (∀ v, price = Some v → price_ok (f v)) → price_ok (price ≫= f).
Proof. intros H. destruct price as [v|]; [by apply H|by intros v]. Qed.

Lemma ratio_ok ratio : price_ok ratio → fnonneg (cacheWriteRatioValue ratio).
Proof. intros H. destruct ratio as [r|]; cbn; [by apply H|by apply of_int_nonneg]. Qed.

Lemma million_ok : fnonneg million.
Proof. by apply of_int_nonneg. Qed.

#[local] Hint Resolve million_ok ratio_ok : fnonneg.

Lemma lines_ok tokens value ratio :
  fnonneg value → fnonneg ratio →
  price_ok (if_tokens tokens (token_cost tokens value))
  ∧ price_ok (if_tokens tokens (token_cost_ratio tokens value ratio)).
Proof.
  intros Hv Hr. unfold token_cost, token_cost_ratio.
  split; apply token_cost_ok; intros Ht; apply fdiv_nonneg, million_ok; repeat apply fmul_nonneg; try done;
    by apply of_int_nonneg, Z.lt_le_incl.
Qed.

Lemma cacheWriteTokenCost_ok u p : pricing_ok p → price_ok (cacheWriteTokenCost u p).
Proof.
  intros []. unfold cacheWriteTokenCost. destruct (p_InputValue p) as [input|]; [|by intros v].
  assert (Hi : fnonneg input) by auto. cbv zeta. apply charge_all_ok.
  assert (Hline : ∀ tokens ratio, price_ok ratio →
    price_ok (if_tokens tokens (token_cost_ratio tokens input (cacheWriteRatioValue ratio)))).
  { intros tokens ratio Hr. by apply lines_ok; [|apply ratio_ok]. }
  constructor; [by apply Hline|].
  destruct (hasCacheCreationBreakdown _); repeat constructor; apply Hline; try done.
  by destruct (p_CacheWrite1hRatio p).
Qed.

Lemma audioOutputUnitValue_ok p : pricing_ok p → price_ok (audioOutputUnitValue p).
Proof.
  intros []. unfold audioOutputUnitValue. apply price_bind_ok. intros input Hi.
  apply price_bind_ok. intros ratio Hr v [= <-].
  destruct (p_AudioCompletionRatio p) as [r|] eqn:E; auto with fnonneg.
Qed.

Lemma estimateCost_ok u p : pricing_ok p → price_ok (estimateCost u p).
Proof.
  intros Hp. pose proof (cacheWriteTokenCost_ok (normalized u) p Hp) as Hwrite.
  pose proof (audioOutputUnitValue_ok p Hp) as Haudio. destruct Hp.
  unfold estimateCost. cbv zeta. destruct (isPerRequestPricing p).
  { unfold perRequestCost. destruct (p_PerRequestValue p) as [v|]; [done|].
    destruct (p_ModelPrice p) as [price|]; [|by intros v]. intros v [= <-].
    apply fmul_nonneg; [auto|]. destruct (p_GroupRatio p); cbn; auto with fnonneg. }
  assert (Hline : ∀ tokens value, fnonneg value → price_ok (if_tokens tokens (token_cost tokens value))).
  { intros tokens value Hv. by apply (lines_ok tokens value value). }
  assert (Hbind : ∀ price tokens, price_ok price →
    price_ok (value ← price; if_tokens tokens (token_cost tokens value))).
  { intros price tokens Hpr. apply price_bind_ok. intros v Hv. by apply Hline, Hpr. }
  assert (Hratio : ∀ price ratio tokens, price_ok price → price_ok ratio →
    price_ok (value ← price; r ← ratio; if_tokens tokens (token_cost_ratio tokens value r))).
  { intros price ratio tokens H1 H2. apply price_bind_ok. intros v Hv. apply price_bind_ok.
    intros r Hr. apply lines_ok; [by apply H1|by apply H2]. }
  destruct (0 <? ImageCount _) eqn:Eimg.
  - assert (Himage : price_ok (imageTokenCost (normalized u) p)).
    { unfold imageTokenCost. apply charge_all_ok. repeat constructor; [by apply Hbind|by apply Hratio|by apply Hbind]. }
    destruct (imageTokenCost _ _) as [total|]; [done|]. unfold imageUnitCost.
    destruct (p_InputValue p) as [i|]; [|by intros v]. destruct (p_ImageRatio p) as [r|]; [|by intros v].
    intros v [= <-]. apply Z.ltb_lt in Eimg.
    apply fmul_nonneg; [by apply of_int_nonneg, Z.lt_le_incl|]. by apply fmul_nonneg; auto.
  - apply charge_all_ok.
    repeat constructor; [by apply Hbind|by apply Hratio|done|by apply Hbind|by apply Hbind].
Qed.

Lemma applyLongContextPricing_ok u p : pricing_ok p → pricing_ok (applyLongContextPricing u p).
Proof.
  intros Hp. unfold applyLongContextPricing. destruct (p_LongContextRule p) as [rule|] eqn:Er; [|done].
  destruct (p_LongContextApplied p); [done|]. destruct (isPerRequestPricing p); [done|]. cbv zeta.
  destruct (_ || _); [done|]. destruct Hp. destruct (po_long0 rule Er) as [Hi Ho].
  split; cbn; try done.
  - intros v. destruct (p_InputValue p) as [i|]; cbn; intros [= <-]. apply fmul_nonneg; auto.
  - intros v. destruct (p_OutputValue p) as [o|]; cbn; intros [= <-]. apply fmul_nonneg; auto.
Qed.

Lemma gatewayBillingMultiplier_ok r : fnonneg (gatewayBillingMultiplier r).
Proof.
  unfold gatewayBillingMultiplier.
  assert (Hm : ∀ m, fnonneg (if fle m fzero then of_int 1 else m)).
  { intros m. destruct (fle m fzero) eqn:E; auto with fnonneg. }
  repeat apply fmul_nonneg; [apply Hm| |apply Hm].
  destruct (_ && _) eqn:E; [|auto with fnonneg]. apply andb_prop in E as [_ E].
  eapply fgt_nonneg; [|exact E]. auto with fnonneg.
Qed.

(** With prices that are not negative no bill is, whatever usage an upstream
    reports and whatever multipliers the credential, the service tier and the API key
    carry: no request earns its caller credit. *)
Theorem bill_never_negative (u : gatewayUsage) (r : billedResult) (cost : float64)
    (Hpricing : pricing_ok (b_pricing r))
    (Hcost : b_estimatedCost (billed u r) = Some cost) :
  fnonneg cost ∧ ∀ base, b_baseEstimatedCost (billed u r) = Some base → fnonneg base.
Proof.
  unfold billed, applyEstimatedCostBillingAdjustment in *.
  pose proof (estimateCost_ok u _ (applyLongContextPricing_ok u _ Hpricing)) as Hok.
  cbn [b_estimatedCost] in *. destruct (estimateCost _ _) as [base|]; [|done].
  specialize (Hok base eq_refl). cbn [b_estimatedCost b_baseEstimatedCost] in *. split.
  - injection Hcost as <-. destruct (feq _ _); [done|].
    apply fmul_nonneg; [done|apply gatewayBillingMultiplier_ok].
  - by intros ? [= <-].
Qed.

(** the surcharge for long contexts is applied at most once, only to a request that
    is billed by tokens, makes no image and has more prompt tokens than the tier
    allows, and then to both prices. *)
Theorem long_context_applied_once (u1 u2 : gatewayUsage) (p : selectedPricing) :
  (p_LongContextApplied (applyLongContextPricing u1 p) = true →
     applyLongContextPricing u2 (applyLongContextPricing u1 p) = applyLongContextPricing u1 p)
  ∧ (applyLongContextPricing u1 p ≠ p →
     ∃ rule, p_LongContextRule p = Some rule
       ∧ p_LongContextApplied p = false ∧ isPerRequestPricing p = false
       ∧ ImageCount u1 ≤ 0 ∧ ThresholdTokens rule < PromptTokens (normalized u1)
       ∧ p_InputValue (applyLongContextPricing u1 p)
         = (λ v, fmul v (InputMultiplier rule)) <$> p_InputValue p
       ∧ p_OutputValue (applyLongContextPricing u1 p)
         = (λ v, fmul v (OutputMultiplier rule)) <$> p_OutputValue p).
Proof.
  split.
  - intros Happ. set (q := applyLongContextPricing u1 p) in *. unfold applyLongContextPricing.
    destruct (p_LongContextRule q); [|done]. by rewrite Happ.
  - unfold applyLongContextPricing. destruct (p_LongContextRule p) as [rule|]; [|done].
    destruct (p_LongContextApplied p); [done|]. destruct (isPerRequestPricing p); [done|]. cbv zeta.
    destruct (_ || _) eqn:E; [done|]. intros _. exists rule.
    change (ImageCount (normalized u1)) with (ImageCount u1) in E. split_and!; try done; lia.
Qed.

(** ** Concrete inputs *)

Definition exampleUsage : gatewayUsage :=
  mkUsage 1000 200 0 0 300 0 0 0 100 0 0 0 0 0 0 0 None.

Definition examplePricing : selectedPricing :=
  mkPricing "default" "USD" (Some (of_int 2)) (Some (of_int 8)) (Some (flit 1 10)) None None None None
    None None None None None None "" None (Some (mkLongContext 500 (of_int 2) (flit 3 2))) false.

Lemma exampleUsage_ok : usage_ok exampleUsage.
Proof. split; unfold count_ok; cbn [exampleUsage PromptTokens CompletionTokens CachedPromptTokens
  PromptCacheHitTokens PromptCacheMissTokens CacheWriteTokens CacheCreationInputTokens
  CacheCreation5mInputTokens CacheCreation1hInputTokens PromptTokensDetail]; try lia. by intros d [=]. Qed.

Lemma prompt_tokens_billed_once_witness :
  let n := normalized exampleUsage in
  uncachedPromptTokens n + CachedPromptTokens n + CacheWriteTokens n
    + CacheCreation5mInputTokens n + CacheCreation1hInputTokens n = PromptTokens n.
Proof.
  apply (prompt_tokens_billed_once exampleUsage examplePricing (of_int 2)).
  - exact exampleUsage_ok.
  - right. left. split; reflexivity.
  - vm_compute. discriminate.
  - reflexivity.
  - split; [vm_compute; reflexivity|vm_compute; discriminate].
Defined.

Lemma examplePricing_ok : pricing_ok examplePricing.
Proof. by split; intros v [= <-]. Qed.

Lemma bill_never_negative_witness :
  let r := mkBilled None None examplePricing "" (of_int 1) (of_int 3) (of_int 1) in
  fnonneg (default fzero (b_estimatedCost (billed exampleUsage r))).
Proof.
  intros r. destruct (b_estimatedCost (billed exampleUsage r)) as [cost|] eqn:E;
    [|exfalso; vm_compute in E; discriminate].
  exact (proj1 (bill_never_negative exampleUsage r cost examplePricing_ok E)).
Defined.

(** An upstream that reports -1 written tokens beside 10 in the details: the count is
    read as 0 where the uncached tokens are counted, but [cacheWriteTokenCost]
    normalises again and charges the 10 once more, beside the 100 of the prompt. *)
Lemma negative_count_charged_twice :
  let u := mkUsage 100 0 0 0 0 0 0 (-1) 0 0 0 0 0 0 0 0 (Some (mkDetails 0 10)) in
  let n := normalized u in
  uncachedPromptTokens n = 100 ∧ CacheWriteTokens n = 0 ∧ CacheWriteTokens (normalized n) = 10
  ∧ estimateCost u examplePricing
    = Some (fadd (fadd fzero (token_cost 100 (of_int 2)))
                 (fadd fzero (token_cost_ratio 10 (of_int 2) (of_int 1)))).
Proof. vm_compute. by split_and!. Qed.
