(* ===== verification/Utf8.v ===== *)
(** * Runes

    The conversions [[]rune(s)] and [string(runes)] of Go: UTF-8 decoding, where every
    byte that starts no valid encoding becomes U+FFFD, and encoding, where every
    integer that is not a rune does. *)

From S2P Require Import Prelude.

Definition rune_error : Z := 65533.

Definition byte_val (c : ascii) : Z := Z.of_N (N_of_ascii c).
Definition byte_of (z : Z) : ascii := ascii_of_N (Z.to_N z).

Definition valid_rune (r : Z) : bool :=
  ((0 <=? r) && (r <? 55296)) || ((57344 <=? r) && (r <=? 1114111)).

Definition clean_rune (r : Z) : Z := if valid_rune r then r else rune_error.

(** ** Encoding *)

Definition encode_valid (r : Z) : list Z :=
  if r <? 128 then [r]
  else if r <? 2048 then [192 + r `div` 64; 128 + r `mod` 64]
  else if r <? 65536 then
    [224 + r `div` 4096; 128 + (r `div` 64) `mod` 64; 128 + r `mod` 64]
  else [240 + r `div` 262144; 128 + (r `div` 4096) `mod` 64; 128 + (r `div` 64) `mod` 64;
        128 + r `mod` 64].

Definition encode_rune (r : Z) : list ascii := map byte_of (encode_valid (clean_rune r)).

(** [string(runes)] *)
Definition string_of_runes (l : list Z) : string :=
  String.string_of_list_ascii (flat_map encode_rune l).

(** ** Decoding *)

Definition between (lo x hi : Z) : bool := (lo <=? x) && (x <=? hi).

Definition continues (b : Z) : bool := between 128 b 191.

(** The bytes that may follow a first byte of three, and of four. *)
Definition second3 (a b : Z) : bool :=
  if a =? 224 then between 160 b 191 else if a =? 237 then between 128 b 159
  else between 225 a 239 && continues b.

Definition second4 (a b : Z) : bool :=
  if a =? 240 then between 144 b 191 else if a =? 244 then between 128 b 143
  else between 241 a 243 && continues b.

Definition is2 (a b : Z) : bool := between 194 a 223 && continues b.
Definition is3 (a b c : Z) : bool := second3 a b && continues c.
Definition is4 (a b c d : Z) : bool := second4 a b && continues c && continues d.

Definition rune2 (a b : Z) : Z := (a - 192) * 64 + (b - 128).
Definition rune3 (a b c : Z) : Z := (a - 224) * 4096 + (b - 128) * 64 + (c - 128).
Definition rune4 (a b c d : Z) : Z :=
  (a - 240) * 262144 + (b - 128) * 4096 + (c - 128) * 64 + (d - 128).

Fixpoint decode (l : list ascii) : list Z :=
  match l with
  | [] => []
  | c1 :: r1 =>
      let a := byte_val c1 in
      if a <? 128 then a :: decode r1
      else match r1 with
      | [] => [rune_error]
      | c2 :: r2 =>
          let b := byte_val c2 in
          if is2 a b then rune2 a b :: decode r2
          else match r2 with
          | [] => rune_error :: decode r1
          | c3 :: r3 =>
              let c := byte_val c3 in
              if is3 a b c then rune3 a b c :: decode r3
              else match r3 with
              | [] => rune_error :: decode r1
              | c4 :: r4 =>
                  let d := byte_val c4 in
                  if is4 a b c d then rune4 a b c d :: decode r4 else rune_error :: decode r1
              end
          end
      end
  end.

(** [[]rune(s)] *)
Definition runes (s : string) : list Z := decode (String.list_ascii_of_string s).

(** ** Decoding what was encoded *)

Lemma byte_val_of z : 0 ≤ z < 256 → byte_val (byte_of z) = z.
Proof. intros Hz. unfold byte_val, byte_of. rewrite N_ascii_embedding by lia. lia. Qed.

Lemma byte_val_range c : 0 ≤ byte_val c < 256.
Proof. unfold byte_val. pose proof (N_ascii_bounded c). lia. Qed.

Lemma clean_rune_valid r : valid_rune (clean_rune r) = true.
Proof. unfold clean_rune. by destruct (valid_rune r) eqn:E. Qed.

Lemma clean_rune_id r : valid_rune r = true → clean_rune r = r.
Proof. unfold clean_rune. by intros ->. Qed.

Ltac decide_bytes :=
  repeat match goal with
  | |- context [?x <? ?y] => destruct (Z.ltb_spec x y); [try lia|try lia]
  | |- context [?x <=? ?y] => destruct (Z.leb_spec x y); [try lia|try lia]
  | |- context [?x =? ?y] => destruct (Z.eqb_spec x y); [try lia|try lia]
  end.

Lemma decode_encode_valid r l :
  valid_rune r = true → decode (map byte_of (encode_valid r) ++ l) = r :: decode l.
Proof.
  intros Hv. assert (Hr : 0 ≤ r < 55296 ∨ 57344 ≤ r ≤ 1114111).
  { unfold valid_rune in Hv. apply orb_true_iff in Hv as [Hv|Hv]; bool_to_prop; lia. }
  clear Hv. unfold encode_valid.
  pose proof (Z.div_mod r 64). pose proof (Z.mod_pos_bound r 64).
  destruct (Z.ltb_spec r 128) as [L1|L1].
  { cbn [map app decode]. rewrite byte_val_of by lia. by rewrite (proj2 (Z.ltb_lt r 128)) by lia. }
  destruct (Z.ltb_spec r 2048) as [L2|L2].
  { cbn [map app decode]. rewrite !byte_val_of by lia.
    rewrite (proj2 (Z.ltb_ge _ 128)) by lia. unfold is2, continues, between.
    rewrite !(proj2 (Z.leb_le _ _)) by lia. cbn. f_equal. unfold rune2. lia. }
  pose proof (Z.div_mod (r `div` 64) 64). pose proof (Z.mod_pos_bound (r `div` 64) 64).
  pose proof (Z.div_div r 64 64) as H64. change (64 * 64) with 4096 in H64.
  destruct (Z.ltb_spec r 65536) as [L3|L3].
  { cbn [map app decode]. rewrite !byte_val_of by lia.
    rewrite (proj2 (Z.ltb_ge _ 128)) by lia. unfold is2 at 1, between at 1.
    rewrite (proj2 (Z.leb_gt (224 + _) 223)) by lia. rewrite andb_false_r. cbn [andb].
    assert (is3 (224 + r `div` 4096) (128 + (r `div` 64) `mod` 64) (128 + r `mod` 64) = true) as ->.
    { unfold is3, second3, continues, between. decide_bytes; done. }
    f_equal. unfold rune3. lia. }
  pose proof (Z.div_mod (r `div` 4096) 64). pose proof (Z.mod_pos_bound (r `div` 4096) 64).
  pose proof (Z.div_div r 4096 64) as H4096. change (4096 * 64) with 262144 in H4096.
  cbn [map app decode]. rewrite !byte_val_of by lia.
  rewrite (proj2 (Z.ltb_ge _ 128)) by lia. unfold is2 at 1, between at 1.
  rewrite (proj2 (Z.leb_gt (240 + _) 223)) by lia. rewrite andb_false_r. cbn [andb].
  assert (is3 (240 + r `div` 262144) (128 + (r `div` 4096) `mod` 64) (128 + (r `div` 64) `mod` 64) = false) as ->.
  { unfold is3, second3, continues, between. decide_bytes; done. }
  assert (is4 (240 + r `div` 262144) (128 + (r `div` 4096) `mod` 64) (128 + (r `div` 64) `mod` 64)
    (128 + r `mod` 64) = true) as ->.
  { unfold is4, second4, continues, between. decide_bytes; done. }
  f_equal. unfold rune4. lia.
Qed.

Lemma decode_encode l rest :
  decode (flat_map encode_rune l ++ rest) = map clean_rune l ++ decode rest.
Proof.
  induction l as [|r l IH]; [done|]. cbn [map flat_map].
  rewrite <- app_assoc. unfold encode_rune at 1.
  by rewrite decode_encode_valid, IH by apply clean_rune_valid.
Qed.

(** Decoding an encoding gives back the runes. *)
Lemma runes_of_runes l : Forall (λ r, valid_rune r = true) l → runes (string_of_runes l) = l.
Proof.
  intros Hl. unfold runes, string_of_runes. rewrite String.list_ascii_of_string_of_list_ascii.
  pose proof (decode_encode l []) as Heq. rewrite !app_nil_r in Heq. rewrite Heq. clear Heq.
  induction Hl as [|r l Hr _ IH]; [done|]. cbn [map]. by rewrite clean_rune_id, IH.
Qed.

(** What a conversion gives are runes. *)
Lemma decode_valid l : Forall (λ r, valid_rune r = true) (decode l).
Proof.
  revert l. fix IH 1. intros [|c1 r1]; [constructor|]. cbn [decode].
  pose proof (byte_val_range c1). set (a := byte_val c1) in *.
  destruct (Z.ltb_spec a 128).
  { constructor; [|apply IH]. unfold valid_rune. by rewrite (proj2 (Z.leb_le 0 a)), (proj2 (Z.ltb_lt a 55296)) by lia. }
  pose proof (IH r1) as IHr1. destruct r1 as [|c2 r2]; [by repeat constructor|].
  pose proof (byte_val_range c2). set (b := byte_val c2) in *.
  destruct (is2 a b) eqn:E2.
  { constructor; [|apply IH]. unfold is2, continues, between in E2. bool_to_prop. unfold valid_rune, rune2.
    by rewrite (proj2 (Z.leb_le 0 _)), (proj2 (Z.ltb_lt _ 55296)) by lia. }
  destruct r2 as [|c3 r3]; [constructor; [done|exact IHr1]|].
  pose proof (byte_val_range c3). set (c := byte_val c3) in *.
  destruct (is3 a b c) eqn:E3.
  { constructor; [|apply IH]. unfold is3, second3, continues, between in E3. unfold valid_rune, rune3.
    destruct (Z.eqb_spec a 224), (Z.eqb_spec a 237); bool_to_prop; try lia; decide_bytes; done. }
  destruct r3 as [|c4 r4]; [constructor; [done|exact IHr1]|].
  pose proof (byte_val_range c4). set (d := byte_val c4) in *.
  destruct (is4 a b c d) eqn:E4; [|by constructor]. constructor; [|apply IH].
  unfold is4, second4, continues, between in E4. unfold valid_rune, rune4.
  destruct (Z.eqb_spec a 240), (Z.eqb_spec a 244); bool_to_prop; try lia; decide_bytes; done.
Qed.

Lemma runes_valid s : Forall (λ r, valid_rune r = true) (runes s).
Proof. apply decode_valid. Qed.

#[export] Hint Resolve runes_valid : xlyra.
