(* ===== verification/Regexp.v ===== *)
(** * Regular expressions

    The part of Go's package [regexp] the program uses: patterns over runes, searched for
    the leftmost match and, of the matches that begin there, the one a backtracking search
    finds first.  [ends] lists the ways to match in that order; [Ends] says what a match is
    without saying how it is found; [ends_iff] shows that they agree, [search_cut] that a
    rune no pattern accepts cuts the search in two. *)

From S2P Require Import Prelude Utf8.

Implicit Types (p : Z → bool) (l : list Z).

(** ** Patterns *)

Inductive regex :=
| Chr (accepts : Z → bool)
| Eps
| Seq (r1 r2 : regex)
| Alt (r1 r2 : regex)
| Star (r : regex)
| Bound
| Group (r : regex).

Definition Opt (r : regex) : regex := Alt r Eps.
Definition Plus (r : regex) : regex := Seq r (Star r).

Fixpoint Times (n : nat) (r : regex) : regex :=
  match n with O => Eps | S n => Seq r (Times n r) end.

(** Where a search stands: the runes behind it, the latest first, the runes before it, and
    what the group matched. *)
Record pos := mkPos { ps_done : list Z; ps_rest : list Z; ps_group : option (list Z) }.

Implicit Types (s t : pos).

(** [\b]: between a word character of ASCII and something else. *)
Definition wordRune (c : Z) : bool :=
  between 48 c 57 || between 65 c 90 || between 97 c 122 || (c =? 95).

Definition head_word l : bool := match l with c :: _ => wordRune c | [] => false end.

Definition boundary s : bool := xorb (head_word (ps_done s)) (head_word (ps_rest s)).

(** What was passed on the way from [s] to [t]. *)
Definition passed s t : list Z :=
  rev (take (length (ps_done t) - length (ps_done s)) (ps_done t)).

Definition set_group s t : pos := mkPos (ps_done t) (ps_rest t) (Some (passed s t)).

(** ** The matcher *)

(** A repetition goes on as long as it gets further. *)
Definition further s t : bool := (length (ps_rest t) <? length (ps_rest s))%nat.

Fixpoint star_ends (f : pos → list pos) (fuel : nat) s : list pos :=
  match fuel with
  | O => [s]
  | S fuel => flat_map (star_ends f fuel) (List.filter (further s) (f s)) ++ [s]
  end.

(** The ends of the matches that begin at a place, the preferred ones first. *)
Fixpoint ends (r : regex) s : list pos :=
  match r with
  | Chr accepts =>
      match ps_rest s with
      | c :: rest => if accepts c then [mkPos (c :: ps_done s) rest (ps_group s)] else []
      | [] => []
      end
  | Eps => [s]
  | Seq r1 r2 => flat_map (ends r2) (ends r1 s)
  | Alt r1 r2 => ends r1 s ++ ends r2 s
  | Star r => star_ends (ends r) (length (ps_rest s)) s
  | Bound => if boundary s then [s] else []
  | Group r => map (set_group s) (ends r s)
  end.

(** The leftmost match: where it begins and where it ends. *)
Fixpoint search (r : regex) (back rest : list Z) : option (pos * pos) :=
  match ends r (mkPos back rest None) with
  | e :: _ => Some (mkPos back rest None, e)
  | [] => match rest with [] => None | c :: rest => search r (c :: back) rest end
  end.

(** [FindStringSubmatch] of a pattern with one group: what the group matched. *)
Definition FindGroup (r : regex) (text : string) : option string :=
  m ← search r [] (runes text);
  Some (string_of_runes (default [] (ps_group m.2))).

(** [FindAllString(text, -1)] of a pattern that matches no empty text: each match is
    searched for after the one before it.  A match of the patterns below holds no U+FFFD,
    so that its runes give its bytes back. *)
Fixpoint find_all (fuel : nat) (r : regex) (back rest : list Z) : list (list Z) :=
  match fuel with
  | O => []
  | S fuel =>
      match search r back rest with
      | None => []
      | Some (b, e) => passed b e :: find_all fuel r (ps_done e) (ps_rest e)
      end
  end.

Definition FindAll (r : regex) (text : string) : list string :=
  map string_of_runes (find_all (S (length (runes text))) r [] (runes text)).

(** ** What a match is *)

Inductive Ends : regex → pos → pos → Prop :=
| EChr p c d l g : p c = true → Ends (Chr p) (mkPos d (c :: l) g) (mkPos (c :: d) l g)
| EEps s : Ends Eps s s
| ESeq r1 r2 s t u : Ends r1 s t → Ends r2 t u → Ends (Seq r1 r2) s u
| EAltL r1 r2 s t : Ends r1 s t → Ends (Alt r1 r2) s t
| EAltR r1 r2 s t : Ends r2 s t → Ends (Alt r1 r2) s t
| EStarStop r s : Ends (Star r) s s
| EStarMore r s t u : Ends r s t → further s t = true → Ends (Star r) t u → Ends (Star r) s u
| EBound s : boundary s = true → Ends Bound s s
| EGroup r s t : Ends r s t → Ends (Group r) s (set_group s t).
#[export] Hint Constructors Ends : core.

(** A match consumes: what it leaves is a suffix, and what it passed stands before it. *)
Definition moves s t : Prop :=
  ∃ w, ps_rest s = w ++ ps_rest t ∧ ps_done t = rev w ++ ps_done s.

Lemma pos_moves_refl s : moves s s.
Proof. by exists []. Qed.

Lemma moves_trans s t u : moves s t → moves t u → moves s u.
Proof.
  intros (w & H1 & H2) (v & H3 & H4). exists (w ++ v).
  rewrite H1, H3, H4, H2, rev_app_distr. by rewrite <-!app_assoc.
Qed.

Lemma moves_passed s t w :
  ps_rest s = w ++ ps_rest t → ps_done t = rev w ++ ps_done s → passed s t = w.
Proof.
  intros _ Hd. unfold passed. rewrite Hd, length_app, Nat.add_sub.
  by rewrite take_app_length, rev_involutive.
Qed.

Lemma Ends_moves r s t : Ends r s t → moves s t.
Proof.
  induction 1; eauto using pos_moves_refl, moves_trans; by exists [c].
Qed.

Lemma moves_length s t : moves s t → (length (ps_rest t) ≤ length (ps_rest s))%nat.
Proof. intros (w & H & _). rewrite H, length_app. lia. Qed.

(** ** The matcher finds exactly the matches *)

Lemma star_ends_iff (f : pos → list pos) r :
  (∀ s t, t ∈ f s ↔ Ends r s t) →
  ∀ fuel s t, (length (ps_rest s) ≤ fuel)%nat → t ∈ star_ends f fuel s ↔ Ends (Star r) s t.
Proof.
  intros Hf. induction fuel as [|fuel IH]; intros s t Hlen.
  - cbn. rewrite list_elem_of_singleton. split; [intros ->; eauto|].
    intros H. inversion H as [| | | | | |? ? u ? _ Hfar _| |]; subst; [done|].
    unfold further in Hfar. apply Nat.ltb_lt in Hfar. lia.
  - cbn [star_ends]. rewrite elem_of_app, list_elem_of_singleton.
    rewrite list_elem_of_In, in_flat_map. setoid_rewrite <-list_elem_of_In. split.
    + intros [(u & Hu & Ht)| ->]; [|eauto].
      rewrite list_elem_of_In, filter_In, <-list_elem_of_In in Hu. destruct Hu as [Hu Hfar].
      apply IH in Ht; [by eapply EStarMore; [apply Hf|..]|].
      apply Nat.ltb_lt in Hfar. lia.
    + intros H. inversion H as [| | | | |? ? |? ? u ? Hu Hfar Hr| |]; subst; [by right|left].
      exists u. split.
      * rewrite list_elem_of_In, filter_In, <-list_elem_of_In. split; [by apply Hf|done].
      * apply IH; [|done]. apply Nat.ltb_lt in Hfar. lia.
Qed.

Lemma ends_iff r s t : t ∈ ends r s ↔ Ends r s t.
Proof.
  revert s t. induction r as [p| |r1 IH1 r2 IH2|r1 IH1 r2 IH2|r IH| |r IH]; intros s t; cbn [ends].
  - destruct s as [d [|c l] g]; cbn [ps_rest ps_done ps_group].
    + split; [by intros ?%not_elem_of_nil|inversion 1].
    + destruct (p c) eqn:E.
      * rewrite list_elem_of_singleton. split; [intros ->; eauto|by inversion 1].
      * split; [by intros ?%not_elem_of_nil|]. inversion 1; congruence.
  - rewrite list_elem_of_singleton. split; [by intros ->|by inversion 1].
  - rewrite list_elem_of_In, in_flat_map. setoid_rewrite <-list_elem_of_In. split.
    + intros (u & ?%IH1 & ?%IH2). eauto.
    + inversion 1; subst. eexists. rewrite IH1, IH2. eauto.
  - rewrite elem_of_app, IH1, IH2. split; [intros []; eauto|]. inversion 1; subst; eauto.
  - by apply star_ends_iff.
  - destruct (boundary s) eqn:E.
    + rewrite list_elem_of_singleton. split; [intros ->; eauto|by inversion 1].
    + split; [by intros ?%not_elem_of_nil|]. inversion 1; congruence.
  - rewrite list_elem_of_fmap. split.
    + intros (u & -> & ?%IH). eauto.
    + inversion 1; subst. eexists. split; [done|]. by apply IH.
Qed.

Lemma ends_moves r s t : t ∈ ends r s → moves s t.
Proof. intros H%ends_iff. by eapply Ends_moves. Qed.

(** ** A rune that no part of the pattern accepts cuts the search *)

Fixpoint avoids (c : Z) (r : regex) : bool :=
  match r with
  | Chr accepts => negb (accepts c)
  | Eps | Bound => true
  | Seq r1 r2 | Alt r1 r2 => avoids c r1 && avoids c r2
  | Star r | Group r => avoids c r
  end.

(** The same place in a text that goes on after [k], and that goes back before [d]. *)
Definition before k s : pos := mkPos (ps_done s) (ps_rest s ++ k) (ps_group s).
Definition after d s : pos := mkPos (ps_done s ++ d) (ps_rest s) (ps_group s).

Lemma further_before k s t : further (before k s) (before k t) = further s t.
Proof.
  apply eq_true_iff_eq. unfold further. cbn [before ps_rest].
  rewrite !length_app, !Nat.ltb_lt. lia.
Qed.

Lemma filter_further_map (g : pos → pos) s (l : list pos) :
  (∀ t, further (g s) (g t) = further s t) →
  List.filter (further (g s)) (map g l) = map g (List.filter (further s) l).
Proof.
  intros H. induction l as [|t l IH]; [done|]. cbn [List.filter map]. rewrite H.
  destruct (further s t); cbn [map]; by rewrite IH.
Qed.

Lemma flat_map_map {A B C} (f : B → list C) (g : A → B) (l : list A) :
  flat_map f (map g l) = flat_map (λ x, f (g x)) l.
Proof. induction l as [|x l IH]; [done|]. cbn. by rewrite IH. Qed.

Lemma map_flat_map {A B C} (f : A → list B) (g : B → C) (l : list A) :
  map g (flat_map f l) = flat_map (λ x, map g (f x)) l.
Proof. induction l as [|x l IH]; [done|]. cbn. by rewrite map_app, IH. Qed.

Lemma flat_map_ext_in {A B} (f g : A → list B) (l : list A) :
  (∀ x, x ∈ l → f x = g x) → flat_map f l = flat_map g l.
Proof.
  induction l as [|x l IH]; intros H; [done|]. cbn. rewrite H by left. f_equal.
  apply IH. intros y Hy. apply H. by right.
Qed.

Lemma no_further s (l : list pos) : length (ps_rest s) = 0%nat → List.filter (further s) l = [].
Proof.
  intros Hs. induction l as [|t l IH]; [done|]. cbn [List.filter].
  replace (further s t) with false; [done|]. unfold further. symmetry. apply Nat.ltb_ge. lia.
Qed.

(** Once it covers what is left, the fuel of a repetition does not matter. *)
Lemma star_ends_fuel (f : pos → list pos) n m s :
  (length (ps_rest s) ≤ n)%nat → (length (ps_rest s) ≤ m)%nat → star_ends f n s = star_ends f m s.
Proof.
  revert m s. induction n as [|n IH]; intros [|m] s Hn Hm; cbn [star_ends]; [done|..].
  - by rewrite no_further by lia.
  - by rewrite no_further by lia.
  - f_equal. apply flat_map_ext_in. intros t Ht.
    rewrite list_elem_of_In, filter_In in Ht. destruct Ht as [_ Ht%Nat.ltb_lt]. apply IH; lia.
Qed.

(** A change of the places that the matches do not see. *)
Lemma star_ends_map (f : pos → list pos) (g : pos → pos) n s :
  (∀ s, f (g s) = map g (f s)) → (∀ s t, further (g s) (g t) = further s t) →
  star_ends f n (g s) = map g (star_ends f n s).
Proof.
  intros Hf Hfar. revert s. induction n as [|n IH]; intros s; [done|].
  cbn [star_ends]. rewrite Hf, filter_further_map, flat_map_map, map_app, map_flat_map by auto.
  f_equal. by apply flat_map_ext.
Qed.

Lemma passed_before k s t : passed (before k s) (before k t) = passed s t.
Proof. done. Qed.

Lemma ends_before r c k s :
  avoids c r = true → wordRune c = false →
  ends r (before (c :: k) s) = map (before (c :: k)) (ends r s).
Proof.
  intros Hr Hc. revert s.
  induction r as [p| |r1 IH1 r2 IH2|r1 IH1 r2 IH2|r IH| |r IH]; intros s; cbn [ends avoids] in *.
  - destruct s as [d [|x l] g]; cbn.
    + by rewrite (proj1 (negb_true_iff _) Hr).
    + by destruct (p x).
  - done.
  - apply andb_true_iff in Hr as [H1 H2]. rewrite IH1, flat_map_map, map_flat_map by done.
    apply flat_map_ext. intros t. by apply IH2.
  - apply andb_true_iff in Hr as [H1 H2]. by rewrite map_app, IH1, IH2.
  - rewrite star_ends_map by eauto using further_before. f_equal.
    apply star_ends_fuel; cbn; rewrite ?length_app; lia.
  - unfold boundary, before. cbn.
    replace (head_word (ps_rest s ++ c :: k)) with (head_word (ps_rest s))
      by (by destruct (ps_rest s); cbn; rewrite ?Hc).
    by destruct (xorb _ _).
  - by rewrite IH, !map_map.
Qed.

Lemma search_before r c k d l :
  avoids c r = true → wordRune c = false →
  search r d (l ++ c :: k)
  = match search r d l with
    | Some (b, e) => Some (before (c :: k) b, before (c :: k) e)
    | None => search r (c :: rev l ++ d) k
    end.
Proof.
  intros Hr Hc. revert d. induction l as [|x l IH]; intros d; cbn [search app].
  - pose proof (ends_before r c k (mkPos d [] None) Hr Hc) as He. unfold before in He at 1. cbn in He.
    rewrite He. by destruct (ends r (mkPos d [] None)).
  - pose proof (ends_before r c k (mkPos d (x :: l) None) Hr Hc) as He.
    unfold before in He at 1. cbn [ps_done ps_rest ps_group app] in He. rewrite He.
    destruct (ends r (mkPos d (x :: l) None)); cbn [map]; [|done].
    rewrite IH. cbn. by rewrite <-app_assoc.
Qed.

(** ** What is behind the search *)

(** Without [\b] a pattern does not look back. *)
Fixpoint no_bound (r : regex) : bool :=
  match r with
  | Chr _ | Eps => true
  | Seq r1 r2 | Alt r1 r2 => no_bound r1 && no_bound r2
  | Star r | Group r => no_bound r
  | Bound => false
  end.

Lemma passed_after d s t : moves s t → passed (after d s) (after d t) = passed s t.
Proof.
  intros (w & H1 & H2). rewrite (moves_passed s t w) by done.
  apply moves_passed; cbn; [done|]. by rewrite H2, app_assoc.
Qed.

Lemma ends_after r d s : no_bound r = true → ends r (after d s) = map (after d) (ends r s).
Proof.
  revert s. induction r as [p| |r1 IH1 r2 IH2|r1 IH1 r2 IH2|r IH| |r IH];
    intros s Hr; cbn [ends no_bound] in *.
  - destruct s as [b [|x l] g]; cbn; [done|]. by destruct (p x).
  - done.
  - apply andb_true_iff in Hr as [H1 H2]. rewrite IH1, flat_map_map, map_flat_map by done.
    apply flat_map_ext. intros t. by apply IH2.
  - apply andb_true_iff in Hr as [H1 H2]. by rewrite map_app, IH1, IH2.
  - apply (star_ends_map (ends r) (after d)); [|done]. intros t. by apply IH.
  - done.
  - rewrite IH, !map_map by done. apply map_ext_in.
    intros t Ht%list_elem_of_In%ends_moves. unfold set_group. by rewrite passed_after.
Qed.

Lemma search_after r d b l :
  no_bound r = true →
  search r (b ++ d) l = m ← search r b l; Some (after d m.1, after d m.2).
Proof.
  intros Hr. revert b. induction l as [|x l IH]; intros b; cbn [search];
    change (mkPos (b ++ d) ?l None) with (after d (mkPos b l None)); rewrite ends_after by done.
  - by destruct (ends r (mkPos b [] None)).
  - destruct (ends r (mkPos b (x :: l) None)); cbn [map]; [|done]. apply (IH (x :: b)).
Qed.

(** ** Successive matches *)

(** Each match has at least one rune. *)
Fixpoint consumes (r : regex) : bool :=
  match r with
  | Chr _ => true
  | Eps | Star _ | Bound => false
  | Seq r1 r2 => consumes r1 || consumes r2
  | Alt r1 r2 => consumes r1 && consumes r2
  | Group r => consumes r
  end.

Lemma Ends_further r s t : Ends r s t → consumes r = true → further s t = true.
Proof.
  intros He Hc. apply Nat.ltb_lt. revert Hc.
  induction He as [p c d l g Hp| |r1 r2 s t u H1 IH1 H2 IH2|r1 r2 s t H IH|r1 r2 s t H IH| | | |r s t H IH];
    cbn [consumes]; intros Hc; try done; cbn.
  - lia.
  - apply Ends_moves, moves_length in H1. apply Ends_moves, moves_length in H2.
    apply orb_true_iff in Hc as [Hc|Hc]; [specialize (IH1 Hc)|specialize (IH2 Hc)]; lia.
  - apply andb_true_iff in Hc as [Hc _]. auto.
  - apply andb_true_iff in Hc as [_ Hc]. auto.
  - auto.
Qed.

(** What [search] finds, and where. *)
Lemma search_some r b l m :
  search r b l = Some m →
  ∃ w k, l = w ++ k ∧ m.1 = mkPos (rev w ++ b) k None ∧ Ends r m.1 m.2.
Proof.
  revert b. induction l as [|x l IH]; intros b; cbn [search].
  - destruct (ends r (mkPos b [] None)) as [|e] eqn:E; [done|]. intros [= <-].
    exists [], []. split_and!; [done..|]. apply ends_iff. cbn [fst snd]. rewrite E. by left.
  - destruct (ends r (mkPos b (x :: l) None)) as [|e] eqn:E.
    + intros (w & k & -> & Hd & He)%IH. exists (x :: w), k. split_and!; [done| |done].
      cbn. by rewrite Hd, <-app_assoc.
    + intros [= <-]. exists [], (x :: l). split_and!; [done..|]. apply ends_iff. cbn [fst snd]. rewrite E. by left.
Qed.

Lemma search_none r b l :
  search r b l = None ↔
  ∀ w k e, l = w ++ k → ¬ Ends r (mkPos (rev w ++ b) k None) e.
Proof.
  split.
  - revert b. induction l as [|x l IH]; intros b; cbn [search].
    + destruct (ends r (mkPos b [] None)) eqn:E; [|done]. intros _ w k e Hw He.
      symmetry in Hw. apply app_nil in Hw as [-> ->].
      apply ends_iff in He. cbn in He. rewrite E in He. by apply not_elem_of_nil in He.
    + destruct (ends r (mkPos b (x :: l) None)) eqn:E; [|done]. intros Hs w k e Hw He.
      destruct w as [|y w]; cbn in Hw, He.
      * subst k. apply ends_iff in He. cbn in He. rewrite E in He. by apply not_elem_of_nil in He.
      * injection Hw as <- ->. rewrite <-app_assoc in He. by eapply (IH _ Hs).
  - intros H. destruct (search r b l) as [m|] eqn:E; [|done]. exfalso.
    apply search_some in E as (w & k & Hl & Hd & He). rewrite Hd in He. by apply (H w k m.2).
Qed.

Lemma find_all_after fuel r b d l :
  no_bound r = true → find_all fuel r (b ++ d) l = find_all fuel r b l.
Proof.
  intros Hr. revert b l. induction fuel as [|fuel IH]; intros b l; [done|]. cbn [find_all].
  rewrite search_after by done. destruct (search r b l) as [[s e]|] eqn:E; [|done].
  cbn [mbind option_bind fst snd].
  apply search_some in E as (w & k & _ & _ & He%Ends_moves). cbn [fst snd] in He.
  rewrite passed_after by done. f_equal. apply IH.
Qed.

Lemma search_shorter r b l s e :
  consumes r = true → search r b l = Some (s, e) → (length (ps_rest e) < length l)%nat.
Proof.
  intros Hr (w & k & -> & [= ->] & He)%search_some. cbn in He.
  apply Ends_further in He; [|done]. apply Nat.ltb_lt in He. cbn in He. rewrite length_app. lia.
Qed.

Lemma find_all_fuel n m r b l :
  consumes r = true → (length l < n)%nat → (length l < m)%nat →
  find_all n r b l = find_all m r b l.
Proof.
  intros Hr. revert m b l. induction n as [|n IH]; intros [|m] b l Hn Hm; [lia..|].
  cbn [find_all]. destruct (search r b l) as [[s e]|] eqn:E; [|done].
  apply search_shorter in E; [|done]. f_equal. apply IH; lia.
Qed.

Lemma find_all_cut n r c k b l :
  avoids c r = true → wordRune c = false → no_bound r = true → consumes r = true →
  (length (l ++ c :: k) < n)%nat →
  find_all n r b (l ++ c :: k) = find_all n r b l ++ find_all n r [] k.
Proof.
  intros Ha Hw Hb Hc. revert b l. induction n as [|n IH]; intros b l Hn; [done|].
  rewrite length_app in Hn. cbn in Hn.
  cbn [find_all]. rewrite search_before by done. destruct (search r b l) as [[s e]|] eqn:E.
  - cbn. f_equal. pose proof (search_shorter _ _ _ _ _ Hc E).
    rewrite IH by (rewrite length_app; cbn; lia). f_equal.
    apply (find_all_fuel n (S n) r [] k); [done|lia..].
  - change (find_all (S n) r (c :: rev l ++ b) k = [] ++ find_all (S n) r [] k).
    apply (find_all_after (S n) r [] (c :: rev l ++ b) k Hb).
Qed.

(** ** Texts *)

Lemma decode_ascii_cut (l : list ascii) c k :
  byte_val c < 128 → decode (l ++ c :: k) = decode l ++ byte_val c :: decode k.
Proof.
  intros Hc. pose proof (byte_val_range c).
  assert (Hcont : continues (byte_val c) = false).
  { unfold continues, between. apply andb_false_iff. left. apply Z.leb_gt. lia. }
  assert (H2 : ∀ a, is2 a (byte_val c) = false) by (intros; unfold is2; by rewrite Hcont, andb_false_r).
  assert (H3 : ∀ a b, is3 a b (byte_val c) = false) by (intros; unfold is3; by rewrite Hcont, andb_false_r).
  assert (H3' : ∀ a b, is3 a (byte_val c) b = false).
  { intros. unfold is3, second3, between. repeat case_match; unfold continues, between; decide_bytes; done. }
  assert (H4 : ∀ a b d, is4 a b d (byte_val c) = false) by (intros; unfold is4; by rewrite Hcont, andb_false_r).
  assert (H4' : ∀ a b d, is4 a b (byte_val c) d = false)
    by (intros; unfold is4; by rewrite Hcont, andb_false_r).
  assert (H4'' : ∀ a b d, is4 a (byte_val c) b d = false).
  { intros. unfold is4, second4, between. repeat case_match; unfold continues, between; decide_bytes; done. }
  assert (Hself : decode (c :: k) = byte_val c :: decode k).
  { cbn [decode]. by rewrite (proj2 (Z.ltb_lt _ _)) by lia. }
  remember (length l) as n eqn:Hn. revert l Hn.
  induction n as [n IH] using (well_founded_induction lt_wf); intros l ->.
  destruct l as [|c1 l1]; [done|]. cbn [decode app]. destruct (Z.ltb_spec (byte_val c1) 128) as [L1|L1].
  { cbn. f_equal. apply (IH (length l1)); cbn; [lia|done]. }
  destruct l1 as [|c2 l2]; cbn [app].
  { rewrite H2. destruct k as [|d1 k1]; [by rewrite Hself|]. rewrite H3'.
    destruct k1 as [|d2 k2]; [by rewrite Hself|]. by rewrite H4'', Hself. }
  destruct (is2 _ _) eqn:E2.
  { cbn. f_equal. apply (IH (length l2)); cbn; [lia|done]. }
  destruct l2 as [|c3 l3]; cbn [app].
  { rewrite H3. assert (Hr : decode ([c2] ++ c :: k) = decode [c2] ++ byte_val c :: decode k)
      by (apply (IH 1%nat); [cbn; lia|done]).
    destruct k as [|d1 k1]; [exact (f_equal (cons rune_error) Hr)|].
    rewrite H4'. exact (f_equal (cons rune_error) Hr). }
  destruct (is3 _ _ _) eqn:E3.
  { cbn. f_equal. apply (IH (length l3)); cbn; [lia|done]. }
  assert (Hr : decode ((c2 :: c3 :: l3) ++ c :: k) = decode (c2 :: c3 :: l3) ++ byte_val c :: decode k)
    by (apply (IH (length (c2 :: c3 :: l3))); cbn; [lia|done]).
  destruct l3 as [|c4 l4]; cbn [app].
  { rewrite H4. exact (f_equal (cons rune_error) Hr). }
  destruct (is4 _ _ _ _) eqn:E4.
  { cbn. f_equal. apply (IH (length l4)); cbn; [lia|done]. }
  exact (f_equal (cons rune_error) Hr).
Qed.

Lemma runes_ascii_cut (x y : string) (c : ascii) :
  byte_val c < 128 → runes (x +:+ String.String c y) = runes x ++ byte_val c :: runes y.
Proof.
  intros Hc. unfold runes. rewrite <-decode_ascii_cut by done. f_equal.
  induction x as [|a x IH]; [done|].
  change (a :: String.list_ascii_of_string (x +:+ String.String c y)
          = a :: (String.list_ascii_of_string x ++ c :: String.list_ascii_of_string y)).
  by f_equal.
Qed.

(** A byte that no part of the pattern accepts separates the matches. *)
Lemma FindAll_cut r (x y : string) (c : ascii) :
  avoids (byte_val c) r = true → wordRune (byte_val c) = false → byte_val c < 128 →
  no_bound r = true → consumes r = true →
  FindAll r (x +:+ String.String c y) = FindAll r x ++ FindAll r y.
Proof.
  intros Ha Hw Hv Hb Hc. unfold FindAll. rewrite runes_ascii_cut by done.
  rewrite find_all_cut by (done || lia). rewrite map_app. f_equal; f_equal;
    apply find_all_fuel; rewrite ?length_app; cbn; first [done|lia].
Qed.

(** The group of a match found before such a byte. *)
Lemma FindGroup_before r (x y : string) (c : ascii) v :
  avoids (byte_val c) r = true → wordRune (byte_val c) = false → byte_val c < 128 →
  FindGroup r x = Some v → FindGroup r (x +:+ String.String c y) = Some v.
Proof.
  intros Ha Hw Hv. unfold FindGroup. rewrite runes_ascii_cut, search_before by done.
  destruct (search r [] (runes x)) as [[s e]|]; [|done]. done.
Qed.
