(* ===== verification/UpstreamFailure.v ===== *)
(** * Upstream failures

    What an answer that is not a success means ([upstream/failure.go]): the kind of the
    failure, read from the status, from the fields of a JSON body and from the text, and
    read again from a message that was stored.  The main theorem is that the second reading
    agrees with the first: [HTTPError.Error] loses nothing [ClassifyMessage] needs.

    The texts of JSON and of dates are read by the Go library: [decode], [parseHTTPTime] and
    [parseRFC3339] are arguments. *)

From stdpp Require Import pretty.
From S2P Require Import Prelude GoFloat Utf8 Regexp.

(** ** Data *)

Inductive FailureClass :=
| FailureUnknown
| FailureLimited
| FailureSubscriptionLimit
| FailureTransient
| FailureCredentialInvalid.

#[export] Instance FailureClass_eq_dec : EqDecision FailureClass.
Proof. solve_decision. Defined.

(** The zero [time.Time], from which times count nanoseconds. *)
Definition zeroTime : Z := 0.

Record Failure := mkFailure {
  f_Class : FailureClass;
  f_StatusCode : Z;
  f_Code : string;
  f_Type : string;
  f_Message : string;
  f_Scope : string;
  f_Reason : string;
  f_LimitWindow : string;
  f_LimitReason : string;
  f_RetryAfterSeconds : Z;
  f_HasRetryAfter : bool;
  f_ResetAt : Z
}.

Definition Limited (f : Failure) : bool :=
  bool_decide (f_Class f = FailureLimited) || bool_decide (f_Class f = FailureSubscriptionLimit).
Definition SubscriptionLimited (f : Failure) : bool := bool_decide (f_Class f = FailureSubscriptionLimit).
Definition Transient (f : Failure) : bool := bool_decide (f_Class f = FailureTransient).
Definition CredentialInvalid (f : Failure) : bool := bool_decide (f_Class f = FailureCredentialInvalid).

(** What the decoder makes of JSON with [UseNumber]: a number is its text, so that the
    cases of [float64] in the source are never taken. *)
Inductive value :=
| VNil
| VBool (b : bool)
| VNumber (text : string)
| VString (s : string)
| VArray (items : list value)
| VMap (members : list (string * value)).

Notation payload := (list (string * value)).

(** [m[key]], nil when there is none: the last member of the name counts. *)
Definition index (m : payload) (key : string) : value :=
  default VNil (snd <$> find (λ kv, bool_decide (kv.1 = key)) (rev m)).

(** [nestedMap]; [None] is the nil map. *)
Definition nestedMap (m : payload) (key : string) : option payload :=
  match index m key with VMap members => Some members | _ => None end.

Definition firstString (values : list value) : string :=
  default "" (head (omap (λ v, match v with
    | VString s => if bool_decide (TrimSpace s = "") then None else Some (TrimSpace s)
    | VNumber text => Some text
    | _ => None
    end) values)).

(** [json.Number.Int64] and [strconv.ParseInt]; the bool is [err == nil]. *)
Definition int64Value (v : value) : option Z :=
  match v with
  | VNumber text => ParseInt64 text
  | VString s => ParseInt64 (TrimSpace s)
  | _ => None
  end.

(** [time.Unix(sec, 0)], whose seconds since the year 1 wrap around. *)
Definition timeUnix (sec : Z) : Z := add64 sec 62135596800 * Second.

(** [int64(d.Seconds())]: the seconds and the rest are added as floats. *)
Definition wholeSeconds (d : Z) : Z :=
  default 0 (trunc_int64 (fadd (of_int (Z.quot d Second)) (fdiv (of_int (Z.rem d Second)) (of_int 1000000000)))).

(** ** Letters and patterns *)

(** [strings.ToUpper].  Exact on ASCII; of the other runes it maps the two whose upper case
    is ASCII (U+017F to S, U+0131 to I) and leaves the others alone: what it gives is only
    compared with ASCII text. *)
Definition upper_ascii (c : ascii) : ascii :=
  let n := nat_of_ascii c in if ascii_in 97 122 n then ascii_of_nat (n - 32) else c.

Fixpoint upper_bytes (l : list ascii) : list ascii :=
  match l with
  | c1 :: r1 =>
      match r1 with
      | c2 :: r2 =>
          if (nat_of_ascii c1 =? 197)%nat && (nat_of_ascii c2 =? 191)%nat then "S"%char :: upper_bytes r2
          else if (nat_of_ascii c1 =? 196)%nat && (nat_of_ascii c2 =? 177)%nat then "I"%char :: upper_bytes r2
          else upper_ascii c1 :: upper_bytes r1
      | [] => [upper_ascii c1]
      end
  | [] => []
  end.

Definition ToUpper (s : string) : string :=
  String.string_of_list_ascii (upper_bytes (String.list_ascii_of_string s)).

Definition HasSuffix (s suffix : string) : bool :=
  (String.length suffix <=? String.length s)%nat
  && bool_decide (String.substring (String.length s - String.length suffix) (String.length suffix) s = suffix).

(** A letter of a pattern with [(?i)]: k and s have a third spelling, U+212A and U+017F. *)
Definition foldRune (lower c : Z) : bool :=
  (c =? lower) || (c =? lower - 32) || ((lower =? 107) && (c =? 8490)) || ((lower =? 115) && (c =? 383)).

Definition patternRune (a : ascii) : regex :=
  let c := byte_val a in
  Chr (if between 97 c 122 then foldRune c else λ x, x =? c).

Definition word (s : string) : regex :=
  foldr (λ a r, Seq (patternRune a) r) Eps (String.list_ascii_of_string s).

(** [[A-Z0-9]] with [(?i)] *)
Definition alnum : regex :=
  Chr (λ c, between 48 c 57 || between 65 c 90 || between 97 c 122 || (c =? 8490) || (c =? 383)).
Definition digit (lo hi : Z) : regex := Chr (λ c, between lo c hi).
Definition space : regex := Chr (λ c, (c =? 9) || (c =? 10) || (c =? 12) || (c =? 13) || (c =? 32)).

Definition statusCodePattern : regex :=
  Seq (Alt (word "returned")
        (Alt (Seq (word "status") (Seq (Opt (word "_code")) (Opt (Seq (Plus space) (word "was")))))
          (Alt (word "http") (Seq (word "responded") (Seq (Plus space) (word "with"))))))
   (Seq (Star space)
    (Seq (Opt (Chr (λ c, (c =? 61) || (c =? 58))))
     (Seq (Star space)
      (Seq (Group (Seq (digit 49 53) (Times 2 (digit 48 57)))) Bound)))).

Definition upperSnakeTokenPattern : regex :=
  Seq (Plus alnum) (Plus (Seq (word "_") (Plus alnum))).

(** ** The status and the body in a message *)

Definition statusCodeFromMessage (message : string) : Z :=
  match FindGroup statusCodePattern message with
  | Some digits => default 0 (ParseInt64 digits)
  | None => 0
  end.

(** What follows the first byte [c], with it. *)
Fixpoint from (c : ascii) (l : list ascii) : option (list ascii) :=
  match l with
  | [] => None
  | x :: rest => if bool_decide (x = c) then Some l else from c rest
  end.

(** From the first opening brace to the last closing one; [None] is nil. *)
Definition jsonBodyFromMessage (message : string) : option string :=
  rest ← from "{" (String.list_ascii_of_string message);
  back ← from "}" (rev rest);
  Some (String.string_of_list_ascii (rev back)).

(** ** Words that tell the kind *)

Definition normalizeToken (value : string) : string := ToLower (TrimSpace value).

Definition subscriptionLimitWindow (token : string) : string :=
  if bool_decide (token = "DAILY_LIMIT_EXCEEDED") then "daily"
  else if bool_decide (token = "WEEKLY_LIMIT_EXCEEDED") then "weekly"
  else if bool_decide (token = "MONTHLY_LIMIT_EXCEEDED") then "monthly"
  else "".

Definition limitExceededToken (value : string) : bool :=
  let token := ToUpper (TrimSpace value) in
  bool_decide (token = "LIMIT_EXCEEDED") || HasSuffix token "_LIMIT_EXCEEDED".

Definition containsLimitExceededToken (value : string) : bool :=
  existsb limitExceededToken (FindAll upperSnakeTokenPattern value).

Definition limitedCodes : list string :=
  ["api_key_total_quota_exhausted"; "api_key_daily_quota_exhausted"; "api_key_weekly_quota_exhausted";
   "api_key_quota_exhausted"; "usage_limit_reached"; "usage_limit_exceeded"; "rate_limit_exceeded";
   "insufficient_quota"; "insufficient_balance"; "user_platform_daily_quota_exhausted";
   "user_platform_weekly_quota_exhausted"; "user_platform_monthly_quota_exhausted"].

Definition limitedCode (v : string) : bool := bool_decide (v ∈ limitedCodes).

Definition limitedTexts : list string :=
  ["api_key_total_quota_exhausted"; "api_key_daily_quota_exhausted"; "api_key_weekly_quota_exhausted";
   "api_key_quota_exhausted"; "usage_limit_reached"; "insufficient_quota"; "insufficient_balance";
   "user_platform_daily_quota_exhausted"; "user_platform_weekly_quota_exhausted";
   "user_platform_monthly_quota_exhausted"; "api key 额度已用完";
   "api key total quota has been exhausted"; "api key daily quota has been exhausted";
   "api key weekly quota has been exhausted"; "insufficient account balance"; "insufficient balance";
   "usage quota exhausted for this platform"; "daily usage quota exhausted";
   "weekly usage quota exhausted"; "monthly usage quota exhausted"].

(** The empty text, which the source excludes, contains none of the words. *)
Definition containsOne (v : string) (texts : list string) : bool := existsb (Contains v) texts.

Definition limitedMessage (v : string) : bool :=
  if bool_decide (v = "") then false else containsOne v limitedTexts.

Definition credentialInvalidCodes : list string :=
  ["invalid_api_key"; "api_key_required"; "api_key_disabled"; "api_key_expired"; "user_not_found";
   "user_inactive"; "invalid_grant"; "refresh_token_reused"; "token_invalidated"; "unauthorized"].

Definition credentialInvalidCode (v : string) : bool := bool_decide (v ∈ credentialInvalidCodes).

Definition credentialInvalidTexts : list string :=
  ["invalid_api_key"; "api_key_required"; "api_key_disabled"; "api_key_expired"; "user_not_found";
   "user_inactive"; "valid api key is required"; "invalid api key"; "api key is disabled";
   "api key is required"; "api key 已过期"; "refresh_token_reused"; "invalid_grant"; "token_invalidated"].

Definition credentialInvalidMessage (v : string) : bool :=
  if bool_decide (v = "") then false else containsOne v credentialInvalidTexts.

Definition transientTexts : list string :=
  ["context deadline exceeded"; "i/o timeout"; "connection refused"; "connection reset"; "no such host";
   "unexpected eof"; "tls handshake timeout"].

Definition transientMessage (v : string) : bool :=
  if bool_decide (v = "") then false else containsOne v transientTexts.

(** ** The kind of a failure *)

(** The loop over the structured values: [inl] returns from the function. *)
Fixpoint structuredLimit (values : list string) (usageReason : string) : (string * string) + string :=
  match values with
  | [] => inr usageReason
  | v :: rest =>
      let token := ToUpper (TrimSpace v) in
      if negb (bool_decide (subscriptionLimitWindow token = "")) then inl (subscriptionLimitWindow token, token)
      else if bool_decide (token = "USAGE_LIMIT_EXCEEDED") then structuredLimit rest token
      else if limitExceededToken token then inl ("", "")
      else structuredLimit rest usageReason
  end.

Definition textWindow (rawBody : string) : option (string * string) :=
  head (omap (λ token, let normalized := ToUpper (TrimSpace token) in
    if bool_decide (subscriptionLimitWindow normalized = "") then None
    else Some (subscriptionLimitWindow normalized, normalized)) (FindAll upperSnakeTokenPattern rawBody)).

Definition textUsage (rawBody : string) : bool :=
  existsb (λ token, bool_decide (ToUpper (TrimSpace token) = "USAGE_LIMIT_EXCEEDED"))
    (FindAll upperSnakeTokenPattern rawBody).

Definition subscriptionLimitDetails (failure : Failure) (rawBody : string) : string * string :=
  match structuredLimit [f_Reason failure; f_Code failure; f_Type failure] "" with
  | inl found => found
  | inr usageReason =>
      match textWindow rawBody with
      | Some found => found
      | None =>
          if negb (bool_decide (usageReason = "")) then ("usage", usageReason)
          else if textUsage rawBody then ("usage", "USAGE_LIMIT_EXCEEDED")
          else ("", "")
      end
  end.

Definition classifyFailure (failure : Failure) (rawBody : string) : FailureClass :=
  let code := normalizeToken (f_Code failure) in
  let typeName := normalizeToken (f_Type failure) in
  let message := ToLower (TrimSpace (f_Message failure)) in
  let raw := ToLower (TrimSpace rawBody) in
  if limitedCode code || limitedCode typeName || limitExceededToken (f_Reason failure)
     || containsLimitExceededToken raw || limitedMessage message || limitedMessage raw
  then FailureLimited
  else if credentialInvalidCode code || credentialInvalidCode typeName
          || credentialInvalidMessage message || credentialInvalidMessage raw
  then FailureCredentialInvalid
  else if f_StatusCode failure =? 429 then FailureLimited
  else if (f_StatusCode failure =? 408) || (f_StatusCode failure =? 425) || (500 <=? f_StatusCode failure)
          || transientMessage message || transientMessage raw
  then FailureTransient
  else FailureUnknown.

Section failures.
Variable decode : string → option payload.
Variables parseHTTPTime parseRFC3339 : string → option Z.

(** [None] is the error; JSON null gives the nil map, which reads like an empty one. *)
Definition decodePayload (body : string) : payload := default [] (decode body).

(** The header is the value of [Retry-After], empty when it is missing; [None] is a nil
    header. *)
Definition retryAfterSeconds (headers : option string) (errorPayload root : payload) (now : Z) : Z * bool :=
  let fromHeader :=
    v ← headers;
    let v := TrimSpace v in
    match ParseInt64 v with
    | Some seconds => if 0 <? seconds then Some seconds else None
    | None => None
    end
    ∪ match parseHTTPTime v with
      | Some retryAt => if now <? retryAt then Some (wholeSeconds (time_sub retryAt now)) else None
      | None => None
      end in
  match fromHeader with
  | Some seconds => (seconds, true)
  | None =>
      match head (omap (λ v, seconds ← int64Value v; if 0 <? seconds then Some seconds else None)
              [index errorPayload "retry_after_seconds"; index errorPayload "resets_in_seconds";
               index root "retry_after_seconds"; index root "resets_in_seconds"]) with
      | Some seconds => (seconds, true)
      | None => (0, false)
      end
  end.

Definition resetAt (errorPayload root : payload) : Z :=
  default zeroTime (head (omap (λ v, match v with
    | VString s => parseRFC3339 (TrimSpace s)
    | VNumber text => parsed ← ParseInt64 text; if 0 <? parsed then Some (timeUnix parsed) else None
    | _ => None
    end) [index errorPayload "reset_at"; index errorPayload "resets_at";
          index root "reset_at"; index root "resets_at"])).

(** The fields that are read from the answer, before the kind is known. *)
Definition readFailure (statusCode : Z) (headers : option string) (body : string) (now : Z) : Failure :=
  let root := decodePayload body in
  let errorPayload := default root (nestedMap root "error") in
  let '(retryAfter, hasRetryAfter) := retryAfterSeconds headers errorPayload root now in
  let reset := resetAt errorPayload root in
  mkFailure FailureUnknown statusCode
    (firstString [index errorPayload "code"; index root "code"])
    (firstString [index errorPayload "type"; index root "type"])
    (firstString [index errorPayload "message"; index root "message"; index root "detail"])
    (firstString [index errorPayload "scope"; index root "scope"])
    (firstString [index errorPayload "reason"; index root "reason"])
    "" ""
    (if (retryAfter <=? 0) && negb (reset =? zeroTime) && (now <? reset)
     then wholeSeconds (time_sub reset now) else retryAfter)
    hasRetryAfter reset.

Definition with_limit (class : FailureClass) (window reason : string) (f : Failure) : Failure :=
  mkFailure class (f_StatusCode f) (f_Code f) (f_Type f) (f_Message f) (f_Scope f) (f_Reason f) window reason
    (f_RetryAfterSeconds f) (f_HasRetryAfter f) (f_ResetAt f).

Definition classifyResponseAt (statusCode : Z) (headers : option string) (body : string) (now : Z) : Failure :=
  let failure := readFailure statusCode headers body now in
  let '(window, reason) := subscriptionLimitDetails failure body in
  let failure := with_limit FailureUnknown window reason failure in
  if negb (bool_decide (window = "")) then with_limit FailureSubscriptionLimit window reason failure
  else with_limit (classifyFailure failure body) window reason failure.

Definition with_message (message : string) (f : Failure) : Failure :=
  mkFailure (f_Class f) (f_StatusCode f) (f_Code f) (f_Type f) message (f_Scope f) (f_Reason f)
    (f_LimitWindow f) (f_LimitReason f) (f_RetryAfterSeconds f) (f_HasRetryAfter f) (f_ResetAt f).

Definition ClassifyMessage (message : string) (now : Z) : Failure :=
  let statusCode := statusCodeFromMessage message in
  let body := default message (jsonBodyFromMessage message) in
  let failure := classifyResponseAt statusCode None body now in
  if bool_decide (f_Message failure = "") then with_message (TrimSpace message) failure else failure.

(** ** Errors *)

Record HTTPError := mkHTTPError { he_Prefix : string; he_Body : string; he_Failure : Failure }.

Definition NewHTTPError (prefix : string) (statusCode : Z) (headers : option string) (body : string) (now : Z)
    : HTTPError :=
  mkHTTPError (TrimSpace prefix) body (classifyResponseAt statusCode headers body now).

Definition Error (e : HTTPError) : string :=
  let prefix := TrimSpace (he_Prefix e) in
  let prefix := if bool_decide (prefix = "") then "upstream returned" else prefix in
  prefix +:+ " " +:+ pretty (f_StatusCode (he_Failure e)) +:+ ": " +:+ TrimSpace (he_Body e).

(** The errors a Go error wraps, itself first, in the order [errors.As] visits them. *)
Inductive layer := LHTTP (e : HTTPError) | LNet | LDeadlineExceeded | LCanceled | LOther.

Definition emptyFailure (class : FailureClass) (message : string) : Failure :=
  mkFailure class 0 "" "" message "" "" "" "" 0 false zeroTime.

Definition ClassifyError (err : option (string * list layer)) (now : Z) : Failure :=
  match err with
  | None => emptyFailure FailureUnknown ""
  | Some (message, layers) =>
      match head (omap (λ l, match l with LHTTP e => Some e | _ => None end) layers) with
      | Some e => he_Failure e
      | None =>
          if existsb (λ l, match l with LNet | LDeadlineExceeded | LCanceled => true | _ => false end) layers
          then emptyFailure FailureTransient message
          else ClassifyMessage message now
      end
  end.
End failures.

(** ** Texts of ASCII *)

Notation chars := String.list_ascii_of_string.

Definition ascii_text (l : list ascii) : bool := forallb (λ c, (nat_of_ascii c <? 128)%nat) l.

Lemma chars_app (a b : string) : chars (a +:+ b) = chars a ++ chars b.
Proof. induction a as [|c a IH]; [done|]. change (c :: chars (a +:+ b) = c :: (chars a ++ chars b)). by f_equal. Qed.

Lemma chars_inj (a b : string) : chars a = chars b → a = b.
Proof.
  intros H. rewrite <-(String.string_of_list_ascii_of_string a), H. apply String.string_of_list_ascii_of_string.
Qed.

Lemma string_app_assoc (a b c : string) : (a +:+ b) +:+ c = a +:+ (b +:+ c).
Proof. apply chars_inj. by rewrite !chars_app, app_assoc. Qed.

Lemma byte_val_nat c : byte_val c = Z.of_nat (nat_of_ascii c).
Proof. unfold byte_val, nat_of_ascii. lia. Qed.

Lemma ascii_text_cons c l :
  ascii_text (c :: l) = true → (nat_of_ascii c < 128)%nat ∧ ascii_text l = true.
Proof. cbn [ascii_text forallb]. intros [H%Nat.ltb_lt ?]%andb_true_iff. done. Qed.

Lemma decode_ascii l k : ascii_text l = true → decode (l ++ k) = map byte_val l ++ decode k.
Proof.
  induction l as [|c l IH]; [done|]. intros [Hc Hl]%ascii_text_cons.
  cbn [app decode map]. rewrite (proj2 (Z.ltb_lt _ _)) by (rewrite byte_val_nat; lia). by rewrite IH.
Qed.

Lemma runes_ascii (a b : string) : ascii_text (chars a) = true → runes (a +:+ b) = map byte_val (chars a) ++ runes b.
Proof. intros Ha. unfold runes. rewrite chars_app. by apply decode_ascii. Qed.

Lemma lower_bytes_cons c l :
  (nat_of_ascii c < 128)%nat → lower_bytes (c :: l) = lower_ascii c :: lower_bytes l.
Proof.
  intros Hc. cbn [lower_bytes]. destruct l as [|c2 [|c3 l]]; [done|..];
    by rewrite ?(proj2 (Nat.eqb_neq (nat_of_ascii c) _)) by lia.
Qed.

Lemma lower_bytes_ascii l k : ascii_text l = true → lower_bytes (l ++ k) = map lower_ascii l ++ lower_bytes k.
Proof.
  induction l as [|c l IH]; [done|]. intros [Hc Hl]%ascii_text_cons.
  cbn [app map]. by rewrite lower_bytes_cons, IH.
Qed.

Lemma ToLower_app (a b : string) :
  ascii_text (chars a) = true → ToLower (a +:+ b) = ToLower a +:+ ToLower b.
Proof.
  intros Ha. apply chars_inj. unfold ToLower. rewrite chars_app, !String.list_ascii_of_string_of_list_ascii.
  rewrite chars_app, lower_bytes_ascii, !String.list_ascii_of_string_of_list_ascii by done. f_equal.
  pose proof (lower_bytes_ascii (chars a) [] Ha) as H.
  change (lower_bytes []) with (@nil ascii) in H. by rewrite !app_nil_r in H.
Qed.

(** *** [TrimSpace] *)

Definition space_text (s : string) : bool := forallb is_ascii_space (chars s).

Lemma trim_front_spaces p2 p3 (w l : list ascii) :
  forallb is_ascii_space w = true →
  trim_front is_ascii_space p2 p3 (w ++ l) = trim_front is_ascii_space p2 p3 l.
Proof.
  induction w as [|c w IH]; [done|]. cbn [forallb]. intros [Hc Hw]%andb_true_iff.
  cbn [app trim_front]. by rewrite Hc, IH.
Qed.

Lemma space2_ascii c d : (nat_of_ascii c < 128)%nat → is_space2 c d = false ∧ is_space2 d c = false.
Proof.
  intros Hc. unfold is_space2. rewrite !(proj2 (Nat.eqb_neq (nat_of_ascii c) _)) by lia.
  by rewrite andb_false_r.
Qed.

Lemma space3_ascii c d e :
  (nat_of_ascii c < 128)%nat →
  is_space3 c d e = false ∧ is_space3 d c e = false ∧ is_space3 d e c = false.
Proof.
  intros Hc. unfold is_space3. rewrite !(proj2 (Nat.eqb_neq (nat_of_ascii c) _)) by lia.
  unfold ascii_in. rewrite (proj2 (Nat.leb_gt 128 (nat_of_ascii c))) by lia.
  by rewrite !andb_false_r.
Qed.

(** A text that begins, or ends, with no space still does when ASCII follows, or goes
    before. *)
Lemma left_space_app l c k :
  l ≠ [] → left_space l = false → (nat_of_ascii c < 128)%nat → left_space (l ++ c :: k) = false.
Proof.
  intros Hne Hl Hc. unfold left_space in *.
  destruct l as [|c1 [|c2 [|c3 l]]]; cbn in *; [done|..|done].
  - apply orb_false_iff in Hl as [-> _]. rewrite (proj2 (space2_ascii c c1 Hc)).
    destruct k as [|d k]; [done|]. by destruct (space3_ascii c c1 d Hc) as (_ & -> & _).
  - apply orb_false_iff in Hl as [-> [-> _]%orb_false_iff].
    by destruct (space3_ascii c c1 c2 Hc) as (_ & _ & ->).
Qed.

Lemma right_space_app l c k :
  l ≠ [] → right_space l = false → (nat_of_ascii c < 128)%nat → right_space (k ++ c :: l) = false.
Proof.
  intros Hne Hl Hc. unfold right_space in *. rewrite rev_app_distr. cbn [rev]. rewrite <-app_assoc.
  assert (Hr : rev l ≠ []) by (intros E; apply Hne; rewrite <-(rev_involutive l), E; done).
  destruct (rev l) as [|c1 [|c2 [|c3 r]]]; cbn in *; [done|..|done].
  - apply orb_false_iff in Hl as [-> _]. rewrite (proj1 (space2_ascii c c1 Hc)).
    destruct (rev k) as [|d r]; [done|]. by destruct (space3_ascii c d c1 Hc) as (_ & -> & _).
  - apply orb_false_iff in Hl as [-> [-> _]%orb_false_iff].
    by destruct (space3_ascii c c2 c1 Hc) as (-> & _ & _).
Qed.

Lemma is_ascii_space_range c : is_ascii_space c = true → (nat_of_ascii c < 128)%nat.
Proof. destruct c as [[] [] [] [] [] [] [] []]; vm_compute; intros; try done; lia. Qed.

(** White space of ASCII around a text without any is what [TrimSpace] takes away. *)
Lemma TrimSpace_around w1 t w2 :
  space_text w1 = true → space_text w2 = true → TrimSpace t = t → TrimSpace (w1 +:+ t +:+ w2) = t.
Proof.
  unfold space_text. intros H1 H2 Ht.
  pose proof (TrimSpace_ends t) as Hends. rewrite Ht in Hends. destruct Hends as [Hl Hr].
  apply chars_inj. unfold TrimSpace. rewrite String.list_ascii_of_string_of_list_ascii, !chars_app.
  unfold trim_left_bytes. rewrite trim_front_spaces by done.
  assert (Hrev : forallb is_ascii_space (rev (chars w2)) = true).
  { apply forallb_forall. intros c Hc%in_rev. by apply (proj1 (forallb_forall _ _) H2). }
  destruct (chars t) as [|c0 l0] eqn:Et.
  { replace (chars w2) with (chars w2 ++ []) by apply app_nil_r. by rewrite (trim_front_spaces _ _ _ [] H2). }
  rewrite <-Et in *. assert (Hne : chars t ≠ []) by (by rewrite Et).
  rewrite trim_front_clean; [|change (left_space (chars t ++ chars w2) = false)].
  - unfold trim_right_rev. rewrite rev_app_distr, trim_front_spaces by done.
    rewrite trim_front_clean; [apply rev_involutive|done].
  - destruct (chars w2) as [|d w]; [by rewrite app_nil_r|]. apply left_space_app; [done..|].
    cbn in H2. apply andb_true_iff in H2 as [Hd _]. by apply is_ascii_space_range.
Qed.

(** *** [Contains] *)

(** No occurrence of the word begins within [a]: no end of [a] is compatible with it. *)
Fixpoint no_start (a n : string) : bool :=
  match a with
  | EmptyString => true
  | String.String _ r => negb (String.prefix n a) && negb (String.prefix a n) && no_start r n
  end.

Lemma prefix_app_cases n a b : String.prefix n (a +:+ b) = true → String.prefix n a = true ∨ String.prefix a n = true.
Proof.
  revert n. induction a as [|c a IH]; intros n H.
  { right. by destruct n. }
  destruct n as [|d n]; [by left|]. change (String.String c a +:+ b) with (String.String c (a +:+ b)) in H.
  cbn in H |- *. destruct (ascii_dec d c) as [->|]; [|done]. destruct (ascii_dec c c); [|done].
  by apply IH.
Qed.

Lemma Contains_app a b n : no_start a n = true → Contains (a +:+ b) n = Contains b n.
Proof.
  induction a as [|c a IH]; [done|]. cbn [no_start].
  intros [[H1%negb_true_iff H2%negb_true_iff]%andb_true_iff H3]%andb_true_iff.
  change (String.String c a +:+ b) with (String.String c (a +:+ b)). cbn [Contains].
  change (String.String c (a +:+ b)) with (String.String c a +:+ b).
  destruct (String.prefix n (String.String c a +:+ b)) eqn:E; [|by apply IH].
  apply prefix_app_cases in E as [E|E]; congruence.
Qed.

Lemma containsOne_app a b texts :
  forallb (no_start a) texts = true → containsOne (a +:+ b) texts = containsOne b texts.
Proof.
  unfold containsOne. induction texts as [|n texts IH]; [done|]. cbn.
  intros [H1 H2]%andb_true_iff. by rewrite Contains_app, IH.
Qed.

(** *** Tokens *)

Lemma FindAll_tokens_cut (x y : string) (c : ascii) :
  avoids (byte_val c) upperSnakeTokenPattern = true → wordRune (byte_val c) = false →
  (nat_of_ascii c < 128)%nat →
  FindAll upperSnakeTokenPattern (x +:+ String.String c y)
  = FindAll upperSnakeTokenPattern x ++ FindAll upperSnakeTokenPattern y.
Proof. intros. apply FindAll_cut; [done..| |done|done]. rewrite byte_val_nat. lia. Qed.

Lemma space_separates c :
  is_ascii_space c = true →
  avoids (byte_val c) upperSnakeTokenPattern = true ∧ wordRune (byte_val c) = false ∧ (nat_of_ascii c < 128)%nat.
Proof. destruct c as [[] [] [] [] [] [] [] []]; vm_compute; intros; try done; split_and!; lia || done. Qed.

Lemma FindAll_spaces_before w x :
  space_text w = true → FindAll upperSnakeTokenPattern (w +:+ x) = FindAll upperSnakeTokenPattern x.
Proof.
  induction w as [|c w IH]; [done|]. unfold space_text. cbn [chars forallb].
  intros [Hc Hw]%andb_true_iff. destruct (space_separates c Hc) as (H1 & H2 & H3).
  change (String.String c w +:+ x) with ("" +:+ String.String c (w +:+ x)).
  rewrite FindAll_tokens_cut by done. by apply IH.
Qed.

Lemma string_app_nil (a : string) : a +:+ "" = a.
Proof. apply chars_inj. rewrite chars_app. apply app_nil_r. Qed.

Lemma FindAll_spaces_after w x :
  space_text w = true → FindAll upperSnakeTokenPattern (x +:+ w) = FindAll upperSnakeTokenPattern x.
Proof.
  destruct w as [|c w]; [by rewrite string_app_nil|]. unfold space_text. cbn [chars forallb].
  intros [Hc Hw]%andb_true_iff. destruct (space_separates c Hc) as (H1 & H2 & H3).
  rewrite FindAll_tokens_cut by done.
  rewrite <-(string_app_nil w), FindAll_spaces_before by done. apply app_nil_r.
Qed.

(** ** The status is read back *)

Lemma search_skip r b c l :
  ends r (mkPos b (c :: l) None) = [] → search r b (c :: l) = search r (c :: b) l.
Proof. intros H. cbn [search]. by rewrite H. Qed.

(** A match the relation knows is one the search finds, when they all give the same group. *)
Lemma search_here r b l e v :
  Ends r (mkPos b l None) e → (∀ t, Ends r (mkPos b l None) t → ps_group t = v) →
  ∃ t, search r b l = Some (mkPos b l None, t) ∧ ps_group t = v.
Proof.
  intros He Hv. apply ends_iff in He.
  assert (H : ∃ t, search r b l = Some (mkPos b l None, t) ∧ t ∈ ends r (mkPos b l None)).
  { destruct l; cbn [search]; (destruct (ends r _) as [|t ts]; [by apply not_elem_of_nil in He|]);
      exists t; (split; [done|by left]). }
  destruct H as (t & Hs & Ht%ends_iff). eauto.
Qed.

Definition statusTail : regex :=
  Seq (Star space) (Seq (Opt (Chr (λ c, (c =? 61) || (c =? 58)))) (Seq (Star space)
    (Seq (Group (Seq (digit 49 53) (Times 2 (digit 48 57)))) Bound))).

Definition status_digits (d1 d2 d3 : Z) : bool :=
  between 49 d1 53 && between 48 d2 57 && between 48 d3 57.

Lemma Ends_chr p b l g e :
  Ends (Chr p) (mkPos b l g) e → ∃ c k, l = c :: k ∧ p c = true ∧ e = mkPos (c :: b) k g.
Proof. inversion 1; subst. eauto. Qed.

(** A repetition of one rune stops before a rune it does not accept. *)
Lemma Ends_star_stop p b c l g e :
  p c = false → Ends (Star (Chr p)) (mkPos b (c :: l) g) e → e = mkPos b (c :: l) g.
Proof.
  intros Hc H. inversion H as [| | | | | |? ? t ? Ht _ _| |]; subst; [done|].
  apply Ends_chr in Ht as (c' & k & [= <- <-] & Hp & _). congruence.
Qed.

Lemma Ends_star_one p b c l g e :
  Ends (Star (Chr p)) (mkPos b (c :: l) g) e →
  e = mkPos b (c :: l) g ∨ Ends (Star (Chr p)) (mkPos (c :: b) l g) e.
Proof.
  intros H. inversion H as [| | | | | |? ? t ? Ht _ Hr| |]; subst; [by left|right].
  by apply Ends_chr in Ht as (c' & k & [= <- <-] & Hp & ->).
Qed.

Lemma Ends_opt_skip p b c l g e :
  p c = false → Ends (Opt (Chr p)) (mkPos b (c :: l) g) e → e = mkPos b (c :: l) g.
Proof.
  intros Hc H. inversion H as [| | |? ? ? ? Ht|? ? ? ? Ht| | | |]; subst.
  - apply Ends_chr in Ht as (c' & k & [= <- <-] & Hp & _). congruence.
  - by inversion Ht.
Qed.

Definition threeDigits : regex := Seq (digit 49 53) (Times 2 (digit 48 57)).

Lemma Ends_threeDigits b d1 d2 d3 l g e :
  Ends threeDigits (mkPos b (d1 :: d2 :: d3 :: l) g) e → e = mkPos (d3 :: d2 :: d1 :: b) l g.
Proof.
  unfold threeDigits, Times, digit. intros H.
  repeat match goal with
  | H : Ends (Seq _ _) _ _ |- _ => inversion H; clear H; subst
  | H : Ends Eps _ _ |- _ => inversion H; clear H; subst
  | H : Ends (Chr _) _ _ |- _ => apply Ends_chr in H as (? & ? & ? & _ & ?); simplify_eq
  end. done.
Qed.

Lemma Ends_threeDigits_not b c l g e : between 49 c 53 = false → ¬ Ends threeDigits (mkPos b (c :: l) g) e.
Proof.
  unfold threeDigits, digit. intros Hc H. inversion H as [| |? ? ? t ? Ht _| | | | | |]; subst.
  apply Ends_chr in Ht as (? & ? & [= <- <-] & Hp & _). congruence.
Qed.

Lemma status_tail_group b d1 d2 d3 x e :
  status_digits d1 d2 d3 = true →
  Ends statusTail (mkPos b (32 :: d1 :: d2 :: d3 :: 58 :: x) None) e → ps_group e = Some [d1; d2; d3].
Proof.
  intros Hd He. unfold status_digits, between in Hd. bool_to_prop.
  assert (Hspace : (d1 =? 9) || (d1 =? 10) || (d1 =? 12) || (d1 =? 13) || (d1 =? 32) = false)
    by (repeat (apply orb_false_iff; split); lia).
  assert (Hsep : (d1 =? 61) || (d1 =? 58) = false) by (apply orb_false_iff; split; lia).
  assert (Hdone : ∀ b e, Ends (Seq (Group threeDigits) Bound) (mkPos b (d1 :: d2 :: d3 :: 58 :: x) None) e →
            ps_group e = Some [d1; d2; d3]).
  { intros b' e' H'. inversion H' as [| |? ? ? t ? Ht Hb| | | | | |]; subst.
    inversion Ht as [| | | | | | | |? ? u Hu]; subst. apply Ends_threeDigits in Hu as ->.
    inversion Hb; subst. cbn [set_group ps_group]. f_equal. by apply moves_passed. }
  fold threeDigits in He. unfold statusTail, space in He. fold threeDigits in He.
  inversion He as [| |? ? ? s1 ? T1 R1| | | | | |]; subst.
  inversion R1 as [| |? ? ? s2 ? T2 R2| | | | | |]; subst.
  inversion R2 as [| |? ? ? s3 ? T3 R3| | | | | |]; subst.
  apply Ends_star_one in T1 as [->|T1%Ends_star_stop]; [| |done].
  - apply Ends_opt_skip in T2 as ->; [|done].
    apply Ends_star_one in T3 as [->|T3%Ends_star_stop]; [| |done].
    + inversion R3 as [| |? ? ? t ? Ht _| | | | | |]; subst. inversion Ht as [| | | | | | | |? ? u Hu]; subst.
      by apply Ends_threeDigits_not in Hu.
    + subst. by eapply Hdone.
  - subst. apply Ends_opt_skip in T2 as ->; [|done]. apply Ends_star_stop in T3 as ->; [|done].
    by eapply Hdone.
Qed.

Lemma status_tail_match b d1 d2 d3 x :
  status_digits d1 d2 d3 = true →
  ∃ e, Ends statusTail (mkPos b (32 :: d1 :: d2 :: d3 :: 58 :: x) None) e.
Proof.
  unfold status_digits. intros [[H1 H2]%andb_true_iff H3]%andb_true_iff. eexists.
  apply (ESeq _ _ _ (mkPos (32 :: b) (d1 :: d2 :: d3 :: 58 :: x) None)).
  { eapply EStarMore; [by apply EChr| |apply EStarStop].
    unfold further. cbn [ps_rest length]. apply Nat.ltb_lt. lia. }
  eapply ESeq; [apply EAltR, EEps|]. eapply ESeq; [apply EStarStop|].
  eapply ESeq; [apply EGroup|apply EBound].
  - eapply ESeq; [by apply (EChr (λ c, between 49 c 53))|].
    eapply ESeq; [by apply (EChr (λ c, between 48 c 57))|].
    eapply ESeq; [by apply (EChr (λ c, between 48 c 57))|apply EEps].
  - unfold boundary. cbn. unfold wordRune. by replace (between 48 d3 57) with true.
Qed.

(** The word before the number, and the number, in the texts of [Error]. *)
Lemma search_returned b d1 d2 d3 x :
  status_digits d1 d2 d3 = true →
  ∃ m, search statusCodePattern b (map byte_val (chars "returned ") ++ d1 :: d2 :: d3 :: 58 :: x) = Some m
       ∧ ps_group m.2 = Some [d1; d2; d3].
Proof.
  intros Hd. destruct (status_tail_match (rev (map byte_val (chars "returned")) ++ b) d1 d2 d3 x Hd) as [e He].
  assert (Hiff : ∀ t, Ends statusCodePattern
                   (mkPos b (map byte_val (chars "returned ") ++ d1 :: d2 :: d3 :: 58 :: x) None) t
                 ↔ Ends statusTail (mkPos (rev (map byte_val (chars "returned")) ++ b)
                                      (32 :: d1 :: d2 :: d3 :: 58 :: x) None) t).
  { intros t. rewrite <-!ends_iff.
    change (ends statusCodePattern ?s) with (flat_map (ends statusTail) (ends (Alt (word "returned")
        (Alt (Seq (word "status") (Seq (Opt (word "_code")) (Opt (Seq (Plus space) (word "was")))))
          (Alt (word "http") (Seq (word "responded") (Seq (Plus space) (word "with")))))) s)).
    change (ends (Alt _ _) _) with [mkPos (rev (map byte_val (chars "returned")) ++ b)
                                      (32 :: d1 :: d2 :: d3 :: 58 :: x) None].
    cbn [flat_map]. by rewrite app_nil_r. }
  edestruct (search_here statusCodePattern b) as (t & Hs & Hg).
  - apply Hiff, He.
  - intros t Ht%Hiff. by eapply status_tail_group.
  - exists (mkPos b (map byte_val (chars "returned ") ++ d1 :: d2 :: d3 :: 58 :: x) None, t). eauto.
Qed.

(** The prefixes the program gives to [NewHTTPError], and the one [Error] puts in place of
    none. *)
Definition errorPrefixes : list string := ["upstream returned"; "OpenCode Go models returned"].

(** Where the text of an error begins: everything before the body. *)
Definition errorHead (prefix : string) (status : Z) : string :=
  prefix +:+ " " +:+ pretty status +:+ ":".

Definition statuses : list Z := seqZ 100 500.

(** What the proofs below need of each of the beginnings; there are a thousand. *)
Definition three_digits (status : Z) : bool :=
  match chars (pretty status) with
  | [c1; c2; c3] =>
      status_digits (byte_val c1) (byte_val c2) (byte_val c3)
      && bool_decide (ParseInt64 (string_of_runes [byte_val c1; byte_val c2; byte_val c3]) = Some status)
  | _ => false
  end.

Definition silent (a : string) : bool :=
  forallb (no_start a) limitedTexts && forallb (no_start a) credentialInvalidTexts
  && forallb (no_start a) transientTexts.

Definition head_fine (a : string) : bool :=
  ascii_text (chars a) && negb (left_space (chars a)) && bool_decide (from "{" (chars a) = None)
  && bool_decide (TrimSpace (a +:+ " ") = a)
  && silent (ToLower a) && silent (ToLower (a +:+ " "))
  && bool_decide (FindAll upperSnakeTokenPattern a = [])
  && bool_decide (FindAll upperSnakeTokenPattern (ToLower a) = []).

Lemma three_digits_all : forallb three_digits statuses = true.
Proof. vm_compute. done. Qed.

Lemma head_fine_all :
  forallb (λ prefix, forallb (λ status, head_fine (errorHead prefix status)) statuses) errorPrefixes = true.
Proof. vm_compute. done. Qed.

Lemma forallb_elem {A} (f : A → bool) (l : list A) x : forallb f l = true → x ∈ l → f x = true.
Proof. intros H Hx. by apply (proj1 (forallb_forall f l) H), list_elem_of_In. Qed.

Lemma statuses_elem status : 100 ≤ status ≤ 599 → status ∈ statuses.
Proof. intros H. apply elem_of_seqZ. lia. Qed.

Lemma three_digits_spec status :
  100 ≤ status ≤ 599 →
  ∃ c1 c2 c3, chars (pretty status) = [c1; c2; c3] ∧ ascii_text [c1; c2; c3] = true
    ∧ status_digits (byte_val c1) (byte_val c2) (byte_val c3) = true
    ∧ ParseInt64 (string_of_runes [byte_val c1; byte_val c2; byte_val c3]) = Some status.
Proof.
  intros H%statuses_elem. pose proof (forallb_elem _ _ _ three_digits_all H) as Ht. unfold three_digits in Ht.
  destruct (chars (pretty status)) as [|c1 [|c2 [|c3 [|]]]] eqn:E; try done.
  apply andb_true_iff in Ht as [Hd Hp%bool_decide_eq_true]. exists c1, c2, c3. split_and!; try done.
  unfold status_digits, between in Hd. bool_to_prop. cbn [ascii_text forallb].
  rewrite !byte_val_nat in *. rewrite !(proj2 (Nat.ltb_lt _ _)) by lia. done.
Qed.

Lemma head_fine_spec prefix status :
  prefix ∈ errorPrefixes → 100 ≤ status ≤ 599 → head_fine (errorHead prefix status) = true.
Proof.
  intros Hp Hs%statuses_elem. pose proof (forallb_elem _ _ _ head_fine_all Hp) as H. cbn beta in H.
  by apply (forallb_elem _ _ _ H).
Qed.

(** The runes of such a text. *)
Lemma error_runes prefix status t c1 c2 c3 :
  ascii_text (chars prefix) = true → chars (pretty status) = [c1; c2; c3] → ascii_text [c1; c2; c3] = true →
  runes (errorHead prefix status +:+ t)
  = map byte_val (chars (prefix +:+ " ")) ++ byte_val c1 :: byte_val c2 :: byte_val c3 :: 58 :: runes t.
Proof.
  intros Hp Hc Ha. rewrite runes_ascii.
  - unfold errorHead. rewrite !chars_app, Hc, !map_app. by rewrite <-!app_assoc.
  - unfold errorHead. rewrite !chars_app, Hc. unfold ascii_text in *. by rewrite !forallb_app, Hp, Ha.
Qed.

Lemma status_from_search r text m d1 d2 d3 status :
  r = statusCodePattern → search r [] (runes text) = Some m → ps_group m.2 = Some [d1; d2; d3] →
  ParseInt64 (string_of_runes [d1; d2; d3]) = Some status → statusCodeFromMessage text = status.
Proof.
  intros -> Hs Hg Hp. unfold statusCodeFromMessage, FindGroup. rewrite Hs. cbn [mbind option_bind]. rewrite Hg.
  change (default 0 (ParseInt64 (string_of_runes [d1; d2; d3])) = status). by rewrite Hp.
Qed.

(** Whatever follows the colon, the status is read back. *)
Lemma status_is_read_back prefix status t :
  prefix ∈ errorPrefixes → 100 ≤ status ≤ 599 →
  statusCodeFromMessage (errorHead prefix status +:+ t) = status.
Proof.
  intros Hp Hs. destruct (three_digits_spec status Hs) as (c1 & c2 & c3 & Hc & Ha & Hd & Hparse).
  assert (Hrunes := error_runes prefix status t c1 c2 c3).
  apply list_elem_of_In in Hp. destruct Hp as [<-|[<-|[]]];
    specialize (Hrunes eq_refl Hc Ha).
  - destruct (search_returned (rev (map byte_val (chars "upstream "))) _ _ _ (runes t) Hd) as (m & Hm & Hg).
    eapply status_from_search; [done| |exact Hg|exact Hparse]. rewrite Hrunes.
    etransitivity; [|exact Hm]. cbn [chars map app]. by repeat (rewrite search_skip by reflexivity).
  - destruct (search_returned (rev (map byte_val (chars "OpenCode Go models "))) _ _ _ (runes t) Hd) as (m & Hm & Hg).
    eapply status_from_search; [done| |exact Hg|exact Hparse]. rewrite Hrunes.
    etransitivity; [|exact Hm]. cbn [chars map app]. by repeat (rewrite search_skip by reflexivity).
Qed.

(** ** What the kind depends on *)

Lemma containsOne_guard v texts :
  forallb (no_start "") texts = true → existsb (Contains "") texts = false →
  (if bool_decide (v = "") then false else containsOne v texts) = containsOne v texts.
Proof. intros _ H. by case_bool_decide as Hv; [rewrite Hv|]. Qed.

(** Two texts that tell the same. *)
Definition same_words (a b : string) : Prop :=
  FindAll upperSnakeTokenPattern a = FindAll upperSnakeTokenPattern b
  ∧ FindAll upperSnakeTokenPattern (ToLower (TrimSpace a)) = FindAll upperSnakeTokenPattern (ToLower (TrimSpace b))
  ∧ limitedMessage (ToLower (TrimSpace a)) = limitedMessage (ToLower (TrimSpace b))
  ∧ credentialInvalidMessage (ToLower (TrimSpace a)) = credentialInvalidMessage (ToLower (TrimSpace b))
  ∧ transientMessage (ToLower (TrimSpace a)) = transientMessage (ToLower (TrimSpace b)).

(** The fields the kind is read from. *)
Definition fields (f : Failure) : Z * string * string * string * string * string :=
  (f_StatusCode f, f_Code f, f_Type f, f_Message f, f_Scope f, f_Reason f).

(** The kind and the fields, all but the message and the times. *)
Definition kind (f : Failure) : FailureClass * string * string * (Z * string * string * string * string) :=
  (f_Class f, f_LimitWindow f, f_LimitReason f,
   (f_StatusCode f, f_Code f, f_Type f, f_Scope f, f_Reason f)).

Lemma subscriptionLimitDetails_same f g a b :
  fields f = fields g → FindAll upperSnakeTokenPattern a = FindAll upperSnakeTokenPattern b →
  subscriptionLimitDetails f a = subscriptionLimitDetails g b.
Proof.
  intros [= Hs Hc Ht Hm Hsc Hr] Hw. unfold subscriptionLimitDetails, textWindow, textUsage.
  by rewrite Hr, Hc, Ht, Hw.
Qed.

Lemma classifyFailure_same f g a b :
  fields f = fields g → same_words a b → classifyFailure f a = classifyFailure g b.
Proof.
  intros [= Hs Hc Ht Hm Hsc Hr] (_ & Hl & H1 & H2 & H3).
  unfold classifyFailure, containsLimitExceededToken. by rewrite Hs, Hc, Ht, Hm, Hr, Hl, H1, H2, H3.
Qed.

Section same.
Variable decode : string → option payload.
Variables parseHTTPTime parseRFC3339 : string → option Z.

Lemma readFailure_fields status status' h h' a b now now' :
  status = status' → decodePayload decode a = decodePayload decode b →
  fields (readFailure decode parseHTTPTime parseRFC3339 status h a now)
  = fields (readFailure decode parseHTTPTime parseRFC3339 status' h' b now').
Proof.
  intros <- Hd. unfold readFailure. rewrite Hd.
  by destruct (retryAfterSeconds _ h _ _ _), (retryAfterSeconds _ h' _ _ _).
Qed.

Lemma classifyResponseAt_same status h h' a b now now' :
  decodePayload decode a = decodePayload decode b → same_words a b →
  kind (classifyResponseAt decode parseHTTPTime parseRFC3339 status h a now)
  = kind (classifyResponseAt decode parseHTTPTime parseRFC3339 status h' b now').
Proof.
  intros Hd Hw. unfold classifyResponseAt.
  pose proof (readFailure_fields status status h h' a b now now' eq_refl Hd) as Hf.
  set (f := readFailure _ _ _ status h a now) in *. set (g := readFailure _ _ _ status h' b now') in *.
  rewrite (subscriptionLimitDetails_same f g a b Hf (proj1 Hw)).
  destruct (subscriptionLimitDetails g b) as [window reason].
  assert (Hl : fields (with_limit FailureUnknown window reason f) = fields (with_limit FailureUnknown window reason g))
    by exact Hf.
  rewrite (classifyFailure_same _ _ a b Hl Hw). clear Hl.
  injection Hf as Hs Hc Ht Hm Hsc Hr. unfold kind.
  destruct (bool_decide (window = "")); cbn; by rewrite Hs, Hc, Ht, Hsc, Hr.
Qed.

(** ** Bodies and messages *)

(** The white space of JSON. *)
Definition json_space (s : string) : bool :=
  forallb (λ c, bool_decide (nat_of_ascii c ∈ [9; 10; 13; 32]%nat)) (chars s).

Lemma json_space_ascii c : bool_decide (nat_of_ascii c ∈ [9; 10; 13; 32]%nat) = true → is_ascii_space c = true.
Proof. destruct c as [[] [] [] [] [] [] [] []]; vm_compute; done. Qed.

Lemma json_space_text s : json_space s = true → space_text s = true.
Proof.
  unfold json_space, space_text. induction (chars s) as [|c l IH]; [done|]. cbn [forallb].
  intros [Hc Hl]%andb_true_iff. apply andb_true_iff. split; [by apply json_space_ascii|by apply IH].
Qed.

Lemma same_words_around w1 t w2 :
  json_space w1 = true → json_space w2 = true → TrimSpace t = t → same_words t (w1 +:+ t +:+ w2).
Proof.
  intros H1%json_space_text H2%json_space_text Ht. unfold same_words.
  rewrite TrimSpace_around, Ht by done. split; [|done].
  by rewrite FindAll_spaces_before, FindAll_spaces_after by done.
Qed.

Lemma containsOne_head a t texts :
  forallb (no_start (ToLower a)) texts = true → ascii_text (chars a) = true →
  containsOne (ToLower (a +:+ t)) texts = containsOne (ToLower t) texts.
Proof. intros Hs Ha. rewrite ToLower_app by done. by apply containsOne_app. Qed.

Lemma chars_ToLower s : chars (ToLower s) = lower_bytes (chars s).
Proof. unfold ToLower. apply String.list_ascii_of_string_of_list_ascii. Qed.

Lemma FindAll_head a t :
  FindAll upperSnakeTokenPattern a = [] →
  FindAll upperSnakeTokenPattern (a +:+ " " +:+ t) = FindAll upperSnakeTokenPattern t.
Proof.
  intros Ha. change (" " +:+ t) with (String.String " " t).
  rewrite FindAll_tokens_cut by (reflexivity || (vm_compute; lia)). by rewrite Ha.
Qed.

Lemma left_space_head l k : l ≠ [] → ascii_text l = true → left_space l = false → left_space (l ++ k) = false.
Proof.
  intros Hne Ha Hl. destruct l as [|c r]; [done|]. apply ascii_text_cons in Ha as [Hc _].
  unfold left_space in *. cbn in Hl |- *. apply orb_false_iff in Hl as [-> _].
  destruct (r ++ k) as [|c2 [|c3 q]]; [done|..]; rewrite (proj1 (space2_ascii c c2 Hc)); [done|].
  by destruct (space3_ascii c c2 c3 Hc) as (-> & _ & _).
Qed.

(** What [TrimSpace] leaves of the text of an error: all of it, but the space when no body
    follows. *)
Lemma TrimSpace_error a t :
  a ≠ "" → ascii_text (chars a) = true → left_space (chars a) = false → TrimSpace t = t → t ≠ "" →
  TrimSpace (a +:+ " " +:+ t) = a +:+ " " +:+ t.
Proof.
  intros Hne Ha Hl Ht Hne'. pose proof (TrimSpace_ends t) as [_ Hr]. rewrite Ht in Hr.
  apply TrimSpace_clean; rewrite !chars_app.
  - apply left_space_head; [|done..]. intros E. apply Hne. by apply chars_inj.
  - apply (right_space_app (chars t) " " (chars a)); [|done|vm_compute; lia].
    intros E. apply Hne'. by apply chars_inj.
Qed.
End same.

(** ** The text of an error *)

Lemma limitedMessage_eq v : limitedMessage v = containsOne v limitedTexts.
Proof. by apply containsOne_guard. Qed.
Lemma credentialInvalidMessage_eq v : credentialInvalidMessage v = containsOne v credentialInvalidTexts.
Proof. by apply containsOne_guard. Qed.
Lemma transientMessage_eq v : transientMessage v = containsOne v transientTexts.
Proof. by apply containsOne_guard. Qed.

Lemma head_fine_facts a :
  head_fine a = true →
  (ascii_text (chars a) = true ∧ left_space (chars a) = false ∧ from "{" (chars a) = None
   ∧ TrimSpace (a +:+ " ") = a)
  ∧ (silent (ToLower a) = true ∧ silent (ToLower (a +:+ " ")) = true)
  ∧ FindAll upperSnakeTokenPattern a = [] ∧ FindAll upperSnakeTokenPattern (ToLower a) = [].
Proof. unfold head_fine. intros H. bool_to_prop. done. Qed.

Lemma silent_same a t :
  silent (ToLower a) = true → ascii_text (chars a) = true →
  limitedMessage (ToLower t) = limitedMessage (ToLower (a +:+ t))
  ∧ credentialInvalidMessage (ToLower t) = credentialInvalidMessage (ToLower (a +:+ t))
  ∧ transientMessage (ToLower t) = transientMessage (ToLower (a +:+ t)).
Proof.
  unfold silent. intros [[H1 H2]%andb_true_iff H3]%andb_true_iff Ha.
  rewrite !limitedMessage_eq, !credentialInvalidMessage_eq, !transientMessage_eq.
  by rewrite !containsOne_head.
Qed.

(** Nothing before the body changes what the text tells. *)
Lemma same_words_error a t :
  a ≠ "" → head_fine a = true → TrimSpace t = t → same_words t (a +:+ " " +:+ t).
Proof.
  intros Hne (( Ha & Hl & Hb & Htrim) & (Hs & Hs') & Hf & Hf')%head_fine_facts Ht.
  unfold same_words. split; [by rewrite FindAll_head|]. destruct (decide (t = "")) as [->|Hne'].
  - rewrite (string_app_nil " "), Htrim. split; [by rewrite Hf'|].
    pose proof (silent_same a "" Hs Ha) as H. by rewrite string_app_nil in H.
  - rewrite TrimSpace_error, Ht by done. split.
    + rewrite !ToLower_app by done. change (ToLower " ") with " ". by rewrite FindAll_head.
    + rewrite <-string_app_assoc. apply silent_same; [done|].
      rewrite chars_app. unfold ascii_text in *. by rewrite forallb_app, Ha.
Qed.

Lemma from_app_none c l k : from c l = None → from c (l ++ k) = from c k.
Proof.
  induction l as [|x l IH]; [done|]. cbn [from app]. case_bool_decide; [done|]. apply IH.
Qed.

Lemma from_rev_last l c : from c (rev (l ++ [c])) = Some (rev (l ++ [c])).
Proof. rewrite rev_app_distr. cbn. by rewrite bool_decide_eq_true_2. Qed.

(** The body of the message: the object itself, or none. *)
Lemma jsonBody_object a m :
  from "{" (chars a) = None →
  jsonBodyFromMessage (a +:+ "{" +:+ m +:+ "}") = Some ("{" +:+ m +:+ "}").
Proof.
  intros Ha. unfold jsonBodyFromMessage. rewrite chars_app, from_app_none by done.
  assert (E : chars ("{" +:+ m +:+ "}") = ("{"%char :: chars m) ++ ["}"%char])
    by (by rewrite !chars_app).
  rewrite E. change (from "{" (("{"%char :: chars m) ++ ["}"%char])) with (Some (("{"%char :: chars m) ++ ["}"%char])).
  cbn [mbind option_bind]. rewrite from_rev_last. cbn [mbind option_bind].
  rewrite rev_involutive, <-E. by rewrite String.string_of_list_ascii_of_string.
Qed.

Lemma jsonBody_none message : from "{" (chars message) = None → jsonBodyFromMessage message = None.
Proof. intros H. unfold jsonBodyFromMessage. by rewrite H. Qed.

(** What the decoder is relied on for: white space around a value means nothing, and what
    has no opening brace holds no object. *)
Class JsonDecoder (decode : string → option payload) : Prop := {
  decode_space w1 t w2 :
    json_space w1 = true → json_space w2 = true → decode (w1 +:+ t +:+ w2) = decode t;
  decode_no_object t : from "{" (chars t) = None → decodePayload decode t = []
}.

Lemma kind_with_message message f : kind (with_message message f) = kind f.
Proof. done. Qed.

Section stored.
Context (decode : string → option payload) `{!JsonDecoder decode}.
Variables parseHTTPTime parseRFC3339 : string → option Z.

Lemma ClassifyMessage_kind message body now status :
  statusCodeFromMessage message = status → default message (jsonBodyFromMessage message) = body →
  kind (ClassifyMessage decode parseHTTPTime parseRFC3339 message now)
  = kind (classifyResponseAt decode parseHTTPTime parseRFC3339 status None body now).
Proof. intros <- <-. unfold ClassifyMessage. by case_bool_decide; rewrite ?kind_with_message. Qed.

Lemma Error_text prefix status headers body now :
  prefix = "" ∨ prefix ∈ errorPrefixes →
  ∃ prefix', prefix' ∈ errorPrefixes ∧
    Error (NewHTTPError decode parseHTTPTime parseRFC3339 prefix status headers body now)
    = errorHead prefix' status +:+ " " +:+ TrimSpace body.
Proof.
  intros Hp. exists (if bool_decide (prefix = "") then "upstream returned" else prefix).
  assert (Htrim : TrimSpace prefix = prefix).
  { destruct Hp as [->|Hp%list_elem_of_In]; [done|]. by destruct Hp as [<-|[<-|[]]]; vm_compute. }
  split; [case_bool_decide; [by left|by destruct Hp]|].
  unfold Error, NewHTTPError, errorHead. cbn [he_Prefix he_Body he_Failure].
  rewrite TrimSpace_idem, Htrim.
  replace (f_StatusCode _) with status;
    [|unfold classifyResponseAt, readFailure; destruct (retryAfterSeconds _ _ _ _ _), (subscriptionLimitDetails _ _);
      by case_match].
  by rewrite !string_app_assoc.
Qed.

(** The kind read from the message is the kind read from the answer. *)
Lemma Error_kind prefix status headers w1 t w2 now now' :
  prefix = "" ∨ prefix ∈ errorPrefixes → 100 ≤ status ≤ 599 →
  json_space w1 = true → json_space w2 = true → TrimSpace t = t →
  (∃ m, t = "{" +:+ m +:+ "}") ∨ from "{" (chars t) = None →
  let e := NewHTTPError decode parseHTTPTime parseRFC3339 prefix status headers (w1 +:+ t +:+ w2) now in
  kind (ClassifyMessage decode parseHTTPTime parseRFC3339 (Error e) now') = kind (he_Failure e).
Proof.
  intros Hp Hs H1 H2 Ht Hbody e.
  destruct (Error_text prefix status headers (w1 +:+ t +:+ w2) now Hp) as (p & Hp' & He).
  change (Error e = errorHead p status +:+ " " +:+ TrimSpace (w1 +:+ t +:+ w2)) in He.
  assert (Hfine := head_fine_spec p status Hp' Hs).
  assert (Hne : errorHead p status ≠ "") by (unfold errorHead; by destruct p).
  rewrite TrimSpace_around in He by (try apply json_space_text; done).
  pose proof (status_is_read_back p status (" " +:+ t) Hp' Hs) as Hstatus. rewrite <-He in Hstatus.
  destruct (head_fine_facts _ Hfine) as ((_ & _ & Hbrace & _) & _).
  pose proof (same_words_around w1 t w2 H1 H2 Ht) as Hw.
  change (he_Failure e) with (classifyResponseAt decode parseHTTPTime parseRFC3339 status headers (w1 +:+ t +:+ w2) now).
  clearbody e. destruct Hbody as [(m & ->)|Hb].
  - assert (Hj : jsonBodyFromMessage (Error e) = Some ("{" +:+ m +:+ "}")).
    { rewrite He, <-string_app_assoc. apply jsonBody_object. rewrite chars_app.
      by rewrite from_app_none. }
    rewrite (ClassifyMessage_kind _ _ _ _ Hstatus eq_refl). rewrite Hj. cbn [default from_option id].
    apply classifyResponseAt_same; [|done]. unfold decodePayload. by rewrite (decode_space w1).
  - assert (Hm : from "{" (chars (Error e)) = None).
    { rewrite He, chars_app, from_app_none by done. done. }
    rewrite (ClassifyMessage_kind _ _ _ _ Hstatus eq_refl). rewrite (jsonBody_none _ Hm). cbn [default].
    etransitivity; [|apply (classifyResponseAt_same _ _ _ status None headers t (w1 +:+ t +:+ w2) now now); [|done]].
    + symmetry. apply classifyResponseAt_same; [by rewrite !decode_no_object|].
      rewrite He. by apply same_words_error.
    + unfold decodePayload. by rewrite (decode_space w1).
Qed.

(** C29: The kind of a failure survives its text.  The error of an upstream answer is stored
    as a message, and every later look at the credential or the site judges it by that
    message.  For every status from 100 to 599, every header, and every body that is a JSON
    object, or any text without an opening brace, with white space around it:
    [ClassifyMessage] of the message gives the same class, limit window and reason, status,
    code, type, scope and reason as the answer itself did, whenever it is read. *)
Theorem stored_message_reads_alike prefix status headers w1 t w2 now now' :
  prefix = "" ∨ prefix ∈ errorPrefixes → 100 ≤ status ≤ 599 →
  json_space w1 = true → json_space w2 = true → TrimSpace t = t →
  (∃ m, t = "{" +:+ m +:+ "}") ∨ from "{" (chars t) = None →
  let e := NewHTTPError decode parseHTTPTime parseRFC3339 prefix status headers (w1 +:+ t +:+ w2) now in
  kind (ClassifyMessage decode parseHTTPTime parseRFC3339 (Error e) now') = kind (he_Failure e).
Proof. apply Error_kind. Qed.
End stored.

(** ** A limit that is named *)

Lemma lower_bytes_cut l c k :
  (nat_of_ascii c < 128)%nat → lower_bytes (l ++ c :: k) = lower_bytes l ++ lower_ascii c :: lower_bytes k.
Proof.
  intros Hc. remember (length l) as n eqn:Hn. revert l Hn.
  induction n as [n IH] using (well_founded_induction lt_wf); intros l ->.
  assert (IH' : ∀ l', (length l' < length l)%nat →
            lower_bytes (l' ++ c :: k) = lower_bytes l' ++ lower_ascii c :: lower_bytes k)
    by (intros l' Hl; by apply (IH (length l'))).
  clear IH. pose proof (lower_bytes_cons c k Hc) as Hself.
  assert (H128 : ∀ m, (128 ≤ m)%nat → (nat_of_ascii c =? m)%nat = false) by (intros; apply Nat.eqb_neq; lia).
  destruct l as [|c1 l1]; [done|]. specialize (IH' l1) as IH1. destruct l1 as [|c2 l2].
  { cbn [app]. cbn [lower_bytes] in Hself |- *. rewrite H128, andb_false_r by lia.
    destruct k as [|d k]; [done|]. rewrite H128, andb_false_r by lia. by f_equal. }
  specialize (IH' l2) as IH2. destruct l2 as [|c3 l3].
  - specialize (IH1 ltac:(cbn; lia)). cbn [app] in IH1 |- *.
    change (lower_bytes (c1 :: c2 :: c :: k)) with
      (if (nat_of_ascii c1 =? 196)%nat && (nat_of_ascii c2 =? 176)%nat then "i"%char :: lower_bytes (c :: k)
       else if (nat_of_ascii c1 =? 226)%nat && (nat_of_ascii c2 =? 132)%nat && (nat_of_ascii c =? 170)%nat
       then "k"%char :: lower_bytes k else lower_ascii c1 :: lower_bytes (c2 :: c :: k)).
    change (lower_bytes [c1; c2]) with
      (if (nat_of_ascii c1 =? 196)%nat && (nat_of_ascii c2 =? 176)%nat then ["i"%char]
       else lower_ascii c1 :: lower_bytes [c2]).
    rewrite H128, andb_false_r, IH1, Hself by lia. by destruct (_ && _).
  - specialize (IH' l3) as IH3. cbn [app] in IH1, IH2, IH3 |- *.
    change (lower_bytes (c1 :: c2 :: c3 :: ?r)) with
      (if (nat_of_ascii c1 =? 196)%nat && (nat_of_ascii c2 =? 176)%nat then "i"%char :: lower_bytes (c3 :: r)
       else if (nat_of_ascii c1 =? 226)%nat && (nat_of_ascii c2 =? 132)%nat && (nat_of_ascii c3 =? 170)%nat
       then "k"%char :: lower_bytes r else lower_ascii c1 :: lower_bytes (c2 :: c3 :: r)).
    rewrite IH1, IH2, IH3 by (cbn; lia). by repeat destruct (_ && _).
Qed.

(** A byte that ends a token wherever it stands, and that lower case leaves alone. *)
Definition separator (c : ascii) : bool :=
  (nat_of_ascii c <? 128)%nat && avoids (byte_val c) upperSnakeTokenPattern && negb (wordRune (byte_val c)).

Lemma separator_facts c :
  separator c = true →
  avoids (byte_val c) upperSnakeTokenPattern = true ∧ wordRune (byte_val c) = false
  ∧ (nat_of_ascii c < 128)%nat ∧ lower_ascii c = c.
Proof. destruct c as [[] [] [] [] [] [] [] []]; vm_compute; intros; try done; split_and!; lia || done. Qed.

Lemma ToLower_cut x c y :
  (nat_of_ascii c < 128)%nat →
  ToLower (x +:+ String.String c y) = ToLower x +:+ String.String (lower_ascii c) (ToLower y).
Proof.
  intros Hc. apply chars_inj. rewrite chars_ToLower, !chars_app.
  change (chars (String.String c y)) with (c :: chars y). rewrite lower_bytes_cut by done.
  change (chars (String.String ?d ?s)) with (d :: chars s). by rewrite !chars_ToLower.
Qed.

Lemma tokens_between x c1 t c2 y :
  separator c1 = true → separator c2 = true →
  let s := x +:+ String.String c1 (t +:+ String.String c2 y) in
  ∃ before after, FindAll upperSnakeTokenPattern (ToLower s)
    = before ++ FindAll upperSnakeTokenPattern (ToLower t) ++ after.
Proof.
  intros (A1 & W1 & L1 & E1)%separator_facts (A2 & W2 & L2 & E2)%separator_facts s. unfold s.
  rewrite !ToLower_cut, E1, E2 by done. rewrite FindAll_tokens_cut by done.
  rewrite FindAll_tokens_cut by done. eauto.
Qed.

(** A limit that is named is never taken for anything else.  When a token that ends in
    LIMIT_EXCEEDED, in any case, stands between two separators anywhere in the body, the
    failure is one of the limited ones, whatever its status, headers and fields are: the
    credential waits, it is neither given up nor tried again at once. *)
Theorem named_limit_is_found decode parseHTTPTime parseRFC3339 status headers now x c1 token c2 y :
  separator c1 = true → separator c2 = true → containsLimitExceededToken (ToLower token) = true →
  let body := x +:+ String.String c1 (token +:+ String.String c2 y) in
  TrimSpace body = body →
  Limited (classifyResponseAt decode parseHTTPTime parseRFC3339 status headers body now) = true.
Proof.
  intros H1 H2 Ht body Htrim.
  assert (Hraw : containsLimitExceededToken (ToLower (TrimSpace body)) = true).
  { rewrite Htrim. unfold containsLimitExceededToken in *.
    destruct (tokens_between x c1 token c2 y H1 H2) as (b & a & E). unfold body. rewrite E.
    by rewrite !existsb_app, Ht, orb_true_r. }
  unfold classifyResponseAt, Limited. destruct (subscriptionLimitDetails _ _) as [window reason].
  destruct (bool_decide (window = "")); [|done]. cbn [negb with_limit f_Class].
  unfold classifyFailure. by rewrite Hraw, !orb_true_r.
Qed.

(** ** Samples *)

Definition quoted (s : string) : string :=
  String.String (ascii_of_nat 34) "" +:+ s +:+ String.String (ascii_of_nat 34) "".

Definition sampleObject : string :=
  "{" +:+ quoted "error" +:+ ":{" +:+ quoted "code" +:+ ":" +:+ quoted "invalid_api_key" +:+ "}" +:+ "}".

Definition solid (c : ascii) : bool := negb (bool_decide (nat_of_ascii c ∈ [9; 10; 13; 32]%nat)).

(** A decoder that knows one object. *)
Definition sampleDecode (s : string) : option payload :=
  if bool_decide (List.filter solid (chars s) = chars sampleObject)
  then Some [("error", VMap [("code", VString "invalid_api_key")])] else None.

Lemma filter_json_space w : json_space w = true → List.filter solid (chars w) = [].
Proof.
  unfold json_space. induction (chars w) as [|c l IH]; [done|]. cbn [forallb List.filter].
  intros [Hc Hl]%andb_true_iff. unfold solid at 1. rewrite Hc. by apply IH.
Qed.

Lemma from_none_not_in c l : from c l = None → c ∉ l.
Proof.
  induction l as [|x l IH]; [intros _; apply not_elem_of_nil|]. cbn [from].
  case_bool_decide; [done|]. intros Hl. apply not_elem_of_cons. split; [congruence|by apply IH].
Qed.

Lemma sampleDecoder : JsonDecoder sampleDecode.
Proof.
  split.
  - intros w1 t w2 H1 H2. unfold sampleDecode.
    by rewrite !chars_app, !List.filter_app, (filter_json_space w1), (filter_json_space w2), app_nil_r.
  - intros t Ht%from_none_not_in. unfold decodePayload, sampleDecode. case_bool_decide as E; [|done].
    exfalso. apply Ht. rewrite list_elem_of_In. apply (proj1 (List.filter_In solid "{"%char (chars t))). rewrite E.
    by left.
Qed.

Definition noDate (s : string) : option Z := None.

Lemma stored_message_reads_alike_witness :
  let e := NewHTTPError sampleDecode noDate noDate "upstream returned" 403 (Some "30")
             (" " +:+ sampleObject +:+ String.String "010" "") 0 in
  kind (ClassifyMessage sampleDecode noDate noDate (Error e) 1) = kind (he_Failure e)
  ∧ CredentialInvalid (he_Failure e) = true.
Proof.
  split; [|vm_compute; reflexivity].
  apply (stored_message_reads_alike sampleDecode (JsonDecoder0 := sampleDecoder) noDate noDate).
  - right. left.
  - split; discriminate.
  - vm_compute. reflexivity.
  - vm_compute. reflexivity.
  - vm_compute. reflexivity.
  - left. exists (quoted "error" +:+ ":{" +:+ quoted "code" +:+ ":" +:+ quoted "invalid_api_key" +:+ "}").
    vm_compute. reflexivity.
Defined.

Lemma named_limit_is_found_witness :
  Limited (classifyResponseAt sampleDecode noDate noDate 401 None
    ("<p>Vendor_Rpm_Limit_Exceeded: invalid api key</p>") 0) = true.
Proof.
  apply (named_limit_is_found sampleDecode noDate noDate 401 None 0 "<p" ">" "Vendor_Rpm_Limit_Exceeded" ":"
           " invalid api key</p>"); vm_compute; reflexivity.
Defined.

(** An error page with braces in it loses its reason when it is stored: the message is
    judged by what stands between the first and the last brace. *)
Theorem braces_hide_the_reason decode :
  (∀ s, decode s = None) →
  let e := NewHTTPError decode noDate noDate "upstream returned" 403 None
             "<style>p{color:red}</style>Invalid API key" 0 in
  f_Class (he_Failure e) = FailureCredentialInvalid
  ∧ f_Class (ClassifyMessage decode noDate noDate (Error e) 1) = FailureUnknown.
Proof.
  intros Hd e.
  assert (Hs : ∀ s, decodePayload decode s = decodePayload (λ _, None) s) by (intros; unfold decodePayload; by rewrite Hd).
  assert (Hc : ∀ status h b now, f_Class (classifyResponseAt decode noDate noDate status h b now)
             = f_Class (classifyResponseAt (λ _, None) noDate noDate status h b now)).
  { intros. unfold classifyResponseAt, readFailure. by rewrite Hs. }
  assert (He : Error e = "upstream returned 403: <style>p{color:red}</style>Invalid API key").
  { unfold e, NewHTTPError, Error. cbn [he_Failure he_Prefix he_Body].
    replace (f_StatusCode _) with 403 by (unfold classifyResponseAt, readFailure; rewrite Hs; reflexivity).
    vm_compute. reflexivity. }
  split; [cbn [e NewHTTPError he_Failure]; rewrite Hc; vm_compute; reflexivity|].
  rewrite He. unfold ClassifyMessage.
  assert (Hm : ∀ m f, f_Class (if bool_decide (f_Message f = "") then with_message m f else f) = f_Class f)
    by (intros; by case_match).
  rewrite Hm, Hc. vm_compute. reflexivity.
Qed.
