(* ===== verification/Credentials.v ===== *)
(** * Upstream credentials

    Which keys of a site may serve a model, and in which order they are tried
    ([store/gateway_repository.go], [store/site_api_key_model_repository.go],
    [gatewayCredentials] of [gateway/execution.go], and the keys of Grok sites in
    [gateway/grok_credential_selector.go]).  The same rows are judged in four places: for
    a request, for the routes the router offers, for the list of models, and, by the
    message stored with a key, after every synchronisation.

    A table is the list of its rows in the order the database gives them; a statement that
    fails ends the call with its error and is left out; the readings of the clock within
    one call are one. *)

From stdpp Require Import pretty.
From S2P Require Import Prelude StableSort GoFloat RouteCooldowns Catalog Json UpstreamFailure.

(** The texts the Go library reads: JSON into a value and into the payload of an error,
    and dates. *)
Class Texts := {
  unmarshal : string → option any;
  decodeObject : string → option (list (string * value));
  httpTime : string → option Z;
  rfc3339 : string → option Z
}.

(** ** Rows *)

Record SiteCredential := mkCredential {
  cr_ID : uuid;
  cr_SiteID : uuid;
  cr_CredentialType : string;
  cr_MaskedSecret : string;
  cr_DisplayName : string;
  cr_RoutingPriority : float64;
  cr_UpstreamCostMultiplier : float64;
  cr_Meta : string;
  cr_CreatedAt : Z
}.

Record SiteAPIKeyState := mkKeyState {
  ks_SiteCredentialID : uuid;
  ks_SiteID : uuid;
  ks_Name : string;
  ks_Enabled : bool;
  ks_GroupName : option string;
  ks_RemainQuota : option Z;
  ks_UnlimitedQuota : bool;
  ks_ExpiredTime : option Z;
  ks_SyncStatus : string;
  ks_SyncMessage : option string
}.

(** What a map gives for a key without a state. *)
Definition zeroState : SiteAPIKeyState := mkKeyState uuid_Nil uuid_Nil "" false None None false None "" None.

Record SiteAPIKeyModel := mkKeyModel {
  km_ID : uuid;
  km_SiteID : uuid;
  km_SiteCredentialID : uuid;
  km_SiteModelID : option uuid;
  km_Available : bool;
  km_Enabled : bool;
  km_Raw : string;
  km_UpdatedAt : Z
}.

Record GatewayCredential := mkGatewayCredential {
  gc_Credential : SiteCredential;
  gc_State : SiteAPIKeyState;
  gc_GroupName : option string;
  gc_ModelUpdatedAt : Z;
  gc_SupportedEndpointTypes : list string
}.

Record Tables := mkTables {
  tb_credentials : list SiteCredential;
  tb_states : list SiteAPIKeyState;
  tb_keyModels : list SiteAPIKeyModel;
  tb_cooldowns : list RouteCooldown
}.

(** [now.Unix()] *)
Definition unixOf (t : Z) : Z := t `div` Second - 62135596800.

(** ** Is a key usable? *)

Section usable.
Context `{Texts}.

Definition jsonBoolDefault (data : string) (key : string) (fallback : bool) : bool :=
  if bool_decide (data = "") then fallback
  else match unmarshal data ≫= read_map with
       | None => fallback
       | Some meta =>
           match map_get meta key with
           | Some (ABool b) => b
           | Some (AString s) => EqualFold s "true"
           | _ => fallback
           end
       end.

Definition credentialUsable (credential : SiteCredential) : bool :=
  jsonBoolDefault (cr_Meta credential) "enabled" true
  && negb (jsonBoolDefault (cr_Meta credential) "raw_key_missing" false).

Definition credentialStatePermanentAuthFailure (message : string) (now : Z) : bool :=
  CredentialInvalid (ClassifyMessage decodeObject httpTime rfc3339 message now).

Definition credentialStateUsableAt (state : SiteAPIKeyState) (now : Z) : bool :=
  if bool_decide (ks_SiteCredentialID state = uuid_Nil) then true
  else if negb (ks_Enabled state) then false
  else if EqualFold (TrimSpace (ks_SyncStatus state)) "stale" then false
  else if match ks_ExpiredTime state with
          | Some expiresAt =>
              (0 <? expiresAt)
              && ((if 10000000000 <? expiresAt then Z.quot expiresAt 1000 else expiresAt) <=? unixOf now)
          | None => false
          end then false
  else if negb (ks_UnlimitedQuota state) && match ks_RemainQuota state with Some n => n <=? 0 | None => false end
  then false
  else if negb (EqualFold (TrimSpace (ks_SyncStatus state)) "failed") then true
  else negb (credentialStatePermanentAuthFailure (default "" (ks_SyncMessage state)) now).

Definition credentialManagedByUpstream (credential : SiteCredential) : bool :=
  if bool_decide (cr_Meta credential = "") then false
  else match unmarshal (cr_Meta credential) ≫= read_map with
       | None => false
       | Some meta =>
           negb (bool_decide (TrimSpace (rawStringFromAny (map_index meta "upstream_key_id")) = ""))
           || match map_index meta "upstream_id" with
              | AInt n => 0 <? n
              | AFloat f => fgt f fzero
              | AString s => match ParseInt64 (TrimSpace s) with Some n => 0 <? n | None => false end
              | _ => false
              end
       end.

Definition credentialStateUsableForCredentialAt (credential : SiteCredential) (state : SiteAPIKeyState) (now : Z)
    : bool :=
  if bool_decide (ks_SiteCredentialID state = uuid_Nil) && credentialManagedByUpstream credential then false
  else credentialStateUsableAt state now.

(** ** Types of endpoints *)

(** One value of the list: trimmed, in lower case, under its present name. *)
Definition endpointTypeName (v : string) : string :=
  let v := ToLower (TrimSpace v) in
  if bool_decide (v = "systemone") then "typesafe-systemone" else v.

Fixpoint normalizeTypes (seen : list string) (values : list string) : list string :=
  match values with
  | [] => []
  | v :: rest =>
      let v := endpointTypeName v in
      if bool_decide (v = "") || bool_decide (v ∈ seen) then normalizeTypes seen rest
      else v :: normalizeTypes (v :: seen) rest
  end.

(** [None] is nil. *)
Definition NormalizeModelEndpointTypes (values : option (list string)) : option (list string) :=
  normalizeTypes [] <$> values.

Definition IntersectModelEndpointTypes (base selected : option (list string)) : list string :=
  let allowed := default [] (NormalizeModelEndpointTypes base) in
  List.filter (λ v, bool_decide (v ∈ allowed)) (default [] (NormalizeModelEndpointTypes selected)).

Record EndpointCapabilities := mkCapabilities {
  ca_SupportedEndpointTypes : option (list string);
  ca_Mode : string;
  ca_EndpointTypes : option (list string)
}.

(** A JSON list of strings, nil for null; an element may be null too. *)
Definition read_strings (v : any) : option (option (list string)) :=
  match v with
  | ANil => Some None
  | AArray items => Some <$> mapM read_string items
  | _ => None
  end.

Definition readCapabilities (v : any) : option EndpointCapabilities :=
  members ← read_map v;
  supported ← read_strings (field members "supported_endpoint_types");
  override ← read_map (field members "endpoint_override");
  mode ← read_string (field override "mode");
  types ← read_strings (field override "endpoint_types");
  Some (mkCapabilities supported mode types).

Definition nestedSupported (v : any) : option (option (list string)) :=
  members ← read_map v;
  raw ← read_map (field members "raw");
  read_strings (field raw "supported_endpoint_types").

Definition Capabilities (m : SiteAPIKeyModel) : EndpointCapabilities :=
  if bool_decide (km_Raw m = "") then mkCapabilities None "inherit" None
  else match unmarshal (km_Raw m) ≫= readCapabilities with
       | None => mkCapabilities None "disabled" (Some [])
       | Some value =>
           let supported :=
             match ca_SupportedEndpointTypes value with
             | Some types => Some types
             | None => default None (unmarshal (km_Raw m) ≫= nestedSupported)
             end in
           mkCapabilities (NormalizeModelEndpointTypes supported)
             (if bool_decide (ca_Mode value = "") then "inherit" else ca_Mode value)
             (NormalizeModelEndpointTypes (ca_EndpointTypes value))
       end.

Definition EffectiveEndpointTypes (m : SiteAPIKeyModel) (siteTypes : list string) : list string :=
  let capabilities := Capabilities m in
  if bool_decide (ca_Mode capabilities = "disabled") then []
  else if bool_decide (ca_Mode capabilities = "allowlist")
  then IntersectModelEndpointTypes (Some siteTypes) (ca_EndpointTypes capabilities)
  else if bool_decide (ca_Mode capabilities = "inherit") then
    match ca_SupportedEndpointTypes capabilities with
    | None => default [] (NormalizeModelEndpointTypes (Some siteTypes))
    | Some types => IntersectModelEndpointTypes (Some siteTypes) (Some types)
    end
  else [].

(** ** Order and numbers of a key *)

Definition in_range (x lo hi : float64) : bool := fle lo x && fle x hi.

(** A NaN is in no range, and an infinity in none of these. *)
Definition SiteCredentialRoutingPriority (credential : SiteCredential) : float64 :=
  if in_range (cr_RoutingPriority credential) (of_int 1) (of_int 5) then cr_RoutingPriority credential
  else of_int 1.

Definition SiteCredentialUpstreamCostMultiplier (credential : SiteCredential) : float64 :=
  if in_range (cr_UpstreamCostMultiplier credential) (flit 1 100) (of_int 100)
  then cr_UpstreamCostMultiplier credential else of_int 1.

Definition SiteCredentialDisplayName (credential : SiteCredential) (state : SiteAPIKeyState) : string :=
  default (cr_CredentialType credential)
    (head (List.filter (λ v, negb (bool_decide (v = "")))
       (map TrimSpace [cr_DisplayName credential; ks_Name state; cr_MaskedSecret credential]))).

Definition SiteCredentialCacheDomain (credential : SiteCredential) : string :=
  if bool_decide (cr_Meta credential = "") then ""
  else match unmarshal (cr_Meta credential) ≫= read_map with
       | None => ""
       | Some metadata => TrimSpace (rawStringFromAny (map_index metadata "cache_domain"))
       end.

Definition gatewayCredentialQuotaRank (state : SiteAPIKeyState) : Z * Z :=
  if bool_decide (ks_SiteCredentialID state = uuid_Nil) then (1, 0)
  else if ks_UnlimitedQuota state then (3, 0)
  else match ks_RemainQuota state with Some n => (2, n) | None => (1, 0) end.

Context `{UuidString}.

(** The comparison of [SortGatewayCredentials]. *)
Definition credential_less (left right : GatewayCredential) : bool :=
  let leftPriority := SiteCredentialRoutingPriority (gc_Credential left) in
  let rightPriority := SiteCredentialRoutingPriority (gc_Credential right) in
  if negb (feq leftPriority rightPriority) then fgt leftPriority rightPriority
  else
    let '(leftQuotaRank, leftRemaining) := gatewayCredentialQuotaRank (gc_State left) in
    let '(rightQuotaRank, rightRemaining) := gatewayCredentialQuotaRank (gc_State right) in
    if negb (leftQuotaRank =? rightQuotaRank) then rightQuotaRank <? leftQuotaRank
    else if negb (leftRemaining =? rightRemaining) then rightRemaining <? leftRemaining
    else if negb (gc_ModelUpdatedAt left =? gc_ModelUpdatedAt right)
    then gc_ModelUpdatedAt right <? gc_ModelUpdatedAt left
    else if negb (cr_CreatedAt (gc_Credential left) =? cr_CreatedAt (gc_Credential right))
    then cr_CreatedAt (gc_Credential left) <? cr_CreatedAt (gc_Credential right)
    else string_ltb (uuid_String (cr_ID (gc_Credential left))) (uuid_String (cr_ID (gc_Credential right))).

Definition SortGatewayCredentials (items : list GatewayCredential) : list GatewayCredential :=
  SliceStable credential_less items.

Definition isAPIKeyCredentialType (v : string) : bool :=
  bool_decide (v = "api_key") || HasPrefix v "api_key:".
Definition isModelBoundCredentialType (v : string) : bool :=
  isAPIKeyCredentialType v || HasPrefix v "grok_sso:".

(** [credentialCooling], and [gatewayCredentialCooling], which is the same. *)
Definition credentialCooling (cooldowns : list RouteCooldown) (siteID siteModelID credentialID : uuid) : bool :=
  existsb (λ cooldown,
    bool_decide (rc_SiteID cooldown = siteID) && bool_decide (rc_SiteCredentialID cooldown = Some credentialID)
    && match rc_SiteModelID cooldown with
       | None => true
       | Some model => bool_decide (siteModelID = uuid_Nil) || bool_decide (model = siteModelID)
       end) cooldowns.

(** ** The keys for a model of a site *)

(** The maps by identifier: of two rows with one the later stays. *)
Definition credentialsByID (l : list SiteCredential) : gmap uuid SiteCredential :=
  fold_left (λ m c, <[cr_ID c := c]> m) l ∅.
Definition statesByCredentialID (l : list SiteAPIKeyState) : gmap uuid SiteAPIKeyState :=
  fold_left (λ m s, <[ks_SiteCredentialID s := s]> m) l ∅.

Definition credentialsOf (siteID : uuid) (t : Tables) : list SiteCredential :=
  List.filter (λ c, bool_decide (cr_SiteID c = siteID)) (tb_credentials t).
Definition statesOf (siteID : uuid) (t : Tables) : list SiteAPIKeyState :=
  List.filter (λ s, bool_decide (ks_SiteID s = siteID)) (tb_states t).
Definition bindingsOf (siteID siteModelID : uuid) (t : Tables) : list SiteAPIKeyModel :=
  List.filter (λ m, bool_decide (km_SiteID m = siteID) && bool_decide (km_SiteModelID m = Some siteModelID))
    (tb_keyModels t).

Definition listCredentialsForSiteModel (t : Tables) (now : Z) (siteID siteModelID : uuid)
    (siteEndpointTypes : list string) : list GatewayCredential :=
  let cooldowns := ListActive now (tb_cooldowns t) in
  let credentials := credentialsByID (credentialsOf siteID t) in
  let states := statesByCredentialID (statesOf siteID t) in
  SortGatewayCredentials (omap (λ apiModel,
    if negb (km_Available apiModel) || negb (km_Enabled apiModel) then None
    else
      credential ← credentials !! km_SiteCredentialID apiModel;
      if negb (credentialUsable credential) || credentialCooling cooldowns siteID siteModelID (cr_ID credential)
      then None
      else
        let state := default zeroState (states !! cr_ID credential) in
        if negb (credentialStateUsableForCredentialAt credential state now) then None
        else
          let types := if bool_decide (siteEndpointTypes = []) then []
                       else EffectiveEndpointTypes apiModel siteEndpointTypes in
          if negb (bool_decide (siteEndpointTypes = [])) && bool_decide (types = []) then None
          else Some (mkGatewayCredential credential state (ks_GroupName state) (km_UpdatedAt apiModel) types))
    (bindingsOf siteID siteModelID t)).

Definition HasCredentialBindingsForSiteModel (t : Tables) (siteID siteModelID : uuid) : bool :=
  negb (bool_decide (bindingsOf siteID siteModelID t = [])).

(** The keys that serve a model without a binding, the best one of which is taken. *)
Definition fallbackCandidates (t : Tables) (now : Z) (siteID : uuid) : list GatewayCredential :=
  let cooldowns := ListActive now (tb_cooldowns t) in
  let states := statesByCredentialID (statesOf siteID t) in
  SortGatewayCredentials (omap (λ credential,
    if negb (isAPIKeyCredentialType (cr_CredentialType credential)) || negb (credentialUsable credential)
       || credentialCooling cooldowns siteID uuid_Nil (cr_ID credential) then None
    else
      let state := default zeroState (states !! cr_ID credential) in
      if negb (credentialStateUsableForCredentialAt credential state now) then None
      else Some (mkGatewayCredential credential state (ks_GroupName state) 0 []))
    (credentialsOf siteID t)).

Definition GetFallbackCredentialForSite (t : Tables) (now : Z) (siteID : uuid) : option GatewayCredential :=
  head (fallbackCandidates t now siteID).

(** [gatewayCredentials]; [None] is [gorm.ErrRecordNotFound]. *)
Definition gatewayCredentials (t : Tables) (now : Z) (siteID : uuid) (siteType : string) (siteModelID : uuid)
    (supportedEndpointTypes : list string) : option (list GatewayCredential) :=
  let credentialRecords := listCredentialsForSiteModel t now siteID siteModelID supportedEndpointTypes in
  if negb (bool_decide (credentialRecords = [])) then Some credentialRecords
  else if bool_decide (siteType = "newapi") then None
  else if HasCredentialBindingsForSiteModel t siteID siteModelID then None
  else (λ c, [c]) <$> GetFallbackCredentialForSite t now siteID.

(** ** The keys of a Grok site *)

Record grokCredentialCandidate := mkGrokCandidate {
  gk_Credential : GatewayCredential;
  gk_RemainingQuota : Z
}.

Definition grokCredentialUsable (credential : SiteCredential) (state : option SiteAPIKeyState) : bool :=
  if negb (credentialUsable credential) then false
  else match state with
       | None => true
       | Some state =>
           let status := ToLower (TrimSpace (ks_SyncStatus state)) in
           negb (negb (ks_Enabled state) || bool_decide (status = "failed") || bool_decide (status = "reauth_required"))
       end.

Definition grokCredentialCandidates (credentials : list GatewayCredential) (states : list SiteAPIKeyState)
    : list grokCredentialCandidate :=
  let statesByID := statesByCredentialID states in
  omap (λ credential,
    if negb (HasPrefix (cr_CredentialType (gc_Credential credential)) "grok_sso:") then None
    else
      let state := statesByID !! cr_ID (gc_Credential credential) in
      if negb (grokCredentialUsable (gc_Credential credential) state) then None
      else
        let state := default zeroState state in
        let remainingQuota :=
          if ks_UnlimitedQuota state then max_int64 else default 0 (ks_RemainQuota state) in
        Some (mkGrokCandidate credential remainingQuota)) credentials.

(** The keys [forwardGatewayRequest] tries for a candidate, in order (those of a Grok site
    in the order of its selector); [None] is upstream_credential_unavailable. *)
Definition requestCredentials (t : Tables) (now : Z) (siteID : uuid) (siteType : string) (siteModelID : uuid)
    (supportedEndpointTypes : list string) : option (list GatewayCredential) :=
  credentials ← gatewayCredentials t now siteID siteType siteModelID supportedEndpointTypes;
  if isGrokSite siteType then
    let grokCandidates := grokCredentialCandidates credentials (statesOf siteID t) in
    if bool_decide (grokCandidates = []) then None else Some (map gk_Credential grokCandidates)
  else Some credentials.
End usable.

(** ** The order of keys *)

Lemma SiteCredentialRoutingPriority_number c : is_nan (SiteCredentialRoutingPriority c) = false.
Proof.
  unfold SiteCredentialRoutingPriority, in_range. destruct (cr_RoutingPriority c) eqn:E; by case_match.
Qed.

Section order.
Context `{UuidString}.

Definition by_priority (x y : GatewayCredential) : bool :=
  flt (SiteCredentialRoutingPriority (gc_Credential y)) (SiteCredentialRoutingPriority (gc_Credential x)).
Definition by_key {A} (f : A → Z) (x y : A) : bool := f x <? f y.
Definition by_id (x y : GatewayCredential) : bool :=
  string_ltb (uuid_String (cr_ID (gc_Credential x))) (uuid_String (cr_ID (gc_Credential y))).

#[local] Instance by_priority_order : StrictWeak by_priority (λ _, True).
Proof.
  split; unfold by_priority.
  - intros x y _ _. apply flt_asym; apply SiteCredentialRoutingPriority_number.
  - intros x y z _ _ _ H1 H2. eapply not_flt_trans; [apply SiteCredentialRoutingPriority_number..|exact H2|exact H1].
Qed.

#[export] Instance by_key_order {A} (f : A → Z) : StrictWeak (by_key f) (λ _, True).
Proof. split; unfold by_key; intros; bool_to_prop; apply Z.ltb_ge; lia. Qed.

#[export] Instance by_id_order : StrictWeak by_id (λ _, True).
Proof.
  split; unfold by_id.
  - intros x y _ _. apply string_ltb_asym.
  - intros x y z _ _ _. apply string_not_ltb_trans.
Qed.

Definition credential_lex : GatewayCredential → GatewayCredential → bool :=
  lex by_priority (lex (by_key (λ x, - (gatewayCredentialQuotaRank (gc_State x)).1))
    (lex (by_key (λ x, - (gatewayCredentialQuotaRank (gc_State x)).2))
      (lex (by_key (λ x, - gc_ModelUpdatedAt x))
        (lex (by_key (λ x, cr_CreatedAt (gc_Credential x))) by_id)))).

Lemma lex_key {A} (f : A → Z) (less2 : A → A → bool) x y :
  lex (by_key f) less2 x y = if negb (f x =? f y) then f x <? f y else less2 x y.
Proof.
  unfold lex, by_key. destruct (Z.ltb_spec (f x) (f y)), (Z.ltb_spec (f y) (f x)), (Z.eqb_spec (f x) (f y));
    cbn; try done; lia.
Qed.

Lemma lex_neither {A} (less1 less2 : A → A → bool) x y :
  lex less1 less2 x y = false → lex less1 less2 y x = false → less2 x y = false ∧ less2 y x = false.
Proof. unfold lex. by destruct (less1 x y), (less1 y x). Qed.

Lemma credential_less_lex x y : credential_less x y = credential_lex x y.
Proof.
  unfold credential_less, credential_lex. rewrite feq_flt by apply SiteCredentialRoutingPriority_number.
  unfold lex at 1, by_priority. change fgt with (λ x y, flt y x). cbv beta.
  set (p := SiteCredentialRoutingPriority (gc_Credential x)). set (q := SiteCredentialRoutingPriority (gc_Credential y)).
  rewrite (andb_comm (negb (flt p q))).
  destruct (flt q p), (flt p q); cbn [negb andb]; try done.
  destruct (gatewayCredentialQuotaRank (gc_State x)) as [r1 n1] eqn:Ex,
    (gatewayCredentialQuotaRank (gc_State y)) as [r2 n2] eqn:Ey.
  rewrite !lex_key, Ex, Ey. cbn [fst snd].
  assert (Hneg : ∀ a b, (- a =? - b) = (a =? b)) by (intros; apply eq_true_iff_eq; rewrite !Z.eqb_eq; lia).
  assert (Hlt : ∀ a b, (- a <? - b) = (b <? a)) by (intros; apply eq_true_iff_eq; rewrite !Z.ltb_lt; lia).
  by rewrite !Hneg, !Hlt.
Qed.

#[export] Instance credential_less_order : StrictWeak credential_less (λ _, True).
Proof.
  pose proof (_ : StrictWeak credential_lex (λ _, True)) as [Hasym Htrans].
  split.
  - intros x y Hx Hy. rewrite !credential_less_lex. by apply Hasym.
  - intros x y z Hx Hy Hz. rewrite !credential_less_lex. by apply Htrans.
Qed.

(** Two keys neither of which goes first are the same key. *)
Lemma credential_less_total x y :
  Inj (=) (=) uuid_String → equivb credential_less x y = true →
  cr_ID (gc_Credential x) = cr_ID (gc_Credential y).
Proof.
  intros Hinj. unfold equivb. rewrite !credential_less_lex.
  rewrite andb_true_iff, !negb_true_iff. unfold credential_lex. intros [H1 H2].
  do 5 (apply (lex_neither _ _ _ _ H1) in H2 as [H3 H4]; clear H1; rename H3 into H1, H4 into H2).
  apply Hinj. by apply string_ltb_eq.
Qed.

Lemma SortGatewayCredentials_perm l : Permutation l (SortGatewayCredentials l).
Proof. apply SliceStable_perm. Qed.

Definition credential_id (g : GatewayCredential) : uuid := cr_ID (gc_Credential g).

Lemma NoDup_fmap_inj {A B} (f : A → B) (l : list A) x y :
  NoDup (f <$> l) → x ∈ l → y ∈ l → f x = f y → x = y.
Proof.
  intros Hnd [i Hi]%list_elem_of_lookup [j Hj]%list_elem_of_lookup Hf.
  assert (i = j) as ->; [|congruence].
  eapply NoDup_lookup; [exact Hnd|..]; rewrite list_lookup_fmap; [by rewrite Hi|]. by rewrite Hj, Hf.
Qed.

(** Keys are sorted the same in whatever order they come. *)
Lemma SortGatewayCredentials_no_order l l' :
  Inj (=) (=) uuid_String → NoDup (credential_id <$> l) → Permutation l l' →
  SortGatewayCredentials l = SortGatewayCredentials l'.
Proof.
  intros Hinj Hnd Hp. apply (SliceStable_no_order _ (λ _, True)); [|done|].
  - apply list.Forall_forall. done.
  - intros x y Hx Hy He. eapply (NoDup_fmap_inj credential_id); [done..|]. by apply credential_less_total.
Qed.
End order.

(** ** Maps made of rows *)

Section by_id_maps.
Context {A : Type} (key : A → uuid).

Lemma fold_insert_perm (l l' : list A) (m : gmap uuid A) :
  NoDup (key <$> l) → Permutation l l' →
  fold_left (λ m x, <[key x := x]> m) l m = fold_left (λ m x, <[key x := x]> m) l' m.
Proof.
  intros Hnd Hp. revert m Hnd. induction Hp as [|x l l' Hp IH|x y l|l l' l'' Hp1 IH1 Hp2 IH2]; intros m Hnd.
  - done.
  - cbn. apply IH. by apply list.NoDup_cons in Hnd as [_ ?].
  - cbn. f_equal. apply insert_insert_ne. rewrite !fmap_cons in Hnd.
    apply list.NoDup_cons in Hnd as [Hn _]. intros E. apply Hn. rewrite E. by left.
  - rewrite IH1 by done. apply IH2. by rewrite <-Hp1.
Qed.

Lemma fold_insert_lookup (l : list A) (m : gmap uuid A) k :
  NoDup (key <$> l) →
  fold_left (λ m x, <[key x := x]> m) l m !! k
  = match find (λ x, bool_decide (key x = k)) l with Some x => Some x | None => m !! k end.
Proof.
  revert m. induction l as [|x l IH]; intros m Hnd; [done|]. cbn [fold_left find].
  rewrite fmap_cons in Hnd. apply list.NoDup_cons in Hnd as [Hn Hnd]. rewrite IH by done.
  case_bool_decide as E.
  - destruct (find _ l) as [y|] eqn:F; [|by subst; rewrite lookup_insert_eq].
    apply find_some in F as [Hy%list_elem_of_In Hk%bool_decide_eq_true]. exfalso. apply Hn.
    rewrite E, <-Hk. by apply list_elem_of_fmap_2.
  - destruct (find _ l); [done|]. by rewrite lookup_insert_ne.
Qed.

Lemma fold_insert_Some (l : list A) k x :
  NoDup (key <$> l) →
  fold_left (λ m x, <[key x := x]> m) l (∅ : gmap uuid A) !! k = Some x ↔ x ∈ l ∧ key x = k.
Proof.
  intros Hnd. rewrite fold_insert_lookup by done. rewrite lookup_empty.
  destruct (find _ l) as [y|] eqn:F.
  - apply find_some in F as [Hy%list_elem_of_In Hk%bool_decide_eq_true]. split; [by intros [= ->]|].
    intros [Hx E]. f_equal. eapply (NoDup_fmap_inj key); [done..|congruence].
  - split; [done|]. intros [Hx E]. apply list_elem_of_In in Hx.
    pose proof (find_none _ _ F x Hx) as Hf. cbn in Hf. by apply bool_decide_eq_false in Hf.
Qed.
End by_id_maps.

(** ** Tables in good order *)

(** What the schema of the database keeps: identifiers are unique, a key has one state, and
    is bound to a model once. *)
Record tables_ok (t : Tables) : Prop := {
  ok_credentials : NoDup (cr_ID <$> tb_credentials t);
  ok_states : NoDup (ks_SiteCredentialID <$> tb_states t);
  ok_bindings : ∀ siteID siteModelID, NoDup (km_SiteCredentialID <$> bindingsOf siteID siteModelID t)
}.

(** The same rows in another order. *)
Record same_rows (t t' : Tables) : Prop := {
  same_credentials : Permutation (tb_credentials t) (tb_credentials t');
  same_states : Permutation (tb_states t) (tb_states t');
  same_keyModels : Permutation (tb_keyModels t) (tb_keyModels t');
  same_cooldowns : Permutation (tb_cooldowns t) (tb_cooldowns t')
}.

Lemma NoDup_fmap_filter {A B} (f : A → B) (p : A → bool) (l : list A) :
  NoDup (f <$> l) → NoDup (f <$> List.filter p l).
Proof.
  induction l as [|x l IH]; [done|]. rewrite fmap_cons. intros [Hn Hnd]%list.NoDup_cons. cbn.
  destruct (p x); [|by apply IH]. rewrite fmap_cons. apply list.NoDup_cons. split; [|by apply IH].
  intros (y & Hxy & [Hy%list_elem_of_In _]%list_elem_of_In%List.filter_In)%list_elem_of_fmap. apply Hn.
  rewrite Hxy. by apply list_elem_of_fmap_2.
Qed.

Lemma existsb_perm {A} (f : A → bool) (l l' : list A) : Permutation l l' → existsb f l = existsb f l'.
Proof.
  intros Hp. apply eq_true_iff_eq. rewrite !existsb_exists.
  split; intros (x & Hx & Hf); exists x; (split; [|done]); by apply (Permutation_in x (symmetry Hp)) || by apply (Permutation_in x Hp).
Qed.

Lemma ListActive_perm now l l' : Permutation l l' → Permutation (ListActive now l) (ListActive now l').
Proof.
  intros Hp. unfold ListActive. rewrite <-!SliceStable_perm. by apply list_filter_perm.
Qed.

Lemma credentialCooling_perm l l' siteID modelID credentialID :
  Permutation l l' →
  credentialCooling l siteID modelID credentialID = credentialCooling l' siteID modelID credentialID.
Proof. apply existsb_perm. Qed.

Lemma NoDup_omap {A B C} (f : A → option B) (g : A → C) (h : B → C) (l : list A) :
  (∀ x y, f x = Some y → h y = g x) → NoDup (g <$> l) → NoDup (h <$> omap f l).
Proof.
  intros Hf. induction l as [|x l IH]; [constructor|]. rewrite fmap_cons. intros [Hn Hnd]%list.NoDup_cons.
  cbn [omap list_omap]. destruct (f x) as [y|] eqn:E; [|by apply IH]. rewrite fmap_cons. apply list.NoDup_cons.
  split; [|by apply IH]. rewrite (Hf x y E). intros (z & Hz & Hy)%list_elem_of_fmap. apply Hn.
  apply list_elem_of_omap in Hy as (w & Hw & Hfw). rewrite Hz, (Hf w z Hfw). by apply list_elem_of_fmap_2.
Qed.

Section no_order.
Context `{Texts, UuidString}.

Lemma credentials_map_lookup siteID t id c :
  tables_ok t → credentialsByID (credentialsOf siteID t) !! id = Some c ↔
  c ∈ tb_credentials t ∧ cr_SiteID c = siteID ∧ cr_ID c = id.
Proof.
  intros Hok. unfold credentialsByID. rewrite fold_insert_Some by (by apply NoDup_fmap_filter, ok_credentials).
  unfold credentialsOf. rewrite list_elem_of_In, List.filter_In, <-list_elem_of_In, bool_decide_eq_true. tauto.
Qed.

(** The test of a binding, and what becomes of one that passes. *)
Definition boundKey (t : Tables) (now : Z) (siteID siteModelID : uuid) (siteEndpointTypes : list string)
    (apiModel : SiteAPIKeyModel) : option GatewayCredential :=
  if negb (km_Available apiModel) || negb (km_Enabled apiModel) then None
  else
    credential ← credentialsByID (credentialsOf siteID t) !! km_SiteCredentialID apiModel;
    if negb (credentialUsable credential)
       || credentialCooling (ListActive now (tb_cooldowns t)) siteID siteModelID (cr_ID credential)
    then None
    else
      let state := default zeroState (statesByCredentialID (statesOf siteID t) !! cr_ID credential) in
      if negb (credentialStateUsableForCredentialAt credential state now) then None
      else
        let types := if bool_decide (siteEndpointTypes = []) then []
                     else EffectiveEndpointTypes apiModel siteEndpointTypes in
        if negb (bool_decide (siteEndpointTypes = [])) && bool_decide (types = []) then None
        else Some (mkGatewayCredential credential state (ks_GroupName state) (km_UpdatedAt apiModel) types).

Lemma listCredentials_eq t now siteID siteModelID types :
  listCredentialsForSiteModel t now siteID siteModelID types
  = SortGatewayCredentials (omap (boundKey t now siteID siteModelID types) (bindingsOf siteID siteModelID t)).
Proof. done. Qed.

Lemma boundKey_some t now siteID siteModelID types m g :
  tables_ok t → boundKey t now siteID siteModelID types m = Some g →
  km_Available m = true ∧ km_Enabled m = true
  ∧ gc_Credential g ∈ tb_credentials t ∧ cr_SiteID (gc_Credential g) = siteID
  ∧ cr_ID (gc_Credential g) = km_SiteCredentialID m
  ∧ credentialUsable (gc_Credential g) = true
  ∧ credentialCooling (ListActive now (tb_cooldowns t)) siteID siteModelID (credential_id g) = false
  ∧ gc_State g = default zeroState (statesByCredentialID (statesOf siteID t) !! credential_id g)
  ∧ credentialStateUsableForCredentialAt (gc_Credential g) (gc_State g) now = true
  ∧ gc_GroupName g = ks_GroupName (gc_State g) ∧ gc_ModelUpdatedAt g = km_UpdatedAt m.
Proof.
  intros Hok. unfold boundKey. destruct (negb (km_Available m) || negb (km_Enabled m)) eqn:E1; [done|].
  destruct (_ !! km_SiteCredentialID m) as [c|] eqn:E2; [|done]. cbn [mbind option_bind].
  destruct (negb (credentialUsable c) || _) eqn:E3; [done|].
  destruct (negb (credentialStateUsableForCredentialAt _ _ _)) eqn:E4; [done|].
  destruct (_ && _); [done|]. intros [= <-].
  apply credentials_map_lookup in E2 as (Hc & Hs & Hid); [|done]. bool_to_prop. by split_and!.
Qed.

Lemma boundKey_id t now siteID siteModelID types m g :
  tables_ok t → boundKey t now siteID siteModelID types m = Some g → credential_id g = km_SiteCredentialID m.
Proof. intros Hok Hg. by apply boundKey_some in Hg as (_ & _ & _ & _ & ? & _). Qed.

Lemma tables_maps_same t t' siteID :
  tables_ok t → same_rows t t' →
  credentialsByID (credentialsOf siteID t) = credentialsByID (credentialsOf siteID t')
  ∧ statesByCredentialID (statesOf siteID t) = statesByCredentialID (statesOf siteID t').
Proof.
  intros Hok Hp. split; apply fold_insert_perm.
  - apply NoDup_fmap_filter, ok_credentials, Hok.
  - apply list_filter_perm, Hp.
  - apply NoDup_fmap_filter, ok_states, Hok.
  - apply list_filter_perm, Hp.
Qed.

Lemma boundKey_same t t' now siteID siteModelID types m :
  tables_ok t → same_rows t t' →
  boundKey t now siteID siteModelID types m = boundKey t' now siteID siteModelID types m.
Proof.
  intros Hok Hp. destruct (tables_maps_same t t' siteID Hok Hp) as [Hc Hs].
  unfold boundKey. rewrite Hc, Hs. case_match; [done|]. destruct (_ !! _) as [c|]; [|done]. cbn [mbind option_bind].
  by rewrite (credentialCooling_perm _ _ siteID siteModelID (cr_ID c) (ListActive_perm now _ _ (same_cooldowns _ _ Hp))).
Qed.

Lemma omap_ext_all {A B} (f g : A → option B) (l : list A) : (∀ x, f x = g x) → omap f l = omap g l.
Proof. intros Hfg. induction l as [|x l IH]; [done|]. cbn. rewrite Hfg. by destruct (g x); rewrite IH. Qed.

Lemma omap_perm {A B} (f : A → option B) (l l' : list A) : Permutation l l' → Permutation (omap f l) (omap f l').
Proof.
  induction 1 as [|x l l' Hp IH|x y l|l l' l'' Hp1 IH1 Hp2 IH2]; cbn.
  - done.
  - by destruct (f x); rewrite IH.
  - destruct (f x), (f y); try done. constructor.
  - by etransitivity.
Qed.

Lemma boundKeys_nodup t now siteID siteModelID types :
  tables_ok t →
  NoDup (credential_id <$> omap (boundKey t now siteID siteModelID types) (bindingsOf siteID siteModelID t)).
Proof.
  intros Hok. apply (NoDup_omap _ km_SiteCredentialID); [|by apply ok_bindings].
  intros m g. by apply boundKey_id.
Qed.

Lemma listCredentials_same t t' now siteID siteModelID types :
  Inj (=) (=) uuid_String → tables_ok t → same_rows t t' →
  listCredentialsForSiteModel t now siteID siteModelID types
  = listCredentialsForSiteModel t' now siteID siteModelID types.
Proof.
  intros Hinj Hok Hp. rewrite !listCredentials_eq.
  apply SortGatewayCredentials_no_order; [done| |].
  - by apply boundKeys_nodup.
  - rewrite (omap_ext_all _ (boundKey t' now siteID siteModelID types)) by (intros m; by apply boundKey_same).
    apply omap_perm, list_filter_perm, Hp.
Qed.

(** The same of the keys of a site that stand in when no key is bound. *)
Definition siteKey (t : Tables) (now : Z) (siteID : uuid) (credential : SiteCredential) : option GatewayCredential :=
  if negb (isAPIKeyCredentialType (cr_CredentialType credential)) || negb (credentialUsable credential)
     || credentialCooling (ListActive now (tb_cooldowns t)) siteID uuid_Nil (cr_ID credential) then None
  else
    let state := default zeroState (statesByCredentialID (statesOf siteID t) !! cr_ID credential) in
    if negb (credentialStateUsableForCredentialAt credential state now) then None
    else Some (mkGatewayCredential credential state (ks_GroupName state) 0 []).

Lemma fallbackCandidates_eq t now siteID :
  fallbackCandidates t now siteID = SortGatewayCredentials (omap (siteKey t now siteID) (credentialsOf siteID t)).
Proof. done. Qed.

Lemma siteKey_credential t now siteID c g : siteKey t now siteID c = Some g → gc_Credential g = c.
Proof. unfold siteKey. repeat case_match; try done. by intros [= <-]. Qed.

Lemma fallbackCandidates_same t t' now siteID :
  Inj (=) (=) uuid_String → tables_ok t → same_rows t t' →
  fallbackCandidates t now siteID = fallbackCandidates t' now siteID.
Proof.
  intros Hinj Hok Hp. rewrite !fallbackCandidates_eq.
  apply SortGatewayCredentials_no_order; [done| |].
  - apply (NoDup_omap _ cr_ID); [|by apply NoDup_fmap_filter, ok_credentials].
    intros c g Hg. unfold credential_id. by rewrite (siteKey_credential _ _ _ _ _ Hg).
  - rewrite (omap_ext_all _ (siteKey t' now siteID)).
    + apply omap_perm, list_filter_perm, Hp.
    + intros c. destruct (tables_maps_same t t' siteID Hok Hp) as [_ Hs]. unfold siteKey. rewrite Hs.
      by rewrite (credentialCooling_perm _ _ siteID uuid_Nil (cr_ID c) (ListActive_perm now _ _ (same_cooldowns _ _ Hp))).
Qed.

Lemma gatewayCredentials_nodup t now siteID siteType siteModelID types credentials :
  tables_ok t → gatewayCredentials t now siteID siteType siteModelID types = Some credentials →
  NoDup (credential_id <$> credentials).
Proof.
  intros Hok. unfold gatewayCredentials. case_bool_decide as Hnil; cbn [negb].
  - repeat (case_match; try done). destruct (GetFallbackCredentialForSite t now siteID); [|done].
    intros [= <-]. apply NoDup_singleton.
  - intros [= <-]. rewrite listCredentials_eq, <-SortGatewayCredentials_perm. by apply boundKeys_nodup.
Qed.

Lemma bindings_empty_same t t' siteID siteModelID :
  same_rows t t' →
  HasCredentialBindingsForSiteModel t siteID siteModelID = HasCredentialBindingsForSiteModel t' siteID siteModelID.
Proof.
  intros Hp. unfold HasCredentialBindingsForSiteModel. do 2 f_equal. apply bool_decide_ext.
  assert (Hb : Permutation (bindingsOf siteID siteModelID t) (bindingsOf siteID siteModelID t'))
    by apply list_filter_perm, Hp.
  split; intros E; rewrite E in Hb; [by apply Permutation_nil in Hb|by apply Permutation_sym, Permutation_nil in Hb].
Qed.

(** The keys tried for a request do not depend on the order of rows.  The database
    returns rows as it likes: for every site, model, time and set of endpoint types the
    request tries the same keys in the same order, of bound keys and of the key that stands
    in for them; the selector of a Grok site chooses from the same sign-ins; and none is
    found in the same cases. *)
Theorem credentials_need_no_order t t' now siteID siteType siteModelID types :
  Inj (=) (=) uuid_String → tables_ok t → same_rows t t' →
  requestCredentials t now siteID siteType siteModelID types
  = requestCredentials t' now siteID siteType siteModelID types.
Proof.
  intros Hinj Hok Hp. unfold requestCredentials, gatewayCredentials, GetFallbackCredentialForSite.
  rewrite (listCredentials_same t t'), (bindings_empty_same t t'), (fallbackCandidates_same t t') by done.
  destruct (if negb _ then _ else _) as [credentials|]; [|done]. cbn [mbind option_bind].
  unfold grokCredentialCandidates. by rewrite (proj2 (tables_maps_same t t' siteID Hok Hp)).
Qed.
End no_order.

(** ** A key whose check failed *)

Section failed.
Context `{Texts} `{!JsonDecoder decodeObject}.

(** A key that was refused stays refused, and only such a key.  When the check of a key
    failed and its error was stored, the key is used again exactly when the upstream's
    answer was not that the key is invalid, for every status, header, object or plain text
    the upstream answered, and at every later time, as long as the key is enabled, has not
    expired and has quota left. *)
Theorem refused_key_stays_refused state prefix status headers w1 body w2 checked now :
  prefix = "" ∨ prefix ∈ errorPrefixes → 100 ≤ status ≤ 599 →
  json_space w1 = true → json_space w2 = true → TrimSpace body = body →
  (∃ m, body = "{" +:+ m +:+ "}") ∨ from "{" (chars body) = None →
  let e := NewHTTPError decodeObject httpTime rfc3339 prefix status headers (w1 +:+ body +:+ w2) checked in
  EqualFold (TrimSpace (ks_SyncStatus state)) "failed" = true →
  EqualFold (TrimSpace (ks_SyncStatus state)) "stale" = false →
  ks_SyncMessage state = Some (Error e) →
  ks_SiteCredentialID state ≠ uuid_Nil → ks_Enabled state = true → ks_ExpiredTime state = None →
  (ks_UnlimitedQuota state = true ∨ ∀ n, ks_RemainQuota state = Some n → 0 < n) →
  credentialStateUsableAt state now = negb (CredentialInvalid (he_Failure e)).
Proof.
  intros Hp Hs H1 H2 Ht Hb e Hfailed Hstale Hmsg Hid Hen Hexp Hquota. unfold credentialStateUsableAt.
  rewrite (bool_decide_eq_false_2 _ Hid), Hen, Hstale, Hexp, Hfailed, Hmsg. cbn [negb default from_option id].
  replace (negb (ks_UnlimitedQuota state) && _) with false.
  2:{ destruct Hquota as [->|Hq]; [done|]. destruct (ks_RemainQuota state) as [n|]; [|by rewrite andb_false_r].
      rewrite (proj2 (Z.leb_gt _ _)) by auto. by rewrite andb_false_r. }
  f_equal. unfold credentialStatePermanentAuthFailure, CredentialInvalid.
  pose proof (Error_kind decodeObject httpTime rfc3339 prefix status headers w1 body w2 checked now
                Hp Hs H1 H2 Ht Hb) as Hkind.
  cbv zeta in Hkind. fold e in Hkind. revert Hkind.
  generalize (ClassifyMessage decodeObject httpTime rfc3339 (Error e) now) (he_Failure e).
  intros f g Hkind. by rewrite (f_equal (λ x, x.1.1.1) Hkind : f_Class f = f_Class g).
Qed.
End failed.

(** ** Samples *)

Definition sampleIDs : UuidString := λ id, pretty id.
#[local] Existing Instance sampleIDs.

Lemma sampleIDs_inj : Inj (=) (=) (@uuid_String sampleIDs).
Proof. exact pretty_N_inj. Qed.

(** Texts that know the sample error and the binding of a key that is closed. *)
Definition sampleTexts : Texts := {|
  unmarshal text :=
    if bool_decide (text = "closed") then Some (AObject [("endpoint_override", AObject [("mode", AString "disabled")])])
    else None;
  decodeObject := sampleDecode;
  httpTime := noDate;
  rfc3339 := noDate
|}.
#[local] Existing Instance sampleTexts.

Definition sampleKey (id : uuid) (kind : string) : SiteCredential :=
  mkCredential id 1%N kind "sk-..." "" (of_int 1) (of_int 2) "" (Z.of_N id).

Definition sampleState (id : uuid) (status : string) (message : option string) : SiteAPIKeyState :=
  mkKeyState id 1%N "key" true (Some "default") None true None status message.

Definition sampleBinding (id key : uuid) (raw : string) : SiteAPIKeyModel :=
  mkKeyModel id 1%N key (Some 7%N) true true raw 0.

(** Two keys of site 1 for model 7; the second has no state. *)
Definition sampleTables : Tables :=
  mkTables [sampleKey 11%N "api_key"; sampleKey 12%N "api_key"] [sampleState 11%N "ok" None]
    [sampleBinding 21%N 11%N ""; sampleBinding 22%N 12%N ""] [].

Definition reversedTables : Tables :=
  mkTables (rev (tb_credentials sampleTables)) (rev (tb_states sampleTables)) (rev (tb_keyModels sampleTables)) [].

Lemma sampleTables_ok : tables_ok sampleTables.
Proof.
  split.
  - apply (bool_decide_unpack _). vm_compute. exact I.
  - apply (bool_decide_unpack _). vm_compute. exact I.
  - intros siteID modelID. unfold bindingsOf. apply NoDup_fmap_filter.
    apply (bool_decide_unpack _). vm_compute. exact I.
Qed.

Lemma reversed_rows : same_rows sampleTables reversedTables.
Proof. split; cbn; try apply Permutation_rev; done. Qed.

Lemma credentials_need_no_order_witness :
  requestCredentials sampleTables 5 1%N "openai" 7%N ["openai"]
  = requestCredentials reversedTables 5 1%N "openai" 7%N ["openai"]
  ∧ (map credential_id <$> requestCredentials sampleTables 5 1%N "openai" 7%N ["openai"]) = Some [11%N; 12%N].
Proof.
  split; [|vm_compute; reflexivity].
  apply (credentials_need_no_order sampleTables reversedTables 5 1%N "openai" 7%N ["openai"]).
  - exact sampleIDs_inj.
  - exact sampleTables_ok.
  - exact reversed_rows.
Defined.

Lemma refused_key_stays_refused_witness :
  let e := NewHTTPError decodeObject httpTime rfc3339 "upstream returned" 403 None ("" +:+ sampleObject +:+ "") 0 in
  credentialStateUsableAt (sampleState 11%N "failed" (Some (Error e))) 9 = negb (CredentialInvalid (he_Failure e)).
Proof.
  apply (@refused_key_stays_refused sampleTexts sampleDecoder _ "upstream returned" 403 None "" sampleObject "" 0 9);
    try (vm_compute; reflexivity).
  - right. left.
  - split; discriminate.
  - left. exists (quoted "error" +:+ ":{" +:+ quoted "code" +:+ ":" +:+ quoted "invalid_api_key" +:+ "}").
    vm_compute. reflexivity.
  - discriminate.
  - left. vm_compute. reflexivity.
Defined.

(** A sign-in of a Grok site whose last check failed for a passing reason serves every
    other kind of site, but no request of its own. *)
Theorem grok_keys_are_judged_twice :
  let t := mkTables [sampleKey 11%N "grok_sso:1"] [sampleState 11%N "failed" (Some "timeout")] [sampleBinding 21%N 11%N ""] [] in
  (map credential_id <$> gatewayCredentials t 5 1%N "grok" 7%N []) = Some [11%N]
  ∧ requestCredentials t 5 1%N "grok" 7%N [] = None.
Proof. vm_compute. done. Qed.
