(* ===== verification/CredentialWindow.v ===== *)
(** * The choice among the sign-ins of a Grok site

    [credentialWindowSelector] of [gateway/grok_credential_selector.go], and the loop of
    [forwardGatewayRequest] ([gateway/execution.go]) that asks it for the next sign-in of a
    request.  The choice is the one a record of all past choices gives: least used in the
    window, least in use, most quota, used longest ago; and a request asks each of its
    keys once, the least loaded first.

    The selector is locked during a choice and a release, so calls come one after the
    other, and the clock is read under the lock. *)

From S2P Require Import Prelude StableSort Json Credentials.

(** ** The selector *)

Record credentialWindowState := mkWindowState {
  ws_attempts : list Z;
  ws_inflight : Z;
  ws_lastSelected : Z
}.

(** What [state] creates. *)
Definition newWindowState : credentialWindowState := mkWindowState [] 0 0.

Record credentialWindowSelector := mkSelector {
  sl_window : Z;
  sl_states : gmap uuid credentialWindowState
}.

Definition newCredentialWindowSelector (window : Z) : credentialWindowSelector := mkSelector window ∅.

Definition candidate_id (c : grokCredentialCandidate) : uuid := credential_id (gk_Credential c).

Fixpoint recentCredentialAttempts (attempts : list Z) (cutoff : Z) : list Z :=
  match attempts with
  | [] => []
  | attempt :: rest => if cutoff <? attempt then attempts else recentCredentialAttempts rest cutoff
  end.

(** One turn of the sweep; [None] deletes the state. *)
Definition sweepState (cutoff : Z) (state : credentialWindowState) : option credentialWindowState :=
  let attempts := recentCredentialAttempts (ws_attempts state) cutoff in
  if bool_decide (attempts = []) && (ws_inflight state =? 0) && negb (ws_lastSelected state =? 0)
     && negb (cutoff <? ws_lastSelected state) then None
  else Some (mkWindowState attempts (ws_inflight state) (ws_lastSelected state)).

(** [state] stores a new state for a key that has none. *)
Definition windowState (m : gmap uuid credentialWindowState) (id : uuid)
    : gmap uuid credentialWindowState * credentialWindowState :=
  match m !! id with
  | Some state => (m, state)
  | None => (<[id := newWindowState]> m, newWindowState)
  end.

Section selector.
Context `{UuidString}.

Definition prefer (m : gmap uuid credentialWindowState) (left right : grokCredentialCandidate)
    : gmap uuid credentialWindowState * bool :=
  let (m, leftState) := windowState m (candidate_id left) in
  let (m, rightState) := windowState m (candidate_id right) in
  let leftAttempts := Z.of_nat (length (ws_attempts leftState)) in
  let rightAttempts := Z.of_nat (length (ws_attempts rightState)) in
  (m,
   if negb (leftAttempts =? rightAttempts) then leftAttempts <? rightAttempts
   else if negb (ws_inflight leftState =? ws_inflight rightState) then ws_inflight leftState <? ws_inflight rightState
   else if negb (gk_RemainingQuota left =? gk_RemainingQuota right) then gk_RemainingQuota right <? gk_RemainingQuota left
   else if negb (ws_lastSelected leftState =? ws_lastSelected rightState)
   then ws_lastSelected leftState <? ws_lastSelected rightState
   else string_ltb (uuid_String (candidate_id left)) (uuid_String (candidate_id right))).

Definition selectCredential (now : Z) (candidates : list grokCredentialCandidate) (s : credentialWindowSelector)
    : credentialWindowSelector * option grokCredentialCandidate :=
  match candidates with
  | [] => (s, None)
  | first :: rest =>
      let cutoff := now - sl_window s in
      let m := omap (sweepState cutoff) (sl_states s) in
      let (m, best) :=
        fold_left (λ '(m, best) candidate,
          let (m, better) := prefer m candidate best in (m, if better then candidate else best))
          rest (m, first) in
      let (m, state) := windowState m (candidate_id best) in
      let state := mkWindowState (ws_attempts state ++ [now]) (add64 (ws_inflight state) 1) now in
      (mkSelector (sl_window s) (<[candidate_id best := state]> m), Some best)
  end.

(** What the release function of a choice does the first time it is called. *)
Definition releaseSelection (id : uuid) (s : credentialWindowSelector) : credentialWindowSelector :=
  match sl_states s !! id with
  | Some state =>
      if 0 <? ws_inflight state then
        mkSelector (sl_window s)
          (<[id := mkWindowState (ws_attempts state) (sub64 (ws_inflight state) 1) (ws_lastSelected state)]> (sl_states s))
      else s
  | None => s
  end.

(** ** Choices and releases, one after the other *)

(** A choice, and whether its release function has been called. *)
Record Selection := mkSelection { sn_time : Z; sn_key : uuid; sn_released : bool }.

Record Gateway := mkGateway { gw_selector : credentialWindowSelector; gw_selections : list Selection }.

Inductive event :=
  | Select (now : Z) (candidates : list grokCredentialCandidate)
  | Release (selection : nat).

Definition selectIn (now : Z) (candidates : list grokCredentialCandidate) (g : Gateway)
    : Gateway * option grokCredentialCandidate :=
  let (s, best) := selectCredential now candidates (gw_selector g) in
  (mkGateway s (gw_selections g ++
                match best with Some best => [mkSelection now (candidate_id best) false] | None => [] end), best).

Definition releaseIn (selection : nat) (g : Gateway) : Gateway :=
  match gw_selections g !! selection with
  | Some (mkSelection time id false) =>
      mkGateway (releaseSelection id (gw_selector g)) (<[selection := mkSelection time id true]> (gw_selections g))
  | _ => g
  end.

Definition step (g : Gateway) (ev : event) : Gateway :=
  match ev with
  | Select now candidates => (selectIn now candidates g).1
  | Release selection => releaseIn selection g
  end.

Definition run (window : Z) (evs : list event) : Gateway :=
  fold_left step evs (mkGateway (newCredentialWindowSelector window) []).

(** ** What the record of the choices says of a key *)

Definition of_key (id : uuid) (sels : list Selection) : list Selection :=
  List.filter (λ s, bool_decide (sn_key s = id)) sels.

Definition usesSince (cutoff : Z) (id : uuid) (sels : list Selection) : Z :=
  Z.of_nat (length (List.filter (λ s, cutoff <? sn_time s) (of_key id sels))).

Definition openUses (id : uuid) (sels : list Selection) : Z :=
  Z.of_nat (length (List.filter (λ s, negb (sn_released s)) (of_key id sels))).

(** 0 for a key that was never used, or whose uses are all over and out of the window. *)
Definition lastUse (cutoff : Z) (id : uuid) (sels : list Selection) : Z :=
  if (usesSince cutoff id sels =? 0) && (openUses id sels =? 0) then 0
  else default 0 (list.last (map sn_time (of_key id sels))).

Definition lighter (cutoff : Z) (sels : list Selection) : grokCredentialCandidate → grokCredentialCandidate → bool :=
  lex (by_key (λ c, usesSince cutoff (candidate_id c) sels))
    (lex (by_key (λ c, openUses (candidate_id c) sels))
      (lex (by_key (λ c, - gk_RemainingQuota c))
        (lex (by_key (λ c, lastUse cutoff (candidate_id c) sels)) (λ a b, by_id (gk_Credential a) (gk_Credential b))))).
End selector.

(** ** The record of one key *)

Lemma filter_keeps_all {A} (f : A → bool) l : Forall (λ x, f x = true) l → List.filter f l = l.
Proof. induction 1 as [|x l Hx _ IH]; [done|]. cbn. by rewrite Hx, IH. Qed.

Lemma recent_filter cutoff l :
  StronglySorted Z.le l → recentCredentialAttempts l cutoff = List.filter (λ t, cutoff <? t) l.
Proof.
  induction 1 as [|t l _ IH Hall]; [done|]. cbn.
  destruct (Z.ltb_spec cutoff t) as [Ht|Ht]; [|done]. f_equal. symmetry. apply filter_keeps_all.
  eapply list.Forall_impl; [exact Hall|]. intros u Hu. apply Z.ltb_lt. lia.
Qed.

Lemma filter_later (c1 c2 : Z) l :
  c1 ≤ c2 → List.filter (λ t, c2 <? t) (List.filter (λ t, c1 <? t) l) = List.filter (λ t, c2 <? t) l.
Proof.
  intros Hc. induction l as [|t l IH]; [done|]. cbn.
  destruct (Z.ltb_spec c1 t), (Z.ltb_spec c2 t); cbn; rewrite ?IH; try lia; try done.
  - by rewrite (proj2 (Z.ltb_lt _ _)) by lia.
  - by rewrite (proj2 (Z.ltb_ge _ _)) by lia.
Qed.

Lemma filter_sorted (f : Z → bool) l : StronglySorted Z.le l → StronglySorted Z.le (List.filter f l).
Proof.
  induction 1 as [|t l _ IH Hall]; cbn; [constructor|]. destruct (f t); [|done].
  constructor; [done|]. apply Forall_forall. intros u [Hu _]%filter_In. rewrite Forall_forall in Hall. by apply Hall.
Qed.

Lemma of_key_app id l1 l2 : of_key id (l1 ++ l2) = of_key id l1 ++ of_key id l2.
Proof. apply filter_app. Qed.

Lemma of_key_one id t id' r :
  of_key id [mkSelection t id' r] = if bool_decide (id' = id) then [mkSelection t id' r] else [].
Proof. done. Qed.

Lemma openUses_app id l1 l2 : openUses id (l1 ++ l2) = openUses id l1 + openUses id l2.
Proof. unfold openUses. rewrite of_key_app, filter_app, length_app. lia. Qed.

Lemma openUses_one id t id' r :
  openUses id [mkSelection t id' r] = if bool_decide (id' = id) && negb r then 1 else 0.
Proof. unfold openUses. rewrite of_key_one. case_bool_decide; by destruct r. Qed.

Lemma openUses_cons id s l : openUses id (s :: l) = openUses id [s] + openUses id l.
Proof. apply (openUses_app id [s]). Qed.

Lemma openUses_nonneg id l : 0 ≤ openUses id l.
Proof. unfold openUses. lia. Qed.

Lemma openUses_le id l : openUses id l ≤ Z.of_nat (length l).
Proof.
  unfold openUses, of_key. pose proof (filter_length_le (λ s, negb (sn_released s)) (List.filter (λ s, bool_decide (sn_key s = id)) l)).
  pose proof (filter_length_le (λ s, bool_decide (sn_key s = id)) l). lia.
Qed.

Lemma insert_middle {A} (l : list A) k x y :
  l !! k = Some x → ∃ l1 l2, l = l1 ++ x :: l2 ∧ <[k := y]> l = l1 ++ y :: l2.
Proof.
  intros Hk. exists (take k l), (drop (S k) l). split; [symmetry; by apply take_drop_middle|].
  apply insert_take_drop. by eapply lookup_lt_Some.
Qed.

Lemma openUses_released sels k t id id' :
  sels !! k = Some (mkSelection t id false) →
  openUses id' sels = openUses id' (<[k := mkSelection t id true]> sels) + (if bool_decide (id = id') then 1 else 0).
Proof.
  intros (l1 & l2 & -> & ->)%(insert_middle _ _ _ (mkSelection t id true)).
  rewrite !openUses_app, (openUses_cons id' (mkSelection t id false)), (openUses_cons id' (mkSelection t id true)), !openUses_one.
  case_bool_decide; cbn; lia.
Qed.

Lemma of_key_released sels k t id id' :
  sels !! k = Some (mkSelection t id false) →
  map sn_time (of_key id' (<[k := mkSelection t id true]> sels)) = map sn_time (of_key id' sels).
Proof.
  intros (l1 & l2 & -> & ->)%(insert_middle _ _ _ (mkSelection t id true)).
  rewrite !of_key_app, !map_app. cbn. by case_bool_decide.
Qed.

Lemma usesSince_times cutoff id sels :
  usesSince cutoff id sels = Z.of_nat (length (List.filter (λ t, cutoff <? t) (map sn_time (of_key id sels)))).
Proof.
  unfold usesSince. f_equal. induction (of_key id sels) as [|s l IH]; [done|]. cbn. destruct (_ <? _); cbn; by rewrite IH.
Qed.

(** ** The states agree with the record *)

Definition stateOf (m : gmap uuid credentialWindowState) (id : uuid) : credentialWindowState :=
  default newWindowState (m !! id).

Definition forgotten (st : credentialWindowState) : Prop :=
  ws_attempts st = [] ∧ ws_inflight st = 0 ∧ ws_lastSelected st = 0.

Definition times (id : uuid) (sels : list Selection) : list Z := map sn_time (of_key id sels).

Record agrees (cutoff : Z) (sels : list Selection) (id : uuid) (st : credentialWindowState) : Prop := {
  ag_attempts : ws_attempts st = List.filter (λ t, cutoff <? t) (times id sels);
  ag_inflight : ws_inflight st = openUses id sels;
  ag_last : ws_lastSelected st = default 0 (list.last (times id sels)) ∨ forgotten st
}.

(** The times of the record, in order, up to [now]. *)
Record in_order (now : Z) (sels : list Selection) : Prop := {
  io_sorted : StronglySorted Z.le (map sn_time sels);
  io_range : Forall (λ t, 0 < t ≤ now) (map sn_time sels)
}.

Lemma times_sub id sels t : In t (times id sels) → In t (map sn_time sels).
Proof.
  unfold times, of_key. rewrite !in_map_iff. intros (s & <- & [Hs _]%filter_In). by exists s.
Qed.

Lemma times_in_order id now sels : in_order now sels → StronglySorted Z.le (times id sels).
Proof.
  intros [Hs _]. induction sels as [|s sels IH]; [constructor|]. cbn in Hs. apply StronglySorted_inv in Hs as [Hs Hall].
  unfold times, of_key. cbn. case_bool_decide; [|by apply IH]. cbn. constructor; [by apply IH|].
  apply Forall_forall. intros t Ht%times_sub. rewrite Forall_forall in Hall. by apply Hall.
Qed.

Lemma in_order_later now now' sels : in_order now sels → now ≤ now' → in_order now' sels.
Proof. intros [Hs Hr] Hn. split; [done|]. eapply list.Forall_impl; [exact Hr|]. intros t; cbn; lia. Qed.

Lemma in_order_snoc now sels id : in_order now sels → 0 < now → in_order now (sels ++ [mkSelection now id false]).
Proof.
  intros [Hs Hr] Hn. split; rewrite map_app; cbn.
  - induction Hs as [|t l Hs IH Hall]; cbn; [repeat constructor|]. apply Forall_cons_1 in Hr as [Ht Hr].
    constructor; [by apply IH|]. apply Forall_app. split; [done|]. constructor; [lia|constructor].
  - apply Forall_app. split; [done|]. constructor; [lia|constructor].
Qed.

Lemma last_of_times id sels : default 0 (list.last (times id sels)) ≠ 0 → In (default 0 (list.last (times id sels))) (times id sels).
Proof.
  destruct (list.last (times id sels)) as [t|] eqn:E; [|done]. intros _. cbn.
  apply list_elem_of_In. by apply last_Some_elem_of.
Qed.

Lemma usesSince_zero cutoff id sels :
  usesSince cutoff id sels = 0 ↔ List.filter (λ t, cutoff <? t) (times id sels) = [].
Proof. rewrite usesSince_times. fold (times id sels). destruct (List.filter _ _); cbn; split; done || lia. Qed.

(** After the sweep the states are what the record says. *)
Definition exactly (cutoff : Z) (sels : list Selection) (id : uuid) (st : credentialWindowState) : Prop :=
  ws_attempts st = List.filter (λ t, cutoff <? t) (times id sels)
  ∧ ws_inflight st = openUses id sels
  ∧ ws_lastSelected st = lastUse cutoff id sels.

Lemma sweep_exact m c1 c2 now sels id :
  in_order now sels → c1 ≤ c2 → agrees c1 sels id (stateOf m id) →
  exactly c2 sels id (stateOf (omap (sweepState c2) m) id).
Proof.
  intros Hio Hc [Ha Hi Hl]. unfold stateOf in *. rewrite lookup_omap.
  pose proof (times_in_order id now sels Hio) as Hsorted.
  pose proof (filter_later c1 c2 (times id sels) Hc) as Hf.
  unfold exactly, lastUse. destruct (m !! id) as [st|]; cbn [from_option Datatypes.id option_bind mbind] in *.
  - unfold sweepState. rewrite Ha, recent_filter, Hf by by apply filter_sorted.
    rewrite Hi. pose proof (usesSince_zero c2 id sels) as Hz.
    destruct (bool_decide (List.filter (λ t, c2 <? t) (times id sels) = [])) eqn:Eb;
      [apply bool_decide_eq_true_1 in Eb|apply bool_decide_eq_false_1 in Eb].
    + rewrite (proj2 (Z.eqb_eq _ _) (proj2 Hz Eb)). cbn [andb].
      destruct (Z.eqb_spec (openUses id sels) 0) as [E0|E0]; cbn [andb].
      * destruct (Z.eqb_spec (ws_lastSelected st) 0) as [El|El]; cbn [negb andb from_option Datatypes.id]; [by rewrite Eb|].
        destruct Hl as [Hl|(_ & _ & ?)]; [|done]. rewrite Hl in El.
        pose proof (last_of_times _ _ El) as Hin. rewrite <-Hl in Hin.
        rewrite (proj2 (Z.ltb_ge _ _)); [cbn; by rewrite Eb|].
        apply Z.nlt_ge. intros Hlt%Z.ltb_lt.
        assert (Hno : In (ws_lastSelected st) (List.filter (λ t, c2 <? t) (times id sels))) by by apply filter_In.
        by rewrite Eb in Hno.
      * cbn. split_and!; [by rewrite Eb|done|]. destruct Hl as [Hl|(_ & ? & _)]; [done|congruence].
    + cbn [andb from_option Datatypes.id]. split_and!; [done..|].
      destruct (Z.eqb_spec (usesSince c2 id sels) 0) as [E|E]; [by apply Hz in E|]. cbn [andb].
      destruct Hl as [Hl|(Hnone & _)]; [done|]. rewrite Ha in Hnone. exfalso. apply Eb. by rewrite <-Hf, Hnone.
  - rewrite <-Hf, <-Ha. cbn. split_and!; [done|done|].
    rewrite (proj2 (usesSince_zero c2 id sels)); [by rewrite <-Hi|]. by rewrite <-Hf, <-Ha.
Qed.

(** ** The choice *)

(** An element chosen by one pass is not after any other. *)
Lemma fold_best {A} (less : A → A → bool) `{!StrictWeak less (λ _, True)} l x :
  let best := fold_left (λ best c, if less c best then c else best) l x in
  best ∈ x :: l ∧ ∀ c, c ∈ x :: l → less c best = false.
Proof.
  cbv zeta. revert x. induction l as [|y l IH]; intros x; cbn [fold_left].
  - split; [by left|]. intros c [->|Hc]%elem_of_cons; [|by apply elem_of_nil in Hc].
    destruct (less x x) eqn:E; [|done]. by rewrite (@less_asym _ less (λ _, True) _ x x I I E) in E.
  - destruct (IH (if less y x then y else x)) as [Hin Hmin].
    set (best := fold_left _ _ _) in *. destruct (less y x) eqn:Eyx; split.
    + by right.
    + intros c Hc. apply elem_of_cons in Hc as [->|Hc]; [|by apply Hmin].
      apply (@not_less_trans _ less (λ _, True) _ best y x I I I); [apply Hmin; by left|].
      by apply (@less_asym _ less (λ _, True) _ y x I I).
    + apply elem_of_cons in Hin as [->|Hin]; [by left|]. right. by right.
    + intros c Hc. apply elem_of_cons in Hc as [->|[->|Hc]%elem_of_cons]; [apply Hmin; by left| |apply Hmin; by right].
      apply (@not_less_trans _ less (λ _, True) _ best x y I I I); [apply Hmin; by left|done].
Qed.

Lemma windowState_eq m id : (windowState m id).2 = stateOf m id ∧ ∀ k, stateOf (windowState m id).1 k = stateOf m k.
Proof.
  unfold windowState, stateOf. destruct (m !! id) eqn:E; cbn; [done|]. split; [done|]. intros k.
  destruct (decide (k = id)) as [->|Hk]; [by rewrite lookup_insert_eq, E|by rewrite lookup_insert_ne].
Qed.

Section choice.
Context `{UuidString}.

#[export] Instance lighter_order cutoff sels : StrictWeak (lighter cutoff sels) (λ _, True).
Proof.
  unfold lighter. repeat apply lex_strict_weak; try apply by_key_order.
  destruct by_id_order as [Hasym Htrans].
  split; [intros x y _ _; by apply Hasym|intros x y z _ _ _; by apply Htrans].
Qed.

Lemma prefer_lighter m cutoff sels left right :
  (∀ id, exactly cutoff sels id (stateOf m id)) →
  (prefer m left right).2 = lighter cutoff sels left right
  ∧ ∀ k, stateOf (prefer m left right).1 k = stateOf m k.
Proof.
  intros Hm. unfold prefer.
  destruct (windowState_eq m (candidate_id left)) as [Hl Hml].
  destruct (windowState m (candidate_id left)) as [m1 leftState]. cbn [fst snd] in *.
  destruct (windowState_eq m1 (candidate_id right)) as [Hr Hmr].
  destruct (windowState m1 (candidate_id right)) as [m2 rightState]. cbn [fst snd] in *.
  split; [|intros k; by rewrite Hmr]. rewrite Hml in Hr.
  destruct (Hm (candidate_id left)) as (Hla & Hli & Hll), (Hm (candidate_id right)) as (Hra & Hri & Hrl).
  rewrite <-Hl in Hla, Hli, Hll. rewrite <-Hr in Hra, Hri, Hrl.
  unfold lighter. rewrite !lex_key, !usesSince_times. fold (times (candidate_id left) sels) (times (candidate_id right) sels).
  rewrite Hla, Hra, Hli, Hri, Hll, Hrl.
  assert (Hneg : ∀ a b, (- a =? - b) = (a =? b)) by (intros; apply eq_true_iff_eq; rewrite !Z.eqb_eq; lia).
  assert (Hlt : ∀ a b, (- a <? - b) = (b <? a)) by (intros; apply eq_true_iff_eq; rewrite !Z.ltb_lt; lia).
  by rewrite Hneg, Hlt.
Qed.

Lemma choose_lighter cutoff sels rest : ∀ m first,
  (∀ id, exactly cutoff sels id (stateOf m id)) →
  let r := fold_left (λ '(m, best) candidate,
             let (m, better) := prefer m candidate best in (m, if better then candidate else best)) rest (m, first) in
  r.2 = fold_left (λ best c, if lighter cutoff sels c best then c else best) rest first
  ∧ ∀ k, stateOf r.1 k = stateOf m k.
Proof.
  cbv zeta. induction rest as [|c rest IH]; intros m first Hm; [done|]. cbn [fold_left].
  destruct (prefer_lighter m cutoff sels c first Hm) as [Hp Hk].
  destruct (prefer m c first) as [m' better]. cbn [fst snd] in *. subst better.
  destruct (IH m' (if lighter cutoff sels c first then c else first)) as [H1 H2].
  - intros id. by rewrite Hk.
  - split; [done|]. intros k. by rewrite H2.
Qed.

(** The record after a choice. *)
Lemma selectCredential_spec s sels last now candidates :
  in_order last sels → last ≤ now →
  (∀ id, agrees (last - sl_window s) sels id (stateOf (sl_states s) id)) →
  candidates ≠ [] →
  ∃ s' best,
    selectCredential now candidates s = (s', Some best)
    ∧ best ∈ candidates ∧ (∀ c, c ∈ candidates → lighter (now - sl_window s) sels c best = false)
    ∧ sl_window s' = sl_window s
    ∧ ∀ id, stateOf (sl_states s') id =
        let st := stateOf (omap (sweepState (now - sl_window s)) (sl_states s)) id in
        if bool_decide (candidate_id best = id) then mkWindowState (ws_attempts st ++ [now]) (add64 (ws_inflight st) 1) now
        else st.
Proof.
  intros Hio Hnow Hag Hne. destruct candidates as [|first rest]; [done|]. unfold selectCredential.
  set (cutoff := now - sl_window s). set (m := omap (sweepState cutoff) (sl_states s)).
  assert (Hm : ∀ id, exactly cutoff sels id (stateOf m id)).
  { intros id. eapply sweep_exact; [exact Hio| |apply Hag]. unfold cutoff. lia. }
  destruct (choose_lighter cutoff sels rest m first Hm) as [Hbest Hk].
  destruct (fold_left _ rest (m, first)) as [m' best]. cbn [fst snd] in *.
  destruct (windowState_eq m' (candidate_id best)) as [Hst Hk'].
  destruct (windowState m' (candidate_id best)) as [m'' st]. cbn [fst snd] in *. subst st.
  destruct (fold_best (lighter cutoff sels) rest first) as [Hin Hmin]. rewrite <-Hbest in Hin, Hmin.
  eexists _, best. split_and!; [done|done|done|done|]. intros id. cbn [sl_states]. rewrite !Hk.
  unfold stateOf at 1. case_bool_decide as Hid.
  - subst id. by rewrite lookup_insert_eq.
  - rewrite lookup_insert_ne by done. fold (stateOf m'' id). by rewrite Hk', Hk.
Qed.
End choice.

(** ** Every choice is the least loaded key *)

(** A call without a candidate does not read the clock. *)
Definition readingOf (from : Z) (ev : event) : Z :=
  match ev with Select now (_ :: _) => now | _ => from end.

(** The last reading of the clock. *)
Definition reading (from : Z) (evs : list event) : Z := fold_left readingOf evs from.

(** The clock does not go back. *)
Fixpoint clock (from : Z) (evs : list event) : Prop :=
  match evs with
  | [] => True
  | ev :: evs => from ≤ readingOf from ev ∧ clock (readingOf from ev) evs
  end.

Record gateway_ok (window now : Z) (g : Gateway) : Prop := {
  go_window : sl_window (gw_selector g) = window;
  go_order : in_order now (gw_selections g);
  go_states : ∀ id, agrees (now - window) (gw_selections g) id (stateOf (sl_states (gw_selector g)) id)
}.

Lemma agrees_later c1 c2 sels id st :
  c1 ≤ c2 → agrees c1 sels id st → ∀ st', exactly c2 sels id st' → agrees c2 sels id st'.
Proof.
  intros Hc [Ha Hi Hl] st' (Ha' & Hi' & Hl'). split; [done|done|]. rewrite Hl'. unfold lastUse, forgotten.
  fold (times id sels). destruct (_ =? 0) eqn:E1; cbn [andb]; [|by left].
  destruct (openUses id sels =? 0) eqn:E2; [|by left]. right. bool_to_prop. rewrite Hl'. unfold lastUse.
  rewrite E1, E2. cbn. split_and!; [|congruence|done]. rewrite Ha'. by apply usesSince_zero.
Qed.

Section runs.
Context `{UuidString}.

Lemma selectIn_ok window now now' candidates g :
  0 < window → 0 < now' → now ≤ now' → gateway_ok window now g →
  Z.of_nat (length (gw_selections g)) < max_int64 → candidates ≠ [] →
  ∃ g' best,
    selectIn now' candidates g = (g', Some best) ∧ gateway_ok window now' g'
    ∧ best ∈ candidates
    ∧ (∀ c, c ∈ candidates → lighter (now' - window) (gw_selections g) c best = false)
    ∧ gw_selections g' = gw_selections g ++ [mkSelection now' (candidate_id best) false].
Proof.
  intros Hw Hpos Hnow [Hwin Hio Hag] Hlen Hne. unfold selectIn.
  destruct (selectCredential_spec (gw_selector g) (gw_selections g) now now' candidates)
    as (s' & best & -> & Hin & Hmin & Hwin' & Hst); [done|done|by rewrite Hwin|done|].
  rewrite Hwin in Hmin, Hst, Hwin'. eexists _, best. split_and!; [done| |done|done|done].
  split; cbn [gw_selector gw_selections]; [done| |].
  { apply in_order_snoc; [|done]. by eapply in_order_later. }
  intros id. rewrite Hst. cbv zeta.
  assert (Hex : exactly (now' - window) (gw_selections g) id (stateOf (omap (sweepState (now' - window)) (sl_states (gw_selector g))) id)).
  { eapply sweep_exact; [exact Hio| |apply Hag]. lia. }
  assert (Hnew : agrees (now' - window) (gw_selections g) id (stateOf (omap (sweepState (now' - window)) (sl_states (gw_selector g))) id)).
  { eapply agrees_later; [|apply Hag|exact Hex]. lia. }
  destruct Hnew as [Ha Hi Hl]. unfold times in *. case_bool_decide as Hid.
  - split; cbn [ws_attempts ws_inflight ws_lastSelected]; unfold times; rewrite ?of_key_app, ?of_key_one, ?bool_decide_eq_true_2 by done;
      rewrite ?map_app, ?filter_app; cbn [map sn_time List.filter].
    + rewrite (proj2 (Z.ltb_lt _ _)) by lia. by rewrite Ha.
    + rewrite openUses_app, openUses_one, bool_decide_eq_true_2 by done. cbn. rewrite Hi. apply add64_small.
      pose proof (openUses_nonneg id (gw_selections g)). pose proof (openUses_le id (gw_selections g)).
      unfold in_int64, max_int64, min_int64 in *. lia.
    + left. by rewrite last_snoc.
  - split; unfold times; rewrite ?of_key_app, ?of_key_one, ?bool_decide_eq_false_2, ?app_nil_r by done; [done| |done].
    rewrite openUses_app, openUses_one, bool_decide_eq_false_2 by done. cbn. lia.
Qed.

Lemma releaseIn_ok window now k g :
  gateway_ok window now g → Z.of_nat (length (gw_selections g)) < max_int64 → gateway_ok window now (releaseIn k g).
Proof.
  intros [Hwin Hio Hag] Hlen. unfold releaseIn. destruct (gw_selections g !! k) as [[t id []]|] eqn:Hk; [by split| |by split].
  pose proof (Hag id) as [Ha Hi Hl]. pose proof (openUses_released _ _ _ _ id Hk) as Hopen.
  rewrite bool_decide_eq_true_2 in Hopen by done.
  set (sels' := <[k := mkSelection t id true]> (gw_selections g)) in *.
  pose proof (openUses_nonneg id sels') as Hnn. pose proof (openUses_le id (gw_selections g)) as Hle.
  unfold releaseSelection, stateOf in *.
  destruct (sl_states (gw_selector g) !! id) as [st|] eqn:Est; cbn [from_option Datatypes.id] in *.
  2:{ cbn in Hi. lia. }
  rewrite (proj2 (Z.ltb_lt _ _)) by lia. split; cbn [gw_selector gw_selections sl_window sl_states].
  - done.
  - destruct Hio as [Hs Hr]. assert (Hsame : map sn_time sels' = map sn_time (gw_selections g)).
    { destruct (insert_middle _ _ _ (mkSelection t id true) Hk) as (l1 & l2 & E1 & E2). unfold sels'.
      rewrite E2, E1, !map_app. done. }
    split; by rewrite Hsame.
  - intros id'. unfold stateOf. destruct (decide (id' = id)) as [->|Hne].
    + rewrite lookup_insert_eq. cbn [from_option Datatypes.id].
      split; cbn [ws_attempts ws_inflight ws_lastSelected]; unfold times, sels'; rewrite ?(of_key_released _ _ _ _ _ Hk); [done| |].
      * rewrite sub64_small; unfold in_int64, max_int64, min_int64 in *; fold sels'; lia.
      * destruct Hl as [Hl|(_ & H0 & _)]; [by left|lia].
    + rewrite lookup_insert_ne by done. specialize (Hag id') as [Ha' Hi' Hl'].
      pose proof (openUses_released _ _ _ _ id' Hk) as Hopen'. rewrite bool_decide_eq_false_2 in Hopen' by done.
      split; unfold times, sels'; rewrite ?(of_key_released _ _ _ _ _ Hk); [done| |done]. fold sels' in Hopen' |- *. lia.
Qed.
End runs.

Section runs.
Context `{UuidString}.

Lemma step_length g ev : (length (gw_selections (step g ev)) ≤ S (length (gw_selections g)))%nat.
Proof.
  destruct ev as [now candidates|k]; cbn.
  - unfold selectIn. destruct (selectCredential _ _ _) as [s []]; cbn; rewrite length_app; cbn; lia.
  - unfold releaseIn. destruct (_ !! k) as [[t id []]|]; cbn; rewrite ?length_insert; lia.
Qed.

Lemma window_run_ok window evs : ∀ now g,
  0 < window → 0 < now → clock now evs → gateway_ok window now g →
  Z.of_nat (length (gw_selections g) + length evs) < max_int64 →
  gateway_ok window (reading now evs) (fold_left step evs g)
  ∧ Z.of_nat (length (gw_selections (fold_left step evs g))) ≤ Z.of_nat (length (gw_selections g) + length evs).
Proof.
  induction evs as [|ev evs IH]; intros now g Hw Hpos Hclock Hok Hlen.
  { cbn in *. split; [done|lia]. }
  pose proof (step_length g ev) as Hstep. destruct Hclock as [Hnow Hclock]. unfold reading. cbn [fold_left length] in *.
  destruct (IH (readingOf now ev) (step g ev)) as [Hok' Hlen']; [done|lia|done| |lia|by split; [|lia]].
  destruct ev as [now' [|c candidates]|k]; cbn in Hnow |- *.
  - unfold selectIn. cbn. by rewrite app_nil_r; destruct g.
  - destruct (selectIn_ok window now now' (c :: candidates) g) as (g' & best & E & Hg' & _); [done|lia|done..|lia|done|].
    by rewrite E.
  - apply releaseIn_ok; [done|lia].
Qed.

Lemma window_start_ok window : gateway_ok window 1 (mkGateway (newCredentialWindowSelector window) []).
Proof. split; [done| |]; cbn; [split; constructor|]. intros id. unfold stateOf. rewrite lookup_empty. split; [done..|by left]. Qed.

Lemma clock_snoc from evs ev :
  clock from (evs ++ [ev]) → clock from evs ∧ from ≤ reading from evs ≤ readingOf (reading from evs) ev.
Proof.
  revert from. induction evs as [|e evs IH]; intros from; cbn [app].
  - intros [Hn _]. unfold reading. cbn. lia.
  - intros [Hn Hc]. destruct (IH _ Hc) as (H1 & H2 & H3). unfold reading in *. cbn in *. split_and!; [done|done|lia|done].
Qed.

Lemma lighter_total cutoff sels x y :
  Inj (=) (=) uuid_String → lighter cutoff sels x y = false → lighter cutoff sels y x = false →
  candidate_id x = candidate_id y.
Proof.
  intros Hinj H1 H2. unfold lighter in *.
  do 4 (apply (lex_neither _ _ _ _ H1) in H2 as [H3 H4]; clear H1; rename H3 into H1, H4 into H2).
  apply Hinj. by apply string_ltb_eq.
Qed.

(** C27: Every choice among the sign-ins of a Grok site is the least loaded one.  However
    choices and releases came before, as long as the clock did not go back, the key chosen
    is one of the candidates, and each other candidate comes after it: it was chosen more
    often within the window; as often, and more of its requests are still running; as many,
    and it has less quota; as much, and it was used later (a key whose uses are all over and
    out of the window counts as never used); or its identity is greater.  The choice then
    counts as a use of this key and of no other. *)
Theorem choice_is_least_loaded window evs now candidates :
  Inj (=) (=) uuid_String → 0 < window → clock 1 (evs ++ [Select now candidates]) → Z.of_nat (length evs) < max_int64 →
  candidates ≠ [] →
  let g := run window evs in
  ∃ g' best,
    selectIn now candidates g = (g', Some best) ∧ best ∈ candidates
    ∧ (∀ c, c ∈ candidates → candidate_id c ≠ candidate_id best →
       lighter (now - window) (gw_selections g) best c = true)
    ∧ gw_selections g' = gw_selections g ++ [mkSelection now (candidate_id best) false].
Proof.
  intros Hinj Hw Hclock Hlen Hne g. destruct (clock_snoc _ _ _ Hclock) as (Hc & Hpos & Hnow).
  destruct (window_run_ok window evs 1 _ Hw eq_refl Hc (window_start_ok window)) as [Hok Hl]; [cbn; lia|]. cbn in Hl.
  fold (run window evs) in Hok, Hl. fold g in Hok, Hl.
  destruct candidates as [|c candidates]; [done|]. cbn [readingOf] in Hnow.
  destruct (selectIn_ok window (reading 1 evs) now (c :: candidates) g) as (g' & best & E & _ & Hin & Hmin & Hg');
    [done|lia|done..|lia|done|].
  exists g', best. split_and!; [done|done| |done]. intros x Hx Hid.
  destruct (lighter (now - window) (gw_selections g) best x) eqn:Ebx; [done|].
  exfalso. apply Hid. by eapply lighter_total, Ebx; [|apply Hmin].
Qed.
End runs.

(** ** The keys of one request *)

(** The chosen key is taken out of the candidates of the request. *)
Fixpoint removeCandidate (id : uuid) (candidates : list grokCredentialCandidate) : list grokCredentialCandidate :=
  match candidates with
  | [] => []
  | c :: rest => if bool_decide (candidate_id c = id) then rest else c :: removeCandidate id rest
  end.

Section request.
Context `{UuidString}.

(** The keys a request asks one after the other, and the gateway after that.  Each turn has
    the calls of other requests since the last one, and the time of the choice; the
    request may end with any turn. *)
Fixpoint grokTurns (turns : list (list event * Z)) (candidates : list grokCredentialCandidate) (g : Gateway)
    : Gateway * list grokCredentialCandidate :=
  match turns with
  | [] => (g, [])
  | (others, now) :: turns =>
      let (g, selected) := selectIn now candidates (fold_left step others g) in
      match selected with
      | None => (g, [])
      | Some best =>
          let (g, tried) := grokTurns turns (removeCandidate (candidate_id best) candidates) g in
          (g, best :: tried)
      end
  end.

Lemma chosen_in rest : ∀ m first,
  (fold_left (λ '(m, best) candidate,
     let (m, better) := prefer m candidate best in (m, if better then candidate else best)) rest (m, first)).2
  ∈ first :: rest.
Proof.
  induction rest as [|c rest IH]; intros m first; cbn [fold_left]; [by left|].
  destruct (prefer m c first) as [m' better]. specialize (IH m' (if better then c else first)).
  apply elem_of_cons in IH as [->|IH]; [|by do 2 right]. destruct better; [right|]; by left.
Qed.

Lemma selectIn_some now candidates g :
  match (selectIn now candidates g).2 with Some best => best ∈ candidates | None => candidates = [] end.
Proof.
  unfold selectIn, selectCredential. destruct candidates as [|first rest]; [done|].
  pose proof (chosen_in rest (omap (sweepState (now - sl_window (gw_selector g))) (sl_states (gw_selector g))) first) as Hin.
  destruct (fold_left _ _ _) as [m best]. by destruct (windowState m (candidate_id best)).
Qed.

Lemma removeCandidate_perm c candidates :
  NoDup (candidate_id <$> candidates) → c ∈ candidates →
  Permutation candidates (c :: removeCandidate (candidate_id c) candidates).
Proof.
  induction candidates as [|x rest IH]; intros Hnd Hin; [by apply elem_of_nil in Hin|].
  rewrite fmap_cons in Hnd. apply list.NoDup_cons in Hnd as [Hx Hnd]. cbn. case_bool_decide as E.
  - apply elem_of_cons in Hin as [->|Hin]; [done|]. exfalso. apply Hx. rewrite E. by apply list_elem_of_fmap_2.
  - apply elem_of_cons in Hin as [->|Hin]; [done|]. rewrite (IH Hnd Hin) at 1. constructor.
Qed.

Lemma turns_perm turns : ∀ candidates g,
  NoDup (candidate_id <$> candidates) →
  ∃ left,
    Permutation candidates ((grokTurns turns candidates g).2 ++ left)
    ∧ length (grokTurns turns candidates g).2 = Nat.min (length turns) (length candidates).
Proof.
  induction turns as [|[others now] turns IH]; intros candidates g Hnd; [by exists candidates|].
  cbn [grokTurns]. pose proof (selectIn_some now candidates (fold_left step others g)) as Hsel.
  destruct (selectIn _ _ _) as [g' [best|]]; cbn [snd] in Hsel; [|subst; by exists []].
  pose proof (removeCandidate_perm best candidates Hnd Hsel) as Hp.
  destruct (IH (removeCandidate (candidate_id best) candidates) g') as (left & Hleft & Hlen).
  { rewrite Hp in Hnd. rewrite fmap_cons in Hnd. by apply list.NoDup_cons in Hnd as [_ ?]. }
  destruct (grokTurns turns _ g') as [g'' tried]. cbn [snd] in *. exists left. split.
  - rewrite Hp. cbn. by constructor.
  - rewrite (Permutation_length Hp). cbn. by rewrite Hlen.
Qed.

Context `{Texts}.

Lemma grokCandidates_nodup credentials states :
  NoDup (credential_id <$> credentials) →
  NoDup (candidate_id <$> grokCredentialCandidates credentials states).
Proof.
  apply NoDup_omap. intros c x. destruct (negb _); [done|]. cbv zeta. destruct (negb _); [done|]. by intros [= <-].
Qed.

(** A request to a Grok site asks each of its keys once.  Take tables in good order and
    the keys found for the request.  In whatever order the selector chooses them, and
    whatever other requests choose and release in between: no key is asked twice, every
    key asked is one of those found, and a request that goes on to the end has asked them
    all. *)
Theorem each_key_is_asked_once t now siteID siteType siteModelID types keys turns g :
  tables_ok t → isGrokSite siteType = true →
  requestCredentials t now siteID siteType siteModelID types = Some keys →
  ∃ candidates,
    keys = map gk_Credential candidates
    ∧ let tried := map gk_Credential (grokTurns turns candidates g).2 in
      NoDup (map credential_id tried) ∧ (∀ key, key ∈ tried → key ∈ keys)
      ∧ length tried = Nat.min (length turns) (length keys)
      ∧ (length turns = length keys → Permutation tried keys).
Proof.
  intros Hok Hgrok. unfold requestCredentials. rewrite Hgrok.
  destruct (gatewayCredentials _ _ _ _ _ _) as [credentials|] eqn:E; [|done]. cbn [mbind option_bind].
  set (candidates := grokCredentialCandidates credentials (statesOf siteID t)).
  case_bool_decide; [done|]. intros [= <-]. exists candidates. split; [done|]. cbv zeta.
  pose proof (grokCandidates_nodup credentials (statesOf siteID t)
                (gatewayCredentials_nodup _ _ _ _ _ _ _ Hok E)) as Hnd. fold candidates in Hnd.
  destruct (turns_perm turns candidates g Hnd) as (left & Hp & Hlen).
  assert (Hpm : Permutation (map gk_Credential candidates) (map gk_Credential (grokTurns turns candidates g).2 ++ map gk_Credential left))
    by (rewrite <-map_app; by apply Permutation_map).
  rewrite !length_map, Hlen. split_and!; [| |done|].
  - rewrite map_map. rewrite Hp in Hnd. rewrite fmap_app in Hnd. by apply list.NoDup_app in Hnd as (? & _).
  - intros key Hkey. rewrite Hpm. apply elem_of_app. by left.
  - intros Heq. rewrite Hpm. apply Permutation_length in Hp. rewrite length_app, Hlen, Heq, Nat.min_id in Hp.
    destruct left; cbn in Hp; [by rewrite app_nil_r|lia].
Qed.
End request.

(** ** Samples *)

#[local] Existing Instance sampleIDs.
#[local] Existing Instance sampleTexts.

Definition sampleSignIn (id : uuid) (quota : Z) : grokCredentialCandidate :=
  mkGrokCandidate (mkGatewayCredential (sampleKey id "grok_sso:1") zeroState None 0 []) quota.

(** Two sign-ins, each used once; the first is free again. *)
Definition sampleSignIns : list grokCredentialCandidate := [sampleSignIn 11%N 5; sampleSignIn 12%N 9].
Definition sampleEvents : list event := [Select 1 sampleSignIns; Select 2 sampleSignIns; Release 1].

Lemma choice_is_least_loaded_witness :
  ∃ g' best,
    selectIn 3 sampleSignIns (run Minute sampleEvents) = (g', Some best) ∧ best ∈ sampleSignIns
    ∧ (∀ c, c ∈ sampleSignIns → candidate_id c ≠ candidate_id best →
       lighter (3 - Minute) (gw_selections (run Minute sampleEvents)) best c = true)
    ∧ gw_selections g' = gw_selections (run Minute sampleEvents) ++ [mkSelection 3 (candidate_id best) false].
Proof.
  apply (choice_is_least_loaded Minute sampleEvents 3 sampleSignIns).
  - exact sampleIDs_inj.
  - reflexivity.
  - cbn. lia.
  - vm_compute. reflexivity.
  - discriminate.
Defined.

Example free_key_is_chosen : map sn_key (gw_selections (step (run Minute sampleEvents) (Select 3 sampleSignIns))) = [12; 11; 11]%N.
Proof. vm_compute. reflexivity. Qed.

Definition sampleGrokTables : Tables :=
  mkTables [sampleKey 11%N "grok_sso:1"; sampleKey 12%N "grok_sso:2"] []
    [sampleBinding 21%N 11%N ""; sampleBinding 22%N 12%N ""] [].

Lemma sampleGrokTables_ok : tables_ok sampleGrokTables.
Proof.
  split.
  - apply (bool_decide_unpack _). vm_compute. exact I.
  - apply (bool_decide_unpack _). vm_compute. exact I.
  - intros siteID modelID. unfold bindingsOf. apply NoDup_fmap_filter.
    apply (bool_decide_unpack _). vm_compute. exact I.
Qed.

Definition sampleGrokKeys : list GatewayCredential :=
  default [] (requestCredentials sampleGrokTables 5 1%N "grok" 7%N []).

Lemma each_key_is_asked_once_witness :
  ∃ candidates,
    sampleGrokKeys = map gk_Credential candidates
    ∧ Permutation (map gk_Credential (grokTurns [([], 6); ([Select 7 sampleSignIns], 8)] candidates
                     (mkGateway (newCredentialWindowSelector Minute) [])).2) sampleGrokKeys.
Proof.
  destruct (each_key_is_asked_once sampleGrokTables 5 1%N "grok" 7%N [] sampleGrokKeys
              [([], 6); ([Select 7 sampleSignIns], 8)] (mkGateway (newCredentialWindowSelector Minute) []))
    as (candidates & Hk & _ & _ & _ & Hp).
  - exact sampleGrokTables_ok.
  - vm_compute. reflexivity.
  - vm_compute. reflexivity.
  - exists candidates. split; [exact Hk|]. apply Hp. vm_compute. reflexivity.
Defined.
