(* ===== verification/RouteRows.v ===== *)
(** * The rows of the router

    How the candidates of the router are read from the tables
    ([store/route_candidate_repository.go], [store/model_endpoint_policy.go],
    [GetPricingForSiteModel] of [store/gateway_repository.go]), and that the router and
    the gateway judge the keys of a model alike: a route that is offered finds a key to
    serve it, the one its price was shown for.

    The keys a map collects come in any order: [iterate] lists them. *)

From S2P Require Import Prelude StableSort GoFloat SiteConfig RouteCooldowns Catalog Json Router.
From S2P Require Import UpstreamFailure Credentials.

(** ** Rows *)

Record Site := mkSite {
  si_ID : uuid;
  si_Name : string;
  si_Slug : string;
  si_SiteType : string;
  si_BaseURL : string;
  si_Status : string;
  si_Enabled : bool;
  si_RoutingPriority : float64;
  si_Meta : option GatewayConfig
}.

Record SiteModel := mkSiteModel {
  sm_ID : uuid;
  sm_SiteID : uuid;
  sm_CanonicalID : option uuid;
  sm_UpstreamName : string;
  sm_DisplayName : string;
  sm_Capabilities : string;
  sm_Status : string;
  sm_MatchSource : string;
  sm_MatchConfidence : Z
}.

(** The row of a canonical model, with the columns the routes need. *)
Record CatalogModel := mkCatalogModel {
  ct_Model : CanonicalModel;
  ct_Status : string;
  ct_SupportedEndpointTypes : string
}.

Record SiteHealthState := mkHealthState {
  hs_SiteID : uuid;
  hs_Status : string;
  hs_RecentSuccessRate : option float64;
  hs_RecentAvgLatencyMS : option Z;
  hs_ConsecutiveFailures : Z
}.

Record HealthSnapshot := mkSnapshot {
  sn_SiteModelID : option uuid;
  sn_Scope : string;
  sn_Source : string;
  sn_Success : bool;
  sn_LatencyMS : option Z;
  sn_CheckedAt : Z
}.

Record SiteModelPricing := mkSitePricing {
  sp_SiteModelID : option uuid;
  sp_GroupName : string;
  sp_QuotaType : Z;
  sp_BillingType : string;
  sp_Currency : string;
  sp_ImageRatio : option float64;
  sp_PerRequestValue : option float64;
  sp_InputValue : option float64;
  sp_OutputValue : option float64;
  sp_Available : bool
}.

Record SiteModelEndpointOverride := mkOverride {
  so_SiteModelID : uuid;
  so_Mode : string;
  so_EndpointTypes : string
}.

Record RouteTables := mkRouteTables {
  rt_keys : Tables;
  rt_canonicals : list CatalogModel;
  rt_sites : list Site;
  rt_models : list SiteModel;
  rt_health : list SiteHealthState;
  rt_snapshots : list HealthSnapshot;
  rt_pricings : list SiteModelPricing;
  rt_overrides : list SiteModelEndpointOverride
}.

(** ** Endpoint types of a model *)

Section policy.
Context `{Texts}.

(** [json.Unmarshal] into a list of strings. *)
Definition unmarshalStrings (text : string) : option (list string) :=
  default None (unmarshal text ≫= read_strings).

Definition collectCanonicalEndpointTypes (supported : string) : option (list string) := unmarshalStrings supported.

Fixpoint distinctTexts (seen : list string) (items : list any) : list string :=
  match items with
  | [] => []
  | item :: rest =>
      let text := TrimSpace (rawStringFromAny item) in
      if bool_decide (text = "") || bool_decide (text ∈ seen) then distinctTexts seen rest
      else text :: distinctTexts (text :: seen) rest
  end.

Definition collectSupportedEndpointTypes (model : SiteModel) : list string :=
  if bool_decide (sm_Capabilities model = "") then []
  else match unmarshal (sm_Capabilities model) ≫= read_map with
       | Some values =>
           match map_index values "supported_endpoint_types" with
           | AArray raw => distinctTexts [] raw
           | _ => []
           end
       | None => []
       end.

(** The supported types; a missing override is the zero row. *)
Definition siteModelEndpointPolicy (canonical : string) (model : SiteModel)
    (override : option SiteModelEndpointOverride) : list string :=
  let catalogTypes := NormalizeModelEndpointTypes (collectCanonicalEndpointTypes canonical) in
  let declared := collectSupportedEndpointTypes model in
  let base := if bool_decide (default [] catalogTypes = []) then declared else default [] catalogTypes in
  let selected := if bool_decide (declared = []) then base else IntersectModelEndpointTypes (Some base) (Some declared) in
  let mode := default "" (so_Mode <$> override) in
  let selected :=
    if bool_decide (mode = "disabled") then []
    else if bool_decide (mode = "allowlist") then
      IntersectModelEndpointTypes (Some base) (unmarshalStrings (default "" (so_EndpointTypes <$> override)))
    else selected in
  default [] (NormalizeModelEndpointTypes (Some selected)).
End policy.

(** ** Health *)

(** Success rate, mean latency and number of the requests of the last day. *)
Definition fillModelHealth (now : Z) (siteModelID : uuid) (snapshots : list HealthSnapshot)
    : option float64 * option Z * Z :=
  let since := now - 24 * Hour in
  let counted := List.filter (λ s,
    bool_decide (sn_SiteModelID s = Some siteModelID) && bool_decide (sn_Scope s = "model")
    && bool_decide (sn_Source s = "gateway") && negb (sn_CheckedAt s <? since)) snapshots in
  let total := Z.of_nat (length counted) in
  let success := Z.of_nat (length (List.filter sn_Success counted)) in
  let latencies := omap sn_LatencyMS counted in
  (if 0 <? total then Some (fdiv (of_int success) (of_int total)) else None,
   if (0 <? length latencies)%nat
   then Some (Z.quot (fold_left add64 latencies 0) (Z.of_nat (length latencies))) else None,
   total).

(** ** Prices *)

(** [int64(value * 1000000)]; what does not fit becomes the least number, as on amd64. *)
Definition micros (v : float64) : Z := default min_int64 (trunc_int64 (fmul v (of_int 1000000))).

Definition pricingRank (item : SiteModelPricing) (groupName : string) : Z :=
  let groupRank :=
    if negb (bool_decide (groupName = "")) && bool_decide (sp_GroupName item = groupName) then 0
    else if bool_decide (sp_GroupName item = "default") then 1 else 2 in
  let input :=
    match sp_InputValue item, sp_PerRequestValue item with
    | Some v, _ => micros v
    | None, Some v => micros v
    | None, None => 999999999
    end in
  let output := match sp_OutputValue item with Some v => micros v | None => 999999999 end in
  add64 (add64 (mul64 groupRank 1000000000000000) (mul64 input 1000)) output.

Definition cheapestPricing (groupName : string) (matches : list SiteModelPricing) : option SiteModelPricing :=
  head (SliceStable (λ a b, pricingRank a groupName <? pricingRank b groupName) matches).

(** The row [fillRoutePricing] takes the price from. *)
Definition fillRoutePricing (pricings : list SiteModelPricing) (siteModelID : uuid) (group : option string)
    : option SiteModelPricing :=
  cheapestPricing (default "" group)
    (List.filter (λ p, bool_decide (sp_SiteModelID p = Some siteModelID)) (List.filter sp_Available pricings)).

(** The row [GetPricingForSiteModel] bills by; [None] is [gorm.ErrRecordNotFound]. *)
Definition GetPricingForSiteModel (pricings : list SiteModelPricing) (siteModelID : uuid) (groupName : string)
    : option SiteModelPricing :=
  cheapestPricing (TrimSpace groupName)
    (List.filter (λ p, bool_decide (sp_SiteModelID p = Some siteModelID) && sp_Available p) pricings).

(** ** Keys *)

Section keys.
Context `{Texts, UuidString}.
Context (iterate : gmap uuid GatewayCredential → list GatewayCredential).

(** The body of the loop of [fillRouteKeyCounts]: the keys seen and those that can be
    used. *)
Definition countKey (t : Tables) (now : Z) (siteID siteModelID : uuid)
    (acc : gset uuid * gmap uuid GatewayCredential) (apiKeyModel : SiteAPIKeyModel)
    : gset uuid * gmap uuid GatewayCredential :=
  let '(total, available) := acc in
  if negb (bool_decide (km_SiteModelID apiKeyModel = Some siteModelID)) then acc
  else
    let total := {[km_SiteCredentialID apiKeyModel]} ∪ total in
    match credentialsByID (tb_credentials t) !! km_SiteCredentialID apiKeyModel with
    | None => (total, available)
    | Some credential =>
        if bool_decide (cr_ID credential = uuid_Nil) || negb (bool_decide (cr_SiteID credential = siteID))
           || negb (isModelBoundCredentialType (cr_CredentialType credential)) then (total, available)
        else
          let state := default zeroState
                         (statesByCredentialID (tb_states t) !! km_SiteCredentialID apiKeyModel) in
          if km_Available apiKeyModel && km_Enabled apiKeyModel && credentialUsable credential
             && credentialStateUsableForCredentialAt credential state now
             && negb (credentialCooling (ListActive now (tb_cooldowns t)) siteID siteModelID (cr_ID credential))
          then (total, <[km_SiteCredentialID apiKeyModel :=
                  mkGatewayCredential credential state (ks_GroupName state) (km_UpdatedAt apiKeyModel) []]> available)
          else (total, available)
    end.

(** The number of keys, of usable keys, and the best one. *)
Definition fillRouteKeyCounts (t : Tables) (now : Z) (siteID siteModelID : uuid)
    : Z * Z * option GatewayCredential :=
  let '(total, available) := fold_left (countKey t now siteID siteModelID) (tb_keyModels t) (∅, ∅) in
  (Z.of_nat (size total), Z.of_nat (size available), head (SortGatewayCredentials (iterate available))).

Definition routeSiteKeys (t : Tables) (now : Z) (siteID : uuid) : list GatewayCredential :=
  let cooldowns := ListActive now (tb_cooldowns t) in
  SortGatewayCredentials (omap (λ credential,
    if negb (bool_decide (cr_SiteID credential = siteID))
       || negb (isAPIKeyCredentialType (cr_CredentialType credential)) || negb (credentialUsable credential)
       || credentialCooling cooldowns siteID uuid_Nil (cr_ID credential) then None
    else
      let state := default zeroState (statesByCredentialID (tb_states t) !! cr_ID credential) in
      if negb (credentialStateUsableForCredentialAt credential state now) then None
      else Some (mkGatewayCredential credential state (ks_GroupName state) 0 []))
    (tb_credentials t)).

Definition fillRouteSiteCredentialCount (t : Tables) (now : Z) (siteID : uuid) : Z * option GatewayCredential :=
  (Z.of_nat (length (routeSiteKeys t now siteID)), head (routeSiteKeys t now siteID)).

(** The key whose fields the row shows: the best bound one, else the best of the site. *)
Definition preferredKey (bound site : option GatewayCredential) : option GatewayCredential :=
  match bound with
  | Some g => if bool_decide (cr_ID (gc_Credential g) = uuid_Nil) then match site with Some g' => Some g' | None => Some g end
              else Some g
  | None => site
  end.

Definition nonEmpty (s : string) : option string := if bool_decide (s = "") then None else Some s.

(** One row, and with [setPreferredRouteCredential] the fields of its preferred key. *)
Definition routeRow (t : RouteTables) (now : Z) (canonical : CatalogModel) (site : Site) (model : SiteModel)
    : RouteCandidateRow :=
  let state := find (λ s, bool_decide (hs_SiteID s = si_ID site)) (rev (rt_health t)) in
  let '(rate, latency, requests) := fillModelHealth now (sm_ID model) (rt_snapshots t) in
  let '(total, available, bound) := fillRouteKeyCounts (rt_keys t) now (si_ID site) (sm_ID model) in
  let '(siteCount, siteKey) := fillRouteSiteCredentialCount (rt_keys t) now (si_ID site) in
  let preferred := preferredKey bound siteKey in
  let credential := gc_Credential <$> preferred in
  let group := preferred ≫= gc_GroupName in
  let pricing := fillRoutePricing (rt_pricings t) (sm_ID model) group in
  let override := find (λ o, bool_decide (so_SiteModelID o = sm_ID model)) (rev (rt_overrides t)) in
  mkCandidateRow (si_ID site) (si_Name site) (si_Slug site) (si_SiteType site) (si_BaseURL site) (si_Status site)
    (si_Enabled site) (si_RoutingPriority site) (si_Meta site)
    (sm_ID model) (sm_UpstreamName model) (sm_DisplayName model) (sm_Status model)
    (sm_MatchSource model) (sm_MatchConfidence model)
    (orDefault (default "" (hs_Status <$> state)) "unknown") (state ≫= hs_RecentSuccessRate)
    (state ≫= hs_RecentAvgLatencyMS) (default 0 (hs_ConsecutiveFailures <$> state))
    rate latency requests total available siteCount
    (c ← credential; if bool_decide (cr_ID c = uuid_Nil) then None else Some (cr_ID c))
    (g ← preferred; nonEmpty (SiteCredentialDisplayName (gc_Credential g) (gc_State g)))
    (default fzero (SiteCredentialRoutingPriority <$> credential))
    (default fzero (SiteCredentialUpstreamCostMultiplier <$> credential))
    group (default "" (SiteCredentialCacheDomain <$> credential))
    (p ← pricing; nonEmpty (sp_GroupName p)) (p ← pricing; nonEmpty (sp_Currency p))
    (pricing ≫= sp_InputValue) (pricing ≫= sp_OutputValue) (pricing ≫= sp_ImageRatio)
    (pricing ≫= sp_PerRequestValue) (p ← pricing; nonEmpty (sp_BillingType p)) (sp_QuotaType <$> pricing)
    (siteModelEndpointPolicy (ct_SupportedEndpointTypes canonical) model override).

(** The sites that are not deleted, by identifier. *)
Definition activeSite (t : RouteTables) (siteID : uuid) : option Site :=
  find (λ s, bool_decide (si_ID s = siteID)) (rev (List.filter (λ s, negb (bool_decide (si_Status s = "deleted"))) (rt_sites t))).

Definition sortSiteModels (models : list SiteModel) : list SiteModel :=
  SliceStable (λ a b, string_ltb (sm_UpstreamName a) (sm_UpstreamName b)) models.

Definition row_less (a b : RouteCandidateRow) : bool :=
  if negb (bool_decide (row_SiteName a = row_SiteName b)) then string_ltb (row_SiteName a) (row_SiteName b)
  else string_ltb (row_UpstreamModelName a) (row_UpstreamModelName b).

Definition ListByCanonicalModel (t : RouteTables) (now : Z) (canonicalModelID : uuid)
    : result (list RouteCandidateRow) string :=
  match find (λ c, bool_decide (cn_ID (ct_Model c) = canonicalModelID)) (rt_canonicals t) with
  | None => Err "list route candidates: record not found"
  | Some canonical =>
      if negb (bool_decide (ct_Status canonical = "active")) then Ok []
      else
        let models := sortSiteModels
          (List.filter (λ m, bool_decide (sm_CanonicalID m = Some canonicalModelID)) (rt_models t)) in
        Ok (SliceStable row_less (omap (λ model,
              site ← activeSite t (sm_SiteID model);
              if bool_decide (si_ID site = uuid_Nil) then None
              else Some (routeRow t now canonical site model)) models))
  end.

(** The repositories of the router, over these tables. *)
Definition routeStore (t : RouteTables) (now : Z) (getByKey byAlias : string → result (option CanonicalModel) string)
    : RouteStore :=
  mkRouteStore getByKey byAlias (ListByCanonicalModel t now) (Ok (tb_cooldowns (rt_keys t))).
End keys.

(** ** Tables in good order *)

(** What the keys and references of the schema promise, and that keys are bound to models
    only where the synchronisation binds them. *)
Record route_tables_ok (t : RouteTables) : Prop := {
  rok_tables : tables_ok (rt_keys t);
  rok_credential_ids : ∀ c, c ∈ tb_credentials (rt_keys t) → cr_ID c ≠ uuid_Nil;
  rok_states : ∀ s c, s ∈ tb_states (rt_keys t) → c ∈ tb_credentials (rt_keys t) →
    ks_SiteCredentialID s = cr_ID c → ks_SiteID s = cr_SiteID c;
  rok_bindings : ∀ b m, b ∈ tb_keyModels (rt_keys t) → m ∈ rt_models t →
    km_SiteModelID b = Some (sm_ID m) → km_SiteID b = sm_SiteID m;
  rok_types : ∀ b c, b ∈ tb_keyModels (rt_keys t) → c ∈ tb_credentials (rt_keys t) →
    cr_ID c = km_SiteCredentialID b → isModelBoundCredentialType (cr_CredentialType c) = true
}.

(** ** Generic lemmas *)

Lemma sift_map {A B} (f : A → B) (less : B → B → bool) x l :
  map f (sift (λ x y, less (f x) (f y)) x l) = sift less (f x) (map f l).
Proof. induction l as [|y l IH]; [done|]. cbn. case_match; [|done]. cbn. by rewrite IH. Qed.

(** Sorting by what a function shows. *)
Lemma SliceStable_map {A B} (f : A → B) (less : B → B → bool) (l : list A) :
  map f (SliceStable (λ x y, less (f x) (f y)) l) = SliceStable less (map f l).
Proof.
  unfold SliceStable. rewrite map_rev. f_equal.
  change (@nil B) with (map f []). generalize (@nil A). induction l as [|x l IH]; intros acc; [done|].
  cbn [fold_left map]. by rewrite IH, sift_map.
Qed.

Section collected.
Context {A B : Type} (key : A → uuid) (f : A → option B).

(** The values of a map filled from a list, one entry for each element that counts. *)
Definition collect (l : list A) (m : gmap uuid B) : gmap uuid B :=
  fold_left (λ m x, match f x with Some y => <[key x := y]> m | None => m end) l m.

Lemma collect_values l m :
  NoDup (key <$> l) → (∀ x, x ∈ l → m !! key x = None) →
  Permutation ((map_to_list (collect l m)).*2) ((map_to_list m).*2 ++ omap f l).
Proof.
  revert m. induction l as [|x l IH]; intros m Hnd Hm; cbn [collect fold_left].
  - by rewrite app_nil_r.
  - rewrite fmap_cons in Hnd. apply list.NoDup_cons in Hnd as [Hx Hnd].
    assert (Hfresh : ∀ y, y ∈ l → key y ≠ key x).
    { intros y Hy E. apply Hx. rewrite <-E. by apply list_elem_of_fmap_2. }
    change (Permutation ((map_to_list (collect l (match f x with Some y => <[key x := y]> m | None => m end))).*2)
              ((map_to_list m).*2 ++ omap f (x :: l))).
    rewrite IH; [|done|].
    + cbn [omap list_omap]. destruct (f x) as [y|]; [|done].
      rewrite map_to_list_insert by (apply Hm; by left). cbn.
      by rewrite Permutation_middle.
    + intros y Hy. destruct (f x) as [z|]; [|apply Hm; by right].
      rewrite lookup_insert_ne by (by apply not_eq_sym, Hfresh). apply Hm. by right.
Qed.
End collected.

Lemma fold_left_filter {A B} (g : B → A → B) (p : A → bool) (l : list A) (b : B) :
  (∀ b x, p x = false → g b x = b) → fold_left g l b = fold_left g (List.filter p l) b.
Proof.
  intros Hg. revert b. induction l as [|x l IH]; intros b; [done|]. cbn. destruct (p x) eqn:E; [apply IH|].
  rewrite (Hg b x E). apply IH.
Qed.

(** ** The two ways to judge a key *)

Section keys_agree.
Context `{Texts, UuidString} (iterate : gmap uuid GatewayCredential → list GatewayCredential).
Hypothesis Hiterate : ∀ m, Permutation (iterate m) ((map_to_list m).*2).
Hypothesis Hinj : Inj (=) (=) uuid_String.
Variables (t : RouteTables) (now : Z).
Hypothesis Hok : route_tables_ok t.

Notation k := (rt_keys t).

Lemma state_lookup_same c siteID :
  c ∈ tb_credentials k → cr_SiteID c = siteID →
  statesByCredentialID (tb_states k) !! cr_ID c = statesByCredentialID (statesOf siteID k) !! cr_ID c.
Proof.
  intros Hc Hs. pose proof (ok_states _ (rok_tables _ Hok)) as Hnd. apply option_eq. intros s.
  unfold statesByCredentialID. rewrite !fold_insert_Some by (try apply NoDup_fmap_filter; done).
  unfold statesOf. rewrite (list_elem_of_In (List.filter _ _)), List.filter_In, <-list_elem_of_In.
  rewrite bool_decide_eq_true. split; [|tauto]. intros [Hin Hid]. split; [|done]. split; [done|].
  rewrite <-Hs. by apply (rok_states _ Hok).
Qed.

(** The test of [fillRouteKeyCounts] is that of the request without endpoint types. *)
Lemma countKey_bound siteID siteModelID b total available :
  b ∈ bindingsOf siteID siteModelID k →
  countKey k now siteID siteModelID (total, available) b
  = ({[km_SiteCredentialID b]} ∪ total,
     match boundKey k now siteID siteModelID [] b with
     | Some g => <[km_SiteCredentialID b := g]> available
     | None => available
     end).
Proof.
  unfold bindingsOf. rewrite list_elem_of_In, List.filter_In, <-list_elem_of_In, andb_true_iff, !bool_decide_eq_true.
  intros (Hb & Hsite & Hmodel). unfold countKey, boundKey. rewrite (bool_decide_eq_true_2 _ Hmodel). cbn [negb].
  destruct (credentialsByID (credentialsOf siteID k) !! _) as [c|] eqn:Ec.
  - apply (credentials_map_lookup _ _ _ _ (rok_tables _ Hok)) in Ec as (Hc & Hcs & Hid).
    assert (Hall : credentialsByID (tb_credentials k) !! km_SiteCredentialID b = Some c).
    { unfold credentialsByID. rewrite fold_insert_Some by apply (ok_credentials _ (rok_tables _ Hok)). done. }
    rewrite Hall, (bool_decide_eq_false_2 _ (rok_credential_ids _ Hok c Hc)), (bool_decide_eq_true_2 _ Hcs).
    rewrite (rok_types _ Hok b c Hb Hc Hid). cbn [orb negb mbind option_bind].
    rewrite <-Hid, (state_lookup_same c siteID Hc Hcs).
    set (state := default zeroState _).
    destruct (km_Available b), (km_Enabled b); cbn [negb orb andb]; try done.
    destruct (credentialUsable c), (credentialCooling _ siteID siteModelID (cr_ID c)); cbn [negb orb andb];
      rewrite ?andb_false_r; try done; by destruct (credentialStateUsableForCredentialAt c state now).
  - cbn [mbind option_bind]. replace (if negb (km_Available b) || negb (km_Enabled b) then None else None)
      with (@None GatewayCredential) by (by case_match).
    destruct (credentialsByID (tb_credentials k) !! _) as [c|] eqn:Eall; [|done].
    unfold credentialsByID in Eall. rewrite fold_insert_Some in Eall by apply (ok_credentials _ (rok_tables _ Hok)).
    destruct Eall as [Hc Hid]. rewrite (bool_decide_eq_false_2 (cr_SiteID c = siteID)).
    { by rewrite orb_true_r. }
    intros Hcs. apply eq_None_not_Some in Ec. apply Ec. exists c.
    by apply (credentials_map_lookup _ _ _ _ (rok_tables _ Hok)).
Qed.

Lemma fold_countKey siteID siteModelID l total available :
  (∀ b, b ∈ l → b ∈ bindingsOf siteID siteModelID k) →
  fold_left (countKey k now siteID siteModelID) l (total, available)
  = (list_to_set (km_SiteCredentialID <$> l) ∪ total,
     collect km_SiteCredentialID (boundKey k now siteID siteModelID []) l available).
Proof.
  revert total available. induction l as [|b l IH]; intros total available Hl; cbn [fold_left].
  - f_equal. set_solver.
  - rewrite countKey_bound by (apply Hl; by left). rewrite IH by (intros; apply Hl; by right).
    f_equal. rewrite fmap_cons. cbn. set_solver.
Qed.

Lemma modelBindings model :
  model ∈ rt_models t →
  List.filter (λ b, bool_decide (km_SiteModelID b = Some (sm_ID model))) (tb_keyModels k)
  = bindingsOf (sm_SiteID model) (sm_ID model) k.
Proof.
  intros Hm. unfold bindingsOf. pose proof (rok_bindings _ Hok) as Hb.
  assert (Hin : ∀ b, b ∈ tb_keyModels k → km_SiteModelID b = Some (sm_ID model) → km_SiteID b = sm_SiteID model)
    by (intros b Hb'; by apply Hb). clear Hb.
  revert Hin. induction (tb_keyModels k) as [|b l IH]; intros Hin; [done|]. cbn.
  rewrite IH by (intros; apply Hin; [by right|done]).
  destruct (bool_decide_reflect (km_SiteModelID b = Some (sm_ID model))) as [E|E]; [|by rewrite andb_false_r].
  rewrite (bool_decide_eq_true_2 (km_SiteID b = sm_SiteID model)); [done|]. apply Hin; [by left|done].
Qed.

(** How many keys a model has, how many can be used, and which is tried first. *)
Lemma fillRouteKeyCounts_spec model :
  model ∈ rt_models t →
  let keys := listCredentialsForSiteModel k now (sm_SiteID model) (sm_ID model) [] in
  fillRouteKeyCounts iterate k now (sm_SiteID model) (sm_ID model)
  = (Z.of_nat (length (bindingsOf (sm_SiteID model) (sm_ID model) k)), Z.of_nat (length keys), head keys).
Proof.
  intros Hm keys. unfold fillRouteKeyCounts.
  rewrite (fold_left_filter _ (λ b, bool_decide (km_SiteModelID b = Some (sm_ID model)))).
  2:{ intros [total available] b E. unfold countKey. by rewrite E. }
  rewrite modelBindings, fold_countKey by done.
  set (l := bindingsOf (sm_SiteID model) (sm_ID model) k).
  assert (Hnd : NoDup (km_SiteCredentialID <$> l)) by apply (ok_bindings _ (rok_tables _ Hok)).
  set (f := boundKey k now (sm_SiteID model) (sm_ID model) []).
  assert (Hvals : Permutation (iterate (collect km_SiteCredentialID f l ∅)) (omap f l)).
  { rewrite Hiterate, (collect_values km_SiteCredentialID f l ∅); [by rewrite map_to_list_empty|done|].
    intros; apply lookup_empty. }
  assert (Hsort : SortGatewayCredentials (iterate (collect km_SiteCredentialID f l ∅)) = keys).
  { unfold keys. rewrite listCredentials_eq. symmetry.
    apply SortGatewayCredentials_no_order; [done| |by symmetry].
    apply (NoDup_omap _ km_SiteCredentialID); [|done]. intros m g. apply boundKey_id, (rok_tables _ Hok). }
  f_equal; [f_equal|by rewrite Hsort].
  - rewrite union_empty_r_L, size_list_to_set by done. by rewrite length_fmap.
  - f_equal. rewrite <-Hsort. rewrite <-(Permutation_length (SortGatewayCredentials_perm _)).
    rewrite Hiterate, length_fmap. by rewrite length_map_to_list.
Qed.

Lemma routeSiteKeys_spec siteID : routeSiteKeys k now siteID = fallbackCandidates k now siteID.
Proof.
  unfold routeSiteKeys. rewrite fallbackCandidates_eq. f_equal. unfold credentialsOf.
  assert (Hin : ∀ c, c ∈ tb_credentials k → cr_SiteID c = siteID →
            statesByCredentialID (tb_states k) !! cr_ID c = statesByCredentialID (statesOf siteID k) !! cr_ID c)
    by (intros; by apply state_lookup_same).
  revert Hin. induction (tb_credentials k) as [|c l IH]; intros Hin; [done|]. cbn [omap list_omap List.filter].
  rewrite IH by (intros; apply Hin; [by right|done]).
  destruct (bool_decide_reflect (cr_SiteID c = siteID)) as [E|E]; cbn [negb orb]; [|done].
  cbn [omap list_omap]. unfold siteKey. rewrite (Hin c) by (by left || done). done.
Qed.
End keys_agree.

(** ** Offered and served *)

(** A key without the types it may be used for. *)
Definition untyped (g : GatewayCredential) : GatewayCredential :=
  mkGatewayCredential (gc_Credential g) (gc_State g) (gc_GroupName g) (gc_ModelUpdatedAt g) [].

(** No usable key of the model is closed for all its endpoint types. *)
Definition keys_open `{Texts, UuidString} (t : Tables) (now : Z) (siteID siteModelID : uuid) (types : list string) : Prop :=
  types = [] ∨ ∀ b, b ∈ bindingsOf siteID siteModelID t → is_Some (boundKey t now siteID siteModelID [] b) →
                    EffectiveEndpointTypes b types ≠ [].

Section typed.
Context `{Texts, UuidString}.

Lemma boundKey_typed t now siteID siteModelID types b :
  boundKey t now siteID siteModelID types b
  = g ← boundKey t now siteID siteModelID [] b;
    let ts := if bool_decide (types = []) then [] else EffectiveEndpointTypes b types in
    if negb (bool_decide (types = [])) && bool_decide (ts = []) then None
    else Some (mkGatewayCredential (gc_Credential g) (gc_State g) (gc_GroupName g) (gc_ModelUpdatedAt g) ts).
Proof.
  unfold boundKey. destruct (negb _ || negb _); [done|]. destruct (_ !! _) as [c|]; [|done]. cbn [mbind option_bind].
  destruct (negb (credentialUsable c) || _); [done|]. by destruct (negb (credentialStateUsableForCredentialAt _ _ _)).
Qed.

Lemma boundKey_untyped t now siteID siteModelID b g :
  boundKey t now siteID siteModelID [] b = Some g → untyped g = g.
Proof.
  rewrite boundKey_typed. destruct (boundKey t now siteID siteModelID [] b) as [g'|]; [|done].
  cbn. by intros [= <-].
Qed.

Lemma listCredentials_untyped t now siteID siteModelID types :
  keys_open t now siteID siteModelID types →
  map untyped (listCredentialsForSiteModel t now siteID siteModelID types)
  = listCredentialsForSiteModel t now siteID siteModelID [].
Proof.
  intros Hopen. rewrite !listCredentials_eq. unfold SortGatewayCredentials.
  etransitivity; [apply (SliceStable_map untyped credential_less)|]. f_equal.
  assert (Hopen' : ∀ b, b ∈ bindingsOf siteID siteModelID t → is_Some (boundKey t now siteID siteModelID [] b) →
            types = [] ∨ EffectiveEndpointTypes b types ≠ [])
    by (destruct Hopen as [->|Hopen]; [by left|right; auto]).
  clear Hopen. induction (bindingsOf siteID siteModelID t) as [|b l IH]; [done|]. cbn [omap list_omap].
  specialize (IH ltac:(intros; apply Hopen'; [by right|done])).
  specialize (Hopen' b ltac:(by left)).
  rewrite boundKey_typed. destruct (boundKey t now siteID siteModelID [] b) as [g|] eqn:E; [|done].
  cbn [mbind option_bind]. apply boundKey_untyped in E as Eg.
  destruct (decide (types = [])) as [->|Hne].
  - rewrite bool_decide_eq_true_2 by done. cbn [negb andb map]. by f_equal.
  - destruct (Hopen' ltac:(eauto)) as [|Ht]; [done|].
    rewrite (bool_decide_eq_false_2 (types = [])), bool_decide_eq_false_2 by done. cbn [negb andb map]. by f_equal.
Qed.
End typed.

Lemma filter_both {A} (p q : A → bool) (l : list A) :
  List.filter (λ x, p x && q x) l = List.filter p (List.filter q l).
Proof.
  induction l as [|x l IH]; [done|]. cbn. rewrite IH. destruct (p x) eqn:E, (q x); cbn; by rewrite ?E.
Qed.

(** What a ranked candidate has of its row. *)
Lemma limited_elem limit items c : c ∈ limited limit items → c ∈ items.
Proof. destruct (limited_prefix limit items) as [rest E]. rewrite E at 2. set_solver. Qed.

Lemma rankedCandidates_row query orders ix rows c :
  c ∈ rankedCandidates query orders ix rows →
  ∃ row, row ∈ rows ∧ skipped query ix row = false
    ∧ cd_Site c = cd_Site (candidateOf ix row) ∧ cd_Model c = cd_Model (candidateOf ix row)
    ∧ cd_Credential c = cd_Credential (candidateOf ix row)
    ∧ cd_Pricing c = cd_Pricing (candidateOf ix row)
    ∧ cd_AvailableAPIKeys c = (availableAPIKeys row).1.
Proof.
  unfold rankedCandidates. destruct (priceRange _) as [lo hi].
  intros (i & c1 & -> & Hc1)%elem_of_lookup_imap_1.
  apply list_elem_of_lookup_2 in Hc1. rewrite <-SliceStable_perm in Hc1.
  apply elem_of_lookup_imap_1 in Hc1 as (j & c2 & -> & Hc2).
  apply list_elem_of_lookup_2, list_elem_of_In, in_map_iff in Hc2 as (row & <- & Hrow).
  apply List.filter_In in Hrow as [Hrow Hs]. apply list_elem_of_In in Hrow. exists row.
  apply negb_true_iff in Hs. unfold scored. destruct (scoreCandidate _ _ _ _) as [score breakdown].
  by split_and!.
Qed.

Lemma ListByCanonicalModel_row `{Texts, UuidString} iterate t now canonicalID rows row :
  ListByCanonicalModel iterate t now canonicalID = Ok rows → row ∈ rows →
  ∃ canonical site model, model ∈ rt_models t ∧ si_ID site = sm_SiteID model
    ∧ row = routeRow iterate t now canonical site model.
Proof.
  unfold ListByCanonicalModel. destruct (find _ (rt_canonicals t)) as [canonical|]; [|done].
  case_match; [intros [= <-] Hin; by apply not_elem_of_nil in Hin|]. intros [= <-] Hin.
  rewrite <-SliceStable_perm in Hin. apply list_elem_of_omap in Hin as (model & Hm & Hrow).
  unfold sortSiteModels in Hm. rewrite <-SliceStable_perm in Hm.
  apply list_elem_of_In, List.filter_In in Hm as [Hm _]. apply list_elem_of_In in Hm.
  destruct (activeSite t (sm_SiteID model)) as [site|] eqn:Es; [|done]. cbn [mbind option_bind] in Hrow.
  case_match; [done|]. injection Hrow as <-. exists canonical, site, model. split_and!; [done| |done].
  unfold activeSite in Es. by apply find_some in Es as [_ ?%bool_decide_eq_true].
Qed.

(** The fields of a row the theorem needs. *)
Lemma routeRow_fields `{Texts, UuidString} iterate t now canonical site model total available bound siteCount key :
  fillRouteKeyCounts iterate (rt_keys t) now (si_ID site) (sm_ID model) = (total, available, bound) →
  fillRouteSiteCredentialCount (rt_keys t) now (si_ID site) = (siteCount, key) →
  let row := routeRow iterate t now canonical site model in
  row_SiteID row = si_ID site ∧ row_SiteType row = si_SiteType site ∧ row_SiteModelID row = sm_ID model
  ∧ row_ModelAPIKeyCount row = total ∧ row_ModelAvailableKeyCount row = available
  ∧ row_SiteCredentialCount row = siteCount
  ∧ row_PreferredCredentialID row = (c ← gc_Credential <$> preferredKey bound key;
                                     if bool_decide (cr_ID c = uuid_Nil) then None else Some (cr_ID c))
  ∧ row_PreferredCredentialGroupName row = preferredKey bound key ≫= gc_GroupName
  ∧ row_PreferredCredentialCostMultiplier row
    = default fzero (SiteCredentialUpstreamCostMultiplier <$> (gc_Credential <$> preferredKey bound key))
  ∧ row_PricingInputValue row
    = fillRoutePricing (rt_pricings t) (sm_ID model) (row_PreferredCredentialGroupName row) ≫= sp_InputValue
  ∧ row_PricingOutputValue row
    = fillRoutePricing (rt_pricings t) (sm_ID model) (row_PreferredCredentialGroupName row) ≫= sp_OutputValue
  ∧ row_PricingPerRequestValue row
    = fillRoutePricing (rt_pricings t) (sm_ID model) (row_PreferredCredentialGroupName row) ≫= sp_PerRequestValue.
Proof.
  intros Hk Hs row. unfold row, routeRow. destruct (fillModelHealth _ _ _) as [[rate latency] n].
  rewrite Hk, Hs. by split_and!.
Qed.

Lemma multiplier_positive c : fle (SiteCredentialUpstreamCostMultiplier c) fzero = false.
Proof.
  unfold SiteCredentialUpstreamCostMultiplier, in_range.
  assert (H1 : fle (of_int 1) fzero = false) by (vm_compute; reflexivity).
  assert (Hlow : ∃ m e, flit 1 100 = S754_finite false m e) by (vm_compute; eauto).
  destruct Hlow as (m & e & ->). unfold fle in *.
  destruct (cr_UpstreamCostMultiplier c) as [s|[]| |[] m' e']; simpl; try done. by case_match.
Qed.

Section offered.
Context `{Texts, UuidString} (iterate : gmap uuid GatewayCredential → list GatewayCredential).
Hypothesis Hiterate : ∀ m, Permutation (iterate m) ((map_to_list m).*2).
Hypothesis Hinj : Inj (=) (=) uuid_String.

(** The key that is tried first, and how many there are, by the row of the route. *)
Lemma served_row t now canonical site model types :
  route_tables_ok t → model ∈ rt_models t → si_ID site = sm_SiteID model → isGrokSite (si_SiteType site) = false →
  keys_open (rt_keys t) now (si_ID site) (sm_ID model) types →
  let row := routeRow iterate t now canonical site model in
  0 < (availableAPIKeys row).1 →
  ∃ g rest, requestCredentials (rt_keys t) now (si_ID site) (si_SiteType site) (sm_ID model) types = Some (g :: rest)
    ∧ row_PreferredCredentialID row = Some (credential_id g)
    ∧ row_PreferredCredentialGroupName row = gc_GroupName g
    ∧ row_PreferredCredentialCostMultiplier row = SiteCredentialUpstreamCostMultiplier (gc_Credential g)
    ∧ Z.of_nat (length (g :: rest)) ≤ (availableAPIKeys row).1.
Proof.
  intros Hok Hm Hsite Hgrok Hopen row Havail.
  pose proof (fillRouteKeyCounts_spec iterate Hiterate Hinj t now Hok model Hm) as Hk. cbn zeta in Hk.
  rewrite <-Hsite in Hk.
  set (bound := listCredentialsForSiteModel (rt_keys t) now (si_ID site) (sm_ID model) []) in *.
  set (fallback := fallbackCandidates (rt_keys t) now (si_ID site)).
  assert (Hs : fillRouteSiteCredentialCount (rt_keys t) now (si_ID site) = (Z.of_nat (length fallback), head fallback))
    by (unfold fillRouteSiteCredentialCount; by rewrite (routeSiteKeys_spec t now Hok)).
  destruct (routeRow_fields iterate t now canonical site model _ _ _ _ _ Hk Hs)
    as (_ & Htype & _ & Htotal & Hbound & Hcount & Hid & Hgroup & Hmult & _).
  fold row in Htype, Htotal, Hbound, Hcount, Hid, Hgroup, Hmult.
  pose proof (listCredentials_untyped (rt_keys t) now (si_ID site) (sm_ID model) types Hopen) as Hun. fold bound in Hun.
  unfold requestCredentials, gatewayCredentials. rewrite Hgrok.
  set (typed := listCredentialsForSiteModel (rt_keys t) now (si_ID site) (sm_ID model) types) in *.
  assert (Hids : ∀ g, g ∈ bound ∨ g ∈ fallback → credential_id g ≠ uuid_Nil).
  { intros g Hg. apply (rok_credential_ids _ Hok). destruct Hg as [Hg|Hg].
    - unfold bound in Hg. rewrite listCredentials_eq in Hg. unfold SortGatewayCredentials in Hg.
      rewrite <-SliceStable_perm in Hg. apply list_elem_of_omap in Hg as (b & _ & Hb).
      by apply boundKey_some in Hb as (_ & _ & ? & _); [|apply (rok_tables _ Hok)].
    - unfold fallback in Hg. rewrite fallbackCandidates_eq in Hg. unfold SortGatewayCredentials in Hg.
      rewrite <-SliceStable_perm in Hg. apply list_elem_of_omap in Hg as (c & Hc & Hg).
      rewrite (siteKey_credential _ _ _ _ _ Hg). unfold credentialsOf in Hc.
      by apply list_elem_of_In, List.filter_In in Hc as [?%list_elem_of_In _]. }
  unfold availableAPIKeys in *. rewrite Htype, Htotal, Hbound, Hcount in *.
  destruct typed as [|g rest] eqn:Etyped.
  - (* no bound key: the key of the site *)
    cbn in Hun. rewrite bool_decide_eq_true_2 by done. cbn [negb].
    rewrite <-Hun in Havail, Hid, Hgroup, Hmult |- *. cbn [length head] in *.
    destruct (bool_decide_reflect (si_SiteType site = "newapi")) as [E|E]; cbn [negb andb fst] in *; [lia|].
    destruct (Z.eqb_spec (Z.of_nat (length (bindingsOf (si_ID site) (sm_ID model) (rt_keys t)))) 0) as [E0|E0]; [|cbn in *; lia].
    unfold HasCredentialBindingsForSiteModel. rewrite bool_decide_eq_true_2 by (apply length_zero_iff_nil; lia).
    cbn [negb]. unfold GetFallbackCredentialForSite. fold fallback. cbn [fst] in *.
    destruct fallback as [|g rest] eqn:Ef; [cbn in *; lia|]. exists g, []. cbn [head fmap option_fmap option_map mbind option_bind].
    cbn [head preferredKey fmap option_fmap option_map mbind option_bind] in Hid, Hgroup, Hmult.
    rewrite bool_decide_eq_false_2 in Hid by (apply Hids; right; by left).
    split_and!; [done..|]. cbn. lia.
  - rewrite bool_decide_eq_false_2 by done. cbn [negb mbind option_bind]. exists g, rest. cbn [map] in Hun.
    rewrite <-Hun in Hid, Hgroup, Hmult, Havail, Hids |- *. cbn [head length] in Hid, Hgroup, Hmult.
    unfold preferredKey in Hid, Hgroup, Hmult.
    rewrite (bool_decide_eq_false_2 (cr_ID (gc_Credential (untyped g)) = uuid_Nil)) in Hid, Hgroup, Hmult
      by (apply (Hids (untyped g)); left; by left).
    cbn [fmap option_fmap option_map mbind option_bind] in Hid, Hgroup, Hmult.
    rewrite bool_decide_eq_false_2 in Hid by (apply (Hids (untyped g)); left; by left).
    split_and!; [done..|].
    destruct (Z.eqb_spec (Z.of_nat (length (bindingsOf (si_ID site) (sm_ID model) (rt_keys t)))) 0) as [E0|E0].
    { exfalso. assert (Hnil : bindingsOf (si_ID site) (sm_ID model) (rt_keys t) = []) by (apply length_zero_iff_nil; lia).
      unfold bound in Hun. rewrite listCredentials_eq, Hnil in Hun. done. }
    rewrite andb_false_r. cbn [fst length]. rewrite length_map. lia.
Qed.

(** C9: A route that is offered can be served, and is billed as it was shown.  Take tables in
    good order, any site but a Grok one, and a candidate of the router, none of whose usable
    keys is closed for every endpoint type of the model.  The request then finds a key, and
    at most as many as the candidate shows; the first it tries is the one the candidate
    names, with its pricing group; and, when that group is written without white space
    around it, the price the candidate shows is the one this key will be billed by, times
    its multiplier. *)
Theorem offered_route_is_served t now getByKey byAlias orders query canonical items item :
  route_tables_ok t →
  Candidates (routeStore iterate t now getByKey byAlias) orders now query = Ok (canonical, items) → item ∈ items →
  isGrokSite (cs_SiteType (cd_Site item)) = false →
  keys_open (rt_keys t) now (cs_ID (cd_Site item)) (cm_SiteModelID (cd_Model item))
    (cm_SupportedEndpointTypes (cd_Model item)) →
  ∃ g rest,
    requestCredentials (rt_keys t) now (cs_ID (cd_Site item)) (cs_SiteType (cd_Site item))
      (cm_SiteModelID (cd_Model item)) (cm_SupportedEndpointTypes (cd_Model item)) = Some (g :: rest)
    ∧ cc_ID (cd_Credential item) = Some (credential_id g)
    ∧ cc_GroupName (cd_Credential item) = gc_GroupName g
    ∧ Z.of_nat (length (g :: rest)) ≤ cd_AvailableAPIKeys item
    ∧ (TrimSpace (default "" (gc_GroupName g)) = default "" (gc_GroupName g) →
       let bill := GetPricingForSiteModel (rt_pricings t) (cm_SiteModelID (cd_Model item)) (default "" (gc_GroupName g)) in
       let multiplier := SiteCredentialUpstreamCostMultiplier (gc_Credential g) in
       cp_InputValue (cd_Pricing item) = multipliedFloat (bill ≫= sp_InputValue) multiplier
       ∧ cp_OutputValue (cd_Pricing item) = multipliedFloat (bill ≫= sp_OutputValue) multiplier
       ∧ cp_PerRequestValue (cd_Pricing item) = multipliedFloat (bill ≫= sp_PerRequestValue) multiplier).
Proof.
  intros Hok (rows & table & Hrows & Htable & ->)%Candidates_inv Hin Hgrok Hopen.
  apply limited_elem, rankedCandidates_row in Hin as (row & Hrow & Hskip & Hsite & Hmodel & Hcred & Hprice & Havail).
  cbn in Hrows. destruct (ListByCanonicalModel_row iterate _ _ _ _ _ Hrows Hrow) as (cm & site & model & Hm & Hid & Hr).
  rewrite Hsite in *. rewrite Hmodel in *. rewrite Hcred, Hprice, Havail. clear Hsite Hmodel Hcred Hprice Havail Hrows.
  destruct (fillRouteKeyCounts iterate (rt_keys t) now (si_ID site) (sm_ID model)) as [[total available] bound] eqn:Ek.
  destruct (fillRouteSiteCredentialCount (rt_keys t) now (si_ID site)) as [siteCount key] eqn:Es.
  destruct (routeRow_fields iterate t now cm site model _ _ _ _ _ Ek Es)
    as (F1 & F2 & F3 & _ & _ & _ & _ & _ & _ & F9 & F10 & F11). rewrite <-Hr in F1, F2, F3, F9, F10, F11.
  cbn [candidateOf cd_Site cd_Model cd_Credential cd_Pricing cs_ID cs_SiteType cm_SiteModelID
       cm_SupportedEndpointTypes cc_ID cc_GroupName cp_InputValue cp_OutputValue cp_PerRequestValue] in *.
  rewrite F1, F2, F3 in *.
  assert (Hpos : 0 < (availableAPIKeys row).1).
  { unfold skipped in Hskip. repeat (apply orb_false_iff in Hskip as [Hskip ?]). bool_to_prop. lia. }
  destruct (served_row t now cm site model (row_SupportedEndpointTypes row) Hok Hm Hid Hgrok Hopen)
    as (g & rest & Hreq & Hpid & Hpg & Hpm & Hlen); [by rewrite <-Hr|]. rewrite <-Hr in Hpid, Hpg, Hpm, Hlen.
  exists g, rest. split_and!; [done..|]. intros Htrim.
  assert (Hbill : GetPricingForSiteModel (rt_pricings t) (sm_ID model) (default "" (gc_GroupName g))
                  = fillRoutePricing (rt_pricings t) (sm_ID model) (row_PreferredCredentialGroupName row)).
  { unfold GetPricingForSiteModel, fillRoutePricing. rewrite Hpg, Htrim. f_equal. apply filter_both. }
  cbn zeta. rewrite Hbill, Hpm, (multiplier_positive (gc_Credential g)), F9, F10, F11. done.
Qed.
End offered.

(** ** Samples *)

#[local] Existing Instance sampleIDs.
#[local] Existing Instance sampleTexts.

Definition sampleIterate (m : gmap uuid GatewayCredential) : list GatewayCredential := (map_to_list m).*2.

Definition sampleSite : Site := mkSite 1%N "one" "one" "openai" "https://one" "active" true (of_int 1) None.
Definition sampleModel : SiteModel := mkSiteModel 7%N 1%N (Some 3%N) "m" "M" "" "active" "manual" 100.
Definition sampleCanonical : CanonicalModel := mkCanonical 3%N "m".

Definition samplePrices : list SiteModelPricing :=
  [mkSitePricing (Some 7%N) "vip" 0 "tokens" "USD" None None (Some (of_int 1)) (Some (of_int 2)) true;
   mkSitePricing (Some 7%N) "default" 0 "tokens" "USD" None None (Some (of_int 4)) (Some (of_int 8)) true].

Definition sampleRoutes (keys : Tables) : RouteTables :=
  mkRouteTables keys [mkCatalogModel sampleCanonical "active" ""] [sampleSite] [sampleModel] [] [] samplePrices [].

Definition sampleStore (keys : Tables) : RouteStore :=
  routeStore sampleIterate (sampleRoutes keys) 5 (λ _, Ok (Some sampleCanonical)) (λ _, Ok None).

Definition sampleQuery : CandidateQuery := mkQuery "m" "" false false [] [] [] [] 0 3.

Definition sampleItems (keys : Tables) : list Candidate :=
  match Candidates (sampleStore keys) (λ _, []) 5 sampleQuery with Ok (_, items) => items | Err _ => [] end.

Lemma sampleRoutes_ok : route_tables_ok (sampleRoutes sampleTables).
Proof.
  assert (Hc : ∀ c, c ∈ tb_credentials sampleTables → c = sampleKey 11%N "api_key" ∨ c = sampleKey 12%N "api_key")
    by (intros c [<-|[<-|[]]]%list_elem_of_In; [by left|by right]).
  split; cbn [rt_keys rt_models sampleRoutes].
  - exact sampleTables_ok.
  - intros c [->| ->]%Hc; done.
  - intros s c [<-|[]]%list_elem_of_In [->| ->]%Hc _; done.
  - intros b m [<-|[<-|[]]]%list_elem_of_In [<-|[]]%list_elem_of_In _; done.
  - intros b c _ [->| ->]%Hc _; reflexivity.
Qed.

Definition sampleItem : Candidate :=
  default (candidateOf emptyIndex (routeRow sampleIterate (sampleRoutes sampleTables) 5
             (mkCatalogModel sampleCanonical "active" "") sampleSite sampleModel)) (head (sampleItems sampleTables)).

Lemma default_head_elem {A} (d : A) (l : list A) : length l ≠ 0%nat → default d (head l) ∈ l.
Proof. destruct l; [done|left]. Qed.

Lemma offered_route_is_served_witness :
  ∃ g rest,
    requestCredentials sampleTables 5 (cs_ID (cd_Site sampleItem)) (cs_SiteType (cd_Site sampleItem))
      (cm_SiteModelID (cd_Model sampleItem)) (cm_SupportedEndpointTypes (cd_Model sampleItem)) = Some (g :: rest)
    ∧ cc_ID (cd_Credential sampleItem) = Some (credential_id g)
    ∧ cc_GroupName (cd_Credential sampleItem) = gc_GroupName g.
Proof.
  destruct (offered_route_is_served sampleIterate (λ m, reflexivity _) sampleIDs_inj (sampleRoutes sampleTables) 5
              (λ _, Ok (Some sampleCanonical)) (λ _, Ok None) (λ _, []) sampleQuery sampleCanonical
              (sampleItems sampleTables) sampleItem) as (g & rest & H1 & H2 & H3 & _).
  - exact sampleRoutes_ok.
  - vm_compute. reflexivity.
  - apply default_head_elem. vm_compute. discriminate.
  - vm_compute. reflexivity.
  - left. vm_compute. reflexivity.
  - exists g, rest. exact (conj H1 (conj H2 H3)).
Defined.

(** A key that is closed for all its endpoint types still counts for the router: the route
    is offered, and the request finds no key. *)
Theorem closed_key_is_offered :
  let keys := mkTables [sampleKey 11%N "api_key"] [] [sampleBinding 21%N 11%N "closed"] [] in
  map cd_AvailableAPIKeys (sampleItems keys) = [1]
  ∧ requestCredentials keys 5 1%N "openai" 7%N ["openai"] = None.
Proof. vm_compute. done. Qed.

(** A price above 1000 ranks behind no price at all. *)
Theorem high_price_ranks_behind_none :
  GetPricingForSiteModel
    [mkSitePricing (Some 7%N) "a" 0 "tokens" "CNY" None None (Some (of_int 1001)) None true;
     mkSitePricing (Some 7%N) "b" 0 "tokens" "CNY" None None None None true] 7%N ""
  = Some (mkSitePricing (Some 7%N) "b" 0 "tokens" "CNY" None None None None true).
Proof. vm_compute. done. Qed.
