(* ===== verification/StreamEvents.v ===== *)
(** * Canonical stream events

    The data of [gateway/protocol_canonical_stream.go]: the events every protocol's stream
    is decoded to and encoded from, what a stream leaves behind ([streamCaptureState] of
    [gateway/stream_runtime.go]), the lines of a server-sent event stream, and the
    resolved protocol specification an encoder asks for names and reasoning policies
    ([gateway/protocol_spec_registry.go]). *)

From S2P Require Import Prelude GoFloat Catalog Json Pricing.

(** ** Protocols *)

Inductive canonicalProtocol :=
| OpenAIChat
| OpenAIResponses
| OpenAIImages
| OpenAIEmbeddings
| OpenAIAudioSpeech
| CodexResponses
| Antigravity
| GoogleGemini
| AnthropicMessages
| Grok.

#[global] Instance canonicalProtocol_eq_dec : EqDecision canonicalProtocol.
Proof. solve_decision. Defined.

(** ** Events *)

Inductive canonicalStreamEventType :=
| Created
| TextDelta
| ToolCallDelta
| ReasoningDelta
| Advanced
| AnnotationAdded
| Usage
| Completed
| Incomplete
| ErrorEvent.

#[global] Instance canonicalStreamEventType_eq_dec : EqDecision canonicalStreamEventType.
Proof. solve_decision. Defined.

Definition eventTypeName (t : canonicalStreamEventType) : string :=
  match t with
  | Created => "created" | TextDelta => "text_delta" | ToolCallDelta => "tool_call_delta"
  | ReasoningDelta => "reasoning_delta" | Advanced => "advanced_event"
  | AnnotationAdded => "annotation_added" | Usage => "usage" | Completed => "completed"
  | Incomplete => "incomplete" | ErrorEvent => "error"
  end.

(** The fields of [canonicalStreamEvent], in groups by what they are about. *)
Record eventMeta := mkMeta { ev_ID : string; ev_Model : string; ev_CreatedAt : Z }.
Record eventFinish := mkFinish {
  ev_FinishReason : string; ev_StopSequence : string; ev_ErrorMessage : string }.
Record eventReasoning := mkReasoning {
  ev_ReasoningKind : string; ev_ReasoningEventName : string; ev_ReasoningIndex : Z }.
Record eventAdvanced := mkAdvanced {
  ev_AdvancedKind : string; ev_AdvancedPhase : string; ev_AdvancedEventName : string;
  ev_AdvancedPayload : option (list (string * any)) }.
Record eventToolCall := mkToolCall {
  ev_ToolCallIndex : Z; ev_ToolCallID : string; ev_ToolCallName : string;
  ev_ToolCallArgumentsDelta : string; ev_ToolCallMetadata : list (string * any) }.

Record canonicalStreamEvent := mkEvent {
  ev_Type : canonicalStreamEventType;
  ev_Meta : eventMeta;
  ev_Delta : string;
  ev_Usage : gatewayUsage;
  ev_Finish : eventFinish;
  ev_Annotation : any;
  ev_Refusal : bool;
  ev_Reasoning : eventReasoning;
  ev_Advanced : eventAdvanced;
  ev_ToolCall : eventToolCall
}.

Definition noUsage : gatewayUsage := mkUsage 0 0 0 0 0 0 0 0 0 0 0 0 0 0 0 0 None.
Definition noMeta : eventMeta := mkMeta "" "" 0.
Definition noFinish : eventFinish := mkFinish "" "" "".
Definition noReasoning : eventReasoning := mkReasoning "" "" 0.
Definition noAdvanced : eventAdvanced := mkAdvanced "" "" "" None.
Definition noToolCall : eventToolCall := mkToolCall 0 "" "" "" [].

(** Struct literals: the fields that are named, the others zero. *)
Definition createdEvent (meta : eventMeta) : canonicalStreamEvent :=
  mkEvent Created meta "" noUsage noFinish ANil false noReasoning noAdvanced noToolCall.
Definition textEvent (meta : eventMeta) (delta : string) (refusal : bool) : canonicalStreamEvent :=
  mkEvent TextDelta meta delta noUsage noFinish ANil refusal noReasoning noAdvanced noToolCall.
Definition reasoningEvent (meta : eventMeta) (delta : string) (r : eventReasoning)
    : canonicalStreamEvent :=
  mkEvent ReasoningDelta meta delta noUsage noFinish ANil false r noAdvanced noToolCall.
Definition toolCallEvent (meta : eventMeta) (call : eventToolCall) : canonicalStreamEvent :=
  mkEvent ToolCallDelta meta "" noUsage noFinish ANil false noReasoning noAdvanced call.
Definition usageEvent (usage : gatewayUsage) : canonicalStreamEvent :=
  mkEvent Usage noMeta "" usage noFinish ANil false noReasoning noAdvanced noToolCall.
Definition annotationEvent (annotation : any) : canonicalStreamEvent :=
  mkEvent AnnotationAdded noMeta "" noUsage noFinish annotation false noReasoning noAdvanced
    noToolCall.
Definition finishEvent (t : canonicalStreamEventType) (meta : eventMeta) (finish : eventFinish)
    : canonicalStreamEvent :=
  mkEvent t meta "" noUsage finish ANil false noReasoning noAdvanced noToolCall.

Definition set_Delta (delta : string) (e : canonicalStreamEvent) : canonicalStreamEvent :=
  mkEvent (ev_Type e) (ev_Meta e) delta (ev_Usage e) (ev_Finish e) (ev_Annotation e) (ev_Refusal e)
    (ev_Reasoning e) (ev_Advanced e) (ev_ToolCall e).
Definition set_Finish (t : canonicalStreamEventType) (finish : eventFinish)
    (e : canonicalStreamEvent) : canonicalStreamEvent :=
  mkEvent t (ev_Meta e) (ev_Delta e) (ev_Usage e) finish (ev_Annotation e) (ev_Refusal e)
    (ev_Reasoning e) (ev_Advanced e) (ev_ToolCall e).

(** The event closes the stream. *)
Definition terminal (e : canonicalStreamEvent) : bool :=
  bool_decide (ev_Type e ∈ [Completed; Incomplete; ErrorEvent]).

(** ** Usage *)

Definition gatewayUsageAvailable (u : gatewayUsage) : bool :=
  (0 <? TotalTokens u) || (0 <? PromptTokens u) || (0 <? CompletionTokens u)
  || (0 <? CachedPromptTokens u) || (0 <? ReasoningTokens u).

(** The usage an encoder takes over from an event. *)
Definition usageCounts (u : gatewayUsage) : bool :=
  (0 <? TotalTokens u) || (0 <? PromptTokens u) || (0 <? CompletionTokens u).

Definition completionUsageFromGatewayUsage (u : gatewayUsage) : gatewayUsage :=
  normalized (mkUsage (PromptTokens u) (CompletionTokens u) (TotalTokens u) 0 (CachedPromptTokens u)
    0 0 (CacheWriteTokens u) (CacheCreationInputTokens u) 0 0 (ReasoningTokens u) 0 0 0 0 None).

Definition chatFinishReasonIsIncomplete (finishReason : string) : bool :=
  bool_decide (TrimSpace finishReason ∈ ["length"; "content_filter"]).

(** ** What a stream leaves behind *)

(** The fields of [streamCaptureState] that decide something; the model name, the error
    detail and the latency go to the request log only. *)
Record streamCaptureState := mkCapture {
  sc_usage : gatewayUsage;
  sc_sawDone : bool;
  sc_streamCompleted : bool;
  sc_endReason : string;
  sc_annotations : list any;
  sc_malformedLines : Z;
  sc_preOutputEventsBuffered : Z;
  sc_preOutputFailureDeferred : bool
}.

Definition emptyCapture : streamCaptureState := mkCapture noUsage false false "" [] 0 0 false.

Definition set_usage (u : gatewayUsage) (c : streamCaptureState) : streamCaptureState :=
  mkCapture u (sc_sawDone c) (sc_streamCompleted c) (sc_endReason c) (sc_annotations c)
    (sc_malformedLines c) (sc_preOutputEventsBuffered c) (sc_preOutputFailureDeferred c).
Definition set_endReason (reason : string) (c : streamCaptureState) : streamCaptureState :=
  mkCapture (sc_usage c) (sc_sawDone c) (sc_streamCompleted c) reason (sc_annotations c)
    (sc_malformedLines c) (sc_preOutputEventsBuffered c) (sc_preOutputFailureDeferred c).
Definition set_done (completed : bool) (reason : string) (c : streamCaptureState)
    : streamCaptureState :=
  mkCapture (sc_usage c) true completed reason (sc_annotations c)
    (sc_malformedLines c) (sc_preOutputEventsBuffered c) (sc_preOutputFailureDeferred c).

(** [capture] is never nil here; a nil annotation is dropped. *)
Definition appendStreamAnnotation (annotation : any) (c : streamCaptureState) : streamCaptureState :=
  match annotation with
  | ANil => c
  | _ => mkCapture (sc_usage c) (sc_sawDone c) (sc_streamCompleted c) (sc_endReason c)
           (sc_annotations c ++ [annotation])
           (sc_malformedLines c) (sc_preOutputEventsBuffered c) (sc_preOutputFailureDeferred c)
  end.

(** ** Lines of a stream *)

(** [strings.TrimPrefix] *)
Definition TrimPrefix (s p : string) : string :=
  if HasPrefix s p then String.substring (String.length p) (String.length s - String.length p) s else s.

(** The data of a line, whether it is [[DONE]], and whether there is any. *)
Inductive sseLine := SSENone | SSEDone | SSEData (data : string).

Definition sseDataFromLine (line : string) : sseLine :=
  let text := TrimSpace line in
  if negb (HasPrefix text "data:") then SSENone
  else
    let data := TrimSpace (TrimPrefix text "data:") in
    if bool_decide (data = "") then SSENone
    else if bool_decide (data = "[DONE]") then SSEDone
    else SSEData data.

(** ** The specification of a protocol *)

(** [resolvedProtocolSpec], the parts an encoder asks for; resolving it from
    [protocolspec/protocol_specs.json] is not modelled. *)
Record resolvedProtocolSpec := mkSpec {
  ps_Events : gmap string string;      (* the [Name] of a mapping *)
  ps_Reasoning : gmap string string
}.

Definition protocolEventName (spec : resolvedProtocolSpec) (event : canonicalStreamEventType)
    (fallback : string) : string :=
  match ps_Events spec !! eventTypeName event with
  | Some name => if bool_decide (TrimSpace name = "") then fallback else TrimSpace name
  | None => fallback
  end.

Definition reasoningPolicyForProtocol (spec : resolvedProtocolSpec) (kind : string) : string :=
  let kind := TrimSpace kind in
  let policy := TrimSpace (default "" (ps_Reasoning spec !! kind)) in
  let fallback := TrimSpace (default "" (ps_Reasoning spec !! "default")) in
  if negb (bool_decide (kind = "")) && negb (bool_decide (policy = "")) then policy
  else if negb (bool_decide (fallback = "")) then fallback
  else "metadata".

Definition redactedReasoningAnnotation (event : canonicalStreamEvent) : any :=
  AObject [("type", AString (nonEmptyString
             [ev_ReasoningEventName (ev_Reasoning event); ev_ReasoningKind (ev_Reasoning event);
              eventTypeName (ev_Type event)]));
           ("value", AString "[redacted]")].

(** ** Advanced events in the request log *)

Definition isSensitiveAdvancedKey (key : string) : bool :=
  let key := ToLower (TrimSpace key) in
  existsb (Contains key) ["authorization"; "api_key"; "apikey"; "access_token"; "refresh_token";
                          "secret"; "password"; "credential"]
  || bool_decide (key = "key") || bool_decide (key = "token").

Section sanitize.
(** The order in which Go iterates over a map. *)
Context (order : list (string * any) → list (string * any)).

Definition first64 (members : list (string * any)) : list (string * any) :=
  if (64 <? length members)%nat then take 64 members ++ [("_truncated", ABool true)] else members.

Fixpoint sanitizeAdvancedPayload (value : any) (depth : Z) : any :=
  if 6 <? depth then AString "[truncated]"
  else match value with
  | AObject members =>
      AObject (first64 (order
        ((fix go (ms : list (string * any)) := match ms with
          | [] => []
          | (key, child) :: rest =>
              (key, if isSensitiveAdvancedKey key then AString "[redacted]"
                    else sanitizeAdvancedPayload child (depth + 1)) :: go rest
          end) members)))
  | AArray items =>
      let out := (fix go (l : list any) := match l with
                  | [] => []
                  | x :: rest => sanitizeAdvancedPayload x (depth + 1) :: go rest
                  end) items in
      AArray (if (64 <? length items)%nat then take 64 out ++ [AString "[truncated]"] else out)
  | AString typed =>
      AString (if 4096 <? len typed then String.substring 0 4096 typed +:+ "...[truncated]" else typed)
  | _ => value
  end.

Definition sanitizeAdvancedMap (value : option (list (string * any)))
    : option (list (string * any)) :=
  members ← value;
  match sanitizeAdvancedPayload (AObject members) 0 with AObject out => Some out | _ => None end.

Definition advancedStreamAnnotation (event : canonicalStreamEvent) : any :=
  let advanced := ev_Advanced event in
  let call := ev_ToolCall event in
  AObject
    ([("type", AString (nonEmptyString [ev_AdvancedEventName advanced; ev_AdvancedKind advanced;
                                         eventTypeName (ev_Type event)]));
      ("kind", AString (nonEmptyString [ev_AdvancedKind advanced; "provider_event"]));
      ("phase", AString (nonEmptyString [ev_AdvancedPhase advanced; "event"]));
      ("value", AString "[advanced_event]")]
     ++ (if bool_decide (ev_ToolCallID call = "") then [] else [("call_id", AString (ev_ToolCallID call))])
     ++ (if bool_decide (ev_ToolCallName call = "") then [] else [("name", AString (ev_ToolCallName call))])
     ++ match sanitizeAdvancedMap (ev_AdvancedPayload advanced) with
        | Some payload => [("payload", AObject payload)]
        | None => []
        end).
End sanitize.

Definition responseIDOrFallback (id : string) : string :=
  if bool_decide (TrimSpace id = "") then "chatcmpl-xlyra" else TrimSpace id.

(** [json.Valid] of the trimmed arguments; no arguments are valid. *)
Definition validateToolCallArguments (valid : string → bool) (arguments : string) : bool :=
  let arguments := TrimSpace arguments in
  bool_decide (arguments = "") || valid arguments.

(** ** Encoders

    An encoder writes to the client and updates the capture; an error stops it.  The
    client gets frames (what lies between two blank lines): a frame whose writing fails
    halfway never takes effect there, so it is not counted. *)

Inductive frame :=
| FEvent (event : string) (payload : any)
| FData (payload : any)
| FDone.

(** [w_room] is how many frames the connection still takes, [None] a healthy one. *)
Record writer := mkWriter { w_frames : list frame; w_room : option nat }.

Record io (E : Type) := mkIO { io_enc : E; io_capture : streamCaptureState; io_writer : writer }.
Arguments mkIO {E} io_enc io_capture io_writer.
Arguments io_enc {E} _.
Arguments io_capture {E} _.
Arguments io_writer {E} _.

Definition writeError : string := "write failed".

(** State and error. *)
Definition M (E A : Type) : Type := io E → result A string * io E.

Section monad.
Context {E : Type}.

Definition ret {A} (a : A) : M E A := λ s, (Ok a, s).
Definition bind {A B} (m : M E A) (f : A → M E B) : M E B := λ s,
  match m s with
  | (Ok a, s) => f a s
  | (Err e, s) => (Err e, s)
  end.
Definition fail {A} (e : string) : M E A := λ s, (Err e, s).
Definition get : M E E := λ s, (Ok (io_enc s), s).
Definition modify (f : E → E) : M E unit := λ s,
  (Ok tt, mkIO (f (io_enc s)) (io_capture s) (io_writer s)).
Definition get_capture : M E streamCaptureState := λ s, (Ok (io_capture s), s).
Definition modify_capture (f : streamCaptureState → streamCaptureState) : M E unit := λ s,
  (Ok tt, mkIO (io_enc s) (f (io_capture s)) (io_writer s)).

Definition write (fr : frame) : M E unit := λ s,
  let w := io_writer s in
  match w_room w with
  | None => (Ok tt, mkIO (io_enc s) (io_capture s) (mkWriter (w_frames w ++ [fr]) None))
  | Some (S n) => (Ok tt, mkIO (io_enc s) (io_capture s) (mkWriter (w_frames w ++ [fr]) (Some n)))
  | Some O => (Err writeError, s)
  end.

Definition when (b : bool) (m : M E unit) : M E unit := if b then m else ret tt.

(** [for _, x := range l { if err := f(x); err != nil { return err } }] *)
Fixpoint for_each {A} (l : list A) (f : A → M E unit) : M E unit :=
  match l with
  | [] => ret tt
  | x :: rest => bind (f x) (λ _, for_each rest f)
  end.
End monad.

Declare Scope stream_scope.
Delimit Scope stream_scope with stream.
Notation "'let!' x := m 'in' k" := (bind m (λ x, k))
  (at level 200, x name, m at level 100, k at level 200, right associativity) : stream_scope.
Notation "m ;;; k" := (bind m (λ _, k)) (at level 199, right associativity) : stream_scope.

(** What all encoders do with the events that write nothing. *)
Definition upstreamFailed {E} (event : canonicalStreamEvent) : M E unit :=
  bind (modify_capture (set_endReason "upstream_stream_error")) (λ _,
    fail ("upstream stream failed: " +:+
      nonEmptyString [ev_ErrorMessage (ev_Finish event); "unknown error"])).

Definition takeUsage {E} (event : canonicalStreamEvent) : M E unit :=
  when (usageCounts (ev_Usage event)) (modify_capture (set_usage (ev_Usage event))).

(** ** Reasoning about encoders

    [wp R m s Q]: from [s], [m] either succeeds in [Q] or fails in [R]. *)

Section wp.
Context {E : Type} (R : string → io E → Prop).

Definition wp {A} (m : M E A) (s : io E) (Q : A → io E → Prop) : Prop :=
  match m s with
  | (Ok a, s) => Q a s
  | (Err e, s) => R e s
  end.

Lemma wp_mono {A} (m : M E A) s (Q Q' : A → io E → Prop) :
  (∀ a s, Q a s → Q' a s) → wp m s Q → wp m s Q'.
Proof. unfold wp. destruct (m s) as [[?|?] ?]; eauto. Qed.

Lemma wp_ret {A} (a : A) s (Q : A → io E → Prop) : Q a s → wp (ret a) s Q.
Proof. done. Qed.

Lemma wp_fail {A} e s (Q : A → io E → Prop) : R e s → wp (fail e) s Q.
Proof. done. Qed.

Lemma wp_bind {A B} (m : M E A) (f : A → M E B) s (Q : B → io E → Prop) :
  wp m s (λ a s, wp (f a) s Q) → wp (bind m f) s Q.
Proof. unfold wp, bind. by destruct (m s) as [[a|e] s']. Qed.

Lemma wp_get s (Q : E → io E → Prop) : Q (io_enc s) s → wp get s Q.
Proof. done. Qed.

Lemma wp_get_capture s (Q : streamCaptureState → io E → Prop) :
  Q (io_capture s) s → wp get_capture s Q.
Proof. done. Qed.

Lemma wp_modify f s (Q : unit → io E → Prop) :
  Q tt (mkIO (f (io_enc s)) (io_capture s) (io_writer s)) → wp (modify f) s Q.
Proof. done. Qed.

Lemma wp_modify_capture f s (Q : unit → io E → Prop) :
  Q tt (mkIO (io_enc s) (f (io_capture s)) (io_writer s)) → wp (modify_capture f) s Q.
Proof. done. Qed.

Lemma wp_write fr s (Q : unit → io E → Prop) :
  (w_room (io_writer s) = Some O → R writeError s) →
  (∀ room, Q tt (mkIO (io_enc s) (io_capture s) (mkWriter (w_frames (io_writer s) ++ [fr]) room))) →
  wp (write fr) s Q.
Proof. unfold wp, write. intros Hfail Hok. destruct (w_room (io_writer s)) as [[|n]|]; auto. Qed.

(** The loop keeps an invariant indexed by what it has still to do. *)
Lemma wp_for_each {A} (l : list A) (f : A → M E unit) (I : list A → io E → Prop) s
    (Q : unit → io E → Prop) :
  I l s → (∀ x rest s, I (x :: rest) s → wp (f x) s (λ _ s, I rest s)) → (∀ s, I [] s → Q tt s) →
  wp (for_each l f) s Q.
Proof.
  intros HI Hstep HQ. revert s HI. induction l as [|x l IH]; intros s HI; cbn [for_each].
  { by apply wp_ret, HQ. }
  apply wp_bind. eapply wp_mono; [|by apply Hstep]. intros ? s' HI'. by apply IH.
Qed.
End wp.

(** One step of the symbolic execution of an encoder. *)
Ltac wp_step :=
  lazymatch goal with
  | |- wp _ (bind _ _) _ _ => apply wp_bind
  | |- wp _ (ret _) _ _ => apply wp_ret
  | |- wp _ get _ _ => apply wp_get
  | |- wp _ get_capture _ _ => apply wp_get_capture
  | |- wp _ (modify _) _ _ => apply wp_modify
  | |- wp _ (modify_capture _) _ _ => apply wp_modify_capture
  end; cbn [io_enc io_capture io_writer].


(** What the client was sent. *)
Definition frames {E} (s : io E) : list frame := w_frames (io_writer s).

(** Why an encoder may give up: the connection broke, or one of three reasons it
    records. *)
Definition gave_up {E} (s : io E) : Prop :=
  w_room (io_writer s) = Some O
  ∨ sc_endReason (io_capture s)
      ∈ ["upstream_stream_error"; "usage_missing"; "tool_call_arguments_invalid_json"].

(** [encodeRaw] of [proxyCanonicalStream]: event after event; an error ends the stream, and
    is a failure to write when the encoder gave no other reason. *)
Definition encode_failed {E} (s : io E) : io E :=
  mkIO (io_enc s)
    (if bool_decide (sc_endReason (io_capture s) = "")
     then set_endReason "downstream_stream_write_failed" (io_capture s) else io_capture s)
    (io_writer s).

Definition encodeOne {E} (m : M E unit) : M E unit := λ s,
  match m s with
  | (Err e, s) => (Err e, encode_failed s)
  | r => r
  end.

Definition encodeRaw {E} (EncodeEvent : canonicalStreamEvent → M E unit)
    (events : list canonicalStreamEvent) : M E unit :=
  for_each events (λ event, encodeOne (EncodeEvent event)).

Lemma wp_encoded {E} (R : string → io E → Prop) (m : M E unit) s (Q : unit → io E → Prop) :
  (∀ e s, R e s → R e (encode_failed s)) → wp R m s Q → wp R (encodeOne m) s Q.
Proof. unfold wp, encodeOne. intros HR. destruct (m s) as [[[]|e] s']; auto. Qed.

Lemma gave_up_encoded {E} (s : io E) : gave_up s → gave_up (encode_failed s).
Proof.
  intros [Hw|Hw]; [by left|right]. unfold encode_failed. cbn. case_bool_decide as He; [|done].
  rewrite He in Hw. set_solver.
Qed.

Lemma wp_for_each_app {E A} (R : string → io E → Prop) (l1 l2 : list A) f s
    (Q : unit → io E → Prop) :
  wp R (for_each l1 f) s (λ _ s, wp R (for_each l2 f) s Q) → wp R (for_each (l1 ++ l2) f) s Q.
Proof.
  revert s. induction l1 as [|x l1 IH]; intros s; cbn [for_each app]; [done|].
  unfold wp, bind in *. destruct (f x s) as [[?|?] s']; [apply IH|done].
Qed.

(** ** What the events say *)

Record content := mkContent {
  ct_text : string;
  ct_thinking : string;
  ct_arguments : gmap string string
}.

Definition add_event (candidateSpec : resolvedProtocolSpec) (ct : content)
    (event : canonicalStreamEvent) : content :=
  match ev_Type event with
  | TextDelta => mkContent (ct_text ct +:+ ev_Delta event) (ct_thinking ct) (ct_arguments ct)
  | ReasoningDelta =>
      let kind := ev_ReasoningKind (ev_Reasoning event) in
      if bool_decide (reasoningPolicyForProtocol candidateSpec kind = "passthrough")
         && bool_decide (kind = "thinking")
      then mkContent (ct_text ct) (ct_thinking ct +:+ ev_Delta event) (ct_arguments ct)
      else ct
  | ToolCallDelta =>
      let id := TrimSpace (ev_ToolCallID (ev_ToolCall event)) in
      if bool_decide (id = "") then ct
      else mkContent (ct_text ct) (ct_thinking ct)
             (<[id := default "" (ct_arguments ct !! id)
                      +:+ ev_ToolCallArgumentsDelta (ev_ToolCall event)]> (ct_arguments ct))
  | _ => ct
  end.

Definition content_of (candidateSpec : resolvedProtocolSpec) (events : list canonicalStreamEvent)
    : content := fold_left (add_event candidateSpec) events (mkContent "" "" ∅).
