(* ===== verification/StopSequences.v ===== *)
(** * Stop sequences

    [gateway/protocol_stop_sequences.go]: the filter that cuts a stream of text at the first
    stop sequence.  It sees the text in pieces and holds back only as many runes as a
    sequence begun there could still need; the theorem compares it with a search over the
    whole text between two other events. *)

From S2P Require Import Prelude GoFloat Catalog Json Pricing Utf8 StreamEvents.

(** ** The filter *)

Record canonicalStopSequenceFilter := mkFilter {
  sf_sequences : list (list Z);
  sf_sequenceValues : list string;
  sf_maxLength : nat;
  sf_pending : list Z;
  sf_template : canonicalStreamEvent;
  sf_matched : string;
  sf_stopped : bool
}.

Definition emptyEvent : canonicalStreamEvent := createdEvent noMeta.

(** The loop of the constructor; [sequenceValues] are the values seen. *)
Definition addSequence (f : canonicalStopSequenceFilter) (value : string)
    : canonicalStopSequenceFilter :=
  let sequence := runes value in
  if bool_decide (sequence = []) || bool_decide (value ∈ sf_sequenceValues f) then f
  else mkFilter (sf_sequences f ++ [sequence]) (sf_sequenceValues f ++ [value])
         (Nat.max (sf_maxLength f) (length sequence)) (sf_pending f) (sf_template f) (sf_matched f)
         (sf_stopped f).

Definition newCanonicalStopSequenceFilter (values : list string)
    : option canonicalStopSequenceFilter :=
  let filter := fold_left addSequence values (mkFilter [] [] 0 [] emptyEvent "" false) in
  if bool_decide (sf_sequences filter = []) then None else Some filter.

(** The sequence lies at the front of the text. *)
Fixpoint starts_with (l sequence : list Z) {struct sequence} : bool :=
  match sequence with
  | [] => true
  | x :: s => match l with y :: r => (y =? x) && starts_with r s | [] => false end
  end.

Fixpoint matchAt (sequences : list (list Z)) (l : list Z) : option nat :=
  match sequences with
  | [] => None
  | sequence :: rest => if starts_with l sequence then Some O else S <$> matchAt rest l
  end.

(** The first position at which a sequence lies, and the first sequence there. *)
Fixpoint firstMatch (sequences : list (list Z)) (pending : list Z) : option (nat * nat) :=
  match pending with
  | [] => None
  | _ :: rest =>
      match matchAt sequences pending with
      | Some k => Some (O, k)
      | None => '(i, k) ← firstMatch sequences rest; Some (S i, k)
      end
  end.

Definition set_pending (pending : list Z) (template : canonicalStreamEvent)
    (f : canonicalStopSequenceFilter) : canonicalStopSequenceFilter :=
  mkFilter (sf_sequences f) (sf_sequenceValues f) (sf_maxLength f) pending template (sf_matched f)
    (sf_stopped f).

Definition emitPrefix (n : nat) (f : canonicalStopSequenceFilter)
    : list canonicalStreamEvent * canonicalStopSequenceFilter :=
  if bool_decide (n = O) || bool_decide (sf_pending f = []) then ([], f)
  else
    let rest := drop n (sf_pending f) in
    ([set_Delta (string_of_runes (take n (sf_pending f))) (sf_template f)],
     set_pending rest (if bool_decide (rest = []) then emptyEvent else sf_template f) f).

Definition Flush (f : canonicalStopSequenceFilter)
    : list canonicalStreamEvent * canonicalStopSequenceFilter :=
  if bool_decide (sf_pending f = []) || sf_stopped f then ([], f)
  else emitPrefix (length (sf_pending f)) f.

Definition stop (f : canonicalStopSequenceFilter) (sequenceIndex : nat)
    : canonicalStopSequenceFilter :=
  mkFilter (sf_sequences f) (sf_sequenceValues f) (sf_maxLength f) [] (sf_template f)
    (nth sequenceIndex (sf_sequenceValues f) "") true.

(** One turn of the loop of [Apply]. *)
Definition applyEvent (f : canonicalStopSequenceFilter) (event : canonicalStreamEvent)
    : list canonicalStreamEvent * canonicalStopSequenceFilter :=
  match ev_Type event with
  | TextDelta =>
      if sf_stopped f || bool_decide (ev_Delta event = "") then ([], f)
      else
        let template := if bool_decide (sf_pending f = []) then event else sf_template f in
        let f := set_pending (sf_pending f ++ runes (ev_Delta event)) template f in
        match firstMatch (sf_sequences f) (sf_pending f) with
        | Some (matchIndex, sequenceIndex) =>
            let '(out, f) := emitPrefix matchIndex f in (out, stop f sequenceIndex)
        | None =>
            let keep := (sf_maxLength f - 1)%nat in
            if (keep <? length (sf_pending f))%nat
            then emitPrefix (length (sf_pending f) - keep) f else ([], f)
        end
  | Created => ([event], f)
  | Usage => let '(out, f) := Flush f in (out ++ [event], f)
  | Completed | Incomplete | ErrorEvent =>
      let '(out, f) := Flush f in
      (out ++ [if sf_stopped f
               then set_Finish Completed (mkFinish "stop_sequence" (sf_matched f) "") event
               else event], f)
  | ToolCallDelta | ReasoningDelta | Advanced | AnnotationAdded =>
      if sf_stopped f then ([], f)
      else let '(out, f) := Flush f in (out ++ [event], f)
  end.

Fixpoint Apply (f : canonicalStopSequenceFilter) (events : list canonicalStreamEvent)
    : list canonicalStreamEvent * canonicalStopSequenceFilter :=
  match events with
  | [] => ([], f)
  | event :: rest =>
      let '(out, f) := applyEvent f event in
      let '(more, f) := Apply f rest in
      (out ++ more, f)
  end.

(** The calls the stream makes, one for each line it decodes, and the last [Flush]. *)
Fixpoint applyLines (f : canonicalStopSequenceFilter) (lines : list (list canonicalStreamEvent))
    : list canonicalStreamEvent * canonicalStopSequenceFilter :=
  match lines with
  | [] => Flush f
  | events :: rest =>
      let '(out, f) := Apply f events in
      let '(more, f) := applyLines f rest in
      (out ++ more, f)
  end.

(** ** The reference: a search over whole texts *)

Definition is_text (e : canonicalStreamEvent) : bool := bool_decide (ev_Type e = TextDelta).

(** The runes of the text of a stream. *)
Definition text_of (events : list canonicalStreamEvent) : list Z :=
  flat_map (λ e, if is_text e then runes (ev_Delta e) else []) events.

Definition others (events : list canonicalStreamEvent) : list canonicalStreamEvent :=
  List.filter (λ e, negb (is_text e)) events.

(** What passes a filter that stopped at [value]: nothing but the start, the usage and
    the end of the stream, and that says why. *)
Definition after_stop (value : string) (events : list canonicalStreamEvent)
    : list canonicalStreamEvent :=
  omap (λ e, match ev_Type e with
             | Created | Usage => Some e
             | Completed | Incomplete | ErrorEvent =>
                 Some (set_Finish Completed (mkFinish "stop_sequence" value "") e)
             | _ => None
             end) events.

(** The text before the first stop sequence, and the other events; [seg] is the text
    since the last event that is neither text nor the start of the stream, for a
    sequence does not run across such an event. *)
Fixpoint cut (sequences : list (list Z)) (values : list string) (seg : list Z)
    (events : list canonicalStreamEvent) : list Z * list canonicalStreamEvent :=
  let end_segment continue :=
    match firstMatch sequences seg with
    | Some (i, k) => (take i seg, after_stop (nth k values "") events)
    | None => (seg ++ fst continue, snd continue)
    end in
  match events with
  | [] => end_segment ([], [])
  | event :: rest =>
      match ev_Type event with
      | TextDelta => cut sequences values (seg ++ runes (ev_Delta event)) rest
      | Created => let '(text, more) := cut sequences values seg rest in (text, event :: more)
      | _ => end_segment (let '(text, more) := cut sequences values [] rest in (text, event :: more))
      end
  end.

(** ** Lemmas on the search *)

Lemma starts_with_app l d s :
  (length s ≤ length l)%nat → starts_with (l ++ d) s = starts_with l s.
Proof.
  revert l. induction s as [|x s IH]; intros [|y l] Hl; cbn in *; try done; [lia|].
  by rewrite IH by lia.
Qed.

Lemma matchAt_app sequences l d :
  Forall (λ s, (length s ≤ length l)%nat) sequences →
  matchAt sequences (l ++ d) = matchAt sequences l.
Proof.
  induction 1 as [|s rest Hs _ IH]; [done|]. cbn. by rewrite starts_with_app, IH.
Qed.

Lemma matchAt_Some_grow sequences l d k :
  matchAt sequences l = Some k → is_Some (matchAt sequences (l ++ d)).
Proof.
  revert k. induction sequences as [|s rest IH]; intros k; cbn; [done|].
  destruct (starts_with l s) eqn:E.
  - intros _. assert (starts_with (l ++ d) s = true) as ->; [|done].
    clear IH. revert l E. induction s as [|x s IH]; intros [|y l]; cbn; try done.
    intros [-> ?]%andb_true_iff. by apply IH.
  - destruct (starts_with (l ++ d) s); [done|]. destruct (matchAt rest l) eqn:E'; [|done].
    intros _. destruct (IH _ eq_refl) as [? ->]. done.
Qed.

Lemma firstMatch_grow sequences l d :
  firstMatch sequences (l ++ d) = None → firstMatch sequences l = None.
Proof.
  induction l as [|x l IH]; [done|]. cbn [app firstMatch].
  destruct (matchAt sequences (x :: l)) eqn:E.
  { apply (matchAt_Some_grow _ _ d) in E as [? E]. cbn [app] in E. by rewrite E. }
  destruct (matchAt sequences (x :: l ++ d)); [done|].
  destruct (firstMatch sequences (l ++ d)) as [[? ?]|]; [done|]. intros _. by rewrite IH.
Qed.

(** Text that went out without a match needs not be searched again, if what is left is
    as long as a sequence less one. *)
Lemma firstMatch_emitted sequences em p d :
  em = [] ∨ Forall (λ s, (length s ≤ S (length p))%nat) sequences →
  firstMatch sequences (em ++ p) = None →
  firstMatch sequences (em ++ p ++ d)
  = '(i, k) ← firstMatch sequences (p ++ d); Some ((length em + i)%nat, k).
Proof.
  intros Hlen Hnone. induction em as [|x em IH].
  { cbn [app length Nat.add]. by destruct (firstMatch sequences (p ++ d)) as [[??]|]. }
  destruct Hlen as [?|Hlen]; [done|]. cbn [app firstMatch] in *.
  destruct (matchAt sequences (x :: em ++ p)) eqn:E; [done|].
  destruct (firstMatch sequences (em ++ p)) as [[??]|] eqn:E'; [done|].
  assert (Heq : matchAt sequences ((x :: em ++ p) ++ d) = None).
  { rewrite matchAt_app; [done|]. eapply list.Forall_impl; [exact Hlen|]. cbn. rewrite length_app. lia. }
  cbn [app] in Heq. rewrite <- app_assoc in Heq. rewrite Heq, IH by auto.
  by destruct (firstMatch sequences (p ++ d)) as [[??]|].
Qed.

Lemma firstMatch_bound sequences l i k : firstMatch sequences l = Some (i, k) → (i < length l)%nat.
Proof.
  revert i k. induction l as [|x l IH]; intros i k; cbn; [done|].
  destruct (matchAt sequences (x :: l)); [intros; simplify_eq; lia|].
  destruct (firstMatch sequences l) as [[i' k']|] eqn:E; [|done]. intros; simplify_eq/=.
  specialize (IH _ _ eq_refl). lia.
Qed.

Lemma firstMatch_short sequences l :
  Forall (λ s, (length l < length s)%nat) sequences → firstMatch sequences l = None.
Proof.
  assert (Hm : ∀ l, Forall (λ s, (length l < length s)%nat) sequences → matchAt sequences l = None).
  { clear. intros l. induction 1 as [|s rest Hs _ IH]; [done|]. cbn. rewrite IH.
    assert (starts_with l s = false) as ->; [|done].
    clear IH. revert l Hs. induction s as [|x s IH]; intros [|y l]; cbn; try lia; try done.
    intros ?. rewrite IH by lia. apply andb_false_r. }
  induction l as [|x l IH]; intros Hl; [done|]. cbn [firstMatch]. rewrite Hm by done.
  rewrite IH; [done|]. eapply list.Forall_impl; [exact Hl|]. cbn. lia.
Qed.

(** No sequence lies inside another with something after it: a single sequence does
    not, nor do sequences none of which contains another. *)
Definition independent (sequences : list (list Z)) : Prop :=
  ∀ s t i, s ∈ sequences → t ∈ sequences → starts_with (drop i s) t = true →
  (length s ≤ i + length t)%nat.

Lemma starts_with_prefix l s : starts_with l s = true ↔ ∃ r, l = s ++ r.
Proof.
  revert l. induction s as [|x s IH]; intros l; cbn; [split; [by exists l|done]|].
  destruct l as [|y l]; [split; [done|by intros [? ?]]|]. rewrite andb_true_iff, IH, Z.eqb_eq.
  split; [intros [-> [r ->]]; by exists r|intros [r [= -> ->]]; eauto].
Qed.

Lemma matchAt_witness sequences l k :
  matchAt sequences l = Some k → ∃ t, t ∈ sequences ∧ starts_with l t = true.
Proof.
  revert k. induction sequences as [|s rest IH]; intros k; cbn; [done|].
  destruct (starts_with l s) eqn:E; [intros _; exists s; split; [by left|done]|].
  destruct (matchAt rest l) eqn:E'; [|done]. intros _. destruct (IH _ eq_refl) as (t & ? & ?).
  exists t. split; [by right|done].
Qed.

Lemma firstMatch_witness sequences l i k :
  firstMatch sequences l = Some (i, k) → ∃ t, t ∈ sequences ∧ starts_with (drop i l) t = true.
Proof.
  revert i k. induction l as [|x l IH]; intros i k; cbn [firstMatch]; [done|].
  destruct (matchAt sequences (x :: l)) eqn:E.
  { intros; simplify_eq. by apply matchAt_witness in E. }
  destruct (firstMatch sequences l) as [[i' k']|] eqn:E'; [|done]. intros; simplify_eq/=. by eapply IH.
Qed.

(** A sequence that needs the text [d] to match at the front of [l ++ d] contains every
    sequence that lies in [l]. *)
Lemma starts_with_inside sequences l d s t i :
  independent sequences → s ∈ sequences → t ∈ sequences →
  starts_with (drop i l) t = true → (i ≤ length l)%nat →
  starts_with (l ++ d) s = starts_with l s.
Proof.
  intros Hind Hs Ht Hi Hil. destruct (Nat.le_gt_cases (length s) (length l)) as [|Hlen].
  { by apply starts_with_app. }
  assert (starts_with l s = false) as ->.
  { apply not_true_iff_false. intros [r ->]%starts_with_prefix. rewrite length_app in Hlen. lia. }
  apply not_true_iff_false. intros [r Hr]%starts_with_prefix.
  assert (∃ m, s = l ++ m) as [m ->].
  { exists (drop (length l) s). apply (f_equal (take (length s))) in Hr.
    rewrite (take_app_length s r), take_app_ge in Hr by lia.
    rewrite <- Hr at 2. by rewrite drop_app_length. }
  apply starts_with_prefix in Hi as [r' Hi].
  assert (Hin : starts_with (drop i (l ++ m)) t = true).
  { apply starts_with_prefix. exists (r' ++ m). rewrite drop_app_le, Hi by done. by rewrite app_assoc. }
  apply (Hind _ _ _ Hs Ht) in Hin. apply (f_equal length) in Hi.
  rewrite length_drop, length_app in Hi. lia.
Qed.

Lemma firstMatch_stable sequences l d i k :
  independent sequences → firstMatch sequences l = Some (i, k) →
  firstMatch sequences (l ++ d) = Some (i, k).
Proof.
  intros Hind. revert i k. induction l as [|x l IH]; intros i k Hfm; [done|].
  pose proof (firstMatch_witness _ _ _ _ Hfm) as (t & Ht & Hit).
  pose proof (firstMatch_bound _ _ _ _ Hfm) as Hb.
  assert (Hm : matchAt sequences (x :: l ++ d) = matchAt sequences (x :: l)).
  { change (x :: l ++ d) with ((x :: l) ++ d). clear Hfm IH.
    assert (Hsub : ∀ s, s ∈ sequences → s ∈ sequences) by done. revert Hsub.
    generalize sequences at 1 3 4. intros seqs. induction seqs as [|s rest IHs]; intros Hsub; [done|].
    cbn [matchAt]. rewrite (starts_with_inside sequences _ d s t i), IHs; try done; [..|lia].
    - intros s' ?. apply Hsub. by right.
    - apply Hsub. by left. }
  cbn [app firstMatch] in *. rewrite Hm. destruct (matchAt sequences (x :: l)); [done|].
  destruct (firstMatch sequences l) as [[i' k']|] eqn:E; [|done]. by rewrite (IH _ _ eq_refl).
Qed.

Lemma cut_matched sequences values seg events i k :
  independent sequences → firstMatch sequences seg = Some (i, k) →
  cut sequences values seg events = (take i seg, after_stop (nth k values "") events).
Proof.
  intros Hind. revert seg. induction events as [|e rest IH]; intros seg Hfm; cbn [cut]; [by rewrite Hfm|].
  destruct (ev_Type e) eqn:E; rewrite ?Hfm; try done.
  - rewrite IH by done. cbn. by rewrite E.
  - rewrite IH by by apply firstMatch_stable.
    rewrite take_app_le by (apply firstMatch_bound in Hfm; lia). cbn. by rewrite E.
Qed.

(** ** The invariant of the filter

    Of the segment so far, [em] went out and the rest is pending. *)

Definition short (f : canonicalStopSequenceFilter) : Prop :=
  Forall (λ s, (length s ≤ sf_maxLength f)%nat) (sf_sequences f) ∧
  length (sf_sequences f) = length (sf_sequenceValues f).

Record searching (f : canonicalStopSequenceFilter) (em seg : list Z) : Prop := mkSearching {
  sg_seg : seg = em ++ sf_pending f;
  sg_running : sf_stopped f = false;
  sg_valid : Forall (λ r, valid_rune r = true) (sf_pending f);
  sg_none : firstMatch (sf_sequences f) seg = None;
  sg_keep : em = [] ∨ (sf_maxLength f ≤ S (length (sf_pending f)))%nat;
  sg_template : sf_pending f ≠ [] → ev_Type (sf_template f) = TextDelta
}.

Lemma text_of_app l1 l2 : text_of (l1 ++ l2) = text_of l1 ++ text_of l2.
Proof. apply flat_map_app. Qed.

Lemma others_app l1 l2 : others (l1 ++ l2) = others l1 ++ others l2.
Proof. apply List.filter_app. Qed.

Lemma text_of_other e l : ev_Type e ≠ TextDelta → text_of (e :: l) = text_of l.
Proof. intros He. unfold text_of, is_text. cbn [flat_map]. by rewrite bool_decide_eq_false_2. Qed.

Lemma others_other e l : ev_Type e ≠ TextDelta → others (e :: l) = e :: others l.
Proof. intros He. unfold others, is_text. cbn [List.filter]. by rewrite bool_decide_eq_false_2. Qed.

(** A prefix that goes out is text, and nothing but its pending runes changes. *)
Lemma emitPrefix_spec n f :
  Forall (λ r, valid_rune r = true) (sf_pending f) →
  (sf_pending f ≠ [] → ev_Type (sf_template f) = TextDelta) →
  let '(out, f') := emitPrefix n f in
  text_of out = take n (sf_pending f) ∧ others out = []
  ∧ f' = set_pending (drop n (sf_pending f)) (sf_template f') f
  ∧ (drop n (sf_pending f) ≠ [] → sf_template f' = sf_template f).
Proof.
  intros Hv Ht. unfold emitPrefix. destruct (bool_decide (n = O)) eqn:En; bool_to_prop.
  { subst n. cbn [orb]. rewrite drop_0. by destruct f. }
  destruct (bool_decide (sf_pending f = [])) eqn:Ep; bool_to_prop; cbn [orb].
  { rewrite Ep, take_nil, drop_nil. split_and!; try done. destruct f. cbn in *. by subst. }
  unfold text_of, others, is_text. cbn [flat_map List.filter set_Delta ev_Type ev_Delta].
  rewrite Ht, bool_decide_refl by done. cbn [negb]. rewrite app_nil_r.
  rewrite runes_of_runes by by apply Forall_take.
  split_and!; [done|done|done|]. intros Hd. cbn [sf_template set_pending].
  by rewrite bool_decide_eq_false_2.
Qed.

Lemma Flush_spec f em seg :
  searching f em seg →
  let '(out, f') := Flush f in
  text_of out = sf_pending f ∧ others out = [] ∧ searching f' [] []
  ∧ sf_sequences f' = sf_sequences f ∧ sf_sequenceValues f' = sf_sequenceValues f
  ∧ sf_maxLength f' = sf_maxLength f.
Proof.
  intros [Hseg Hrun Hv Hnone Hkeep Ht]. unfold Flush. rewrite Hrun, orb_false_r.
  destruct (bool_decide (sf_pending f = [])) eqn:Ep; bool_to_prop.
  { split_and!; try done. constructor; rewrite ?Ep; auto. }
  pose proof (emitPrefix_spec (length (sf_pending f)) f Hv Ht) as He.
  destruct (emitPrefix _ _) as [out f']. destruct He as (Htext & Ho & Hf' & _).
  rewrite take_ge in Htext by done. rewrite drop_ge in Hf' by done. rewrite Hf'.
  split_and!; try done. by constructor; auto.
Qed.

(** A piece of text: what goes out is what the search of the longer segment allows. *)
Lemma applyText_spec f em seg event :
  short f → searching f em seg → ev_Type event = TextDelta → ev_Delta event ≠ "" →
  let '(out, f') := applyEvent f event in
  let seg' := seg ++ runes (ev_Delta event) in
  others out = [] ∧ sf_sequences f' = sf_sequences f ∧ sf_sequenceValues f' = sf_sequenceValues f
  ∧ sf_maxLength f' = sf_maxLength f ∧
  match firstMatch (sf_sequences f) seg' with
  | Some (i, k) => em ++ text_of out = take i seg' ∧ sf_stopped f' = true ∧ sf_pending f' = []
                   ∧ sf_matched f' = nth k (sf_sequenceValues f) ""
  | None => searching f' (em ++ text_of out) seg'
  end.
Proof.
  intros [Hshort _] [Hseg Hrun Hv Hnone Hkeep Ht] Htype Hd. unfold applyEvent. rewrite Htype, Hrun.
  rewrite bool_decide_eq_false_2 by done. cbn [orb]. cbv zeta.
  set (p := sf_pending f) in *. set (d := runes (ev_Delta event)).
  set (template := if bool_decide (p = []) then event else sf_template f).
  assert (Htm : ev_Type template = TextDelta).
  { unfold template. destruct (bool_decide (p = [])) eqn:E; bool_to_prop; auto. }
  set (g := set_pending (p ++ d) template f). cbn [sf_sequences sf_maxLength sf_pending set_pending g].
  assert (Hv' : Forall (λ r, valid_rune r = true) (p ++ d)).
  { apply Forall_app. split; [done|apply runes_valid]. }
  assert (Hfm : firstMatch (sf_sequences f) (seg ++ d)
    = '(i, k) ← firstMatch (sf_sequences f) (p ++ d); Some ((length em + i)%nat, k)).
  { rewrite Hseg, <- app_assoc. apply firstMatch_emitted; [|by rewrite <- Hseg].
    destruct Hkeep as [?|Hkeep]; [by left|right]. eapply list.Forall_impl; [exact Hshort|]. cbn. lia. }
  rewrite Hfm. destruct (firstMatch (sf_sequences f) (p ++ d)) as [[i k]|] eqn:E; cbn [mbind option_bind].
  - pose proof (emitPrefix_spec i g Hv' (λ _, Htm)) as He.
    destruct (emitPrefix i g) as [out f']. destruct He as (Htext & Ho & -> & _).
    cbn. split_and!; try done. rewrite Htext, Hseg, <- app_assoc. cbn [g set_pending sf_pending].
    by rewrite take_app_add.
  - assert (Hnone' : firstMatch (sf_sequences f) (seg ++ d) = None) by (by rewrite Hfm).
    destruct (Nat.ltb_spec (sf_maxLength f - 1) (length (p ++ d))) as [Hl|Hl].
    + pose proof (emitPrefix_spec (length (p ++ d) - (sf_maxLength f - 1)) g Hv' (λ _, Htm)) as He.
      destruct (emitPrefix _ g) as [out f']. destruct He as (Htext & Ho & Hf' & Htmpl).
      cbn [g set_pending sf_pending] in Htext, Hf', Htmpl.
      rewrite Hf'. cbn. split_and!; try done. constructor; cbn; try done.
      * by rewrite Htext, Hseg, <- !app_assoc, take_drop.
      * by apply Forall_drop.
      * right. rewrite length_drop. lia.
      * intros Hne. by rewrite Htmpl.
    + cbn. split_and!; try done. constructor; cbn; try done.
      * by rewrite app_nil_r, Hseg, <- app_assoc.
      * rewrite app_nil_r. destruct Hkeep; [by left|right]. rewrite length_app. lia.
Qed.

(** ** The filter and the reference *)

Lemma Apply_app f l1 l2 :
  Apply f (l1 ++ l2)
  = let '(out, f) := Apply f l1 in let '(more, f) := Apply f l2 in (out ++ more, f).
Proof.
  revert f. induction l1 as [|e l1 IH]; intros f; cbn [app Apply]; [by destruct (Apply f l2)|].
  destruct (applyEvent f e) as [out g]. rewrite IH. destruct (Apply g l1) as [out1 g1].
  destruct (Apply g1 l2) as [out2 g2]. by rewrite app_assoc.
Qed.

(** However the events are cut into lines, the filter does the same. *)
Lemma applyLines_concat f lines :
  applyLines f lines
  = let '(out, f) := Apply f (List.concat lines) in let '(more, f) := Flush f in (out ++ more, f).
Proof.
  revert f. induction lines as [|events rest IH]; intros f; cbn [applyLines List.concat Apply].
  { by destruct (Flush f). }
  rewrite Apply_app. destruct (Apply f events) as [out g]. rewrite IH.
  destruct (Apply g (List.concat rest)) as [out1 g1]. destruct (Flush g1) as [out2 g2].
  by rewrite app_assoc.
Qed.

Lemma Apply_stopped f events :
  sf_stopped f = true → sf_pending f = [] →
  ∃ out, Apply f events = (out, f) ∧ Flush f = ([], f) ∧ text_of out = []
    ∧ others out = after_stop (sf_matched f) events.
Proof.
  intros Hs Hp. assert (Hf : Flush f = ([], f)) by (unfold Flush; by rewrite Hp).
  induction events as [|e rest (out & IH & _ & Ht & Ho)]; [by exists []|].
  cbn [Apply]. unfold applyEvent. rewrite Hf, Hs.
  destruct (ev_Type e) eqn:E; cbn [orb app]; rewrite IH;
    eexists; (split; [reflexivity|]); (split; [done|]);
    unfold text_of, others, after_stop, is_text in *; cbn; rewrite ?E, ?bool_decide_refl; cbn;
    rewrite ?Ht, ?Ho; done.
Qed.

Lemma Apply_cut f em seg events :
  independent (sf_sequences f) → short f → searching f em seg →
  let '(out, f1) := Apply f events in
  let '(last, f2) := Flush f1 in
  em ++ text_of (out ++ last) = fst (cut (sf_sequences f) (sf_sequenceValues f) seg events)
  ∧ others (out ++ last) = snd (cut (sf_sequences f) (sf_sequenceValues f) seg events).
Proof.
  revert f em seg. induction events as [|e rest IH]; intros f em seg Hind Hshort Hs.
  { cbn [Apply cut]. pose proof (Flush_spec f em seg Hs) as Hf.
    destruct (Flush f) as [last f2]. destruct Hf as (Ht & Ho & _). rewrite (sg_none _ _ _ Hs).
    cbn [app fst snd]. by rewrite Ht, Ho, app_nil_r, (sg_seg _ _ _ Hs). }
  cbn [Apply].
  (* an event that ends the segment of a running filter *)
  assert (Hother : ev_Type e ≠ TextDelta → ev_Type e ≠ Created →
    applyEvent f e = (let '(out, f) := Flush f in (out ++ [e], f)) →
    let '(out, f1) := let '(out, f0) := applyEvent f e in
                      let '(more, f1) := Apply f0 rest in (out ++ more, f1) in
    let '(last, f2) := Flush f1 in
    em ++ text_of (out ++ last) = fst (cut (sf_sequences f) (sf_sequenceValues f) seg (e :: rest))
    ∧ others (out ++ last) = snd (cut (sf_sequences f) (sf_sequenceValues f) seg (e :: rest))).
  { intros Hnt Hnc ->. pose proof (Flush_spec f em seg Hs) as Hf.
    destruct (Flush f) as [out0 f0]. destruct Hf as (Ht & Ho & Hs' & Hq & Hv & Hm).
    assert (Hshort' : short f0) by (unfold short in *; by rewrite Hq, Hv, Hm).
    rewrite <- Hq in Hind. specialize (IH f0 [] [] Hind Hshort' Hs'). destruct (Apply f0 rest) as [out1 f1].
    destruct (Flush f1) as [last f2]. rewrite Hq, Hv in IH. destruct IH as [IHt IHo].
    rewrite <- !app_assoc, !text_of_app, !others_app, Ht, Ho.
    rewrite text_of_app in IHt. rewrite others_app in IHo. cbn [app] in IHt.
    assert (Hcut : cut (sf_sequences f) (sf_sequenceValues f) seg (e :: rest)
      = (seg ++ fst (cut (sf_sequences f) (sf_sequenceValues f) [] rest),
         e :: snd (cut (sf_sequences f) (sf_sequenceValues f) [] rest))).
    { cbn [cut]. rewrite (sg_none _ _ _ Hs).
      destruct (cut _ _ [] rest). by destruct (ev_Type e). }
    rewrite Hcut. cbn [fst snd]. rewrite <- IHt, <- IHo, (sg_seg _ _ _ Hs).
    rewrite text_of_other, others_other by done. by rewrite <- app_assoc. }
  assert (Hrun : sf_stopped (snd (Flush f)) = false).
  { pose proof (Flush_spec f em seg Hs) as Hf. destruct (Flush f). by destruct Hf as (_ & _ & [] & _). }
  destruct (ev_Type e) eqn:E;
    try (apply Hother; [done|done|]; unfold applyEvent; rewrite E, ?(sg_running _ _ _ Hs);
         destruct (Flush f); cbn in Hrun; by rewrite ?Hrun).
  - (* the start of the stream *)
    unfold applyEvent. rewrite E. cbv beta iota. specialize (IH f em seg Hind Hshort Hs).
    destruct (Apply f rest) as [out1 f1]. destruct (Flush f1) as [last f2]. cbn [cut]. rewrite E.
    destruct (cut _ _ seg rest) as [text more]. cbn [fst snd] in *. destruct IH as [<- <-].
    cbn [app]. by rewrite text_of_other, others_other by congruence.
  - (* a piece of text *)
    cbn [cut]. rewrite E. destruct (decide (ev_Delta e = "")) as [Hd|Hd].
    { unfold applyEvent. rewrite E, Hd, (sg_running _ _ _ Hs), bool_decide_refl.
      cbn [orb]. specialize (IH f em seg Hind Hshort Hs). change (runes "") with (@nil Z). rewrite app_nil_r.
      destruct (Apply f rest) as [out1 f1]. cbv beta iota in *. by destruct (Flush f1) as [last f2]. }
    pose proof (applyText_spec f em seg e Hshort Hs E Hd) as Ht.
    destruct (applyEvent f e) as [out0 f0]. cbv zeta in Ht. destruct Ht as (Ho & Hq & Hv & Hm & Ht).
    destruct (firstMatch (sf_sequences f) (seg ++ runes (ev_Delta e))) as [[i k]|] eqn:Efm.
    + destruct Ht as (Ht & Hst & Hp & Hmt).
      destruct (Apply_stopped f0 rest Hst Hp) as (out1 & -> & -> & Ht1 & Ho1).
      rewrite (cut_matched _ _ _ _ i k) by done.
      by rewrite app_nil_r, text_of_app, others_app, Ho, Ht1, app_nil_r, Ht, Ho1, Hmt.
    + assert (Hshort' : short f0) by (unfold short in *; by rewrite Hq, Hv, Hm).
      rewrite <- Hq in Hind. specialize (IH f0 (em ++ text_of out0) _ Hind Hshort' Ht). rewrite Hq, Hv in IH.
      destruct (Apply f0 rest) as [out1 f1]. destruct (Flush f1) as [last f2].
      rewrite <- app_assoc, text_of_app, others_app, Ho. by rewrite <- !app_assoc in IH.
Qed.

Lemma new_filter_short values f :
  newCanonicalStopSequenceFilter values = Some f →
  short f ∧ sf_pending f = [] ∧ sf_stopped f = false
  ∧ ∀ s, s ∈ sf_sequences f ↔ ∃ v, v ∈ values ∧ runes v = s ∧ s ≠ [].
Proof.
  unfold newCanonicalStopSequenceFilter.
  assert (Hinv : ∀ values g, short g → sf_pending g = [] → sf_stopped g = false →
    sf_sequences g = map runes (sf_sequenceValues g) →
    let g' := fold_left addSequence values g in
    short g' ∧ sf_pending g' = [] ∧ sf_stopped g' = false
    ∧ ∀ s, s ∈ sf_sequences g' ↔ s ∈ sf_sequences g ∨ ∃ v, v ∈ values ∧ runes v = s ∧ s ≠ []).
  { clear. induction values as [|v values IH]; intros g Hg Hp Hs Hm; cbn [fold_left].
    { split_and!; try done. intros s. split; [by left|]. intros [|(v & Hv & _)]; [done|].
      by apply not_elem_of_nil in Hv. }
    cbv zeta. destruct (bool_decide (runes v = []) || bool_decide (v ∈ sf_sequenceValues g)) eqn:E.
    - assert (addSequence g v = g) as -> by (unfold addSequence; by rewrite E).
      destruct (IH g Hg Hp Hs Hm) as (? & ? & ? & Hin). split_and!; try done. intros s.
      rewrite Hin. split; [intros [?|(v' & ? & ?)]; [by left|right; exists v'; split; [by right|done]]|].
      intros [?|(v' & [->|?]%elem_of_cons & Hr & Hne)]; [by left| |right; by exists v'].
      apply orb_true_iff in E as [E|E]; bool_to_prop; [congruence|]. left. rewrite Hm, <- Hr.
      apply list_elem_of_fmap. by exists v.
    - assert (addSequence g v = mkFilter (sf_sequences g ++ [runes v]) (sf_sequenceValues g ++ [v])
        (Nat.max (sf_maxLength g) (length (runes v))) (sf_pending g) (sf_template g) (sf_matched g)
        (sf_stopped g)) as -> by (unfold addSequence; by rewrite E).
      apply orb_false_iff in E as [E1 E2]. bool_to_prop.
      destruct (IH (mkFilter (sf_sequences g ++ [runes v]) (sf_sequenceValues g ++ [v])
        (Nat.max (sf_maxLength g) (length (runes v))) (sf_pending g) (sf_template g) (sf_matched g)
        (sf_stopped g))) as (? & ? & ? & Hin); try done.
      + destruct Hg as [Hg Hl]. split; cbn; [|by rewrite !length_app, Hl].
        apply Forall_app. split; [|constructor; [lia|constructor]].
        eapply list.Forall_impl; [exact Hg|]. cbn. lia.
      + cbn. by rewrite map_app, Hm.
      + split_and!; try done. intros s. rewrite Hin. cbn. rewrite elem_of_app, list_elem_of_singleton.
        split.
        * intros [[?| ->]|(v' & ? & ?)]; [by left|right; exists v; split; [by left|done]|
            right; exists v'; split; [by right|done]].
        * intros [?|(v' & [->|?]%elem_of_cons & Hr & Hne)]; [by left; left|left; by right|right; by exists v']. }
  destruct (bool_decide _) eqn:E; [done|]. intros [= <-].
  destruct (Hinv values (mkFilter [] [] 0 [] emptyEvent "" false)) as (? & ? & ? & Hin); try done.
  split_and!; try done. intros s. rewrite Hin. cbn. split; [intros [H'|?]; [by apply not_elem_of_nil in H'|done]|by right].
Qed.

(** C22: Take stop sequences none of which lies inside another with something after it
    ([independent]; see [nested_stop_sequences_depend_on_pieces]).  However the text between
    two events that are neither text nor the start of the stream is cut into pieces, the
    filter lets through exactly the text before the first stop sequence in it, as a search
    of that text finds it, and tells the end of the stream which one it was; a sequence that
    runs across such an event is not one ([usage_hides_a_stop_sequence]).  Without one,
    everything goes through unchanged but for the cuts. *)
Theorem stop_filter_is_search (values : list string) (f : canonicalStopSequenceFilter)
    (lines : list (list canonicalStreamEvent))
    (Hnew : newCanonicalStopSequenceFilter values = Some f)
    (Hindependent : independent (sf_sequences f)) :
  let out := fst (applyLines f lines) in
  text_of out = fst (cut (sf_sequences f) (sf_sequenceValues f) [] (List.concat lines))
  ∧ others out = snd (cut (sf_sequences f) (sf_sequenceValues f) [] (List.concat lines)).
Proof.
  cbv zeta. rewrite applyLines_concat.
  destruct (new_filter_short _ _ Hnew) as (Hshort & Hp & Hrun & _).
  assert (Hs : searching f [] []) by (constructor; rewrite ?Hp; auto; done).
  pose proof (Apply_cut f [] [] (List.concat lines) Hindependent Hshort Hs) as Hcut.
  destruct (Apply f _) as [out f1]. by destruct (Flush f1) as [last f2].
Qed.

(** A single stop sequence is independent. *)
Lemma independent_single s : independent [s].
Proof. intros ? ? i ->%list_elem_of_singleton ->%list_elem_of_singleton _. lia. Qed.

(** ** Concrete streams *)

Definition deltas (pieces : list string) : list (list canonicalStreamEvent) :=
  map (λ p, [textEvent noMeta p false]) pieces ++ [[finishEvent Completed noMeta noFinish]].

Definition filtered (values pieces : list string) : list Z * list string :=
  match newCanonicalStopSequenceFilter values with
  | Some f => let out := fst (applyLines f (deltas pieces)) in
              (text_of out, map (λ e, ev_StopSequence (ev_Finish e)) (others out))
  | None => ([], [])
  end.

Lemma stop_filter_is_search_witness :
  let f := default (mkFilter [] [] 0 [] emptyEvent "" false)
             (newCanonicalStopSequenceFilter ["END"; ""; "END"]) in
  text_of (fst (applyLines f (deltas ["one E"; "N"; "D two"]))) = runes "one "
  ∧ map ev_Type (others (fst (applyLines f (deltas ["one E"; "N"; "D two"])))) = [Completed].
Proof.
  set (f := default _ _).
  destruct (stop_filter_is_search ["END"; ""; "END"] f (deltas ["one E"; "N"; "D two"])) as [Ht Ho];
    [vm_compute; reflexivity|exact (independent_single (runes "END"))|].
  cbv zeta in *. rewrite Ht, Ho. split; vm_compute; reflexivity.
Defined.

(** With a sequence inside another the result depends on the pieces: the text [abcd],
    whole, stops at [abcd] and lets nothing through; in the pieces [abc] and [d] it stops
    at [bc] and lets [a] through. *)
Theorem nested_stop_sequences_depend_on_pieces :
  filtered ["abcd"; "bc"] ["abcd"] = ([], ["abcd"])
  ∧ filtered ["abcd"; "bc"] ["abc"; "d"] = (runes "a", ["bc"]).
Proof. vm_compute. by split. Qed.

(** A report of usage between two pieces ends the search: the stop sequence that runs
    across it is not seen. *)
Theorem usage_hides_a_stop_sequence :
  match newCanonicalStopSequenceFilter ["END"] with
  | Some f => text_of (fst (applyLines f
      [[textEvent noMeta "E" false; usageEvent noUsage]; [textEvent noMeta "ND" false]]))
      = runes "END"
  | None => False
  end.
Proof. vm_compute. reflexivity. Qed.
