(* ===== verification/AnthropicStream.v ===== *)
(** * The Anthropic stream encoder

    [anthropicMessagesStreamEncoder] of [gateway/protocol_canonical_stream.go], with the
    usage it reports ([gateway/protocol_anthropic_messages.go]): canonical events in,
    frames of the Messages API out.  What the frames mean to a client is the automaton
    [client_step]: the theorems say that a client accepts every stream the encoder
    writes and ends with exactly the text, the thinking and the tool calls of the events. *)

From S2P Require Import Prelude GoFloat Catalog Json Pricing StreamEvents.

(** ** The encoder *)

Record anthropicStreamToolCallState := mkAnthropicTool {
  at_Index : Z;
  at_CallID : string;
  at_Name : string;
  at_Arguments : string;
  at_Started : bool
}.

Record anthropicMessagesStreamEncoder := mkAnthropic {
  ae_responseID : string;
  ae_model : string;
  ae_createdAt : Z;
  ae_started : bool;
  ae_completed : bool;
  ae_nextIndex : Z;
  ae_textIndex : Z;
  ae_textStarted : bool;
  ae_textBuffer : string;
  ae_thinkingIndex : Z;
  ae_thinkingStarted : bool;
  ae_thinkingStopped : bool;
  ae_thinkingBuffer : string;
  ae_thinkingSignature : string;
  ae_toolCalls : gmap string anthropicStreamToolCallState;
  ae_toolCallOrder : list string
}.

(** [newAnthropicMessagesStreamEncoder]; the identifier is "msg_" and a new UUID, the
    instant the current second. *)
Definition newAnthropicMessagesStreamEncoder (responseID : string) (createdAt : Z)
    : anthropicMessagesStreamEncoder :=
  mkAnthropic responseID "" createdAt false false 0 (-1) false "" (-1) false false "" "" ∅ [].

(** Updates of single fields. *)
Definition ae_set_meta (responseID model : string) (createdAt : Z)
    (e : anthropicMessagesStreamEncoder) : anthropicMessagesStreamEncoder :=
  mkAnthropic responseID model createdAt (ae_started e) (ae_completed e) (ae_nextIndex e)
    (ae_textIndex e) (ae_textStarted e) (ae_textBuffer e) (ae_thinkingIndex e)
    (ae_thinkingStarted e) (ae_thinkingStopped e) (ae_thinkingBuffer e) (ae_thinkingSignature e)
    (ae_toolCalls e) (ae_toolCallOrder e).
Definition ae_set_progress (started completed : bool) (nextIndex : Z)
    (e : anthropicMessagesStreamEncoder) : anthropicMessagesStreamEncoder :=
  mkAnthropic (ae_responseID e) (ae_model e) (ae_createdAt e) started completed nextIndex
    (ae_textIndex e) (ae_textStarted e) (ae_textBuffer e) (ae_thinkingIndex e)
    (ae_thinkingStarted e) (ae_thinkingStopped e) (ae_thinkingBuffer e) (ae_thinkingSignature e)
    (ae_toolCalls e) (ae_toolCallOrder e).
Definition ae_set_text (index : Z) (started : bool) (buffer : string)
    (e : anthropicMessagesStreamEncoder) : anthropicMessagesStreamEncoder :=
  mkAnthropic (ae_responseID e) (ae_model e) (ae_createdAt e) (ae_started e) (ae_completed e)
    (ae_nextIndex e) index started buffer (ae_thinkingIndex e)
    (ae_thinkingStarted e) (ae_thinkingStopped e) (ae_thinkingBuffer e) (ae_thinkingSignature e)
    (ae_toolCalls e) (ae_toolCallOrder e).
Definition ae_set_thinking (index : Z) (started stopped : bool) (buffer signature : string)
    (e : anthropicMessagesStreamEncoder) : anthropicMessagesStreamEncoder :=
  mkAnthropic (ae_responseID e) (ae_model e) (ae_createdAt e) (ae_started e) (ae_completed e)
    (ae_nextIndex e) (ae_textIndex e) (ae_textStarted e) (ae_textBuffer e) index started stopped
    buffer signature (ae_toolCalls e) (ae_toolCallOrder e).
Definition ae_set_tools (toolCalls : gmap string anthropicStreamToolCallState)
    (order : list string) (e : anthropicMessagesStreamEncoder) : anthropicMessagesStreamEncoder :=
  mkAnthropic (ae_responseID e) (ae_model e) (ae_createdAt e) (ae_started e) (ae_completed e)
    (ae_nextIndex e) (ae_textIndex e) (ae_textStarted e) (ae_textBuffer e) (ae_thinkingIndex e)
    (ae_thinkingStarted e) (ae_thinkingStopped e) (ae_thinkingBuffer e) (ae_thinkingSignature e)
    toolCalls order.

Definition take_index (e : anthropicMessagesStreamEncoder) : anthropicMessagesStreamEncoder :=
  ae_set_progress (ae_started e) (ae_completed e) (ae_nextIndex e + 1) e.

Definition anthropicUsagePayload (usage : gatewayUsage) : any :=
  let usage := normalized usage in
  AObject
    ([("input_tokens", AInt (PromptTokens usage)); ("output_tokens", AInt (CompletionTokens usage));
      ("cache_creation_input_tokens", AInt (CacheCreationInputTokens usage));
      ("cache_read_input_tokens", AInt (CachedPromptTokens usage))]
     ++ if hasCacheCreationBreakdown usage
        then [("cache_creation", AObject
                 [("ephemeral_5m_input_tokens", AInt (CacheCreation5mInputTokens usage));
                  ("ephemeral_1h_input_tokens", AInt (CacheCreation1hInputTokens usage))])]
        else []).

(** What a tool call's metadata adds to its block. *)
Definition addToolCallMetadataToAnthropicBlock (block metadata : list (string * any))
    : list (string * any) :=
  let signature := firstNonEmptyGatewayString
    [rawStringFromAny (map_index metadata "thought_signature");
     rawStringFromAny (map_index metadata "thoughtSignature")] in
  if bool_decide (signature = "") then block
  else block ++ [("thought_signature", AString signature)].

Section encoder.
Context (spec : resolvedProtocolSpec)          (* of the protocol, for event names *)
        (candidateSpec : resolvedProtocolSpec) (* of the candidate, for reasoning policies *)
        (requireUsage : bool)
        (valid : string → bool)                (* [json.Valid] *)
        (order : list (string * any) → list (string * any)). (* of map iteration *)

Let EM := M anthropicMessagesStreamEncoder.
Open Scope stream_scope.

Definition ae_writeEvent (event : string) (payload : list (string * any)) : EM unit :=
  write (FEvent event (AObject payload)).

Definition ae_mergeMeta (event : canonicalStreamEvent) : EM unit :=
  modify (λ e,
    let meta := ev_Meta event in
    ae_set_meta (if bool_decide (ev_ID meta = "") then ae_responseID e else ev_ID meta)
      (if bool_decide (ev_Model meta = "") then ae_model e else ev_Model meta)
      (if 0 <? ev_CreatedAt meta then ev_CreatedAt meta else ae_createdAt e) e).

Definition sendMessageStartIfNeeded : EM unit :=
  let! e := get in
  if ae_started e then ret tt
  else
    modify (λ e, ae_set_progress true (ae_completed e) (ae_nextIndex e) e) ;;;
    let! capture := get_capture in
    let u := sc_usage capture in
    ae_writeEvent (protocolEventName spec Created "message_start")
      [("type", AString "message_start");
       ("message", AObject
          [("id", AString (responseIDOrFallback (ae_responseID e))); ("type", AString "message");
           ("role", AString "assistant"); ("model", AString (ae_model e)); ("content", AArray []);
           ("stop_reason", ANil); ("stop_sequence", ANil);
           ("usage", anthropicUsagePayload
              (mkUsage (PromptTokens u) 0 0 0 (CachedPromptTokens u) 0 0 0
                 (CacheCreationInputTokens u) 0 0 0 0 0 0 0 None))])].

Definition stopThinkingIfOpen : EM unit :=
  let! e := get in
  if negb (ae_thinkingStarted e) || ae_thinkingStopped e then ret tt
  else
    ae_writeEvent "content_block_stop"
      [("type", AString "content_block_stop"); ("index", AInt (ae_thinkingIndex e))] ;;;
    modify (λ e, ae_set_thinking (ae_thinkingIndex e) (ae_thinkingStarted e) true
                   (ae_thinkingBuffer e) (ae_thinkingSignature e) e).

Definition sendThinkingStartIfNeeded : EM unit :=
  sendMessageStartIfNeeded ;;;
  let! e := get in
  if ae_thinkingStarted e && negb (ae_thinkingStopped e) then ret tt
  else
    modify (λ e, ae_set_thinking (ae_nextIndex e) (ae_thinkingStarted e) (ae_thinkingStopped e)
                   (ae_thinkingBuffer e) (ae_thinkingSignature e) (take_index e)) ;;;
    let! e := get in
    ae_writeEvent "content_block_start"
      [("type", AString "content_block_start"); ("index", AInt (ae_thinkingIndex e));
       ("content_block", AObject [("type", AString "thinking"); ("thinking", AString "")])] ;;;
    modify (λ e, ae_set_thinking (ae_thinkingIndex e) true false (ae_thinkingBuffer e)
                   (ae_thinkingSignature e) e).

(** A [content_block_delta]; [event] names the frame in the registry. *)
Definition writeDelta (event : canonicalStreamEventType) (index : Z)
    (delta : list (string * any)) : EM unit :=
  ae_writeEvent (protocolEventName spec event "content_block_delta")
    [("type", AString "content_block_delta"); ("index", AInt index); ("delta", AObject delta)].

Definition sendTextDelta (delta : string) : EM unit :=
  if bool_decide (delta = "") then ret tt
  else
    sendMessageStartIfNeeded ;;;
    stopThinkingIfOpen ;;;
    let! e := get in
    (if ae_textStarted e then ret tt
     else
       modify (λ e, ae_set_text (ae_nextIndex e) (ae_textStarted e) (ae_textBuffer e) (take_index e)) ;;;
       let! e := get in
       ae_writeEvent "content_block_start"
         [("type", AString "content_block_start"); ("index", AInt (ae_textIndex e));
          ("content_block", AObject [("type", AString "text"); ("text", AString "")])] ;;;
       modify (λ e, ae_set_text (ae_textIndex e) true (ae_textBuffer e) e)) ;;;
    modify (λ e, ae_set_text (ae_textIndex e) (ae_textStarted e) (ae_textBuffer e +:+ delta) e) ;;;
    let! e := get in
    writeDelta TextDelta (ae_textIndex e)
      [("type", AString "text_delta"); ("text", AString delta)].

Definition sendReasoningEvent (event : canonicalStreamEvent) : EM unit :=
  let kind := ev_ReasoningKind (ev_Reasoning event) in
  let delta := ev_Delta event in
  if negb (bool_decide (reasoningPolicyForProtocol candidateSpec kind = "passthrough"))
  then modify_capture (appendStreamAnnotation (redactedReasoningAnnotation event))
  else if bool_decide (kind = "thinking") then
    if bool_decide (delta = "") then ret tt
    else
      sendThinkingStartIfNeeded ;;;
      modify (λ e, ae_set_thinking (ae_thinkingIndex e) (ae_thinkingStarted e)
                     (ae_thinkingStopped e) (ae_thinkingBuffer e +:+ delta) (ae_thinkingSignature e) e) ;;;
      let! e := get in
      writeDelta ReasoningDelta (ae_thinkingIndex e)
        [("type", AString "thinking_delta"); ("thinking", AString delta)]
  else if bool_decide (kind = "thinking_signature") then
    if bool_decide (delta = "") then ret tt
    else
      sendThinkingStartIfNeeded ;;;
      modify (λ e, ae_set_thinking (ae_thinkingIndex e) (ae_thinkingStarted e)
                     (ae_thinkingStopped e) (ae_thinkingBuffer e) (ae_thinkingSignature e +:+ delta) e) ;;;
      let! e := get in
      writeDelta ReasoningDelta (ae_thinkingIndex e)
        [("type", AString "signature_delta"); ("signature", AString delta)]
  else modify_capture (appendStreamAnnotation (redactedReasoningAnnotation event)).

(** The state of a call, a new one with the next index. *)
Definition toolCallState (callID : string) : EM anthropicStreamToolCallState :=
  let! e := get in
  match ae_toolCalls e !! callID with
  | Some state => ret state
  | None =>
      let state := mkAnthropicTool (ae_nextIndex e) callID "" "" false in
      modify (λ e, ae_set_tools (<[callID := state]> (ae_toolCalls e))
                     (ae_toolCallOrder e ++ [callID]) (take_index e)) ;;;
      ret state
  end.

(** The states are pointers: what is assigned to a field is seen in the map. *)
Definition putToolCall (state : anthropicStreamToolCallState) : EM unit :=
  modify (λ e, ae_set_tools (<[at_CallID state := state]> (ae_toolCalls e)) (ae_toolCallOrder e) e).

Definition ae_sendToolCallDelta (event : canonicalStreamEvent) : EM unit :=
  let call := ev_ToolCall event in
  let callID := TrimSpace (ev_ToolCallID call) in
  let delta := ev_ToolCallArgumentsDelta call in
  if bool_decide (callID = "") then ret tt
  else
    sendMessageStartIfNeeded ;;;
    stopThinkingIfOpen ;;;
    let! state := toolCallState callID in
    let name := if bool_decide (ev_ToolCallName call = "") then at_Name state
                else ev_ToolCallName call in
    let state := mkAnthropicTool (at_Index state) (at_CallID state) name (at_Arguments state)
                   (at_Started state) in
    putToolCall state ;;;
    (if at_Started state then ret tt
     else
       ae_writeEvent "content_block_start"
         [("type", AString "content_block_start"); ("index", AInt (at_Index state));
          ("content_block", AObject (addToolCallMetadataToAnthropicBlock
             [("type", AString "tool_use"); ("id", AString (at_CallID state));
              ("name", AString (at_Name state)); ("input", AObject [])]
             (ev_ToolCallMetadata call)))]) ;;;
    let state := mkAnthropicTool (at_Index state) (at_CallID state) (at_Name state)
                   (at_Arguments state) true in
    putToolCall state ;;;
    if bool_decide (delta = "") then ret tt
    else
      putToolCall (mkAnthropicTool (at_Index state) (at_CallID state) (at_Name state)
                     (at_Arguments state +:+ delta) true) ;;;
      writeDelta ToolCallDelta (at_Index state)
        [("type", AString "input_json_delta"); ("partial_json", AString delta)].

(** The states of the calls in the order they began. *)
Definition orderedToolCalls (e : anthropicMessagesStreamEncoder)
    : list anthropicStreamToolCallState :=
  omap (λ callID, ae_toolCalls e !! callID) (ae_toolCallOrder e).

Definition ae_validateToolCallArguments : EM unit :=
  let! e := get in
  for_each (orderedToolCalls e) (λ state,
    if StreamEvents.validateToolCallArguments valid (at_Arguments state) then ret tt
    else
      modify_capture (set_endReason "tool_call_arguments_invalid_json") ;;;
      fail ("tool call " +:+ nonEmptyString [at_CallID state; "unknown"]
              +:+ " arguments are not valid JSON")).

Definition ae_sendFinish (stopReason stopSequence : string) (completed : bool) (endReason : string)
    : EM unit :=
  let! e := get in
  if ae_completed e then ret tt
  else
    let! capture := get_capture in
    if requireUsage && negb (gatewayUsageAvailable (sc_usage capture)) then
      modify_capture (set_endReason "usage_missing") ;;;
      fail "stream completed without usage metadata"
    else
      ae_validateToolCallArguments ;;;
      sendMessageStartIfNeeded ;;;
      let! e := get in
      when (ae_textStarted e)
        (ae_writeEvent "content_block_stop"
           [("type", AString "content_block_stop"); ("index", AInt (ae_textIndex e))]) ;;;
      stopThinkingIfOpen ;;;
      let! e := get in
      for_each (orderedToolCalls e) (λ state,
        ae_writeEvent "content_block_stop"
          [("type", AString "content_block_stop"); ("index", AInt (at_Index state))]) ;;;
      let hasToolCalls := negb (bool_decide (orderedToolCalls e = [])) in
      let stopReason := if hasToolCalls && bool_decide (stopReason = "end_turn")
                        then "tool_use" else stopReason in
      ae_writeEvent "message_delta"
        [("type", AString "message_delta");
         ("delta", AObject [("stop_reason", AString stopReason);
                            ("stop_sequence", emptyToNil stopSequence)]);
         ("usage", anthropicUsagePayload (sc_usage capture))] ;;;
      let messageStopEventName := protocolEventName spec Completed "message_stop" in
      ae_writeEvent messageStopEventName [("type", AString messageStopEventName)] ;;;
      modify (λ e, ae_set_progress (ae_started e) true (ae_nextIndex e) e) ;;;
      modify_capture (set_done completed endReason).

Definition ae_EncodeEvent (event : canonicalStreamEvent) : EM unit :=
  ae_mergeMeta event ;;;
  match ev_Type event with
  | Created => sendMessageStartIfNeeded
  | TextDelta => sendTextDelta (ev_Delta event)
  | ToolCallDelta => ae_sendToolCallDelta event
  | ReasoningDelta => sendReasoningEvent event
  | Advanced => modify_capture (appendStreamAnnotation (advancedStreamAnnotation order event))
  | AnnotationAdded => modify_capture (appendStreamAnnotation (ev_Annotation event))
  | Usage => takeUsage event
  | Completed =>
      let stopSequence := ev_StopSequence (ev_Finish event) in
      ae_sendFinish (if bool_decide (stopSequence = "") then "end_turn" else "stop_sequence")
        stopSequence true "done"
  | Incomplete => ae_sendFinish "max_tokens" "" false "response_incomplete"
  | ErrorEvent => upstreamFailed event
  end.
End encoder.

(** ** What the frames mean to a client *)

Inductive blockKind :=
| BText
| BThinking
| BTool (id : string).

#[global] Instance blockKind_eq_dec : EqDecision blockKind.
Proof. solve_decision. Defined.

(** [b_text] is the text, the thinking or the JSON of the arguments. *)
Record block := mkBlock {
  b_kind : blockKind;
  b_text : string;
  b_signature : string;
  b_open : bool
}.

Inductive client :=
| CNew
| CStreaming (blocks : list block)
| CEnding (blocks : list block) (stopReason : string)
| CDone (blocks : list block) (stopReason : string).

Definition string_of (value : any) : string := rawStringFromAny value.

Definition openBlock (content : list (string * any)) : option block :=
  let kind := string_of (map_index content "type") in
  if bool_decide (kind = "text") then Some (mkBlock BText "" "" true)
  else if bool_decide (kind = "thinking") then Some (mkBlock BThinking "" "" true)
  else if bool_decide (kind = "tool_use")
  then Some (mkBlock (BTool (string_of (map_index content "id"))) "" "" true)
  else None.

(** A delta must be of its block's kind, and the block open. *)
Definition applyDelta (delta : list (string * any)) (b : block) : option block :=
  let kind := string_of (map_index delta "type") in
  let grow key := mkBlock (b_kind b) (b_text b +:+ string_of (map_index delta key)) (b_signature b) true in
  if negb (b_open b) then None
  else match b_kind b with
  | BText => if bool_decide (kind = "text_delta") then Some (grow "text") else None
  | BThinking =>
      if bool_decide (kind = "thinking_delta") then Some (grow "thinking")
      else if bool_decide (kind = "signature_delta")
      then Some (mkBlock BThinking (b_text b)
                   (b_signature b +:+ string_of (map_index delta "signature")) true)
      else None
  | BTool _ => if bool_decide (kind = "input_json_delta") then Some (grow "partial_json") else None
  end.

Definition closeBlock (b : block) : option block :=
  if b_open b then Some (mkBlock (b_kind b) (b_text b) (b_signature b) false) else None.

Definition block_at (payload : list (string * any)) : option nat :=
  match map_index payload "index" with
  | AInt i => if 0 <=? i then Some (Z.to_nat i) else None
  | _ => None
  end.

Definition update_block (f : block → option block) (payload : list (string * any))
    (blocks : list block) : option client :=
  i ← block_at payload; b ← blocks !! i; b' ← f b; Some (CStreaming (<[i := b']> blocks)).

(** None of [blocks] is of kind [k]. *)
Definition none_of (k : blockKind) (blocks : list block) : bool :=
  forallb (λ b, negb (bool_decide (b_kind b = k))) blocks.

(** A call has an identifier, which no other call of the message has. *)
Definition new_block (blocks : list block) (b : block) : bool :=
  match b_kind b with
  | BTool id => negb (bool_decide (id = "")) && bool_decide (TrimSpace id = id) && none_of (BTool id) blocks
  | _ => true
  end.

(** A delta goes to the last block of its kind. *)
Definition newest (blocks : list block) (payload : list (string * any)) : bool :=
  match i ← block_at payload; b ← blocks !! i; Some (none_of (b_kind b) (drop (S i) blocks)) with
  | Some last => last
  | None => false
  end.

Definition client_payload (c : client) (payload : list (string * any)) : option client :=
  let type := string_of (map_index payload "type") in
  match c with
  | CNew => if bool_decide (type = "message_start") then Some (CStreaming []) else None
  | CStreaming blocks =>
      if bool_decide (type = "content_block_start") then
        i ← block_at payload;
        b ← openBlock (as_map (map_index payload "content_block"));
        if bool_decide (i = length blocks) && new_block blocks b then Some (CStreaming (blocks ++ [b])) else None
      else if bool_decide (type = "content_block_delta") then
        if newest blocks payload
        then update_block (applyDelta (as_map (map_index payload "delta"))) payload blocks else None
      else if bool_decide (type = "content_block_stop") then
        update_block closeBlock payload blocks
      else if bool_decide (type = "message_delta") && forallb (λ b, negb (b_open b)) blocks
      then Some (CEnding blocks
                   (string_of (map_index (as_map (map_index payload "delta")) "stop_reason")))
      else None
  | CEnding blocks reason =>
      if bool_decide (type = "message_stop") then Some (CDone blocks reason) else None
  | CDone _ _ => None
  end.

Definition client_step (c : client) (fr : frame) : option client :=
  match fr with FEvent _ (AObject payload) => client_payload c payload | _ => None end.

Fixpoint client_run (c : client) (frames : list frame) : option client :=
  match frames with
  | [] => Some c
  | fr :: rest => c ← client_step c fr; client_run c rest
  end.

(** The content of a message. *)
Definition message_text (blocks : list block) : string :=
  String.concat "" (omap (λ b, if bool_decide (b_kind b = BText) then Some (b_text b) else None) blocks).
Definition message_thinking (blocks : list block) : string :=
  String.concat "" (omap (λ b, if bool_decide (b_kind b = BThinking) then Some (b_text b) else None) blocks).
Definition message_arguments (blocks : list block) (id : string) : option string :=
  head (omap (λ b, if bool_decide (b_kind b = BTool id) then Some (b_text b) else None) blocks).

(** ** The encoder's state and the client's blocks *)

Definition thinking_open (e : anthropicMessagesStreamEncoder) : bool :=
  ae_thinkingStarted e && negb (ae_thinkingStopped e).

(** What a block of the client is for the encoder. *)
Definition block_ok (e : anthropicMessagesStreamEncoder) (i : nat) (b : block) : Prop :=
  match b_kind b with
  | BText => ae_textStarted e = true ∧ ae_textIndex e = Z.of_nat i
             ∧ b = mkBlock BText (ae_textBuffer e) "" true
  | BThinking => b_open b = true → thinking_open e = true ∧ ae_thinkingIndex e = Z.of_nat i
  | BTool id => ∃ state, ae_toolCalls e !! id = Some state ∧ at_Index state = Z.of_nat i
                         ∧ b = mkBlock (BTool id) (at_Arguments state) "" true
  end.

Record rel (e : anthropicMessagesStreamEncoder) (bs : list block) (ct : content) : Prop := mkRel {
  r_next : ae_nextIndex e = Z.of_nat (length bs);
  r_blocks : ∀ i b, bs !! i = Some b → block_ok e i b;
  r_text : ae_textStarted e = true → ∃ i b, bs !! i = Some b ∧ b_kind b = BText;
  r_no_text : ae_textStarted e = false → ae_textBuffer e = "";
  r_thinking : thinking_open e = true → ∃ bs0 b,
    bs = bs0 ++ [b] ∧ b_kind b = BThinking ∧ b_open b = true ∧ ae_thinkingIndex e = Z.of_nat (length bs0);
  r_tools : ∀ id state, ae_toolCalls e !! id = Some state → at_CallID state = id
    ∧ at_Started state = true ∧ ∃ i b, bs !! i = Some b ∧ b_kind b = BTool id;
  r_order : NoDup (ae_toolCallOrder e) ∧ ∀ id, id ∈ ae_toolCallOrder e ↔ is_Some (ae_toolCalls e !! id);
  r_ct_text : ct_text ct = ae_textBuffer e;
  r_ct_thinking : ct_thinking ct = ae_thinkingBuffer e ∧ message_thinking bs = ae_thinkingBuffer e;
  r_ct_arguments : ct_arguments ct = at_Arguments <$> ae_toolCalls e
}.

Section rel.
Implicit Types (e : anthropicMessagesStreamEncoder) (bs : list block) (ct : content).

Lemma message_thinking_snoc bs b :
  message_thinking (bs ++ [b])
  = if bool_decide (b_kind b = BThinking) then message_thinking bs +:+ b_text b else message_thinking bs.
Proof.
  unfold message_thinking. rewrite omap_app.
  cbn. destruct (bool_decide _); [apply concat_snoc|by rewrite app_nil_r].
Qed.

Lemma block_at_text e bs ct :
  rel e bs ct → ae_textStarted e = true →
  0 ≤ ae_textIndex e ∧ bs !! Z.to_nat (ae_textIndex e) = Some (mkBlock BText (ae_textBuffer e) "" true).
Proof.
  intros Hr Ht. destruct (r_text _ _ _ Hr Ht) as (i & b & Hi & Hk).
  pose proof (r_blocks _ _ _ Hr i b Hi) as Hok. unfold block_ok in Hok. rewrite Hk in Hok.
  destruct Hok as (_ & -> & ->). rewrite Nat2Z.id. split; [lia|done].
Qed.

Lemma block_at_tool e bs ct id state :
  rel e bs ct → ae_toolCalls e !! id = Some state →
  0 ≤ at_Index state
  ∧ bs !! Z.to_nat (at_Index state) = Some (mkBlock (BTool id) (at_Arguments state) "" true).
Proof.
  intros Hr Hid. destruct (r_tools _ _ _ Hr _ _ Hid) as (_ & _ & i & b & Hi & Hk).
  pose proof (r_blocks _ _ _ Hr i b Hi) as Hok. unfold block_ok in Hok. rewrite Hk in Hok.
  destruct Hok as (state' & Hid' & Hix & ->). simplify_eq. rewrite Hix, Nat2Z.id. split; [lia|done].
Qed.

(** A new block at the end, all others as before. *)
Lemma snoc_blocks (P : nat → block → Prop) bs b :
  (∀ i b, bs !! i = Some b → P i b) → P (length bs) b →
  ∀ i b', (bs ++ [b]) !! i = Some b' → P i b'.
Proof. intros Hbs Hb i b' [[_ ?]|[-> <-]]%lookup_snoc_Some; [by apply Hbs|done]. Qed.

Lemma rel_meta e bs ct id model created :
  rel e bs ct → rel (ae_set_meta id model created e) bs ct.
Proof. by intros []. Qed.

Lemma rel_progress e bs ct started completed :
  rel e bs ct → rel (ae_set_progress started completed (ae_nextIndex e) e) bs ct.
Proof. by intros []. Qed.

Lemma rel_open_text e bs ct :
  rel e bs ct → ae_textStarted e = false → thinking_open e = false →
  rel (ae_set_text (ae_nextIndex e) true (ae_textBuffer e) (take_index e))
    (bs ++ [mkBlock BText "" "" true]) ct.
Proof.
  intros Hr Ht Hth. pose proof (r_no_text _ _ _ Hr Ht) as Hbuf. constructor; cbn.
  - rewrite (r_next _ _ _ Hr), length_app. cbn. lia.
  - apply snoc_blocks; [|by rewrite Hbuf, (r_next _ _ _ Hr)].
    intros i b Hi. pose proof (r_blocks _ _ _ Hr i b Hi) as Hok. unfold block_ok in *.
    destruct (b_kind b) eqn:Hk; [|done..]. destruct Hok. congruence.
  - intros _. exists (length bs), (mkBlock BText "" "" true). split; [|done].
    apply lookup_snoc_Some. by right.
  - done.
  - unfold thinking_open in *. cbn. by rewrite Hth.
  - intros id state Hid. destruct (r_tools _ _ _ Hr id state Hid) as (? & ? & i & b & Hi & ?).
    split_and!; try done. exists i, b. split; [|done]. by apply lookup_app_l_Some.
  - apply Hr.
  - apply Hr.
  - rewrite message_thinking_snoc. cbn. apply Hr.
  - apply Hr.
Qed.

(** A block in the middle is replaced by one of the same kind. *)
Lemma insert_blocks (P : nat → block → Prop) bs i b :
  (∀ j b', bs !! j = Some b' → j ≠ i → P j b') → P i b →
  ∀ j b', <[i := b]> bs !! j = Some b' → P j b'.
Proof.
  intros Hbs Hb j b' [(<- & <- & _)|[? ?]]%list_lookup_insert_Some; [done|by apply Hbs].
Qed.

Lemma message_thinking_insert bs i b b' :
  bs !! i = Some b → b_kind b' = b_kind b → b_kind b ≠ BThinking →
  message_thinking (<[i := b']> bs) = message_thinking bs.
Proof.
  intros Hi Hk Hn. unfold message_thinking. f_equal.
  rewrite <- (take_drop_middle bs i b Hi) at 2.
  rewrite (insert_take_drop bs i b') by by apply lookup_lt_Some in Hi.
  rewrite !omap_app. f_equal. cbn. rewrite Hk. by rewrite !bool_decide_eq_false_2.
Qed.

Lemma insert_kinds bs i b b' k :
  bs !! i = Some b → b_kind b' = b_kind b →
  (∃ j x, bs !! j = Some x ∧ b_kind x = k) → ∃ j x, <[i := b']> bs !! j = Some x ∧ b_kind x = k.
Proof.
  intros Hi Hk (j & x & Hj & Hx). destruct (decide (i = j)) as [->|Hne].
  - exists j, b'. rewrite list_lookup_insert_eq by by apply lookup_lt_Some in Hj.
    split; [done|]. congruence.
  - exists j, x. by rewrite list_lookup_insert_ne.
Qed.

Lemma snoc_kinds bs b k :
  (∃ j x, bs !! j = Some x ∧ b_kind x = k) → ∃ j x, (bs ++ [b]) !! j = Some x ∧ b_kind x = k.
Proof. intros (j & x & Hj & Hx). exists j, x. split; [|done]. by apply lookup_app_l_Some. Qed.

Lemma rel_delta_text e bs ct d :
  rel e bs ct → ae_textStarted e = true → thinking_open e = false →
  rel (ae_set_text (ae_textIndex e) true (ae_textBuffer e +:+ d) e)
    (<[Z.to_nat (ae_textIndex e) := mkBlock BText (ae_textBuffer e +:+ d) "" true]> bs)
    (mkContent (ct_text ct +:+ d) (ct_thinking ct) (ct_arguments ct)).
Proof.
  intros Hr Ht Hth. destruct (block_at_text _ _ _ Hr Ht) as [H0 Hi].
  set (i := Z.to_nat (ae_textIndex e)) in *. constructor; cbn.
  - rewrite length_insert. apply Hr.
  - apply insert_blocks; [|unfold block_ok; cbn; split_and!; [done|unfold i; lia|done]].
    intros j b Hj Hne. pose proof (r_blocks _ _ _ Hr j b Hj) as Hok. unfold block_ok in *.
    destruct (b_kind b); [|done..]. destruct Hok as (_ & Hix & _). exfalso. apply Hne. unfold i. lia.
  - intros _. eapply insert_kinds; [exact Hi|done|]. by apply (r_text _ _ _ Hr).
  - done.
  - unfold thinking_open in *. cbn. by rewrite Hth.
  - intros id state Hid. destruct (r_tools _ _ _ Hr id state Hid) as (? & ? & ?).
    split_and!; try done. by eapply insert_kinds; [exact Hi|..].
  - apply Hr.
  - by rewrite (r_ct_text _ _ _ Hr).
  - by erewrite message_thinking_insert; [apply Hr|exact Hi|..].
  - apply Hr.
Qed.

Lemma rel_close_thinking e bs0 b ct :
  rel e (bs0 ++ [b]) ct → thinking_open e = true →
  rel (ae_set_thinking (ae_thinkingIndex e) (ae_thinkingStarted e) true (ae_thinkingBuffer e)
         (ae_thinkingSignature e) e)
    (bs0 ++ [mkBlock (b_kind b) (b_text b) (b_signature b) false]) ct.
Proof.
  intros Hr Hth. destruct (r_thinking _ _ _ Hr Hth) as (bs1 & b1 & [<- <-]%app_inj_tail & Hk & Ho & Hix).
  assert (Hlast : (bs0 ++ [b]) !! length bs0 = Some b) by (apply lookup_snoc_Some; by right).
  assert (Hswap : ∀ k, k ≠ BThinking → (∃ j x, (bs0 ++ [b]) !! j = Some x ∧ b_kind x = k) →
    ∃ j x, (bs0 ++ [mkBlock (b_kind b) (b_text b) (b_signature b) false]) !! j = Some x ∧ b_kind x = k).
  { intros k Hne (j & x & [[? ?]|[-> <-]]%lookup_snoc_Some & Hx); [|congruence].
    exists j, x. split; [|done]. by apply lookup_app_l_Some. }
  constructor; cbn.
  - rewrite (r_next _ _ _ Hr), !length_app. done.
  - intros i b' [[Hl Hi]|[-> <-]]%lookup_snoc_Some; [|unfold block_ok; cbn; by rewrite Hk].
    assert (Hok : block_ok e i b') by (apply (r_blocks _ _ _ Hr); by apply lookup_app_l_Some).
    unfold block_ok in *. destruct (b_kind b'); [done| |done]. intros Hb'. destruct (Hok Hb') as [_ Hi'].
    exfalso. rewrite Hix in Hi'. lia.
  - intros Ht. apply Hswap; [done|]. by apply (r_text _ _ _ Hr).
  - apply Hr.
  - unfold thinking_open. cbn. by rewrite andb_false_r.
  - intros id state Hid. destruct (r_tools _ _ _ Hr id state Hid) as (? & ? & ?). split_and!; auto.
  - apply Hr.
  - apply Hr.
  - destruct (r_ct_thinking _ _ _ Hr) as [? Hm]. split; [done|]. rewrite <- Hm, !message_thinking_snoc.
    cbn. done.
  - apply Hr.
Qed.

Lemma rel_open_thinking e bs ct :
  rel e bs ct → thinking_open e = false →
  rel (ae_set_thinking (ae_nextIndex e) true false (ae_thinkingBuffer e) (ae_thinkingSignature e)
         (take_index e))
    (bs ++ [mkBlock BThinking "" "" true]) ct.
Proof.
  intros Hr Hth. constructor; cbn.
  - rewrite (r_next _ _ _ Hr), length_app. cbn. lia.
  - apply snoc_blocks; [|intros _; split; [done|by rewrite (r_next _ _ _ Hr)]].
    intros i b Hi. pose proof (r_blocks _ _ _ Hr i b Hi) as Hok. unfold block_ok in *.
    destruct (b_kind b); [done| |done]. intros Hb. destruct (Hok Hb). congruence.
  - intros Ht. apply snoc_kinds. by apply (r_text _ _ _ Hr).
  - apply Hr.
  - intros _. exists bs, (mkBlock BThinking "" "" true). split_and!; try done. apply Hr.
  - intros id state Hid. destruct (r_tools _ _ _ Hr id state Hid) as (? & ? & ?).
    split_and!; try done. by apply snoc_kinds.
  - apply Hr.
  - apply Hr.
  - rewrite message_thinking_snoc. cbn. rewrite append_nil_r. apply Hr.
  - apply Hr.
Qed.

(** A delta of thinking [d], or of its signature [g]. *)
Lemma rel_delta_thinking e bs0 b ct d g signature :
  rel e (bs0 ++ [b]) ct → thinking_open e = true →
  rel (ae_set_thinking (ae_thinkingIndex e) (ae_thinkingStarted e) (ae_thinkingStopped e)
         (ae_thinkingBuffer e +:+ d) signature e)
    (bs0 ++ [mkBlock BThinking (b_text b +:+ d) g true])
    (mkContent (ct_text ct) (ct_thinking ct +:+ d) (ct_arguments ct)).
Proof.
  intros Hr Hth. destruct (r_thinking _ _ _ Hr Hth) as (bs1 & b1 & [<- <-]%app_inj_tail & Hk & Ho & Hix).
  assert (Hlen : length (bs0 ++ [b]) = length (bs0 ++ [mkBlock BThinking (b_text b +:+ d) g true]))
    by by rewrite !length_app.
  assert (Hins : bs0 ++ [mkBlock BThinking (b_text b +:+ d) g true]
    = <[length bs0 := mkBlock BThinking (b_text b +:+ d) g true]> (bs0 ++ [b])).
  { rewrite <- (Nat.add_0_r (length bs0)), insert_app_r. done. }
  assert (Hlast : (bs0 ++ [b]) !! length bs0 = Some b) by (apply lookup_snoc_Some; by right).
  constructor; cbn.
  - rewrite <- Hlen. apply Hr.
  - rewrite Hins. apply insert_blocks; [|intros _; by split]. intros j b' Hj _.
    apply (r_blocks _ _ _ Hr j b' Hj).
  - intros Ht. rewrite Hins. eapply insert_kinds; [exact Hlast|done|]. by apply (r_text _ _ _ Hr).
  - apply Hr.
  - intros _. eexists bs0, _. split_and!; try done.
  - intros id state Hid. destruct (r_tools _ _ _ Hr id state Hid) as (? & ? & ?).
    split_and!; try done. rewrite Hins. by eapply insert_kinds; [exact Hlast|..].
  - apply Hr.
  - apply Hr.
  - destruct (r_ct_thinking _ _ _ Hr) as [Hc Hm]. rewrite Hc. split; [done|].
    rewrite message_thinking_snoc in *. rewrite Hk, bool_decide_refl in Hm. cbn.
    by rewrite append_assoc, Hm.
  - apply Hr.
Qed.

Lemma rel_open_tool e bs ct id name :
  rel e bs ct → thinking_open e = false → ae_toolCalls e !! id = None →
  rel (ae_set_tools (<[id := mkAnthropicTool (ae_nextIndex e) id name "" true]> (ae_toolCalls e))
         (ae_toolCallOrder e ++ [id]) (take_index e))
    (bs ++ [mkBlock (BTool id) "" "" true])
    (mkContent (ct_text ct) (ct_thinking ct) (<[id := ""]> (ct_arguments ct))).
Proof.
  intros Hr Hth Hid. constructor; cbn.
  - rewrite (r_next _ _ _ Hr), length_app. cbn. lia.
  - apply snoc_blocks.
    + intros i b Hi. pose proof (r_blocks _ _ _ Hr i b Hi) as Hok. unfold block_ok in *.
      destruct (b_kind b) as [| |id']; [done..|]. destruct Hok as (state & Hid' & Hok).
      exists state. cbn. rewrite lookup_insert_ne by congruence. done.
    + unfold block_ok. cbn. eexists. rewrite lookup_insert_eq. split_and!; try done. apply Hr.
  - intros Ht. apply snoc_kinds. by apply (r_text _ _ _ Hr).
  - apply Hr.
  - unfold thinking_open in *. cbn. by rewrite Hth.
  - intros id' state [[<- <-]|[Hne Hid']]%lookup_insert_Some.
    + split_and!; try done. exists (length bs), (mkBlock (BTool id) "" "" true). split; [|done].
      apply lookup_snoc_Some. by right.
    + destruct (r_tools _ _ _ Hr id' state Hid') as (? & ? & ?). split_and!; try done. by apply snoc_kinds.
  - destruct (r_order _ _ _ Hr) as [Hnd Hdom]. split.
    + apply list.NoDup_app. split_and!; [done| |apply list.NoDup_singleton].
      intros x Hx ->%list_elem_of_singleton. apply Hdom in Hx as [? Hx]. congruence.
    + intros id'. rewrite elem_of_app, list_elem_of_singleton, Hdom.
      destruct (decide (id = id')) as [->|Hne].
      * rewrite lookup_insert_eq. split; [by eexists|by right].
      * rewrite lookup_insert_ne by done. split; [intros [?| ->]; done|by left].
  - apply Hr.
  - rewrite message_thinking_snoc. cbn. apply Hr.
  - rewrite (r_ct_arguments _ _ _ Hr), fmap_insert. done.
Qed.

Lemma rel_name_tool e bs ct id state name :
  rel e bs ct → ae_toolCalls e !! id = Some state →
  rel (ae_set_tools (<[id := mkAnthropicTool (at_Index state) (at_CallID state) name
                          (at_Arguments state) true]> (ae_toolCalls e)) (ae_toolCallOrder e) e) bs ct.
Proof.
  intros Hr Hid. destruct (r_tools _ _ _ Hr id state Hid) as (Hcall & Hs & Hb). constructor; cbn; try apply Hr.
  - intros i b Hi. pose proof (r_blocks _ _ _ Hr i b Hi) as Hok. unfold block_ok in *.
    destruct (b_kind b) as [| |id']; [done..|]. destruct Hok as (state' & Hid' & Hok). cbn.
    destruct (decide (id = id')) as [->|Hne].
    + simplify_eq. rewrite lookup_insert_eq. eexists. split; [done|]. done.
    + exists state'. by rewrite lookup_insert_ne.
  - intros id' state' [[<- <-]|[Hne Hid']]%lookup_insert_Some; [done|]. by apply (r_tools _ _ _ Hr).
  - destruct (r_order _ _ _ Hr) as [Hnd Hdom]. split; [done|]. intros id'. rewrite Hdom.
    destruct (decide (id = id')) as [->|Hne]; [rewrite lookup_insert_eq, Hid; split; by eexists|].
    by rewrite lookup_insert_ne.
  - rewrite (r_ct_arguments _ _ _ Hr), fmap_insert. symmetry. apply insert_id.
    by rewrite lookup_fmap, Hid.
Qed.

Lemma rel_delta_tool e bs ct id state d :
  rel e bs ct → ae_toolCalls e !! id = Some state → thinking_open e = false →
  rel (ae_set_tools (<[id := mkAnthropicTool (at_Index state) (at_CallID state) (at_Name state)
                          (at_Arguments state +:+ d) true]> (ae_toolCalls e)) (ae_toolCallOrder e) e)
    (<[Z.to_nat (at_Index state) := mkBlock (BTool id) (at_Arguments state +:+ d) "" true]> bs)
    (mkContent (ct_text ct) (ct_thinking ct) (<[id := at_Arguments state +:+ d]> (ct_arguments ct))).
Proof.
  intros Hr Hid Hth. destruct (r_tools _ _ _ Hr id state Hid) as (Hcall & Hs & Hb).
  destruct (block_at_tool _ _ _ _ _ Hr Hid) as [H0 Hi].
  set (i := Z.to_nat (at_Index state)) in *. constructor; cbn; try apply Hr.
  - rewrite length_insert. apply Hr.
  - apply insert_blocks.
    + intros j b Hj Hne. pose proof (r_blocks _ _ _ Hr j b Hj) as Hok. unfold block_ok in *.
      destruct (b_kind b) as [| |id']; [done..|]. destruct Hok as (state' & Hid' & Hix & Hok).
      exists state'. cbn. destruct (decide (id = id')) as [->|]; [|by rewrite lookup_insert_ne].
      exfalso. apply Hne. simplify_eq. unfold i. lia.
    + unfold block_ok. cbn. eexists. rewrite lookup_insert_eq. split_and!; try done. cbn. unfold i. lia.
  - intros Ht. eapply insert_kinds; [exact Hi|done|]. by apply (r_text _ _ _ Hr).
  - unfold thinking_open in *. cbn. by rewrite Hth.
  - intros id' state' [[<- <-]|[Hne Hid']]%lookup_insert_Some.
    + split_and!; try done. by eapply insert_kinds; [exact Hi|..].
    + destruct (r_tools _ _ _ Hr id' state' Hid') as (? & ? & ?).
      split_and!; try done. by eapply insert_kinds; [exact Hi|..].
  - destruct (r_order _ _ _ Hr) as [Hnd Hdom]. split; [done|]. intros id'. rewrite Hdom.
    destruct (decide (id = id')) as [->|Hne]; [rewrite lookup_insert_eq, Hid; split; by eexists|].
    by rewrite lookup_insert_ne.
  - erewrite message_thinking_insert; [apply Hr|exact Hi|done|done].
  - rewrite (r_ct_arguments _ _ _ Hr), fmap_insert. done.
Qed.
End rel.

(** ** Every event keeps the relation *)

(** The client has accepted all that was written. *)
Definition accepted {E} (s : io E) : Prop := is_Some (client_run CNew (frames s)).

Definition failed {E} (reason : string) (s : io E) : Prop := accepted s ∧ gave_up s.

Record Inv (s : io anthropicMessagesStreamEncoder) (bs : list block) (ct : content) : Prop := mkInv {
  i_rel : rel (io_enc s) bs ct;
  i_running : ae_completed (io_enc s) = false;
  i_client : client_run CNew (frames s) = Some (if ae_started (io_enc s) then CStreaming bs else CNew);
  i_fresh : ae_started (io_enc s) = false → bs = []
}.

Lemma client_run_snoc c l fr :
  client_run c (l ++ [fr]) = c' ← client_run c l; client_step c' fr.
Proof.
  revert c. induction l as [|x l IH]; intros c; cbn; [by destruct (client_step c fr)|].
  destruct (client_step c x); [apply IH|done].
Qed.

(** ** The content of the blocks *)

Definition strip (b : block) : blockKind * string := (b_kind b, b_text b).

Lemma omap_strip {A} (f : block → option A) (g : blockKind * string → option A) bs bs' :
  (∀ b, f b = g (strip b)) → map strip bs = map strip bs' → omap f bs = omap f bs'.
Proof.
  intros Hfg. revert bs'. induction bs as [|b bs IH]; intros [|b' bs'] Hm; try done.
  injection Hm as Hk Ht Hm. cbn. rewrite !Hfg. unfold strip. rewrite Hk, Ht.
  by rewrite (IH bs' Hm).
Qed.

(** What the blocks hold is what the events said, whether they are open or not. *)
Lemma rel_content e bs ct bs' :
  rel e bs ct → map strip bs' = map strip bs →
  message_text bs' = ct_text ct ∧ message_thinking bs' = ct_thinking ct
  ∧ ∀ id, message_arguments bs' id = ct_arguments ct !! id.
Proof.
  intros Hr Hm. unfold message_text, message_thinking, message_arguments.
  rewrite (omap_strip _ (λ p, if bool_decide (fst p = BText) then Some (snd p) else None) bs' bs) by done.
  rewrite (omap_strip _ (λ p, if bool_decide (fst p = BThinking) then Some (snd p) else None) bs' bs) by done.
  split_and!.
  - rewrite (r_ct_text _ _ _ Hr). destruct (ae_textStarted e) eqn:Ht.
    + destruct (block_at_text _ _ _ Hr Ht) as [H0 Hi].
      erewrite omap_unique; [done| |exact Hi|done].
      cbn. intros j b Hj Hk. case_bool_decide as Hb; [|by destruct Hk].
      pose proof (r_blocks _ _ _ Hr j b Hj) as Hok. unfold block_ok in Hok. rewrite Hb in Hok. lia.
    + rewrite omap_none; [by rewrite (r_no_text _ _ _ Hr Ht)|]. intros b [j Hj]%list_elem_of_lookup.
      case_bool_decide as Hb; [|done]. pose proof (r_blocks _ _ _ Hr j b Hj) as Hok.
      unfold block_ok in Hok. rewrite Hb in Hok. destruct Hok. congruence.
  - destruct (r_ct_thinking _ _ _ Hr) as [-> Hth]. exact Hth.
  - intros id. rewrite (omap_strip _ (λ p, if bool_decide (fst p = BTool id) then Some (snd p) else None) bs' bs) by done.
    rewrite (r_ct_arguments _ _ _ Hr), lookup_fmap.
    destruct (ae_toolCalls e !! id) as [state|] eqn:Hid.
    + destruct (block_at_tool _ _ _ _ _ Hr Hid) as [H0 Hi].
      erewrite omap_unique; [done| |exact Hi|cbn; by rewrite bool_decide_refl].
      cbn. intros j b Hj Hk. case_bool_decide as Hb; [|by destruct Hk].
      pose proof (r_blocks _ _ _ Hr j b Hj) as Hok. unfold block_ok in Hok. rewrite Hb in Hok.
      destruct Hok as (state' & ? & ? & _). simplify_eq. lia.
    + rewrite omap_none; [done|]. intros b [j Hj]%list_elem_of_lookup.
      case_bool_decide as Hb; [|done]. pose proof (r_blocks _ _ _ Hr j b Hj) as Hok.
      unfold block_ok in Hok. rewrite Hb in Hok. destruct Hok as (state' & ? & _). congruence.
Qed.

Section specs.
Context (spec candidateSpec : resolvedProtocolSpec) (requireUsage : bool) (valid : string → bool)
        (order : list (string * any) → list (string * any)).
Hypothesis Hstop : protocolEventName spec Completed "message_stop" = "message_stop".
Implicit Types (s : io anthropicMessagesStreamEncoder).

(** A frame the client accepts. *)
Lemma emit event payload s c c' (Q : unit → io anthropicMessagesStreamEncoder → Prop) :
  client_run CNew (frames s) = Some c → client_payload c payload = Some c' →
  (∀ s', io_enc s' = io_enc s → io_capture s' = io_capture s →
         client_run CNew (frames s') = Some c' → Q tt s') →
  wp failed (ae_writeEvent event payload) s Q.
Proof.
  intros Hc Hstep HQ. apply wp_write.
  - intros Hroom. split; [by eexists|by left].
  - intros room. apply HQ; [done|done|]. unfold frames in *. cbn. by rewrite client_run_snoc, Hc.
Qed.

Lemma Inv_capture s bs ct f :
  Inv s bs ct → Inv (mkIO (io_enc s) (f (io_capture s)) (io_writer s)) bs ct.
Proof. by intros []. Qed.

Lemma start_spec s bs ct (Q : unit → io anthropicMessagesStreamEncoder → Prop) :
  Inv s bs ct →
  (∀ s', Inv s' bs ct → ae_started (io_enc s') = true → Q tt s') →
  wp failed (sendMessageStartIfNeeded spec) s Q.
Proof.
  intros Hinv HQ. unfold sendMessageStartIfNeeded. repeat wp_step.
  destruct (ae_started (io_enc s)) eqn:Es; [by apply HQ|]. repeat wp_step.
  destruct Hinv as [Hr Hrun Hc Hf]. rewrite Es in *.
  eapply emit; [exact Hc|reflexivity|]. intros s' He _ Hc'. cbn [io_enc] in He.
  rewrite (Hf eq_refl) in *. apply HQ; [|by rewrite He]. constructor; rewrite He; cbn; try done.
  by apply rel_progress.
Qed.

Lemma client_stop bs i b (payload : list (string * any)) :
  map_index payload "type" = AString "content_block_stop" → map_index payload "index" = AInt (Z.of_nat i) →
  bs !! i = Some b → b_open b = true →
  client_payload (CStreaming bs) payload
  = Some (CStreaming (<[i := mkBlock (b_kind b) (b_text b) (b_signature b) false]> bs)).
Proof.
  intros Ht Hi Hb Ho. unfold client_payload, update_block, block_at. rewrite Ht, Hi. cbn.
  rewrite (proj2 (Z.leb_le 0 (Z.of_nat i))) by lia. rewrite Nat2Z.id. cbn. rewrite Hb. cbn.
  unfold closeBlock. by rewrite Ho.
Qed.

Lemma client_start bs b (payload : list (string * any)) :
  map_index payload "type" = AString "content_block_start" →
  map_index payload "index" = AInt (Z.of_nat (length bs)) →
  openBlock (as_map (map_index payload "content_block")) = Some b → new_block bs b = true →
  client_payload (CStreaming bs) payload = Some (CStreaming (bs ++ [b])).
Proof.
  intros Ht Hi Hb Hnew. unfold client_payload, block_at. rewrite Ht, Hi. cbn.
  rewrite (proj2 (Z.leb_le 0 (Z.of_nat _))) by lia. rewrite Nat2Z.id. cbn. rewrite Hb. cbn.
  by rewrite !bool_decide_refl, Hnew.
Qed.

Lemma client_delta bs i b b' (payload : list (string * any)) :
  map_index payload "type" = AString "content_block_delta" →
  map_index payload "index" = AInt i → 0 ≤ i →
  bs !! Z.to_nat i = Some b → none_of (b_kind b) (drop (S (Z.to_nat i)) bs) = true →
  applyDelta (as_map (map_index payload "delta")) b = Some b' →
  client_payload (CStreaming bs) payload = Some (CStreaming (<[Z.to_nat i := b']> bs)).
Proof.
  intros Ht Hi H0 Hb Hlast Hd. unfold client_payload, newest, update_block, block_at. rewrite Ht, Hi.
  rewrite (proj2 (Z.leb_le 0 i)) by lia. cbn -[drop]. rewrite Hb. cbn -[drop]. by rewrite Hlast, Hd.
Qed.

(** All blocks of kind [k] are at [i]. *)
Lemma none_of_spec k bs : none_of k bs = true ↔ ∀ i b, bs !! i = Some b → b_kind b ≠ k.
Proof.
  unfold none_of. rewrite forallb_forall. split.
  - intros H i b Hi. specialize (H b). rewrite <- list_elem_of_In in H.
    by apply list_elem_of_lookup_2, H, negb_true_iff, bool_decide_eq_false in Hi.
  - intros H b [i Hi]%list_elem_of_In%list_elem_of_lookup. by eapply negb_true_iff, bool_decide_eq_false, H.
Qed.

Lemma none_after k bs n :
  (∀ i b, bs !! i = Some b → b_kind b = k → i = n) → none_of k (drop (S n) bs) = true.
Proof.
  intros H. apply none_of_spec. intros i b Hi Hk. rewrite lookup_drop in Hi.
  apply H in Hi; [lia|done].
Qed.

Lemma text_is_newest e bs ct :
  rel e bs ct → none_of BText (drop (S (Z.to_nat (ae_textIndex e))) bs) = true.
Proof.
  intros Hr. apply none_after. intros i b Hi Hk. pose proof (r_blocks _ _ _ Hr i b Hi) as Hok.
  unfold block_ok in Hok. rewrite Hk in Hok. destruct Hok as (_ & -> & _). by rewrite Nat2Z.id.
Qed.

Lemma tool_is_newest e bs ct id state :
  rel e bs ct → ae_toolCalls e !! id = Some state →
  none_of (BTool id) (drop (S (Z.to_nat (at_Index state))) bs) = true.
Proof.
  intros Hr Hid. apply none_after. intros i b Hi Hk. pose proof (r_blocks _ _ _ Hr i b Hi) as Hok.
  unfold block_ok in Hok. rewrite Hk in Hok. destruct Hok as (state' & Hid' & Hix & _). simplify_eq.
  by rewrite Hix, Nat2Z.id.
Qed.

Lemma tool_is_new e bs ct id :
  rel e bs ct → ae_toolCalls e !! id = None → id ≠ "" → TrimSpace id = id →
  new_block bs (mkBlock (BTool id) "" "" true) = true.
Proof.
  intros Hr Hid Hne Htrim. unfold new_block. cbn [b_kind].
  rewrite bool_decide_eq_false_2, bool_decide_eq_true_2 by done. cbn [negb andb]. apply none_of_spec.
  intros i b Hi Hk. pose proof (r_blocks _ _ _ Hr i b Hi) as Hok. unfold block_ok in Hok. rewrite Hk in Hok.
  destruct Hok as (state & ? & _). congruence.
Qed.

Lemma last_is_newest k (bs : list block) b : none_of k (drop (S (length bs)) (bs ++ [b])) = true.
Proof. rewrite drop_ge; [done|]. rewrite length_app. cbn. lia. Qed.

Lemma snoc_insert (bs : list block) b b' : <[length bs := b']> (bs ++ [b]) = bs ++ [b'].
Proof. rewrite <- (Nat.add_0_r (length bs)), insert_app_r. done. Qed.

Lemma stop_thinking_spec s bs ct (Q : unit → io anthropicMessagesStreamEncoder → Prop) :
  Inv s bs ct → ae_started (io_enc s) = true →
  (∀ s' bs', Inv s' bs' ct → ae_started (io_enc s') = true → thinking_open (io_enc s') = false → Q tt s') →
  wp failed stopThinkingIfOpen s Q.
Proof.
  intros Hinv Hs HQ. unfold stopThinkingIfOpen. repeat wp_step.
  destruct (negb _ || _) eqn:E.
  { apply wp_ret, (HQ s bs); [done..|]. unfold thinking_open.
    by destruct (ae_thinkingStarted _), (ae_thinkingStopped _). }
  assert (Hth : thinking_open (io_enc s) = true).
  { unfold thinking_open. by destruct (ae_thinkingStarted _), (ae_thinkingStopped _). }
  destruct Hinv as [Hr Hrun Hc Hf]. rewrite Hs in Hc.
  destruct (r_thinking _ _ _ Hr Hth) as (bs0 & b & -> & Hk & Ho & Hix).
  wp_step. eapply emit; [exact Hc| |].
  { apply (client_stop _ (length bs0) b); [done|by rewrite Hix|apply lookup_snoc_Some; by right|done]. }
  intros s' He _ Hc'. repeat wp_step. rewrite snoc_insert in Hc'.
  apply (HQ _ (bs0 ++ [mkBlock (b_kind b) (b_text b) (b_signature b) false])); cbn; rewrite He;
    [|done|unfold thinking_open; cbn; by rewrite andb_false_r].
  constructor; cbn; rewrite ?He; [by apply rel_close_thinking|done|by rewrite Hs|by rewrite Hs].
Qed.

Lemma text_spec s bs ct delta (Q : unit → io anthropicMessagesStreamEncoder → Prop) :
  Inv s bs ct →
  (∀ s' bs', Inv s' bs' (mkContent (ct_text ct +:+ delta) (ct_thinking ct) (ct_arguments ct)) → Q tt s') →
  wp failed (sendTextDelta spec delta) s Q.
Proof.
  intros Hinv HQ. unfold sendTextDelta. case_bool_decide as Hd.
  { subst. apply wp_ret, (HQ s bs). rewrite append_nil_r. by destruct ct. }
  apply wp_bind, (start_spec s bs ct); [done|]. clear s Hinv. intros s Hinv Hs.
  apply wp_bind, (stop_thinking_spec s bs ct); [done..|]. clear s bs Hinv Hs. intros s bs Hinv Hs Hth.
  wp_step. wp_step. apply wp_bind.
  assert (Hnext : ∀ s bs, Inv s bs ct → ae_started (io_enc s) = true → thinking_open (io_enc s) = false →
    ae_textStarted (io_enc s) = true →
    wp failed (bind (modify (λ e, ae_set_text (ae_textIndex e) (ae_textStarted e) (ae_textBuffer e +:+ delta) e))
      (λ _, bind get (λ e, writeDelta spec TextDelta (ae_textIndex e)
              [("type", AString "text_delta"); ("text", AString delta)]))) s Q).
  { clear s bs Hinv Hs Hth. intros s bs [Hr Hrun Hc Hf] Hs Hth Ht. rewrite Hs in Hc. repeat wp_step.
    destruct (block_at_text _ _ _ Hr Ht) as [H0 Hb]. eapply emit; [exact Hc| |].
    { eapply (client_delta _ _ _ (mkBlock BText (ae_textBuffer (io_enc s) +:+ delta) "" true));
        [done..|exact Hb|exact (text_is_newest _ _ _ Hr)|reflexivity]. }
    intros s' He _ Hc'. cbn [io_enc] in He.
    apply (HQ s' (<[Z.to_nat (ae_textIndex (io_enc s)) :=
      mkBlock BText (ae_textBuffer (io_enc s) +:+ delta) "" true]> bs)).
    constructor; rewrite He; [|done|by cbn; rewrite Hs|by cbn; rewrite Hs]. rewrite Ht. by apply rel_delta_text. }
  destruct (ae_textStarted (io_enc s)) eqn:Et; [apply wp_ret; by eapply Hnext|].
  destruct Hinv as [Hr Hrun Hc Hf]. rewrite Hs in Hc. repeat wp_step.
  eapply emit; [exact Hc| |].
  { eapply client_start; [done|cbn; by rewrite (r_next _ _ _ Hr)|reflexivity|done]. }
  intros s' He _ Hc'. cbn [io_enc] in He. wp_step.
  apply (Hnext _ (bs ++ [mkBlock BText "" "" true])); cbn [io_enc]; rewrite He; try done.
  constructor; cbn; try done; [|by rewrite Hs|by rewrite Hs].
  by apply rel_open_text.
Qed.

Lemma thinking_start_spec s bs ct (Q : unit → io anthropicMessagesStreamEncoder → Prop) :
  Inv s bs ct →
  (∀ s' bs', Inv s' bs' ct → ae_started (io_enc s') = true → thinking_open (io_enc s') = true → Q tt s') →
  wp failed (sendThinkingStartIfNeeded spec) s Q.
Proof.
  intros Hinv HQ. unfold sendThinkingStartIfNeeded.
  apply wp_bind, (start_spec s bs ct); [done|]. clear s Hinv. intros s Hinv Hs. repeat wp_step.
  destruct (ae_thinkingStarted (io_enc s) && _) eqn:Hth; [by apply (HQ s bs)|].
  destruct Hinv as [Hr Hrun Hc Hf]. rewrite Hs in Hc. repeat wp_step. eapply emit; [exact Hc| |].
  { eapply client_start; [done|cbn; by rewrite (r_next _ _ _ Hr)|reflexivity|done]. }
  intros s' He _ Hc'. cbn [io_enc] in He. repeat wp_step.
  apply (HQ _ (bs ++ [mkBlock BThinking "" "" true])); cbn [io_enc]; rewrite He; try done.
  constructor; cbn; try done; [|by rewrite Hs|by rewrite Hs].
  by apply rel_open_thinking.
Qed.

Lemma reasoning_spec s bs ct event (Q : unit → io anthropicMessagesStreamEncoder → Prop) :
  ev_Type event = ReasoningDelta → Inv s bs ct →
  (∀ s' bs', Inv s' bs' (add_event candidateSpec ct event) → Q tt s') →
  wp failed (sendReasoningEvent spec candidateSpec event) s Q.
Proof.
  unfold add_event, sendReasoningEvent. intros ->. set (kind := ev_ReasoningKind _). intros Hinv HQ.
  destruct (bool_decide (reasoningPolicyForProtocol candidateSpec kind = "passthrough")); cbn [negb andb] in *;
    [|wp_step; apply (HQ _ bs), Inv_capture, Hinv].
  case_bool_decide as Hk.
  - (* thinking *)
    case_bool_decide as Hd.
    { rewrite Hd in HQ. rewrite append_nil_r in HQ. apply wp_ret, (HQ s bs). by destruct ct. }
    apply wp_bind, (thinking_start_spec s bs ct); [done|]. clear s bs Hinv. intros s bs [Hr Hrun Hc Hf] Hs Hth.
    rewrite Hs in Hc. repeat wp_step.
    destruct (r_thinking _ _ _ Hr Hth) as (bs0 & b & -> & Hkb & Ho & Hix).
    eapply emit; [exact Hc| |].
    { eapply (client_delta _ _ _ (mkBlock BThinking (b_text b +:+ ev_Delta event) (b_signature b) true));
        [done|cbn; by rewrite Hix|lia|rewrite Nat2Z.id; apply lookup_snoc_Some; by right
         |rewrite Nat2Z.id; apply last_is_newest|].
      unfold applyDelta. rewrite Ho, Hkb. reflexivity. }
    intros s' He _ Hc'. cbn [io_enc] in He. rewrite Nat2Z.id, snoc_insert in Hc'.
    apply (HQ s' (bs0 ++ [mkBlock BThinking (b_text b +:+ ev_Delta event) (b_signature b) true])).
    constructor; rewrite He; [|done|by cbn; rewrite Hs|by cbn; rewrite Hs].
    by apply rel_delta_thinking.
  - case_bool_decide as Hk2; [|wp_step; apply (HQ _ bs), Inv_capture, Hinv].
    (* a signature *)
    case_bool_decide as Hd; [by apply wp_ret, (HQ s bs)|].
    apply wp_bind, (thinking_start_spec s bs ct); [done|]. clear s bs Hinv. intros s bs [Hr Hrun Hc Hf] Hs Hth.
    rewrite Hs in Hc. repeat wp_step.
    destruct (r_thinking _ _ _ Hr Hth) as (bs0 & b & -> & Hkb & Ho & Hix).
    eapply emit; [exact Hc| |].
    { eapply (client_delta _ _ _ (mkBlock BThinking (b_text b) (b_signature b +:+ ev_Delta event) true));
        [done|cbn; by rewrite Hix|lia|rewrite Nat2Z.id; apply lookup_snoc_Some; by right
         |rewrite Nat2Z.id; apply last_is_newest|].
      unfold applyDelta. rewrite Ho, Hkb. reflexivity. }
    intros s' He _ Hc'. cbn [io_enc] in He. rewrite Nat2Z.id, snoc_insert in Hc'.
    apply (HQ s' (bs0 ++ [mkBlock BThinking (b_text b) (b_signature b +:+ ev_Delta event) true])).
    constructor; rewrite He; [|done|by cbn; rewrite Hs|by cbn; rewrite Hs].
    pose proof (rel_delta_thinking _ _ _ _ "" (b_signature b +:+ ev_Delta event)
      (ae_thinkingSignature (io_enc s) +:+ ev_Delta event) Hr Hth) as Hr'.
    rewrite !append_nil_r in Hr'. by destruct ct.
Qed.

(** The arguments of a call whose block is open. *)
Lemma tool_delta_spec s bs ct id state delta (Q : unit → io anthropicMessagesStreamEncoder → Prop) :
  Inv s bs ct → ae_started (io_enc s) = true → thinking_open (io_enc s) = false →
  ae_toolCalls (io_enc s) !! id = Some state →
  (∀ s' bs', Inv s' bs' (mkContent (ct_text ct) (ct_thinking ct)
                 (<[id := at_Arguments state +:+ delta]> (ct_arguments ct))) → Q tt s') →
  wp failed
    (if bool_decide (delta = "") then ret tt
     else bind (putToolCall (mkAnthropicTool (at_Index state) (at_CallID state) (at_Name state)
                               (at_Arguments state +:+ delta) true))
       (λ _, writeDelta spec ToolCallDelta (at_Index state)
               [("type", AString "input_json_delta"); ("partial_json", AString delta)])) s Q.
Proof.
  intros Hinv Hs Hth Hid HQ. destruct Hinv as [Hr Hrun Hc Hf].
  destruct (r_tools _ _ _ Hr _ _ Hid) as (Hcall & Hst & _).
  case_bool_decide as Hd.
  { apply wp_ret, (HQ s bs). constructor; try done. rewrite Hd, append_nil_r, insert_id; [by destruct ct|].
    by rewrite (r_ct_arguments _ _ _ Hr), lookup_fmap, Hid. }
  rewrite Hs in Hc. destruct (block_at_tool _ _ _ _ _ Hr Hid) as [H0 Hb].
  unfold putToolCall. repeat wp_step. eapply emit; [exact Hc| |].
  { eapply (client_delta _ _ _ (mkBlock (BTool id) (at_Arguments state +:+ delta) "" true));
      [done..|exact Hb|exact (tool_is_newest _ _ _ _ _ Hr Hid)|reflexivity]. }
  intros s' He _ Hc'. cbn [io_enc at_CallID] in He. rewrite Hcall in He.
  apply (HQ s' (<[Z.to_nat (at_Index state) :=
    mkBlock (BTool id) (at_Arguments state +:+ delta) "" true]> bs)).
  constructor; rewrite He; [|done|by cbn; rewrite Hs|by cbn; rewrite Hs].
  pose proof (rel_delta_tool _ _ _ _ _ delta Hr Hid Hth) as Hr'. by rewrite Hcall in Hr'.
Qed.

Lemma tool_spec s bs ct event (Q : unit → io anthropicMessagesStreamEncoder → Prop) :
  ev_Type event = ToolCallDelta → Inv s bs ct →
  (∀ s' bs', Inv s' bs' (add_event candidateSpec ct event) → Q tt s') →
  wp failed (ae_sendToolCallDelta spec event) s Q.
Proof.
  unfold add_event, ae_sendToolCallDelta. intros ->. set (id := TrimSpace _).
  set (delta := ev_ToolCallArgumentsDelta _). intros Hinv HQ.
  case_bool_decide as Hid0; [by apply wp_ret, (HQ s bs)|].
  apply wp_bind, (start_spec s bs ct); [done|]. clear s Hinv. intros s Hinv Hs.
  apply wp_bind, (stop_thinking_spec s bs ct); [done..|]. clear s bs Hinv Hs. intros s bs Hinv Hs Hth.
  apply wp_bind. unfold toolCallState. repeat wp_step.
  destruct Hinv as [Hr Hrun Hc Hf]. rewrite Hs in Hc.
  destruct (ae_toolCalls (io_enc s) !! id) as [state|] eqn:Hid.
  - (* a call that began before *)
    wp_step. destruct (r_tools _ _ _ Hr _ _ Hid) as (Hcall & Hst & _).
    set (name := if bool_decide (ev_ToolCallName _ = "") then _ else _). cbn [at_Started at_Index at_CallID at_Name at_Arguments].
    rewrite Hst. cbv iota. unfold putToolCall at 1 2. do 6 wp_step. cbn [at_CallID]. rewrite Hcall.
    eapply tool_delta_spec with (state := mkAnthropicTool (at_Index state) id name (at_Arguments state) true);
      cbn; [|done|done|by rewrite insert_insert_eq, lookup_insert_eq|].
    + constructor; cbn; [|done|by rewrite Hs|by rewrite Hs]. rewrite insert_insert_eq.
      pose proof (rel_name_tool _ _ _ _ _ name Hr Hid) as Hr'. by rewrite Hcall in Hr'.
    + intros s' bs' Hinv'. apply (HQ s' bs').
      by rewrite (r_ct_arguments _ _ _ Hr), lookup_fmap, Hid in *.
  - (* a new call *)
    repeat wp_step.
    set (name := if bool_decide (ev_ToolCallName _ = "") then _ else _). cbn [at_Started at_Index at_CallID at_Name at_Arguments].
    cbv iota. unfold putToolCall at 1 2. do 2 wp_step. eapply emit; [exact Hc| |].
    { eapply client_start; [done|cbn; by rewrite (r_next _ _ _ Hr)| |].
      - unfold addToolCallMetadataToAnthropicBlock. set (signature := firstNonEmptyGatewayString _).
        destruct (bool_decide (signature = "")); reflexivity.
      - eapply tool_is_new; [done|done|done|apply TrimSpace_idem]. }
    intros s' He _ Hc'. cbn [io_enc at_CallID] in He. do 2 wp_step. cbn [at_CallID]. rewrite He.
    eapply tool_delta_spec with (state := mkAnthropicTool (ae_nextIndex (io_enc s)) id name "" true)
      (bs := bs ++ [mkBlock (BTool id) "" "" true])
      (ct := mkContent (ct_text ct) (ct_thinking ct) (<[id := ""]> (ct_arguments ct)));
      cbn; [|done|done|by rewrite lookup_insert_eq|].
    + constructor; cbn; [|done|by rewrite Hs|by rewrite Hs]. rewrite !insert_insert_eq.
      apply (rel_open_tool _ _ _ _ name Hr Hth Hid).
    + intros s'' bs' Hinv'. apply (HQ s'' bs').
      by rewrite insert_insert_eq, (r_ct_arguments _ _ _ Hr), lookup_fmap, Hid in *.
Qed.

Lemma encode_spec s bs ct event (Q : unit → io anthropicMessagesStreamEncoder → Prop) :
  terminal event = false → Inv s bs ct →
  (∀ s' bs', Inv s' bs' (add_event candidateSpec ct event) → Q tt s') →
  wp failed (ae_EncodeEvent spec candidateSpec requireUsage valid order event) s Q.
Proof.
  intros Ht Hinv HQ. unfold ae_EncodeEvent, ae_mergeMeta. do 2 wp_step.
  set (s1 := mkIO (ae_set_meta _ _ _ (io_enc s)) (io_capture s) (io_writer s)).
  assert (Hinv1 : Inv s1 bs ct).
  { destruct Hinv. constructor; cbn; try done. by apply rel_meta. }
  clearbody s1. clear s Hinv. unfold terminal in Ht.
  destruct (ev_Type event) eqn:E; try discriminate Ht.
  - apply (start_spec s1 bs ct Q Hinv1). intros s' Hinv' _. apply (HQ s' bs). unfold add_event. by rewrite E.
  - apply (text_spec s1 bs ct); [done|]. intros s' bs' Hinv'. apply (HQ s' bs'). unfold add_event. by rewrite E.
  - by apply (tool_spec s1 bs ct).
  - by apply (reasoning_spec s1 bs ct).
  - wp_step. apply (HQ _ bs). unfold add_event. rewrite E. by apply Inv_capture.
  - wp_step. apply (HQ _ bs). unfold add_event. rewrite E. by apply Inv_capture.
  - unfold takeUsage, when. unfold add_event in HQ. rewrite E in HQ.
    destruct (usageCounts _); wp_step; apply (HQ _ bs); [by apply Inv_capture|done].
Qed.

(** ** The end of the stream *)

(** The blocks still open are those of [l]; their content is that of [bs0]. *)
Record closing (s : io anthropicMessagesStreamEncoder) (l : list nat) (bs0 : list block) : Prop := {
  cl_blocks : ∃ bs, client_run CNew (frames s) = Some (CStreaming bs) ∧ map strip bs = map strip bs0
    ∧ ∀ i, i ∈ l ↔ ∃ b, bs !! i = Some b ∧ b_open b = true;
  cl_nodup : NoDup l
}.

Lemma close_spec s i l bs0 z (Q : unit → io anthropicMessagesStreamEncoder → Prop) :
  closing s (i :: l) bs0 → z = Z.of_nat i →
  (∀ s', io_enc s' = io_enc s → io_capture s' = io_capture s → closing s' l bs0 → Q tt s') →
  wp failed (ae_writeEvent "content_block_stop"
    [("type", AString "content_block_stop"); ("index", AInt z)]) s Q.
Proof.
  intros [(bs & Hc & Hm & Hl) [Hi Hnd]%list.NoDup_cons] -> HQ.
  destruct (proj1 (Hl i)) as (b & Hb & Ho); [by left|].
  eapply emit; [exact Hc|by apply (client_stop bs i b)|]. intros s' He Hcap Hc'. apply HQ; [done..|].
  split; [|done]. eexists. split; [exact Hc'|]. split.
  - rewrite <- Hm. change (map strip) with (fmap (M:=list) strip). rewrite list_fmap_insert.
    apply list_insert_id. rewrite list_lookup_fmap, Hb. done.
  - intros j. split.
    + intros Hj. destruct (proj1 (Hl j)) as (b' & Hb' & Ho'); [by right|].
      exists b'. rewrite list_lookup_insert_ne by congruence. done.
    + intros (b' & [(<- & <- & _)|[Hne Hb']]%list_lookup_insert_Some & Ho'); [done|].
      assert (Hj : j ∈ i :: l) by (apply Hl; by exists b').
      apply elem_of_cons in Hj as [->|?]; [congruence|done].
Qed.

(** The order in which the encoder closes what is open. *)
Definition open_indices (e : anthropicMessagesStreamEncoder) : list nat :=
  (if ae_textStarted e then [Z.to_nat (ae_textIndex e)] else [])
  ++ (if thinking_open e then [Z.to_nat (ae_thinkingIndex e)] else [])
  ++ map (λ state, Z.to_nat (at_Index state)) (orderedToolCalls e).

Lemma elem_of_ordered e bs ct state :
  rel e bs ct → state ∈ orderedToolCalls e ↔ ∃ id, ae_toolCalls e !! id = Some state.
Proof.
  intros Hr. unfold orderedToolCalls. rewrite list_elem_of_omap. split.
  - intros (id & _ & Hid). by exists id.
  - intros (id & Hid). exists id. split; [|done]. apply (r_order _ _ _ Hr). by eexists.
Qed.

Lemma ordered_indices_nodup e bs ct :
  rel e bs ct → NoDup (map (λ state, Z.to_nat (at_Index state)) (orderedToolCalls e)).
Proof.
  intros Hr. unfold orderedToolCalls. destruct (r_order _ _ _ Hr) as [Hnd _].
  induction Hnd as [|id ids Hid Hnd IH]; [constructor|]. cbn.
  destruct (ae_toolCalls e !! id) as [state|] eqn:Es; [|done]. cbn. constructor; [|done].
  intros (state' & Hix & (id' & Hin & Hid')%list_elem_of_omap)%list_elem_of_fmap.
  destruct (block_at_tool _ _ _ _ _ Hr Es) as [_ Hb], (block_at_tool _ _ _ _ _ Hr Hid') as [_ Hb'].
  rewrite Hix in Hb. rewrite Hb in Hb'. by simplify_eq.
Qed.

Lemma rel_closing s bs ct :
  rel (io_enc s) bs ct → client_run CNew (frames s) = Some (CStreaming bs) →
  closing s (open_indices (io_enc s)) bs.
Proof.
  intros Hr Hc. set (e := io_enc s) in *.
  assert (Hkind : ∀ i, i ∈ open_indices e → ∃ b, bs !! i = Some b ∧ b_open b = true).
  { intros i. unfold open_indices. rewrite !elem_of_app. intros [H|[H|H]].
    - destruct (ae_textStarted e) eqn:Ht; [|by apply not_elem_of_nil in H].
      apply list_elem_of_singleton in H as ->. destruct (block_at_text _ _ _ Hr Ht). by eexists.
    - destruct (thinking_open e) eqn:Ht; [|by apply not_elem_of_nil in H].
      apply list_elem_of_singleton in H as ->.
      destruct (r_thinking _ _ _ Hr Ht) as (bs0 & b & -> & _ & Ho & ->). exists b.
      rewrite Nat2Z.id. split; [apply lookup_snoc_Some; by right|done].
    - apply list_elem_of_fmap in H as (state & -> & [id Hid]%(elem_of_ordered _ _ _ _ Hr)).
      destruct (block_at_tool _ _ _ _ _ Hr Hid). by eexists. }
  split.
  - exists bs. split_and!; [done|done|]. intros i. split; [apply Hkind|]. intros (b & Hb & Ho).
    unfold open_indices. rewrite !elem_of_app. pose proof (r_blocks _ _ _ Hr i b Hb) as Hok.
    unfold block_ok in Hok. destruct (b_kind b) as [| |id].
    + left. destruct Hok as (-> & -> & _). rewrite Nat2Z.id. by left.
    + right. left. destruct (Hok Ho) as (-> & ->). rewrite Nat2Z.id. by left.
    + right. right. destruct Hok as (state & Hid & Hix & _). apply list_elem_of_fmap.
      exists state. rewrite Hix, Nat2Z.id. split; [done|]. apply (elem_of_ordered _ _ _ _ Hr). by exists id.
  - assert (Hkinds : ∀ i b, bs !! i = Some b →
      (i ∈ (if ae_textStarted e then [Z.to_nat (ae_textIndex e)] else []) → b_kind b = BText)
      ∧ (i ∈ (if thinking_open e then [Z.to_nat (ae_thinkingIndex e)] else []) → b_kind b = BThinking)
      ∧ (i ∈ map (λ state, Z.to_nat (at_Index state)) (orderedToolCalls e) → ∃ id, b_kind b = BTool id)).
    { intros i b Hb. split_and!; intros H.
      - destruct (ae_textStarted e) eqn:Ht; [|by apply not_elem_of_nil in H].
        apply list_elem_of_singleton in H as ->. destruct (block_at_text _ _ _ Hr Ht). by simplify_eq.
      - destruct (thinking_open e) eqn:Ht; [|by apply not_elem_of_nil in H].
        apply list_elem_of_singleton in H as ->.
        destruct (r_thinking _ _ _ Hr Ht) as (bs0 & b' & -> & ? & _ & Hix). rewrite Hix, Nat2Z.id in Hb.
        apply lookup_snoc_Some in Hb as [[? _]|[_ <-]]; [lia|done].
      - apply list_elem_of_fmap in H as (state & -> & [id Hid]%(elem_of_ordered _ _ _ _ Hr)).
        destruct (block_at_tool _ _ _ _ _ Hr Hid). simplify_eq. by exists id. }
    assert (Hdisj : ∀ i, i ∈ open_indices e → ∃ b, bs !! i = Some b) by (intros i Hi; destruct (Hkind i Hi) as (b & ? & _); by exists b).
    unfold open_indices in *. rewrite !list.NoDup_app. split_and!.
    + destruct (ae_textStarted e); [apply list.NoDup_singleton|constructor].
    + intros i H1 H2. destruct (Hdisj i) as [b Hb]; [by apply elem_of_app; left|].
      destruct (Hkinds i b Hb) as (K1 & K2 & K3). apply K1 in H1.
      apply elem_of_app in H2 as [H2|H2]; [apply K2 in H2; congruence|apply K3 in H2 as [? H2]; congruence].
    + destruct (thinking_open e); [apply list.NoDup_singleton|constructor].
    + intros i H1 H2. destruct (Hdisj i) as [b Hb]; [by apply elem_of_app; right; apply elem_of_app; left|].
      destruct (Hkinds i b Hb) as (K1 & K2 & K3). apply K2 in H1. apply K3 in H2 as [? H2]. congruence.
    + by eapply ordered_indices_nodup.
Qed.

Lemma thinking_closing s bs0 l (Q : unit → io anthropicMessagesStreamEncoder → Prop) :
  (thinking_open (io_enc s) = true → 0 ≤ ae_thinkingIndex (io_enc s)) →
  closing s ((if thinking_open (io_enc s) then [Z.to_nat (ae_thinkingIndex (io_enc s))] else []) ++ l) bs0 →
  (∀ s', ae_toolCalls (io_enc s') = ae_toolCalls (io_enc s) →
         ae_toolCallOrder (io_enc s') = ae_toolCallOrder (io_enc s) →
         closing s' l bs0 → Q tt s') →
  wp failed stopThinkingIfOpen s Q.
Proof.
  unfold thinking_open, stopThinkingIfOpen. intros H0 Hcl HQ. repeat wp_step.
  destruct (ae_thinkingStarted (io_enc s)), (ae_thinkingStopped (io_enc s));
    cbn [negb orb andb app] in *; try by apply wp_ret, HQ.
  wp_step. eapply close_spec; [exact Hcl|rewrite Z2Nat.id; [done|by apply H0]|].
  intros s' He _ Hcl'. wp_step. apply HQ; cbn; [by rewrite He..|].
  destruct Hcl' as [Hb Hnd]. by constructor.
Qed.

Lemma finish_spec s bs ct stopReason stopSequence completed endReason :
  Inv s bs ct →
  wp failed (ae_sendFinish spec requireUsage valid stopReason stopSequence completed endReason) s
    (λ _ s', ∃ bs',
       client_run CNew (frames s')
       = Some (CDone bs' (if negb (bool_decide (ct_arguments ct = ∅)) && bool_decide (stopReason = "end_turn")
                          then "tool_use" else stopReason))
       ∧ message_text bs' = ct_text ct ∧ message_thinking bs' = ct_thinking ct
       ∧ (∀ id, message_arguments bs' id = ct_arguments ct !! id)
       ∧ sc_sawDone (io_capture s') = true
       ∧ sc_streamCompleted (io_capture s') = completed ∧ sc_endReason (io_capture s') = endReason).
Proof.
  intros Hinv. unfold ae_sendFinish. repeat wp_step. rewrite (i_running _ _ _ Hinv). repeat wp_step.
  destruct (requireUsage && _).
  { repeat wp_step. apply wp_fail. split; [eexists; apply (i_client _ _ _ Hinv)|right]. cbn. set_solver. }
  apply wp_bind. unfold ae_validateToolCallArguments. repeat wp_step.
  apply wp_for_each with (I := λ _ s', s' = s); [done| |].
  { intros state rest ? ->. destruct (StreamEvents.validateToolCallArguments _ _); [by apply wp_ret|].
    repeat wp_step. apply wp_fail. split; [eexists; apply (i_client _ _ _ Hinv)|right]. cbn. set_solver. }
  intros ? ->. set (capture := io_capture s). clearbody capture.
  apply wp_bind, (start_spec s bs ct); [done|]. clear s Hinv. intros s [Hr Hrun Hc Hf] Hs. rewrite Hs in Hc.
  repeat wp_step. pose proof (rel_closing _ _ _ Hr Hc) as Hcl. unfold open_indices in Hcl.
  set (e := io_enc s) in *.
  assert (Hidx : ∀ state, state ∈ orderedToolCalls e → 0 ≤ at_Index state).
  { intros state [id Hid]%(elem_of_ordered _ _ _ _ Hr). by destruct (block_at_tool _ _ _ _ _ Hr Hid). }
  apply wp_mono with (Q := λ _ s', io_enc s' = e ∧ closing s'
    ((if thinking_open e then [Z.to_nat (ae_thinkingIndex e)] else [])
     ++ map (λ state, Z.to_nat (at_Index state)) (orderedToolCalls e)) bs).
  2: { unfold when. destruct (ae_textStarted e) eqn:Ht; [|by apply wp_ret].
       destruct (block_at_text _ _ _ Hr Ht) as [H0 _].
       eapply close_spec; [exact Hcl|by rewrite Z2Nat.id|]. by intros s' -> _ ?. }
  clear Hcl Hc. intros _ s1 [He Hcl]. apply wp_bind. rewrite <- He in Hcl.
  eapply thinking_closing; [|exact Hcl|].
  { rewrite He. intros Ht. destruct (r_thinking _ _ _ Hr Ht) as (? & ? & _ & _ & _ & ->). lia. }
  rewrite He. clear s1 He Hcl. intros s1 Htools Horder Hcl. repeat wp_step.
  assert (Hord : orderedToolCalls (io_enc s1) = orderedToolCalls e) by (unfold orderedToolCalls; by rewrite Htools, Horder).
  rewrite !Hord.
  apply wp_for_each with (I := λ l s', closing s' (map (λ state, Z.to_nat (at_Index state)) l) bs
    ∧ ∀ state, state ∈ l → 0 ≤ at_Index state); [done| |].
  { intros state rest s' [Hcl' Hpos]. eapply close_spec; [exact Hcl'| |].
    - rewrite Z2Nat.id; [done|]. apply Hpos. by left.
    - intros s'' _ _ ?. split; [done|]. intros ? ?. apply Hpos. by right. }
  clear s1 Htools Horder Hcl Hord. intros s1 [[(bs1 & Hc & Hm & Hopen) _] _].
  assert (Hnone : bool_decide (orderedToolCalls e = []) = bool_decide (ct_arguments ct = ∅)).
  { apply bool_decide_ext. rewrite (r_ct_arguments _ _ _ Hr), fmap_empty_iff. split.
    - intros Hnil. apply map_empty. intros id. destruct (ae_toolCalls e !! id) as [state|] eqn:E; [|done].
      assert (state ∈ orderedToolCalls e) as Hin by (apply (elem_of_ordered _ _ _ _ Hr); by exists id).
      rewrite Hnil in Hin. by apply not_elem_of_nil in Hin.
    - intros Hemp. destruct (orderedToolCalls e) as [|state l] eqn:E; [done|].
      assert (state ∈ orderedToolCalls e) as [id Hid]%(elem_of_ordered _ _ _ _ Hr) by (rewrite E; by left).
      rewrite Hemp in Hid. by apply lookup_empty_Some in Hid. }
  rewrite Hnone. apply wp_bind. eapply emit; [exact Hc| |].
  { cbn. assert (forallb (λ b, negb (b_open b)) bs1 = true) as ->; [|reflexivity].
    apply forallb_forall. intros b [i Hi]%list_elem_of_In%list_elem_of_lookup.
    destruct (b_open b) eqn:Eo; [|done]. exfalso. apply (not_elem_of_nil i), Hopen. by exists b. }
  intros s2 _ _ Hc2. apply wp_bind. rewrite Hstop. eapply emit; [exact Hc2|reflexivity|].
  intros s3 _ _ Hc3. repeat wp_step. exists bs1. split; [exact Hc3|].
  destruct (rel_content _ _ _ bs1 Hr Hm) as (? & ? & ?). by split_and!.
Qed.
End specs.

(** ** A stream from its first event to its last *)

Lemma failed_encoded {E} e (s : io E) : failed e s → failed e (encode_failed s).
Proof. intros [Ha Hw]. split; [done|by apply gave_up_encoded]. Qed.

(** A stream ends with one of these. *)
Definition finish_reason (ct : content) (event : canonicalStreamEvent) : string :=
  match ev_Type event with
  | Incomplete => "max_tokens"
  | _ => if negb (bool_decide (ev_StopSequence (ev_Finish event) = "")) then "stop_sequence"
         else if bool_decide (ct_arguments ct = ∅) then "end_turn" else "tool_use"
  end.

Definition newStream (room : option nat) (e : anthropicMessagesStreamEncoder)
    : io anthropicMessagesStreamEncoder := mkIO e emptyCapture (mkWriter [] room).

Section whole.
Context (spec candidateSpec : resolvedProtocolSpec) (requireUsage : bool) (valid : string → bool)
        (order : list (string * any) → list (string * any)).

Lemma Inv_new room id createdAt :
  Inv (newStream room (newAnthropicMessagesStreamEncoder id createdAt)) [] (mkContent "" "" ∅).
Proof.
  split; [|done..]. split; try done.
  split; [constructor|]. intros x. cbn. rewrite lookup_empty.
  split; [by intros ?%not_elem_of_nil|by intros []].
Qed.

Lemma events_spec events s bs ct (Q : unit → io anthropicMessagesStreamEncoder → Prop) :
  Forall (λ event, terminal event = false) events → Inv s bs ct →
  (∀ s' bs', Inv s' bs' (fold_left (add_event candidateSpec) events ct) → Q tt s') →
  wp failed (encodeRaw (ae_EncodeEvent spec candidateSpec requireUsage valid order) events) s Q.
Proof.
  intros Hev Hinv HQ.
  eapply wp_for_each with (I := λ rest s', ∃ bs' ct', Inv s' bs' ct' ∧
    Forall (λ event, terminal event = false) rest ∧
    fold_left (add_event candidateSpec) rest ct' = fold_left (add_event candidateSpec) events ct).
  - by exists bs, ct.
  - intros event rest s' (bs' & ct' & Hinv' & [Ht Hrest]%list.Forall_cons & Hct).
    apply (wp_encoded failed); [apply @failed_encoded|].
    apply (encode_spec _ _ _ _ _ s' bs' ct' event); [done|done|].
    intros s2 bs2 Hinv2. by exists bs2, (add_event candidateSpec ct' event).
  - intros s' (bs' & ct' & Hinv' & _ & Hct). cbn in Hct. subst. by apply (HQ s' bs').
Qed.

(** How the capture says the stream ended. *)
Definition end_reason (event : canonicalStreamEvent) : string :=
  if bool_decide (ev_Type event = Completed) then "done" else "response_incomplete".

Lemma last_spec event s bs ct (Q : unit → io anthropicMessagesStreamEncoder → Prop) :
  protocolEventName spec Completed "message_stop" = "message_stop" →
  ev_Type event ∈ [Completed; Incomplete] → Inv s bs ct →
  (∀ s' bs', client_run CNew (frames s') = Some (CDone bs' (finish_reason ct event)) →
     message_text bs' = ct_text ct → message_thinking bs' = ct_thinking ct →
     (∀ id, message_arguments bs' id = ct_arguments ct !! id) →
     sc_sawDone (io_capture s') = true →
     sc_streamCompleted (io_capture s') = bool_decide (ev_Type event = Completed) →
     sc_endReason (io_capture s') = end_reason event → Q tt s') →
  wp failed (ae_EncodeEvent spec candidateSpec requireUsage valid order event) s Q.
Proof.
  intros Hstop Ht Hinv HQ. unfold ae_EncodeEvent, ae_mergeMeta. do 2 wp_step.
  set (s1 := mkIO (ae_set_meta _ _ _ (io_enc s)) (io_capture s) (io_writer s)).
  assert (Hinv1 : Inv s1 bs ct).
  { destruct Hinv. constructor; cbn; try done. by apply rel_meta. }
  clearbody s1. unfold finish_reason, end_reason in HQ.
  assert (ev_Type event = Completed ∨ ev_Type event = Incomplete) as [E|E] by set_solver; rewrite E in *.
  - eapply wp_mono; [|by eapply finish_spec]. intros [] s' (bs' & Hc & ? & ? & ? & ? & Hdone & ?).
    apply (HQ s' bs'); [|done..]. rewrite Hc. do 2 f_equal.
    repeat case_bool_decide; done.
  - eapply wp_mono; [|by eapply finish_spec]. intros [] s' (bs' & Hc & ? & ? & ? & ? & Hdone & ?).
    apply (HQ s' bs'); [|done..]. rewrite Hc. by rewrite andb_false_r.
Qed.

(** C13: The Anthropic stream is well formed and loses nothing.  Whatever a decoder emits
    (events none of which ends the stream, then [completed] or [incomplete]), with whatever
    event names and reasoning policies, and however long the connection lasts: the frames
    the encoder writes obey the protocol of the Messages API as [client_step] checks it
    (message_start first, block indices consecutive, the identifiers of calls distinct,
    deltas only into the last block of their kind while it is open, every block closed
    before message_delta, message_stop last).  On success
    the client is done, with exactly the text, the thinking and each tool call's arguments
    of the events, and the stop reason that says why it ended; otherwise what was written
    is accepted so far, and the connection broke or the capture names the reason. *)
Theorem anthropic_stream_is_accepted room id createdAt events last :
  protocolEventName spec Completed "message_stop" = "message_stop" →
  Forall (λ event, terminal event = false) events →
  ev_Type last ∈ [Completed; Incomplete] →
  let ct := content_of candidateSpec events in
  match encodeRaw (ae_EncodeEvent spec candidateSpec requireUsage valid order) (events ++ [last])
          (newStream room (newAnthropicMessagesStreamEncoder id createdAt)) with
  | (Ok _, s) => ∃ bs,
      client_run CNew (frames s) = Some (CDone bs (finish_reason ct last))
      ∧ message_text bs = ct_text ct ∧ message_thinking bs = ct_thinking ct
      ∧ (∀ id, message_arguments bs id = ct_arguments ct !! id)
      ∧ sc_streamCompleted (io_capture s) = bool_decide (ev_Type last = Completed)
  | (Err _, s) =>
      is_Some (client_run CNew (frames s))
      ∧ (w_room (io_writer s) = Some O
         ∨ sc_endReason (io_capture s)
             ∈ ["upstream_stream_error"; "usage_missing"; "tool_call_arguments_invalid_json"])
  end.
Proof.
  intros Hstop Hev Hlast ct.
  assert (wp failed (encodeRaw (ae_EncodeEvent spec candidateSpec requireUsage valid order) (events ++ [last]))
    (newStream room (newAnthropicMessagesStreamEncoder id createdAt))
    (λ _ s, ∃ bs, client_run CNew (frames s) = Some (CDone bs (finish_reason ct last))
      ∧ message_text bs = ct_text ct ∧ message_thinking bs = ct_thinking ct
      ∧ (∀ id, message_arguments bs id = ct_arguments ct !! id)
      ∧ sc_streamCompleted (io_capture s) = bool_decide (ev_Type last = Completed))) as H.
  { unfold encodeRaw. apply wp_for_each_app. eapply events_spec; [done|apply Inv_new|].
    intros s' bs' Hinv. cbn [for_each]. apply wp_bind, (wp_encoded failed); [intros ??; apply failed_encoded|].
    eapply last_spec; [done|done|exact Hinv|]. intros s2 bs2 ???????. apply wp_ret. by exists bs2. }
  unfold wp in H. by destruct (encodeRaw _ _ _) as [[]].
Qed.
End whole.

(** The events and policies of the registry for this protocol
    ([protocolspec/protocol_specs.json]). *)
Definition anthropicSpec : resolvedProtocolSpec :=
  mkSpec (list_to_map [("created", "message_start"); ("text_delta", "content_block_delta");
                       ("tool_call_delta", "content_block_delta"); ("completed", "message_stop")])
         (list_to_map [("thinking", "passthrough"); ("thinking_signature", "passthrough");
                       ("default", "metadata")]).

Definition sample_events : list canonicalStreamEvent :=
  [reasoningEvent noMeta "Let me see." (mkReasoning "thinking" "" 0);
   textEvent noMeta "Look" false;
   toolCallEvent noMeta (mkToolCall 0 "call_1" "search" "{" []);
   textEvent noMeta "ing." false;
   toolCallEvent noMeta (mkToolCall 0 "call_1" "" "}" [])].

Lemma anthropic_stream_is_accepted_witness :
  ∃ s bs,
    encodeRaw (ae_EncodeEvent anthropicSpec anthropicSpec false (λ _, true) id)
      (sample_events ++ [finishEvent Completed noMeta noFinish])
      (newStream None (newAnthropicMessagesStreamEncoder "msg_1" 0)) = (Ok tt, s)
    ∧ client_run CNew (frames s) = Some (CDone bs "tool_use")
    ∧ message_text bs = "Looking." ∧ message_thinking bs = "Let me see."
    ∧ length (frames s) = 14%nat.
Proof.
  pose proof (anthropic_stream_is_accepted anthropicSpec anthropicSpec false (λ _, true) id None
    "msg_1" 0 sample_events (finishEvent Completed noMeta noFinish)) as H.
  specialize (H ltac:(vm_compute; reflexivity)).
  specialize (H ltac:(repeat constructor)).
  specialize (H ltac:(cbn; left)).
  destruct (encodeRaw _ _ _) as [[[]|e] s] eqn:E in H; [|exfalso; vm_compute in E; discriminate].
  destruct H as (bs & Hc & Ht & Hth & _). exists s, bs.
  split_and!; [exact E|exact Hc|exact Ht|exact Hth|].
  assert (s = snd (encodeRaw (ae_EncodeEvent anthropicSpec anthropicSpec false (λ _, true) id)
      (sample_events ++ [finishEvent Completed noMeta noFinish])
      (newStream None (newAnthropicMessagesStreamEncoder "msg_1" 0)))) as -> by (rewrite E; reflexivity).
  vm_compute. reflexivity.
Defined.
