(* ===== verification/ChatStream.v ===== *)
(** * The OpenAI chat stream

    [openAIChatStreamDecoder] and [openAIChatStreamEncoder] of
    [gateway/protocol_canonical_stream.go]: chunks of [chat.completion.chunk] to canonical
    events and back.  The round trip says what a client that is itself this gateway gets
    of a stream. *)

From S2P Require Import Prelude GoFloat Catalog Json Pricing StreamEvents.

(** ** The chunk as it is unmarshalled *)

Record chatToolCall := mkChatToolCall {
  tc_Index : Z;
  tc_ID : string;
  tc_Name : string;
  tc_Arguments : string
}.

Record chatMessage := mkChatMessage {
  cm_Content : any;
  cm_ReasoningContent : string;
  cm_Thinking : string;
  cm_ThinkingSignature : string;
  cm_ToolCalls : list chatToolCall
}.

Record chatChoice := mkChatChoice { cc_Delta : chatMessage; cc_FinishReason : string }.

Record chatChunk := mkChunk {
  ck_ID : string;
  ck_Created : Z;
  ck_Model : string;
  ck_Choices : list chatChoice;
  ck_Usage : gatewayUsage
}.

(** Every element of an array. *)
Fixpoint read_all {A} (read : list (string * any) → option A) (items : list any)
    : option (list A) :=
  match items with
  | [] => Some []
  | item :: rest => members ← read_map item; a ← read members; l ← read_all read rest; Some (a :: l)
  end.

(** The fields that nothing reads are still checked for their type. *)
Definition read_chatToolCall (m : list (string * any)) : option chatToolCall :=
  index ← read_int (field m "index");
  id ← read_string (field m "id");
  _ ← read_string (field m "type");
  _ ← read_string (field m "thought_signature");
  _ ← read_string (field m "thoughtSignature");
  function ← read_map (field m "function");
  name ← read_string (field function "name");
  arguments ← read_string (field function "arguments");
  Some (mkChatToolCall index id name arguments).

Definition read_chatMessage (m : list (string * any)) : option chatMessage :=
  _ ← read_string (field m "role");
  reasoning ← read_string (field m "reasoning_content");
  thinking ← read_string (field m "thinking");
  signature ← read_string (field m "thinking_signature");
  calls ← read_array (field m "tool_calls");
  calls ← read_all read_chatToolCall calls;
  Some (mkChatMessage (field m "content") reasoning thinking signature calls).

Definition read_chatChoice (m : list (string * any)) : option chatChoice :=
  _ ← read_int (field m "index");
  message ← read_map (field m "message");
  _ ← read_chatMessage message;
  delta ← read_map (field m "delta");
  delta ← read_chatMessage delta;
  finishReason ← read_string (field m "finish_reason");
  Some (mkChatChoice delta finishReason).

Definition read_promptTokensDetails (m : list (string * any)) : option promptTokensDetails :=
  cached ← read_int (field m "cached_tokens");
  written ← read_int (field m "cache_write_tokens");
  Some (mkDetails cached written).

Definition read_gatewayUsage (m : list (string * any)) : option gatewayUsage :=
  prompt ← read_int (field m "prompt_tokens");
  completion ← read_int (field m "completion_tokens");
  total ← read_int (field m "total_tokens");
  images ← read_int (field m "image_count");
  cached ← read_int (field m "cached_tokens");
  hit ← read_int (field m "prompt_cache_hit_tokens");
  miss ← read_int (field m "prompt_cache_miss_tokens");
  written ← read_int (field m "cache_write_tokens");
  created ← read_int (field m "cache_creation_input_tokens");
  created5m ← read_int (field m "cache_creation_5m_input_tokens");
  created1h ← read_int (field m "cache_creation_1h_input_tokens");
  reasoning ← read_int (field m "reasoning_tokens");
  inputText ← read_int (field m "input_text_tokens");
  inputImage ← read_int (field m "input_image_tokens");
  outputImage ← read_int (field m "output_image_tokens");
  audio ← read_int (field m "audio_output_tokens");
  details ← read_pointer read_promptTokensDetails (field m "prompt_tokens_details");
  Some (mkUsage prompt completion total images cached hit miss written created created5m created1h
          reasoning inputText inputImage outputImage audio details).

Definition read_chatChunk (m : list (string * any)) : option chatChunk :=
  id ← read_string (field m "id");
  created ← read_int (field m "created");
  model ← read_string (field m "model");
  choices ← read_array (field m "choices");
  choices ← read_all read_chatChoice choices;
  usage ← read_map (field m "usage");
  usage ← read_gatewayUsage usage;
  Some (mkChunk id created model choices usage).

(** ** The decoder *)

Record openAIChatStreamDecoder := mkChatDecoder {
  cd_createdSent : bool;
  cd_terminalEmitted : bool;
  cd_pendingTerminal : option canonicalStreamEvent;
  cd_toolCallIDByIndex : gmap Z string;
  cd_toolCallNameByIndex : gmap Z string
}.

Definition newOpenAIChatStreamDecoder : openAIChatStreamDecoder := mkChatDecoder false false None ∅ ∅.

(** [canonicalStreamEvent{{Type: …, ID: chunk.ID, Model: chunk.Model}}] *)
Definition chunkMeta (chunk : chatChunk) : eventMeta := mkMeta (ck_ID chunk) (ck_Model chunk) 0.
Definition chunkMetaCreated (chunk : chatChunk) : eventMeta :=
  mkMeta (ck_ID chunk) (ck_Model chunk) (ck_Created chunk).

Section decoder.
(** A new UUID; a call's identifier is kept by its index, so one is asked for at most
    once per index. *)
Context (newUUID : Z → string).

Definition decodeToolCall (chunk : chatChunk) (d : openAIChatStreamDecoder) (call : chatToolCall)
    : openAIChatStreamDecoder * canonicalStreamEvent :=
  let index := tc_Index call in
  let ids := cd_toolCallIDByIndex d in
  let '(callID, ids) :=
    if bool_decide (TrimSpace (tc_ID call) = "") then (TrimSpace (default "" (ids !! index)), ids)
    else (TrimSpace (tc_ID call), <[index := TrimSpace (tc_ID call)]> ids) in
  let '(callID, ids) :=
    if bool_decide (callID = "")
    then ("call_" +:+ newUUID index, <[index := "call_" +:+ newUUID index]> ids) else (callID, ids) in
  let names := cd_toolCallNameByIndex d in
  let '(name, names) :=
    if bool_decide (TrimSpace (tc_Name call) = "") then (TrimSpace (default "" (names !! index)), names)
    else (TrimSpace (tc_Name call), <[index := TrimSpace (tc_Name call)]> names) in
  (mkChatDecoder (cd_createdSent d) (cd_terminalEmitted d) (cd_pendingTerminal d) ids names,
   toolCallEvent (chunkMeta chunk) (mkToolCall index callID name (tc_Arguments call) [])).

Fixpoint decodeToolCalls (chunk : chatChunk) (d : openAIChatStreamDecoder)
    (calls : list chatToolCall) : openAIChatStreamDecoder * list canonicalStreamEvent :=
  match calls with
  | [] => (d, [])
  | call :: rest =>
      let '(d, event) := decodeToolCall chunk d call in
      let '(d, events) := decodeToolCalls chunk d rest in (d, event :: events)
  end.

(** A choice with a finish reason only sets the terminal event that is to come: its delta
    is not looked at. *)
Definition decodeChoice (chunk : chatChunk) (d : openAIChatStreamDecoder) (choice : chatChoice)
    : openAIChatStreamDecoder * list canonicalStreamEvent :=
  let finishReason := TrimSpace (cc_FinishReason choice) in
  if negb (bool_decide (finishReason = "")) then
    let eventType := if chatFinishReasonIsIncomplete finishReason then Incomplete else Completed in
    (mkChatDecoder (cd_createdSent d) (cd_terminalEmitted d)
       (Some (finishEvent eventType (chunkMetaCreated chunk) (mkFinish finishReason "" "")))
       (cd_toolCallIDByIndex d) (cd_toolCallNameByIndex d), [])
  else
    let delta := cc_Delta choice in
    let text := rawStringFromAny (cm_Content delta) in
    let reasoning := firstNonEmptyGatewayString [cm_ReasoningContent delta; cm_Thinking delta] in
    let signature := cm_ThinkingSignature delta in
    let '(d, calls) := decodeToolCalls chunk d (cm_ToolCalls delta) in
    (d, (if bool_decide (text = "") then [] else [textEvent (chunkMeta chunk) text false])
        ++ (if bool_decide (TrimSpace reasoning = "") then []
            else [reasoningEvent (chunkMeta chunk) reasoning (mkReasoning "thinking" "" 0)])
        ++ (if bool_decide (signature = "") then []
            else [reasoningEvent (chunkMeta chunk) signature (mkReasoning "thinking_signature" "" 0)])
        ++ calls).

Fixpoint decodeChoices (chunk : chatChunk) (d : openAIChatStreamDecoder) (choices : list chatChoice)
    : openAIChatStreamDecoder * list canonicalStreamEvent :=
  match choices with
  | [] => (d, [])
  | choice :: rest =>
      let '(d, events) := decodeChoice chunk d choice in
      let '(d, more) := decodeChoices chunk d rest in (d, events ++ more)
  end.

Definition decodeChunk (d : openAIChatStreamDecoder) (chunk : chatChunk)
    : openAIChatStreamDecoder * list canonicalStreamEvent :=
  let created := if cd_createdSent d then [] else [createdEvent (chunkMetaCreated chunk)] in
  let d := mkChatDecoder true (cd_terminalEmitted d) (cd_pendingTerminal d) (cd_toolCallIDByIndex d)
             (cd_toolCallNameByIndex d) in
  let '(d, events) := decodeChoices chunk d (ck_Choices chunk) in
  (d, created ++ events
      ++ if usageCounts (ck_Usage chunk) then [usageEvent (normalized (ck_Usage chunk))] else []).

(** The line [[DONE]]: the terminal event waits for it, so that the usage comes first. *)
Definition decodeDone (d : openAIChatStreamDecoder)
    : openAIChatStreamDecoder * list canonicalStreamEvent :=
  if cd_terminalEmitted d then (d, [])
  else (mkChatDecoder (cd_createdSent d) true None (cd_toolCallIDByIndex d) (cd_toolCallNameByIndex d),
        [default (finishEvent Completed noMeta noFinish) (cd_pendingTerminal d)]).

(** What was parsed, bound to the chunk. *)
Definition decodeData (d : openAIChatStreamDecoder) (data : any)
    : option (openAIChatStreamDecoder * list canonicalStreamEvent) :=
  members ← read_map data; decodeChunk d <$> read_chatChunk members.

(** [None] is an error; [parse] is the JSON parser. *)
Definition DecodeLine (parse : string → option any) (d : openAIChatStreamDecoder) (line : string)
    : option (openAIChatStreamDecoder * list canonicalStreamEvent) :=
  match sseDataFromLine line with
  | SSENone => Some (d, [])
  | SSEDone => Some (decodeDone d)
  | SSEData data => parse data ≫= decodeData d
  end.

Definition Flush (d : openAIChatStreamDecoder) : openAIChatStreamDecoder * list canonicalStreamEvent :=
  match cd_pendingTerminal d with
  | Some event =>
      if cd_terminalEmitted d then (d, [])
      else (mkChatDecoder (cd_createdSent d) true None (cd_toolCallIDByIndex d) (cd_toolCallNameByIndex d),
            [event])
  | None => (d, [])
  end.
End decoder.

(** ** The encoder *)

Record openAIChatStreamEncoder := mkChatEncoder {
  ce_responseID : string;
  ce_model : string;
  ce_createdAt : Z;
  ce_startSent : bool;
  ce_stopSent : bool;
  ce_sawText : bool;
  ce_sawToolCall : bool;
  ce_toolCallIndex : gmap string Z;
  ce_toolCallArgs : gmap string string;
  ce_toolCallNameSent : gset string
}.

Definition newOpenAIChatStreamEncoder (createdAt : Z) : openAIChatStreamEncoder :=
  mkChatEncoder "" "" createdAt false false false false ∅ ∅ ∅.

Definition ce_set_meta (responseID model : string) (createdAt : Z) (e : openAIChatStreamEncoder)
    : openAIChatStreamEncoder :=
  mkChatEncoder responseID model createdAt (ce_startSent e) (ce_stopSent e) (ce_sawText e)
    (ce_sawToolCall e) (ce_toolCallIndex e) (ce_toolCallArgs e) (ce_toolCallNameSent e).
Definition ce_set_sent (startSent stopSent sawText sawToolCall : bool) (e : openAIChatStreamEncoder)
    : openAIChatStreamEncoder :=
  mkChatEncoder (ce_responseID e) (ce_model e) (ce_createdAt e) startSent stopSent sawText sawToolCall
    (ce_toolCallIndex e) (ce_toolCallArgs e) (ce_toolCallNameSent e).
Definition ce_set_calls (index : gmap string Z) (args : gmap string string) (nameSent : gset string)
    (e : openAIChatStreamEncoder) : openAIChatStreamEncoder :=
  mkChatEncoder (ce_responseID e) (ce_model e) (ce_createdAt e) (ce_startSent e) (ce_stopSent e)
    (ce_sawText e) (ce_sawToolCall e) index args nameSent.

Definition chatCompletionUsagePayload (usage : gatewayUsage) : any :=
  let usage := normalized usage in
  AObject
    ([("prompt_tokens", AInt (PromptTokens usage)); ("completion_tokens", AInt (CompletionTokens usage));
      ("total_tokens", AInt (TotalTokens usage));
      ("prompt_tokens_details", AObject [("cached_tokens", AInt (CachedPromptTokens usage))])]
     ++ if 0 <? ReasoningTokens usage
        then [("completion_tokens_details", AObject [("reasoning_tokens", AInt (ReasoningTokens usage))])]
        else []).

Section encoder.
Context (candidateSpec : resolvedProtocolSpec) (siteType : string) (includeUsage requireUsage : bool)
        (valid : string → bool) (order : list (string * any) → list (string * any)).

Let EM := M openAIChatStreamEncoder.
Open Scope stream_scope.

(** The members every chunk has. *)
Definition chunk_of (e : openAIChatStreamEncoder) (choices : list any) (more : list (string * any)) : any :=
  AObject ([("id", AString (responseIDOrFallback (ce_responseID e)));
            ("object", AString "chat.completion.chunk"); ("created", AInt (ce_createdAt e));
            ("model", AString (ce_model e)); ("choices", AArray choices)] ++ more).

Definition delta_choice (delta : list (string * any)) (more : list (string * any)) : any :=
  AObject ([("index", AInt 0); ("delta", AObject delta)] ++ more).

Definition writeChunk (choices : list any) (more : list (string * any)) : EM unit :=
  let! e := get in write (FData (chunk_of e choices more)).

Definition writeDelta (delta : list (string * any)) : EM unit :=
  writeChunk [delta_choice delta []] [].

Definition mergeMeta (event : canonicalStreamEvent) : EM unit :=
  modify (λ e,
    let meta := ev_Meta event in
    ce_set_meta (if bool_decide (ev_ID meta = "") then ce_responseID e else ev_ID meta)
      (if bool_decide (ev_Model meta = "") then ce_model e else ev_Model meta)
      (if 0 <? ev_CreatedAt meta then ev_CreatedAt meta else ce_createdAt e) e).

Definition sendStartIfNeeded : EM unit :=
  let! e := get in
  if ce_startSent e then ret tt
  else
    modify (λ e, ce_set_sent true (ce_stopSent e) (ce_sawText e) (ce_sawToolCall e) e) ;;;
    writeDelta [("role", AString "assistant")].

(** The state of the call after its delta, its index, and whether its name goes out. *)
Definition noteToolCall (callID name argumentsDelta : string) (e : openAIChatStreamEncoder)
    : openAIChatStreamEncoder :=
  let index := match ce_toolCallIndex e !! callID with
               | Some _ => ce_toolCallIndex e
               | None => <[callID := Z.of_nat (size (ce_toolCallIndex e))]> (ce_toolCallIndex e)
               end in
  let args := if bool_decide (argumentsDelta = "") then ce_toolCallArgs e
              else <[callID := default "" (ce_toolCallArgs e !! callID) +:+ argumentsDelta]>
                     (ce_toolCallArgs e) in
  let sent := if bool_decide (name = "") then ce_toolCallNameSent e
              else {[callID]} ∪ ce_toolCallNameSent e in
  ce_set_calls index args sent e.

Definition sendToolCallDelta (event : canonicalStreamEvent) : EM unit :=
  let call := ev_ToolCall event in
  let callID := TrimSpace (ev_ToolCallID call) in
  let name := ev_ToolCallName call in
  let arguments := ev_ToolCallArgumentsDelta call in
  if bool_decide (callID = "") then ret tt
  else
    sendStartIfNeeded ;;;
    modify (λ e, ce_set_sent (ce_startSent e) (ce_stopSent e) (ce_sawText e) true e) ;;;
    let! e := get in
    let named := negb (bool_decide (name = "")) && negb (bool_decide (callID ∈ ce_toolCallNameSent e)) in
    modify (noteToolCall callID name arguments) ;;;
    let! e := get in
    writeDelta [("tool_calls", AArray [AObject
      [("index", AInt (default 0 (ce_toolCallIndex e !! callID))); ("id", AString callID);
       ("type", AString "function");
       ("function", AObject (("arguments", AString arguments)
                             :: if named then [("name", AString name)] else []))]])].

(** The calls are visited in no particular order: which one the message names may vary. *)
Definition validateToolCallArguments : EM unit :=
  let! e := get in
  for_each (map_to_list (ce_toolCallArgs e)) (λ '(callID, args),
    if StreamEvents.validateToolCallArguments valid args then ret tt
    else
      modify_capture (set_endReason "tool_call_arguments_invalid_json") ;;;
      fail ("tool call " +:+ nonEmptyString [callID; "unknown"] +:+ " arguments are not valid JSON")).

Definition sendTerminal (defaultFinishReason : string) (completed : bool) (endReason : string) : EM unit :=
  let! e := get in
  if ce_stopSent e then ret tt
  else
    let! capture := get_capture in
    if requireUsage && negb (gatewayUsageAvailable (sc_usage capture)) then
      modify_capture (set_endReason "usage_missing") ;;;
      fail "stream completed without usage metadata"
    else
      sendStartIfNeeded ;;;
      let! e := get in
      let finishReason := if ce_sawToolCall e && negb (ce_sawText e) then "tool_calls"
                          else defaultFinishReason in
      writeChunk [delta_choice [] [("finish_reason", AString finishReason)]] [] ;;;
      when (includeUsage && usageCounts (sc_usage capture))
        (writeChunk [] [("usage", chatCompletionUsagePayload (sc_usage capture))]) ;;;
      write FDone ;;;
      modify (λ e, ce_set_sent (ce_startSent e) true (ce_sawText e) (ce_sawToolCall e) e) ;;;
      modify_capture (set_done completed endReason).

Definition sendFinish : EM unit :=
  validateToolCallArguments ;;; sendTerminal "stop" true "done".

Definition sendIncomplete (event : canonicalStreamEvent) : EM unit :=
  sendTerminal (nonEmptyString [ev_FinishReason (ev_Finish event); "length"]) false "response_incomplete".

Definition sendText (delta : string) : EM unit :=
  if bool_decide (delta = "") then ret tt
  else
    sendStartIfNeeded ;;;
    modify (λ e, ce_set_sent (ce_startSent e) (ce_stopSent e) true (ce_sawToolCall e) e) ;;;
    writeDelta [("content", AString delta)].

Definition passes (kind : string) : bool :=
  bool_decide (reasoningPolicyForProtocol candidateSpec kind = "passthrough").

Definition sendReasoning (event : canonicalStreamEvent) : EM unit :=
  let kind := ev_ReasoningKind (ev_Reasoning event) in
  let delta := ev_Delta event in
  if negb (passes kind) then modify_capture (appendStreamAnnotation (redactedReasoningAnnotation event))
  else if bool_decide (delta = "") then ret tt
  else
    sendStartIfNeeded ;;;
    writeDelta [(if bool_decide (kind = "thinking_signature") then "thinking_signature"
                 else "reasoning_content", AString delta)].

Definition EncodeEvent (event : canonicalStreamEvent) : EM unit :=
  mergeMeta event ;;;
  match ev_Type event with
  | Created => sendStartIfNeeded
  | TextDelta => sendText (ev_Delta event)
  | ToolCallDelta => sendToolCallDelta event
  | ReasoningDelta => sendReasoning event
  | Advanced => modify_capture (appendStreamAnnotation (advancedStreamAnnotation order event))
  | AnnotationAdded =>
      modify_capture (appendStreamAnnotation (ev_Annotation event)) ;;;
      when (isGrokSite siteType)
        (sendStartIfNeeded ;;; writeDelta [("citations", AArray [ev_Annotation event])])
  | Usage => takeUsage event
  | Completed => sendFinish
  | Incomplete => sendIncomplete event
  | ErrorEvent => upstreamFailed event
  end.
End encoder.

(** ** Reading the frames back *)

Section roundtrip.
Context (newUUID : Z → string).

Definition decodeFrame (d : openAIChatStreamDecoder) (fr : frame)
    : option (openAIChatStreamDecoder * list canonicalStreamEvent) :=
  match fr with
  | FData payload => decodeData newUUID d payload
  | FDone => Some (decodeDone d)
  | FEvent _ _ => None
  end.

Fixpoint decodeFrames (d : openAIChatStreamDecoder) (frames : list frame)
    : option (openAIChatStreamDecoder * list canonicalStreamEvent) :=
  match frames with
  | [] => Some (d, [])
  | fr :: rest =>
      '(d, events) ← decodeFrame d fr; '(d, more) ← decodeFrames d rest; Some (d, events ++ more)
  end.
End roundtrip.

#[local] Arguments TrimSpace : simpl never.

(** What an event says, to a reader and to the encoder's client.  An encoder says a call's
    name once, the first that is not empty: [names] remembers them. *)
Inductive piece :=
| PText (text : string)
| PThinking (text : string)
| PSignature (text : string)
| PCall (id name arguments : string).

Definition piece_of (event : canonicalStreamEvent) : option piece :=
  let call := ev_ToolCall event in
  match ev_Type event with
  | TextDelta => Some (PText (ev_Delta event))
  | ReasoningDelta =>
      Some ((if bool_decide (ev_ReasoningKind (ev_Reasoning event) = "thinking_signature")
             then PSignature else PThinking) (ev_Delta event))
  | ToolCallDelta => Some (PCall (ev_ToolCallID call) (ev_ToolCallName call) (ev_ToolCallArgumentsDelta call))
  | _ => None
  end.

Definition learn (names : gmap string string) (id name : string) : gmap string string :=
  match names !! id with
  | Some _ => names
  | None => if bool_decide (name = "") then names else <[id := name]> names
  end.

Definition name_of (names : gmap string string) (id : string) : string :=
  TrimSpace (default "" (names !! id)).

Definition says (pass : string → bool) (names : gmap string string) (event : canonicalStreamEvent)
    : gmap string string * list piece :=
  let delta := ev_Delta event in
  let kind := ev_ReasoningKind (ev_Reasoning event) in
  let call := ev_ToolCall event in
  let id := TrimSpace (ev_ToolCallID call) in
  match ev_Type event with
  | TextDelta => (names, if bool_decide (delta = "") then [] else [PText delta])
  | ReasoningDelta =>
      (names,
       if negb (pass kind) || bool_decide (delta = "") then []
       else if bool_decide (kind = "thinking_signature") then [PSignature delta]
       else if bool_decide (TrimSpace delta = "") then [] else [PThinking (TrimSpace delta)])
  | ToolCallDelta =>
      if bool_decide (id = "") then (names, [])
      else let names := learn names id (ev_ToolCallName call) in
           (names, [PCall id (name_of names id) (ev_ToolCallArgumentsDelta call)])
  | _ => (names, [])
  end.

Fixpoint pieces (pass : string → bool) (names : gmap string string) (events : list canonicalStreamEvent)
    : list piece :=
  match events with
  | [] => []
  | event :: rest => let '(names, ps) := says pass names event in ps ++ pieces pass names rest
  end.

(** The finish reason on the wire, and the event a decoder makes of it. *)
Definition is_text (p : piece) : bool := match p with PText _ => true | _ => false end.
Definition is_call (p : piece) : bool := match p with PCall _ _ _ => true | _ => false end.

Definition wire_finish (ps : list piece) (last : canonicalStreamEvent) : string :=
  if existsb is_call ps && negb (existsb is_text ps) then "tool_calls"
  else match ev_Type last with
       | Incomplete => nonEmptyString [ev_FinishReason (ev_Finish last); "length"]
       | _ => "stop"
       end.

(** ** The decoder follows the encoder *)

Record rel (e : openAIChatStreamEncoder) (d : openAIChatStreamDecoder) (names : gmap string string)
    : Prop := mkRel {
  r_created : in_int64 (ce_createdAt e);
  r_index : ∀ id i, ce_toolCallIndex e !! id = Some i →
    0 ≤ i < Z.of_nat (size (ce_toolCallIndex e)) ∧ id ≠ "" ∧ TrimSpace id = id
    ∧ cd_toolCallIDByIndex d !! i = Some id;
  r_names : ∀ id i, ce_toolCallIndex e !! id = Some i →
    TrimSpace (default "" (cd_toolCallNameByIndex d !! i)) = name_of names id;
  r_fresh : ∀ i, Z.of_nat (size (ce_toolCallIndex e)) ≤ i → cd_toolCallNameByIndex d !! i = None;
  r_sent : ∀ id, id ∈ ce_toolCallNameSent e ↔ is_Some (names !! id);
  r_known : ∀ id, is_Some (names !! id) → is_Some (ce_toolCallIndex e !! id)
}.

Section rel.
Implicit Types (e : openAIChatStreamEncoder) (d : openAIChatStreamDecoder) (names : gmap string string).

Lemma chat_rel_meta e d names id model created :
  in_int64 created → rel e d names → rel (ce_set_meta id model created e) d names.
Proof. by intros ? []. Qed.

Lemma rel_sent e d names a b c f : rel e d names → rel (ce_set_sent a b c f e) d names.
Proof. by intros []. Qed.

Lemma rel_decoder e d d' names :
  cd_toolCallIDByIndex d' = cd_toolCallIDByIndex d →
  cd_toolCallNameByIndex d' = cd_toolCallNameByIndex d → rel e d names → rel e d' names.
Proof. intros Hi Hn []. by constructor; rewrite ?Hi, ?Hn. Qed.

Lemma size_learn_index (m : gmap string Z) id i : m !! id = None → size (<[id := i]> m) = S (size m).
Proof. apply map_size_insert_None. Qed.

(** The first delta of a call gets the next index, on both sides. *)
Lemma rel_new_index e d names id :
  rel e d names → ce_toolCallIndex e !! id = None → id ≠ "" → TrimSpace id = id →
  let n := Z.of_nat (size (ce_toolCallIndex e)) in
  rel (ce_set_calls (<[id := n]> (ce_toolCallIndex e)) (ce_toolCallArgs e) (ce_toolCallNameSent e) e)
    (mkChatDecoder (cd_createdSent d) (cd_terminalEmitted d) (cd_pendingTerminal d)
       (<[n := id]> (cd_toolCallIDByIndex d)) (cd_toolCallNameByIndex d)) names.
Proof.
  intros [Hc Hi Hn Hf Hs Hk] Hnew Hid Htrim n. constructor; cbn [ce_createdAt ce_set_calls
    ce_toolCallIndex ce_toolCallNameSent cd_toolCallIDByIndex cd_toolCallNameByIndex]; try done.
  - intros id' i. rewrite size_learn_index by done. intros [[<- <-]|[? Hid']]%lookup_insert_Some.
    + split_and!; [lia..|done|done|by rewrite lookup_insert_eq].
    + destruct (Hi _ _ Hid') as (? & ? & ? & ?). split_and!; [lia..|done|done|].
      rewrite lookup_insert_ne; [done|lia].
  - intros id' i [[<- <-]|[? Hid']]%lookup_insert_Some; [|by apply Hn].
    rewrite Hf by lia. unfold name_of. destruct (names !! id) eqn:E; [|done].
    destruct (Hk id) as [? ?]; [by eexists|]. congruence.
  - intros i. rewrite size_learn_index by done. intros ?. apply Hf. lia.
  - intros id' H. rewrite lookup_insert_is_Some. destruct (decide (id = id')); auto.
Qed.

(** A name is learnt by both sides when it is sent. *)
Lemma rel_learn e d names id i name :
  rel e d names → ce_toolCallIndex e !! id = Some i → name ≠ "" → id ∉ ce_toolCallNameSent e →
  rel (ce_set_calls (ce_toolCallIndex e) (ce_toolCallArgs e) ({[id]} ∪ ce_toolCallNameSent e) e)
    (mkChatDecoder (cd_createdSent d) (cd_terminalEmitted d) (cd_pendingTerminal d)
       (cd_toolCallIDByIndex d)
       (if bool_decide (TrimSpace name = "") then cd_toolCallNameByIndex d
        else <[i := TrimSpace name]> (cd_toolCallNameByIndex d)))
    (<[id := name]> names).
Proof.
  intros [Hc Hi Hn Hf Hs Hk] Hid Hname Hsent. destruct (Hi _ _ Hid) as (Hb & _ & _ & Hdi).
  assert (Hnone : names !! id = None).
  { destruct (names !! id) eqn:E; [|done]. exfalso. apply Hsent, Hs. by eexists. }
  constructor; cbn [ce_createdAt ce_set_calls ce_toolCallIndex ce_toolCallNameSent
    cd_toolCallIDByIndex cd_toolCallNameByIndex]; try done.
  - intros id' i' Hid'. destruct (decide (id' = id)) as [->|Hne].
    + simplify_eq. unfold name_of. rewrite lookup_insert_eq.
      change (default "" (Some name)) with name. case_bool_decide as Ht.
      * rewrite (Hn _ _ Hid). unfold name_of. by rewrite Hnone, Ht.
      * rewrite lookup_insert_eq. change (default "" (Some ?x)) with x. apply TrimSpace_idem.
    + assert (i' ≠ i). { intros ->. destruct (Hi _ _ Hid') as (_ & _ & _ & ?). congruence. }
      unfold name_of. rewrite lookup_insert_ne by done.
      fold (name_of names id'). rewrite <- (Hn _ _ Hid').
      case_bool_decide; [done|]. by rewrite lookup_insert_ne by done.
  - intros i' ?. case_bool_decide; [by apply Hf|]. rewrite lookup_insert_ne by lia. by apply Hf.
  - intros id'. rewrite elem_of_union, elem_of_singleton, Hs, lookup_insert_is_Some.
    destruct (decide (id' = id)); naive_solver.
  - intros id' H. apply lookup_insert_is_Some in H as [<-|[_ H]]; [by eexists|by apply Hk].
Qed.

Lemma rel_args e d names args :
  rel e d names → rel (ce_set_calls (ce_toolCallIndex e) args (ce_toolCallNameSent e) e) d names.
Proof. by intros []. Qed.

(** What the decoder makes of the delta of a call. *)
Lemma decode_call newUUID chunk e d names id name arguments :
  rel e d names → id ≠ "" → TrimSpace id = id →
  let named := negb (bool_decide (name = "")) && negb (bool_decide (id ∈ ce_toolCallNameSent e)) in
  let e' := noteToolCall id name arguments e in
  let i := default 0 (ce_toolCallIndex e' !! id) in
  let '(d', event) := decodeToolCall newUUID chunk d
                        (mkChatToolCall i id (if named then name else "") arguments) in
  rel e' d' (learn names id name)
  ∧ piece_of event = Some (PCall id (name_of (learn names id name) id) arguments)
  ∧ terminal event = false ∧ cd_pendingTerminal d' = cd_pendingTerminal d
  ∧ cd_terminalEmitted d' = cd_terminalEmitted d.
Proof.
  intros Hr Hid Htrim named e' i. unfold decodeToolCall. cbn [tc_ID tc_Name tc_Index tc_Arguments].
  rewrite Htrim, (bool_decide_eq_false_2 _ Hid). rewrite (bool_decide_eq_false_2 _ Hid).
  (* The index. *)
  set (e1 := match ce_toolCallIndex e !! id with
             | Some _ => e
             | None => ce_set_calls (<[id := Z.of_nat (size (ce_toolCallIndex e))]> (ce_toolCallIndex e))
                         (ce_toolCallArgs e) (ce_toolCallNameSent e) e
             end).
  set (d1 := mkChatDecoder (cd_createdSent d) (cd_terminalEmitted d) (cd_pendingTerminal d)
               (<[i := id]> (cd_toolCallIDByIndex d)) (cd_toolCallNameByIndex d)).
  assert (ce_toolCallIndex e1 !! id = Some i ∧ rel e1 d1 names) as [Hi Hr1].
  { subst e1 d1 i e'. unfold noteToolCall. cbn [ce_toolCallIndex ce_set_calls].
    destruct (ce_toolCallIndex e !! id) as [n|] eqn:E.
    - rewrite E. split; [done|]. cbn [default].
      destruct (r_index _ _ _ Hr _ _ E) as (_ & _ & _ & Hd).
      by eapply rel_decoder; [| |exact Hr]; [cbn; apply insert_id|].
    - cbn [ce_toolCallIndex ce_set_calls]. rewrite lookup_insert_eq. split; [done|].
      by apply rel_new_index. }
  (* The name. *)
  set (args := if bool_decide (arguments = "") then ce_toolCallArgs e
               else <[id := default "" (ce_toolCallArgs e !! id) +:+ arguments]> (ce_toolCallArgs e)).
  assert (He' : e' = ce_set_calls (ce_toolCallIndex e1) args
            (if bool_decide (name = "") then ce_toolCallNameSent e1
             else {[id]} ∪ ce_toolCallNameSent e1) e1).
  { subst e' e1 args. unfold noteToolCall. by destruct (ce_toolCallIndex e !! id). }
  assert (Hsent1 : ce_toolCallNameSent e1 = ce_toolCallNameSent e).
  { subst e1. by destruct (ce_toolCallIndex e !! id). }
  clearbody args e1 i. subst named. rewrite He'. clear He' e'. rewrite <- Hsent1. clear Hsent1.
  pose proof (r_sent _ _ _ Hr1 id) as Hsent. unfold learn.
  pose proof (r_names _ _ _ Hr1 _ _ Hi) as Hn. cbn [d1 cd_toolCallNameByIndex] in Hn.
  destruct (bool_decide (name = "")) eqn:Hname; cbn [negb andb].
  { rewrite (bool_decide_eq_true_2 (TrimSpace "" = "") eq_refl). cbn beta iota.
    assert ((match names !! id with Some _ => names | None => names end) = names) as -> by by destruct (names !! id).
    split_and!; [|cbn; by rewrite Hn|done..].
    eapply rel_args. eapply rel_decoder; [| |exact Hr1]; done. }
  apply bool_decide_eq_false in Hname.
  destruct (bool_decide (id ∈ ce_toolCallNameSent e1)) eqn:Hin; cbn [negb andb].
  { apply bool_decide_eq_true in Hin. apply Hsent in Hin as Hin'. destruct Hin' as [n En]. rewrite En.
    rewrite (bool_decide_eq_true_2 (TrimSpace "" = "") eq_refl). cbn beta iota.
    split_and!; [|cbn; by rewrite Hn|done..].
    replace ({[id]} ∪ ce_toolCallNameSent e1) with (ce_toolCallNameSent e1) by set_solver.
    eapply rel_args. eapply rel_decoder; [| |exact Hr1]; done. }
  apply bool_decide_eq_false in Hin.
  assert (names !! id = None) as Hnone by (apply eq_None_not_Some; tauto).
  rewrite Hnone in *. pose proof (rel_learn _ _ _ _ _ _ Hr1 Hi Hname Hin) as Hr2.
  unfold name_of in *. rewrite Hnone in Hn. rewrite lookup_insert_eq.
  change (default "" (Some name)) with name. change (TrimSpace (default "" None)) with "" in Hn.
  cbn [d1 cd_toolCallNameByIndex cd_toolCallIDByIndex cd_createdSent cd_terminalEmitted
       cd_pendingTerminal] in Hr2.
  case_bool_decide as Ht.
  - split_and!; [|cbn; by rewrite Hn, Ht|done..]. eapply rel_args in Hr2. exact Hr2.
  - split_and!; [|done..]. eapply rel_args in Hr2. exact Hr2.
Qed.
End rel.

(** ** Every event is read back as what it says *)

Definition event_open (event : canonicalStreamEvent) : Prop :=
  terminal event = false ∧ ev_Type event ≠ Usage.

(** The counts that go on the wire are machine integers. *)
Definition usage_ok (u : gatewayUsage) : Prop :=
  let n := normalized u in
  in_int64 (PromptTokens n) ∧ in_int64 (CompletionTokens n) ∧ in_int64 (TotalTokens n)
  ∧ in_int64 (CachedPromptTokens n).

Definition event_ok (event : canonicalStreamEvent) : Prop :=
  in_int64 (ev_CreatedAt (ev_Meta event)) ∧ usage_ok (ev_Usage event).

(** [d.createdSent = true] *)
Definition with_created (d : openAIChatStreamDecoder) : openAIChatStreamDecoder :=
  mkChatDecoder true (cd_terminalEmitted d) (cd_pendingTerminal d) (cd_toolCallIDByIndex d)
    (cd_toolCallNameByIndex d).

(** The decoder is running. *)
Definition running (d : openAIChatStreamDecoder) : Prop :=
  cd_pendingTerminal d = None ∧ cd_terminalEmitted d = false.

Section decoding.
Context (newUUID : Z → string).
Implicit Types (s : io openAIChatStreamEncoder) (d : openAIChatStreamDecoder).

Lemma decodeFrames_snoc d l fr :
  decodeFrames newUUID d (l ++ [fr])
  = '(d1, evs) ← decodeFrames newUUID d l; '(d2, more) ← decodeFrame newUUID d1 fr;
    Some (d2, evs ++ more).
Proof.
  revert d. induction l as [|x l IH]; intros d; cbn.
  { destruct (decodeFrame newUUID d fr) as [[? ?]|]; cbn; [|done]. by rewrite app_nil_r. }
  destruct (decodeFrame newUUID d x) as [[d1 evs1]|]; cbn; [|done]. rewrite IH.
  destruct (decodeFrames newUUID d1 l) as [[d2 evs2]|]; cbn; [|done].
  destruct (decodeFrame newUUID d2 fr) as [[d3 evs3]|]; cbn; [|done]. by rewrite app_assoc.
Qed.

Definition chunkFor (e : openAIChatStreamEncoder) (choices : list chatChoice) (usage : gatewayUsage) : chatChunk :=
  mkChunk (responseIDOrFallback (ce_responseID e)) (ce_createdAt e) (ce_model e) choices usage.

Lemma read_created e : in_int64 (ce_createdAt e) → read_int (AInt (ce_createdAt e)) = Some (ce_createdAt e).
Proof. intros H. cbn. by rewrite bool_decide_eq_true_2. Qed.

Lemma decode_delta d e delta finish m :
  in_int64 (ce_createdAt e) → read_chatMessage delta = Some m →
  decodeData newUUID d (chunk_of e [delta_choice delta
    (if bool_decide (finish = "") then [] else [("finish_reason", AString finish)])] [])
  = Some (decodeChunk newUUID d (chunkFor e [mkChatChoice m finish] noUsage)).
Proof.
  intros Hc Hm. unfold decodeData, chunk_of. cbn [app read_map]. change (Some ?x ≫= ?f) with (f x).
  cbv beta. unfold read_chatChunk.
  set (ms := [_; _; _; _; _]).
  change (field ms "id") with (AString (responseIDOrFallback (ce_responseID e))).
  change (field ms "created") with (AInt (ce_createdAt e)).
  change (field ms "model") with (AString (ce_model e)).
  change (field ms "usage") with ANil. rewrite (read_created e Hc).
  change (field ms "choices") with (AArray [delta_choice delta
    (if bool_decide (finish = "") then [] else [("finish_reason", AString finish)])]).
  cbn [read_string read_array mbind option_bind read_all]. unfold delta_choice. cbn [read_map mbind option_bind].
  unfold read_chatChoice. set (cs := [_; _] ++ _).
  assert (field cs "index" = AInt 0 ∧ field cs "message" = ANil ∧ field cs "delta" = AObject delta)
    as (-> & -> & ->) by (subst cs; by case_bool_decide).
  assert (read_string (field cs "finish_reason") = Some finish) as Hf.
  { subst cs. case_bool_decide as Hf; [by subst|done]. }
  cbn [read_int read_map]. change (read_chatMessage []) with (Some (mkChatMessage ANil "" "" "" [])).
  rewrite (bool_decide_eq_true_2 (min_int64 ≤ 0 ∧ 0 ≤ max_int64)) by done.
  cbn [mbind option_bind]. rewrite Hm. cbn [mbind option_bind]. rewrite Hf. reflexivity.
Qed.

(** The value of a field of known members. *)
Ltac read_fields :=
  repeat match goal with
  | |- context [field ?ms ?key] =>
      let v := eval vm_compute in (field ms key) in change (field ms key) with v
  end.

(** What a reader of the payload bills is what the gateway counted. *)
Lemma read_usage_payload usage members :
  usage_ok usage → chatCompletionUsagePayload usage = AObject members →
  ∃ u, read_gatewayUsage members = Some u
    ∧ PromptTokens (normalized u) = PromptTokens (normalized usage)
    ∧ CompletionTokens (normalized u) = CompletionTokens (normalized usage)
    ∧ TotalTokens (normalized u) = TotalTokens (normalized usage)
    ∧ CachedPromptTokens (normalized u) = CachedPromptTokens (normalized usage)
    ∧ TotalTokens u = TotalTokens (normalized usage)
    ∧ PromptTokens u = PromptTokens (normalized usage)
    ∧ CompletionTokens u = CompletionTokens (normalized usage).
Proof.
  intros (Hp & Hc & Ht & Hca). unfold chatCompletionUsagePayload.
  assert (Hcached : let n := normalized usage in 0 ≤ CachedPromptTokens n
    ∧ (0 < PromptTokens n → CachedPromptTokens n ≤ PromptTokens n)
    ∧ (TotalTokens n = 0 → add64 (PromptTokens n) (CompletionTokens n) = 0)).
  { unfold normalized. cbn. split_and!; repeat case_match; lia. }
  cbv zeta in Hcached. destruct Hcached as (H0 & H1 & H2).
  destruct (normalized usage) as [p c t i ca ht mi wr cr c5 c1 re it ii oi au de]. clear usage.
  cbn [PromptTokens CompletionTokens TotalTokens CachedPromptTokens ReasoningTokens] in *.
  intros [= <-]. exists (mkUsage p c t 0 0 0 0 0 0 0 0 0 0 0 0 0 (Some (mkDetails ca 0))). split.
  - unfold read_gatewayUsage, read_pointer. cbn [app]. 
    assert (Hint : ∀ z, in_int64 z → read_int (AInt z) = Some z)
      by (intros z Hz; cbn; by rewrite bool_decide_eq_true_2).
    assert (Hdet : read_promptTokensDetails [("cached_tokens", AInt ca)] = Some (mkDetails ca 0)).
    { unfold read_promptTokensDetails. read_fields. by rewrite Hint. }
    destruct (0 <? re); cbn [app]; read_fields; cbn match; rewrite Hdet, !Hint by done; reflexivity.
  - unfold normalized. cbn. rewrite !andb_false_r. split_and!; try done.
    + destruct (Z.eqb_spec t 0); lia.
    + change (0 <? 0 `max` 0) with false; cbn match; change (0 =? 0) with true; cbn match.
      rewrite (Z.max_r 0 ca) by done. destruct (Z.ltb_spec 0 p), (Z.ltb_spec p ca); cbn [andb]; lia.
Qed.

Lemma decode_usage d e usage :
  in_int64 (ce_createdAt e) → usage_ok usage → usageCounts usage = true → cd_createdSent d = true →
  ∃ u, decodeData newUUID d (chunk_of e [] [("usage", chatCompletionUsagePayload usage)])
       = Some (with_created d, [usageEvent u])
    ∧ PromptTokens u = PromptTokens (normalized usage)
    ∧ CompletionTokens u = CompletionTokens (normalized usage)
    ∧ TotalTokens u = TotalTokens (normalized usage)
    ∧ CachedPromptTokens u = CachedPromptTokens (normalized usage).
Proof.
  intros Hc Hu Hcounts Hd. destruct (chatCompletionUsagePayload usage) as [| | | | | |members] eqn:E; try done.
  destruct (read_usage_payload _ _ Hu E) as (u & Hread & ? & ? & ? & ? & H1 & H2 & H3).
  exists (normalized u). split; [|done].
  unfold decodeData, chunk_of. cbn [app read_map mbind option_bind]. unfold read_chatChunk.
  set (ms := [_; _; _; _; _; _]).
  change (field ms "id") with (AString (responseIDOrFallback (ce_responseID e))).
  change (field ms "created") with (AInt (ce_createdAt e)).
  change (field ms "model") with (AString (ce_model e)).
  change (field ms "choices") with (AArray []).
  change (field ms "usage") with (AObject members). rewrite (read_created e Hc).
  cbn [read_string read_array read_all read_map mbind option_bind]. rewrite Hread.
  cbn. unfold decodeChunk. cbn. rewrite Hd.
  assert (usageCounts u = true) as ->; [|done].
  revert Hcounts. unfold usageCounts. rewrite H1, H2, H3. unfold normalized. cbn [TotalTokens PromptTokens CompletionTokens].
  rewrite !orb_true_iff, !Z.ltb_lt. intros H'.
  assert (0 < TotalTokens usage ∨ PromptTokens usage ≠ 0 ∧ 0 < PromptTokens usage ∨ 0 < CompletionTokens usage) as [Ht|[[Hp0 Hp]|Hcp]] by lia.
  - left. left. destruct (Z.eqb_spec (TotalTokens usage) 0); lia.
  - left. right. destruct (Z.eqb_spec (PromptTokens usage) 0); [lia|]. done.
  - by right.
Qed.

(** What was written decodes to [ps], and the decoder is at [d]. *)
Definition decoded s d (ps : list piece) (evs : list canonicalStreamEvent) : Prop :=
  decodeFrames newUUID newOpenAIChatStreamDecoder (frames s) = Some (d, evs)
  ∧ omap piece_of evs = ps ∧ Forall event_open evs ∧ running d.

Definition R : string → io openAIChatStreamEncoder → Prop := λ _, gave_up.

(** A delta the decoder reads as [evs']. *)
Lemma chat_emit delta m s d ps evs ps' (P : openAIChatStreamDecoder → Prop)
    (Q : unit → io openAIChatStreamEncoder → Prop) :
  decoded s d ps evs → in_int64 (ce_createdAt (io_enc s)) → read_chatMessage delta = Some m →
  (∀ chunk, let '(d', evs') := decodeChoice newUUID chunk (with_created d) (mkChatChoice m "") in
     omap piece_of evs' = ps' ∧ Forall event_open evs' ∧ running d' ∧ P d') →
  (∀ s' d' evs', P d' → io_enc s' = io_enc s → io_capture s' = io_capture s →
     decoded s' d' (ps ++ ps') evs' → Q tt s') →
  wp R (writeDelta delta) s Q.
Proof.
  intros (Hd & Hps & Hopen & Hrun) Hc Hm Hchoice HQ. unfold writeDelta, writeChunk. repeat wp_step.
  apply wp_write; [by left|]. intros room.
  set (s' := mkIO _ _ _). set (chunk := chunkFor (io_enc s) [mkChatChoice m ""] noUsage).
  specialize (Hchoice chunk).
  destruct (decodeChoice newUUID chunk (with_created d) (mkChatChoice m "")) as [d' evs'] eqn:E.
  destruct Hchoice as (Hp & Ho & Hr & HP).
  set (created := if cd_createdSent d then [] else [createdEvent (chunkMetaCreated chunk)]).
  assert (Hdec : decodeFrame newUUID d (FData (chunk_of (io_enc s) [delta_choice delta []] []))
                 = Some (d', created ++ evs')).
  { cbn [decodeFrame]. pose proof (decode_delta d (io_enc s) delta "" m Hc Hm) as H.
    rewrite (bool_decide_eq_true_2 ("" = "") eq_refl) in H. rewrite H. fold chunk. f_equal.
    unfold decodeChunk. cbn [ck_Choices chunk chunkFor decodeChoices]. fold (with_created d). rewrite E.
    rewrite app_nil_r. subst created. change (usageCounts (ck_Usage chunk)) with false.
    by rewrite app_nil_r. }
  apply (HQ s' d' (evs ++ created ++ evs')); [done..|]. split_and!; [|..|done].
  - unfold s', frames. cbn [io_writer w_frames]. rewrite decodeFrames_snoc. unfold frames in Hd. rewrite Hd.
    cbn [mbind option_bind]. rewrite Hdec. done.
  - rewrite !omap_app, Hps, Hp. f_equal. subst created. by destruct (cd_createdSent d).
  - rewrite !Forall_app. split_and!; [done| |done]. subst created.
    destruct (cd_createdSent d); [constructor|]. repeat constructor. done.
Qed.

Definition Inv s (names : gmap string string) (ps : list piece) (n : Z) : Prop :=
  ∃ d evs, rel (io_enc s) d names ∧ decoded s d ps evs ∧ ce_stopSent (io_enc s) = false
  ∧ ce_sawText (io_enc s) = existsb is_text ps ∧ ce_sawToolCall (io_enc s) = existsb is_call ps
  ∧ usage_ok (sc_usage (io_capture s)) ∧ Z.of_nat (size (ce_toolCallIndex (io_enc s))) ≤ n
  ∧ (ce_startSent (io_enc s) = true → cd_createdSent d = true).

Lemma chat_start_spec s names ps n (Q : unit → io openAIChatStreamEncoder → Prop) :
  Inv s names ps n →
  (∀ s', Inv s' names ps n → ce_startSent (io_enc s') = true → io_capture s' = io_capture s →
         Q tt s') →
  wp R sendStartIfNeeded s Q.
Proof.
  intros (d & evs & Hr & Hd & Hstop & Ht & Hcall & Hu & Hn & Hst) HQ. unfold sendStartIfNeeded.
  repeat wp_step. destruct (ce_startSent (io_enc s)) eqn:Hs; repeat wp_step.
  { apply HQ; [|done..]. exists d, evs. rewrite Hs. by split_and!. }
  eapply chat_emit with (d := d) (evs := evs) (ps := ps) (ps' := []) (P := λ d', d' = with_created d);
    [done|apply Hr|reflexivity| |].
  { intros chunk. cbn. destruct Hd as (_ & _ & _ & Hrun). done. }
  intros s' d' evs' -> He Hcap Hd'. rewrite app_nil_r in Hd'. apply HQ; [|by rewrite He|by rewrite Hcap].
  exists (with_created d), evs'. rewrite He, Hcap. cbn. split_and!; try done.
  apply rel_sent. by eapply rel_decoder; [| |exact Hr].
Qed.

(** A delta without calls; [text] says that the encoder notes a text. *)
Lemma plain_spec s names ps n delta m ps' (text : bool) (Q : unit → io openAIChatStreamEncoder → Prop) :
  Inv s names ps n → ce_startSent (io_enc s) = true → read_chatMessage delta = Some m →
  (∀ chunk d, ∃ evs', decodeChoice newUUID chunk d (mkChatChoice m "") = (d, evs')
     ∧ omap piece_of evs' = ps' ∧ Forall event_open evs') →
  existsb is_call ps' = false → existsb is_text ps' = text →
  (∀ s', Inv s' names (ps ++ ps') n → Q tt s') →
  wp R (writeDelta delta)
    (mkIO (ce_set_sent (ce_startSent (io_enc s)) (ce_stopSent (io_enc s))
             (if text then true else ce_sawText (io_enc s)) (ce_sawToolCall (io_enc s)) (io_enc s))
       (io_capture s) (io_writer s)) Q.
Proof.
  intros (d & evs & Hr & Hd & Hstop & Ht & Hcall & Hu & Hn & Hst) Hs Hm Hchoice Hnc Htext HQ.
  eapply chat_emit with (d := d) (evs := evs) (ps := ps) (ps' := ps') (P := λ d', d' = with_created d);
    [exact Hd|apply Hr|exact Hm| |].
  { intros chunk. destruct (Hchoice chunk (with_created d)) as (evs' & -> & Hp & Ho).
    split_and!; [done|done|apply Hd..|done]. }
  intros s' d' evs' -> He Hcap Hd'. apply HQ. exists (with_created d), evs'. rewrite He, Hcap. cbn.
  rewrite !existsb_app, Hnc, Htext, Hstop, <- Ht, <- Hcall, orb_false_r. split_and!; try done.
  - apply rel_sent. by eapply rel_decoder; [| |exact Hr].
  - destruct text; [by rewrite orb_true_r|by rewrite orb_false_r].
Qed.

Lemma same_sent s :
  mkIO (ce_set_sent (ce_startSent (io_enc s)) (ce_stopSent (io_enc s)) (ce_sawText (io_enc s))
          (ce_sawToolCall (io_enc s)) (io_enc s)) (io_capture s) (io_writer s) = s.
Proof. by destruct s as [[] ? ?]. Qed.

Lemma chat_text_spec s names ps n delta (Q : unit → io openAIChatStreamEncoder → Prop) :
  Inv s names ps n →
  (∀ s', Inv s' names (ps ++ if bool_decide (delta = "") then [] else [PText delta]) n → Q tt s') →
  wp R (sendText delta) s Q.
Proof.
  intros Hinv HQ. unfold sendText. case_bool_decide as Hd.
  { apply wp_ret, HQ. by rewrite app_nil_r. }
  wp_step. apply (chat_start_spec s names ps n); [done|]. intros s1 Hinv1 Hs1 _. repeat wp_step.
  apply (plain_spec s1 names ps n _ (mkChatMessage (AString delta) "" "" "" []) [PText delta] true);
    [done|done|reflexivity| |done|done|done].
  intros chunk d. eexists. split; [reflexivity|]. cbn. rewrite (bool_decide_eq_false_2 _ Hd). cbn.
  split; [done|]. by repeat constructor.
Qed.

Lemma reasoning_delta s names ps n kind delta (Q : unit → io openAIChatStreamEncoder → Prop) :
  Inv s names ps n → ce_startSent (io_enc s) = true → delta ≠ "" →
  (∀ s', Inv s' names (ps ++ if bool_decide (kind = "thinking_signature") then [PSignature delta]
                             else if bool_decide (TrimSpace delta = "") then []
                             else [PThinking (TrimSpace delta)]) n → Q tt s') →
  wp R (writeDelta [(if bool_decide (kind = "thinking_signature") then "thinking_signature"
                     else "reasoning_content", AString delta)]) s Q.
Proof.
  intros Hinv Hs Hd HQ. rewrite <- (same_sent s).
  case_bool_decide as Hk.
  - apply (plain_spec s names ps n _ (mkChatMessage ANil "" "" delta []) [PSignature delta] false);
      [done|done|reflexivity| |done|done|done].
    intros chunk d. eexists. split; [reflexivity|].
    cbn. rewrite (bool_decide_eq_false_2 _ Hd). split; [done|]. by repeat constructor.
  - eapply (plain_spec s names ps n _ (mkChatMessage ANil delta "" "" []) _ false);
      [done|done|reflexivity| | | |exact HQ]; try by case_bool_decide.
    intros chunk d. eexists. split; [reflexivity|].
    cbn [cc_Delta cm_Content cm_ReasoningContent cm_Thinking cm_ThinkingSignature rawStringFromAny].
    assert (firstNonEmptyGatewayString [delta; ""] = TrimSpace delta) as ->.
    { unfold firstNonEmptyGatewayString. cbn. by case_bool_decide. }
    rewrite TrimSpace_idem. case_bool_decide; by repeat constructor.
Qed.

Lemma chat_Inv_capture s names ps n f :
  (∀ c, sc_usage (f c) = sc_usage c) → Inv s names ps n →
  Inv (mkIO (io_enc s) (f (io_capture s)) (io_writer s)) names ps n.
Proof. intros Hf (d & evs & H). exists d, evs. cbn. by rewrite Hf. Qed.

Lemma annotation_usage a c : sc_usage (appendStreamAnnotation a c) = sc_usage c.
Proof. by destruct a. Qed.
Hint Resolve annotation_usage : core.

Context (candidateSpec : resolvedProtocolSpec) (siteType : string) (includeUsage requireUsage : bool)
        (valid : string → bool) (order : list (string * any) → list (string * any)).
Let pass := passes candidateSpec.
Let encode := EncodeEvent candidateSpec siteType includeUsage requireUsage valid order.

Lemma chat_reasoning_spec s names ps n event (Q : unit → io openAIChatStreamEncoder → Prop) :
  ev_Type event = ReasoningDelta → Inv s names ps n →
  (∀ s', Inv s' names (ps ++ snd (says pass names event)) n → Q tt s') →
  wp R (sendReasoning candidateSpec event) s Q.
Proof.
  intros E Hinv HQ. unfold sendReasoning. unfold says in HQ. rewrite E in HQ. cbn [snd] in HQ. fold pass.
  destruct (pass _); cbn [negb orb] in *.
  2: { wp_step. apply HQ. rewrite app_nil_r. by apply chat_Inv_capture. }
  case_bool_decide as Hd. { wp_step. apply HQ. by rewrite app_nil_r. }
  wp_step. apply (chat_start_spec s names ps n); [done|]. intros s1 Hinv1 Hs1 _. by eapply reasoning_delta.
Qed.

Lemma note_size id name arguments e :
  Z.of_nat (size (ce_toolCallIndex (noteToolCall id name arguments e)))
  ≤ Z.of_nat (size (ce_toolCallIndex e)) + 1.
Proof.
  unfold noteToolCall. cbn [ce_toolCallIndex ce_set_calls].
  destruct (ce_toolCallIndex e !! id) eqn:E; [lia|]. rewrite size_learn_index by done. lia.
Qed.

Lemma note_index id name arguments e names d :
  rel (noteToolCall id name arguments e) d names →
  let i := default 0 (ce_toolCallIndex (noteToolCall id name arguments e) !! id) in
  0 ≤ i < Z.of_nat (size (ce_toolCallIndex (noteToolCall id name arguments e))).
Proof.
  intros Hr i. destruct (ce_toolCallIndex (noteToolCall id name arguments e) !! id) as [j|] eqn:E.
  - by apply (r_index _ _ _ Hr id).
  - exfalso. revert E. unfold noteToolCall. cbn [ce_toolCallIndex ce_set_calls].
    destruct (ce_toolCallIndex e !! id) eqn:E'; [congruence|]. by rewrite lookup_insert_eq.
Qed.

Lemma read_tool i id name arguments named :
  in_int64 i →
  read_chatMessage [("tool_calls", AArray [AObject
      [("index", AInt i); ("id", AString id); ("type", AString "function");
       ("function", AObject (("arguments", AString arguments)
                             :: if named : bool then [("name", AString name)] else []))]])]
  = Some (mkChatMessage ANil "" "" "" [mkChatToolCall i id (if named then name else "") arguments]).
Proof.
  intros Hi. unfold read_chatMessage. read_fields. cbn [read_string read_array mbind option_bind read_all read_map].
  unfold read_chatToolCall. cbn [mbind option_bind].
  assert (Hint : read_int (AInt i) = Some i) by (cbn; by rewrite bool_decide_eq_true_2).
  destruct named; read_fields; cbn match; rewrite Hint; reflexivity.
Qed.

(** The delta of a call, once the encoder has noted it. *)
Lemma call_spec s names ps n id name arguments (Q : unit → io openAIChatStreamEncoder → Prop) :
  Inv s names ps n → ce_startSent (io_enc s) = true → id ≠ "" → TrimSpace id = id → n < max_int64 →
  let e := ce_set_sent (ce_startSent (io_enc s)) (ce_stopSent (io_enc s)) (ce_sawText (io_enc s)) true
             (io_enc s) in
  let e' := noteToolCall id name arguments e in
  let named := negb (bool_decide (name = "")) && negb (bool_decide (id ∈ ce_toolCallNameSent e)) in
  (∀ s', Inv s' (learn names id name) (ps ++ [PCall id (name_of (learn names id name) id) arguments]) (n + 1) →
         Q tt s') →
  wp R (writeDelta [("tool_calls", AArray [AObject
      [("index", AInt (default 0 (ce_toolCallIndex e' !! id))); ("id", AString id);
       ("type", AString "function");
       ("function", AObject (("arguments", AString arguments)
                             :: if named then [("name", AString name)] else []))]])])
    (mkIO e' (io_capture s) (io_writer s)) Q.
Proof.
  intros (d & evs & Hr & Hd & Hstop & Ht & Hcall & Hu & Hn & Hst) Hs Hid Htrim Hmax e e' named HQ.
  assert (Hr' : rel e (with_created d) names).
  { apply rel_sent. by eapply rel_decoder; [| |exact Hr]. }
  pose proof (note_size id name arguments e) as Hsize.
  assert (Hie : 0 ≤ default 0 (ce_toolCallIndex e' !! id) < Z.of_nat (size (ce_toolCallIndex e'))).
  { pose proof (decode_call newUUID (chunkFor e [] noUsage) e _ names id name arguments Hr' Hid Htrim) as H.
    cbv zeta in H. destruct (decodeToolCall _ _ _ _) in H. by eapply note_index, H. }
  change (size (ce_toolCallIndex e)) with (size (ce_toolCallIndex (io_enc s))) in Hsize.
  fold e' in Hsize.
  assert (Hle : Z.of_nat (size (ce_toolCallIndex e')) ≤ n + 1).
  { etransitivity; [exact Hsize|]. by apply Z.add_le_mono_r. }
  assert (Hint : in_int64 (default 0 (ce_toolCallIndex e' !! id))).
  { revert Hie Hle Hmax. generalize (default 0 (ce_toolCallIndex e' !! id)), (size (ce_toolCallIndex e')).
    clear. unfold in_int64, min_int64. lia. }
  eapply chat_emit with (ps := ps) (P := λ d', rel e' d' (learn names id name) ∧ cd_createdSent d' = true);
    [exact Hd|exact (r_created _ _ _ Hr)| | |].
  - by apply read_tool.
  - intros chunk.
    pose proof (decode_call newUUID chunk e _ names id name arguments Hr' Hid Htrim) as H.
    cbv zeta in H. fold e' named in H.
    unfold decodeChoice. cbn [cc_FinishReason cc_Delta cm_ToolCalls cm_Content cm_ThinkingSignature
      cm_ReasoningContent cm_Thinking decodeToolCalls rawStringFromAny].
    set (call := mkChatToolCall _ _ _ _) in *.
    assert (Hcr : cd_createdSent (fst (decodeToolCall newUUID chunk (with_created d) call)) = true).
    { unfold decodeToolCall. by repeat case_bool_decide. }
    destruct (decodeToolCall newUUID chunk (with_created d) call) as [d' event] eqn:E.
    destruct H as (Hrel & Hp & Hterm & Hpend & Hem).
    assert (ev_Type event ≠ Usage) as Hnu.
    { revert E. unfold decodeToolCall. repeat case_bool_decide; intros [= _ <-]; done. }
    change (firstNonEmptyGatewayString [""; ""]) with "".
    change (bool_decide (TrimSpace "" = "")) with true. change (bool_decide ("" = "")) with true.
    cbn [negb app omap list_omap]. rewrite Hp.
    destruct Hd as (_ & _ & _ & Hpend0 & Hem0). unfold running, event_open.
    rewrite Hpend, Hem. split_and!; [done|by apply list.Forall_singleton|done..].
  - intros s' d' evs' [Hrel Hcr] He Hcap Hd'. apply HQ. exists d', evs'. rewrite He, Hcap. cbn [io_enc io_capture].
    rewrite !existsb_app, <- Ht. cbn [existsb is_text is_call]. rewrite orb_false_r, orb_true_r.
    split_and!; done.
Qed.

Lemma chat_tool_spec s names ps n event (Q : unit → io openAIChatStreamEncoder → Prop) :
  ev_Type event = ToolCallDelta → Inv s names ps n → n < max_int64 →
  (∀ s' n', n ≤ n' ≤ n + 1 → Inv s' (fst (says pass names event)) (ps ++ snd (says pass names event)) n' →
     Q tt s') →
  wp R (sendToolCallDelta event) s Q.
Proof.
  intros E Hinv Hmax HQ. unfold sendToolCallDelta. unfold says in HQ. rewrite E in HQ.
  set (id := TrimSpace (ev_ToolCallID (ev_ToolCall event))) in *.
  case_bool_decide as Hid. { wp_step. apply (HQ s n); [lia|]. by rewrite app_nil_r. }
  wp_step. apply (chat_start_spec s names ps n); [done|]. intros s1 Hinv1 Hs1 _. repeat wp_step.
  eapply call_spec; [exact Hinv1|done|done|apply TrimSpace_idem|done|].
  intros s' Hs'. apply (HQ s' (n + 1)); [lia|exact Hs'].
Qed.

(** An event that does not end the stream. *)
Lemma chat_encode_spec s names ps n event (Q : unit → io openAIChatStreamEncoder → Prop) :
  terminal event = false → event_ok event → Inv s names ps n → n < max_int64 →
  (∀ s' n', n ≤ n' ≤ n + 1 → Inv s' (fst (says pass names event)) (ps ++ snd (says pass names event)) n' →
     Q tt s') →
  wp R (encode event) s Q.
Proof.
  intros Ht [Hcr Hu] Hinv Hmax HQ. unfold encode, EncodeEvent, mergeMeta. do 2 wp_step.
  set (s1 := mkIO (ce_set_meta _ _ _ (io_enc s)) (io_capture s) (io_writer s)).
  assert (Hinv1 : Inv s1 names ps n).
  { destruct Hinv as (d & evs & Hr & H). exists d, evs. split; [|exact H]. apply chat_rel_meta; [|done].
    destruct (0 <? _); [done|apply Hr]. }
  clearbody s1. clear s Hinv.
  assert (Hnil : ev_Type event ∉ [TextDelta; ReasoningDelta; ToolCallDelta] →
    says pass names event = (names, [])).
  { unfold says. destruct (ev_Type event); try done; set_solver. }
  assert (HQ0 : ev_Type event ∉ [TextDelta; ReasoningDelta; ToolCallDelta] → ∀ s', Inv s' names ps n → Q tt s').
  { intros H s' Hs'. apply (HQ s' n); [lia|]. rewrite (Hnil H), app_nil_r. exact Hs'. }
  unfold terminal in Ht. destruct (ev_Type event) eqn:E; try discriminate Ht.
  - apply (chat_start_spec s1 names ps n); [done|]. intros s' Hs' _ _. by apply HQ0; [set_solver|].
  - apply (chat_text_spec s1 names ps n); [done|]. intros s' Hs'. apply (HQ s' n); [lia|].
    unfold says. rewrite E. exact Hs'.
  - by apply (chat_tool_spec s1 names ps n).
  - apply (chat_reasoning_spec s1 names ps n); [done|done|]. intros s' Hs'. apply (HQ s' n); [lia|].
    replace (fst (says pass names event)) with names; [done|]. unfold says. by rewrite E.
  - wp_step. apply HQ0; [set_solver|]. by apply chat_Inv_capture.
  - repeat wp_step. set (s2 := mkIO _ _ _).
    assert (Hinv2 : Inv s2 names ps n) by by apply chat_Inv_capture. clearbody s2.
    unfold when. destruct (isGrokSite siteType). 2: { wp_step. by apply HQ0; [set_solver|]. }
    wp_step. apply (chat_start_spec s2 names ps n); [done|]. intros s3 Hinv3 Hs3 _.
    rewrite <- (same_sent s3).
    apply (plain_spec s3 names ps n _ (mkChatMessage ANil "" "" "" []) [] false);
      [done|done|reflexivity| |done|done|].
    + intros chunk d. exists []. repeat split; constructor.
    + intros s4. rewrite app_nil_r. by apply HQ0; set_solver.
  - unfold takeUsage, when. destruct (usageCounts (ev_Usage event)); wp_step; (apply HQ0; [set_solver|]); [|done].
    destruct Hinv1 as (d & evs & Hr & Hd & Hstop & Hte & Hca & _ & Hn & Hst). by exists d, evs.
Qed.

(** ** The end of the stream *)

Definition same_counts (u v : gatewayUsage) : Prop :=
  PromptTokens u = PromptTokens v ∧ CompletionTokens u = CompletionTokens v
  ∧ TotalTokens u = TotalTokens v ∧ CachedPromptTokens u = CachedPromptTokens v.

(** The usage that is read back, when it was asked for. *)
Definition usage_read (usage : gatewayUsage) (us : list canonicalStreamEvent) : Prop :=
  if includeUsage && usageCounts usage
  then ∃ u, us = [usageEvent u] ∧ same_counts u (normalized usage)
  else us = [].

Definition finishType (finish : string) : canonicalStreamEventType :=
  if chatFinishReasonIsIncomplete finish then Incomplete else Completed.

(** What a client reads of a finished stream. *)
Definition read_back s (ps : list piece) (finish : string) : Prop :=
  ∃ d evs us meta,
    decodeFrames newUUID newOpenAIChatStreamDecoder (frames s)
    = Some (d, evs ++ us ++ [finishEvent (finishType finish) meta (mkFinish finish "" "")])
    ∧ omap piece_of evs = ps ∧ Forall event_open evs ∧ usage_read (sc_usage (io_capture s)) us.

Definition decoded_frames s d evs : Prop :=
  decodeFrames newUUID newOpenAIChatStreamDecoder (frames s) = Some (d, evs).

Lemma frame_spec fr s d evs d' evs' (Q : unit → io openAIChatStreamEncoder → Prop) :
  decoded_frames s d evs → decodeFrame newUUID d fr = Some (d', evs') →
  (∀ s', io_enc s' = io_enc s → io_capture s' = io_capture s → decoded_frames s' d' (evs ++ evs') → Q tt s') →
  wp R (write fr) s Q.
Proof.
  unfold decoded_frames. intros Hd Hfr HQ. apply wp_write; [by left|]. intros room. apply HQ; [done..|].
  unfold frames in *. cbn [io_writer w_frames]. rewrite decodeFrames_snoc, Hd. cbn [mbind option_bind].
  by rewrite Hfr.
Qed.

Lemma decode_finish d e finish :
  in_int64 (ce_createdAt e) → finish ≠ "" → TrimSpace finish = finish → cd_createdSent d = true →
  ∃ meta, decodeFrame newUUID d (FData (chunk_of e [delta_choice [] [("finish_reason", AString finish)]] []))
    = Some (mkChatDecoder true (cd_terminalEmitted d)
              (Some (finishEvent (finishType finish) meta (mkFinish finish "" "")))
              (cd_toolCallIDByIndex d) (cd_toolCallNameByIndex d), []).
Proof.
  intros Hc Hf Ht Hcr. eexists. cbn [decodeFrame].
  pose proof (decode_delta d e [] finish (mkChatMessage ANil "" "" "" []) Hc eq_refl) as H.
  rewrite (bool_decide_eq_false_2 _ Hf) in H. rewrite H. unfold decodeChunk, chunkFor, decodeChoices, decodeChoice.
  cbn [ck_Choices ck_Usage cc_FinishReason]. rewrite Ht, (bool_decide_eq_false_2 _ Hf), Hcr. reflexivity.
Qed.

Lemma usage_chunk_spec s d evs (Q : unit → io openAIChatStreamEncoder → Prop) :
  decoded_frames s d evs → in_int64 (ce_createdAt (io_enc s)) → usage_ok (sc_usage (io_capture s)) →
  cd_createdSent d = true →
  (∀ s' d' us, io_enc s' = io_enc s → io_capture s' = io_capture s →
     cd_pendingTerminal d' = cd_pendingTerminal d → cd_terminalEmitted d' = cd_terminalEmitted d →
     usage_read (sc_usage (io_capture s)) us → decoded_frames s' d' (evs ++ us) → Q tt s') →
  wp R (when (includeUsage && usageCounts (sc_usage (io_capture s)))
          (writeChunk [] [("usage", chatCompletionUsagePayload (sc_usage (io_capture s)))])) s Q.
Proof.
  intros Hd Hc Hu Hcr HQ. unfold when. unfold usage_read in HQ.
  destruct (includeUsage && usageCounts (sc_usage (io_capture s))) eqn:E.
  - apply andb_true_iff in E as [_ Hcounts]. unfold writeChunk. repeat wp_step.
    destruct (decode_usage d (io_enc s) _ Hc Hu Hcounts Hcr) as (u & Hdec & Hsame).
    eapply frame_spec; [exact Hd|exact Hdec|]. intros s' He Hcap Hd'.
    apply (HQ s' (with_created d) [usageEvent u]); [done..| |done]. by exists u.
  - apply wp_ret. apply (HQ s d []); [done..|]. by rewrite app_nil_r.
Qed.

Lemma terminal_spec s names ps n dflt completed endReason (Q : unit → io openAIChatStreamEncoder → Prop) :
  let finish := if existsb is_call ps && negb (existsb is_text ps) then "tool_calls" else dflt in
  Inv s names ps n → dflt ≠ "" → TrimSpace dflt = dflt →
  (∀ s', read_back s' ps finish → sc_sawDone (io_capture s') = true →
         sc_streamCompleted (io_capture s') = completed → sc_endReason (io_capture s') = endReason → Q tt s') →
  wp R (sendTerminal includeUsage requireUsage dflt completed endReason) s Q.
Proof.
  intros finish Hinv Hne Htrim HQ. unfold sendTerminal. repeat wp_step.
  assert (ce_stopSent (io_enc s) = false) as -> by by destruct Hinv as (? & ? & ? & ? & ? & _).
  repeat wp_step. destruct (requireUsage && _).
  { repeat wp_step. apply wp_fail. right. cbn. set_solver. }
  repeat wp_step. apply (chat_start_spec s names ps n); [done|]. intros s1 Hinv1 Hs1 <-.
  destruct Hinv1 as (d & evs & Hr & (Hd & Hps & Hopen & Hpend & Hem) & Hstop & Ht & Hcall & Hu & Hn & Hst).
  repeat wp_step. rewrite Ht, Hcall. fold finish.
  assert (finish ≠ "" ∧ TrimSpace finish = finish) as [Hf Hft].
  { subst finish. by destruct (existsb is_call ps && _). }
  destruct (decode_finish d (io_enc s1) finish (r_created _ _ _ Hr) Hf Hft (Hst Hs1)) as [meta Hfin].
  unfold writeChunk at 1. repeat wp_step. eapply frame_spec; [exact Hd|exact Hfin|].
  intros s2 He2 Hc2 Hd2. rewrite <- Hc2. rewrite app_nil_r in Hd2. wp_step.
  eapply usage_chunk_spec; [exact Hd2|rewrite He2; apply Hr|by rewrite Hc2|done|].
  intros s3 d3 us He3 Hc3 Hp3 Hem3 Hus Hd3. wp_step.
  cbn [cd_pendingTerminal cd_terminalEmitted] in Hp3, Hem3. rewrite Hem in Hem3.
  eapply frame_spec; [exact Hd3|cbn [decodeFrame]; unfold decodeDone; rewrite Hem3, Hp3; reflexivity|].
  intros s4 He4 Hc4 Hd4. repeat wp_step. apply HQ; [|done..].
  eexists _, evs, us, meta. split_and!; [|done|done|].
  - rewrite app_assoc. exact Hd4.
  - cbn [io_capture set_done sc_usage]. by rewrite Hc4, Hc3.
Qed.

Lemma validate_spec s (Q : unit → io openAIChatStreamEncoder → Prop) :
  Q tt s → wp R (validateToolCallArguments valid) s Q.
Proof.
  intros HQ. unfold validateToolCallArguments. repeat wp_step.
  apply wp_for_each with (I := λ _ s', s' = s); [done| |by intros ? ->].
  intros [id args] rest ? ->. destruct (StreamEvents.validateToolCallArguments _ _); [by apply wp_ret|].
  repeat wp_step. apply wp_fail. right. cbn. set_solver.
Qed.

Lemma chat_last_spec s names ps n event (Q : unit → io openAIChatStreamEncoder → Prop) :
  Inv s names ps n → event_ok event → ev_Type event ∈ [Completed; Incomplete] →
  (∀ s', read_back s' ps (wire_finish ps event) → sc_sawDone (io_capture s') = true →
         sc_streamCompleted (io_capture s') = bool_decide (ev_Type event = Completed) →
         sc_endReason (io_capture s') = (if bool_decide (ev_Type event = Completed) then "done"
                                         else "response_incomplete") → Q tt s') →
  wp R (encode event) s Q.
Proof.
  intros Hinv [Hcr _] Ht HQ. unfold encode, EncodeEvent, mergeMeta. do 2 wp_step.
  set (s1 := mkIO (ce_set_meta _ _ _ (io_enc s)) (io_capture s) (io_writer s)).
  assert (Hinv1 : Inv s1 names ps n).
  { destruct Hinv as (d & evs & Hr & H). exists d, evs. split; [|exact H]. apply chat_rel_meta; [|done].
    destruct (0 <? _); [done|apply Hr]. }
  clearbody s1. unfold wire_finish in HQ.
  assert (ev_Type event = Completed ∨ ev_Type event = Incomplete) as [E|E] by set_solver; rewrite E in *.
  - unfold sendFinish. wp_step. apply validate_spec. eapply terminal_spec; [exact Hinv1|done|done|].
    intros s' Hb Hd Hc He. by apply HQ.
  - unfold sendIncomplete. eapply terminal_spec; [exact Hinv1| |apply nonEmptyString_trimmed|].
    + cbn [nonEmptyString]. change (bool_decide (TrimSpace "length" = "")) with false.
      clear HQ. case_bool_decide; [by vm_compute|assumption].
    + intros s' Hb Hd Hc He. by apply HQ.
Qed.

Lemma chat_events_spec events s names ps n (Q : unit → io openAIChatStreamEncoder → Prop) :
  Forall (λ event, terminal event = false ∧ event_ok event) events → Inv s names ps n →
  n + Z.of_nat (length events) ≤ max_int64 →
  (∀ s' names' n', Inv s' names' (ps ++ pieces pass names events) n' → Q tt s') →
  wp R (encodeRaw encode events) s Q.
Proof.
  unfold encodeRaw. revert s names ps n. induction events as [|event events IH]; intros s names ps n Hev Hinv Hn HQ.
  { apply wp_ret. apply (HQ s names n). by rewrite app_nil_r. }
  apply list.Forall_cons in Hev as [[Ht Hok] Hev]. cbn [for_each length] in *.
  apply wp_bind, (wp_encoded R); [intros ??; apply gave_up_encoded|].
  eapply chat_encode_spec; [done|done|exact Hinv|lia|]. intros s' n' Hn' Hinv'.
  eapply IH; [done|exact Hinv'|lia|]. intros s2 names2 n2. cbn [pieces] in HQ.
  destruct (says pass names event) as [names1 more]. cbn [fst snd] in *. rewrite <- app_assoc. apply HQ.
Qed.
End decoding.

(** ** The round trip *)

Definition newChatStream (room : option nat) (createdAt : Z) : io openAIChatStreamEncoder :=
  mkIO (newOpenAIChatStreamEncoder createdAt) emptyCapture (mkWriter [] room).

Lemma chat_Inv_new newUUID room createdAt :
  in_int64 createdAt → Inv newUUID (newChatStream room createdAt) ∅ [] 0.
Proof.
  intros Hc. exists newOpenAIChatStreamDecoder, []. split_and!; try done.
  - split; [done|..]; cbn; try done; intros ?; rewrite ?lookup_empty; try done.
Qed.

(** C12: What the chat encoder writes is read back by the chat decoder.  Whatever events a
    decoder emits (none of which ends the stream, then [completed] or [incomplete]; their
    counts fit their width): when the encoder succeeds, [openAIChatStreamDecoder] reads its
    frames without an error, and the events it emits say, in the same order, every text
    delta, every reasoning delta the policy lets pass (without the white space around it,
    which is lost, and a blank one is dropped), and every delta of a call's arguments under
    its identifier and the name first given for it.  The token counts come back when they
    were asked for, and one terminal event closes the stream, after the usage.  When the
    encoder fails, the connection broke or the capture names the reason. *)
Theorem chat_stream_round_trip candidateSpec siteType includeUsage requireUsage valid order newUUID
    room createdAt events last :
  in_int64 createdAt →
  Forall (λ event, terminal event = false ∧ event_ok event) events →
  Z.of_nat (length events) ≤ max_int64 →
  ev_Type last ∈ [Completed; Incomplete] → event_ok last →
  let ps := pieces (passes candidateSpec) ∅ events in
  let finish := wire_finish ps last in
  match encodeRaw (EncodeEvent candidateSpec siteType includeUsage requireUsage valid order)
          (events ++ [last]) (newChatStream room createdAt) with
  | (Ok _, s) => ∃ d evs us meta,
      decodeFrames newUUID newOpenAIChatStreamDecoder (frames s)
      = Some (d, evs ++ us ++ [finishEvent (finishType finish) meta (mkFinish finish "" "")])
      ∧ omap piece_of evs = ps ∧ Forall event_open evs
      ∧ usage_read includeUsage (sc_usage (io_capture s)) us
      ∧ sc_streamCompleted (io_capture s) = bool_decide (ev_Type last = Completed)
  | (Err _, s) => gave_up s
  end.
Proof.
  intros Hc Hev Hlen Hlast Hok ps finish.
  set (encode := EncodeEvent candidateSpec siteType includeUsage requireUsage valid order).
  assert (wp R (encodeRaw encode (events ++ [last])) (newChatStream room createdAt)
    (λ _ s, read_back newUUID includeUsage s ps finish
       ∧ sc_streamCompleted (io_capture s) = bool_decide (ev_Type last = Completed))) as H.
  { apply wp_for_each_app. eapply chat_events_spec; [done|by apply chat_Inv_new|done|].
    intros s' names' n' Hinv. cbn [for_each].
    apply wp_bind, (wp_encoded R); [intros ??; apply gave_up_encoded|].
    eapply chat_last_spec; [exact Hinv|done|done|]. intros s2 ????. by apply wp_ret. }
  unfold wp in H. destruct (encodeRaw _ _ _) as [[[]|e] s]; [|done].
  destruct H as [(d & evs & us & meta & ? & ? & ? & ?) ?]. by exists d, evs, us, meta.
Qed.

(** The policies of the registry for this protocol. *)
Definition chatSpec : resolvedProtocolSpec :=
  mkSpec ∅ (list_to_map [("default", "metadata"); ("encrypted_reasoning", "strip");
                         ("reasoning_summary", "metadata"); ("thinking", "passthrough");
                         ("thinking_signature", "passthrough")]).

Definition sample_usage : gatewayUsage := mkUsage 12 7 19 0 4 0 0 0 0 0 0 0 0 0 0 0 None.

Definition sample_events : list canonicalStreamEvent :=
  [createdEvent (mkMeta "chatcmpl-7" "m" 1700000000);
   reasoningEvent noMeta "Let me see." (mkReasoning "thinking" "" 0);
   textEvent noMeta "Look" false;
   toolCallEvent noMeta (mkToolCall 0 "call_1" "search" "{" []);
   textEvent noMeta "ing." false;
   toolCallEvent noMeta (mkToolCall 0 "call_1" "" "}" []);
   usageEvent sample_usage].

Definition read_pieces (result : option (openAIChatStreamDecoder * list canonicalStreamEvent))
    : list piece := match result with Some (_, evs) => omap piece_of evs | None => [] end.

Lemma chat_stream_round_trip_witness :
  ∃ s d evs u meta,
    encodeRaw (EncodeEvent chatSpec "openai" true true (λ _, true) id)
      (sample_events ++ [finishEvent Completed noMeta noFinish]) (newChatStream None 0) = (Ok tt, s)
    ∧ decodeFrames (λ _, "") newOpenAIChatStreamDecoder (frames s)
      = Some (d, evs ++ [usageEvent u] ++ [finishEvent Completed meta (mkFinish "stop" "" "")])
    ∧ omap piece_of evs
      = [PThinking "Let me see."; PText "Look"; PCall "call_1" "search" "{"; PText "ing.";
         PCall "call_1" "search" "}"]
    ∧ same_counts u sample_usage.
Proof.
  pose proof (chat_stream_round_trip chatSpec "openai" true true (λ _, true) id (λ _, "") None 0
    sample_events (finishEvent Completed noMeta noFinish)) as H.
  specialize (H ltac:(unfold in_int64, min_int64, max_int64; lia)).
  specialize (H ltac:(repeat constructor; unfold in_int64; vm_compute; try reflexivity; discriminate)).
  specialize (H ltac:(vm_compute; discriminate) ltac:(cbn; left)).
  specialize (H ltac:(repeat constructor; unfold in_int64; vm_compute; try reflexivity; discriminate)).
  cbv zeta in H.
  destruct (encodeRaw _ _ _) as [[[]|e] s] eqn:E in H; [|exfalso; vm_compute in E; discriminate].
  destruct H as (d & evs & us & meta & Hdec & Hps & _ & Hus & _).
  assert (sc_usage (io_capture s) = sample_usage) as Hu.
  { assert (s = snd (encodeRaw (EncodeEvent chatSpec "openai" true true (λ _, true) id)
      (sample_events ++ [finishEvent Completed noMeta noFinish]) (newChatStream None 0))) as ->
      by (rewrite E; reflexivity).
    vm_compute. reflexivity. }
  unfold usage_read in Hus. rewrite Hu in Hus. destruct Hus as (u & -> & Hsame).
  exists s, d, evs, u, meta. split_and!; [exact E|exact Hdec|exact Hps|apply Hsame..].
Defined.

(** A response that ran out of tokens in the middle of a call is told to the client as one
    that calls the tool: [sendTerminal] prefers "tool_calls" to the reason it is given, and
    only a complete response has its arguments checked. *)
Theorem truncated_tool_call_looks_complete :
  ∃ s d evs meta,
    encodeRaw (EncodeEvent chatSpec "openai" false false (λ _, false) id)
      [toolCallEvent noMeta (mkToolCall 0 "call_1" "search" "{" []);
       finishEvent Incomplete noMeta (mkFinish "length" "" "")] (newChatStream None 0) = (Ok tt, s)
    ∧ decodeFrames (λ _, "") newOpenAIChatStreamDecoder (frames s)
      = Some (d, evs ++ [finishEvent Completed meta (mkFinish "tool_calls" "" "")])
    ∧ omap piece_of evs = [PCall "call_1" "search" "{"].
Proof.
  eexists _, _, [createdEvent (mkMeta "chatcmpl-xlyra" "" 0);
    toolCallEvent (mkMeta "chatcmpl-xlyra" "" 0) (mkToolCall 0 "call_1" "search" "{" [])], _.
  split_and!; [vm_compute; reflexivity..].
Qed.

(** A choice that carries a finish reason loses its delta: text and calls an upstream sends
    together with the reason never reach the client. *)
Theorem finish_chunk_drops_its_delta newUUID chunk d choice :
  TrimSpace (cc_FinishReason choice) ≠ "" →
  snd (decodeChoice newUUID chunk d choice) = []
  ∧ cd_toolCallIDByIndex (fst (decodeChoice newUUID chunk d choice)) = cd_toolCallIDByIndex d.
Proof. intros H. unfold decodeChoice. by rewrite (bool_decide_eq_false_2 _ H). Qed.
