(* ===== verification/ResponsesStream.v ===== *)
(** * The OpenAI Responses stream

    The events of a Responses stream as they are unmarshalled ([gateway/
    protocol_openai_responses.go]) and [openAIResponsesStreamDecoder] of [gateway/
    protocol_canonical_stream.go].  A call's arguments come as deltas and again as a whole;
    the decoder emits only what is new, and the theorem compares it with what the upstream
    stated, as a reader of its own finds it in the events. *)

From S2P Require Import Prelude GoFloat Catalog Json Pricing StreamEvents ChatStream.

(** ** Usage *)

(** Of the details, cached, cache write and image tokens are used. *)
Record responsesInputTokenDetail := mkInputDetail {
  id_CachedTokens : Z;
  id_CacheWriteTokens : Z;
  id_ImageTokens : Z
}.

Record responsesUsage := mkResponsesUsage {
  ru_PromptTokens : Z;
  ru_CompletionTokens : Z;
  ru_TotalTokens : Z;
  ru_InputTokens : Z;
  ru_OutputTokens : Z;
  ru_InputTokensDetails : option responsesInputTokenDetail;
  ru_OutputTokensDetails : option Z;  (* reasoning tokens *)
  ru_CompletionTokenStats : Z         (* reasoning tokens *)
}.

Definition completionUsageFromResponsesUsage (usage : option responsesUsage) : gatewayUsage :=
  match usage with
  | None => noUsage
  | Some u =>
      let prompt := if ru_PromptTokens u =? 0 then ru_InputTokens u else ru_PromptTokens u in
      let completion := if ru_CompletionTokens u =? 0 then ru_OutputTokens u else ru_CompletionTokens u in
      let details := default (mkInputDetail 0 0 0) (ru_InputTokensDetails u) in
      let reasoning := default (ru_CompletionTokenStats u) (ru_OutputTokensDetails u) in
      let total := if ru_TotalTokens u =? 0 then add64 prompt completion else ru_TotalTokens u in
      normalized (mkUsage prompt completion total 0 (id_CachedTokens details) 0 0
                    (id_CacheWriteTokens details) 0 0 0 reasoning 0 (id_ImageTokens details) 0 0 None)
  end.

Definition read_responsesInputTokenDetail (m : list (string * any)) : option responsesInputTokenDetail :=
  cached ← read_int (field m "cached_tokens");
  written ← read_int (field m "cache_write_tokens");
  images ← read_int (field m "image_tokens");
  _ ← read_int (field m "audio_tokens");
  Some (mkInputDetail cached written images).

Definition read_responsesOutputTokenDetail (m : list (string * any)) : option Z :=
  read_int (field m "reasoning_tokens").

Definition read_responsesUsage (m : list (string * any)) : option responsesUsage :=
  prompt ← read_int (field m "prompt_tokens");
  completion ← read_int (field m "completion_tokens");
  total ← read_int (field m "total_tokens");
  input ← read_int (field m "input_tokens");
  output ← read_int (field m "output_tokens");
  inputDetails ← read_pointer read_responsesInputTokenDetail (field m "input_tokens_details");
  outputDetails ← read_pointer read_responsesOutputTokenDetail (field m "output_tokens_details");
  stats ← read_map (field m "completion_tokens_details");
  stats ← read_responsesOutputTokenDetail stats;
  Some (mkResponsesUsage prompt completion total input output inputDetails outputDetails stats).

(** ** Events *)

(** The named members are texts, or not there. *)
Definition check_strings (m : list (string * any)) (names : list string) : option unit :=
  if forallb (λ name, match read_string (field m name) with Some _ => true | None => false end) names
  then Some tt else None.

(** The type of [responsesOutputContent] is checked; its text is not used here. *)
Definition read_responsesOutputContent (m : list (string * any)) : option unit :=
  _ ← check_strings m ["type"; "text"]; _ ← read_array (field m "annotations"); Some tt.

(** [responsesOutputItem]: what the decoder uses of it. *)
Record responsesOutputItem := mkItem {
  it_Type : string;
  it_ID : string;
  it_CallID : string;
  it_Name : string;
  it_Arguments : string
}.

Definition read_responsesOutputItem (m : list (string * any)) : option responsesOutputItem :=
  type ← read_string (field m "type");
  id ← read_string (field m "id");
  callID ← read_string (field m "call_id");
  name ← read_string (field m "name");
  arguments ← read_string (field m "arguments");
  _ ← check_strings m ["role"; "status"; "result"; "revised_prompt"; "background"; "output_format";
        "quality"; "size"; "reasoning_content"; "thinking"; "thinking_signature"];
  contents ← read_array (field m "content");
  _ ← read_all read_responsesOutputContent contents;
  Some (mkItem type id callID name arguments).

Record responsesResponse := mkResponse {
  rs_ID : string;
  rs_CreatedAt : Z;
  rs_Model : string;
  rs_Usage : option responsesUsage;
  rs_Error : any
}.

Definition read_responsesResponse (m : list (string * any)) : option responsesResponse :=
  id ← read_string (field m "id");
  created ← read_int (field m "created_at");
  model ← read_string (field m "model");
  output ← read_array (field m "output");
  _ ← read_all read_responsesOutputItem output;
  usage ← read_pointer read_responsesUsage (field m "usage");
  Some (mkResponse id created model usage (field m "error")).

(** [responsesAPIError]: message, code and type. *)
Record responsesAPIError := mkAPIError { ae_Type : string; ae_Code : string; ae_Message : string }.

Definition read_responsesAPIError (m : list (string * any)) : option responsesAPIError :=
  type ← read_string (field m "type");
  code ← read_string (field m "code");
  message ← read_string (field m "message");
  _ ← read_string (field m "param");
  Some (mkAPIError type code message).

Record responsesStreamEvent := mkResponsesEvent {
  re_Type : string;
  re_Delta : string;
  re_Text : string;
  re_Arguments : string;
  re_Item : option responsesOutputItem;
  re_ItemID : string;
  re_Response : option responsesResponse;
  re_Error : option responsesAPIError;
  re_Annotation : any
}.

Section event.
(** The parser, and the text a value was written as. *)
Context (parse : string → option any) (rawText : any → string).

(** [flexibleJSONString] takes a text, or any value as its text. *)
Definition flexibleJSONString (value : any) : string :=
  match read_string value with Some text => text | None => rawText value end.

Definition read_responsesStreamEvent (m : list (string * any)) : option responsesStreamEvent :=
  type ← read_string (field m "type");
  delta ← read_string (field m "delta");
  text ← read_string (field m "text");
  _ ← read_string (field m "encrypted_content");
  item ← read_pointer read_responsesOutputItem (field m "item");
  _ ← read_pointer read_responsesOutputContent (field m "part");
  itemID ← read_string (field m "item_id");
  response ← read_pointer read_responsesResponse (field m "response");
  error ← read_pointer read_responsesAPIError (field m "error");
  Some (mkResponsesEvent type delta text (flexibleJSONString (field m "arguments")) item itemID
          response error (field m "annotation")).

Definition parse_responsesStreamEvent (data : string) : option responsesStreamEvent :=
  value ← parse data; members ← read_map value; read_responsesStreamEvent members.
End event.

Definition responseIDFromResponsesStreamEvent (event : responsesStreamEvent) : string :=
  default "" (rs_ID <$> re_Response event).
Definition modelFromResponsesStreamEvent (event : responsesStreamEvent) : string :=
  default "" (rs_Model <$> re_Response event).
Definition createdAtFromResponsesStreamEvent (event : responsesStreamEvent) : Z :=
  default 0 (rs_CreatedAt <$> re_Response event).

(** [marshal] of an [any]; it never fails, nor is it empty. *)
Definition errorMessageFromResponsesStreamEvent (marshal : any → string) (event : responsesStreamEvent)
    : string :=
  match re_Error event with
  | Some e => nonEmptyString [ae_Message e; ae_Code e; ae_Type e; re_Type event]
  | None =>
      match rs_Error <$> re_Response event with
      | None | Some ANil => nonEmptyString [re_Type event; "upstream stream failed"]
      | Some error => marshal error
      end
  end.

Definition reasoningKindFromResponsesEvent (eventName : string) : string :=
  if Contains eventName "encrypted_content" then "encrypted_reasoning"
  else if Contains eventName "summary" then "reasoning_summary"
  else "reasoning".

(** ** Advanced events *)

Definition HasSuffix (s suffix : string) : bool :=
  (String.length suffix <=? String.length s)%nat
  && bool_decide (String.substring (String.length s - String.length suffix) (String.length suffix) s = suffix).

Fixpoint nestedFromMap (current : any) (path : list string) : string :=
  match path with
  | [] => match current with AString value => TrimSpace value | _ => "" end
  | part :: rest => match current with AObject m => nestedFromMap (map_index m part) rest | _ => "" end
  end.

Definition nestedStringFromMap (root : list (string * any)) (path : list string) : string :=
  nestedFromMap (AObject root) path.

Definition isKnownResponsesStreamEvent (eventName : string) : bool :=
  bool_decide (eventName ∈
    ["response.created"; "response.in_progress"; "response.completed"; "response.incomplete";
     "response.error"; "response.failed"; "response.output_text.delta"; "response.output_text.done";
     "response.refusal.delta"; "response.refusal.done"; "response.output_text.annotation.added";
     "response.reasoning_summary_text.delta"; "response.reasoning_text.delta";
     "response.reasoning_delta"; "response.reasoning_summary.delta";
     "response.reasoning.encrypted_content.delta"; "response.reasoning.encrypted_content.done";
     "response.function_call_arguments.delta"; "response.function_call_arguments.done"]).

(** The kinds in the order they are tried, each with the tokens that name it. *)
Definition advancedKinds : list (string * list string) :=
  [("tool_result", ["function_call_output"; "tool_result"]); ("mcp", ["mcp"]);
   ("approval", ["approval"; "authorization"]); ("computer_use", ["computer"]);
   ("web_search", ["web_search"]); ("shell", ["shell"; "terminal"; "command"]);
   ("patch", ["apply_patch"; "patch"]); ("file", ["file"]);
   ("code_execution", ["code_interpreter"; "code_execution"]);
   ("image", ["image_generation"; "partial_image"; "image"]); ("audio", ["audio"]);
   ("transcript", ["transcript"]); ("todo", ["todo"]); ("plan", ["plan"]); ("subagent", ["subagent"])].

Definition advancedKindFromTokens (tokens : string) : string :=
  match List.find (λ kind, existsb (Contains tokens) kind.2) advancedKinds with
  | Some kind => kind.1
  | None => "provider_event"
  end.

Definition advancedKindFromResponsesStreamEvent (event : responsesStreamEvent)
    (raw : list (string * any)) : option string :=
  let eventName := ToLower (TrimSpace (re_Type event)) in
  let itemType := ToLower (TrimSpace (default "" (it_Type <$> re_Item event))) in
  let itemType := if bool_decide (itemType = "")
                  then ToLower (TrimSpace (nestedStringFromMap raw ["item"; "type"])) else itemType in
  let partType := ToLower (TrimSpace (nestedStringFromMap raw ["part"; "type"])) in
  if HasPrefix eventName "response.output_item." then
    if bool_decide (itemType ∈ [""; "message"; "function_call"]) then None
    else Some (advancedKindFromTokens (eventName +:+ " " +:+ itemType))
  else if HasPrefix eventName "response.content_part." then
    if bool_decide (partType ∈ [""; "output_text"; "refusal"]) then None
    else Some (advancedKindFromTokens (eventName +:+ " " +:+ partType))
  else if isKnownResponsesStreamEvent eventName then None
  else if HasPrefix eventName "response." then
    Some (advancedKindFromTokens (eventName +:+ " " +:+ itemType +:+ " " +:+ partType))
  else None.

Definition advancedPhases : list (string * list string) :=
  [("started", [".added"; ".created"; ".started"; "_started"]);
   ("delta", [".delta"; "_delta"; ".partial_image"; ".in_progress"]);
   ("done", [".done"; "_done"; ".completed"]); ("failed", [".failed"; "_failed"; ".error"])].

Definition advancedPhaseFromResponsesStreamEvent (eventName : string) : string :=
  let eventName := ToLower (TrimSpace eventName) in
  match List.find (λ phase, existsb (HasSuffix eventName) phase.2) advancedPhases with
  | Some phase => phase.1
  | None => "event"
  end.

Definition advancedEvent (advanced : eventAdvanced) (call : eventToolCall) : canonicalStreamEvent :=
  mkEvent Advanced noMeta "" noUsage noFinish ANil false noReasoning advanced call.

Section decoder.
Context (parse : string → option any) (rawText marshal : any → string)
        (order : list (string * any) → list (string * any)).

Definition advancedEventFromResponsesStreamEvent (event : responsesStreamEvent)
    (raw : option (list (string * any))) : option canonicalStreamEvent :=
  let eventName := TrimSpace (re_Type event) in
  if bool_decide (eventName = "") then None
  else
    raw ← raw;
    kind ← advancedKindFromResponsesStreamEvent event raw;
    Some (advancedEvent
      (mkAdvanced kind (advancedPhaseFromResponsesStreamEvent eventName) eventName
         (sanitizeAdvancedMap order (Some raw)))
      (mkToolCall 0
         (nonEmptyString [re_ItemID event; nestedStringFromMap raw ["item"; "call_id"];
                          nestedStringFromMap raw ["item"; "id"]; nestedStringFromMap raw ["call_id"]])
         (nonEmptyString [nestedStringFromMap raw ["item"; "name"]; nestedStringFromMap raw ["name"]])
         "" [])).

(** ** The decoder *)

Record openAIResponsesStreamDecoder := mkResponsesDecoder {
  rd_toolCallIDByItemID : gmap string string;
  rd_toolCallNameByCallID : gmap string string;
  rd_toolCallArgsByCallID : gmap string string
}.

Definition newOpenAIResponsesStreamDecoder : openAIResponsesStreamDecoder := mkResponsesDecoder ∅ ∅ ∅.

Definition args_of (d : openAIResponsesStreamDecoder) (callID : string) : string :=
  default "" (rd_toolCallArgsByCallID d !! callID).

Definition set_args (callID arguments : string) (d : openAIResponsesStreamDecoder)
    : openAIResponsesStreamDecoder :=
  mkResponsesDecoder (rd_toolCallIDByItemID d) (rd_toolCallNameByCallID d)
    (<[callID := arguments]> (rd_toolCallArgsByCallID d)).

(** What the whole arguments add to those so far; all of them when they do not begin with
    those. *)
Definition argumentsDelta (previous next : string) : string :=
  if HasPrefix next previous
  then String.substring (String.length previous) (String.length next - String.length previous) next
  else next.

Definition callEvent (callID name delta : string) : canonicalStreamEvent :=
  toolCallEvent noMeta (mkToolCall 0 callID name delta []).

(** An item that is a call. *)
Definition decodeCallItem (d : openAIResponsesStreamDecoder) (item : responsesOutputItem)
    : openAIResponsesStreamDecoder * list canonicalStreamEvent :=
  let callID := if bool_decide (TrimSpace (it_CallID item) = "") then TrimSpace (it_ID item)
                else TrimSpace (it_CallID item) in
  let name := TrimSpace (it_Name item) in
  let d := mkResponsesDecoder
    (if negb (bool_decide (it_ID item = "")) && negb (bool_decide (callID = ""))
     then <[it_ID item := callID]> (rd_toolCallIDByItemID d) else rd_toolCallIDByItemID d)
    (if bool_decide (name = "") then rd_toolCallNameByCallID d
     else <[callID := name]> (rd_toolCallNameByCallID d))
    (rd_toolCallArgsByCallID d) in
  let next := it_Arguments item in
  if bool_decide (next = "") then (d, [callEvent callID name ""])
  else (set_args callID next d, [callEvent callID name (argumentsDelta (args_of d callID) next)]).

(** The call an event is about. *)
Definition callOf (d : openAIResponsesStreamDecoder) (event : responsesStreamEvent) : string :=
  let callID := TrimSpace (default "" (rd_toolCallIDByItemID d !! re_ItemID event)) in
  if bool_decide (callID = "") then TrimSpace (re_ItemID event) else callID.

Definition nameOf (d : openAIResponsesStreamDecoder) (callID : string) : string :=
  default "" (rd_toolCallNameByCallID d !! callID).

Definition decodeArgumentsDelta (d : openAIResponsesStreamDecoder) (event : responsesStreamEvent)
    : openAIResponsesStreamDecoder * list canonicalStreamEvent :=
  let callID := callOf d event in
  let d := set_args callID (args_of d callID +:+ re_Delta event) d in
  (d, [callEvent callID (nameOf d callID) (re_Delta event)]).

Definition decodeArgumentsDone (d : openAIResponsesStreamDecoder) (event : responsesStreamEvent)
    : openAIResponsesStreamDecoder * list canonicalStreamEvent :=
  let callID := callOf d event in
  let next := TrimSpace (re_Arguments event) in
  let previous := args_of d callID in
  if bool_decide (next = "") || bool_decide (next = previous) then (d, [])
  else (set_args callID next d, [callEvent callID (nameOf d callID) (argumentsDelta previous next)]).

(** The usage that comes with a response. *)
Definition responseUsage (event : responsesStreamEvent) : list canonicalStreamEvent :=
  match re_Response event ≫= rs_Usage with
  | Some usage => [usageEvent (completionUsageFromResponsesUsage (Some usage))]
  | None => []
  end.

Definition responsesAdvancedStreamEvent (data : string) (event : responsesStreamEvent)
    : option (list canonicalStreamEvent) :=
  value ← parse data;
  match value with
  | ANil => Some (match advancedEventFromResponsesStreamEvent event None with Some e => [e] | None => [] end)
  | AObject raw => Some (match advancedEventFromResponsesStreamEvent event (Some raw) with
                         | Some e => [e] | None => [] end)
  | _ => None
  end.

(** The cases of the switch on the event's type. *)
Inductive eventCase :=
| CreatedCase | TextCase | RefusalCase | RefusalDoneCase | AnnotationCase | ReasoningCase | ItemCase
| ArgumentsCase | ArgumentsDoneCase | CompletedCase | IncompleteCase | FailedCase | SilentCase | OtherCase.

Definition eventCases : list (string * eventCase) :=
  [("response.created", CreatedCase); ("response.output_text.delta", TextCase);
   ("response.refusal.delta", RefusalCase); ("response.refusal.done", RefusalDoneCase);
   ("response.output_text.annotation.added", AnnotationCase);
   ("response.reasoning_summary_text.delta", ReasoningCase);
   ("response.reasoning_text.delta", ReasoningCase); ("response.reasoning_delta", ReasoningCase);
   ("response.reasoning_summary.delta", ReasoningCase);
   ("response.reasoning.encrypted_content.delta", ReasoningCase);
   ("response.reasoning.encrypted_content.done", ReasoningCase);
   ("response.output_item.added", ItemCase); ("response.output_item.done", ItemCase);
   ("response.function_call_arguments.delta", ArgumentsCase);
   ("response.function_call_arguments.done", ArgumentsDoneCase);
   ("response.completed", CompletedCase); ("response.incomplete", IncompleteCase);
   ("response.error", FailedCase); ("response.failed", FailedCase);
   ("response.in_progress", SilentCase)].

Definition caseOf (type : string) : eventCase :=
  match List.find (λ c, bool_decide (c.1 = type)) eventCases with
  | Some c => c.2
  | None => OtherCase
  end.

(** The event, [data] the text it came from; [None] is an error. *)
Definition decodeEvent (d : openAIResponsesStreamDecoder) (data : string) (event : responsesStreamEvent)
    : option (openAIResponsesStreamDecoder * list canonicalStreamEvent) :=
  let type := re_Type event in
  let meta := mkMeta (responseIDFromResponsesStreamEvent event) (modelFromResponsesStreamEvent event)
                (createdAtFromResponsesStreamEvent event) in
  let advanced := events ← responsesAdvancedStreamEvent data event; Some (d, events) in
  match caseOf type with
  | CreatedCase => Some (d, match re_Response event with Some _ => [createdEvent meta] | None => [] end)
  | TextCase => Some (d, [textEvent noMeta (re_Delta event) false])
  | RefusalCase => Some (d, [textEvent noMeta (re_Delta event) true])
  | RefusalDoneCase =>
      let text := nonEmptyString [re_Text event; re_Delta event] in
      Some (d, if bool_decide (text = "") then [] else [textEvent noMeta text true])
  | AnnotationCase => Some (d, [annotationEvent (re_Annotation event)])
  | ReasoningCase =>
      Some (d, [reasoningEvent noMeta (re_Delta event)
                  (mkReasoning (reasoningKindFromResponsesEvent type) type 0)])
  | ItemCase =>
      match re_Item event with
      | Some item =>
          if bool_decide (it_Type item = "function_call") then Some (decodeCallItem d item) else advanced
      | None => advanced
      end
  | ArgumentsCase => Some (decodeArgumentsDelta d event)
  | ArgumentsDoneCase => Some (decodeArgumentsDone d event)
  | CompletedCase => Some (d, responseUsage event ++ [finishEvent Completed meta noFinish])
  | IncompleteCase =>
      Some (d, responseUsage event
               ++ [finishEvent Incomplete meta (mkFinish "length" "" "response incomplete")])
  | FailedCase =>
      Some (d, [finishEvent ErrorEvent noMeta
                  (mkFinish "" "" (errorMessageFromResponsesStreamEvent marshal event))])
  | SilentCase => Some (d, [])
  | OtherCase => advanced
  end.

Definition DecodeLine (d : openAIResponsesStreamDecoder) (line : string)
    : option (openAIResponsesStreamDecoder * list canonicalStreamEvent) :=
  match sseDataFromLine line with
  | SSENone => Some (d, [])
  | SSEDone => Some (d, [finishEvent Completed noMeta noFinish])
  | SSEData data => event ← parse_responsesStreamEvent parse rawText data; decodeEvent d data event
  end.
End decoder.

(** ** The arguments a client assembles *)

Lemma argumentsDelta_spec previous next :
  HasPrefix next previous = true → previous +:+ argumentsDelta previous next = next.
Proof.
  intros H. unfold argumentsDelta. rewrite H. unfold HasPrefix in H.
  assert (Hall : ∀ s, String.substring 0 (String.length s) s = s).
  { induction s as [|c s IH]; [done|]. cbn. by rewrite IH. }
  revert next H. induction previous as [|c previous IH]; intros next H.
  { cbn. rewrite Nat.sub_0_r. apply Hall. }
  destruct next as [|c' next]; [done|]. cbn in H. destruct (ascii_dec c c') as [->|]; [|done].
  change (String c' previous +:+ ?s) with (String c' (previous +:+ s)). f_equal. by apply IH.
Qed.

(** The argument deltas of a call among some events. *)
Definition deltas (callID : string) (events : list canonicalStreamEvent) : string :=
  String.concat "" (omap (λ event,
    if bool_decide (ev_Type event = ToolCallDelta) && bool_decide (ev_ToolCallID (ev_ToolCall event) = callID)
    then Some (ev_ToolCallArgumentsDelta (ev_ToolCall event)) else None) events).

Section arguments.
Context (parse : string → option any) (rawText marshal : any → string)
        (order : list (string * any) → list (string * any)).
Implicit Types d : openAIResponsesStreamDecoder.


(** An event that states a call's arguments as a whole begins with those so far. *)
Definition extends d (event : responsesStreamEvent) : Prop :=
  match caseOf (re_Type event), re_Item event with
  | ArgumentsDoneCase, _ =>
      HasPrefix (TrimSpace (re_Arguments event)) (args_of d (callOf d event)) = true
      ∨ TrimSpace (re_Arguments event) = ""
  | ItemCase, Some item =>
      it_Type item = "function_call" →
      it_Arguments item = ""
      ∨ HasPrefix (it_Arguments item)
          (args_of d (if bool_decide (TrimSpace (it_CallID item) = "") then TrimSpace (it_ID item)
                      else TrimSpace (it_CallID item))) = true
  | _, _ => True
  end.

Definition extendsLine d (line : string) : Prop :=
  match sseDataFromLine line with
  | SSEData data => match parse_responsesStreamEvent parse rawText data with
                    | Some event => extends d event | None => True end
  | _ => True
  end.

Fixpoint decodeLines d (lines : list string)
    : option (openAIResponsesStreamDecoder * list canonicalStreamEvent) :=
  match lines with
  | [] => Some (d, [])
  | line :: rest =>
      '(d, events) ← DecodeLine parse rawText marshal order d line; '(d, more) ← decodeLines d rest; Some (d, events ++ more)
  end.

Definition grows d d' (events : list canonicalStreamEvent) : Prop :=
  ∀ id, args_of d' id = args_of d id +:+ deltas id events.

Lemma deltas_app id l1 l2 : deltas id (l1 ++ l2) = deltas id l1 +:+ deltas id l2.
Proof.
  unfold deltas. rewrite omap_app. induction (omap _ l1) as [|x l IH]; [done|].
  cbn [app]. assert (Hc : ∀ y r, String.concat "" (y :: r) = y +:+ String.concat "" r).
  { intros y [|z r]; [cbn; by rewrite append_nil_r|done]. }
  by rewrite !Hc, IH, append_assoc.
Qed.

Lemma deltas_call id callID name delta :
  deltas id [callEvent callID name delta] = if bool_decide (callID = id) then delta else "".
Proof.
  unfold deltas. cbn [omap list_omap ev_Type callEvent toolCallEvent ev_ToolCall ev_ToolCallID
    ev_ToolCallArgumentsDelta].
  rewrite (bool_decide_eq_true_2 (ToolCallDelta = ToolCallDelta) eq_refl). cbn [andb]. by case_bool_decide.
Qed.

Lemma args_of_set id callID next d :
  args_of (set_args callID next d) id = if bool_decide (callID = id) then next else args_of d id.
Proof.
  unfold args_of, set_args. cbn. case_bool_decide as H; [subst; by rewrite lookup_insert_eq|].
  by rewrite lookup_insert_ne.
Qed.

Lemma grows_call d d' callID name delta :
  (∀ id, args_of d' id = if bool_decide (callID = id) then args_of d callID +:+ delta else args_of d id) →
  grows d d' [callEvent callID name delta].
Proof.
  intros H id. rewrite deltas_call, H. case_bool_decide as E; [by subst|by rewrite append_nil_r].
Qed.

Lemma grows_silent d events :
  Forall (λ event, ev_Type event ≠ ToolCallDelta) events → grows d d events.
Proof.
  intros Hev id. unfold deltas. rewrite omap_none; [by rewrite append_nil_r|].
  intros e He. rewrite list.Forall_forall in Hev. by rewrite (bool_decide_eq_false_2 _ (Hev e He)).
Qed.

Lemma decodeCallItem_grows d item :
  it_Arguments item = "" ∨ HasPrefix (it_Arguments item)
    (args_of d (if bool_decide (TrimSpace (it_CallID item) = "") then TrimSpace (it_ID item)
                else TrimSpace (it_CallID item))) = true →
  let '(d', events) := decodeCallItem d item in grows d d' events.
Proof.
  intros H. unfold decodeCallItem. set (callID := if bool_decide (TrimSpace (it_CallID item) = "") then _ else _) in *.
  clearbody callID. destruct (bool_decide (it_Arguments item = "")) eqn:Hn.
  - clear Hn. apply grows_call. intros id. rewrite append_nil_r.
    change (args_of (mkResponsesDecoder _ _ _) id) with (args_of d id).
    case_bool_decide; [by subst|done].
  - apply bool_decide_eq_false in Hn. destruct H as [H|H]; [done|]. apply grows_call. intros id. rewrite args_of_set.
    change (args_of (mkResponsesDecoder _ _ _) ?c) with (args_of d c).
    case_bool_decide; [|done]. symmetry. apply argumentsDelta_spec, H.
Qed.

Lemma decodeArgumentsDone_grows d event :
  HasPrefix (TrimSpace (re_Arguments event)) (args_of d (callOf d event)) = true
  ∨ TrimSpace (re_Arguments event) = "" →
  let '(d', events) := decodeArgumentsDone d event in grows d d' events.
Proof.
  intros H. unfold decodeArgumentsDone. case_bool_decide as H1; [by apply grows_silent|].
  destruct H as [H|H]; [|done]. case_bool_decide as H2; cbn [orb]; [by apply grows_silent|].
  apply grows_call. intros id. rewrite args_of_set. case_bool_decide; [|done].
  symmetry. apply argumentsDelta_spec, H.
Qed.

Lemma decodeArgumentsDelta_grows d event :
  let '(d', events) := decodeArgumentsDelta d event in grows d d' events.
Proof. unfold decodeArgumentsDelta. apply grows_call. intros id. apply args_of_set. Qed.

Lemma responseUsage_silent event : Forall (λ event, ev_Type event ≠ ToolCallDelta) (responseUsage event).
Proof. unfold responseUsage. destruct (_ ≫= _); repeat constructor. done. Qed.

Lemma advanced_silent data event events :
  responsesAdvancedStreamEvent parse order data event = Some events →
  Forall (λ event, ev_Type event ≠ ToolCallDelta) events.
Proof.
  unfold responsesAdvancedStreamEvent, advancedEventFromResponsesStreamEvent.
  destruct (parse data) as [value|]; [|done]. cbn.
  assert (Hkind : ∀ raw : option (list (string * any)), ∀ e,
    (if bool_decide (TrimSpace (re_Type event) = "") then None else
     raw ← raw; kind ← advancedKindFromResponsesStreamEvent event raw;
     Some (advancedEvent (mkAdvanced kind (advancedPhaseFromResponsesStreamEvent (TrimSpace (re_Type event)))
       (TrimSpace (re_Type event)) (sanitizeAdvancedMap order (Some raw)))
      (mkToolCall 0
         (nonEmptyString [re_ItemID event; nestedStringFromMap raw ["item"; "call_id"];
                          nestedStringFromMap raw ["item"; "id"]; nestedStringFromMap raw ["call_id"]])
         (nonEmptyString [nestedStringFromMap raw ["item"; "name"]; nestedStringFromMap raw ["name"]])
         "" []))) = Some e → ev_Type e ≠ ToolCallDelta).
  { intros raw e. case_bool_decide; [done|]. destruct raw as [raw|]; [|done]. cbn.
    destruct (advancedKindFromResponsesStreamEvent event raw); [|done]. cbn. by intros [= <-]. }
  destruct value as [| | | | | |raw]; try done; intros [= <-].
  - specialize (Hkind None). destruct (if bool_decide _ then _ else _); [|constructor].
    repeat constructor. by apply Hkind.
  - specialize (Hkind (Some raw)). destruct (if bool_decide _ then _ else _); [|constructor].
    repeat constructor. by apply Hkind.
Qed.

Lemma decodeEvent_grows d data event d' events :
  extends d event → decodeEvent parse marshal order d data event = Some (d', events) → grows d d' events.
Proof.
  unfold extends, decodeEvent.
  assert (Hadv : ∀ d' events, (events ← responsesAdvancedStreamEvent parse order data event; Some (d, events))
                 = Some (d', events) → grows d d' events).
  { intros d1 evs. destruct (responsesAdvancedStreamEvent _ _ _ _) as [l|] eqn:E; [|done].
    intros [= <- <-]. by eapply grows_silent, advanced_silent. }
  assert (Hfinish : ∀ t meta finish, ev_Type (finishEvent t meta finish) ≠ ToolCallDelta →
    grows d d (responseUsage event ++ [finishEvent t meta finish])).
  { intros t meta finish Ht. apply grows_silent, Forall_app. split; [apply responseUsage_silent|by constructor]. }
  destruct (caseOf (re_Type event)); intros Hext;
    try (intros [= <- <-]; apply grows_silent; repeat case_match; repeat constructor; discriminate).
  - destruct (re_Item event) as [item|]; [|apply Hadv]. destruct (bool_decide_reflect (it_Type item = "function_call")) as [Hty|Hty]; [|apply Hadv].
    pose proof (decodeCallItem_grows d item (Hext Hty)) as H. destruct (decodeCallItem d item).
    by intros [= <- <-].
  - pose proof (decodeArgumentsDelta_grows d event) as H. destruct (decodeArgumentsDelta d event).
    by intros [= <- <-].
  - assert (HasPrefix (TrimSpace (re_Arguments event)) (args_of d (callOf d event)) = true
      ∨ TrimSpace (re_Arguments event) = "") as H0 by by destruct (re_Item event).
    pose proof (decodeArgumentsDone_grows d event H0) as H. destruct (decodeArgumentsDone d event).
    by intros [= <- <-].
  - intros [= <- <-]. by apply Hfinish.
  - intros [= <- <-]. by apply Hfinish.
  - apply Hadv.
Qed.

Lemma decodeLine_grows d line d' events :
  extendsLine d line → DecodeLine parse rawText marshal order d line = Some (d', events) → grows d d' events.
Proof.
  intros Hline E. unfold DecodeLine in E. unfold extendsLine in Hline. destruct (sseDataFromLine line) as [| |data].
  - simplify_eq. by apply grows_silent.
  - simplify_eq. apply grows_silent. by repeat constructor.
  - destruct (parse_responsesStreamEvent parse rawText data) as [event|]; [|done]. cbn in E. by eapply decodeEvent_grows.
Qed.

(** *** What the upstream states

    The calls of a stream as the Responses API has them, whatever the gateway makes of it:
    an item is announced under an identifier of its own with the identifier of its call,
    [function_call_arguments.delta] adds to the arguments of its item, and the item or
    [function_call_arguments.done] states them as a whole, beginning with what was streamed
    ([done] without white space around it).  [None] is a stream that does not keep to this. *)

Record statedCall := mkStated { stated_CallID : string; stated_Arguments : string }.
Implicit Types m : gmap string statedCall.

Definition unstated (callID : string) m : Prop := map_Forall (λ _ call, stated_CallID call ≠ callID) m.

Definition clean_id (callID : string) : bool :=
  negb (bool_decide (callID = "")) && bool_decide (TrimSpace callID = callID).

Definition upstreamItem m (item : responsesOutputItem) : option (gmap string statedCall) :=
  let callID := it_CallID item in
  let put arguments := Some (<[it_ID item := mkStated callID arguments]> m) in
  if bool_decide (it_ID item = "") || negb (clean_id callID) then None
  else
    match m !! it_ID item with
    | None => if bool_decide (unstated callID m) then put (it_Arguments item) else None
    | Some call =>
        if negb (bool_decide (stated_CallID call = callID)) then None
        else if bool_decide (it_Arguments item = "") then put (stated_Arguments call)
        else if HasPrefix (it_Arguments item) (stated_Arguments call) then put (it_Arguments item) else None
    end.

Definition upstreamEvent m (event : responsesStreamEvent) : option (gmap string statedCall) :=
  let type := re_Type event in
  if bool_decide (type ∈ ["response.output_item.added"; "response.output_item.done"]) then
    match re_Item event with
    | Some item => if bool_decide (it_Type item = "function_call") then upstreamItem m item else Some m
    | None => Some m
    end
  else if bool_decide (type = "response.function_call_arguments.delta") then
    call ← m !! re_ItemID event;
    Some (<[re_ItemID event := mkStated (stated_CallID call) (stated_Arguments call +:+ re_Delta event)]> m)
  else if bool_decide (type = "response.function_call_arguments.done") then
    call ← m !! re_ItemID event;
    if HasPrefix (re_Arguments event) (stated_Arguments call)
       && bool_decide (TrimSpace (re_Arguments event) = re_Arguments event)
    then Some (<[re_ItemID event := mkStated (stated_CallID call) (re_Arguments event)]> m) else None
  else Some m.

Fixpoint upstreamCalls m (lines : list string) : option (gmap string statedCall) :=
  match lines with
  | [] => Some m
  | line :: rest =>
      m ← match sseDataFromLine line with
          | SSEData data => event ← parse_responsesStreamEvent parse rawText data; upstreamEvent m event
          | _ => Some m
          end;
      upstreamCalls m rest
  end.

(** The decoder knows the calls that were stated, and no others. *)
Record knows m d : Prop := mkKnows {
  kn_call : ∀ i call, m !! i = Some call →
    clean_id (stated_CallID call) = true
    ∧ rd_toolCallIDByItemID d !! i = Some (stated_CallID call)
    ∧ args_of d (stated_CallID call) = stated_Arguments call;
  kn_one : ∀ i j call call', m !! i = Some call → m !! j = Some call' → stated_CallID call = stated_CallID call' → i = j;
  kn_none : ∀ callID, unstated callID m → args_of d callID = ""
}.

Lemma clean_id_spec callID : clean_id callID = true → callID ≠ "" ∧ TrimSpace callID = callID.
Proof. unfold clean_id. by intros [?%negb_true_iff%bool_decide_eq_false ?%bool_decide_eq_true]%andb_true_iff. Qed.

(** The call of one item is stated anew. *)
Lemma knows_put m d d' i callID arguments :
  knows m d → clean_id callID = true →
  match m !! i with Some call => stated_CallID call = callID | None => unstated callID m end →
  rd_toolCallIDByItemID d' !! i = Some callID →
  (∀ j, j ≠ i → rd_toolCallIDByItemID d' !! j = rd_toolCallIDByItemID d !! j) →
  (∀ id, args_of d' id = if bool_decide (callID = id) then arguments else args_of d id) →
  knows (<[i := mkStated callID arguments]> m) d'.
Proof.
  intros [Hc Ho Hn] Hclean Hi Hid Hids Hargs.
  assert (Hother : ∀ j call, j ≠ i → m !! j = Some call → stated_CallID call ≠ callID).
  { intros j call Hne Hj Heq. destruct (m !! i) as [c0|] eqn:E; [|by apply (Hi j call Hj)].
    apply Hne. eapply Ho; [exact Hj|exact E|by rewrite Hi]. }
  constructor.
  - intros j call [[<- <-]|[Hne Hj]]%lookup_insert_Some; cbn [stated_CallID stated_Arguments].
    + rewrite Hargs, bool_decide_eq_true_2; done.
    + destruct (Hc j call Hj) as (H1 & H2 & H3). rewrite Hids, Hargs, bool_decide_eq_false_2; [done| |done].
      intros E. by apply (Hother j call).
  - intros j k call call' [[<- <-]|[Hj Ej]]%lookup_insert_Some [[<- <-]|[Hk Ek]]%lookup_insert_Some Heq;
      cbn [stated_CallID] in *; [done| | |by eapply Ho].
    + exfalso. by apply (Hother k call').
    + exfalso. by apply (Hother j call).
  - intros id Hun. rewrite Hargs. assert (callID ≠ id) as Hne by (exact (Hun i _ (lookup_insert_eq _ _ _))).
    rewrite bool_decide_eq_false_2 by done. apply Hn. intros j call Hj. destruct (decide (j = i)) as [->|Hji].
    + rewrite Hj in Hi. by rewrite Hi.
    + apply (Hun j call). by rewrite lookup_insert_ne.
Qed.

Lemma knows_callOf m d event call :
  knows m d → m !! re_ItemID event = Some call → callOf d event = stated_CallID call.
Proof.
  intros Hk Hm. destruct (kn_call _ _ Hk _ _ Hm) as (Hclean & Hid & _). destruct (clean_id_spec _ Hclean) as [Hne Ht].
  unfold callOf. rewrite Hid. change (default "" (Some (stated_CallID call))) with (stated_CallID call).
  by rewrite Ht, bool_decide_eq_false_2.
Qed.

Lemma item_known m m' d item :
  knows m d → upstreamItem m item = Some m' →
  (it_Arguments item = "" ∨ HasPrefix (it_Arguments item)
     (args_of d (if bool_decide (TrimSpace (it_CallID item) = "") then TrimSpace (it_ID item)
                 else TrimSpace (it_CallID item))) = true)
  ∧ knows m' (decodeCallItem d item).1.
Proof.
  intros Hk. unfold upstreamItem. case_bool_decide as Hi; [done|]. cbn [orb].
  destruct (clean_id (it_CallID item)) eqn:Hclean; [|done]. cbn [negb]. destruct (clean_id_spec _ Hclean) as [Hne Ht].
  set (callID := it_CallID item) in *. intros Hput.
  assert (∃ arguments, m' = <[it_ID item := mkStated callID arguments]> m
    ∧ match m !! it_ID item with Some call => stated_CallID call = callID | None => unstated callID m end
    ∧ (if bool_decide (it_Arguments item = "") then arguments = args_of d callID
       else arguments = it_Arguments item ∧ HasPrefix (it_Arguments item) (args_of d callID) = true))
    as (arguments & -> & Hold & Hargs).
  { destruct (m !! it_ID item) as [call|] eqn:Em.
    - case_bool_decide as Hc; [|done]. cbn [negb] in Hput. destruct (kn_call _ _ Hk _ _ Em) as (_ & _ & Ha).
      rewrite Hc in Ha. case_bool_decide as Hn.
      + injection Hput as <-. by exists (stated_Arguments call).
      + destruct (HasPrefix _ _) eqn:Hp; [|done]. injection Hput as <-. exists (it_Arguments item). by rewrite Ha.
    - case_bool_decide as Hun; [|done]. injection Hput as <-. exists (it_Arguments item). split_and!; [done|done|].
      rewrite (kn_none _ _ Hk _ Hun). case_bool_decide as Hn; [done|]. split; [done|]. by destruct (it_Arguments item). }
  clear Hput. rewrite Ht, (bool_decide_eq_false_2 (callID = "")) by done. split.
  - case_bool_decide as Hn; [by left|right; apply Hargs].
  - unfold decodeCallItem. fold callID. cbv zeta.
    rewrite Ht, !(bool_decide_eq_false_2 (callID = "")), (bool_decide_eq_false_2 (it_ID item = "")) by done. cbn [negb andb].
    destruct (bool_decide_reflect (it_Arguments item = "")) as [Hn|Hn]; cbn [fst];
      apply (knows_put m d); try done; try apply lookup_insert_eq; try (intros j Hj; by apply lookup_insert_ne).
    + intros id. change (args_of (mkResponsesDecoder _ _ _) id) with (args_of d id). rewrite Hargs.
      case_bool_decide as Heq; [by rewrite Heq|done].
    + intros id. rewrite args_of_set. destruct Hargs as [-> _]. by case_bool_decide.
Qed.

(** The types the decoder takes for a statement of arguments. *)
Lemma caseOf_listed type : caseOf type ≠ OtherCase → (type, caseOf type) ∈ eventCases.
Proof.
  unfold caseOf. destruct (List.find _ eventCases) as [[t c]|] eqn:E; [|done]. intros _.
  apply List.find_some in E as [Hin Ht%bool_decide_eq_true]. cbn in Ht. subst t. by apply list_elem_of_In.
Qed.

Lemma caseOf_other type :
  type ∉ ["response.output_item.added"; "response.output_item.done"] →
  type ≠ "response.function_call_arguments.delta" → type ≠ "response.function_call_arguments.done" →
  caseOf type ∉ [ItemCase; ArgumentsCase; ArgumentsDoneCase].
Proof.
  intros H1 H2 H3 Hin. assert (caseOf type ≠ OtherCase) as Hc by (intros E; rewrite E in Hin; set_solver).
  apply caseOf_listed in Hc. revert Hin Hc. generalize (caseOf type) as c. intros c Hin Hc. unfold eventCases in Hc.
  repeat (apply elem_of_cons in Hc as [[= -> ->]|Hc]; [set_solver|]). set_solver.
Qed.

Lemma decodeEvent_other d data event d' events :
  caseOf (re_Type event) ∉ [ItemCase; ArgumentsCase; ArgumentsDoneCase] →
  decodeEvent parse marshal order d data event = Some (d', events) → d' = d.
Proof.
  intros Hc. unfold decodeEvent. destruct (caseOf (re_Type event)); try (by intros [= <- <-]); try (exfalso; set_solver).
  destruct (responsesAdvancedStreamEvent _ _ _ _); [|done]. by intros [= <- <-].
Qed.

Lemma event_known m m' d data event d' events :
  knows m d → upstreamEvent m event = Some m' → decodeEvent parse marshal order d data event = Some (d', events) →
  extends d event ∧ knows m' d'.
Proof.
  intros Hk. unfold upstreamEvent. case_bool_decide as Hitem.
  { assert (caseOf (re_Type event) = ItemCase) as Hc by (set_unfold in Hitem; by destruct Hitem as [->|[->|[]]]).
    unfold extends, decodeEvent. rewrite Hc. destruct (re_Item event) as [item|].
    - case_bool_decide as Hty.
      + intros Hm. destruct (item_known m m' d item Hk Hm) as [He Hk']. destruct (decodeCallItem d item) as [d1 evs1].
        intros [= <- <-]. by split.
      + intros [= <-]. destruct (responsesAdvancedStreamEvent _ _ _ _); [|done]. by intros [= <- <-].
    - intros [= <-]. destruct (responsesAdvancedStreamEvent _ _ _ _); [|done]. by intros [= <- <-]. }
  case_bool_decide as Hdelta.
  { assert (caseOf (re_Type event) = ArgumentsCase) as Hc by by rewrite Hdelta.
    unfold extends, decodeEvent. rewrite Hc. destruct (m !! re_ItemID event) as [call|] eqn:Em; [|done].
    cbn [mbind option_bind]. intros [= <-]. unfold decodeArgumentsDelta. rewrite (knows_callOf _ _ _ _ Hk Em).
    intros [= <- <-]. destruct (kn_call _ _ Hk _ _ Em) as (Hclean & Hid & Ha). split; [done|].
    apply (knows_put m d); [done|done|by rewrite Em|exact Hid|done|]. intros id. by rewrite args_of_set, Ha. }
  case_bool_decide as Hdone.
  { assert (caseOf (re_Type event) = ArgumentsDoneCase) as Hc by by rewrite Hdone.
    unfold extends, decodeEvent. rewrite Hc. destruct (m !! re_ItemID event) as [call|] eqn:Em; [|done].
    cbn [mbind option_bind]. destruct (HasPrefix _ _) eqn:Hp; [|done]. cbn [andb]. case_bool_decide as Ht; [|done].
    intros [= <-]. unfold decodeArgumentsDone. rewrite (knows_callOf _ _ _ _ Hk Em), Ht.
    destruct (kn_call _ _ Hk _ _ Em) as (Hclean & Hid & Ha). rewrite Ha. intros Hdec. split; [by destruct (re_Item event); left|].
    destruct (bool_decide_reflect (re_Arguments event = "")) as [He|He]; cbn [orb] in Hdec;
      [|destruct (bool_decide_reflect (re_Arguments event = stated_Arguments call)) as [He'|He']; cbn [orb] in Hdec];
      injection Hdec as <- <-; (apply (knows_put m d); [done|done|by rewrite Em|exact Hid|done|]); intros id.
    - rewrite He in *. assert (stated_Arguments call = "") as Hs by by destruct (stated_Arguments call).
      case_bool_decide as Heq; [|done]. by rewrite <- Heq, Ha.
    - case_bool_decide as Heq; [|done]. by rewrite <- Heq, Ha.
    - by rewrite args_of_set. }
  intros [= <-] Hdec. assert (Hc := caseOf_other _ Hitem Hdelta Hdone).
  rewrite (decodeEvent_other _ _ _ _ _ Hc Hdec). split; [|done]. unfold extends.
  destruct (caseOf (re_Type event)); try done; exfalso; set_solver.
Qed.

Lemma lines_known lines : ∀ m m' d d' events,
  knows m d → upstreamCalls m lines = Some m' → decodeLines d lines = Some (d', events) →
  knows m' d' ∧ grows d d' events.
Proof.
  induction lines as [|line rest IH]; intros m m' d d' events Hk; cbn [upstreamCalls decodeLines].
  { intros [= <-] [= <- <-]. split; [done|by apply grows_silent]. }
  intros (m1 & Hm1 & Hm')%bind_Some. destruct (DecodeLine parse rawText marshal order d line) as [[d1 evs]|] eqn:E; [|done].
  cbn. destruct (decodeLines d1 rest) as [[d2 more]|] eqn:E2; [|done]. cbn. intros [= <- <-].
  assert (extendsLine d line ∧ knows m1 d1) as [Hline Hk1].
  { unfold extendsLine. unfold DecodeLine in E. destruct (sseDataFromLine line) as [| |data]; [by simplify_eq..|].
    destruct (parse_responsesStreamEvent parse rawText data) as [event|]; [|done]. by eapply event_known. }
  destruct (IH _ _ _ _ _ Hk1 Hm' E2) as [Hk2 Hg2]. split; [done|]. pose proof (decodeLine_grows _ _ _ _ Hline E) as Hg1.
  intros id. rewrite (Hg2 id), (Hg1 id), deltas_app. symmetry. apply append_assoc.
Qed.

End arguments.

(** Four lines of a call, by the letter their data stands for. *)
Definition sample_parse (spaces : string) (data : string) : option any :=
  match data with
  | "A" => Some (AObject [("type", AString "response.output_item.added");
                          ("item", AObject [("type", AString "function_call"); ("id", AString "fc_1");
                                            ("call_id", AString "call_1"); ("name", AString "search");
                                            ("arguments", AString "")])])
  | "B" => Some (AObject [("type", AString "response.function_call_arguments.delta");
                          ("item_id", AString "fc_1"); ("delta", AString "{")])
  | "C" => Some (AObject [("type", AString "response.function_call_arguments.delta");
                          ("item_id", AString "fc_1"); ("delta", AString ("}" +:+ spaces))])
  | "D" => Some (AObject [("type", AString "response.function_call_arguments.done");
                          ("item_id", AString "fc_1"); ("arguments", AString ("{}" +:+ spaces))])
  | _ => None
  end.

Definition sample_lines : list string := ["data: A"; "data: B"; "data: C"; "data: D"].


(** Arguments with a space around them are sent twice: [function_call_arguments.done] is
    trimmed before it is compared with what was streamed. *)
Theorem spaced_arguments_are_repeated :
  ∃ d events,
    decodeLines (sample_parse " ") (λ _, "") (λ _, "") id newOpenAIResponsesStreamDecoder sample_lines
    = Some (d, events) ∧ deltas "call_1" events = "{} {}".
Proof. eexists _, _. split; vm_compute; reflexivity. Qed.
