(* ===== verification/SemanticFailure.v ===== *)
(** * Failures an upstream declares in its body, and what a Responses stream defers

    [gateway/semantic_failure.go], and from [gateway/protocol_responses_downstream.go] the
    decision what a line of a Responses stream means before anything was sent downstream:
    wait, commit to this upstream, or give it up. *)

From S2P Require Import Prelude GoFloat Catalog Json Pricing StreamEvents ChatStream.

(** ** Declared failures *)

Record upstreamSemanticFailure := mkSemantic {
  sf_Code : string;
  sf_Message : string;
  sf_Body : string
}.

Definition semanticFailureError (failure : option upstreamSemanticFailure) : string :=
  match failure with
  | None => "upstream response declared a failure"
  | Some e =>
      let detail := nonEmptyString [sf_Message e; sf_Code e; "unknown error"] in
      let detail := if negb (bool_decide (sf_Code e = "")) && negb (bool_decide (sf_Message e = ""))
                    then sf_Code e +:+ ": " +:+ sf_Message e else detail in
      "upstream response failed: " +:+ detail
  end.

Section parse.
(** The JSON parser. *)
Context (parse : string → option any).

(** [json.Unmarshal] into a [map[string]any]; [null] gives a nil map. *)
Definition parse_map (text : string) : option (option (list (string * any))) :=
  match parse text with
  | Some ANil => Some None
  | Some (AObject members) => Some (Some members)
  | _ => None
  end.

(** An error given as text may itself be an object, which is not looked into again: its
    own fields are texts then. *)
Definition details_of_map (typed : list (string * any)) : string * string :=
  (TrimSpace (anyString (map_index typed "code")), TrimSpace (anyString (map_index typed "message"))).

Definition semanticFailureDetails (value : any) : string * string :=
  match value with
  | AObject typed => details_of_map typed
  | AString typed =>
      match parse_map typed with
      | Some nested => details_of_map (default [] nested)
      | None => ("", TrimSpace typed)
      end
  | _ => ("", "")
  end.

Definition isNil (value : any) : bool := match value with ANil => true | _ => false end.

Definition semanticFailureFromObject (root : list (string * any)) (body : string)
    : option upstreamSemanticFailure :=
  let eventType := ToLower (TrimSpace (anyString (map_index root "type"))) in
  let status := ToLower (TrimSpace (anyString (map_index root "status"))) in
  let response := as_map (map_index root "response") in
  let responseStatus := ToLower (TrimSpace (anyString (map_index response "status"))) in
  let failed := negb (isNil (map_index root "error"))
    || bool_decide (eventType ∈ ["response.failed"; "response.error"; "error"])
    || bool_decide (status ∈ ["failed"; "error"]) || bool_decide (responseStatus ∈ ["failed"; "error"]) in
  if negb failed then None
  else
    let errorValue := if isNil (map_index root "error") then map_index response "error"
                      else map_index root "error" in
    let '(code, message) := semanticFailureDetails errorValue in
    Some (mkSemantic
            (nonEmptyString [code; eventType; status; responseStatus; "upstream_response_failed"])
            (nonEmptyString [message; "upstream response declared a failure"]) body).

Definition semanticFailureFromJSON (body : string) : option upstreamSemanticFailure :=
  match parse_map body with
  | Some (Some root) => semanticFailureFromObject root body
  | _ => None
  end.
End parse.

Definition semanticFailureClassificationBody (marshal : any → string)
    (failure : option upstreamSemanticFailure) : string :=
  match failure with
  | None => ""
  | Some f => marshal (AObject [("error", AObject [("code", AString (sf_Code f));
                                                   ("message", AString (sf_Message f))])])
  end.

(** ** What a line means before output *)

Inductive responsesPreOutputDisposition :=
| Defer
| Commit
| Fail (failure : upstreamSemanticFailure).

Definition responsesBusinessValuePresent (value : any) : bool :=
  match value with
  | AString typed => negb (bool_decide (TrimSpace typed = ""))
  | AArray typed => negb (bool_decide (length typed = O))
  | AObject typed => negb (bool_decide (length typed = O))
  | ANil => false
  | _ => true
  end.

Definition responsesEventHasBusinessOutput (object : list (string * any)) : bool :=
  existsb (λ key, responsesBusinessValuePresent (map_index object key))
    ["text"; "refusal"; "delta"; "arguments"; "result"; "partial_image_b64"; "stdout"; "input";
     "output"; "annotation"; "patch"; "command"; "query"; "encrypted_content"].

(** The members of an object, the last of a name only. *)
Definition responsesObjectHasNonStructuralPayload (object : list (string * any)) : bool :=
  existsb (λ '(key, _),
    negb (bool_decide (ToLower (TrimSpace key)
            ∈ ["type"; "id"; "status"; "role"; "call_id"; "name"; "index"; "output_index";
               "content_index"; "item_id"; "sequence_number"]))
    && responsesBusinessValuePresent (map_index object key)) object.

Definition responsesContentPartStartsBusiness (value : any) : bool :=
  match value with
  | AObject object =>
      if bool_decide (ToLower (TrimSpace (anyString (map_index object "type")))
                      ∈ [""; "output_text"; "refusal"; "text"])
      then responsesEventHasBusinessOutput object
      else responsesObjectHasNonStructuralPayload object
  | _ => false
  end.

Definition as_array (value : any) : list any := match value with AArray items => items | _ => [] end.

Definition responsesOutputItemStartsBusiness (value : any) : bool :=
  match value with
  | AObject object =>
      let type := ToLower (TrimSpace (anyString (map_index object "type"))) in
      if bool_decide (type ∈ [""; "message"]) then
        existsb responsesContentPartStartsBusiness (as_array (map_index object "content"))
        || responsesEventHasBusinessOutput object
      else if bool_decide (type ∈ ["function_call"; "custom_tool_call"]) then
        existsb (λ key, responsesBusinessValuePresent (map_index object key)) ["arguments"; "input"]
      else responsesObjectHasNonStructuralPayload object
  | _ => false
  end.

(** The types of an event with business output in it. *)
Definition outputTypes : list string :=
  ["response.output_text.delta"; "response.output_text.done"; "response.refusal.delta";
   "response.refusal.done"; "response.reasoning_summary_text.delta"; "response.reasoning_text.delta";
   "response.reasoning_delta"; "response.reasoning_summary.delta";
   "response.reasoning.encrypted_content.delta"; "response.reasoning.encrypted_content.done";
   "response.function_call_arguments.delta"; "response.function_call_arguments.done";
   "response.output_text.annotation.added"].

Definition eventDisposition (event : list (string * any)) : responsesPreOutputDisposition :=
  let eventType := ToLower (TrimSpace (anyString (map_index event "type"))) in
  let commit_if (b : bool) := if b then Commit else Defer in
  if bool_decide (eventType ∈ ["response.created"; "response.in_progress"; "response.queued";
                               "keepalive"; "ping"]) then Defer
  else if bool_decide (eventType ∈ ["response.completed"; "response.incomplete"]) then Commit
  else if bool_decide (eventType ∈ ["response.output_item.added"; "response.output_item.done"]) then
    commit_if (responsesOutputItemStartsBusiness (map_index event "item"))
  else if bool_decide (eventType ∈ ["response.content_part.added"; "response.content_part.done"]) then
    commit_if (responsesContentPartStartsBusiness (map_index event "part")
               || responsesContentPartStartsBusiness (map_index event "content_part"))
  else if bool_decide (eventType ∈ ["response.image_generation_call.in_progress";
            "response.image_generation_call.generating"; "response.mcp_call.in_progress";
            "response.tool_call.started"]) then Defer
  else if bool_decide (eventType ∈ outputTypes) then commit_if (responsesEventHasBusinessOutput event)
  else Commit.

Definition responsesStreamPreOutputDispositionForLine (parse : string → option any) (line : string)
    : responsesPreOutputDisposition :=
  match sseDataFromLine line with
  | SSENone => Defer
  | SSEDone => Commit
  | SSEData data =>
      if bool_decide (TrimSpace data = "") then Defer
      else match semanticFailureFromJSON parse data with
      | Some failure => Fail failure
      | None =>
          match parse_map parse data with
          | None => Commit
          | Some event => eventDisposition (default [] event)
          end
      end
  end.
