(* ===== verification/StreamPassthrough.v ===== *)
(** * Streams passed through

    [proxyUpstreamStreamWithInspector] of [gateway/stream_runtime.go] and
    [proxyResponsesStreamPassthrough] of [gateway/protocol_responses_downstream.go]: the lines
    of the upstream go to the client as they are (a Responses line with its usage completed),
    and the loop keeps account of how the stream ends.  The second holds lines back until one
    commits the gateway to this upstream, so that another can still be tried.

    What the upstream sends is a list of reads, a line and the error [bufio.Reader.ReadBytes]
    gave with it; the end of the list is the end of the stream. *)

From S2P Require Import Prelude GoFloat Catalog Json Pricing StreamEvents.
From S2P Require Import ChatStream SemanticFailure ResponsesStream.

Inductive readError := NoError | EOF | ReadFailed (message : string).

(** [rd_cancelled]: the client was gone before the read. *)
Record read := mkRead { rd_cancelled : bool; rd_line : string; rd_err : readError }.

Definition responsesPreOutputMaxBytes : Z := Z.shiftl 16 20.
Definition responsesPreOutputMaxLine : Z := Z.shiftl 32 20.

Definition contextCanceled : string := "context canceled".
Definition errResponsesPreOutputTooLarge : string :=
  "responses pre-output stream exceeded the buffering limit".

(** [readResponsesPreOutputLine]: fragments are collected until the line ends or is too
    long. *)
Definition readResponsesPreOutputLine (r : read) : result (string * readError) string :=
  if responsesPreOutputMaxLine <? len (rd_line r) then Err errResponsesPreOutputTooLarge
  else Ok (rd_line r, rd_err r).

(** ** What an inspector notes *)

Section inspect.
Context (parse : string → option any) (rawText : any → string).

Definition set_sawDone (completed : bool) (c : streamCaptureState) : streamCaptureState :=
  mkCapture (sc_usage c) true (completed || sc_streamCompleted c) (sc_endReason c) (sc_annotations c)
    (sc_malformedLines c) (sc_preOutputEventsBuffered c) (sc_preOutputFailureDeferred c).

Definition inspectOpenAIChatStreamLine (line : string) (c : streamCaptureState) : streamCaptureState :=
  let text := TrimSpace line in
  if negb (HasPrefix text "data:") then c
  else
    let data := TrimSpace (TrimPrefix text "data:") in
    if bool_decide (data = "") then c
    else if HasPrefix data "[DONE]" then set_sawDone false c
    else
      match (envelope ← parse data; members ← read_map envelope; usage ← read_map (field members "usage");
             read_gatewayUsage usage) with
      | Some usage => if usageCounts usage then set_usage (normalized usage) c else c
      | None => c
      end.

Definition noteResponsesEvent (event : responsesStreamEvent) (c : streamCaptureState) : streamCaptureState :=
  let type := re_Type event in
  let c :=
    if bool_decide (type = "response.completed") then set_sawDone true c
    else if bool_decide (type = "response.incomplete") then set_endReason "response_incomplete" c
    else if bool_decide (type ∈ ["response.error"; "response.failed"])
    then set_endReason "upstream_stream_error" c
    else if bool_decide (type = "response.output_text.annotation.added")
    then appendStreamAnnotation (re_Annotation event) c
    else c in
  match re_Response event ≫= rs_Usage with
  | Some usage => set_usage (completionUsageFromResponsesUsage (Some usage)) c
  | None => c
  end.

Definition inspectResponsesStreamLine (line : string) (c : streamCaptureState) : streamCaptureState :=
  match sseDataFromLine line with
  | SSENone => c
  | SSEDone => set_sawDone false c
  | SSEData data =>
      match parse_responsesStreamEvent parse rawText data with
      | Some event => noteResponsesEvent event c
      | None => c
      end
  end.

(** The line counts as an event that was held back. *)
Definition responsesStreamPreOutputBufferedEvent (line : string) : bool :=
  match sseDataFromLine line with
  | SSEData data =>
      match parse_responsesStreamEvent parse rawText data with
      | Some event => negb (bool_decide (TrimSpace (re_Type event) = ""))
      | None => false
      end
  | _ => false
  end.
End inspect.

(** ** The usage of a Responses line is completed *)

(** [m[key] = value] *)
Definition map_set (m : list (string * any)) (key : string) (value : any) : list (string * any) :=
  filter (λ member, member.1 ≠ key) m ++ [(key, value)].

Definition map_has (m : list (string * any)) (key : string) : bool :=
  match map_get m key with Some _ => true | None => false end.

(** Every number in an [any] is a [float64]. *)
Definition payloadInt64 (value : any) : Z :=
  match value with
  | AInt n => default 0 (trunc_int64 (of_int n))
  | AFloat f => default 0 (trunc_int64 f)
  | _ => 0
  end.

(** The map and whether it was changed. *)
Definition normalizeResponsesUsageMap (usage : list (string * any)) : list (string * any) * bool :=
  let reasoningTokens :=
    match map_index usage "completion_tokens_details" with
    | AObject details => payloadInt64 (map_index details "reasoning_tokens")
    | _ => 0
    end in
  let complete (usage : list (string * any)) (key member : string) (value : Z)
      : list (string * any) * bool :=
    let '(details, fresh) := match map_index usage key with
                             | AObject details => (details, false)
                             | _ => ([], true)
                             end in
    if map_has details member then (usage, fresh)
    else (map_set usage key (AObject (map_set details member (AInt value))), true) in
  let '(usage, changed1) := complete usage "input_tokens_details" "cached_tokens" 0 in
  let '(usage, changed2) := complete usage "output_tokens_details" "reasoning_tokens" reasoningTokens in
  (usage, changed1 || changed2).

(** The usage of the value itself, then that of its response. *)
Definition normalizeUsageMember (object : list (string * any)) : list (string * any) * bool :=
  match map_index object "usage" with
  | AObject usage =>
      let '(usage, changed) := normalizeResponsesUsageMap usage in
      (map_set object "usage" (AObject usage), changed)
  | _ => (object, false)
  end.

Definition normalizeResponsesEnvelopeUsage (root : list (string * any)) : list (string * any) * bool :=
  let '(root, changed1) := normalizeUsageMember root in
  match map_index root "response" with
  | AObject response =>
      let '(response, changed2) := normalizeUsageMember response in
      (map_set root "response" (AObject response), changed1 || changed2)
  | _ => (root, changed1)
  end.

Definition LF : string := String (ascii_of_nat 10) "".
Definition CRLF : string := String (ascii_of_nat 13) LF.

Section passthrough.
Context (parse : string → option any) (rawText marshal : any → string).

Definition normalizeResponsesJSONUsage (data : string) : option (string * bool) :=
  match parse_map parse data with
  | None => None
  | Some root =>
      let '(root', changed) := normalizeResponsesEnvelopeUsage (default [] root) in
      if changed then Some (marshal (AObject root'), true) else Some (data, false)
  end.

(** The line to send for a line. *)
Definition normalizeResponsesStreamDataLine (line : string) : string :=
  match sseDataFromLine line with
  | SSEData data =>
      match normalizeResponsesJSONUsage data with
      | Some (normalized, true) =>
          "data: " +:+ normalized +:+ (if HasSuffix line CRLF then CRLF else if HasSuffix line LF then LF else "")
      | _ => line
      end
  | _ => line
  end.

(** ** The loops *)

(** What the loops keep: the lines sent, how many writes the connection still takes
    ([None] for a healthy one), and the lines held back. *)
Record proxy := mkProxy {
  px_capture : streamCaptureState;
  px_sent : list string;
  px_room : option nat;
  px_headers : bool;
  px_pre : list string;
  px_failure : option upstreamSemanticFailure
}.

Definition newProxy (room : option nat) : proxy := mkProxy emptyCapture [] room false [] None.

(** The state at the end, with the error. *)
Definition outcome : Type := proxy * option string.

Definition px_set_capture (c : streamCaptureState) (p : proxy) : proxy :=
  mkProxy c (px_sent p) (px_room p) (px_headers p) (px_pre p) (px_failure p).
Definition px_set_end (reason : string) (p : proxy) : proxy :=
  px_set_capture (set_endReason reason (px_capture p)) p.

(** A write of some lines: [false] when the connection is gone. *)
Definition px_write (lines : list string) (p : proxy) : proxy * bool :=
  match px_room p with
  | Some O => (p, false)
  | room => (mkProxy (px_capture p) (px_sent p ++ lines) (Nat.pred <$> room) (px_headers p) (px_pre p)
               (px_failure p), true)
  end.

Definition px_writeHeaders (p : proxy) : proxy :=
  mkProxy (px_capture p) (px_sent p) (px_room p) true (px_pre p) (px_failure p).

Definition finished (c : streamCaptureState) : bool := sc_streamCompleted c || sc_sawDone c.

Definition set_completed (reason : string) (c : streamCaptureState) : streamCaptureState :=
  mkCapture (sc_usage c) (sc_sawDone c) true reason (sc_annotations c) (sc_malformedLines c)
    (sc_preOutputEventsBuffered c) (sc_preOutputFailureDeferred c).

(** The read failed. *)
Definition afterReadError (message : string) (p : proxy) : outcome :=
  let c := px_capture p in
  if bool_decide (sc_endReason c = "") && finished c then (px_set_capture (set_completed "done" c) p, None)
  else ((if bool_decide (sc_endReason c = "") then px_set_end "upstream_stream_read_failed" p else p),
        Some message).

(** *** Any stream *)

Section upstream.
Context (inspectLine : string → streamCaptureState → streamCaptureState).

Definition upstreamEOF (p : proxy) : outcome :=
  let c := px_capture p in
  (if finished c
   then px_set_capture (set_completed (if bool_decide (sc_endReason c = "") then "done" else sc_endReason c) c) p
   else if negb (bool_decide (sc_endReason c = "")) then p
   else px_set_end (if px_headers p then "upstream_stream_eof" else "upstream_stream_empty") p, None).

Fixpoint proxyUpstreamStreamWithInspector (p : proxy) (reads : list read) : outcome :=
  match reads with
  | [] => upstreamEOF p
  | r :: rest =>
      if rd_cancelled r then (px_set_end "downstream_client_cancelled" p, Some contextCanceled)
      else
        let line := rd_line r in
        let '(p, ok) := if bool_decide (line = "") then (p, true)
                        else px_write [line] (px_writeHeaders p) in
        if negb ok then (px_set_end "downstream_stream_write_failed" p, Some writeError)
        else
          let p := if bool_decide (line = "") then p
                   else px_set_capture (inspectLine line (px_capture p)) p in
          match rd_err r with
          | NoError => proxyUpstreamStreamWithInspector p rest
          | EOF => upstreamEOF p
          | ReadFailed message => afterReadError message p
          end
  end.
End upstream.

(** *** A Responses stream *)

Definition responsesEOF (p : proxy) : outcome :=
  let c := px_capture p in
  (if sc_streamCompleted c then px_set_end "done" p
   else if negb (bool_decide (sc_endReason c = "")) then p
   else if sc_sawDone c then px_set_capture (set_completed "done" c) p
   else px_set_end (if px_headers p then "upstream_stream_eof" else "upstream_stream_empty") p, None).

(** The headers and what was held back are sent. *)
Definition commitPreOutput (p : proxy) : proxy * bool :=
  if px_headers p then (p, true)
  else
    let p := px_writeHeaders p in
    if bool_decide (px_pre p = []) then (p, true)
    else
      let '(p, ok) := px_write (px_pre p) p in
      if ok then (mkProxy (px_capture p) (px_sent p) (px_room p) (px_headers p) [] (px_failure p), true)
      else (p, false).

Definition bump_buffered (n : Z) (c : streamCaptureState) : streamCaptureState :=
  mkCapture (sc_usage c) (sc_sawDone c) (sc_streamCompleted c) (sc_endReason c) (sc_annotations c)
    (sc_malformedLines c) (sc_preOutputEventsBuffered c + n) (sc_preOutputFailureDeferred c).

Definition writeLine (line : string) (p : proxy) : proxy * bool :=
  if negb (px_headers p) then
    (mkProxy (if responsesStreamPreOutputBufferedEvent parse rawText line
              then bump_buffered 1 (px_capture p) else px_capture p)
       (px_sent p) (px_room p) (px_headers p) (px_pre p ++ [line]) (px_failure p), true)
  else px_write [line] p.

Definition set_deferred (c : streamCaptureState) : streamCaptureState :=
  mkCapture (sc_usage c) (sc_sawDone c) (sc_streamCompleted c) (sc_endReason c) (sc_annotations c)
    (sc_malformedLines c) (sc_preOutputEventsBuffered c) true.

(** A failure the upstream declared before anything was sent: the caller decides. *)
Definition deferFailure (failure : upstreamSemanticFailure) (line : string) (p : proxy) : proxy :=
  let c := inspectResponsesStreamLine parse rawText line (px_capture p) in
  let c := if bool_decide (sc_endReason c = "") then set_endReason "upstream_stream_error" c else c in
  mkProxy (set_deferred c) (px_sent p) (px_room p) (px_headers p) (px_pre p) (Some failure).

Definition pre_bytes (p : proxy) : Z := fold_right (λ line n, len line + n) 0 (px_pre p).

(** One line: the state after it, or the end of the stream. *)
Definition responsesLine (line : string) (p : proxy) : proxy + outcome :=
  let write p :=
    let '(p, ok) := writeLine line p in
    if ok then inl (px_set_capture (inspectResponsesStreamLine parse rawText line (px_capture p)) p)
    else inr (px_set_end "downstream_stream_write_failed" p, Some writeError) in
  if px_headers p then write p
  else match responsesStreamPreOutputDispositionForLine parse line with
  | Fail failure => inr (deferFailure failure line p, None)
  | Commit =>
      let '(p, ok) := commitPreOutput p in
      if ok then write p else inr (px_set_end "downstream_stream_write_failed" p, Some writeError)
  | Defer =>
      if responsesPreOutputMaxBytes <? pre_bytes p + len line
      then inr (px_set_end "upstream_stream_preoutput_too_large" p, Some errResponsesPreOutputTooLarge)
      else write p
  end.

Fixpoint proxyResponsesStreamPassthrough (p : proxy) (reads : list read) : outcome :=
  match reads with
  | [] => responsesEOF p
  | r :: rest =>
      if rd_cancelled r then (px_set_end "downstream_client_cancelled" p, Some contextCanceled)
      else match (if px_headers p then Ok (rd_line r, rd_err r) else readResponsesPreOutputLine r) with
      | Err e => (px_set_end "upstream_stream_preoutput_too_large" p, Some e)
      | Ok (line, err) =>
          match (if bool_decide (line = "") then inl p
                 else responsesLine (normalizeResponsesStreamDataLine line) p) with
          | inr result => result
          | inl p =>
              match err with
              | NoError => proxyResponsesStreamPassthrough p rest
              | EOF => responsesEOF p
              | ReadFailed message => afterReadError message p
              end
          end
      end
  end.
End passthrough.

(** ** What the client gets *)

(** The lines that are read: up to the first error, or until the client is gone. *)
Fixpoint upstreamLines (reads : list read) : list string :=
  match reads with
  | [] => []
  | r :: rest =>
      if rd_cancelled r then []
      else (if bool_decide (rd_line r = "") then [] else [rd_line r])
           ++ match rd_err r with NoError => upstreamLines rest | _ => [] end
  end.

(** A client whose connection is still there got everything. *)
Definition sent_all (p : proxy) (err : option string) (lines : list string) : Prop :=
  px_sent p `prefix_of` lines ∧ (err = None → px_sent p = lines).

Lemma sent_all_end p c err lines :
  px_sent p = lines → sent_all (px_set_capture c p) err lines.
Proof. intros <-. by split. Qed.

Lemma set_endReason_nonempty reason c : reason ≠ "" → sc_endReason (set_endReason reason c) ≠ "".
Proof. done. Qed.

Lemma afterReadError_spec message p lines :
  px_sent p = lines →
  let '(p', err) := afterReadError message p in
  px_sent p' = lines ∧ sc_endReason (px_capture p') ≠ "" ∧ px_headers p' = px_headers p
  ∧ px_failure p' = px_failure p.
Proof.
  intros Hs. unfold afterReadError. destruct (bool_decide (sc_endReason (px_capture p) = "")) eqn:E; cbn [andb].
  - by destruct (finished (px_capture p)).
  - by apply bool_decide_eq_false in E.
Qed.

Lemma upstreamEOF_spec p :
  let '(p', err) := upstreamEOF p in
  err = None ∧ px_sent p' = px_sent p ∧ sc_endReason (px_capture p') ≠ "" ∧ px_headers p' = px_headers p.
Proof.
  unfold upstreamEOF. destruct (finished _).
  { split_and!; try done. cbn. by case_bool_decide. }
  case_bool_decide; cbn [negb]; [|done]. split_and!; try done. cbn. by destruct (px_headers p).
Qed.

Section upstream.
Context (inspect : string → streamCaptureState → streamCaptureState).

Definition faithful (p : proxy) (err : option string) (lines : list string) : Prop :=
  sent_all p err lines ∧ (px_headers p = false → px_sent p = []) ∧ sc_endReason (px_capture p) ≠ "".

Lemma proxyUpstream_spec reads p done :
  px_sent p = done → (px_headers p = false → done = []) →
  let '(p', err) := proxyUpstreamStreamWithInspector inspect p reads in
  faithful p' err (done ++ upstreamLines reads).
Proof.
  unfold faithful, sent_all. revert p done. induction reads as [|r rest IH]; intros p done Hs Hh;
    cbn [proxyUpstreamStreamWithInspector upstreamLines].
  { pose proof (upstreamEOF_spec p) as H. destruct (upstreamEOF p) as [p' err].
    destruct H as (-> & H1 & H2 & H3). rewrite app_nil_r. rewrite Hs in H1.
    split_and!; [by rewrite H1|by intros _|by rewrite H1, H3|done]. }
  destruct (rd_cancelled r).
  { rewrite app_nil_r. split_and!; [by rewrite <- Hs|done| |done]. intros H. cbn in *. by rewrite Hs, Hh. }
  (* The line is written, or the connection is gone. *)
  assert (∃ ok p1, (if bool_decide (rd_line r = "") then (p, true)
                    else px_write [rd_line r] (px_writeHeaders p)) = (p1, ok)
    ∧ px_sent p1 = done ++ (if negb ok then [] else if bool_decide (rd_line r = "") then [] else [rd_line r])
    ∧ (px_headers p1 = false → px_sent p1 = []))
    as (ok & p1 & -> & Hs1 & Hh1).
  { case_bool_decide as Hline. { exists true, p. rewrite app_nil_r. split_and!; [done|done|]. intros H. by rewrite Hs, Hh. }
    unfold px_write. cbn [px_room px_writeHeaders].
    destruct (px_room p) as [[|n]|]; eexists _, _; (split; [reflexivity|]); cbn; rewrite ?Hs, ?app_nil_r; done. }
  destruct ok; cbn [negb] in *.
  2: { rewrite app_nil_r in Hs1. split_and!; [|done|by cbn|done]. rewrite <- Hs1. cbn. by eexists. }
  rewrite app_assoc. set (p2 := if bool_decide (rd_line r = "") then p1 else _).
  assert (Hs2 : px_sent p2 = px_sent p1) by (subst p2; by case_bool_decide).
  assert (Hh2 : px_headers p2 = px_headers p1) by (subst p2; by case_bool_decide).
  clearbody p2. rewrite <- Hs1, <- Hs2. rewrite <- Hs2, <- Hh2 in Hh1. clear Hs1 Hs2 Hh2 p1.
  destruct (rd_err r) as [| |message].
  - apply IH; [done|]. exact Hh1.
  - pose proof (upstreamEOF_spec p2) as H. destruct (upstreamEOF p2) as [p' err].
    destruct H as (-> & H1 & H2 & H3). rewrite app_nil_r. split_and!; [by rewrite H1|by intros _|by rewrite H1, H3|done].
  - pose proof (afterReadError_spec message p2 _ eq_refl) as H. destruct (afterReadError message p2) as [p' err].
    destruct H as (H1 & H2 & H3 & _). rewrite app_nil_r. split_and!; [by rewrite H1|by intros _|by rewrite H1, H3|done].
Qed.

(** A stream that is passed through reaches the client unchanged: for every sequence of
    reads, every inspector and however long the connection lasts, the lines sent are the
    lines read, in order and none twice - all of them unless an error is returned, a prefix
    of them if the client is gone; when no header was sent nothing was, so another upstream
    can be tried; and the capture always says why the stream ended. *)
Theorem passthrough_is_faithful room reads :
  let '(p, err) := proxyUpstreamStreamWithInspector inspect (newProxy room) reads in
  px_sent p `prefix_of` upstreamLines reads
  ∧ (err = None → px_sent p = upstreamLines reads)
  ∧ (px_headers p = false → px_sent p = [])
  ∧ sc_endReason (px_capture p) ≠ "".
Proof.
  pose proof (proxyUpstream_spec reads (newProxy room) [] eq_refl (λ _, eq_refl)) as H.
  destruct (proxyUpstreamStreamWithInspector _ _ _) as [p err].
  destruct H as [[H1 H2] [H3 H4]]. done.
Qed.
End upstream.

(** ** What is held back *)

Section responses.
Context (parse : string → option any) (rawText marshal : any → string).

Definition disposition := responsesStreamPreOutputDispositionForLine parse.
Definition sentLine := normalizeResponsesStreamDataLine parse marshal.

(** [l] are the lines so far: none commits and all are held back, or one does and all were
    sent. *)
Definition held (p : proxy) (l : list string) : Prop :=
  px_sent p = [] ∧ px_pre p = l ∧ Forall (λ line, disposition line = Defer) l.
Definition open (p : proxy) (l : list string) : Prop :=
  px_sent p = l ∧ px_pre p = [] ∧ Exists (λ line, disposition line = Commit) l.

Definition rInv (p : proxy) (l : list string) : Prop :=
  px_failure p = None ∧ if px_headers p then open p l else held p l.

(** A stream given up for a failure the upstream declared. *)
Definition declared (p : proxy) (lines : list string) : Prop :=
  ∃ l line rest failure, lines = l ++ line :: rest ∧ Forall (λ line, disposition line = Defer) l
    ∧ disposition line = Fail failure ∧ px_failure p = Some failure
    ∧ sc_preOutputFailureDeferred (px_capture p) = true.

Definition rEnd (p : proxy) (err : option string) (lines : list string) : Prop :=
  sc_endReason (px_capture p) ≠ "" ∧
  if px_headers p
  then px_sent p `prefix_of` lines ∧ (err = None → px_sent p = lines)
       ∧ Exists (λ line, disposition line = Commit) lines ∧ px_failure p = None
  else px_sent p = [] ∧ (px_failure p = None ∨ declared p lines)
       ∧ (err = None → px_failure p = None → Forall (λ line, disposition line = Defer) lines).

Lemma rInv_end p c err l :
  rInv p l → sc_endReason c ≠ "" → rEnd (px_set_capture c p) err l.
Proof.
  intros [Hf H] Hc. split; [done|]. cbn. destruct (px_headers p).
  - destruct H as (Hs & _ & He). by rewrite Hs.
  - destruct H as (Hs & _ & He). split_and!; [done|by left|done].
Qed.

Lemma rInv_end_same p err l : rInv p l → sc_endReason (px_capture p) ≠ "" → rEnd p err l.
Proof. intros H Hc. pose proof (rInv_end p (px_capture p) err l H Hc) as R. by destruct p. Qed.

Lemma responsesEOF_spec p l : rInv p l → let '(p', err) := responsesEOF p in rEnd p' err l.
Proof.
  intros H. unfold responsesEOF. destruct (sc_streamCompleted _); [by apply rInv_end|].
  case_bool_decide; cbn [negb]; [|by apply rInv_end_same].
  destruct (sc_sawDone _); [by apply rInv_end|]. apply rInv_end; [done|]. cbn. by destruct (px_headers p).
Qed.

Lemma rAfterReadError_spec message p l :
  rInv p l → let '(p', err) := afterReadError message p in rEnd p' err l.
Proof.
  intros H. unfold afterReadError. destruct (bool_decide (sc_endReason (px_capture p) = "")) eqn:E; cbn [andb].
  - destruct (finished _); by apply rInv_end.
  - apply bool_decide_eq_false in E. by apply rInv_end_same.
Qed.

(** A write error leaves a prefix of the lines at the client. *)
Lemma write_end p reason err lines :
  px_headers p = true → px_sent p `prefix_of` lines → Exists (λ line, disposition line = Commit) lines →
  px_failure p = None → reason ≠ "" → rEnd (px_set_end reason p) (Some err) lines.
Proof. intros Hh Hs He Hf Hr. split; [done|]. cbn. by rewrite Hh. Qed.

(** The last step of a line, when the headers are out. *)
Lemma write_spec line p l rest :
  px_headers p = true → px_sent p = l → px_pre p = [] → px_failure p = None →
  Exists (λ line, disposition line = Commit) (l ++ [line]) →
  match (let '(p, ok) := writeLine parse rawText line p in
         if ok then inl (px_set_capture (inspectResponsesStreamLine parse rawText line (px_capture p)) p)
         else inr (px_set_end "downstream_stream_write_failed" p, Some writeError)) with
  | inl p' => rInv p' (l ++ [line])
  | inr (p', err) => rEnd p' err (l ++ line :: rest)
  end.
Proof.
  intros Hh Hs Hp Hf He. unfold writeLine. rewrite Hh. cbn [negb]. unfold px_write.
  destruct (px_room p) as [[|n]|].
  - apply write_end; [done|rewrite Hs; by eexists| |done|done].
    change (line :: rest) with ([line] ++ rest). rewrite app_assoc. apply Exists_app. by left.
  - split; [done|]. cbn. rewrite Hh. split_and!; [by rewrite <- Hs|done|done].
  - split; [done|]. cbn. rewrite Hh. split_and!; [by rewrite <- Hs|done|done].
Qed.

(** After a commit the lines held back were sent, or the connection is gone. *)
Lemma commit_spec p l :
  px_headers p = false → held p l → px_failure p = None →
  let '(p', ok) := commitPreOutput p in
  px_headers p' = true ∧ px_failure p' = None
  ∧ if ok then px_sent p' = l ∧ px_pre p' = [] else px_sent p' = [].
Proof.
  intros Hh (Hs & Hp & _) Hf. unfold commitPreOutput. rewrite Hh. cbn [px_pre px_writeHeaders].
  case_bool_decide as Hpre. { split_and!; [done|done|by rewrite <- Hp, Hpre|done]. }
  unfold px_write. cbn [px_room px_writeHeaders].
  destruct (px_room p) as [[|n]|]; [done|..]; split_and!; try done; cbn; by rewrite Hs, Hp.
Qed.

Lemma responsesLine_spec line p l rest :
  rInv p l →
  match responsesLine parse rawText line p with
  | inl p' => rInv p' (l ++ [line])
  | inr (p', err) => rEnd p' err (l ++ line :: rest)
  end.
Proof.
  intros [Hf H]. unfold responsesLine. destruct (px_headers p) eqn:Hh.
  { destruct H as (Hs & Hp & He). apply write_spec; try done. apply Exists_app. by left. }
  pose proof H as (Hs & Hp & Hd). fold (disposition line). destruct (disposition line) as [| |failure] eqn:E.
  - (* held back *)
    destruct (_ <? _). { split; [done|]. cbn. rewrite Hh. split_and!; [done|by left|done]. }
    unfold writeLine. rewrite Hh. cbn [negb]. split; [done|]. cbn.
    split_and!; [done|by rewrite <- Hp|]. apply Forall_app. split; [done|by constructor].
  - pose proof (commit_spec p l Hh H Hf) as Hc. destruct (commitPreOutput p) as [p' ok].
    destruct Hc as (Hh' & Hf' & Hok).
    assert (Hline : Exists (λ line, disposition line = Commit) (l ++ [line])).
    { apply Exists_app. right. by constructor. }
    destruct ok; [destruct Hok; by apply write_spec|].
    apply write_end; [done|rewrite Hok; apply prefix_nil| |done|done].
    apply Exists_app. right. by constructor.
  - (* declared *)
    unfold deferFailure. split.
    { cbn. case_bool_decide; [done|assumption]. }
    cbn. rewrite Hh. split_and!; [done| |done]. right. exists l, line, rest, failure. by split_and!.
Qed.

Lemma proxyResponses_spec reads p l :
  rInv p l →
  let '(p', err) := proxyResponsesStreamPassthrough parse rawText marshal p reads in
  rEnd p' err (l ++ map sentLine (upstreamLines reads)).
Proof.
  revert p l. induction reads as [|r rest IH]; intros p l H; cbn [proxyResponsesStreamPassthrough upstreamLines map].
  { rewrite app_nil_r. by apply responsesEOF_spec. }
  destruct (rd_cancelled r). { rewrite app_nil_r. by apply rInv_end. }
  destruct (if px_headers p then _ else _) as [[line err]|e] eqn:E.
  2: { destruct (px_headers p) eqn:Hh; [done|]. destruct H as [Hf H]. rewrite Hh in H.
       split; [done|]. cbn. rewrite Hh. split_and!; [apply H|by left|done]. }
  assert (line = rd_line r ∧ err = rd_err r) as [-> ->].
  { unfold readResponsesPreOutputLine in E. destruct (px_headers p); [|destruct (_ <? _)]; by simplify_eq. }
  clear E. case_bool_decide as Hline; cbn [app map].
  - destruct (rd_err r) as [| |message]; [by apply IH|rewrite app_nil_r; by apply responsesEOF_spec|].
    rewrite app_nil_r. by apply rAfterReadError_spec.
  - fold (sentLine (rd_line r)).
    pose proof (responsesLine_spec (sentLine (rd_line r)) p l
      (map sentLine match rd_err r with NoError => upstreamLines rest | _ => [] end) H) as Hl.
    destruct (responsesLine parse rawText _ p) as [p'|[p' err]]; [|exact Hl].
    change (sentLine (rd_line r) :: ?m) with ([sentLine (rd_line r)] ++ m). rewrite app_assoc.
    destruct (rd_err r) as [| |message]; [by apply IH|rewrite app_nil_r; by apply responsesEOF_spec|].
    rewrite app_nil_r. by apply rAfterReadError_spec.
Qed.

(** C21: Nothing of a Responses stream is sent until a line commits the gateway to its
    upstream, and then nothing is lost.  With [lines] the lines read, their usage completed:
    if headers were sent, some line commits, and the client has the lines in order - all of
    them unless an error is returned.  If none were sent, nothing was, so another upstream
    can be tried: the stream ended while every line still said to wait, or was given up, or
    its first line that does not wait declares a failure, which the caller is handed with
    [preOutputFailureDeferred].  The capture always says why the stream ended. *)
Theorem responses_failover_is_safe room reads :
  let lines := map sentLine (upstreamLines reads) in
  let '(p, err) := proxyResponsesStreamPassthrough parse rawText marshal (newProxy room) reads in
  sc_endReason (px_capture p) ≠ "" ∧
  if px_headers p
  then px_sent p `prefix_of` lines ∧ (err = None → px_sent p = lines)
       ∧ Exists (λ line, disposition line = Commit) lines ∧ px_failure p = None
  else px_sent p = [] ∧ (px_failure p = None ∨ declared p lines)
       ∧ (err = None → px_failure p = None → Forall (λ line, disposition line = Defer) lines).
Proof.
  cbv zeta. assert (rInv (newProxy room) []) as H by (split; [done|]; cbn; by split_and!).
  pose proof (proxyResponses_spec reads (newProxy room) [] H) as Hend.
  destruct (proxyResponsesStreamPassthrough _ _ _ _) as [p err]. exact Hend.
Qed.
End responses.
