(* ===== verification/StreamProxy.v ===== *)
(** * Streams converted between protocols

    [proxyCanonicalStream] of [gateway/protocol_canonical_stream.go]: lines are decoded to
    canonical events, the events filtered for stop sequences and encoded for the client.  A
    Responses upstream is not committed to before a line with output, so its first events
    are held back.  The decoder and the encoder are interfaces, as in the source. *)

From S2P Require Import Prelude GoFloat Catalog Json Pricing StreamEvents StopSequences.
From S2P Require Import AnthropicStream ChatStream ResponsesStream SemanticFailure StreamPassthrough.

(** ** The interfaces *)

(** [canonicalStreamDecoder], and [canonicalStreamDecoderFlusher] when it is one too. *)
Class canonicalStreamDecoder (D : Type) := {
  newDecoder : D;
  DecodeLine : D → string → D * result (list canonicalStreamEvent) string;
  FlushDecoder : D → D * list canonicalStreamEvent
}.

Class canonicalStreamEncoder (E : Type) := {
  EncodeEvent : canonicalStreamEvent → M E unit
}.

(** What the loop relies on: an encoder never takes back why a stream ended. *)
Class EncoderLaws (E : Type) `{canonicalStreamEncoder E} := {
  encoder_keeps_reason event s :
    sc_endReason (io_capture s) ≠ "" → sc_endReason (io_capture (EncodeEvent event s).2) ≠ ""
}.

(** ** The loop *)

Record proxyState (D E : Type) := mkState {
  ps_decoder : D;
  ps_encoder : E;
  ps_filter : option canonicalStopSequenceFilter;
  ps_preEvents : list canonicalStreamEvent;
  ps_preBytes : Z;
  ps_committed : bool;
  ps_headers : bool;
  ps_failure : option upstreamSemanticFailure
}.
Arguments mkState {D E}.
Arguments ps_decoder {D E}.
Arguments ps_encoder {D E}.
Arguments ps_filter {D E}.
Arguments ps_preEvents {D E}.
Arguments ps_preBytes {D E}.
Arguments ps_committed {D E}.
Arguments ps_headers {D E}.
Arguments ps_failure {D E}.

Section state.
Context {D E : Type}.
Implicit Types p : proxyState D E.

Definition st_decoder (d : D) p := mkState d (ps_encoder p) (ps_filter p) (ps_preEvents p)
  (ps_preBytes p) (ps_committed p) (ps_headers p) (ps_failure p).
Definition st_encoder (e : E) p := mkState (ps_decoder p) e (ps_filter p) (ps_preEvents p)
  (ps_preBytes p) (ps_committed p) (ps_headers p) (ps_failure p).
Definition st_filter (f : option canonicalStopSequenceFilter) p := mkState (ps_decoder p)
  (ps_encoder p) f (ps_preEvents p) (ps_preBytes p) (ps_committed p) (ps_headers p) (ps_failure p).
Definition st_pre (events : list canonicalStreamEvent) (bytes : Z) p := mkState (ps_decoder p)
  (ps_encoder p) (ps_filter p) events bytes (ps_committed p) (ps_headers p) (ps_failure p).
Definition st_committed p := mkState (ps_decoder p) (ps_encoder p) (ps_filter p) (ps_preEvents p)
  (ps_preBytes p) true (ps_headers p) (ps_failure p).
Definition st_headers p := mkState (ps_decoder p) (ps_encoder p) (ps_filter p) (ps_preEvents p)
  (ps_preBytes p) (ps_committed p) true (ps_failure p).
Definition st_failure (f : upstreamSemanticFailure) p := mkState (ps_decoder p) (ps_encoder p)
  (ps_filter p) (ps_preEvents p) (ps_preBytes p) (ps_committed p) (ps_headers p) (Some f).

(** The encoder works on its part of the state. *)
Definition encoding {A} (m : M E A) : M (proxyState D E) A := λ s,
  let '(r, s') := m (mkIO (ps_encoder (io_enc s)) (io_capture s) (io_writer s)) in
  (r, mkIO (st_encoder (io_enc s') (io_enc s)) (io_capture s') (io_writer s')).

(** What is still done when [m] fails. *)
Definition on_error {A} (m : M (proxyState D E) A) (f : streamCaptureState → streamCaptureState)
    : M (proxyState D E) A := λ s,
  match m s with
  | (Err e, s') => (Err e, mkIO (io_enc s') (f (io_capture s')) (io_writer s'))
  | r => r
  end.
End state.

(** [canonicalStreamOptions], the options of the loop itself. *)
Record streamOptions := mkOptions {
  so_from : canonicalProtocol;
  so_requireUsage : bool;
  so_stopSequences : list string;
  so_lineInspect : option (string → streamCaptureState → streamCaptureState)
}.

Definition shouldSynthesizeEOFCompletion (protocol : canonicalProtocol) : bool :=
  bool_decide (protocol = Antigravity).

Definition bump_malformed (c : streamCaptureState) : streamCaptureState :=
  mkCapture (sc_usage c) (sc_sawDone c) (sc_streamCompleted c) (sc_endReason c) (sc_annotations c)
    (sc_malformedLines c + 1) (sc_preOutputEventsBuffered c) (sc_preOutputFailureDeferred c).

Definition end_if_empty (reason : string) (c : streamCaptureState) : streamCaptureState :=
  if bool_decide (sc_endReason c = "") then set_endReason reason c else c.

Section proxy.
Context {D E : Type} `{canonicalStreamDecoder D} `{canonicalStreamEncoder E}
        (parse : string → option any) (rawText : any → string) (options : streamOptions).

Let PM := M (proxyState D E).
Open Scope stream_scope.

Definition deferResponsesPreOutput : bool :=
  bool_decide (so_from options ∈ [OpenAIResponses; CodexResponses]).

(** [encodeRaw] of the function; headers go out with the first event. *)
Definition encodeRawEvents (events : list canonicalStreamEvent) : PM unit :=
  for_each events (λ event,
    modify st_headers ;;;
    on_error (encoding (EncodeEvent event)) (end_if_empty "downstream_stream_write_failed")).

Definition encodeFiltered (events : list canonicalStreamEvent) : PM unit :=
  let! p := get in
  match ps_filter p with
  | None => encodeRawEvents events
  | Some filter =>
      let '(events, filter) := Apply filter events in
      modify (st_filter (Some filter)) ;;;
      encodeRawEvents events
  end.

Definition flushPreOutput : PM unit :=
  let! p := get in
  encodeFiltered (ps_preEvents p) ;;;
  modify (st_pre [] 0).

Definition bufferPreOutputEvents (events : list canonicalStreamEvent) (sourceBytes : Z) : PM unit :=
  if bool_decide (length events = O) then ret tt
  else
    let! p := get in
    if responsesPreOutputMaxBytes <? ps_preBytes p + sourceBytes then
      modify_capture (set_endReason "upstream_stream_preoutput_too_large") ;;;
      fail errResponsesPreOutputTooLarge
    else
      modify (st_pre (ps_preEvents p ++ events) (ps_preBytes p + sourceBytes)) ;;;
      modify_capture (bump_buffered (Z.of_nat (length events))).

Definition encodeEvents (events : list canonicalStreamEvent) : PM unit :=
  flushPreOutput ;;; encodeFiltered events.

(** The line is being looked at before anything was sent. *)
Definition deferring (p : proxyState D E) : bool := deferResponsesPreOutput && negb (ps_headers p).

(** The events of a line: held back or encoded. *)
Definition handleEvents (events : list canonicalStreamEvent)
    (disposition : responsesPreOutputDisposition) (sourceBytes : Z) : PM unit :=
  let! p := get in
  let waiting := deferring p && negb (ps_committed p) in
  match disposition with
  | Defer => if waiting then bufferPreOutputEvents events sourceBytes else encodeEvents events
  | _ => when waiting (modify st_committed ;;; flushPreOutput) ;;; encodeEvents events
  end.

(** A line; [true] ends the stream without an error. *)
Definition processLine (line : string) : PM bool :=
  (match so_lineInspect options with Some inspect => modify_capture (inspect line) | None => ret tt end) ;;;
  let! p := get in
  let disposition := if deferring p then responsesStreamPreOutputDispositionForLine parse line else Commit in
  match disposition with
  | Fail failure =>
      modify_capture (λ c, set_deferred (end_if_empty "upstream_stream_error"
                             (inspectResponsesStreamLine parse rawText line c))) ;;;
      modify (st_failure failure) ;;;
      ret true
  | _ =>
      let '(decoder, decoded) := DecodeLine (ps_decoder p) line in
      modify (st_decoder decoder) ;;;
      match decoded with
      | Err decodeErr =>
          flushPreOutput ;;;
          let! p := get in
          if negb (ps_headers p) then
            modify_capture (set_endReason "upstream_stream_parse_failed") ;;;
            fail decodeErr
          else modify_capture bump_malformed ;;; ret false
      | Ok events => handleEvents events disposition (len line) ;;; ret false
      end
  end.

(** How the stream ends once all is flushed. *)
Definition concludeEOF : PM unit :=
  let! p := get in
  let! c := get_capture in
  if sc_streamCompleted c then
    if so_requireUsage options && negb (gatewayUsageAvailable (sc_usage c)) then
      modify_capture (set_endReason "usage_missing") ;;;
      fail "stream completed without usage metadata"
    else modify_capture (set_endReason "done")
  else if sc_sawDone c && bool_decide (sc_endReason c = "") then modify_capture (set_completed "done")
  else if negb (bool_decide (sc_endReason c = "")) then ret tt
  else modify_capture (set_endReason (if ps_headers p then "upstream_stream_eof" else "upstream_stream_empty")).

Definition finishEOF : PM unit :=
  let! p := get in
  match ps_filter p with
  | None => concludeEOF
  | Some filter =>
      let '(events, filter) := StopSequences.Flush filter in
      modify (st_filter (Some filter)) ;;;
      encodeRawEvents events ;;;
      concludeEOF
  end.

Definition atEOF : PM unit :=
  let! p := get in
  let '(decoder, events) := FlushDecoder (ps_decoder p) in
  modify (st_decoder decoder) ;;;
  encodeEvents events ;;;
  flushPreOutput ;;;
  let! p := get in
  let! c := get_capture in
  if ps_headers p && negb (sc_streamCompleted c) && negb (sc_sawDone c) && bool_decide (sc_endReason c = "")
  then
    if shouldSynthesizeEOFCompletion (so_from options) then
      on_error (encodeEvents [finishEvent Completed noMeta noFinish])
        (set_endReason "downstream_stream_write_failed") ;;;
      finishEOF
    else modify_capture (set_endReason "upstream_stream_incomplete")
  else finishEOF.

Definition readError (message : string) : PM unit :=
  let! c := get_capture in
  if bool_decide (sc_endReason c = "done") || (bool_decide (sc_endReason c = "") && finished c)
  then modify_capture (set_completed "done")
  else
    modify_capture (end_if_empty "upstream_stream_read_failed") ;;;
    flushPreOutput ;;;
    fail message.

(** One turn of the loop; [true] ends the stream. *)
Definition step (r : read) : PM bool :=
  if rd_cancelled r then
    modify_capture (set_endReason "downstream_client_cancelled") ;;;
    flushPreOutput ;;;
    fail contextCanceled
  else
    let! p := get in
    match (if deferring p then readResponsesPreOutputLine r else Ok (rd_line r, rd_err r)) with
    | Err e => modify_capture (set_endReason "upstream_stream_preoutput_too_large") ;;; fail e
    | Ok (line, err) =>
        let! stop := (if bool_decide (line = "") then ret false else processLine line) in
        if stop then ret true
        else match err with
        | NoError => ret false
        | EOF => atEOF ;;; ret true
        | ReadFailed message => readError message ;;; ret true
        end
    end.

Fixpoint proxyLoop (reads : list read) : PM unit :=
  match reads with
  | [] => atEOF
  | r :: rest => let! stop := step r in if stop then ret tt else proxyLoop rest
  end.

(** [proxyCanonicalStream] for an upstream with a body; [room] as in [writer]. *)
Definition proxyCanonicalStream (encoder : E) (room : option nat) (reads : list read)
    : result unit string * io (proxyState D E) :=
  proxyLoop reads
    (mkIO (mkState newDecoder encoder (newCanonicalStopSequenceFilter (so_stopSequences options)) [] 0
             false false None)
       emptyCapture (mkWriter [] room)).
End proxy.

(** ** Nothing is sent before the headers *)

(** An encoder works on its own part: what holds of that part holds after. *)
Lemma wp_encoding {D E A} (R : string → io (proxyState D E) → Prop) (m : M E A) s
    (Q : A → io (proxyState D E) → Prop) :
  (let join s' := mkIO (st_encoder (io_enc s') (io_enc s)) (io_capture s') (io_writer s') in
   wp (λ e s', R e (join s')) m (mkIO (ps_encoder (io_enc s)) (io_capture s) (io_writer s))
     (λ a s', Q a (join s'))) →
  wp R (encoding m) s Q.
Proof. unfold wp, encoding. by destruct (m _) as [[a|e] s']. Qed.

Lemma wp_on_error {D E A} (R : string → io (proxyState D E) → Prop) (m : M (proxyState D E) A) f s
    (Q : A → io (proxyState D E) → Prop) :
  wp (λ e s', R e (mkIO (io_enc s') (f (io_capture s')) (io_writer s'))) m s Q → wp R (on_error m f) s Q.
Proof. unfold wp, on_error. by destruct (m s) as [[a|e] s']. Qed.

(** One step of the symbolic execution of the loop. *)
Ltac px_step :=
  lazymatch goal with
  | |- wp _ (on_error _ _) _ _ => apply wp_on_error
  | |- wp _ (fail _) _ _ => apply wp_fail
  | |- wp _ (if ?b then _ else _) _ _ => destruct b eqn:?
  | |- wp _ (when ?b _) _ _ => unfold when; destruct b eqn:?
  | _ => wp_step
  end.

Section safety.
Context {D E : Type} `{canonicalStreamDecoder D} `{EncoderLaws E}
        (parse : string → option any) (rawText : any → string) (options : streamOptions).
Implicit Types s : io (proxyState D E).

(** While no header was sent the client got nothing, and no failure was declared yet. *)
Definition unsent s : Prop :=
  ps_failure (io_enc s) = None ∧ (ps_headers (io_enc s) = false → frames s = []).

(** The stream ended: the capture says why, and a declared failure is the caller's to act on. *)
Definition ended s : Prop :=
  (ps_headers (io_enc s) = false → frames s = []) ∧ sc_endReason (io_capture s) ≠ ""
  ∧ (is_Some (ps_failure (io_enc s)) →
     ps_headers (io_enc s) = false ∧ sc_preOutputFailureDeferred (io_capture s) = true).

Definition failing : string → io (proxyState D E) → Prop := λ _, ended.

(** The reason a stream ended for. *)
Definition reason_of s : string := sc_endReason (io_capture s).

(** A step that may only fail with a reason, and never takes one back. *)
Definition safe {A} (m : M (proxyState D E) A) : Prop :=
  ∀ s, unsent s → wp failing m s (λ _ s', unsent s' ∧ (reason_of s ≠ "" → reason_of s' ≠ "")).

Lemma end_if_empty_reason reason c : reason ≠ "" → sc_endReason (end_if_empty reason c) ≠ "".
Proof. unfold end_if_empty. by case_bool_decide. Qed.

Lemma safe_bind {A B} (m : M (proxyState D E) A) (f : A → M (proxyState D E) B) :
  safe m → (∀ a, safe (f a)) → safe (bind m f).
Proof.
  intros Hm Hf s Hs. apply wp_bind. eapply wp_mono; [|by apply Hm]. intros a s' [Hs' Hr].
  eapply wp_mono; [|by apply Hf]. intros b s'' [Hs'' Hr']. by auto.
Qed.

Lemma safe_ret {A} (a : A) : safe (ret a).
Proof. intros s Hs. by apply wp_ret. Qed.

Lemma safe_capture f :
  (∀ c, sc_endReason c ≠ "" → sc_endReason (f c) ≠ "") → safe (modify_capture f).
Proof. intros Hf s Hs. apply wp_modify_capture. split; [done|apply Hf]. Qed.

Lemma unsent_ended s : unsent s → reason_of s ≠ "" → ended s.
Proof. intros [Hf Hs] Hr. split_and!; [done|done|]. rewrite Hf. by intros []. Qed.

Lemma safe_modify f :
  (∀ p, ps_headers p = true → ps_headers (f p) = true) → (∀ p, ps_failure (f p) = ps_failure p) →
  safe (modify f).
Proof.
  intros Hf Hp s Hs. apply wp_modify. split; [|done]. split; [cbn; rewrite Hp; apply Hs|]. intros Hh. apply Hs.
  destruct (ps_headers (io_enc s)) eqn:Eh; [|done]. cbn in Hh. by rewrite Hf in Hh.
Qed.

Lemma safe_get {A} (f : proxyState D E → M (proxyState D E) A) : (∀ p, safe (f p)) → safe (bind get f).
Proof. intros Hf s Hs. repeat wp_step. by apply Hf. Qed.

Lemma safe_end {A} reason e : reason ≠ "" →
  safe (A := A) (bind (modify_capture (set_endReason reason)) (λ _, fail e)).
Proof. intros Hr s Hs. repeat wp_step. apply wp_fail. by apply unsent_ended. Qed.

Lemma safe_encodeRaw events : safe (encodeRawEvents events).
Proof.
  unfold encodeRawEvents. induction events as [|event events IH]; [apply safe_ret|].
  intros s Hs. cbn [for_each]. repeat px_step. apply wp_encoding. cbv zeta. unfold wp.
  set (s0 := mkIO _ _ _). pose proof (encoder_keeps_reason event s0) as Hkeep.
  destruct (EncodeEvent event s0) as [[[]|e] s'].
  - eapply wp_mono; [|apply IH; split; [apply Hs|by intros ?]]. intros _ s2 [Hs2 Hr2]. split; [done|].
    intros Hr. by apply Hr2, Hkeep.
  - apply unsent_ended; [split; [apply Hs|by intros ?]|]. by apply end_if_empty_reason.
Qed.

Lemma safe_encodeFiltered events : safe (encodeFiltered events).
Proof.
  unfold encodeFiltered. apply safe_get. intros p. destruct (ps_filter p) as [filter|]; [|apply safe_encodeRaw].
  destruct (Apply filter events) as [out filter']. apply safe_bind; [by apply safe_modify|].
  intros _. apply safe_encodeRaw.
Qed.

Lemma safe_flush : safe flushPreOutput.
Proof.
  unfold flushPreOutput. apply safe_get. intros p. apply safe_bind; [apply safe_encodeFiltered|].
  intros _. by apply safe_modify.
Qed.

Lemma safe_buffer events bytes : safe (bufferPreOutputEvents events bytes).
Proof.
  unfold bufferPreOutputEvents. destruct (bool_decide _); [apply safe_ret|]. apply safe_get. intros p.
  destruct (_ <? _); [by apply safe_end|]. apply safe_bind; [by apply safe_modify|]. intros _. by apply safe_capture.
Qed.

Lemma safe_encodeEvents events : safe (encodeEvents events).
Proof. apply safe_bind; [apply safe_flush|]. intros _. apply safe_encodeFiltered. Qed.

Lemma safe_handle events disposition bytes : safe (handleEvents options events disposition bytes).
Proof.
  unfold handleEvents. apply safe_get. intros p.
  assert (∀ b : bool, safe (bind (when b (bind (modify st_committed) (λ _, flushPreOutput)))
                              (λ _, encodeEvents events))) as Hgo.
  { intros b. apply safe_bind; [|intros _; apply safe_encodeEvents]. destruct b; [|apply safe_ret].
    apply safe_bind; [by apply safe_modify|]. intros _. apply safe_flush. }
  destruct disposition; [|apply Hgo..]. destruct (_ && _); [apply safe_buffer|apply safe_encodeEvents].
Qed.

(** A part of the loop that may end the stream without an error. *)
Definition turns (m : M (proxyState D E) bool) : Prop :=
  ∀ s, unsent s → wp failing m s (λ stop s', if stop then ended s' else unsent s').

Definition finishes (m : M (proxyState D E) unit) : Prop :=
  ∀ s, unsent s → wp failing m s (λ _, ended).

Lemma turns_inspect f g : turns g → turns (bind (modify_capture f) (λ _, g)).
Proof. intros Hg s Hs. repeat wp_step. by apply Hg. Qed.

Lemma turns_bind {A} (m : M (proxyState D E) A) f : safe m → (∀ a, turns (f a)) → turns (bind m f).
Proof. intros Hm Hf s Hs. apply wp_bind. eapply wp_mono; [|by apply Hm]. intros a s' [Hs' _]. by apply Hf. Qed.

Lemma turns_false {A} (m : M (proxyState D E) A) : safe m → turns (bind m (λ _, ret false)).
Proof. intros Hm. apply turns_bind; [done|]. intros ? s Hs. by apply wp_ret. Qed.

Lemma finishes_bind {A} (m : M (proxyState D E) A) f :
  safe m → (∀ a, finishes (f a)) → finishes (bind m f).
Proof. intros Hm Hf s Hs. apply wp_bind. eapply wp_mono; [|by apply Hm]. intros a s' [Hs' _]. by apply Hf. Qed.

Lemma turns_finishes m : finishes m → turns (bind m (λ _, ret true)).
Proof. intros Hm s Hs. apply wp_bind. eapply wp_mono; [|by apply Hm]. intros ? s' Hs'. by apply wp_ret. Qed.

(** A line that declares a failure, looked at before any header. *)
Lemma turns_failure failure line :
  ∀ s, unsent s → ps_headers (io_enc s) = false →
  wp failing (bind (modify_capture (λ c, set_deferred (end_if_empty "upstream_stream_error"
                (inspectResponsesStreamLine parse rawText line c))))
      (λ _, bind (modify (st_failure failure)) (λ _, ret true))) s
    (λ stop s', if stop then ended s' else unsent s').
Proof.
  intros s [Hf Hs] Hh. repeat wp_step. split_and!; [done| |].
  - cbn. by apply end_if_empty_reason.
  - intros _. cbn. by rewrite Hh.
Qed.

Lemma turns_line line : turns (processLine parse rawText options line).
Proof.
  unfold processLine.
  assert (∀ g, turns g → turns (bind (match so_lineInspect options with
    | Some inspect => modify_capture (inspect line) | None => ret tt end) (λ _, g))) as Hinspect.
  { intros g Hg. destruct (so_lineInspect options); [by apply turns_inspect|].
    apply turns_bind; [apply safe_ret|done]. }
  apply Hinspect. clear Hinspect. intros s Hs. repeat wp_step. set (p := io_enc s).
  set (disposition := if deferring options p then _ else _).
  assert (Hfail : ∀ failure, disposition = Fail failure → ps_headers p = false).
  { intros failure. subst disposition. unfold deferring. destruct (ps_headers p); [|done].
    by rewrite andb_false_r. }
  assert (Hgo : turns (let '(decoder, decoded) := DecodeLine (ps_decoder p) line in
      bind (modify (st_decoder decoder)) (λ _,
      match decoded with
      | Err decodeErr =>
          bind flushPreOutput (λ _, bind get (λ p,
          if negb (ps_headers p) then
            bind (modify_capture (set_endReason "upstream_stream_parse_failed")) (λ _, fail decodeErr)
          else bind (modify_capture bump_malformed) (λ _, ret false)))
      | Ok events => bind (handleEvents options events disposition (len line)) (λ _, ret false)
      end))).
  { destruct (DecodeLine (ps_decoder p) line) as [decoder decoded].
    apply turns_bind; [by apply safe_modify|]. intros _. destruct decoded as [events|e].
    - apply turns_false, safe_handle.
    - apply turns_bind; [apply safe_flush|]. intros _ s' Hs'. repeat wp_step.
      destruct (negb _); repeat wp_step; [apply wp_fail; by apply unsent_ended|exact Hs']. }
  clearbody disposition. destruct disposition; [by apply Hgo..|]. apply turns_failure; [done|by eapply Hfail].
Qed.

Lemma finishes_conclude : finishes (concludeEOF options).
Proof.
  intros s Hs. unfold concludeEOF. repeat wp_step.
  repeat px_step; apply unsent_ended; try done; cbn.
  - by apply negb_true_iff, bool_decide_eq_false in Heqb1.
  - by destruct (ps_headers (io_enc s)).
Qed.

Lemma finishes_finishEOF : finishes (finishEOF options).
Proof.
  unfold finishEOF. intros s Hs. repeat wp_step. destruct (ps_filter (io_enc s)) as [filter|]; [|by apply finishes_conclude].
  destruct (StopSequences.Flush filter) as [events filter']. revert s Hs.
  apply finishes_bind; [by apply safe_modify|]. intros _. apply finishes_bind; [apply safe_encodeRaw|].
  intros _. apply finishes_conclude.
Qed.

Lemma safe_on_error {A} (m : M (proxyState D E) A) reason :
  reason ≠ "" → safe m → safe (on_error m (set_endReason reason)).
Proof.
  intros Hr Hm s Hs. apply wp_on_error. specialize (Hm s Hs). unfold wp in *.
  destruct (m s) as [[a|e] s']; [done|]. destruct Hm as (Ha & _ & Hb). by split_and!.
Qed.

Lemma finishes_EOF : finishes (atEOF options).
Proof.
  unfold atEOF. intros s Hs. repeat wp_step. destruct (FlushDecoder (ps_decoder (io_enc s))) as [decoder events].
  revert s Hs. apply finishes_bind; [by apply safe_modify|]. intros _.
  apply finishes_bind; [apply safe_encodeEvents|]. intros _. apply finishes_bind; [apply safe_flush|]. intros _ s Hs.
  repeat wp_step. destruct (_ && bool_decide _); [|by apply finishes_finishEOF].
  destruct (shouldSynthesizeEOFCompletion _).
  - revert s Hs. apply finishes_bind; [|intros _; apply finishes_finishEOF].
    apply safe_on_error; [done|apply safe_encodeEvents].
  - apply wp_modify_capture. by apply unsent_ended.
Qed.

(** A reason is set, what is held back is flushed, and an error returned. *)
Lemma ends_flushing {A} (f : streamCaptureState → streamCaptureState) e s
    (Q : A → io (proxyState D E) → Prop) :
  unsent s → (∀ c, sc_endReason (f c) ≠ "") →
  wp failing (bind (modify_capture f) (λ _, bind flushPreOutput (λ _, fail e))) s Q.
Proof.
  intros Hs Hf. repeat wp_step. eapply wp_mono; [|by apply safe_flush]. intros _ s' [Hs' Hr].
  apply wp_fail, unsent_ended; [done|]. apply Hr, Hf.
Qed.

Lemma finishes_readError message : finishes (readError message).
Proof.
  intros s Hs. unfold readError. repeat wp_step. destruct (_ || _).
  - apply wp_modify_capture. by apply unsent_ended.
  - apply ends_flushing; [done|]. intros c. by apply end_if_empty_reason.
Qed.

Lemma turns_step r : turns (step parse rawText options r).
Proof.
  intros s Hs. unfold step. destruct (rd_cancelled r); [by apply ends_flushing|]. repeat wp_step.
  destruct (if deferring options (io_enc s) then _ else _) as [[line err]|e].
  2: { repeat wp_step. apply wp_fail. by apply unsent_ended. }
  assert (turns (if bool_decide (line = "") then ret false else processLine parse rawText options line)) as Hl.
  { destruct (bool_decide _); [|apply turns_line]. intros s' Hs'. by apply wp_ret. }
  wp_step. eapply wp_mono; [|by apply Hl]. intros [] s' Hs'; [by apply wp_ret|].
  destruct err as [| |message]; [by apply wp_ret|..].
  - apply turns_finishes; [apply finishes_EOF|done].
  - apply turns_finishes; [apply finishes_readError|done].
Qed.

Lemma finishes_loop reads : finishes (proxyLoop parse rawText options reads).
Proof.
  induction reads as [|r rest IH]; [apply finishes_EOF|]. intros s Hs. cbn [proxyLoop]. wp_step.
  eapply wp_mono; [|by apply turns_step]. intros [] s' Hs'; [by apply wp_ret|by apply IH].
Qed.

(** C11: A conversion that sent no header sent nothing.  For every decoder, every encoder that
    keeps the reason a stream ended, every sequence of reads and however long the connection
    lasts: when [proxyCanonicalStream] returns with no header written - with an error or
    without - the client has received no frame, so that the gateway may still answer from
    another upstream; a failure the upstream declared is handed over only in that case; and
    the capture always says why the stream ended. *)
Theorem conversion_failover_is_safe (encoder : E) room reads :
  let '(r, s) := proxyCanonicalStream parse rawText options encoder room reads in
  (ps_headers (io_enc s) = false → frames s = [])
  ∧ sc_endReason (io_capture s) ≠ ""
  ∧ (is_Some (ps_failure (io_enc s)) →
     ps_headers (io_enc s) = false ∧ sc_preOutputFailureDeferred (io_capture s) = true).
Proof.
  pose proof (finishes_loop reads (mkIO (mkState newDecoder encoder
    (newCanonicalStopSequenceFilter (so_stopSequences options)) [] 0 false false None)
       emptyCapture (mkWriter [] room))) as H'.
  assert (ended (proxyCanonicalStream parse rawText options encoder room reads).2) as Hend.
  { unfold proxyCanonicalStream. unfold wp in H'.
    destruct (proxyLoop _ _ _ _ _) as [[[]|e] s]; cbn; by apply H'. }
  by destruct (proxyCanonicalStream parse rawText options encoder room reads).
Qed.
End safety.

(** ** The decoders and encoders of the source *)

(** An encoder's step never takes a reason back. *)
Definition keeps {E A} (m : M E A) : Prop :=
  ∀ s, sc_endReason (io_capture s) ≠ "" → sc_endReason (io_capture (m s).2) ≠ "".

Lemma keeps_bind {E A B} (m : M E A) (f : A → M E B) :
  keeps m → (∀ a, keeps (f a)) → keeps (bind m f).
Proof.
  intros Hm Hf s Hs. unfold bind. specialize (Hm s Hs). destruct (m s) as [[a|e] s']; [by apply Hf|done].
Qed.

Lemma keeps_ret {E A} (a : A) : keeps (E := E) (ret a).
Proof. by intros s. Qed.
Lemma keeps_fail {E A} e : keeps (E := E) (A := A) (fail e).
Proof. by intros s. Qed.
Lemma keeps_get {E} : keeps (E := E) get.
Proof. by intros s. Qed.
Lemma keeps_get_capture {E} : keeps (E := E) get_capture.
Proof. by intros s. Qed.
Lemma keeps_modify {E} f : keeps (E := E) (modify f).
Proof. by intros s. Qed.
Lemma keeps_write {E} fr : keeps (E := E) (write fr).
Proof. intros s Hs. unfold write. by destruct (w_room (io_writer s)) as [[|n]|]. Qed.
Lemma keeps_end {E} reason : reason ≠ "" → keeps (E := E) (modify_capture (set_endReason reason)).
Proof. by intros Hr s Hs. Qed.
Lemma keeps_done {E} b reason : reason ≠ "" → keeps (E := E) (modify_capture (set_done b reason)).
Proof. by intros Hr s Hs. Qed.
Lemma keeps_usage {E} u : keeps (E := E) (modify_capture (set_usage u)).
Proof. by intros s Hs. Qed.
Lemma keeps_annotation {E} a : keeps (E := E) (modify_capture (appendStreamAnnotation a)).
Proof. intros s Hs. destruct a; exact Hs. Qed.
Lemma keeps_if {E A} (b : bool) (m1 m2 : M E A) : keeps m1 → keeps m2 → keeps (if b then m1 else m2).
Proof. intros ??. by destruct b. Qed.
Lemma keeps_when {E} b (m : M E unit) : keeps m → keeps (when b m).
Proof. intros Hm. destruct b; [done|apply keeps_ret]. Qed.
Lemma keeps_for_each {E A} (l : list A) (f : A → M E unit) :
  (∀ a, keeps (f a)) → keeps (for_each l f).
Proof. intros Hf. induction l; [by intros s|]. by apply keeps_bind. Qed.

Create HintDb keeps.
#[export] Hint Resolve keeps_bind keeps_ret keeps_fail keeps_get keeps_get_capture keeps_modify keeps_write
  keeps_end keeps_done keeps_usage keeps_annotation keeps_if keeps_when keeps_for_each : keeps.

(** Goes through the code of an encoder. *)
Ltac keep_all :=
  intros; lazymatch goal with
  | |- keeps (bind _ _) => apply keeps_bind; [keep_all|keep_all]
  | |- keeps (if _ then _ else _) => apply keeps_if; [keep_all|keep_all]
  | |- keeps (when _ _) => apply keeps_when; keep_all
  | |- keeps (for_each _ _) => apply keeps_for_each; keep_all
  | |- keeps (match ?x with _ => _ end) => destruct x; keep_all
  | |- keeps (let _ := _ in _) => cbv zeta; keep_all
  | |- keeps _ => first [solve [auto with keeps nocore] | apply keeps_end; discriminate
                        | apply keeps_done; discriminate | idtac]
  end.

Definition unmarshalError : string := "invalid JSON".

(** An error leaves the decoder as it was. *)
Definition decoded_or_error {D} (d : D) (r : option (D * list canonicalStreamEvent))
    : D * result (list canonicalStreamEvent) string :=
  match r with Some (d, events) => (d, Ok events) | None => (d, Err unmarshalError) end.

Lemma keeps_upstreamFailed {E} event : keeps (E := E) (upstreamFailed event).
Proof. unfold upstreamFailed. keep_all. Qed.
Lemma keeps_takeUsage {E} event : keeps (E := E) (takeUsage event).
Proof. unfold takeUsage. keep_all. Qed.
#[export] Hint Resolve keeps_upstreamFailed keeps_takeUsage : keeps.

Section decoders.
Context (parse : string → option any) (rawText marshal : any → string) (newUUID : Z → string)
        (order : list (string * any) → list (string * any)).

#[local] Instance chatDecoder : canonicalStreamDecoder openAIChatStreamDecoder := {|
  newDecoder := newOpenAIChatStreamDecoder;
  DecodeLine d line := decoded_or_error d (ChatStream.DecodeLine newUUID parse d line);
  FlushDecoder := ChatStream.Flush
|}.

(** No [Flush] of its own. *)
#[local] Instance responsesDecoder : canonicalStreamDecoder openAIResponsesStreamDecoder := {|
  newDecoder := newOpenAIResponsesStreamDecoder;
  DecodeLine d line := decoded_or_error d (ResponsesStream.DecodeLine parse rawText marshal order d line);
  FlushDecoder d := (d, [])
|}.

End decoders.

Section chat_encoder.
Context (candidateSpec : resolvedProtocolSpec) (siteType : string) (includeUsage requireUsage : bool)
        (valid : string → bool) (order : list (string * any) → list (string * any)).

#[local] Instance chatEncoder : canonicalStreamEncoder openAIChatStreamEncoder := {|
  EncodeEvent := ChatStream.EncodeEvent candidateSpec siteType includeUsage requireUsage valid order
|}.

Lemma keeps_chat_start : keeps sendStartIfNeeded.
Proof. unfold sendStartIfNeeded, ChatStream.writeDelta, writeChunk. keep_all. Qed.
#[local] Hint Resolve keeps_chat_start : keeps.

#[local] Instance chatEncoderLaws : EncoderLaws openAIChatStreamEncoder.
Proof.
  constructor. intros event. change (keeps (EncodeEvent (E := openAIChatStreamEncoder) event)). cbn [EncodeEvent chatEncoder].
  unfold ChatStream.EncodeEvent, mergeMeta, sendText, sendToolCallDelta, sendReasoning, sendFinish,
    sendIncomplete, sendTerminal, ChatStream.validateToolCallArguments, ChatStream.writeDelta, writeChunk.
  keep_all.
Qed.

End chat_encoder.

Section anthropic_encoder.
Context (spec candidateSpec : resolvedProtocolSpec) (requireUsage : bool) (valid : string → bool)
        (order : list (string * any) → list (string * any)).

#[local] Instance anthropicEncoder : canonicalStreamEncoder anthropicMessagesStreamEncoder := {|
  EncodeEvent := ae_EncodeEvent spec candidateSpec requireUsage valid order
|}.

Lemma keeps_anthropic_start : keeps (sendMessageStartIfNeeded spec).
Proof. unfold sendMessageStartIfNeeded, ae_writeEvent. keep_all. Qed.
Lemma keeps_stop_thinking : keeps stopThinkingIfOpen.
Proof. unfold stopThinkingIfOpen, ae_writeEvent. keep_all. Qed.
#[local] Hint Resolve keeps_anthropic_start keeps_stop_thinking : keeps.

#[local] Instance anthropicEncoderLaws : EncoderLaws anthropicMessagesStreamEncoder.
Proof.
  constructor. intros event. change (keeps (EncodeEvent (E := anthropicMessagesStreamEncoder) event)). cbn [EncodeEvent anthropicEncoder].
  unfold ae_EncodeEvent, ae_mergeMeta, sendTextDelta, ae_sendToolCallDelta, sendReasoningEvent, ae_sendFinish,
    ae_validateToolCallArguments, sendThinkingStartIfNeeded, toolCallState, putToolCall,
    AnthropicStream.writeDelta, ae_writeEvent.
  keep_all.
Qed.
End anthropic_encoder.

Definition reads_of (lines : list string) : list read := map (λ line, mkRead false line NoError) lines.

(** ** Samples *)

(** Events of a Responses stream before its output, and a line that does not parse. *)
Definition responses_sample (data : string) : option any :=
  match data with
  | "A" => Some (AObject [("type", AString "response.created");
                          ("response", AObject [("id", AString "resp_7"); ("model", AString "m")])])
  | "F" => Some (AObject [("type", AString "response.failed");
                          ("error", AObject [("code", AString "overloaded"); ("message", AString "busy")])])
  | _ => None
  end.

(** A Responses upstream for a chat client. *)
Definition responses_to_chat (reads : list read)
    : result unit string * io (proxyState openAIResponsesStreamDecoder openAIChatStreamEncoder) :=
  @proxyCanonicalStream openAIResponsesStreamDecoder openAIChatStreamEncoder
    (responsesDecoder responses_sample (λ _, "") (λ _, "") id)
    (chatEncoder chatSpec "openai" true true (λ _, true) id)
    responses_sample (λ _, "") (mkOptions OpenAIResponses true [] None)
    (newOpenAIChatStreamEncoder 0) None reads.

Lemma conversion_failover_is_safe_witness :
  ∃ s, responses_to_chat (reads_of ["data: A"; "data: F"]) = (Ok tt, s)
    ∧ frames s = [] ∧ is_Some (ps_failure (io_enc s)) ∧ sc_preOutputFailureDeferred (io_capture s) = true.
Proof.
  pose proof (@conversion_failover_is_safe openAIResponsesStreamDecoder openAIChatStreamEncoder
    (responsesDecoder responses_sample (λ _, "") (λ _, "") id)
    (chatEncoder chatSpec "openai" true true (λ _, true) id)
    (chatEncoderLaws chatSpec "openai" true true (λ _, true) id)
    responses_sample (λ _, "") (mkOptions OpenAIResponses true [] None)
    (newOpenAIChatStreamEncoder 0) None (reads_of ["data: A"; "data: F"])) as H.
  fold (responses_to_chat (reads_of ["data: A"; "data: F"])) in H.
  destruct (responses_to_chat (reads_of ["data: A"; "data: F"])) as [r s] eqn:E.
  destruct H as (Hframes & _ & Hfail).
  assert (r = Ok tt ∧ is_Some (ps_failure (io_enc s))) as [-> Hsome].
  { vm_compute in E. injection E as <- <-. split; [reflexivity|eexists; reflexivity]. }
  destruct (Hfail Hsome) as [Hh Hd]. exists s. split_and!; [reflexivity|by apply Hframes|done|done].
Defined.

(** A line that does not parse is meant to let the gateway fall over while nothing was sent;
    but what was held back is flushed first, and that sends it. *)
Theorem malformed_line_commits :
  let '(r, s) := responses_to_chat (reads_of ["data: broken"]) in
  let '(r', s') := responses_to_chat (reads_of ["data: A"; "data: broken"]) in
  (r, ps_headers (io_enc s), sc_endReason (io_capture s))
  = (Err unmarshalError, false, "upstream_stream_parse_failed")
  ∧ (r', ps_headers (io_enc s'), sc_endReason (io_capture s')) = (Ok tt, true, "upstream_stream_incomplete").
Proof. vm_compute. by split. Qed.

(** So do the end of the stream and a read that fails: an upstream that only said that it
    began is committed to, where the pass-through would still try another. *)
Theorem early_end_commits :
  let '(r, s) := responses_to_chat (reads_of ["data: A"]) in
  let '(r', s') := responses_to_chat [mkRead false "data: A" NoError; mkRead false "" (ReadFailed "reset")] in
  let '(p, err) := proxyResponsesStreamPassthrough responses_sample (λ _, "") (λ _, "") (newProxy None)
                     (reads_of ["data: A"]) in
  ps_headers (io_enc s) = true ∧ ps_headers (io_enc s') = true
  ∧ px_headers p = false ∧ sc_endReason (px_capture p) = "upstream_stream_empty".
Proof. vm_compute. by split_and!. Qed.
