(* ===== verification/ResponsesEncoder.v ===== *)
(** * The Responses stream encoder

    [openAIResponsesStreamEncoder] of [gateway/protocol_canonical_stream.go], with the
    identifiers of its items ([gateway/protocol_response_item_ids.go]) and the usage it
    reports ([gateway/protocol_responses_downstream.go]): canonical events in, events of
    the Responses API out.  What they mean to a client is the automaton [reader_step]: it
    follows the sequence numbers and the output items from their opening to their end. *)

From S2P Require Import Prelude GoFloat Catalog Json Pricing StreamEvents.

(** ** Identifiers of output items *)

Definition itemIDPrefixes : list (list string * string) :=
  [(["additional_tools"], "at"); (["message"], "msg"); (["agent_message"], "amsg");
   (["reasoning"], "rs"); (["local_shell_call"], "lsh"); (["function_call"], "fc");
   (["tool_search_call"], "tsc"); (["function_call_output"], "fco"); (["custom_tool_call"], "ctc");
   (["custom_tool_call_output"], "ctco"); (["tool_search_output"], "tso"); (["web_search_call"], "ws");
   (["image_generation_call"], "ig"); (["compaction"; "context_compaction"; "compaction_summary"], "cmp")].

Definition responsesItemIDPrefix (itemType : string) : option string :=
  snd <$> List.find (λ p, bool_decide (TrimSpace itemType ∈ p.1)) itemIDPrefixes.

Definition responsesItemIDMatchesType (itemType itemID : string) : bool :=
  match responsesItemIDPrefix itemType with
  | Some prefix =>
      (len prefix + 1 <? len (TrimSpace itemID)) && HasPrefix (TrimSpace itemID) (prefix +:+ "_")
  | None => false
  end.

(** [strings.IndexByte(s, '_')]; what follows it. *)
Fixpoint after_underscore (s : string) : option string :=
  match s with
  | EmptyString => None
  | String.String c rest => if bool_decide (c = "_"%char) then Some rest else after_underscore rest
  end.

Definition responsesItemIDForType (newUUID : string) (itemType itemID fallback : string) : string :=
  match responsesItemIDPrefix itemType with
  | None => TrimSpace itemID
  | Some prefix =>
      let itemID := TrimSpace itemID in
      if responsesItemIDMatchesType itemType itemID then itemID
      else
        let suffix := TrimSpace fallback in
        let suffix :=
          if bool_decide (suffix = "") then
            match after_underscore itemID with
            | Some rest => if HasPrefix itemID "_" then itemID else rest
            | None => itemID
            end
          else suffix in
        let suffix := if bool_decide (suffix = "") then newUUID else suffix in
        prefix +:+ "_" +:+ suffix
  end.

(** ** The encoder *)

Record responsesStreamToolCallState := mkResponsesCall {
  rt_CallID : string;
  rt_ItemID : string;
  rt_Name : string;
  rt_Arguments : string;
  rt_OutputIndex : Z;
  rt_Added : bool
}.

Record openAIResponsesStreamEncoder := mkResponsesEncoder {
  re_responseID : string;
  re_model : string;
  re_createdAt : Z;
  re_responseSent : bool;
  re_completed : bool;
  re_sequence : Z;
  re_textStarted : bool;
  re_textBuffer : string;
  re_textOutputIdx : Z;
  re_contentIndex : Z;
  re_nextOutputIdx : Z;
  re_toolCalls : gmap string responsesStreamToolCallState;
  re_toolCallOrder : list string
}.

(** [newOpenAIResponsesStreamEncoder]; the identifier is [synthesizedResponseID]'s, the
    instant the current second. *)
Definition newOpenAIResponsesStreamEncoder (responseID : string) (createdAt : Z)
    : openAIResponsesStreamEncoder :=
  mkResponsesEncoder responseID "" createdAt false false 0 false "" (-1) 0 0 ∅ [].

(** Updates of single fields. *)
Definition re_set_meta (responseID model : string) (createdAt : Z) (e : openAIResponsesStreamEncoder)
    : openAIResponsesStreamEncoder :=
  mkResponsesEncoder responseID model createdAt (re_responseSent e) (re_completed e) (re_sequence e)
    (re_textStarted e) (re_textBuffer e) (re_textOutputIdx e) (re_contentIndex e) (re_nextOutputIdx e)
    (re_toolCalls e) (re_toolCallOrder e).
Definition re_set_progress (sent completed : bool) (sequence : Z) (e : openAIResponsesStreamEncoder)
    : openAIResponsesStreamEncoder :=
  mkResponsesEncoder (re_responseID e) (re_model e) (re_createdAt e) sent completed sequence
    (re_textStarted e) (re_textBuffer e) (re_textOutputIdx e) (re_contentIndex e) (re_nextOutputIdx e)
    (re_toolCalls e) (re_toolCallOrder e).
Definition re_set_text (started : bool) (buffer : string) (index : Z) (e : openAIResponsesStreamEncoder)
    : openAIResponsesStreamEncoder :=
  mkResponsesEncoder (re_responseID e) (re_model e) (re_createdAt e) (re_responseSent e) (re_completed e)
    (re_sequence e) started buffer index (re_contentIndex e) (re_nextOutputIdx e)
    (re_toolCalls e) (re_toolCallOrder e).
Definition re_set_tools (nextOutputIdx : Z) (toolCalls : gmap string responsesStreamToolCallState)
    (order : list string) (e : openAIResponsesStreamEncoder) : openAIResponsesStreamEncoder :=
  mkResponsesEncoder (re_responseID e) (re_model e) (re_createdAt e) (re_responseSent e) (re_completed e)
    (re_sequence e) (re_textStarted e) (re_textBuffer e) (re_textOutputIdx e) (re_contentIndex e)
    nextOutputIdx toolCalls order.

Definition re_next (e : openAIResponsesStreamEncoder) : openAIResponsesStreamEncoder :=
  re_set_progress (re_responseSent e) (re_completed e) (re_sequence e + 1) e.

Definition responsesUsagePayload (usage : gatewayUsage) : any :=
  AObject
    [("input_tokens", AInt (PromptTokens usage)); ("output_tokens", AInt (CompletionTokens usage));
     ("total_tokens", AInt (TotalTokens usage));
     ("input_tokens_details", AObject
        [("cached_tokens", AInt (CachedPromptTokens usage));
         ("cache_write_tokens", AInt (CacheWriteTokens usage));
         ("image_tokens", AInt (InputImageTokens usage))]);
     ("output_tokens_details", AObject [("reasoning_tokens", AInt (ReasoningTokens usage))])].

Definition incompleteDetailsPayload (status : string) : any :=
  if bool_decide (status = "incomplete") then AObject [("reason", AString "stream_incomplete")] else ANil.

(** [payload[key] = value] *)
Definition map_set (members : list (string * any)) (key : string) (value : any) : list (string * any) :=
  List.filter (λ m, negb (bool_decide (m.1 = key))) members ++ [(key, value)].

Record responsesToolIdentity := mkToolIdentity { ti_Name : string; ti_Namespace : string }.

Section encoder.
Context (spec : resolvedProtocolSpec)          (* of the protocol, for event names *)
        (candidateSpec : resolvedProtocolSpec) (* of the candidate, for reasoning policies *)
        (siteType : string)                    (* of the candidate *)
        (requireUsage : bool)
        (CustomTools : gset string) (ResponseTools : gmap string responsesToolIdentity)
        (valid : string → bool)                (* [json.Valid] *)
        (parse : string → option any) (marshal : any → string) (* [json.Unmarshal], [json.Marshal] *)
        (newUUID : string)
        (order : list (string * any) → list (string * any)). (* of map iteration *)

Let EM := M openAIResponsesStreamEncoder.
Open Scope stream_scope.

(** [json.Marshal] of a decoded value does not fail. *)
Definition bridgedCustomToolInputFromArguments (arguments : string) : string :=
  match parse arguments ≫= read_map with
  | Some parsed =>
      match map_get parsed "input" with
      | Some (AString input) => input
      | Some input => marshal input
      | None => arguments
      end
  | None => arguments
  end.

Definition isCustomTool (name : string) : bool := bool_decide (name ∈ CustomTools).

Definition responseToolName (name : string) : string * string :=
  match ResponseTools !! name with
  | Some identity => (ti_Name identity, ti_Namespace identity)
  | None => (name, "")
  end.

(** [e.sequence++], then [writeEvent] of a payload that begins with the type and the number. *)
Definition sendEvent (event : string) (rest : openAIResponsesStreamEncoder → list (string * any)) : EM unit :=
  modify re_next ;;;
  let! e := get in
  write (FEvent event (AObject
    ([("type", AString event); ("sequence_number", AInt (re_sequence e))] ++ rest e))).

Definition messageID (e : openAIResponsesStreamEncoder) : string := "msg_" +:+ re_responseID e.

Definition outputText (text : string) : any :=
  AObject [("type", AString "output_text"); ("text", AString text); ("annotations", AArray [])].

Definition messageItem (e : openAIResponsesStreamEncoder) (status : string) (content : list any) : any :=
  AObject [("id", AString (messageID e)); ("type", AString "message"); ("status", AString status);
           ("role", AString "assistant"); ("content", AArray content)].

(** The item of a call: a function call, or the call of a custom tool with its input. *)
Definition callItem (state : responsesStreamToolCallState) (status arguments input : string) : any :=
  let '(name, namespace) := responseToolName (rt_Name state) in
  let custom := isCustomTool (rt_Name state) in
  AObject
    ([("id", AString (rt_ItemID state));
      ("type", AString (if custom then "custom_tool_call" else "function_call"));
      ("status", AString status); ("call_id", AString (rt_CallID state)); ("name", AString name)]
     ++ (if custom then [("input", AString input)] else [("arguments", AString arguments)])
     ++ (if bool_decide (namespace = "") then [] else [("namespace", AString namespace)])).

Definition orderedCalls (e : openAIResponsesStreamEncoder) : list responsesStreamToolCallState :=
  omap (λ callID, re_toolCalls e !! callID) (re_toolCallOrder e).

Definition completedCallItem (state : responsesStreamToolCallState) : any :=
  callItem state "completed" (rt_Arguments state) (bridgedCustomToolInputFromArguments (rt_Arguments state)).

Definition responsePayload (status : string) (usage : gatewayUsage) (e : openAIResponsesStreamEncoder) : any :=
  let ended := bool_decide (status = "completed") || bool_decide (status = "incomplete") in
  AObject
    [("id", AString (re_responseID e)); ("object", AString "response"); ("created_at", AInt (re_createdAt e));
     ("status", AString status); ("background", ABool false); ("error", ANil);
     ("incomplete_details", incompleteDetailsPayload status); ("model", AString (re_model e));
     ("output", AArray (if ended
        then (if re_textStarted e then [messageItem e "completed" [outputText (re_textBuffer e)]] else [])
             ++ map completedCallItem (orderedCalls e)
        else []));
     ("usage", responsesUsagePayload usage)].

Definition sendResponseStartIfNeeded : EM unit :=
  let! e := get in
  if re_responseSent e then ret tt
  else
    let! capture := get_capture in
    sendEvent "response.created" (λ e, [("response", responsePayload "in_progress" (sc_usage capture) e)]) ;;;
    sendEvent "response.in_progress" (λ e, [("response", responsePayload "in_progress" (sc_usage capture) e)]) ;;;
    modify (λ e, re_set_progress true (re_completed e) (re_sequence e) e).

Definition sendTextStartIfNeeded : EM unit :=
  let! e := get in
  if re_textStarted e then ret tt
  else
    sendResponseStartIfNeeded ;;;
    modify (λ e, re_set_text (re_textStarted e) (re_textBuffer e) (re_nextOutputIdx e)
                   (re_set_tools (re_nextOutputIdx e + 1) (re_toolCalls e) (re_toolCallOrder e) e)) ;;;
    sendEvent "response.output_item.added" (λ e,
      [("output_index", AInt (re_textOutputIdx e)); ("item", messageItem e "in_progress" [])]) ;;;
    sendEvent "response.content_part.added" (λ e,
      [("item_id", AString (messageID e)); ("output_index", AInt (re_textOutputIdx e));
       ("content_index", AInt (re_contentIndex e)); ("part", outputText "")]) ;;;
    modify (λ e, re_set_text true (re_textBuffer e) (re_textOutputIdx e) e).

(** The states are pointers: what is assigned to a field is seen in the map. *)
Definition re_putCall (state : responsesStreamToolCallState) : EM unit :=
  modify (λ e, re_set_tools (re_nextOutputIdx e) (<[rt_CallID state := state]> (re_toolCalls e))
                 (re_toolCallOrder e) e).

Definition sendArgumentsDelta (state : responsesStreamToolCallState) (delta : string) : EM unit :=
  sendEvent (protocolEventName spec ToolCallDelta "response.function_call_arguments.delta") (λ _,
    [("item_id", AString (rt_ItemID state)); ("output_index", AInt (rt_OutputIndex state));
     ("delta", AString delta)]).

Definition addToolCallState (state : responsesStreamToolCallState) : EM unit :=
  let custom := isCustomTool (rt_Name state) in
  let state := mkResponsesCall (rt_CallID state)
    (responsesItemIDForType newUUID (if custom then "custom_tool_call" else "function_call")
       (rt_ItemID state) (rt_CallID state))
    (rt_Name state) (rt_Arguments state) (rt_OutputIndex state) (rt_Added state) in
  re_putCall state ;;;
  sendEvent "response.output_item.added" (λ _,
    [("output_index", AInt (rt_OutputIndex state)); ("item", callItem state "in_progress" "" "")]) ;;;
  re_putCall (mkResponsesCall (rt_CallID state) (rt_ItemID state) (rt_Name state) (rt_Arguments state)
                (rt_OutputIndex state) true) ;;;
  if bool_decide (rt_Arguments state = "") || custom then ret tt
  else sendArgumentsDelta state (rt_Arguments state).

(** The state of a call, a new one with the next index. *)
Definition responsesCallState (callID : string) : EM responsesStreamToolCallState :=
  let! e := get in
  match re_toolCalls e !! callID with
  | Some state => ret state
  | None =>
      let state := mkResponsesCall callID "" "" "" (re_nextOutputIdx e) false in
      modify (λ e, re_set_tools (re_nextOutputIdx e + 1) (<[callID := state]> (re_toolCalls e))
                     (re_toolCallOrder e ++ [callID]) e) ;;;
      ret state
  end.

Definition re_sendToolCallDelta (event : canonicalStreamEvent) : EM unit :=
  let call := ev_ToolCall event in
  let callID := TrimSpace (ev_ToolCallID call) in
  let delta := ev_ToolCallArgumentsDelta call in
  if bool_decide (callID = "") then ret tt
  else
    sendResponseStartIfNeeded ;;;
    let! state := responsesCallState callID in
    let grown name := mkResponsesCall (rt_CallID state) (rt_ItemID state) name
                        (rt_Arguments state +:+ delta) (rt_OutputIndex state) (rt_Added state) in
    if rt_Added state then
      re_putCall (grown (rt_Name state)) ;;;
      if bool_decide (delta = "") || isCustomTool (rt_Name state) then ret tt
      else sendArgumentsDelta state delta
    else
      let state := grown (if bool_decide (ev_ToolCallName call = "") then rt_Name state
                          else ev_ToolCallName call) in
      re_putCall state ;;;
      if bool_decide (rt_Name state = "") then ret tt else addToolCallState state.

Definition re_sendReasoningEvent (event : canonicalStreamEvent) : EM unit :=
  let reasoning := ev_Reasoning event in
  if negb (bool_decide (reasoningPolicyForProtocol candidateSpec (ev_ReasoningKind reasoning) = "passthrough"))
  then modify_capture (appendStreamAnnotation (redactedReasoningAnnotation event))
  else
    sendResponseStartIfNeeded ;;;
    let eventName := TrimSpace (ev_ReasoningEventName reasoning) in
    let eventName := if bool_decide (eventName = "")
                     then protocolEventName spec ReasoningDelta "response.reasoning_delta" else eventName in
    sendEvent eventName (λ _,
      if bool_decide (ev_Delta event = "") then [] else [("delta", AString (ev_Delta event))]).

(** The protocol is the Responses API: advanced events pass through. *)
Definition sendAdvancedEvent (event : canonicalStreamEvent) : EM unit :=
  let eventName := TrimSpace (ev_AdvancedEventName (ev_Advanced event)) in
  if bool_decide (eventName = "")
  then modify_capture (appendStreamAnnotation (advancedStreamAnnotation order event))
  else
    sendResponseStartIfNeeded ;;;
    modify re_next ;;;
    let! e := get in
    let payload := default [] (sanitizeAdvancedMap order (ev_AdvancedPayload (ev_Advanced event))) in
    let payload := map_set payload "type" (AString eventName) in
    write (FEvent eventName (AObject
      (match map_get payload "sequence_number" with
       | Some _ => payload
       | None => map_set payload "sequence_number" (AInt (re_sequence e))
       end))).

Definition sendAnnotation (event : canonicalStreamEvent) : EM unit :=
  modify_capture (appendStreamAnnotation (ev_Annotation event)) ;;;
  when (isGrokSite siteType)
    (sendTextStartIfNeeded ;;;
     let! capture := get_capture in
     sendEvent (protocolEventName spec AnnotationAdded "response.output_text.annotation.added") (λ e,
       [("item_id", AString (messageID e)); ("output_index", AInt (re_textOutputIdx e));
        ("content_index", AInt (re_contentIndex e));
        ("annotation_index", AInt (Z.of_nat (length (sc_annotations capture)) - 1));
        ("annotation", ev_Annotation event)])).

Definition sendTextDone (e : openAIResponsesStreamEncoder) : EM unit :=
  let text := re_textBuffer e in
  let place := [("item_id", AString (messageID e)); ("output_index", AInt (re_textOutputIdx e));
                ("content_index", AInt (re_contentIndex e))] in
  sendEvent "response.output_text.done" (λ _, place ++ [("text", AString text)]) ;;;
  sendEvent "response.content_part.done" (λ _, place ++ [("part", outputText text)]) ;;;
  sendEvent "response.output_item.done" (λ _,
    [("output_index", AInt (re_textOutputIdx e)); ("item", messageItem e "completed" [outputText text])]).

(** The end of one call: it is added first when its name never came. *)
Definition sendCallDone (callID : string) : EM unit :=
  let! e := get in
  match re_toolCalls e !! callID with
  | None => ret tt
  | Some state =>
      (if rt_Added state then ret tt else addToolCallState state) ;;;
      let! e := get in
      let state := default state (re_toolCalls e !! callID) in
      let place := [("item_id", AString (rt_ItemID state)); ("output_index", AInt (rt_OutputIndex state))] in
      let input := bridgedCustomToolInputFromArguments (rt_Arguments state) in
      when (isCustomTool (rt_Name state))
        (sendEvent "response.custom_tool_call_input.delta" (λ _, place ++ [("delta", AString input)]) ;;;
         sendEvent "response.custom_tool_call_input.done" (λ _, place ++ [("input", AString input)])) ;;;
      sendEvent "response.output_item.done" (λ _,
        [("output_index", AInt (rt_OutputIndex state)); ("item", completedCallItem state)])
  end.

Definition sendTerminalResponse (status : string) (completed : bool) (endReason : string) : EM unit :=
  let! e := get in
  if re_completed e then ret tt
  else
    let! capture := get_capture in
    if requireUsage && negb (gatewayUsageAvailable (sc_usage capture)) then
      modify_capture (set_endReason "usage_missing") ;;;
      fail "stream completed without usage metadata"
    else
      sendResponseStartIfNeeded ;;;
      let! e := get in
      when (re_textStarted e) (sendTextDone e) ;;;
      for_each (re_toolCallOrder e) sendCallDone ;;;
      let eventName :=
        if bool_decide (status = "incomplete") then protocolEventName spec Incomplete "response.incomplete"
        else protocolEventName spec Completed "response.completed" in
      sendEvent eventName (λ e, [("response", responsePayload status (sc_usage capture) e)]) ;;;
      modify (λ e, re_set_progress (re_responseSent e) true (re_sequence e) e) ;;;
      modify_capture (set_done completed endReason).

Definition re_validateToolCallArguments : EM unit :=
  let! e := get in
  for_each (orderedCalls e) (λ state,
    if StreamEvents.validateToolCallArguments valid (rt_Arguments state) then ret tt
    else
      modify_capture (set_endReason "tool_call_arguments_invalid_json") ;;;
      fail ("tool call " +:+ nonEmptyString [rt_CallID state; "unknown"]
              +:+ " arguments are not valid JSON")).

Definition re_mergeMeta (event : canonicalStreamEvent) : EM unit :=
  modify (λ e,
    let meta := ev_Meta event in
    re_set_meta (if bool_decide (ev_ID meta = "") then re_responseID e else ev_ID meta)
      (if bool_decide (ev_Model meta = "") then re_model e else ev_Model meta)
      (if 0 <? ev_CreatedAt meta then ev_CreatedAt meta else re_createdAt e) e).

Definition sendOutputText (delta : string) : EM unit :=
  if bool_decide (delta = "") then ret tt
  else
    sendTextStartIfNeeded ;;;
    modify (λ e, re_set_text (re_textStarted e) (re_textBuffer e +:+ delta) (re_textOutputIdx e) e) ;;;
    sendEvent (protocolEventName spec TextDelta "response.output_text.delta") (λ e,
      [("item_id", AString (messageID e)); ("output_index", AInt (re_textOutputIdx e));
       ("content_index", AInt (re_contentIndex e)); ("delta", AString delta)]).

Definition re_EncodeEvent (event : canonicalStreamEvent) : EM unit :=
  re_mergeMeta event ;;;
  match ev_Type event with
  | Created => sendResponseStartIfNeeded
  | TextDelta => sendOutputText (ev_Delta event)
  | ToolCallDelta => re_sendToolCallDelta event
  | ReasoningDelta => re_sendReasoningEvent event
  | Advanced => sendAdvancedEvent event
  | AnnotationAdded => sendAnnotation event
  | Usage => takeUsage event
  | Completed => re_validateToolCallArguments ;;; sendTerminalResponse "completed" true "done"
  | Incomplete => sendTerminalResponse "incomplete" false "response_incomplete"
  | ErrorEvent => upstreamFailed event
  end.
End encoder.

(** ** What the events mean to a client *)

Inductive itemKind := IMessage | IFunction | ICustom.

#[global] Instance itemKind_eq_dec : EqDecision itemKind.
Proof. solve_decision. Defined.

(** [oi_text] is the text, the arguments or the input; [oi_part]: its part is open. *)
Record outputItem := mkOutput {
  oi_id : string;
  oi_kind : itemKind;
  oi_call : string;
  oi_name : string * string;
  oi_text : string;
  oi_part : bool;
  oi_done : bool
}.

#[global] Instance outputItem_eq_dec : EqDecision outputItem.
Proof. solve_decision. Defined.

Definition text_of (value : any) : string := rawStringFromAny value.

(** An item as an event shows it. *)
Definition readItem (m : list (string * any)) (done : bool) : option outputItem :=
  let id := text_of (map_index m "id") in
  let type := text_of (map_index m "type") in
  let status := if done then "completed" else "in_progress" in
  let call kind key :=
    Some (mkOutput id kind (text_of (map_index m "call_id"))
            (text_of (map_index m "name"), text_of (map_index m "namespace"))
            (text_of (map_index m key)) false done) in
  if negb (bool_decide (text_of (map_index m "status") = status)) then None
  else if bool_decide (type = "message") then
    match map_index m "content" with
    | AArray [] => Some (mkOutput id IMessage "" ("", "") "" false done)
    | AArray [AObject part] =>
        Some (mkOutput id IMessage "" ("", "") (text_of (map_index part "text")) false done)
    | _ => None
    end
  else if bool_decide (type = "function_call") then call IFunction "arguments"
  else if bool_decide (type = "custom_tool_call") then call ICustom "input"
  else None.

Definition grow (d : string) (i : outputItem) : outputItem :=
  mkOutput (oi_id i) (oi_kind i) (oi_call i) (oi_name i) (oi_text i +:+ d) (oi_part i) (oi_done i).
Definition set_part (part : bool) (i : outputItem) : outputItem :=
  mkOutput (oi_id i) (oi_kind i) (oi_call i) (oi_name i) (oi_text i) part (oi_done i).
Definition set_item_done (i : outputItem) : outputItem :=
  mkOutput (oi_id i) (oi_kind i) (oi_call i) (oi_name i) (oi_text i) (oi_part i) true.

Inductive reader :=
| RNew
| RCreated
| RStreaming (items : gmap nat outputItem)
| RDone (status : string) (output : list outputItem) (items : gmap nat outputItem).

Definition index_of (m : list (string * any)) : option nat :=
  match map_index m "output_index" with
  | AInt i => if 0 <=? i then Some (Z.to_nat i) else None
  | _ => None
  end.

(** The event is about an item that is open; it names the item by place and identifier. *)
Definition item_at (m : list (string * any)) (items : gmap nat outputItem) : option (nat * outputItem) :=
  i ← index_of m; it ← items !! i;
  if bool_decide (text_of (map_index m "item_id") = oi_id it) && negb (oi_done it) then Some (i, it) else None.

Definition on_item (f : outputItem → option outputItem) (m : list (string * any))
    (items : gmap nat outputItem) : option reader :=
  '(i, it) ← item_at m items; it' ← f it; Some (RStreaming (<[i := it']> items)).

Definition of_kind (kind : itemKind) (part : bool) (it : outputItem) : bool :=
  bool_decide (oi_kind it = kind) && Bool.eqb (oi_part it) part.

(** The types of events the client acts on; it passes over the others. *)
Definition knownTypes : list string :=
  ["response.created"; "response.in_progress"; "response.completed"; "response.incomplete";
   "response.output_item.added"; "response.output_item.done"; "response.content_part.added";
   "response.content_part.done"; "response.output_text.delta"; "response.output_text.done";
   "response.output_text.annotation.added"; "response.function_call_arguments.delta";
   "response.custom_tool_call_input.delta"; "response.custom_tool_call_input.done"].

Fixpoint readItems (l : list any) : option (list outputItem) :=
  match l with
  | [] => Some []
  | AObject m :: rest => i ← readItem m true; its ← readItems rest; Some (i :: its)
  | _ => None
  end.

(** The whole response at the end; every item is done by then. *)
Definition readEnd (type : string) (m : list (string * any)) (items : gmap nat outputItem) : option reader :=
  let response := as_map (map_index m "response") in
  let status := text_of (map_index response "status") in
  if negb (bool_decide (type = "response." +:+ status)) then None
  else if negb (bool_decide (map_Forall (λ _ it, oi_done it = true) items)) then None
  else match map_index response "output" with
  | AArray l => output ← readItems l; Some (RDone status output items)
  | _ => None
  end.

(** What an event about an open item does to it. *)
Definition itemEvents : list (string * (list (string * any) → outputItem → option outputItem)) :=
  [("response.content_part.added", λ m it,
      if of_kind IMessage false it then Some (set_part true it) else None);
   ("response.output_text.delta", λ m it,
      if of_kind IMessage true it then Some (grow (text_of (map_index m "delta")) it) else None);
   ("response.output_text.annotation.added", λ m it,
      if of_kind IMessage true it then Some it else None);
   ("response.output_text.done", λ m it,
      if of_kind IMessage true it && bool_decide (text_of (map_index m "text") = oi_text it)
      then Some it else None);
   ("response.content_part.done", λ m it,
      if of_kind IMessage true it
         && bool_decide (text_of (map_index (as_map (map_index m "part")) "text") = oi_text it)
      then Some (set_part false it) else None);
   ("response.function_call_arguments.delta", λ m it,
      if of_kind IFunction false it then Some (grow (text_of (map_index m "delta")) it) else None);
   ("response.custom_tool_call_input.delta", λ m it,
      if of_kind ICustom false it then Some (grow (text_of (map_index m "delta")) it) else None);
   ("response.custom_tool_call_input.done", λ m it,
      if of_kind ICustom false it && bool_decide (text_of (map_index m "input") = oi_text it)
      then Some it else None)].

Definition itemEvent (type : string) : option (list (string * any) → outputItem → option outputItem) :=
  snd <$> List.find (λ p, bool_decide (p.1 = type)) itemEvents.

Definition readEvent (type : string) (m : list (string * any)) (items : gmap nat outputItem) : option reader :=
  let named t := bool_decide (type = t) in
  if named "response.output_item.added" then
    i ← index_of m; it ← readItem (as_map (map_index m "item")) false;
    if bool_decide (items !! i = None) && bool_decide (oi_text it = "")
    then Some (RStreaming (<[i := it]> items)) else None
  else if named "response.output_item.done" then
    i ← index_of m; it ← items !! i; shown ← readItem (as_map (map_index m "item")) true;
    if negb (oi_done it) && bool_decide (shown = set_item_done it)
    then Some (RStreaming (<[i := set_item_done it]> items)) else None
  else match itemEvent type with
  | Some f => on_item (f m) m items
  | None =>
      if named "response.completed" || named "response.incomplete" then readEnd type m items
      else if named "response.created" || named "response.in_progress" then None
      else Some (RStreaming items)
  end.

(** The response is created, in progress, and ended. *)
Definition readerNext (r : reader) (type : string) (m : list (string * any)) : option reader :=
  match r with
  | RNew => if bool_decide (type = "response.created") then Some RCreated else None
  | RCreated => if bool_decide (type = "response.in_progress") then Some (RStreaming ∅) else None
  | RStreaming items => readEvent type m items
  | RDone _ _ _ => None
  end.

(** The sequence numbers count the events; the name of an event is its type. *)
Definition reader_step (c : Z * reader) (fr : frame) : option (Z * reader) :=
  match fr with
  | FEvent event (AObject m) =>
      match map_index m "sequence_number" with
      | AInt n =>
          if bool_decide (text_of (map_index m "type") = event) && bool_decide (n = c.1 + 1)
          then r ← readerNext c.2 event m; Some (n, r) else None
      | _ => None
      end
  | _ => None
  end.

Fixpoint reader_run (c : Z * reader) (frames : list frame) : option (Z * reader) :=
  match frames with
  | [] => Some c
  | fr :: rest => c ← reader_step c fr; reader_run c rest
  end.

(** The text of a message, and the calls. *)
Definition output_text (output : list outputItem) : string :=
  String.concat "" (omap (λ it, if bool_decide (oi_kind it = IMessage) then Some (oi_text it) else None) output).
Definition output_call (output : list outputItem) (id : string) : option (itemKind * string) :=
  head (omap (λ it, if negb (bool_decide (oi_kind it = IMessage)) && bool_decide (oi_call it = id)
                    then Some (oi_kind it, oi_text it) else None) output).

(** ** The encoder's state and the client's items *)

(** Who holds a place of the output. *)
Inductive owner := OText | OCall (id : string).

#[global] Instance owner_eq_dec : EqDecision owner.
Proof. solve_decision. Defined.

Definition call_owner (o : owner) : option string := match o with OCall id => Some id | OText => None end.

Section relation.
Context (CustomTools : gset string) (ResponseTools : gmap string responsesToolIdentity)
        (parse : string → option any) (marshal : any → string).
Implicit Types (e : openAIResponsesStreamEncoder) (slots : list owner) (items : gmap nat outputItem)
  (ct : content) (cl : owner → bool).

Definition kindOf (name : string) : itemKind :=
  if isCustomTool CustomTools name then ICustom else IFunction.

(** What the client sees of a place, where [cl] tells the items that are done: the input
    of a custom tool is shown at its end only. *)
Definition shownCall (done : bool) (state : responsesStreamToolCallState) : outputItem :=
  mkOutput (rt_ItemID state) (kindOf (rt_Name state)) (rt_CallID state)
    (responseToolName ResponseTools (rt_Name state))
    (if isCustomTool CustomTools (rt_Name state)
     then if done then bridgedCustomToolInputFromArguments parse marshal (rt_Arguments state) else ""
     else rt_Arguments state) false done.

Definition shownText (part done : bool) e : outputItem :=
  mkOutput (messageID e) IMessage "" ("", "") (re_textBuffer e) part done.

Definition shown cl e (o : owner) : option outputItem :=
  match o with
  | OText => if re_textStarted e then Some (shownText (negb (cl OText)) (cl OText) e) else None
  | OCall id => state ← re_toolCalls e !! id;
                if rt_Added state then Some (shownCall (cl o) state) else None
  end.

Definition displays cl e slots items : Prop := ∀ i, items !! i = slots !! i ≫= shown cl e.

Definition nothing_done : owner → bool := λ _, false.

Record places e slots ct : Prop := mkPlaces {
  q_next : re_nextOutputIdx e = Z.of_nat (length slots);
  q_nodup : NoDup slots;
  q_text : re_textStarted e = true → ∃ i : nat, re_textOutputIdx e = Z.of_nat i ∧ slots !! i = Some OText;
  q_no_text : re_textStarted e = false → OText ∉ slots ∧ re_textBuffer e = "";
  q_call : ∀ id state, re_toolCalls e !! id = Some state →
    rt_CallID state = id ∧ ∃ i : nat, rt_OutputIndex state = Z.of_nat i ∧ slots !! i = Some (OCall id);
  q_dom : ∀ id, OCall id ∈ slots → is_Some (re_toolCalls e !! id);
  q_order : re_toolCallOrder e = omap call_owner slots;
  q_ct_text : ct_text ct = re_textBuffer e;
  q_ct_arguments : ct_arguments ct = rt_Arguments <$> re_toolCalls e
}.

Lemma NoDup_place slots i j o : NoDup slots → slots !! i = Some o → slots !! j = Some o → i = j.
Proof. intros Hnd Hi Hj. by eapply NoDup_lookup. Qed.

(** One place changes, all others stay. *)
Lemma displays_update cl cl' e e' slots items i o it :
  displays cl e slots items → NoDup slots → slots !! i = Some o →
  (∀ o', o' ≠ o → shown cl' e' o' = shown cl e o') → shown cl' e' o = Some it →
  displays cl' e' slots (<[i := it]> items).
Proof.
  intros Hd Hnd Hi Hother Ho j. destruct (decide (i = j)) as [<-|Hne].
  - by rewrite lookup_insert_eq, Hi.
  - rewrite lookup_insert_ne by done. rewrite Hd. destruct (slots !! j) as [o'|] eqn:Hj; [|done]. cbn.
    symmetry. apply Hother. intros ->. by apply Hne, (NoDup_place slots i j o).
Qed.

Lemma displays_same cl cl' e e' slots items :
  displays cl e slots items → (∀ o, o ∈ slots → shown cl' e' o = shown cl e o) → displays cl' e' slots items.
Proof.
  intros Hd Hs j. rewrite Hd. destruct (slots !! j) as [o|] eqn:Hj; [|done]. cbn. symmetry. apply Hs.
  by eapply list_elem_of_lookup_2.
Qed.

(** A new place at the end, not shown yet. *)
Lemma displays_snoc cl e e' slots items o :
  displays cl e slots items → (∀ o, o ∈ slots → shown cl e' o = shown cl e o) → shown cl e' o = None →
  displays cl e' (slots ++ [o]) items.
Proof.
  intros Hd Hs Ho j. rewrite Hd. destruct (decide (j < length slots)%nat) as [Hl|Hl].
  - rewrite lookup_app_l by done. destruct (slots !! j) as [o'|] eqn:Hj; [|done]. cbn. symmetry. apply Hs.
    by eapply list_elem_of_lookup_2.
  - rewrite (lookup_ge_None_2 slots) by lia. destruct (decide (j = length slots)) as [->|Hne].
    + rewrite lookup_app_r, Nat.sub_diag by lia. cbn. by rewrite Ho.
    + rewrite lookup_ge_None_2; [done|]. rewrite length_app. cbn. lia.
Qed.

(** A new place at the end that is shown at once. *)
Lemma displays_push cl e e' slots items o it :
  displays cl e slots items → (∀ o, o ∈ slots → shown cl e' o = shown cl e o) → shown cl e' o = Some it →
  displays cl e' (slots ++ [o]) (<[length slots := it]> items).
Proof.
  intros Hd Hs Ho j. destruct (decide (length slots = j)) as [<-|Hne].
  - rewrite lookup_insert_eq, lookup_app_r, Nat.sub_diag by lia. cbn. by rewrite Ho.
  - rewrite lookup_insert_ne, Hd by done. destruct (decide (j < length slots)%nat) as [Hl|Hl].
    + rewrite lookup_app_l by done. destruct (slots !! j) as [o'|] eqn:Hj; [|done]. cbn. symmetry. apply Hs.
      by eapply list_elem_of_lookup_2.
    + rewrite (lookup_ge_None_2 slots), (lookup_ge_None_2 (slots ++ [o])); [done| |lia].
      rewrite length_app. cbn. lia.
Qed.

Lemma displays_at cl e slots items i o it :
  displays cl e slots items → slots !! i = Some o → shown cl e o = Some it → items !! i = Some it.
Proof. intros Hd Hi Ho. by rewrite Hd, Hi. Qed.

(** The texts of the encoder's fields that the relation does not read. *)
Lemma places_progress e slots ct sent completed sequence :
  places e slots ct → places (re_set_progress sent completed sequence e) slots ct.
Proof. by intros []. Qed.

Lemma shown_progress cl e sent completed sequence o :
  shown cl (re_set_progress sent completed sequence e) o = shown cl e o.
Proof. by destruct o. Qed.

Lemma places_open_text e slots ct :
  places e slots ct → re_textStarted e = false →
  places (re_set_text true (re_textBuffer e) (re_nextOutputIdx e)
            (re_set_tools (re_nextOutputIdx e + 1) (re_toolCalls e) (re_toolCallOrder e) e))
    (slots ++ [OText]) ct.
Proof.
  intros [] Ht. destruct (q_no_text0 Ht) as [Hnot Hbuf]. constructor; cbn.
  - rewrite length_app. cbn. lia.
  - apply list.NoDup_app. split_and!; [done| |apply list.NoDup_singleton]. by intros o Ho ->%list_elem_of_singleton.
  - intros _. exists (length slots). split; [done|]. apply lookup_snoc_Some. by right.
  - done.
  - intros id state Hid. destruct (q_call0 id state Hid) as (? & i & ? & Hi). split; [done|].
    exists i. split; [done|]. by apply lookup_app_l_Some.
  - intros id [?|[=]%list_elem_of_singleton]%elem_of_app. auto.
  - by rewrite omap_app, app_nil_r.
  - done.
  - done.
Qed.

Lemma places_text e slots ct d :
  places e slots ct → re_textStarted e = true →
  places (re_set_text true (re_textBuffer e +:+ d) (re_textOutputIdx e) e) slots
    (mkContent (ct_text ct +:+ d) (ct_thinking ct) (ct_arguments ct)).
Proof. intros [] Ht. constructor; cbn; try done; [by intros _; apply q_text0|by rewrite q_ct_text0]. Qed.

Lemma places_open_call e slots ct id item :
  places e slots ct → re_toolCalls e !! id = None →
  places (re_set_tools (re_nextOutputIdx e + 1)
            (<[id := mkResponsesCall id item "" "" (re_nextOutputIdx e) false]> (re_toolCalls e))
            (re_toolCallOrder e ++ [id]) e)
    (slots ++ [OCall id]) (mkContent (ct_text ct) (ct_thinking ct) (<[id := ""]> (ct_arguments ct))).
Proof.
  intros [] Hid. constructor; cbn.
  - rewrite length_app. cbn. lia.
  - apply list.NoDup_app. split_and!; [done| |apply list.NoDup_singleton].
    intros o Ho ->%list_elem_of_singleton. apply q_dom0 in Ho as [? ?]. congruence.
  - intros Ht. destruct (q_text0 Ht) as (i & ? & Hi). exists i. split; [done|]. by apply lookup_app_l_Some.
  - intros Ht. destruct (q_no_text0 Ht). split; [|done]. by intros [?|[=]%list_elem_of_singleton]%elem_of_app.
  - intros id' state [[<- <-]|[Hne Hid']]%lookup_insert_Some.
    + split; [done|]. exists (length slots). split; [done|]. apply lookup_snoc_Some. by right.
    + destruct (q_call0 _ _ Hid') as (? & i & ? & Hi). split; [done|]. exists i.
      split; [done|]. by apply lookup_app_l_Some.
  - intros id' [Hin|[= ->]%list_elem_of_singleton]%elem_of_app; [|by rewrite lookup_insert_eq].
    destruct (decide (id = id')) as [->|?]; [by rewrite lookup_insert_eq|rewrite lookup_insert_ne by done; auto].
  - by rewrite omap_app, q_order0.
  - done.
  - by rewrite fmap_insert, q_ct_arguments0.
Qed.

(** A call that has a place is updated, identity and place kept. *)
Lemma places_call e slots ct id state state' d :
  places e slots ct → re_toolCalls e !! id = Some state →
  rt_CallID state' = id → rt_OutputIndex state' = rt_OutputIndex state →
  rt_Arguments state' = rt_Arguments state +:+ d →
  places (re_set_tools (re_nextOutputIdx e) (<[id := state']> (re_toolCalls e)) (re_toolCallOrder e) e) slots
    (mkContent (ct_text ct) (ct_thinking ct) (<[id := rt_Arguments state +:+ d]> (ct_arguments ct))).
Proof.
  intros [] Hid Hc Hi Ha. constructor; cbn; try done.
  - intros id' st [[<- <-]|[Hne Hid']]%lookup_insert_Some; [|by apply q_call0].
    destruct (q_call0 id state Hid) as (? & i & ? & ?). split; [done|]. exists i. by rewrite Hi.
  - intros id' Hin. destruct (decide (id = id')) as [->|?]; [by rewrite lookup_insert_eq|].
    rewrite lookup_insert_ne by done. by apply q_dom0.
  - by rewrite fmap_insert, q_ct_arguments0, Ha.
Qed.

(** The place of a call. *)
Lemma call_place e slots ct id state :
  places e slots ct → re_toolCalls e !! id = Some state →
  rt_CallID state = id ∧ ∃ i : nat, rt_OutputIndex state = Z.of_nat i ∧ slots !! i = Some (OCall id).
Proof. intros Hp. apply (q_call _ _ _ Hp). Qed.

Lemma shown_put cl e next id state order o :
  o ≠ OCall id → shown cl (re_set_tools next (<[id := state]> (re_toolCalls e)) order e) o = shown cl e o.
Proof. destruct o as [|id']; [done|]. intros Hne. cbn. by rewrite lookup_insert_ne by congruence. Qed.

Lemma shown_put_eq cl e next id state order :
  shown cl (re_set_tools next (<[id := state]> (re_toolCalls e)) order e) (OCall id)
  = if rt_Added state then Some (shownCall (cl (OCall id)) state) else None.
Proof. cbn. by rewrite lookup_insert_eq. Qed.

(** What [readItem] makes of the items the encoder shows. *)
Lemma readItem_call state arguments input (done : bool) :
  readItem (as_map (callItem CustomTools ResponseTools state (if done then "completed" else "in_progress")
                      arguments input)) done
  = Some (mkOutput (rt_ItemID state) (kindOf (rt_Name state)) (rt_CallID state)
            (responseToolName ResponseTools (rt_Name state))
            (if isCustomTool CustomTools (rt_Name state) then input else arguments) false done).
Proof.
  unfold callItem, kindOf. destruct (responseToolName ResponseTools (rt_Name state)) as [name namespace].
  destruct (isCustomTool CustomTools (rt_Name state)), done;
    (destruct (bool_decide (namespace = "")) eqn:E; [apply bool_decide_eq_true in E as ->|]); reflexivity.
Qed.

Lemma readItem_completed state :
  readItem (as_map (completedCallItem CustomTools ResponseTools parse marshal state)) true
  = Some (shownCall true state).
Proof. unfold completedCallItem. rewrite (readItem_call state _ _ true). done. Qed.

Lemma readItem_message e :
  readItem (as_map (messageItem e "completed" [outputText (re_textBuffer e)])) true = Some (shownText false true e).
Proof. reflexivity. Qed.
End relation.

(** ** Every event keeps the client in step *)

Definition reads {E} (s : io E) : option (Z * reader) := reader_run (0, RNew) (frames s).

Definition reader_failed {E} (reason : string) (s : io E) : Prop := is_Some (reads s) ∧ gave_up s.

Lemma reader_failed_encoded {E} e (s : io E) : reader_failed e s → reader_failed e (encode_failed s).
Proof. intros [Ha Hw]. split; [done|by apply gave_up_encoded]. Qed.

Lemma reader_run_snoc c l fr : reader_run c (l ++ [fr]) = c' ← reader_run c l; reader_step c' fr.
Proof.
  revert c. induction l as [|x l IH]; intros c; cbn; [by destruct (reader_step c fr)|].
  destruct (reader_step c x); [apply IH|done].
Qed.

(** What a frame's payload says of its type and its number. *)
Lemma header_type event n rest :
  map_get rest "type" = None → map_index ([("type", AString event); ("sequence_number", AInt n)] ++ rest) "type" = AString event.
Proof. unfold map_index. intros H. cbn. by rewrite H. Qed.

Lemma header_number event n rest :
  map_get rest "sequence_number" = None →
  map_index ([("type", AString event); ("sequence_number", AInt n)] ++ rest) "sequence_number" = AInt n.
Proof. unfold map_index. intros H. cbn. by rewrite H. Qed.

(** The events about one item. *)
Lemma read_on type f m items (i : nat) it it' :
  itemEvent type = Some f →
  map_index m "output_index" = AInt (Z.of_nat i) → items !! i = Some it →
  text_of (map_index m "item_id") = oi_id it → oi_done it = false → f m it = Some it' →
  readEvent type m items = Some (RStreaming (<[i := it']> items)).
Proof.
  intros Htype Hi Hit Hid Hdone Hf. unfold readEvent. cbv zeta.
  rewrite !bool_decide_eq_false_2 by (intros ->; vm_compute in Htype; discriminate Htype).
  rewrite Htype. unfold on_item, item_at, index_of.
  rewrite Hi, (proj2 (Z.leb_le 0 (Z.of_nat i))), Nat2Z.id by lia. cbn. rewrite Hit. cbn.
  by rewrite Hid, bool_decide_eq_true_2, Hdone by done; cbn; rewrite Hf.
Qed.

Lemma read_added m items (i : nat) it :
  map_index m "output_index" = AInt (Z.of_nat i) → items !! i = None →
  readItem (as_map (map_index m "item")) false = Some it → oi_text it = "" →
  readEvent "response.output_item.added" m items = Some (RStreaming (<[i := it]> items)).
Proof.
  intros Hi Hit Hr Ht. change (readEvent _ m items) with
    (i ← index_of m; it ← readItem (as_map (map_index m "item")) false;
     if bool_decide (items !! i = None) && bool_decide (oi_text it = "")
     then Some (RStreaming (<[i := it]> items)) else None).
  unfold index_of. rewrite Hi, (proj2 (Z.leb_le 0 (Z.of_nat i))), Nat2Z.id by lia. cbn. rewrite Hr. cbn.
  by rewrite Hit, Ht.
Qed.

Lemma read_item_done m items (i : nat) it :
  map_index m "output_index" = AInt (Z.of_nat i) → items !! i = Some it → oi_done it = false →
  readItem (as_map (map_index m "item")) true = Some (set_item_done it) →
  readEvent "response.output_item.done" m items = Some (RStreaming (<[i := set_item_done it]> items)).
Proof.
  intros Hi Hit Hd Hr. change (readEvent _ m items) with
    (i ← index_of m; it ← items !! i; shown ← readItem (as_map (map_index m "item")) true;
     if negb (oi_done it) && bool_decide (shown = set_item_done it)
     then Some (RStreaming (<[i := set_item_done it]> items)) else None).
  unfold index_of. rewrite Hi, (proj2 (Z.leb_le 0 (Z.of_nat i))), Nat2Z.id by lia. cbn. rewrite Hit. cbn. rewrite Hr. cbn.
  by rewrite Hd, bool_decide_eq_true_2.
Qed.

(** A type the client does not know. *)
Lemma read_unknown type m items : type ∉ knownTypes → readEvent type m items = Some (RStreaming items).
Proof.
  intros Hn. unfold readEvent, itemEvent, itemEvents. cbv zeta beta. cbn [List.find fst].
  repeat match goal with
  | |- context [bool_decide (type = ?t)] =>
      rewrite (bool_decide_eq_false_2 (type = t)) by (intros ->; apply Hn; unfold knownTypes; set_solver)
  | |- context [bool_decide (?t = type)] =>
      rewrite (bool_decide_eq_false_2 (t = type)) by (intros <-; apply Hn; unfold knownTypes; set_solver)
  end. done.
Qed.

Section specs.
Context (spec candidateSpec : resolvedProtocolSpec) (siteType : string) (requireUsage : bool)
        (CustomTools : gset string) (ResponseTools : gmap string responsesToolIdentity)
        (valid : string → bool) (parse : string → option any) (marshal : any → string) (newUUID : string)
        (order : list (string * any) → list (string * any)).
(** The names of the registry are those of the API. *)
Definition standardNames : Prop :=
  protocolEventName spec TextDelta "response.output_text.delta" = "response.output_text.delta"
  ∧ protocolEventName spec ToolCallDelta "response.function_call_arguments.delta"
    = "response.function_call_arguments.delta"
  ∧ protocolEventName spec AnnotationAdded "response.output_text.annotation.added"
    = "response.output_text.annotation.added"
  ∧ protocolEventName spec Completed "response.completed" = "response.completed"
  ∧ protocolEventName spec Incomplete "response.incomplete" = "response.incomplete".
Hypothesis Hnames : standardNames.
Implicit Types (s : io openAIResponsesStreamEncoder) (slots : list owner) (items : gmap nat outputItem)
  (Q : unit → io openAIResponsesStreamEncoder → Prop).

(** A frame the client accepts. *)
Lemma send_spec event rest s r r' Q :
  reads s = Some (re_sequence (io_enc s), r) →
  map_get (rest (re_next (io_enc s))) "type" = None →
  map_get (rest (re_next (io_enc s))) "sequence_number" = None →
  readerNext r event ([("type", AString event); ("sequence_number", AInt (re_sequence (io_enc s) + 1))]
                      ++ rest (re_next (io_enc s))) = Some r' →
  (∀ s', io_enc s' = re_next (io_enc s) → io_capture s' = io_capture s →
         reads s' = Some (re_sequence (io_enc s'), r') → Q tt s') →
  wp reader_failed (sendEvent event rest) s Q.
Proof.
  intros Hc Ht Hn Hstep HQ. unfold sendEvent. repeat wp_step. apply wp_write.
  - intros Hroom. split; [by eexists|by left].
  - intros room. apply HQ; [done..|]. unfold reads, frames in *. cbn [io_enc io_writer w_frames].
    rewrite reader_run_snoc, Hc. unfold mbind, option_bind, reader_step.
    rewrite header_type, header_number by done. cbn [fst snd re_sequence re_next re_set_progress text_of rawStringFromAny].
    by rewrite !bool_decide_eq_true_2, Hstep by done.
Qed.

Record Inv (cl : owner → bool) (id : string) s slots items ct : Prop := mkInv {
  n_places : places (io_enc s) slots ct;
  n_shown : displays CustomTools ResponseTools parse marshal cl (io_enc s) slots items;
  n_running : re_completed (io_enc s) = false;
  n_reads : reads s = Some (re_sequence (io_enc s),
    if re_responseSent (io_enc s) then RStreaming items else RNew);
  n_fresh : re_responseSent (io_enc s) = false → slots = [];
  n_id : re_responseID (io_enc s) = id
}.

Lemma Inv_any_capture cl id s slots items ct f :
  Inv cl id s slots items ct → Inv cl id (mkIO (io_enc s) (f (io_capture s)) (io_writer s)) slots items ct.
Proof. by intros []. Qed.

(** The client is at the same point, and the encoder has counted on. *)
Lemma Inv_next cl id s s' slots items ct :
  Inv cl id s slots items ct → re_responseSent (io_enc s) = true → io_enc s' = re_next (io_enc s) →
  reads s' = Some (re_sequence (io_enc s'), RStreaming items) → Inv cl id s' slots items ct.
Proof.
  intros [] Hs He Hr. constructor; rewrite ?He; cbn; try done.
  - by apply places_progress.
  - by rewrite Hr, He, Hs.
Qed.

Lemma response_start_spec cl id s slots items ct Q :
  Inv cl id s slots items ct →
  (∀ s' items', Inv cl id s' slots items' ct → re_responseSent (io_enc s') = true →
                re_toolCalls (io_enc s') = re_toolCalls (io_enc s) →
                re_textStarted (io_enc s') = re_textStarted (io_enc s) → Q tt s') →
  wp reader_failed (sendResponseStartIfNeeded CustomTools ResponseTools parse marshal) s Q.
Proof.
  intros Hinv HQ. unfold sendResponseStartIfNeeded. repeat wp_step.
  destruct (re_responseSent (io_enc s)) eqn:Es; [by eapply HQ|]. repeat wp_step.
  destruct Hinv as [Hp Hsh Hrun Hr Hf Hid]. rewrite Es in Hr. specialize (Hf Es) as ->.
  eapply send_spec; [exact Hr|done|done|reflexivity|]. intros s1 He1 Hc1 Hr1. apply wp_bind.
  eapply send_spec; [exact Hr1|done|done|reflexivity|]. intros s2 He2 Hc2 Hr2. apply wp_modify.
  apply (HQ _ ∅); cbn; [|done|by rewrite He2, He1..]. constructor; cbn; rewrite ?He2, ?He1; cbn; try done.
  - by apply places_progress, places_progress, places_progress.
  - change (reads s2 = Some (re_sequence (re_next (re_next (io_enc s))), RStreaming ∅)). by rewrite Hr2, He2, He1.
Qed.

(** A place that changes while the client follows. *)
Lemma Inv_update cl id s s' slots items ct ct' i o it :
  Inv cl id s slots items ct → re_responseSent (io_enc s') = true → re_completed (io_enc s') = false →
  re_responseID (io_enc s') = id → places (io_enc s') slots ct' → slots !! i = Some o →
  (∀ o', o' ≠ o → shown CustomTools ResponseTools parse marshal cl (io_enc s') o'
                  = shown CustomTools ResponseTools parse marshal cl (io_enc s) o') →
  shown CustomTools ResponseTools parse marshal cl (io_enc s') o = Some it →
  reads s' = Some (re_sequence (io_enc s'), RStreaming (<[i := it]> items)) →
  Inv cl id s' slots (<[i := it]> items) ct'.
Proof.
  intros [] Hs Hrun Hid Hp Hi Hother Ho Hr. constructor; try done.
  - eapply displays_update; [exact n_shown0|apply Hp|exact Hi|exact Hother|exact Ho].
  - by rewrite Hr, Hs.
  - by rewrite Hs.
Qed.

(** The next place is free. *)
Lemma next_place_free cl id s slots items ct : Inv cl id s slots items ct → items !! length slots = None.
Proof. intros []. by rewrite n_shown0, lookup_ge_None_2. Qed.

Lemma text_start_spec id s slots items ct Q :
  Inv nothing_done id s slots items ct →
  (∀ s' slots' items', Inv nothing_done id s' slots' items' ct → re_textStarted (io_enc s') = true →
     re_responseSent (io_enc s') = true → Q tt s') →
  wp reader_failed (sendTextStartIfNeeded CustomTools ResponseTools parse marshal) s Q.
Proof.
  intros Hinv HQ. unfold sendTextStartIfNeeded. repeat wp_step.
  destruct (re_textStarted (io_enc s)) eqn:Et.
  { apply wp_ret. eapply HQ; [exact Hinv|done|]. destruct (re_responseSent (io_enc s)) eqn:Es; [done|].
    destruct (q_text _ _ _ (n_places _ _ _ _ _ _ Hinv) Et) as (i & _ & Hi).
    by rewrite (n_fresh _ _ _ _ _ _ Hinv Es) in Hi. }
  apply wp_bind, (response_start_spec nothing_done id s slots items ct); [done|].
  intros s' items' Hinv' Hs _ Et'. rewrite Et in Et'. clear s items Hinv Et.
  rename s' into s, items' into items, Hinv' into Hinv, Et' into Et. repeat wp_step.
  pose proof (next_place_free _ _ _ _ _ _ Hinv) as Hfree. destruct Hinv as [Hp Hsh Hrun Hr Hf Hid].
  rewrite Hs in Hr. pose proof (q_next _ _ _ Hp) as Hnext. destruct (q_no_text _ _ _ Hp Et) as [Hnot Hbuf].
  eapply send_spec; [exact Hr|done|done| |].
  { cbn [readerNext]. erewrite (read_added _ _ (length slots) (shownText false false (io_enc s)));
      [reflexivity|cbn; by rewrite Hnext|exact Hfree|unfold shownText; rewrite Hbuf; reflexivity|exact Hbuf]. }
  intros s1 He1 _ Hr1. apply wp_bind. cbn in He1.
  eapply send_spec; [exact Hr1|done|done| |].
  { cbn [readerNext]. erewrite (read_on _ _ _ _ (length slots)); [reflexivity|reflexivity|..];
      [by rewrite He1; cbn; rewrite Hnext|by rewrite lookup_insert_eq|by rewrite He1|done|done]. }
  intros s2 He2 _ Hr2. repeat wp_step. rewrite insert_insert_eq in Hr2.
  eapply (HQ _ (slots ++ [OText])); cbn; [|done|by rewrite He2, He1]. constructor; cbn; rewrite ?He2, ?He1; cbn; try done.
  - by destruct (places_open_text _ _ _ Hp Et).
  - eapply displays_push; [exact Hsh| |done]. intros [|o] Ho; [by destruct (Hnot Ho)|done].
  - transitivity (reads s2); [done|]. by rewrite Hr2, He2, He1; cbn; rewrite Hs.
  - by rewrite Hs.
Qed.

Lemma output_text_spec id s slots items ct delta Q :
  Inv nothing_done id s slots items ct →
  (∀ s' slots' items', Inv nothing_done id s' slots' items'
     (mkContent (ct_text ct +:+ delta) (ct_thinking ct) (ct_arguments ct)) → Q tt s') →
  wp reader_failed (sendOutputText spec CustomTools ResponseTools parse marshal delta) s Q.
Proof.
  intros Hinv HQ. unfold sendOutputText. case_bool_decide as Hd.
  { apply wp_ret. apply (HQ s slots items). subst. rewrite append_nil_r. by destruct ct. }
  apply wp_bind, (text_start_spec id s slots items ct); [done|]. clear s slots items Hinv.
  intros s slots items Hinv Ht Hs. repeat wp_step. destruct Hnames as (Hname & _). rewrite Hname.
  pose proof Hinv as [Hp Hsh Hrun Hr Hf Hid]. rewrite Hs in Hr.
  destruct (q_text _ _ _ Hp Ht) as (i & Hix & Hi).
  assert (items !! i = Some (shownText true false (io_enc s))) as Hit.
  { eapply displays_at; [exact Hsh|exact Hi|]. cbn. by rewrite Ht. }
  eapply send_spec; [exact Hr|done|done| |].
  { cbn [readerNext]. erewrite (read_on _ _ _ _ i); [reflexivity|reflexivity|cbn; by rewrite Hix|exact Hit|done..]. }
  intros s' He _ Hr'. cbn in He. eapply HQ, Inv_update; [exact Hinv|rewrite He; done..| |exact Hi| | |exact Hr'].
  - rewrite He. rewrite Ht. by destruct (places_text _ _ _ delta Hp Ht).
  - intros [|o] Ho; [done|]. by rewrite He.
  - rewrite He. cbn. by rewrite Ht.
Qed.

Lemma annotation_spec id s slots items ct event Q :
  Inv nothing_done id s slots items ct →
  (∀ s' slots' items', Inv nothing_done id s' slots' items' ct → Q tt s') →
  wp reader_failed (sendAnnotation spec siteType CustomTools ResponseTools parse marshal event) s Q.
Proof.
  intros Hinv HQ. unfold sendAnnotation, when. repeat wp_step.
  set (s1 := mkIO _ _ _). assert (Inv nothing_done id s1 slots items ct) as Hinv1 by by apply Inv_any_capture.
  clearbody s1. clear s Hinv. destruct (isGrokSite siteType); [|by eapply wp_ret, HQ].
  apply wp_bind, (text_start_spec id s1 slots items ct); [done|]. clear s1 slots items Hinv1.
  intros s slots items Hinv Ht Hs. repeat wp_step. destruct Hnames as (_ & _ & Hname & _). rewrite Hname.
  pose proof Hinv as [Hp Hsh Hrun Hr Hf Hid]. rewrite Hs in Hr.
  destruct (q_text _ _ _ Hp Ht) as (i & Hix & Hi).
  assert (items !! i = Some (shownText true false (io_enc s))) as Hit.
  { eapply displays_at; [exact Hsh|exact Hi|]. cbn. by rewrite Ht. }
  eapply send_spec; [exact Hr|done|done| |].
  { cbn [readerNext]. erewrite (read_on _ _ _ _ i); [reflexivity|reflexivity|cbn; by rewrite Hix|exact Hit|done..]. }
  intros s' He _ Hr'. rewrite insert_id in Hr' by done. eapply HQ, Inv_next; done.
Qed.

(** A delta of the arguments of a function call. *)
Lemma arguments_spec s items state (i : nat) it delta Q :
  reads s = Some (re_sequence (io_enc s), RStreaming items) → items !! i = Some it →
  rt_OutputIndex state = Z.of_nat i → rt_ItemID state = oi_id it →
  of_kind IFunction false it = true → oi_done it = false →
  (∀ s', io_enc s' = re_next (io_enc s) →
     reads s' = Some (re_sequence (io_enc s'), RStreaming (<[i := grow delta it]> items)) → Q tt s') →
  wp reader_failed (sendArgumentsDelta spec state delta) s Q.
Proof.
  intros Hr Hit Hix Hid Hk Hdone HQ. unfold sendArgumentsDelta. destruct Hnames as (_ & Hname & _). rewrite Hname.
  eapply send_spec; [exact Hr|done|done| |].
  { cbn [readerNext]. erewrite (read_on _ _ _ _ i); [reflexivity|reflexivity|cbn; by rewrite Hix|exact Hit|exact Hid|exact Hdone|].
    cbn [snd]. rewrite Hk. reflexivity. }
  intros s' He _ Hr'. by apply HQ.
Qed.

Lemma places_call_same e slots ct cid state state' :
  places e slots ct → re_toolCalls e !! cid = Some state →
  rt_CallID state' = cid → rt_OutputIndex state' = rt_OutputIndex state → rt_Arguments state' = rt_Arguments state →
  places (re_set_tools (re_nextOutputIdx e) (<[cid := state']> (re_toolCalls e)) (re_toolCallOrder e) e) slots ct.
Proof.
  intros Hp Hc H1 H2 H3. pose proof (places_call e slots ct cid state state' "" Hp Hc H1 H2) as H.
  rewrite append_nil_r in H. specialize (H H3). destruct ct as [text thinking args]. cbn in H.
  rewrite (insert_id args) in H; [exact H|]. pose proof (q_ct_arguments _ _ _ Hp) as Ha. cbn in Ha. by rewrite Ha, lookup_fmap, Hc.
Qed.

(** The place of a call that is not shown is empty for the client. *)
Lemma hidden_call cl id s slots items ct cid state :
  Inv cl id s slots items ct → re_toolCalls (io_enc s) !! cid = Some state →
  rt_CallID state = cid ∧ ∃ i : nat, rt_OutputIndex state = Z.of_nat i ∧ slots !! i = Some (OCall cid)
    ∧ items !! i = if rt_Added state
                   then Some (shownCall CustomTools ResponseTools parse marshal (cl (OCall cid)) state) else None.
Proof.
  intros [Hp Hsh _ _ _ _] Hc. destruct (q_call _ _ _ Hp _ _ Hc) as (? & i & ? & Hi). split; [done|].
  exists i. split_and!; [done|done|]. rewrite Hsh, Hi. cbn. by rewrite Hc.
Qed.

Lemma add_spec cl id s slots items ct cid state Q :
  Inv cl id s slots items ct → re_responseSent (io_enc s) = true → cl (OCall cid) = false →
  re_toolCalls (io_enc s) !! cid = Some state → rt_Added state = false →
  (∀ s' items' state', Inv cl id s' slots items' ct → re_responseSent (io_enc s') = true →
     re_toolCalls (io_enc s') !! cid = Some state' → rt_Added state' = true →
     (∀ j, is_Some (items !! j) → is_Some (items' !! j)) → Q tt s') →
  wp reader_failed (addToolCallState spec CustomTools ResponseTools newUUID state) s Q.
Proof.
  intros Hinv Hs Hcl Hc Ha HQ. destruct (hidden_call _ _ _ _ _ _ _ _ Hinv Hc) as (Hcall & i & Hix & Hi & Hfree).
  rewrite Ha in Hfree. pose proof Hinv as [Hp Hsh Hrun Hr Hf Hid]. rewrite Hs in Hr.
  unfold addToolCallState. cbv zeta. set (itemID := responsesItemIDForType _ _ _ _). unfold re_putCall.
  cbn [rt_CallID rt_OutputIndex rt_ItemID rt_Name rt_Arguments rt_Added]. repeat wp_step. rewrite Hcall.
  set (st := mkResponsesCall cid itemID (rt_Name state) (rt_Arguments state) (rt_OutputIndex state) true).
  set (it0 := mkOutput itemID (kindOf CustomTools (rt_Name state)) cid
                (responseToolName ResponseTools (rt_Name state)) "" false false).
  eapply send_spec; [exact Hr|done|done| |].
  { cbn [readerNext]. erewrite (read_added _ _ i it0); [reflexivity|cbn; by rewrite Hix|exact Hfree| |done].
    etransitivity; [eapply (readItem_call _ _ _ _ _ false)|]. by destruct (isCustomTool _ _). }
  intros s1 He1 _ Hr1. repeat wp_step. cbn in He1.
  assert (∀ s' (text : string), io_enc s' = re_set_tools (re_nextOutputIdx (io_enc s))
      (<[cid := st]> (re_toolCalls (io_enc s))) (re_toolCallOrder (io_enc s))
      (re_set_progress (re_responseSent (io_enc s)) (re_completed (io_enc s)) (re_sequence (io_enc s')) (io_enc s)) →
    reads s' = Some (re_sequence (io_enc s'), RStreaming
      (<[i := shownCall CustomTools ResponseTools parse marshal false st]> items)) → Q tt s') as Hend.
  { intros s' _ He Hr'. eapply (HQ s' _ st); [|by rewrite He|by rewrite He; cbn; rewrite lookup_insert_eq|done|intros j Hj; by apply lookup_insert_is_Some'; right].
    eapply Inv_update; [exact Hinv|by rewrite He..| |exact Hi| | |exact Hr'].
    - rewrite He. by destruct (places_call_same _ _ _ _ _ st Hp Hc).
    - intros o Ho. rewrite He. destruct o as [|cid']; [done|]. cbn. by rewrite lookup_insert_ne by congruence.
    - rewrite He. cbn. rewrite lookup_insert_eq. cbn. by rewrite Hcl. }
  destruct (bool_decide (rt_Arguments state = "") || isCustomTool CustomTools (rt_Name state)) eqn:Eq.
  - apply wp_ret, Hend; [exact ""|cbn; by rewrite He1; cbn; rewrite insert_insert_eq|].
    transitivity (reads s1); [done|]. rewrite Hr1. cbn. do 4 f_equal. unfold shownCall, it0. cbn.
    apply orb_true_iff in Eq as [->%bool_decide_eq_true| ->]; [|done]. by destruct (isCustomTool _ _).
  - apply orb_false_iff in Eq as [Hne%bool_decide_eq_false Hfun].
    eapply (arguments_spec _ (<[i := it0]> items) _ i it0); [exact Hr1|by rewrite lookup_insert_eq|exact Hix|done| |done|].
    { unfold of_kind, it0, kindOf. cbn. by rewrite Hfun. }
    intros s2 He2 Hr2. rewrite insert_insert_eq in Hr2. apply Hend; [exact ""| |].
    + rewrite He2. cbn. rewrite He1. cbn. by rewrite insert_insert_eq.
    + rewrite Hr2. do 4 f_equal. unfold shownCall, grow, it0. cbn. by rewrite Hfun.
Qed.

(** A call begins, or goes on. *)
Lemma call_state_spec id s slots items ct cid (Q : responsesStreamToolCallState → io openAIResponsesStreamEncoder → Prop) :
  Inv nothing_done id s slots items ct → re_responseSent (io_enc s) = true →
  (∀ s' slots' ct' state, Inv nothing_done id s' slots' items ct' → re_responseSent (io_enc s') = true →
     re_toolCalls (io_enc s') !! cid = Some state →
     (∀ d, mkContent (ct_text ct') (ct_thinking ct') (<[cid := rt_Arguments state +:+ d]> (ct_arguments ct'))
           = mkContent (ct_text ct) (ct_thinking ct)
               (<[cid := default "" (ct_arguments ct !! cid) +:+ d]> (ct_arguments ct))) →
     Q state s') →
  wp reader_failed (responsesCallState cid) s Q.
Proof.
  intros Hinv Hs HQ. unfold responsesCallState. repeat wp_step. pose proof Hinv as [Hp Hsh Hrun Hr Hf Hid].
  destruct (re_toolCalls (io_enc s) !! cid) as [state|] eqn:Hc.
  - apply wp_ret. eapply HQ; [exact Hinv|done|exact Hc|]. intros d.
    by rewrite (q_ct_arguments _ _ _ Hp), lookup_fmap, Hc.
  - repeat wp_step. eapply (HQ _ (slots ++ [OCall cid])); [|exact Hs|by cbn; rewrite lookup_insert_eq|].
    + constructor; cbn; [by apply places_open_call| |done|exact Hr|by rewrite Hs|done].
      eapply displays_snoc; [exact Hsh| |by cbn; rewrite lookup_insert_eq].
      intros [|cid'] Ho; [done|]. cbn. rewrite lookup_insert_ne; [done|]. intros ->.
      destruct (q_dom _ _ _ Hp _ Ho). congruence.
    + intros d. cbn. rewrite insert_insert_eq, (q_ct_arguments _ _ _ Hp), lookup_fmap, Hc. done.
Qed.

(** A delta for a call that is not shown: shown with the rest once the name is there. *)
Lemma hidden_spec id s slots items ct cid state state' d Q :
  Inv nothing_done id s slots items ct → re_responseSent (io_enc s) = true →
  re_toolCalls (io_enc s) !! cid = Some state → rt_Added state = false →
  rt_CallID state' = cid → rt_OutputIndex state' = rt_OutputIndex state → rt_Added state' = false →
  rt_Arguments state' = rt_Arguments state +:+ d →
  (∀ s' slots' items', Inv nothing_done id s' slots' items'
     (mkContent (ct_text ct) (ct_thinking ct) (<[cid := rt_Arguments state +:+ d]> (ct_arguments ct))) → Q tt s') →
  wp reader_failed (bind (re_putCall state') (λ _,
    if bool_decide (rt_Name state' = "") then ret tt
    else addToolCallState spec CustomTools ResponseTools newUUID state')) s Q.
Proof.
  intros Hinv Hs Hc Ha H1 H2 H3 H4 HQ. unfold re_putCall. repeat wp_step. rewrite H1. set (s1 := mkIO _ _ _).
  assert (Inv nothing_done id s1 slots items
    (mkContent (ct_text ct) (ct_thinking ct) (<[cid := rt_Arguments state +:+ d]> (ct_arguments ct)))) as Hinv1.
  { destruct Hinv as [Hp Hsh Hrun Hr Hf Hid]. constructor; cbn; try done; [by eapply places_call|].
    eapply displays_same; [exact Hsh|]. intros [|cid'] _; [done|]. cbn.
    destruct (decide (cid = cid')) as [<-|?]; [by rewrite lookup_insert_eq, Hc; cbn; rewrite H3, Ha|].
    by rewrite lookup_insert_ne. }
  case_bool_decide as Hn; [by eapply wp_ret, HQ|].
  eapply (add_spec nothing_done id s1 slots items _ cid state'); [exact Hinv1|exact Hs|done|by cbn; rewrite lookup_insert_eq|done|].
  intros s' items' _ Hinv' _ _ _ _. by eapply HQ.
Qed.

(** A delta for a call that is shown; of a custom tool's input nothing is shown yet. *)
Lemma shown_spec id s slots items ct cid state d Q :
  Inv nothing_done id s slots items ct → re_responseSent (io_enc s) = true →
  re_toolCalls (io_enc s) !! cid = Some state → rt_Added state = true →
  let state' := mkResponsesCall (rt_CallID state) (rt_ItemID state) (rt_Name state) (rt_Arguments state +:+ d)
                  (rt_OutputIndex state) (rt_Added state) in
  (∀ s' slots' items', Inv nothing_done id s' slots' items'
     (mkContent (ct_text ct) (ct_thinking ct) (<[cid := rt_Arguments state +:+ d]> (ct_arguments ct))) → Q tt s') →
  wp reader_failed (bind (re_putCall state') (λ _,
    if bool_decide (d = "") || isCustomTool CustomTools (rt_Name state) then ret tt
    else sendArgumentsDelta spec state d)) s Q.
Proof.
  intros Hinv Hs Hc Ha state' HQ. destruct (hidden_call _ _ _ _ _ _ _ _ Hinv Hc) as (Hcall & i & Hix & Hi & Hit).
  rewrite Ha in Hit. pose proof Hinv as [Hp Hsh Hrun Hr Hf Hid]. rewrite Hs in Hr.
  unfold re_putCall. repeat wp_step. cbn [rt_CallID state']. rewrite Hcall.
  assert (∀ s', io_enc s' = re_set_progress (re_responseSent (io_enc s)) (re_completed (io_enc s)) (re_sequence (io_enc s'))
      (re_set_tools (re_nextOutputIdx (io_enc s)) (<[cid := state']> (re_toolCalls (io_enc s)))
         (re_toolCallOrder (io_enc s)) (io_enc s)) →
    reads s' = Some (re_sequence (io_enc s'), RStreaming
      (<[i := shownCall CustomTools ResponseTools parse marshal false state']> items)) → Q tt s') as Hend.
  { intros s' He Hr'. eapply HQ, Inv_update; [exact Hinv|by rewrite He..| |exact Hi| | |exact Hr'].
    - rewrite He. apply places_progress. by eapply places_call.
    - intros o Ho. rewrite He. destruct o as [|cid']; [done|]. cbn. by rewrite lookup_insert_ne by congruence.
    - rewrite He. cbn. rewrite lookup_insert_eq. cbn. by rewrite Ha. }
  destruct (bool_decide (d = "") || isCustomTool CustomTools (rt_Name state)) eqn:Eq.
  - apply wp_ret, Hend; [done|]. transitivity (reads s); [done|]. rewrite Hr. cbn. do 3 f_equal.
    symmetry. apply insert_id. rewrite Hit. f_equal. unfold shownCall, state'. cbn. f_equal.
    apply orb_true_iff in Eq as [->%bool_decide_eq_true| ->]; [by rewrite append_nil_r|done].
  - apply orb_false_iff in Eq as [_ Hfun].
    eapply (arguments_spec _ items _ i _); [exact Hr|exact Hit|exact Hix|done| |done|].
    { unfold of_kind, shownCall, kindOf. cbn. by rewrite Hfun. }
    intros s2 He2 Hr2. apply Hend; [by rewrite He2|]. rewrite Hr2. do 4 f_equal.
    unfold shownCall, grow, state'. cbn. by rewrite Hfun.
Qed.

Lemma tool_call_spec id s slots items ct event Q :
  ev_Type event = ToolCallDelta → Inv nothing_done id s slots items ct →
  (∀ s' slots' items', Inv nothing_done id s' slots' items' (add_event candidateSpec ct event) → Q tt s') →
  wp reader_failed (re_sendToolCallDelta spec CustomTools ResponseTools parse marshal newUUID event) s Q.
Proof.
  unfold add_event, re_sendToolCallDelta. intros -> Hinv. set (cid := TrimSpace _).
  set (d := ev_ToolCallArgumentsDelta _). intros HQ. case_bool_decide as Hcid; [by eapply wp_ret, HQ|].
  apply wp_bind, (response_start_spec nothing_done id s slots items ct); [done|].
  intros s' items' Hinv' Hs _ _. clear s items Hinv. rename s' into s, items' into items, Hinv' into Hinv.
  apply wp_bind, (call_state_spec id s slots items ct cid); [done..|].
  clear s Hinv Hs. intros s slots' ct' state Hinv Hs Hc Hct. cbv zeta.
  destruct (hidden_call _ _ _ _ _ _ _ _ Hinv Hc) as (Hcall & _).
  destruct (rt_Added state) eqn:Ha.
  - rewrite <- Ha. eapply shown_spec; [exact Hinv|exact Hs|exact Hc|exact Ha|]. intros s' slots2 items2 Hinv2.
    eapply HQ. rewrite <- Hct. exact Hinv2.
  - eapply hidden_spec; [exact Hinv|exact Hs|exact Hc|exact Ha|exact Hcall|done..|].
    intros s' slots2 items2 Hinv2. eapply HQ. rewrite <- Hct. exact Hinv2.
Qed.

(** [map_set] and the reader's accessors. *)
Lemma map_get_snoc m k v key :
  map_get (m ++ [(k, v)]) key = if bool_decide (k = key) then Some v else map_get m key.
Proof.
  induction m as [|[k' v'] m IH]; cbn; [by destruct (bool_decide _)|]. rewrite IH. by destruct (bool_decide (k = key)).
Qed.

Lemma map_get_filter m k key :
  k ≠ key → map_get (List.filter (λ x : string * any, negb (bool_decide (x.1 = k))) m) key = map_get m key.
Proof.
  intros Hne. induction m as [|[k' v'] m IH]; [done|]. cbn [List.filter fst map_get].
  destruct (bool_decide (k' = k)) eqn:E; cbn [negb].
  - apply bool_decide_eq_true in E as ->. rewrite IH, (bool_decide_eq_false_2 (k = key)) by done.
    by destruct (map_get m key).
  - cbn [map_get]. by rewrite IH.
Qed.

Lemma map_get_set m k v key :
  map_get (map_set m k v) key = if bool_decide (k = key) then Some v else map_get m key.
Proof.
  unfold map_set. rewrite map_get_snoc. case_bool_decide; [done|]. by apply map_get_filter.
Qed.

(** The event passes over the client: its name is none the client acts on, and it has no
    number of its own. *)
Definition passes_over (event : canonicalStreamEvent) : bool :=
  match ev_Type event with
  | ReasoningDelta =>
      let name := TrimSpace (ev_ReasoningEventName (ev_Reasoning event)) in
      let name := if bool_decide (name = "")
                  then protocolEventName spec ReasoningDelta "response.reasoning_delta" else name in
      bool_decide (name ∉ knownTypes)
  | Advanced =>
      bool_decide (TrimSpace (ev_AdvancedEventName (ev_Advanced event)) ∉ knownTypes)
      && bool_decide (map_get (default [] (sanitizeAdvancedMap order (ev_AdvancedPayload (ev_Advanced event))))
                        "sequence_number" = None)
  | _ => true
  end.

Lemma reasoning_event_spec id s slots items ct event Q :
  ev_Type event = ReasoningDelta → passes_over event = true → Inv nothing_done id s slots items ct →
  (∀ s' items', Inv nothing_done id s' slots items' ct → Q tt s') →
  wp reader_failed (re_sendReasoningEvent spec candidateSpec CustomTools ResponseTools parse marshal event) s Q.
Proof.
  unfold passes_over, re_sendReasoningEvent. intros -> Hpass Hinv HQ. destruct (negb _).
  { wp_step. eapply HQ. by apply Inv_any_capture. }
  apply wp_bind, (response_start_spec nothing_done id s slots items ct); [done|]. intros s1 items1 Hinv1 Hs1 _ _.
  cbv zeta in *. set (name := if bool_decide _ then _ else _) in *. apply bool_decide_eq_true in Hpass.
  pose proof (n_reads _ _ _ _ _ _ Hinv1) as Hr. rewrite Hs1 in Hr.
  eapply send_spec; [exact Hr|by destruct (bool_decide (ev_Delta event = ""))..| |].
  { cbn [readerNext]. by apply read_unknown. }
  intros s2 He2 _ Hr2. by eapply HQ, Inv_next.
Qed.

Lemma advanced_event_spec id s slots items ct event Q :
  ev_Type event = Advanced → passes_over event = true → Inv nothing_done id s slots items ct →
  (∀ s' items', Inv nothing_done id s' slots items' ct → Q tt s') →
  wp reader_failed (sendAdvancedEvent CustomTools ResponseTools parse marshal order event) s Q.
Proof.
  unfold passes_over, sendAdvancedEvent. intros -> Hpass Hinv HQ. cbv zeta.
  set (name := TrimSpace _) in *. set (payload := default [] _) in *.
  apply andb_true_iff in Hpass as [Hname%bool_decide_eq_true Hnum%bool_decide_eq_true].
  case_bool_decide as Hn. { wp_step. eapply HQ. by apply Inv_any_capture. }
  apply wp_bind, (response_start_spec nothing_done id s slots items ct); [done|]. intros s1 items1 Hinv1 Hs1 _ _.
  repeat wp_step. pose proof (n_reads _ _ _ _ _ _ Hinv1) as Hr. rewrite Hs1 in Hr.
  rewrite map_get_set, Hnum. cbn [bool_decide decide_rel]. rewrite bool_decide_eq_false_2 by done.
  apply wp_write; [intros Hroom; split; [by eexists|by left]|]. intros room. cbn [io_enc io_capture io_writer].
  eapply HQ, Inv_next; [exact Hinv1|done|done|]. unfold reads, frames in *. cbn [io_writer w_frames].
  rewrite reader_run_snoc, Hr. unfold mbind, option_bind, reader_step, map_index.
  rewrite !map_get_set. rewrite (bool_decide_eq_true_2 ("sequence_number" = "sequence_number")) by done.
  rewrite (bool_decide_eq_false_2 ("sequence_number" = "type")), (bool_decide_eq_true_2 ("type" = "type")) by done.
  cbn [default from_option Datatypes.id fst snd text_of rawStringFromAny].
  rewrite !bool_decide_eq_true_2 by done. cbn [andb readerNext]. by rewrite read_unknown.
Qed.

(** [mergeMeta] *)
Definition re_merged (event : canonicalStreamEvent) s : io openAIResponsesStreamEncoder :=
  (re_mergeMeta event s).2.

Definition keeps_id (id : string) (event : canonicalStreamEvent) : bool :=
  bool_decide (ev_ID (ev_Meta event) = "") || bool_decide (ev_ID (ev_Meta event) = id).

Lemma Inv_merged id s slots items ct event :
  keeps_id id event = true → Inv nothing_done id s slots items ct →
  Inv nothing_done id (re_merged event s) slots items ct.
Proof.
  intros Hk [Hp Hsh Hrun Hr Hf Hid]. unfold keeps_id in Hk.
  assert (re_responseID (io_enc (re_merged event s)) = id) as Hid'.
  { cbn. destruct (bool_decide (ev_ID _ = "")); [done|]. by apply bool_decide_eq_true in Hk. }
  constructor; cbn in *; try done; [by destruct Hp|].
  intros i. rewrite Hsh. destruct (slots !! i) as [[|o]|]; [|done..]. cbn. unfold shownText, messageID. cbn.
  by rewrite Hid', Hid.
Qed.

Lemma encode_event_spec id s slots items ct event Q :
  terminal event = false → passes_over event = true → Inv nothing_done id (re_merged event s) slots items ct →
  (∀ s' slots' items', Inv nothing_done id s' slots' items' (add_event candidateSpec ct event) → Q tt s') →
  wp reader_failed (re_EncodeEvent spec candidateSpec siteType requireUsage CustomTools ResponseTools valid
    parse marshal newUUID order event) s Q.
Proof.
  intros Ht Hpass Hinv HQ. unfold re_EncodeEvent. wp_step. unfold re_mergeMeta at 1. wp_step.
  change (mkIO _ _ _) with (re_merged event s). set (s1 := re_merged event s) in *. clearbody s1. clear s.
  unfold terminal in Ht. unfold add_event in HQ. destruct (ev_Type event) eqn:E; try discriminate Ht.
  - apply (response_start_spec nothing_done id s1 slots items ct); [done|]. intros. by eapply HQ.
  - by apply (output_text_spec id s1 slots items ct).
  - apply (tool_call_spec id s1 slots items ct); [done..|]. unfold add_event. by rewrite E.
  - eapply (reasoning_event_spec id s1 slots items ct); [done..|]. intros s' items' Hinv'.
    destruct (_ && _); [|by eapply HQ]. eapply HQ. destruct Hinv' as [Hp ?????]. constructor; [|done..]. by destruct Hp.
  - eapply (advanced_event_spec id s1 slots items ct); [done..|]. intros. by eapply HQ.
  - eapply (annotation_spec id s1 slots items ct); [done..|]. intros. by eapply HQ.
  - unfold takeUsage, when. destruct (usageCounts _); wp_step; eapply HQ; [by apply Inv_any_capture|done].
Qed.

(** ** The end of the stream *)

Definition closed_in (l : list owner) : owner → bool := λ o, bool_decide (o ∈ l).

Lemma Inv_closing id s slots items ct : Inv nothing_done id s slots items ct → Inv (closed_in []) id s slots items ct.
Proof.
  intros []. by constructor.
Qed.

Lemma shown_closed l o e o' :
  o' ≠ o → shown CustomTools ResponseTools parse marshal (closed_in (o :: l)) e o'
           = shown CustomTools ResponseTools parse marshal (closed_in l) e o'.
Proof.
  intros Hne. assert (closed_in (o :: l) o' = closed_in l o') as H.
  { apply bool_decide_ext. rewrite elem_of_cons. naive_solver. }
  destruct o'; cbn; by rewrite H.
Qed.

Lemma closed_in_head l o : closed_in (o :: l) o = true.
Proof. apply bool_decide_eq_true. by left. Qed.

(** An item is done, and the client has seen it so. *)
Lemma Inv_closed id s s' slots items ct l i o it n :
  Inv (closed_in l) id s slots items ct → re_responseSent (io_enc s) = true →
  io_enc s' = re_set_progress (re_responseSent (io_enc s)) (re_completed (io_enc s)) n (io_enc s) →
  slots !! i = Some o → shown CustomTools ResponseTools parse marshal (closed_in (o :: l)) (io_enc s) o = Some it →
  reads s' = Some (n, RStreaming (<[i := it]> items)) →
  Inv (closed_in (o :: l)) id s' slots (<[i := it]> items) ct.
Proof.
  intros [] Hs He Hi Ho Hr. constructor; rewrite He; cbn; try done.
  - by apply places_progress.
  - eapply displays_update; [exact n_shown0|apply n_places0|exact Hi| |].
    + intros o' Hne. rewrite shown_progress. by apply shown_closed.
    + by rewrite shown_progress.
  - by rewrite Hr, Hs.
Qed.

(** Three events, and the message is done. *)
Lemma text_done_spec id s slots items ct Q :
  Inv (closed_in []) id s slots items ct → re_responseSent (io_enc s) = true → re_textStarted (io_enc s) = true →
  (∀ s' items', Inv (closed_in [OText]) id s' slots items' ct → re_responseSent (io_enc s') = true →
     (∀ j, is_Some (items !! j) → is_Some (items' !! j)) → Q tt s') →
  wp reader_failed (sendTextDone (io_enc s)) s Q.
Proof.
  intros Hinv Hs Ht HQ. pose proof Hinv as [Hp Hsh Hrun Hr Hf Hid]. rewrite Hs in Hr.
  destruct (q_text _ _ _ Hp Ht) as (i & Hix & Hi).
  assert (items !! i = Some (shownText true false (io_enc s))) as Hit.
  { eapply displays_at; [exact Hsh|exact Hi|]. cbn. by rewrite Ht. }
  unfold sendTextDone. cbv zeta. apply wp_bind. eapply send_spec; [exact Hr|done|done| |].
  { cbn [readerNext]. erewrite (read_on _ _ _ _ i); [reflexivity|reflexivity|cbn; by rewrite Hix|exact Hit|done|done|].
    cbn [snd]. rewrite bool_decide_eq_true_2 by done. reflexivity. }
  intros s1 He1 _ Hr1. rewrite insert_id in Hr1 by done. apply wp_bind. eapply send_spec; [exact Hr1|done|done| |].
  { cbn [readerNext]. erewrite (read_on _ _ _ _ i); [reflexivity|reflexivity|cbn; by rewrite Hix|exact Hit|done|done|].
    cbn [snd]. rewrite bool_decide_eq_true_2 by done. reflexivity. }
  intros s2 He2 _ Hr2. eapply send_spec; [exact Hr2|done|done| |].
  { cbn [readerNext]. erewrite (read_item_done _ _ i); [reflexivity|cbn; by rewrite Hix|by rewrite lookup_insert_eq|done|].
    apply (readItem_message (io_enc s)). }
  intros s3 He3 _ Hr3. rewrite insert_insert_eq in Hr3.
  eapply (HQ s3); [|by rewrite He3, He2, He1|intros j Hj; apply lookup_insert_is_Some'; by right].
  eapply (Inv_closed _ s); [exact Hinv|exact Hs|rewrite He3, He2, He1; reflexivity|exact Hi| |].
  { cbn. by rewrite Ht, closed_in_head. }
  by rewrite Hr3, He3, He2, He1.
Qed.

(** The end of a call that is shown. *)
Lemma call_end_spec id s slots items ct l cid state Q :
  Inv (closed_in l) id s slots items ct → re_responseSent (io_enc s) = true → OCall cid ∉ l →
  re_toolCalls (io_enc s) !! cid = Some state → rt_Added state = true →
  let place := [("item_id", AString (rt_ItemID state)); ("output_index", AInt (rt_OutputIndex state))] in
  let input := bridgedCustomToolInputFromArguments parse marshal (rt_Arguments state) in
  (∀ s' items', Inv (closed_in (OCall cid :: l)) id s' slots items' ct → re_responseSent (io_enc s') = true →
     (∀ j, is_Some (items !! j) ∨ slots !! j = Some (OCall cid) → is_Some (items' !! j)) → Q tt s') →
  wp reader_failed (bind (when (isCustomTool CustomTools (rt_Name state))
      (bind (sendEvent "response.custom_tool_call_input.delta" (λ _, place ++ [("delta", AString input)])) (λ _,
         sendEvent "response.custom_tool_call_input.done" (λ _, place ++ [("input", AString input)])))) (λ _,
    sendEvent "response.output_item.done" (λ _,
      [("output_index", AInt (rt_OutputIndex state));
       ("item", completedCallItem CustomTools ResponseTools parse marshal state)]))) s Q.
Proof.
  intros Hinv Hs Hl Hc Ha place input HQ. destruct (hidden_call _ _ _ _ _ _ _ _ Hinv Hc) as (Hcall & i & Hix & Hi & Hit).
  assert (closed_in l (OCall cid) = false) as Hcl by by apply bool_decide_eq_false.
  rewrite Ha, Hcl in Hit. pose proof Hinv as [Hp Hsh Hrun Hr Hf Hid]. rewrite Hs in Hr.
  set (it := set_part false (mkOutput (rt_ItemID state) (kindOf CustomTools (rt_Name state)) (rt_CallID state)
    (responseToolName ResponseTools (rt_Name state))
    (if isCustomTool CustomTools (rt_Name state) then input else rt_Arguments state) false false)).
  apply wp_bind, wp_mono with (Q := λ _ s', ∃ n,
    io_enc s' = re_set_progress (re_responseSent (io_enc s)) (re_completed (io_enc s)) n (io_enc s)
    ∧ reads s' = Some (n, RStreaming (<[i := it]> items))).
  - intros _ s1 (n & He1 & Hr1). eapply send_spec; [by rewrite He1|done|done| |].
    { cbn [readerNext]. erewrite (read_item_done _ _ i); [reflexivity|cbn; by rewrite Hix|by rewrite lookup_insert_eq|done|].
      etransitivity; [apply (readItem_completed CustomTools ResponseTools parse marshal state)|].
      unfold shownCall, it. by destruct (isCustomTool _ _). }
    intros s2 He2 _ Hr2. rewrite insert_insert_eq in Hr2. eapply (HQ s2).
    + eapply (Inv_closed _ s); [exact Hinv|exact Hs|rewrite He2, He1; reflexivity|exact Hi| |].
      { cbn. rewrite Hc. cbn. by rewrite Ha, closed_in_head. }
      by rewrite Hr2, He2, He1.
    + by rewrite He2, He1.
    + intros j [Hj|Hj]; apply lookup_insert_is_Some'; [by right|left]. by eapply NoDup_place; [apply Hp|..].
  - unfold when, it. destruct (isCustomTool CustomTools (rt_Name state)) eqn:Ecustom.
    + apply wp_bind. eapply send_spec; [exact Hr|done|done| |].
      { cbn [readerNext]. erewrite (read_on _ _ _ _ i); [reflexivity|reflexivity|cbn; by rewrite Hix|exact Hit|done|done|].
        cbn [snd]. unfold of_kind, shownCall, kindOf. cbn [oi_kind oi_part]. rewrite Ecustom. reflexivity. }
      intros s1 He1 _ Hr1. eapply send_spec; [exact Hr1|done|done| |].
      { cbn [readerNext]. erewrite (read_on _ _ _ _ i);
          [reflexivity|reflexivity|cbn; by rewrite Hix|by rewrite lookup_insert_eq|done|done|].
        cbn [snd]. unfold of_kind, shownCall, kindOf. cbn [grow oi_kind oi_part oi_text].
        rewrite bool_decide_eq_true_2 by done. cbn [Bool.eqb andb].
        rewrite bool_decide_eq_true_2 by done. reflexivity. }
      intros s2 He2 _ Hr2. rewrite insert_insert_eq in Hr2. eexists. split; [by rewrite He2, He1|].
      rewrite Hr2, He2, He1. cbn. do 4 f_equal. unfold shownCall, grow, set_part, kindOf. cbn. by rewrite !Ecustom.
    + apply wp_ret. exists (re_sequence (io_enc s)). split; [by destruct (io_enc s)|]. rewrite Hr. do 3 f_equal.
      symmetry. apply insert_id. rewrite Hit. unfold shownCall, set_part. cbn. by rewrite Ecustom.
Qed.

Lemma call_done_spec id s slots items ct l cid Q :
  Inv (closed_in l) id s slots items ct → re_responseSent (io_enc s) = true →
  OCall cid ∉ l → OCall cid ∈ slots →
  (∀ s' items', Inv (closed_in (OCall cid :: l)) id s' slots items' ct → re_responseSent (io_enc s') = true →
     (∀ j, is_Some (items !! j) ∨ slots !! j = Some (OCall cid) → is_Some (items' !! j)) → Q tt s') →
  wp reader_failed (sendCallDone spec CustomTools ResponseTools parse marshal newUUID cid) s Q.
Proof.
  intros Hinv Hs Hl Hin HQ. unfold sendCallDone. repeat wp_step.
  destruct (q_dom _ _ _ (n_places _ _ _ _ _ _ Hinv) _ Hin) as [state Hc]. rewrite Hc.
  assert (closed_in l (OCall cid) = false) as Hcl by by apply bool_decide_eq_false.
  apply wp_bind, wp_mono with (Q := λ _ s1, ∃ items1 state1, Inv (closed_in l) id s1 slots items1 ct
    ∧ re_responseSent (io_enc s1) = true ∧ re_toolCalls (io_enc s1) !! cid = Some state1
    ∧ rt_Added state1 = true ∧ ∀ j, is_Some (items !! j) → is_Some (items1 !! j)).
  - intros _ s1 (items1 & state1 & Hinv1 & Hs1 & Hc1 & Ha1 & Hmono). apply wp_bind, wp_get. rewrite Hc1.
    cbn [default from_option Datatypes.id]. eapply call_end_spec; [exact Hinv1|done|done|done|done|].
    intros s2 items2 Hinv2 Hs2 Hall. eapply HQ; [exact Hinv2|done|].
    intros j [Hj|Hj]; apply Hall; [left; by apply Hmono|by right].
  - destruct (rt_Added state) eqn:Ha; [apply wp_ret; by exists items, state|].
    eapply (add_spec _ id s slots items ct cid state); [done..|]. intros s1 items1 state1 ? ? ? ? ?.
    by exists items1, state1.
Qed.

(** What the last event shows. *)
Definition finalOutput (e : openAIResponsesStreamEncoder) : list outputItem :=
  (if re_textStarted e then [shownText false true e] else [])
  ++ map (shownCall CustomTools ResponseTools parse marshal true) (orderedCalls e).

Lemma readItems_final e :
  readItems ((if re_textStarted e then [messageItem e "completed" [outputText (re_textBuffer e)]] else [])
             ++ map (completedCallItem CustomTools ResponseTools parse marshal) (orderedCalls e))
  = Some (finalOutput e).
Proof.
  assert (∀ calls, readItems (map (completedCallItem CustomTools ResponseTools parse marshal) calls)
    = Some (map (shownCall CustomTools ResponseTools parse marshal true) calls)) as H.
  { induction calls as [|state calls IH]; [done|]. cbn [map readItems].
    pose proof (readItem_completed CustomTools ResponseTools parse marshal state) as Hr.
    destruct (completedCallItem _ _ _ _ state) eqn:E; unfold completedCallItem, callItem in E;
      destruct (responseToolName _ _); try discriminate E. cbn [as_map] in Hr. rewrite Hr. cbn. by rewrite IH. }
  unfold finalOutput. destruct (re_textStarted e); cbn [app]; [|apply H].
  cbn [readItems messageItem]. pose proof (readItem_message e) as Hr. cbn [as_map messageItem] in Hr. rewrite Hr.
  cbn. by rewrite H.
Qed.

Lemma owners_split slots :
  slots ≡ₚ List.filter (λ o, bool_decide (o = OText)) slots ++ (OCall <$> omap call_owner slots).
Proof.
  induction slots as [|[|cid] slots IH]; [done| |]; cbn.
  - by apply Permutation_skip.
  - rewrite <- Permutation_middle. by apply Permutation_skip.
Qed.

Lemma text_owner slots :
  NoDup slots → List.filter (λ o, bool_decide (o = OText)) slots = if bool_decide (OText ∈ slots) then [OText] else [].
Proof.
  induction 1 as [|o slots Hn Hnd IH]; [done|]. cbn. rewrite IH. destruct o as [|cid]; cbn.
  - rewrite (bool_decide_eq_false_2 _ Hn), (bool_decide_eq_true_2 (OText ∈ OText :: slots)) by left. done.
  - rewrite (bool_decide_ext (OText ∈ OCall cid :: slots) (OText ∈ slots)); [done|].
    rewrite elem_of_cons. naive_solver.
Qed.

(** With every place shown, the items are those of the places in order. *)
Lemma displays_all cl e slots items :
  displays CustomTools ResponseTools parse marshal cl e slots items →
  (∀ i o, slots !! i = Some o → is_Some (items !! i)) →
  items = map_seq 0 (omap (shown CustomTools ResponseTools parse marshal cl e) slots).
Proof.
  intros Hd Hall. apply map_eq. intros i. rewrite lookup_map_seq_0, Hd.
  assert (∀ o, o ∈ slots → is_Some (shown CustomTools ResponseTools parse marshal cl e o)) as Hs.
  { intros o [j Hj]%list_elem_of_lookup. destruct (Hall j o Hj) as [it Hit]. rewrite Hd, Hj in Hit. by exists it. }
  clear Hd Hall. revert i. induction slots as [|o slots IH]; intros i; [done|].
  destruct (Hs o) as [it Hit]; [by left|]. cbn [omap list_omap]. rewrite Hit.
  destruct i as [|i]; cbn; [done|]. apply IH. intros o' Ho'. apply Hs. by right.
Qed.

Lemma final_permutation e slots ct l :
  places e slots ct → (∀ o, o ∈ slots → o ∈ l) →
  (∀ o, o ∈ slots → is_Some (shown CustomTools ResponseTools parse marshal (closed_in l) e o)) →
  finalOutput e ≡ₚ omap (shown CustomTools ResponseTools parse marshal (closed_in l) e) slots.
Proof.
  intros Hp Hl Hs. rewrite (owners_split slots) at 1. rewrite omap_app.
  unfold finalOutput, orderedCalls. rewrite (q_order _ _ _ Hp), text_owner by apply Hp. apply Permutation_app.
  - destruct (re_textStarted e) eqn:Ht.
    + destruct (q_text _ _ _ Hp Ht) as (i & _ & Hi). apply list_elem_of_lookup_2 in Hi.
      rewrite bool_decide_eq_true_2 by done. cbn. rewrite Ht.
      assert (closed_in l OText = true) as -> by by apply bool_decide_eq_true, Hl. done.
    + destruct (q_no_text _ _ _ Hp Ht) as [Hn _]. by rewrite bool_decide_eq_false_2.
  - assert (∀ cid, cid ∈ omap call_owner slots → OCall cid ∈ slots) as Hin.
    { intros cid (o & Ho & Hcid)%list_elem_of_omap. destruct o; [done|]. by injection Hcid as <-. }
    induction (omap call_owner slots) as [|cid ids IH]; [done|]. cbn.
    assert (OCall cid ∈ slots) as Hcid by (apply Hin; by left).
    destruct (Hs _ Hcid) as [it Hit]. cbn in Hit. destruct (re_toolCalls e !! cid) as [state|]; [|done]. cbn in Hit.
    cbn. destruct (rt_Added state); [|done]. cbn.
    assert (closed_in l (OCall cid) = true) as -> by by apply bool_decide_eq_true, Hl.
    apply Permutation_skip, IH. intros c Hc. apply Hin. by right.
Qed.

(** The text and the calls of the last event are those of the events before. *)
Lemma final_text e slots ct : places e slots ct → output_text (finalOutput e) = ct_text ct.
Proof.
  intros Hp. rewrite (q_ct_text _ _ _ Hp). unfold output_text, finalOutput. rewrite omap_app.
  assert (∀ calls, omap (λ it, if bool_decide (oi_kind it = IMessage) then Some (oi_text it) else None)
    (map (shownCall CustomTools ResponseTools parse marshal true) calls) = []) as ->.
  { induction calls as [|state calls IH]; [done|]. cbn. unfold kindOf. by destruct (isCustomTool _ _). }
  destruct (re_textStarted e) eqn:Ht; [done|]. by destruct (q_no_text _ _ _ Hp Ht) as [_ ->].
Qed.

(** What the client reads of a call with these arguments. *)
Definition callResult (name arguments : string) : itemKind * string :=
  (kindOf CustomTools name,
   if isCustomTool CustomTools name then bridgedCustomToolInputFromArguments parse marshal arguments else arguments).

Lemma final_call e slots ct id :
  places e slots ct →
  output_call (finalOutput e) id
  = (λ state, callResult (rt_Name state) (rt_Arguments state)) <$> re_toolCalls e !! id.
Proof.
  intros Hp. unfold output_call, finalOutput, orderedCalls. rewrite omap_app.
  assert (omap (λ it, if negb (bool_decide (oi_kind it = IMessage)) && bool_decide (oi_call it = id)
                      then Some (oi_kind it, oi_text it) else None)
            (if re_textStarted e then [shownText false true e] else []) = []) as -> by by destruct (re_textStarted e).
  cbn [app]. assert (∀ ids, (∀ cid, cid ∈ ids → is_Some (re_toolCalls e !! cid)) →
    head (omap (λ it, if negb (bool_decide (oi_kind it = IMessage)) && bool_decide (oi_call it = id)
                      then Some (oi_kind it, oi_text it) else None)
            (map (shownCall CustomTools ResponseTools parse marshal true) (omap (λ cid, re_toolCalls e !! cid) ids)))
    = if bool_decide (id ∈ ids) then (λ state, callResult (rt_Name state) (rt_Arguments state)) <$> re_toolCalls e !! id
      else None) as H.
  { induction ids as [|cid ids IH]; intros Hids; [done|]. cbn [omap list_omap map].
    destruct (Hids cid) as [state Hstate]; [by left|]. rewrite Hstate. cbn [map omap list_omap].
    destruct (q_call _ _ _ Hp _ _ Hstate) as [Hcall _]. cbn [shownCall oi_kind oi_call oi_text]. rewrite Hcall.
    rewrite (bool_decide_eq_false_2 (kindOf CustomTools (rt_Name state) = IMessage))
      by (unfold kindOf; by destruct (isCustomTool _ _)). cbn [negb andb].
    destruct (decide (cid = id)) as [->|Hne].
    - rewrite (bool_decide_eq_true_2 (id = id)), (bool_decide_eq_true_2 (id ∈ id :: ids)) by (done || by left).
      by rewrite Hstate.
    - rewrite (bool_decide_eq_false_2 (cid = id)) by done. cbn [app]. rewrite IH by (intros; apply Hids; by right).
      rewrite (bool_decide_ext (id ∈ cid :: ids) (id ∈ ids)); [done|]. rewrite elem_of_cons. naive_solver. }
  rewrite H.
  - destruct (re_toolCalls e !! id) as [state|] eqn:Hid; [|by destruct (bool_decide _)].
    rewrite bool_decide_eq_true_2; [done|]. rewrite (q_order _ _ _ Hp), list_elem_of_omap.
    exists (OCall id). split; [|done]. destruct (q_call _ _ _ Hp _ _ Hid) as (_ & i & _ & Hi).
    by eapply list_elem_of_lookup_2.
  - intros cid. rewrite (q_order _ _ _ Hp). intros ([|c] & Ho & Hc)%list_elem_of_omap; [done|].
    injection Hc as <-. by apply (q_dom _ _ _ Hp).
Qed.

(** The client is at the end, and has it all. *)
Definition received (status : string) (ct : content) (fs : list frame) : Prop :=
  ∃ n output items,
    reader_run (0, RNew) fs = Some (n, RDone status output items)
    ∧ (∀ i, is_Some (items !! i) ↔ (i < size items)%nat)
    ∧ output ≡ₚ (map_to_list items).*2
    ∧ output_text output = ct_text ct
    ∧ ∀ id, match ct_arguments ct !! id with
            | Some arguments => ∃ name, output_call output id = Some (callResult name arguments)
            | None => output_call output id = None
            end.

Lemma size_map_seq {A} (xs : list A) : size (map_seq (M := gmap nat A) 0 xs) = length xs.
Proof.
  rewrite <- length_map_to_list, map_to_list_seq, length_zip_with, length_seq. lia.
Qed.

Lemma map_seq_values {A} (xs : list A) : (map_to_list (map_seq (M := gmap nat A) 0 xs)).*2 ≡ₚ xs.
Proof. rewrite map_to_list_seq, snd_zip; [done|]. by rewrite length_seq. Qed.

Lemma read_response_end status usage e items n :
  status = "completed" ∨ status = "incomplete" → map_Forall (λ _ it, oi_done it = true) items →
  readEvent ("response." +:+ status)
    ([("type", AString ("response." +:+ status)); ("sequence_number", AInt n)]
     ++ [("response", responsePayload CustomTools ResponseTools parse marshal status usage e)]) items
  = Some (RDone status (finalOutput e) items).
Proof.
  intros Hstatus Hdone. set (m := [_; _] ++ _).
  assert (readEvent ("response." +:+ status) m items = readEnd ("response." +:+ status) m items) as ->
    by by destruct Hstatus as [->| ->].
  unfold readEnd. assert (text_of (map_index (as_map (map_index m "response")) "status") = status) as -> by done.
  rewrite (bool_decide_eq_true_2 (_ = _)), (bool_decide_eq_true_2 _ Hdone) by done. cbn [negb].
  assert (map_index (as_map (map_index m "response")) "output" = AArray ((if re_textStarted e
    then [messageItem e "completed" [outputText (re_textBuffer e)]] else [])
    ++ map (completedCallItem CustomTools ResponseTools parse marshal) (orderedCalls e))) as ->
    by by destruct Hstatus as [->| ->].
  by rewrite readItems_final.
Qed.

(** The whole output, once every item is done. *)
Lemma response_end_spec id s slots items ct l usage status completed reason Q :
  Inv (closed_in l) id s slots items ct → re_responseSent (io_enc s) = true →
  status = "completed" ∨ status = "incomplete" →
  (∀ o, o ∈ slots → o ∈ l) → (∀ i o, slots !! i = Some o → is_Some (items !! i)) →
  (∀ s', received status ct (frames s') → sc_sawDone (io_capture s') = true → sc_streamCompleted (io_capture s') = completed →
     sc_endReason (io_capture s') = reason → Q tt s') →
  wp reader_failed (bind (sendEvent (if bool_decide (status = "incomplete")
      then protocolEventName spec Incomplete "response.incomplete"
      else protocolEventName spec Completed "response.completed")
      (λ e, [("response", responsePayload CustomTools ResponseTools parse marshal status usage e)])) (λ _,
    bind (modify (λ e, re_set_progress (re_responseSent e) true (re_sequence e) e)) (λ _,
      modify_capture (set_done completed reason)))) s Q.
Proof.
  intros [Hp Hsh Hrun Hr Hf Hid] Hs Hstatus Hl Hall HQ. rewrite Hs in Hr. destruct Hnames as (_ & _ & _ & Hc & Hi).
  rewrite Hc, Hi. pose proof (displays_all _ _ _ _ Hsh Hall) as Hitems.
  assert (∀ o, o ∈ slots → is_Some (shown CustomTools ResponseTools parse marshal (closed_in l) (io_enc s) o)) as Hshown.
  { intros o [j Hj]%list_elem_of_lookup. destruct (Hall j o Hj) as [it Hit]. rewrite Hsh, Hj in Hit. by exists it. }
  pose proof (final_permutation _ _ _ _ Hp Hl Hshown) as Hperm.
  assert (map_Forall (λ _ it, oi_done it = true) items) as Hdone.
  { intros j it Hj. rewrite Hsh in Hj. destruct (slots !! j) as [o|] eqn:Ho; [|done]. cbn in Hj.
    assert (closed_in l o = true) as Hlo by (apply bool_decide_eq_true, Hl; by eapply list_elem_of_lookup_2).
    destruct o as [|cid]; cbn in Hj.
    - destruct (re_textStarted _); [|done]. injection Hj as <-. exact Hlo.
    - destruct (re_toolCalls _ !! cid) as [state|]; [|done]. cbn in Hj. destruct (rt_Added state); [|done].
      injection Hj as <-. exact Hlo. }
  apply wp_bind. eapply send_spec with (r' := RDone status (finalOutput (io_enc s)) items);
    [exact Hr|by destruct Hstatus as [->| ->]..| |].
  { pose proof (read_response_end status usage (re_next (io_enc s)) items
      (re_sequence (io_enc s) + 1) Hstatus Hdone) as H. by destruct Hstatus as [->| ->]. }
  intros s1 He1 Hcap1 Hr1. repeat wp_step. apply HQ; cbn; [|done..].
  exists (re_sequence (io_enc s1)), (finalOutput (io_enc s)), items. split_and!.
  - exact Hr1.
  - intros i. rewrite Hitems, size_map_seq, lookup_map_seq_0. apply lookup_lt_is_Some.
  - rewrite Hitems, map_seq_values. exact Hperm.
  - by eapply final_text.
  - intros id'. rewrite (q_ct_arguments _ _ _ Hp), lookup_fmap. erewrite final_call by exact Hp.
    destruct (re_toolCalls (io_enc s) !! id') as [state|]; [|done]. by exists (rt_Name state).
Qed.

(** The calls of [rest] are still to be closed; all that is done is shown. *)
Definition closing id slots ct (rest : list string) s : Prop := ∃ (l : list owner) items,
  Inv (closed_in l) id s slots items ct ∧ re_responseSent (io_enc s) = true ∧ NoDup rest
  ∧ (∀ cid, cid ∈ rest → OCall cid ∈ slots ∧ OCall cid ∉ l)
  ∧ (∀ o, o ∈ slots → o ∈ l ∨ ∃ cid, cid ∈ rest ∧ o = OCall cid)
  ∧ (∀ i o, slots !! i = Some o → o ∈ l → is_Some (items !! i)).

Lemma elem_of_calls slots cid : cid ∈ omap call_owner slots ↔ OCall cid ∈ slots.
Proof.
  rewrite list_elem_of_omap. split; [|intros ?; by exists (OCall cid)].
  intros (o & Ho & Hc). destruct o; [done|]. by injection Hc as <-.
Qed.

Lemma NoDup_calls slots : NoDup slots → NoDup (omap call_owner slots).
Proof.
  induction 1 as [|o slots Hn Hnd IH]; [constructor|]. destruct o as [|cid]; cbn; [done|].
  constructor; [|done]. by rewrite elem_of_calls.
Qed.

Lemma closing_begins id s slots items ct Q :
  Inv (closed_in []) id s slots items ct → re_responseSent (io_enc s) = true →
  (∀ s', closing id slots ct (omap call_owner slots) s' → Q tt s') →
  wp reader_failed (when (re_textStarted (io_enc s)) (sendTextDone (io_enc s))) s Q.
Proof.
  intros Hinv Hs HQ. pose proof (n_places _ _ _ _ _ _ Hinv) as Hp.
  assert (∀ o, o ∈ slots → o = OText ∨ ∃ cid, cid ∈ omap call_owner slots ∧ o = OCall cid) as Hcases.
  { intros [|cid] Ho; [by left|right]. exists cid. by rewrite elem_of_calls. }
  unfold when. destruct (re_textStarted (io_enc s)) eqn:Ht.
  - apply (text_done_spec id s slots items ct); [done..|]. intros s1 items1 Hinv1 Hs1 Hmono. apply HQ.
    exists [OText], items1. split_and!; [done|done|by apply NoDup_calls, Hp| | |].
    + intros cid Hc. split; [by apply elem_of_calls|]. by intros [=]%list_elem_of_singleton.
    + intros o [->|?]%Hcases; [left; by left|by right].
    + intros i o Hi ->%list_elem_of_singleton. apply Hmono.
      erewrite (displays_at _ _ _ _ _ _ _ _ i OText); [done|apply (n_shown _ _ _ _ _ _ Hinv)|done|].
      cbn. by rewrite Ht.
  - apply wp_ret, HQ. exists [], items. split_and!; [done|done|by apply NoDup_calls, Hp| | |].
    + intros cid Hc. split; [by apply elem_of_calls|apply not_elem_of_nil].
    + intros o Ho. destruct (Hcases o Ho) as [->|?]; [|by right]. by destruct (q_no_text _ _ _ Hp Ht).
    + by intros i o _ ?%not_elem_of_nil.
Qed.

Lemma closing_step id slots ct cid rest s :
  closing id slots ct (cid :: rest) s →
  wp reader_failed (sendCallDone spec CustomTools ResponseTools parse marshal newUUID cid) s
    (λ _ s, closing id slots ct rest s).
Proof.
  intros (l & items & Hinv & Hs & [Hn1 Hn2]%list.NoDup_cons & Hrest & Hcover & Hsome).
  destruct (Hrest cid) as [Hin Hl]; [by left|]. apply (call_done_spec id s slots items ct l cid); [done..|].
  intros s' items' Hinv' Hs' Hmono. exists (OCall cid :: l), items'. split_and!; [done|done|done| | |].
  - intros c Hc. destruct (Hrest c) as [? ?]; [by right|]. split; [done|].
    intros [[= ->]|?]%elem_of_cons; [by apply Hn1|done].
  - intros o Ho. destruct (Hcover o Ho) as [?|(c & [->|Hc]%elem_of_cons & ->)];
      [left; by right|left; by left|right; by exists c].
  - intros i o Hi [->|Ho]%elem_of_cons; apply Hmono; [by right|left; by apply (Hsome i o)].
Qed.

Lemma response_terminal_spec id s slots items ct status completed reason Q :
  Inv nothing_done id s slots items ct → status = "completed" ∨ status = "incomplete" →
  (∀ s', received status ct (frames s') → sc_sawDone (io_capture s') = true → sc_streamCompleted (io_capture s') = completed →
     sc_endReason (io_capture s') = reason → Q tt s') →
  wp reader_failed (sendTerminalResponse spec requireUsage CustomTools ResponseTools parse marshal newUUID
    status completed reason) s Q.
Proof.
  intros Hinv Hstatus HQ. unfold sendTerminalResponse. repeat wp_step. rewrite (n_running _ _ _ _ _ _ Hinv). repeat wp_step.
  destruct (requireUsage && _).
  { repeat wp_step. apply wp_fail. split; [eexists; apply (n_reads _ _ _ _ _ _ Hinv)|right]. cbn. set_solver. }
  set (capture := io_capture s). clearbody capture.
  apply wp_bind, (response_start_spec nothing_done id s slots items ct); [done|]. intros s1 items1 Hinv1 Hs1 _ _.
  clear s items Hinv. rename s1 into s, items1 into items, Hs1 into Hs. apply Inv_closing in Hinv1 as Hinv. clear Hinv1.
  repeat wp_step. rewrite (q_order _ _ _ (n_places _ _ _ _ _ _ Hinv)).
  apply (closing_begins id s slots items ct); [done..|]. clear s items Hinv Hs. intros s Hcl. apply wp_bind.
  eapply wp_for_each; [exact Hcl|by intros; apply closing_step|].
  clear s Hcl. intros s (l & items & Hinv & Hs & _ & _ & Hcover & Hsome).
  assert (∀ o, o ∈ slots → o ∈ l) as Hall.
  { intros o Ho. by destruct (Hcover o Ho) as [?|(c & ?%not_elem_of_nil & _)]. }
  eapply (response_end_spec id s slots items ct l); [done..| |exact HQ].
  intros i o Hi. eapply Hsome; [exact Hi|]. eapply Hall, list_elem_of_lookup_2, Hi.
Qed.

(** The status and the reason of the end. *)
Definition end_status (event : canonicalStreamEvent) : string :=
  if bool_decide (ev_Type event = Completed) then "completed" else "incomplete".

Lemma last_event_spec id s slots items ct event Q :
  ev_Type event ∈ [Completed; Incomplete] → Inv nothing_done id (re_merged event s) slots items ct →
  (∀ s', received (end_status event) ct (frames s') → sc_sawDone (io_capture s') = true →
     sc_streamCompleted (io_capture s') = bool_decide (ev_Type event = Completed) →
     sc_endReason (io_capture s')
     = (if bool_decide (ev_Type event = Completed) then "done" else "response_incomplete") → Q tt s') →
  wp reader_failed (re_EncodeEvent spec candidateSpec siteType requireUsage CustomTools ResponseTools valid
    parse marshal newUUID order event) s Q.
Proof.
  intros Ht Hinv HQ. unfold re_EncodeEvent. wp_step. unfold re_mergeMeta at 1. wp_step.
  change (mkIO _ _ _) with (re_merged event s). set (s1 := re_merged event s) in *. clearbody s1. clear s.
  unfold end_status in HQ. assert (ev_Type event = Completed ∨ ev_Type event = Incomplete) as [E|E] by set_solver; rewrite E in *.
  - apply wp_bind. unfold re_validateToolCallArguments. repeat wp_step.
    apply wp_for_each with (I := λ _ s', s' = s1); [done| |].
    { intros state rest ? ->. destruct (StreamEvents.validateToolCallArguments _ _); [by apply wp_ret|].
      repeat wp_step. apply wp_fail. split; [eexists; apply (n_reads _ _ _ _ _ _ Hinv)|right]. cbn. set_solver. }
    intros ? ->. eapply response_terminal_spec; [exact Hinv|by left|exact HQ].
  - eapply response_terminal_spec; [exact Hinv|by right|exact HQ].
Qed.
End specs.

(** ** A stream from its first event to its last *)

(** The response has one identifier from its first event on: an event names none, or this. *)
Definition one_response (synthesized : string) (events : list canonicalStreamEvent) : bool :=
  match events with
  | [] => true
  | event :: rest =>
      let id := ev_ID (ev_Meta event) in
      forallb (keeps_id (if bool_decide (id = "") then synthesized else id)) rest
  end.

Definition newResponsesStream (room : option nat) (e : openAIResponsesStreamEncoder)
    : io openAIResponsesStreamEncoder := mkIO e emptyCapture (mkWriter [] room).

Section whole.
Context (spec candidateSpec : resolvedProtocolSpec) (siteType : string) (requireUsage : bool)
        (CustomTools : gset string) (ResponseTools : gmap string responsesToolIdentity)
        (valid : string → bool) (parse : string → option any) (marshal : any → string) (newUUID : string)
        (order : list (string * any) → list (string * any)).

Let Encode := re_EncodeEvent spec candidateSpec siteType requireUsage CustomTools ResponseTools valid
  parse marshal newUUID order.
Let following := Inv CustomTools ResponseTools parse marshal nothing_done.
Let arrived := received CustomTools parse marshal.

(** The event may be encoded before the end. *)
Definition streamable (event : canonicalStreamEvent) : bool :=
  negb (terminal event) && passes_over spec order event.

Lemma new_follows room responseID createdAt event :
  let id := ev_ID (ev_Meta event) in
  following (if bool_decide (id = "") then responseID else id)
    (re_merged event (newResponsesStream room (newOpenAIResponsesStreamEncoder responseID createdAt)))
    [] ∅ (mkContent "" "" ∅).
Proof.
  constructor; cbn; try done. constructor; cbn; try done; try constructor; try by intros ? ?%not_elem_of_nil.
  - by apply not_elem_of_nil.
  - done.
Qed.

Lemma rest_spec id rest s slots items ct (Q : unit → io openAIResponsesStreamEncoder → Prop) :
  standardNames spec → Forall (λ event, streamable event = true ∧ keeps_id id event = true) rest →
  following id s slots items ct →
  (∀ s' slots' items', following id s' slots' items' (fold_left (add_event candidateSpec) rest ct) → Q tt s') →
  wp reader_failed (encodeRaw Encode rest) s Q.
Proof.
  intros Hnames. revert s slots items ct. induction rest as [|event rest IH]; intros s slots items ct Hok Hinv HQ.
  { by eapply wp_ret, HQ. }
  apply list.Forall_cons in Hok as [[[Ht%negb_true_iff Hpass]%andb_true_iff Hid] Hok].
  unfold encodeRaw. cbn [for_each]. apply wp_bind, wp_encoded; [intros ??; apply reader_failed_encoded|].
  eapply (encode_event_spec _ _ _ _ _ _ _ _ _ _ _ Hnames id); [exact Ht|exact Hpass|by apply Inv_merged|].
  intros s' slots' items' Hinv'. by eapply IH.
Qed.

(** C14: A Responses client follows what the encoder writes, to the end.  Take a protocol with
    the usual event names, and events that name one response ([one_response]; see
    [changed_response_id_renames_the_message]); those passed on as they are have no name a
    client acts on and no number of their own ([passes_over]; see
    [passed_on_event_keeps_its_number]).  Otherwise the events before the terminal one come
    in any order, with tool calls that interleave, begin before their name is known or
    belong to custom tools, and the connection may break at any point: the client's
    automaton accepts what is written.  Sequence numbers
    count the events without a gap; every item is opened once at a place of its own, what
    follows names it by place and identifier, and it is closed with exactly the text it
    grew to.  On success the places are 0, 1, 2, ... without a hole; the output of the last
    event has each item exactly once; its text and each call's arguments (for a custom
    tool, the input in them) are those of the events; and the status says how it ended.
    Otherwise what was written is accepted so far, and the connection broke or the capture
    names the reason. *)
Theorem responses_stream_is_accepted room responseID createdAt events last :
  standardNames spec →
  Forall (λ event, streamable event = true) events → ev_Type last ∈ [Completed; Incomplete] →
  one_response responseID (events ++ [last]) = true →
  match encodeRaw Encode (events ++ [last])
          (newResponsesStream room (newOpenAIResponsesStreamEncoder responseID createdAt)) with
  | (Ok _, s) =>
      arrived (end_status last) (content_of candidateSpec events) (frames s)
      ∧ sc_streamCompleted (io_capture s) = bool_decide (ev_Type last = Completed)
  | (Err _, s) => is_Some (reads s) ∧ gave_up s
  end.
Proof.
  intros Hnames Hev Hlast Hone. set (s0 := newResponsesStream _ _).
  assert (wp reader_failed (encodeRaw Encode (events ++ [last])) s0 (λ _ s,
    arrived (end_status last) (content_of candidateSpec events) (frames s)
    ∧ sc_streamCompleted (io_capture s) = bool_decide (ev_Type last = Completed))) as H.
  2: { unfold wp in H. by destruct (encodeRaw _ _ s0) as [[]]. }
  assert (∀ id s slots items ct Q, following id (re_merged last s) slots items ct →
    (∀ s', arrived (end_status last) ct (frames s') →
       sc_streamCompleted (io_capture s') = bool_decide (ev_Type last = Completed) → Q tt s') →
    wp reader_failed (encodeRaw Encode [last]) s Q) as Hend.
  { intros id s slots items ct Q Hinv HQ. unfold encodeRaw. cbn [for_each].
    apply wp_bind, wp_encoded; [intros ??; apply reader_failed_encoded|].
    eapply (last_event_spec _ candidateSpec siteType _ _ _ _ _ _ _ order Hnames id); [exact Hlast|exact Hinv|].
    intros s' ? _ ? _. by apply wp_ret, HQ. }
  destruct events as [|event rest]; cbn [app one_response] in *.
  { eapply Hend; [apply new_follows|by split]. }
  apply list.Forall_cons in Hev as [[Ht%negb_true_iff Hpass]%andb_true_iff Hev].
  rewrite forallb_app in Hone. apply andb_true_iff in Hone as [Hone Hid].
  cbn in Hid. apply andb_true_iff in Hid as [Hid _].
  unfold encodeRaw. cbn [for_each]. apply wp_bind, wp_encoded; [intros ??; apply reader_failed_encoded|].
  eapply (encode_event_spec _ _ _ _ _ _ _ _ _ _ _ Hnames); [exact Ht|exact Hpass|apply new_follows|].
  intros s slots items Hinv. apply wp_for_each_app. change (for_each rest _) with (encodeRaw Encode rest).
  eapply rest_spec; [exact Hnames| |exact Hinv|].
  { apply list.Forall_forall. intros e He. rewrite list.Forall_forall in Hev. split; [by apply Hev|].
    rewrite forallb_forall in Hone. by apply Hone, list_elem_of_In. }
  intros s2 slots2 items2 Hinv2. eapply Hend; [by apply Inv_merged|]. by split.
Qed.
End whole.

(** The events and policies of the registry for this protocol
    ([protocolspec/protocol_specs.json]). *)
Definition responsesSpec : resolvedProtocolSpec :=
  mkSpec (list_to_map [("created", "response.created"); ("text_delta", "response.output_text.delta");
                       ("tool_call_delta", "response.function_call_arguments.delta");
                       ("annotation_added", "response.output_text.annotation.added");
                       ("reasoning_delta", "response.reasoning_delta");
                       ("completed", "response.completed"); ("incomplete", "response.incomplete")])
         (list_to_map [("thinking", "passthrough"); ("default", "metadata")]).

(** A call whose name comes late, a custom tool, thinking, and text in two pieces. *)
Definition sample_response_events : list canonicalStreamEvent :=
  [createdEvent (mkMeta "resp_1" "m" 5);
   reasoningEvent noMeta "Let me see." (mkReasoning "thinking" "" 0);
   toolCallEvent noMeta (mkToolCall 0 "call_1" "" "{" []);
   textEvent noMeta "Look" false;
   toolCallEvent noMeta (mkToolCall 1 "call_2" "apply" "patch" []);
   toolCallEvent noMeta (mkToolCall 0 "call_1" "search" "" []);
   textEvent noMeta "ing." false;
   toolCallEvent noMeta (mkToolCall 0 "call_1" "" "}" [])].

Definition encode_sample (events : list canonicalStreamEvent) : result unit string * io openAIResponsesStreamEncoder :=
  encodeRaw (re_EncodeEvent responsesSpec responsesSpec "openai" false {["apply"]} ∅ (λ _, true) (λ _, None)
    (λ _, "") "" id) events (newResponsesStream None (newOpenAIResponsesStreamEncoder "resp_0" 0)).

Lemma responses_stream_is_accepted_witness :
  let '(r, s) := encode_sample (sample_response_events ++ [finishEvent Completed noMeta noFinish]) in
  r = Ok tt ∧ length (frames s) = 19%nat
  ∧ ∃ n output items, reads s = Some (n, RDone "completed" output items)
    ∧ output_text output = "Looking." ∧ output_call output "call_1" = Some (IFunction, "{}")
    ∧ output_call output "call_2" = Some (ICustom, "patch") ∧ output ≡ₚ (map_to_list items).*2.
Proof.
  pose proof (responses_stream_is_accepted responsesSpec responsesSpec "openai" false {["apply"]} ∅ (λ _, true)
    (λ _, None) (λ _, "") "" id None "resp_0" 0 sample_response_events (finishEvent Completed noMeta noFinish)) as H.
  specialize (H ltac:(vm_compute; repeat split; reflexivity)).
  specialize (H ltac:(repeat constructor)).
  specialize (H ltac:(cbn; left)).
  specialize (H ltac:(vm_compute; reflexivity)).
  unfold encode_sample.
  destruct (encodeRaw _ _ _) as [[[]|e] s] eqn:E in H |- *; [|exfalso; vm_compute in E; discriminate].
  assert (s = (encode_sample (sample_response_events ++ [finishEvent Completed noMeta noFinish])).2) as Hs
    by (unfold encode_sample; rewrite E; reflexivity). clear E.
  split; [reflexivity|]. split; [rewrite Hs; vm_compute; reflexivity|].
  destruct H as [(n & output & items & Hr & _ & Hperm & _) _]. exists n, output, items.
  split; [exact Hr|]. rewrite Hs in Hr. vm_compute in Hr. injection Hr as _ <- _.
  split; [vm_compute; reflexivity|]. split; [vm_compute; reflexivity|]. split; [vm_compute; reflexivity|]. exact Hperm.
Defined.

(** ** Where the stream differs from the API's *)

(** The place of an item is its index in the output, but the output of the last event
    lists the text first: after a call that began before the text, places and output
    disagree. *)
Theorem output_order_is_not_place_order :
  let '(r, s) := encode_sample
    [toolCallEvent noMeta (mkToolCall 0 "call_1" "search" "{}" []); textEvent noMeta "Look" false;
     finishEvent Completed noMeta noFinish] in
  r = Ok tt
  ∧ match reads s with
    | Some (_, RDone _ output items) =>
        (oi_id <$> output, oi_id <$> items !! 0%nat, oi_id <$> items !! 1%nat)
        = (["msg_resp_0"; "fc_call_1"], Some "fc_call_1", Some "msg_resp_0")
    | _ => False
    end.
Proof. vm_compute. by split. Qed.

(** An event that is passed on keeps the number its upstream gave it, so that the numbers
    no longer count the events. *)
Theorem passed_on_event_keeps_its_number :
  let event := mkEvent Advanced noMeta "" noUsage noFinish ANil false noReasoning
    (mkAdvanced "web_search" "" "response.web_search_call.searching"
       (Some [("type", AString "response.web_search_call.searching"); ("sequence_number", AInt 7)])) noToolCall in
  let '(r, s) := encode_sample [event; textEvent noMeta "Look" false] in
  r = Ok tt ∧ reads s = None
  ∧ map (λ fr, match fr with FEvent _ (AObject m) => map_index m "sequence_number" | _ => ANil end) (frames s)
    = [AInt 1; AInt 2; AInt 7; AInt 4; AInt 5; AInt 6].
Proof. vm_compute. by split_and!. Qed.

(** The identifier of the message is made from the last response identifier seen: when the
    upstream changes it in the middle, the events name a message that was never opened. *)
Theorem changed_response_id_renames_the_message :
  let '(r, s) := encode_sample
    [textEvent (mkMeta "a" "" 0) "Look" false; textEvent (mkMeta "b" "" 0) "ing." false] in
  r = Ok tt ∧ reads s = None.
Proof. vm_compute. by split. Qed.
