(* ===== verification/StreamClients.v ===== *)
(** * What a converted stream is to its client

    [proxyCanonicalStream] ([gateway/protocol_canonical_stream.go]) between any decoder and
    any encoder: the class [FaithfulEncoder] is what an encoder promises about the frames it
    writes, and [stream_reaches_client] what the loop makes of it.  The encoders of the
    Messages API and of the Responses API keep that promise, so that the streams of chat
    upstreams reach the clients of both whole. *)

From S2P Require Import Prelude GoFloat Catalog Json Pricing StreamEvents StopSequences.
From S2P Require Import AnthropicStream ChatStream ResponsesStream SemanticFailure StreamPassthrough.
From S2P Require Import StreamProxy ResponsesEncoder.

(** ** The promise *)

(** How the capture says that the stream ended. *)
Definition ended_with {E} (last : canonicalStreamEvent) (s : io E) : Prop :=
  sc_sawDone (io_capture s) = true
  ∧ sc_streamCompleted (io_capture s) = bool_decide (ev_Type last = Completed)
  ∧ sc_endReason (io_capture s) = AnthropicStream.end_reason last.

(** An encoder that starts as [e0]: for the events it admits, the client can follow the
    frames after each of them, and has everything after the terminal one. *)
Class FaithfulEncoder {E : Type} `{canonicalStreamEncoder E} (e0 : E) := {
  fe_admits : list canonicalStreamEvent → Prop;
  fe_follows : io E → list canonicalStreamEvent → Prop;
  fe_accepts : list frame → Prop;
  fe_complete : list frame → list canonicalStreamEvent → canonicalStreamEvent → Prop;
  fe_admits_prefix l1 l2 : fe_admits (l1 ++ l2) → fe_admits l1;
  fe_complete_accepts fs events last : fe_complete fs events last → fe_accepts fs;
  fe_begin room : fe_follows (mkIO e0 emptyCapture (mkWriter [] room)) [];
  fe_event s events event :
    fe_admits (events ++ [event]) → fe_follows s events → terminal event = false →
    wp (λ _ s, fe_accepts (frames s) ∧ gave_up s) (EncodeEvent event) s
      (λ _ s, fe_follows s (events ++ [event]));
  fe_last s events last :
    fe_admits (events ++ [last]) → fe_follows s events → ev_Type last ∈ [Completed; Incomplete] →
    wp (λ _ s, fe_accepts (frames s) ∧ gave_up s) (EncodeEvent last) s
      (λ _ s, fe_complete (frames s) events last ∧ ended_with last s)
}.

(** ** The loop keeps it *)

Section clients.
Context {D E : Type} `{canonicalStreamDecoder D} `{FE : FaithfulEncoder E e0}
        (parse : string → option any) (rawText : any → string) (options : streamOptions).
(** The upstream does not speak the Responses API, whose first events are held back. *)
Hypothesis Hfrom : so_from options ∉ [OpenAIResponses; CodexResponses].
Hypothesis Hstop : so_stopSequences options = [].
Hypothesis Hinspect : so_lineInspect options = None.
Implicit Types (d : D).

Definition encoder_part (s : io (proxyState D E)) : io E := mkIO (ps_encoder (io_enc s)) (io_capture s) (io_writer s).

Definition lost : string → io (proxyState D E) → Prop :=
  λ _ s, fe_accepts (e0 := e0) (frames s) ∧ gave_up s.

(** No filter, nothing held back. *)
Definition plain (s : io (proxyState D E)) d : Prop :=
  ps_decoder (io_enc s) = d ∧ ps_filter (io_enc s) = None ∧ ps_preEvents (io_enc s) = [].

Lemma not_deferring p : deferring (D := D) (E := E) options p = false.
Proof. unfold deferring, deferResponsesPreOutput. by rewrite bool_decide_eq_false_2. Qed.

Section stream.
Context (events : list canonicalStreamEvent) (last : canonicalStreamEvent).
Hypothesis Hquiet : Forall (λ event, terminal event = false) events.
Hypothesis Hlast : ev_Type last ∈ [Completed; Incomplete].
Hypothesis Hadmits : fe_admits (e0 := e0) (events ++ [last]).

(** The events of [pre] are encoded; the rest is to come. *)
Definition reached (pre : list canonicalStreamEvent) (s : io E) : Prop :=
  (pre = events ++ [last] ∧ fe_complete (e0 := e0) (frames s) events last ∧ ended_with last s)
  ∨ (∃ n, (n ≤ length events)%nat ∧ pre = take n events ∧ fe_follows (e0 := e0) s pre).

Lemma reached_end (s : io E) : reached (events ++ [last]) s → fe_complete (e0 := e0) (frames s) events last ∧ ended_with last s.
Proof.
  intros [(_ & ?)|(n & Hn & Hpre & _)]; [done|]. apply (f_equal length) in Hpre.
  rewrite length_app, length_take in Hpre. cbn in Hpre. lia.
Qed.

(** One event more. *)
Lemma reached_event pre event rest (s : io E) :
  pre ++ event :: rest = events ++ [last] → reached pre s →
  wp (λ _ s, fe_accepts (e0 := e0) (frames s) ∧ gave_up s) (EncodeEvent event) s
    (λ _ s, reached (pre ++ [event]) s).
Proof.
  intros Hall [(-> & _)|(n & Hn & -> & Hf)].
  { apply (f_equal length) in Hall. rewrite !length_app in Hall. cbn in Hall. lia. }
  destruct (decide (n = length events)) as [->|Hne].
  - rewrite take_ge in * by done. apply app_inj_1 in Hall as [_ Hr]; [|done]. injection Hr as -> ->.
    eapply wp_mono; [|by apply fe_last]. intros _ s' [? ?]. by left.
  - assert (n < length events)%nat as Hlt by lia.
    assert (events !! n = Some event) as Hev.
    { rewrite <- (lookup_app_l events [last]) by done. rewrite <- Hall, lookup_app_r by (rewrite length_take; lia).
      rewrite length_take, Nat.min_l, Nat.sub_diag by lia. done. }
    eapply wp_mono; [|apply (fe_event s (take n events) event); [|exact Hf|]].
    + intros [] s' Hs'. right. exists (S n). rewrite (take_S_r _ _ _ Hev). split_and!; [lia|done|done].
    + rewrite <- (take_S_r _ _ _ Hev). apply (fe_admits_prefix _ (drop (S n) events ++ [last])).
      by rewrite app_assoc, take_drop.
    + rewrite list.Forall_lookup in Hquiet. by eapply Hquiet.
Qed.

(** The event is encoded in the loop: with the headers, on the encoder's part. *)
Lemma encode_one pre event rest s d (Q : unit → io (proxyState D E) → Prop) :
  pre ++ event :: rest = events ++ [last] → plain s d → reached pre (encoder_part s) →
  (∀ s', plain s' d → reached (pre ++ [event]) (encoder_part s') → Q tt s') →
  wp lost (bind (modify st_headers) (λ _,
    on_error (encoding (EncodeEvent event)) (end_if_empty "downstream_stream_write_failed"))) s Q.
Proof.
  intros Hall Hp Hr HQ. repeat px_step. apply wp_encoding. cbv zeta.
  change (mkIO (ps_encoder _) _ _) with (encoder_part s).
  pose proof (reached_event pre event rest (encoder_part s) Hall Hr) as Hm. unfold wp in *.
  destruct (EncodeEvent event (encoder_part s)) as [[[]|e] s'].
  - destruct s'. apply HQ; [exact Hp|exact Hm].
  - destruct s'. destruct Hm as [Ha Hg]. split; [exact Ha|]. exact (gave_up_encoded _ Hg).
Qed.

Lemma encode_all evs rest pre s d (Q : unit → io (proxyState D E) → Prop) :
  pre ++ evs ++ rest = events ++ [last] → plain s d → reached pre (encoder_part s) →
  (∀ s', plain s' d → reached (pre ++ evs) (encoder_part s') → Q tt s') →
  wp lost (encodeRawEvents evs) s Q.
Proof.
  unfold encodeRawEvents. revert pre s. induction evs as [|event evs IH]; intros pre s Hall Hp Hr HQ.
  { apply wp_ret, HQ; [done|]. by rewrite app_nil_r. }
  cbn [for_each]. apply wp_bind. eapply encode_one; [exact Hall|exact Hp|exact Hr|].
  intros s' Hp' Hr'. apply (IH (pre ++ [event])); [by rewrite <- app_assoc|done|done|].
  intros s2 Hp2 Hr2. apply HQ; [done|]. by rewrite <- app_assoc in Hr2.
Qed.

(** With nothing held back, events are encoded at once. *)
Lemma encodeEvents_plain evs s d (Q : unit → io (proxyState D E) → Prop) :
  plain s d → (∀ s', plain s' d → encoder_part s' = encoder_part s → wp lost (encodeRawEvents evs) s' Q) →
  wp lost (encodeEvents evs) s Q.
Proof.
  intros (Hd & Hf & Hp) HQ. unfold encodeEvents, flushPreOutput. repeat wp_step. unfold encodeFiltered at 1.
  repeat wp_step. rewrite Hf, Hp. cbn. repeat wp_step. unfold encodeFiltered. repeat wp_step.
  change (ps_filter (st_pre [] 0 (io_enc s))) with (ps_filter (io_enc s)). rewrite Hf. by apply HQ.
Qed.

Lemma line_reached line d d' evs rest pre s (Q : bool → io (proxyState D E) → Prop) :
  DecodeLine d line = (d', Ok evs) → line ≠ "" → pre ++ evs ++ rest = events ++ [last] →
  plain s d → reached pre (encoder_part s) →
  (∀ s', plain s' d' → reached (pre ++ evs) (encoder_part s') → Q false s') →
  wp lost (step parse rawText options (mkRead false line NoError)) s Q.
Proof.
  intros Hdec Hne Hall (Hd & Hf & Hp) Hr HQ. unfold step. cbn [rd_cancelled rd_line rd_err]. repeat wp_step.
  rewrite not_deferring. rewrite (bool_decide_eq_false_2 _ Hne). repeat wp_step.
  unfold processLine. rewrite Hinspect. repeat wp_step. rewrite not_deferring, Hd, Hdec. cbv beta iota. repeat wp_step.
  unfold handleEvents. repeat wp_step. rewrite not_deferring. cbn [andb when]. repeat wp_step.
  eapply encodeEvents_plain with (d := d'); [by split_and!|]. intros s1 Hp1 He1.
  eapply encode_all; [exact Hall|exact Hp1|by rewrite He1|]. intros s2 Hp2 Hr2. repeat wp_step. by apply HQ.
Qed.

(** All lines decode, and what they say is [events ++ [last]]. *)
Fixpoint decodeLines d (lines : list string) : option (D * list canonicalStreamEvent) :=
  match lines with
  | [] => Some (d, [])
  | line :: rest =>
      match DecodeLine d line with
      | (d, Ok evs) => '(d, more) ← decodeLines d rest; Some (d, evs ++ more)
      | _ => None
      end
  end.

Lemma eof_reached d s (Q : unit → io (proxyState D E) → Prop) :
  (FlushDecoder d).2 = [] → plain s d → reached (events ++ [last]) (encoder_part s) →
  (∀ s', fe_complete (e0 := e0) (frames s') events last →
     sc_endReason (io_capture s') = AnthropicStream.end_reason last → Q tt s') →
  wp lost (atEOF options) s Q.
Proof.
  intros Hflush (Hd & Hf & Hp) [Hc (Hsaw & Hcomp & Hend)]%reached_end HQ. cbn in Hsaw, Hcomp, Hend.
  unfold atEOF. repeat wp_step. rewrite Hd. destruct (FlushDecoder d) as [d' evs]. cbn in Hflush. subst evs.
  repeat wp_step. match goal with |- wp _ _ ?s' _ => set (s1 := s') end.
  assert (plain s1 d' ∧ encoder_part s1 = encoder_part s) as [Hp1 He1] by by split_and!.
  clearbody s1. eapply encodeEvents_plain; [exact Hp1|]. intros s2 (_ & Hf2 & Hpre2) He2. apply wp_ret.
  unfold flushPreOutput. repeat wp_step. unfold encodeFiltered. repeat wp_step.
  rewrite Hf2, Hpre2. apply wp_ret. repeat wp_step. rewrite He1 in He2. injection He2 as _ Ecap Ewriter.
  rewrite Ecap, Hsaw, andb_false_r, andb_false_l. unfold finishEOF. repeat wp_step.
  change (ps_filter (st_pre [] 0 (io_enc s2))) with (ps_filter (io_enc s2)). rewrite Hf2.
  assert (frames s2 = frames (encoder_part s)) as Hframes by (unfold frames; by rewrite Ewriter).
  unfold concludeEOF. repeat wp_step. rewrite Hcomp, Hsaw. unfold AnthropicStream.end_reason in *.
  case_bool_decide as Ht.
  - destruct (_ && _).
    + repeat wp_step. apply wp_fail. split; [|right; cbn; set_solver].
      change (fe_accepts (e0 := e0) (frames s2)). rewrite Hframes. by eapply fe_complete_accepts.
    + apply wp_modify_capture. apply HQ; [|done]. change (fe_complete (e0 := e0) (frames s2) events last). by rewrite Hframes.
  - rewrite Hend. cbn. apply wp_ret. apply HQ; [|exact Hend].
    change (fe_complete (e0 := e0) (frames s2) events last). by rewrite Hframes.
Qed.

Lemma loop_reached lines d d' evs pre s (Q : unit → io (proxyState D E) → Prop) :
  Forall (λ line, line ≠ "") lines → decodeLines d lines = Some (d', evs) → (FlushDecoder d').2 = [] →
  pre ++ evs = events ++ [last] → plain s d → reached pre (encoder_part s) →
  (∀ s', fe_complete (e0 := e0) (frames s') events last →
     sc_endReason (io_capture s') = AnthropicStream.end_reason last → Q tt s') →
  wp lost (proxyLoop parse rawText options (reads_of lines)) s Q.
Proof.
  intros Hlines. revert d evs pre s. induction Hlines as [|line lines Hne Hlines IH];
    intros d evs pre s Hdec Hflush Hall Hp Hr HQ; cbn [decodeLines] in Hdec.
  - injection Hdec as <- <-. rewrite app_nil_r in Hall. subst pre. by eapply eof_reached.
  - destruct (DecodeLine d line) as [d1 [evs1|]] eqn:E1; [|done].
    destruct (decodeLines d1 lines) as [[d2 more]|] eqn:E2; [|done]. injection Hdec as -> <-.
    cbn [reads_of map proxyLoop]. wp_step. eapply line_reached; [exact E1|done|exact Hall|exact Hp|exact Hr|].
    intros s1 Hp1 Hr1. cbv beta iota. eapply IH; [exact E2|done| |exact Hp1|exact Hr1|exact HQ].
    by rewrite <- app_assoc.
Qed.
End stream.

(** The lines of an upstream decode to [events] and the terminal [last]: then the client has
    it all, or the connection broke, or the capture names the reason. *)
Lemma stream_reaches_client room lines d events last :
  Forall (λ line, line ≠ "") lines →
  decodeLines newDecoder lines = Some (d, events ++ [last]) → (FlushDecoder d).2 = [] →
  Forall (λ event, terminal event = false) events → ev_Type last ∈ [Completed; Incomplete] →
  fe_admits (e0 := e0) (events ++ [last]) →
  match proxyCanonicalStream (D := D) parse rawText options e0 room (reads_of lines) with
  | (Ok _, s) => fe_complete (e0 := e0) (frames s) events last
                 ∧ sc_endReason (io_capture s) = AnthropicStream.end_reason last
  | (Err _, s) => fe_accepts (e0 := e0) (frames s) ∧ gave_up s
  end.
Proof.
  intros Hlines Hdec Hflush Hquiet Hlast Hadmits. unfold proxyCanonicalStream. rewrite Hstop. set (s0 := mkIO _ _ _).
  assert (wp lost (proxyLoop parse rawText options (reads_of lines)) s0 (λ _ s,
    fe_complete (e0 := e0) (frames s) events last
    ∧ sc_endReason (io_capture s) = AnthropicStream.end_reason last)) as H'.
  { eapply (loop_reached events last) with (pre := []); [done|done|done|exact Hlines|exact Hdec|exact Hflush|reflexivity|done| |by split].
    right. exists O. split_and!; [lia|done|]. apply fe_begin. }
  unfold wp in H'. by destruct (proxyLoop _ _ _ _ s0) as [[[]|e] s].
Qed.
End clients.

(** ** A chat upstream *)

Section chat_upstream.
Context (parse : string → option any) (newUUID : Z → string).

#[local] Instance decoder : canonicalStreamDecoder openAIChatStreamDecoder := chatDecoder parse newUUID.

(** The decoder alone, over lines it takes without an error. *)
Fixpoint decodeChatLines (d : openAIChatStreamDecoder) (lines : list string)
    : option (openAIChatStreamDecoder * list canonicalStreamEvent) :=
  match lines with
  | [] => Some (d, [])
  | line :: rest =>
      '(d, events) ← ChatStream.DecodeLine newUUID parse d line;
      '(d, more) ← decodeChatLines d rest; Some (d, events ++ more)
  end.

(** Before [[DONE]] no event ends the stream. *)
Definition chat_running (d : openAIChatStreamDecoder) : Prop :=
  cd_terminalEmitted d = false
  ∧ ∀ e, cd_pendingTerminal d = Some e → ev_Type e ∈ [Completed; Incomplete].

(** The events before the end: no advanced ones, and reasoning has no name of its own. *)
Definition quiet_event (event : canonicalStreamEvent) : bool :=
  negb (terminal event) && negb (bool_decide (ev_Type event = Advanced))
  && bool_decide (ev_ReasoningEventName (ev_Reasoning event) = "").

Definition quiet (events : list canonicalStreamEvent) : Prop := Forall (λ event, quiet_event event = true) events.

Lemma decodeToolCalls_running chunk calls d :
  chat_running d →
  let '(d', events) := decodeToolCalls newUUID chunk d calls in chat_running d' ∧ quiet events.
Proof.
  revert d. induction calls as [|call rest IH]; intros d Hd; cbn [decodeToolCalls]; [split; [done|constructor]|].
  assert (let '(d', event) := decodeToolCall newUUID chunk d call in chat_running d' ∧ quiet_event event = true) as H.
  { unfold decodeToolCall. repeat case_bool_decide; by split. }
  destruct (decodeToolCall newUUID chunk d call) as [d1 event]. destruct H as [H1 H2].
  specialize (IH d1 H1). destruct (decodeToolCalls newUUID chunk d1 rest). destruct IH. split; [done|by constructor].
Qed.

Lemma decodeChoice_running chunk choice d :
  chat_running d →
  let '(d', events) := decodeChoice newUUID chunk d choice in chat_running d' ∧ quiet events.
Proof.
  intros Hd. unfold decodeChoice. case_bool_decide as Hf; cbn [negb].
  - pose proof (decodeToolCalls_running chunk (cm_ToolCalls (cc_Delta choice)) d Hd) as H.
    destruct (decodeToolCalls _ _ _ _) as [d' events]. destruct H as [H1 H2]. split; [done|].
    unfold quiet. rewrite !Forall_app. split_and!; [..|done]; repeat case_bool_decide; by repeat constructor.
  - split; [|constructor]. split; [apply Hd|]. cbn. intros e [= <-]. cbn.
    destruct (chatFinishReasonIsIncomplete _); set_solver.
Qed.

Lemma decodeChunk_running d chunk :
  chat_running d →
  let '(d', events) := decodeChunk newUUID d chunk in chat_running d' ∧ quiet events.
Proof.
  intros Hd. unfold decodeChunk. set (d0 := mkChatDecoder _ _ _ _ _). assert (chat_running d0) as Hd0 by done.
  clearbody d0. assert (∀ choices d, chat_running d →
    let '(d', events) := decodeChoices newUUID chunk d choices in chat_running d' ∧ quiet events) as Hch.
  { induction choices as [|choice rest IH]; intros d1 H1; cbn [decodeChoices]; [split; [done|constructor]|].
    pose proof (decodeChoice_running chunk choice d1 H1) as H. destruct (decodeChoice _ _ _ _) as [d2 evs].
    destruct H as [H2 Hq]. specialize (IH d2 H2). destruct (decodeChoices _ _ _ _). destruct IH.
    split; [done|]. by apply Forall_app. }
  specialize (Hch (ck_Choices chunk) d0 Hd0). destruct (decodeChoices _ _ _ _) as [d' events].
  destruct Hch as [H1 H2]. split; [done|]. unfold quiet. rewrite !Forall_app. split_and!; [|done|].
  - destruct (cd_createdSent d); by repeat constructor.
  - destruct (usageCounts _); by repeat constructor.
Qed.

Lemma decodeLine_running d line d' events :
  chat_running d → sseDataFromLine line ≠ SSEDone →
  ChatStream.DecodeLine newUUID parse d line = Some (d', events) → chat_running d' ∧ quiet events.
Proof.
  intros Hd Hline. unfold ChatStream.DecodeLine. destruct (sseDataFromLine line) as [| |data]; [|done|].
  { intros [= <- <-]. split; [done|constructor]. }
  destruct (parse data) as [value|]; [|done]. cbn. unfold decodeData. destruct (read_map value) as [m|]; [|done].
  cbn. destruct (read_chatChunk m) as [chunk|]; [|done]. cbn. intros [= E].
  pose proof (decodeChunk_running d chunk Hd) as H. by rewrite E in H.
Qed.


(** [[DONE]] gives the terminal event. *)
Definition chat_last (d : openAIChatStreamDecoder) : canonicalStreamEvent :=
  default (finishEvent Completed noMeta noFinish) (cd_pendingTerminal d).

(** A line without data: the blank line that ends an event, a comment, an event's name; or
    [[DONE]] once more. *)
Definition no_data (line : string) : bool := match sseDataFromLine line with SSEData _ => false | _ => true end.

(** What may follow [[DONE]] says nothing. *)
Lemma chat_after_done after d :
  cd_terminalEmitted d = true → Forall (λ line, line ≠ "" ∧ no_data line = true) after →
  decodeLines d after = Some (d, []).
Proof.
  intros Hem Hafter. induction Hafter as [|line after [_ Hn] Hafter IH]; [done|].
  cbn [decodeLines DecodeLine decoder chatDecoder]. unfold ChatStream.DecodeLine. unfold no_data in Hn.
  destruct (sseDataFromLine line); [| |done]; cbn [decoded_or_error]; unfold decodeDone; rewrite ?Hem; cbn [decoded_or_error];
    by rewrite IH.
Qed.

(** The lines of a chat stream, as the loop's decoder sees them. *)
Lemma chat_stream_decodes lines line after d d' events :
  Forall (λ line, line ≠ "" ∧ sseDataFromLine line ≠ SSEDone) lines → sseDataFromLine line = SSEDone →
  Forall (λ line, line ≠ "" ∧ no_data line = true) after →
  chat_running d → decodeChatLines d lines = Some (d', events) →
  chat_running d' ∧ quiet events
  ∧ ∃ d2, decodeLines d (lines ++ line :: after) = Some (d2, events ++ [chat_last d']) ∧ (FlushDecoder d2).2 = [].
Proof.
  intros Hlines Hline Hafter. revert d events. induction Hlines as [|l lines [Hne Hnd] Hlines IH]; intros d events Hrun Hdec.
  - injection Hdec as <- <-. split_and!; [apply Hrun..|constructor|]. destruct Hrun as [Hem _].
    cbn [app decodeLines DecodeLine decoder chatDecoder]. unfold ChatStream.DecodeLine. rewrite Hline.
    unfold decodeDone. rewrite Hem. cbn [decoded_or_error]. rewrite chat_after_done by done. by eexists.
  - cbn [decodeChatLines] in Hdec. destruct (ChatStream.DecodeLine newUUID parse d l) as [[d1 evs]|] eqn:E1; [|done].
    cbn in Hdec. destruct (decodeChatLines d1 lines) as [[d2 more]|] eqn:E2; [|done]. injection Hdec as -> <-.
    destruct (decodeLine_running d l d1 evs Hrun Hnd E1) as [Hrun1 Hq].
    destruct (IH d1 more Hrun1 E2) as (? & Hq2 & d3 & Hd3 & Hflush). split_and!; [done|by apply Forall_app|].
    exists d3. cbn [app decodeLines DecodeLine decoder chatDecoder]. rewrite E1. cbn [decoded_or_error].
    rewrite Hd3. cbn. by rewrite app_assoc.
Qed.

Lemma chat_lines_nonempty lines line after :
  Forall (λ line, line ≠ "" ∧ sseDataFromLine line ≠ SSEDone) lines → sseDataFromLine line = SSEDone →
  Forall (λ line, line ≠ "" ∧ no_data line = true) after →
  Forall (λ line, line ≠ "") (lines ++ line :: after).
Proof.
  intros Hlines Hline Hafter. apply Forall_app. split; [|constructor; [by intros ->|]].
  - eapply list.Forall_impl; [exact Hlines|]. by intros ? [].
  - eapply list.Forall_impl; [exact Hafter|]. by intros ? [].
Qed.

Lemma chat_last_terminal d : chat_running d → ev_Type (chat_last d) ∈ [Completed; Incomplete].
Proof.
  intros [_ H]. unfold chat_last. destruct (cd_pendingTerminal d) as [e|]; [by apply H|]. cbn. set_solver.
Qed.
End chat_upstream.

(** ** The clients of the encoders *)

Lemma content_of_snoc spec events event : content_of spec (events ++ [event]) = add_event spec (content_of spec events) event.
Proof. unfold content_of. by rewrite fold_left_app. Qed.

Section anthropic_client.
Context (spec candidateSpec : resolvedProtocolSpec) (requireUsage : bool) (valid : string → bool)
        (order : list (string * any) → list (string * any)) (id : string) (createdAt : Z).
Hypothesis Hname : protocolEventName spec Completed "message_stop" = "message_stop".

#[local] Instance encoder : canonicalStreamEncoder anthropicMessagesStreamEncoder :=
  anthropicEncoder spec candidateSpec requireUsage valid order.

(** The Messages client has the text, the thinking, the calls and the reason of the end. *)
Definition messages_complete (fs : list frame) (events : list canonicalStreamEvent) (last : canonicalStreamEvent)
    : Prop :=
  let ct := content_of candidateSpec events in
  ∃ bs, client_run CNew fs = Some (CDone bs (finish_reason ct last))
    ∧ message_text bs = ct_text ct ∧ message_thinking bs = ct_thinking ct
    ∧ ∀ id, message_arguments bs id = ct_arguments ct !! id.

#[local] Instance anthropicFaithful : FaithfulEncoder (newAnthropicMessagesStreamEncoder id createdAt).
Proof.
  refine {| fe_admits _ := True;
            fe_follows s events := ∃ bs, AnthropicStream.Inv s bs (content_of candidateSpec events);
            fe_accepts fs := is_Some (client_run CNew fs);
            fe_complete := messages_complete |}.
  - done.
  - intros fs events last (bs & H & _). by rewrite H.
  - intros room. exists []. apply AnthropicStream.Inv_new.
  - intros s events event _ [bs Hinv] Ht. apply (encode_spec spec candidateSpec requireUsage valid order s bs _ event _ Ht Hinv).
    intros s' bs' Hinv'. exists bs'. by rewrite content_of_snoc.
  - intros s events last _ [bs Hinv] Hlast.
    apply (last_spec spec candidateSpec requireUsage valid order last s bs (content_of candidateSpec events)); [done..|].
    intros s' bs' ? ? ? ? ? ? ?. split; [by exists bs'|by split_and!].
Defined.
End anthropic_client.

Section responses_client.
Context (spec candidateSpec : resolvedProtocolSpec) (siteType : string) (requireUsage : bool)
        (CustomTools : gset string) (ResponseTools : gmap string responsesToolIdentity)
        (valid : string → bool) (json : string → option any) (marshal : any → string) (newItemID : string)
        (order : list (string * any) → list (string * any)) (responseID : string) (createdAt : Z).
Hypothesis Hnames : standardNames spec.

#[local] Instance responsesEncoder : canonicalStreamEncoder openAIResponsesStreamEncoder := {|
  EncodeEvent := re_EncodeEvent spec candidateSpec siteType requireUsage CustomTools ResponseTools valid
                   json marshal newItemID order
|}.

Lemma keeps_response_start : keeps (sendResponseStartIfNeeded CustomTools ResponseTools json marshal).
Proof. unfold sendResponseStartIfNeeded, sendEvent. keep_all. Qed.
#[local] Hint Resolve keeps_response_start : keeps.
Lemma keeps_text_start : keeps (sendTextStartIfNeeded CustomTools ResponseTools json marshal).
Proof. unfold sendTextStartIfNeeded, sendEvent. keep_all. Qed.
Lemma keeps_add_call state : keeps (addToolCallState spec CustomTools ResponseTools newItemID state).
Proof. unfold addToolCallState, re_putCall, sendArgumentsDelta, sendEvent. keep_all. Qed.
#[local] Hint Resolve keeps_text_start keeps_add_call : keeps.
Lemma keeps_response_end status completed reason : reason ≠ "" →
  keeps (sendTerminalResponse spec requireUsage CustomTools ResponseTools json marshal newItemID status completed reason).
Proof.
  intros Hr. unfold sendTerminalResponse, sendTextDone, sendCallDone, sendEvent. keep_all.
Qed.

#[local] Instance responsesEncoderLaws : EncoderLaws openAIResponsesStreamEncoder.
Proof.
  constructor. intros event. change (keeps (EncodeEvent (E := openAIResponsesStreamEncoder) event)). cbn [EncodeEvent responsesEncoder].
  unfold re_EncodeEvent, re_mergeMeta, sendOutputText, re_sendToolCallDelta, responsesCallState, re_putCall,
    sendArgumentsDelta, re_sendReasoningEvent, sendAdvancedEvent, sendAnnotation, re_validateToolCallArguments, sendEvent.
  keep_all; by apply keeps_response_end.
Qed.

(** The identifier of the response, from its first event on. *)
Definition response_id (event : canonicalStreamEvent) : string :=
  if bool_decide (ev_ID (ev_Meta event) = "") then responseID else ev_ID (ev_Meta event).

Definition follows_response (s : io openAIResponsesStreamEncoder) (events : list canonicalStreamEvent) : Prop :=
  match events with
  | [] => ∃ room, s = newResponsesStream room (newOpenAIResponsesStreamEncoder responseID createdAt)
  | first :: _ => ∃ slots items,
      Inv CustomTools ResponseTools json marshal nothing_done (response_id first) s slots items
        (content_of candidateSpec events)
  end.

(** The event finds the client in step, whether it is the first or not. *)
Lemma follows_merged s events event :
  one_response responseID (events ++ [event]) = true → follows_response s events →
  ∃ id slots items, Inv CustomTools ResponseTools json marshal nothing_done id (re_merged event s) slots items
      (content_of candidateSpec events)
    ∧ id = response_id (hd event events).
Proof.
  destruct events as [|first rest]; cbn [app one_response hd follows_response].
  - intros _ [room ->]. eexists _, _, _. split; [apply new_follows|done].
  - rewrite forallb_app. intros [_ [Hid _]%andb_true_iff]%andb_true_iff (slots & items & Hinv).
    exists (response_id first), slots, items. split; [|done]. by apply Inv_merged.
Qed.

#[local] Instance responsesFaithful : FaithfulEncoder (newOpenAIResponsesStreamEncoder responseID createdAt).
Proof.
  refine {| fe_admits events := Forall (λ event, passes_over spec order event = true) events
                                ∧ one_response responseID events = true;
            fe_follows := follows_response;
            fe_accepts fs := is_Some (reader_run (0, RNew) fs);
            fe_complete fs events last :=
              received CustomTools json marshal (end_status last) (content_of candidateSpec events) fs |}.
  - intros l1 l2 [[? _]%Forall_app Hone]. split; [done|]. destruct l1 as [|first rest]; [done|].
    cbn [app one_response] in *. rewrite forallb_app in Hone. by apply andb_true_iff in Hone as [? _].
  - intros fs events last (n & output & items & H & _). by eexists.
  - intros room. by exists room.
  - intros s events event [[_ [Hpass _]%list.Forall_cons]%Forall_app Hone] Hf Ht.
    destruct (follows_merged s events event Hone Hf) as (id & slots & items & Hinv & ->).
    eapply (encode_event_spec _ _ _ _ _ _ _ _ _ _ _ Hnames); [exact Ht|exact Hpass|exact Hinv|].
    intros s' slots' items' Hinv'. rewrite <- content_of_snoc in Hinv'.
    destruct events as [|first rest]; by exists slots', items'.
  - intros s events last [_ Hone] Hf Hlast.
    destruct (follows_merged s events last Hone Hf) as (id & slots & items & Hinv & ->).
    eapply (last_event_spec _ candidateSpec siteType _ _ _ _ _ _ _ order Hnames); [exact Hlast|exact Hinv|].
    intros s' Hr ? ? ?. split; [exact Hr|by split_and!].
Defined.
End responses_client.

(** ** Chat upstreams *)

Section chat_to_anthropic.
Context (parse : string → option any) (rawText : any → string) (newUUID : Z → string)
        (spec candidateSpec : resolvedProtocolSpec) (requireUsage : bool) (valid : string → bool)
        (order : list (string * any) → list (string * any)).

#[local] Instance from_chat : canonicalStreamDecoder openAIChatStreamDecoder := chatDecoder parse newUUID.
#[local] Instance to_anthropic : canonicalStreamEncoder anthropicMessagesStreamEncoder :=
  anthropicEncoder spec candidateSpec requireUsage valid order.

(** C15: A chat upstream reaches an Anthropic client whole.  Take any lines the chat decoder
    reads without an error, then [[DONE]] and after it only lines without data, such as the
    blank line that ends the event, and any policies, the end of the message having its usual
    name: through the loop of [proxyCanonicalStream] the client gets a stream its automaton
    accepts to the end, whose text, thinking and tool calls are those of the decoded events and whose stop reason is
    that of the terminal event; and the capture says "done", or "response_incomplete".  If it
    returns an error instead, what was sent is accepted so far, and the connection broke or
    the capture names the reason. *)
Theorem chat_reaches_anthropic_client room id createdAt lines line after d events :
  protocolEventName spec Completed "message_stop" = "message_stop" →
  Forall (λ line, line ≠ "" ∧ sseDataFromLine line ≠ SSEDone) lines → sseDataFromLine line = SSEDone →
  Forall (λ line, line ≠ "" ∧ no_data line = true) after →
  decodeChatLines parse newUUID newOpenAIChatStreamDecoder lines = Some (d, events) →
  let ct := content_of candidateSpec events in
  let last := default (finishEvent Completed noMeta noFinish) (cd_pendingTerminal d) in
  match proxyCanonicalStream (D := openAIChatStreamDecoder) parse rawText
          (mkOptions OpenAIChat requireUsage [] None)
          (newAnthropicMessagesStreamEncoder id createdAt) room (reads_of (lines ++ line :: after)) with
  | (Ok _, s) =>
      (∃ bs, client_run CNew (frames s) = Some (CDone bs (finish_reason ct last))
         ∧ message_text bs = ct_text ct ∧ message_thinking bs = ct_thinking ct
         ∧ ∀ id, message_arguments bs id = ct_arguments ct !! id)
      ∧ sc_endReason (io_capture s) = end_reason last
  | (Err _, s) => is_Some (client_run CNew (frames s)) ∧ gave_up s
  end.
Proof.
  intros Hname Hlines Hline Hafter Hdec ct last.
  destruct (chat_stream_decodes parse newUUID lines line after newOpenAIChatStreamDecoder d events Hlines Hline Hafter)
    as (Hrun & Hquiet & d2 & Hd2 & Hflush); [done|exact Hdec|].
  apply (stream_reaches_client (FE := anthropicFaithful spec candidateSpec requireUsage valid order id createdAt Hname)
    parse rawText (mkOptions OpenAIChat requireUsage [] None)) with (lines := lines ++ line :: after) (d := d2) (events := events);
    [cbn; set_solver|done|done| |exact Hd2|exact Hflush| |by apply chat_last_terminal|done].
  - by apply (chat_lines_nonempty lines line after).
  - eapply list.Forall_impl; [exact Hquiet|]. intros event. by intros [[?%negb_true_iff _]%andb_true_iff _]%andb_true_iff.
Qed.
End chat_to_anthropic.

Section chat_to_responses.
Context (parse : string → option any) (rawText : any → string) (newUUID : Z → string)
        (spec candidateSpec : resolvedProtocolSpec) (siteType : string) (requireUsage : bool)
        (CustomTools : gset string) (ResponseTools : gmap string responsesToolIdentity)
        (valid : string → bool) (json : string → option any) (marshal : any → string) (newItemID : string)
        (order : list (string * any) → list (string * any)).

#[local] Instance from_chat' : canonicalStreamDecoder openAIChatStreamDecoder := chatDecoder parse newUUID.
#[local] Instance to_responses : canonicalStreamEncoder openAIResponsesStreamEncoder :=
  responsesEncoder spec candidateSpec siteType requireUsage CustomTools ResponseTools valid json marshal newItemID order.

(** C16: A chat upstream reaches a Responses client whole.  Take any lines the chat decoder
    reads without an error whose chunks carry one identifier, then [[DONE]] and after it only
    lines without data, such as the blank line that ends the event, with the usual names of
    the events: through the loop of [proxyCanonicalStream] the client gets events its
    automaton follows to the end, whose text and tool calls are those of the decoded events, each item shown once and at a place
    of its own; the status of the response is "completed" or "incomplete" as the upstream
    finished, and the capture says so.  If it returns an error instead, the client could
    follow what was sent, and the connection broke or the capture names the reason. *)
Theorem chat_reaches_responses_client room responseID createdAt lines line after d events :
  standardNames spec → protocolEventName spec ReasoningDelta "response.reasoning_delta" ∉ knownTypes →
  Forall (λ line, line ≠ "" ∧ sseDataFromLine line ≠ SSEDone) lines → sseDataFromLine line = SSEDone →
  Forall (λ line, line ≠ "" ∧ no_data line = true) after →
  decodeChatLines parse newUUID newOpenAIChatStreamDecoder lines = Some (d, events) →
  let last := default (finishEvent Completed noMeta noFinish) (cd_pendingTerminal d) in
  one_response responseID (events ++ [last]) = true →
  match proxyCanonicalStream (D := openAIChatStreamDecoder) parse rawText
          (mkOptions OpenAIChat requireUsage [] None)
          (newOpenAIResponsesStreamEncoder responseID createdAt) room (reads_of (lines ++ line :: after)) with
  | (Ok _, s) =>
      received CustomTools json marshal (end_status last) (content_of candidateSpec events) (frames s)
      ∧ sc_endReason (io_capture s) = end_reason last
  | (Err _, s) => is_Some (reader_run (0, RNew) (frames s)) ∧ gave_up s
  end.
Proof.
  intros Hnames Hreason Hlines Hline Hafter Hdec last Hone.
  destruct (chat_stream_decodes parse newUUID lines line after newOpenAIChatStreamDecoder d events Hlines Hline Hafter)
    as (Hrun & Hquiet & d2 & Hd2 & Hflush); [done|exact Hdec|].
  pose proof (chat_last_terminal d Hrun) as Hlast.
  apply (stream_reaches_client (FE := responsesFaithful spec candidateSpec siteType requireUsage CustomTools
      ResponseTools valid json marshal newItemID order responseID createdAt Hnames)
    parse rawText (mkOptions OpenAIChat requireUsage [] None)) with (lines := lines ++ line :: after) (d := d2) (events := events);
    [cbn; set_solver|done|done| |exact Hd2|exact Hflush| |exact Hlast|split; [|exact Hone]].
  - by apply (chat_lines_nonempty lines line after).
  - eapply list.Forall_impl; [exact Hquiet|]. intros event. by intros [[?%negb_true_iff _]%andb_true_iff _]%andb_true_iff.
  - apply Forall_app. split.
    + eapply list.Forall_impl; [exact Hquiet|]. intros event [[_ Ha%negb_true_iff%bool_decide_eq_false]%andb_true_iff
        Hr%bool_decide_eq_true]%andb_true_iff. unfold passes_over. destruct (ev_Type event); try done.
      rewrite Hr. by apply bool_decide_eq_true.
    + constructor; [|constructor]. change (passes_over spec order (chat_last d) = true). unfold passes_over.
      set_unfold in Hlast. by destruct Hlast as [E|[E|[]]]; rewrite E.
Qed.
End chat_to_responses.

(** ** Samples *)

(** Two chunks, by the letter their data stands for. *)
Definition chat_sample (data : string) : option any :=
  match data with
  | "A" => Some (AObject [("id", AString "chatcmpl-7"); ("choices", AArray [AObject
             [("delta", AObject [("content", AString "Looking.")])]])])
  | "B" => Some (AObject [("id", AString "chatcmpl-7"); ("choices", AArray [AObject
             [("delta", AObject []); ("finish_reason", AString "stop")]])])
  | _ => None
  end.

(** The lines as they are read, with the blank line after each event. *)
Definition chat_sample_lines : list string := ["data: A" +:+ LF; LF; "data: B" +:+ LF; LF].
Definition done_line : string := "data: [DONE]" +:+ LF.

Lemma chat_reaches_anthropic_client_witness :
  ∃ s bs,
    @proxyCanonicalStream openAIChatStreamDecoder anthropicMessagesStreamEncoder
      (chatDecoder chat_sample (λ _, "")) (anthropicEncoder anthropicSpec anthropicSpec false (λ _, true) id)
      chat_sample (λ _, "") (mkOptions OpenAIChat false [] None)
      (newAnthropicMessagesStreamEncoder "msg_1" 0) None
      (reads_of (chat_sample_lines ++ [done_line; LF])) = (Ok tt, s)
    ∧ client_run CNew (frames s) = Some (CDone bs "end_turn") ∧ message_text bs = "Looking."
    ∧ sc_endReason (io_capture s) = "done".
Proof.
  destruct (decodeChatLines chat_sample (λ _, "") newOpenAIChatStreamDecoder chat_sample_lines)
    as [[d events]|] eqn:Hdec; [|exfalso; vm_compute in Hdec; discriminate].
  pose proof (chat_reaches_anthropic_client chat_sample (λ _, "") (λ _, "") anthropicSpec anthropicSpec false
    (λ _, true) id None "msg_1" 0 chat_sample_lines done_line [LF] d events) as H.
  specialize (H ltac:(vm_compute; reflexivity)).
  specialize (H ltac:(repeat constructor; vm_compute; discriminate)).
  specialize (H ltac:(vm_compute; reflexivity) ltac:(repeat constructor; discriminate) Hdec). cbv zeta in H.
  destruct (proxyCanonicalStream _ _ _ _ _ _) as [[[]|e] s] eqn:E in H;
    [|exfalso; vm_compute in E; discriminate].
  destruct H as [(bs & Hc & Ht & _) Hend]. exists s, bs. vm_compute in Hdec. injection Hdec as <- <-.
  split_and!; [exact E|exact Hc|exact Ht|exact Hend].
Defined.


Lemma chat_reaches_responses_client_witness :
  ∃ s n output items,
    @proxyCanonicalStream openAIChatStreamDecoder openAIResponsesStreamEncoder
      (chatDecoder chat_sample (λ _, ""))
      (responsesEncoder responsesSpec responsesSpec "openai" false ∅ ∅ (λ _, true) (λ _, None) (λ _, "") "" id)
      chat_sample (λ _, "") (mkOptions OpenAIChat false [] None)
      (newOpenAIResponsesStreamEncoder "resp_1" 0) None
      (reads_of (chat_sample_lines ++ [done_line; LF])) = (Ok tt, s)
    ∧ reader_run (0, RNew) (frames s) = Some (n, RDone "completed" output items)
    ∧ output_text output = "Looking." ∧ sc_endReason (io_capture s) = "done".
Proof.
  destruct (decodeChatLines chat_sample (λ _, "") newOpenAIChatStreamDecoder chat_sample_lines)
    as [[d events]|] eqn:Hdec; [|exfalso; vm_compute in Hdec; discriminate].
  pose proof (chat_reaches_responses_client chat_sample (λ _, "") (λ _, "") responsesSpec responsesSpec "openai" false
    ∅ ∅ (λ _, true) (λ _, None) (λ _, "") "" id None "resp_1" 0 chat_sample_lines done_line [LF] d events) as H.
  specialize (H ltac:(vm_compute; repeat split; reflexivity)).
  specialize (H ltac:(apply (bool_decide_unpack _); vm_compute; exact I)).
  specialize (H ltac:(repeat constructor; vm_compute; discriminate)).
  specialize (H ltac:(vm_compute; reflexivity) ltac:(repeat constructor; discriminate) Hdec). cbv zeta in H.
  vm_compute in Hdec. injection Hdec as <- <-.
  specialize (H ltac:(vm_compute; reflexivity)).
  destruct (proxyCanonicalStream _ _ _ _ _ _) as [[[]|e] s] eqn:E in H;
    [|exfalso; vm_compute in E; discriminate].
  destruct H as [(n & output & items & Hr & _ & _ & Ht & _) Hend]. exists s, n, output, items.
  split; [exact E|]. split; [exact Hr|]. split; [exact Ht|exact Hend].
Defined.
