(* ===== verification/AnthropicDecoder.v ===== *)
(** * The Anthropic stream decoder

    [anthropicMessagesStreamDecoder] of [gateway/protocol_canonical_stream.go], with the
    usage it folds ([gateway/protocol_anthropic_messages.go]): events of the Messages API
    in, canonical events out.  The theorem compares it with the client automaton of
    [AnthropicStream]: of a stream such a client follows to the end, the decoder's events
    say what the client's message holds. *)

From S2P Require Import Prelude GoFloat Catalog Json Pricing StreamEvents AnthropicStream.

(** ** Usage *)

Record anthropicCacheCreationUsageBody := mkCacheCreation {
  Ephemeral5mInputTokens : Z;
  Ephemeral1hInputTokens : Z
}.

Record anthropicMessageUsageBody := mkUsageBody {
  ub_InputTokens : Z;
  ub_OutputTokens : Z;
  ub_CacheCreationInputTokens : Z;
  ub_CacheReadInputTokens : Z;
  ub_CacheCreation : option anthropicCacheCreationUsageBody
}.

Definition read_cacheCreation (m : list (string * any)) : option anthropicCacheCreationUsageBody :=
  five ← read_int (field m "ephemeral_5m_input_tokens");
  hour ← read_int (field m "ephemeral_1h_input_tokens");
  Some (mkCacheCreation five hour).

Definition read_usageBody (m : list (string * any)) : option anthropicMessageUsageBody :=
  input ← read_int (field m "input_tokens");
  output ← read_int (field m "output_tokens");
  created ← read_int (field m "cache_creation_input_tokens");
  cached ← read_int (field m "cache_read_input_tokens");
  creation ← read_pointer read_cacheCreation (field m "cache_creation");
  Some (mkUsageBody input output created cached creation).

Definition gatewayUsageFromAnthropicUsage (usage : anthropicMessageUsageBody) : gatewayUsage :=
  let '(created5m, created1h) :=
    match ub_CacheCreation usage with
    | Some c => (Ephemeral5mInputTokens c, Ephemeral1hInputTokens c)
    | None => (ub_CacheCreationInputTokens usage, 0)
    end in
  let created := add64 created5m created1h in
  let created := if created =? 0 then ub_CacheCreationInputTokens usage else created in
  let prompt := add64 (add64 (ub_InputTokens usage) (ub_CacheReadInputTokens usage)) created in
  mkUsage prompt (ub_OutputTokens usage) (add64 prompt (ub_OutputTokens usage)) 0
    (ub_CacheReadInputTokens usage) 0 0 0 created created5m created1h 0 0 0 0 0 None.

Definition mergeAnthropicStreamUsage (current delta : gatewayUsage) : gatewayUsage :=
  let current :=
    if (0 <? PromptTokens delta) || (0 <? CachedPromptTokens delta) || (0 <? CacheCreationInputTokens delta)
    then mkUsage (PromptTokens delta) (CompletionTokens current) (TotalTokens current) (ImageCount current)
           (CachedPromptTokens delta) (PromptCacheHitTokens current) (PromptCacheMissTokens current)
           (CacheWriteTokens current) (CacheCreationInputTokens delta)
           (CacheCreation5mInputTokens delta) (CacheCreation1hInputTokens delta)
           (ReasoningTokens current) (InputTextTokens current) (InputImageTokens current)
           (OutputImageTokens current) (AudioOutputTokens current) (PromptTokensDetail current)
    else current in
  let completion := if 0 <? CompletionTokens delta then CompletionTokens delta else CompletionTokens current in
  normalized (mkUsage (PromptTokens current) completion 0 (ImageCount current)
    (CachedPromptTokens current) (PromptCacheHitTokens current) (PromptCacheMissTokens current)
    (CacheWriteTokens current) (CacheCreationInputTokens current)
    (CacheCreation5mInputTokens current) (CacheCreation1hInputTokens current)
    (ReasoningTokens current) (InputTextTokens current) (InputImageTokens current)
    (OutputImageTokens current) (AudioOutputTokens current) (PromptTokensDetail current)).

(** [json.Unmarshal] of what [json.Marshal] writes of a value of a map, whose numbers are
    [float64]: a whole number is written without a fraction.  Counts beyond [2^53], which
    the map would round, are left as they are. *)
Fixpoint remarshaled (value : any) : any :=
  match value with
  | AFloat f =>
      match trunc_int64 f with
      | Some n => if feq (of_int n) f then AInt n else value
      | None => value
      end
  | AObject members => AObject (map (λ '(k, v), (k, remarshaled v)) members)
  | AArray items => AArray (map remarshaled items)
  | _ => value
  end.

(** ** The decoder *)

Record anthropicMessagesStreamDecoder := mkAnthropicDecoder {
  ad_responseID : string;
  ad_model : string;
  ad_stopReason : string;
  ad_usage : gatewayUsage;
  ad_toolIDByIndex : gmap Z string;
  ad_toolNameByIndex : gmap Z string;
  ad_thinkingByIndex : gmap Z bool
}.

Definition newAnthropicMessagesStreamDecoder : anthropicMessagesStreamDecoder :=
  mkAnthropicDecoder "" "" "" noUsage ∅ ∅ ∅.

(** The struct a line is unmarshalled into. *)
Record anthropicStreamEvent := mkAnthropicEvent {
  av_Type : string;
  av_Index : Z;
  av_Message : list (string * any);
  av_ContentBlock : list (string * any);
  av_Delta : list (string * any);
  av_Usage : anthropicMessageUsageBody;
  av_Error : list (string * any)
}.

Definition read_anthropicEvent (m : list (string * any)) : option anthropicStreamEvent :=
  type ← read_string (field m "type");
  index ← read_int (field m "index");
  message ← read_map (field m "message");
  content ← read_map (field m "content_block");
  delta ← read_map (field m "delta");
  usage ← read_map (field m "usage");
  usage ← read_usageBody usage;
  error ← read_map (field m "error");
  Some (mkAnthropicEvent type index message content delta usage error).

Definition anthropicStopReasonToFinishReason (reason : string) : string :=
  let reason := TrimSpace reason in
  if bool_decide (reason = "max_tokens") then "length"
  else if bool_decide (reason = "tool_use") then "tool_calls"
  else if bool_decide (reason ∈ ["stop_sequence"; "end_turn"]) then "stop"
  else reason.

(** A nil map and an empty one give the same. *)
Definition anthropicStreamErrorMessage (value : list (string * any)) : string :=
  nonEmptyString [stringFromMapAny value "message"; stringFromMapAny value "type";
                  "anthropic stream returned an error"].

Definition inputCounts (u : anthropicMessageUsageBody) : bool :=
  (0 <? ub_InputTokens u) || (0 <? ub_CacheReadInputTokens u) || (0 <? ub_CacheCreationInputTokens u).

Section decoder.
(** The second [message_start] is read in. *)
Context (now : Z).

(** Updates of single fields. *)
Definition ad_set_usage (usage : gatewayUsage) (d : anthropicMessagesStreamDecoder) :=
  mkAnthropicDecoder (ad_responseID d) (ad_model d) (ad_stopReason d) usage
    (ad_toolIDByIndex d) (ad_toolNameByIndex d) (ad_thinkingByIndex d).
Definition ad_set_tool (index : Z) (id name : string) (d : anthropicMessagesStreamDecoder) :=
  mkAnthropicDecoder (ad_responseID d) (ad_model d) (ad_stopReason d) (ad_usage d)
    (<[index := id]> (ad_toolIDByIndex d)) (<[index := name]> (ad_toolNameByIndex d)) (ad_thinkingByIndex d).
Definition ad_set_thinking (index : Z) (d : anthropicMessagesStreamDecoder) :=
  mkAnthropicDecoder (ad_responseID d) (ad_model d) (ad_stopReason d) (ad_usage d)
    (ad_toolIDByIndex d) (ad_toolNameByIndex d) (<[index := true]> (ad_thinkingByIndex d)).
Definition ad_set_stopReason (reason : string) (d : anthropicMessagesStreamDecoder) :=
  mkAnthropicDecoder (ad_responseID d) (ad_model d) reason (ad_usage d)
    (ad_toolIDByIndex d) (ad_toolNameByIndex d) (ad_thinkingByIndex d).

(** [d.usage] takes in a snapshot, and an event tells. *)
Definition foldUsage (usage : anthropicMessageUsageBody) (d : anthropicMessagesStreamDecoder)
    : anthropicMessagesStreamDecoder * list canonicalStreamEvent :=
  let merged := mergeAnthropicStreamUsage (ad_usage d) (gatewayUsageFromAnthropicUsage usage) in
  (ad_set_usage merged d, [usageEvent (completionUsageFromGatewayUsage merged)]).

Definition decodeMessageStart (d : anthropicMessagesStreamDecoder) (message : list (string * any))
    : anthropicMessagesStreamDecoder * list canonicalStreamEvent :=
  let id := anyString (map_index message "id") in
  let model := anyString (map_index message "model") in
  let d := mkAnthropicDecoder id model (ad_stopReason d) (ad_usage d)
             (ad_toolIDByIndex d) (ad_toolNameByIndex d) (ad_thinkingByIndex d) in
  let created := createdEvent (mkMeta id model now) in
  match map_get message "usage" with
  | Some messageUsage =>
      match members ← read_map (remarshaled messageUsage); read_usageBody members with
      | Some usage =>
          if inputCounts usage then let '(d, told) := foldUsage usage d in (d, created :: told)
          else (d, [created])
      | None => (d, [created])
      end
  | None => (d, [created])
  end.

Definition decodeBlockStart (d : anthropicMessagesStreamDecoder) (index : Z) (content : list (string * any))
    : anthropicMessagesStreamDecoder * list canonicalStreamEvent :=
  let kind := anyString (map_index content "type") in
  if bool_decide (kind = "thinking") then (ad_set_thinking index d, [])
  else if bool_decide (kind = "redacted_thinking") then
    (ad_set_thinking index d,
     [reasoningEvent noMeta "" (mkReasoning "thinking_redacted" "content_block_start" index)])
  else if bool_decide (kind = "tool_use") then
    let callID := anyString (map_index content "id") in
    let name := anyString (map_index content "name") in
    (ad_set_tool index callID name d, [toolCallEvent noMeta (mkToolCall index callID name "" [])])
  else (d, []).

Definition decodeBlockDelta (d : anthropicMessagesStreamDecoder) (index : Z) (delta : list (string * any))
    : anthropicMessagesStreamDecoder * list canonicalStreamEvent :=
  let kind := anyString (map_index delta "type") in
  let said key := rawStringFromAny (map_index delta key) in
  let reasoning kind key :=
    (ad_set_thinking index d, [reasoningEvent noMeta (said key) (mkReasoning kind "content_block_delta" index)]) in
  if bool_decide (kind = "text_delta") then (d, [textEvent noMeta (said "text") false])
  else if bool_decide (kind = "thinking_delta") then reasoning "thinking" "thinking"
  else if bool_decide (kind = "signature_delta") then reasoning "thinking_signature" "signature"
  else if bool_decide (kind = "input_json_delta") then
    (d, [toolCallEvent noMeta (mkToolCall index (default "" (ad_toolIDByIndex d !! index))
           (default "" (ad_toolNameByIndex d !! index)) (said "partial_json") [])])
  else (d, []).

Definition decodeMessageDelta (d : anthropicMessagesStreamDecoder) (delta : list (string * any))
    (usage : anthropicMessageUsageBody) : anthropicMessagesStreamDecoder * list canonicalStreamEvent :=
  let d := ad_set_stopReason (anyString (map_index delta "stop_reason")) d in
  if (0 <? ub_OutputTokens usage) || inputCounts usage then foldUsage usage d else (d, []).

(** The terminal event, of the last stop reason. *)
Definition messageStop (stopReason : string) : canonicalStreamEvent :=
  let finishReason := anthropicStopReasonToFinishReason stopReason in
  finishEvent (if chatFinishReasonIsIncomplete finishReason then Incomplete else Completed) noMeta
    (mkFinish finishReason "" "").

Definition decodeAnthropicEvent (d : anthropicMessagesStreamDecoder) (event : anthropicStreamEvent)
    : anthropicMessagesStreamDecoder * list canonicalStreamEvent :=
  let type := av_Type event in
  if bool_decide (type = "message_start") then decodeMessageStart d (av_Message event)
  else if bool_decide (type = "content_block_start")
  then decodeBlockStart d (av_Index event) (av_ContentBlock event)
  else if bool_decide (type = "content_block_delta")
  then decodeBlockDelta d (av_Index event) (av_Delta event)
  else if bool_decide (type = "message_delta")
  then decodeMessageDelta d (av_Delta event) (av_Usage event)
  else if bool_decide (type = "message_stop") then (d, [messageStop (ad_stopReason d)])
  else if bool_decide (type = "error")
  then (d, [finishEvent ErrorEvent noMeta (mkFinish "" (anthropicStreamErrorMessage (av_Error event)) "")])
  else (d, []).

(** [None] is an error; [parse] is the JSON parser, which has nothing for [[DONE]]. *)
Definition DecodeLine (parse : string → option any) (d : anthropicMessagesStreamDecoder) (line : string)
    : option (anthropicMessagesStreamDecoder * list canonicalStreamEvent) :=
  match sseDataFromLine line with
  | SSENone => Some (d, [])
  | SSEDone => None
  | SSEData data =>
      value ← parse data; members ← read_map value; decodeAnthropicEvent d <$> read_anthropicEvent members
  end.
End decoder.

(** ** The lines of a message *)

(** The members of a line's object. *)
Definition line_payload (parse : string → option any) (line : string) : option (list (string * any)) :=
  match sseDataFromLine line with
  | SSEData data => match parse data with Some (AObject m) => Some m | _ => None end
  | _ => None
  end.

Definition event_fields : list string :=
  ["type"; "index"; "message"; "content_block"; "delta"; "usage"; "error"].

(** The members the struct looks for are there once, under their own names. *)
Definition exact_names (m : list (string * any)) : bool :=
  bool_decide (NoDup (map fst m))
  && forallb (λ '(k, _), forallb (λ name, negb (EqualFold k name) || bool_decide (k = name)) event_fields) m.

(** The line is no data, or an object that fits the struct. *)
Definition readable (parse : string → option any) (line : string) : bool :=
  match sseDataFromLine line with
  | SSENone => true
  | SSEDone => false
  | SSEData data =>
      match parse data with
      | Some (AObject m) => exact_names m && bool_decide (is_Some (read_anthropicEvent m))
      | _ => false
      end
  end.

(** What a client of the Messages API sees of the lines; a ping is for nobody. *)
Definition message_frames (parse : string → option any) (lines : list string) : list frame :=
  omap (λ line,
    m ← line_payload parse line;
    if bool_decide (string_of (map_index m "type") = "ping") then None
    else Some (FEvent "" (AObject m))) lines.

(** All lines decode without an error. *)
Fixpoint decodeLines (now : Z) (parse : string → option any) (d : anthropicMessagesStreamDecoder)
    (lines : list string) : option (anthropicMessagesStreamDecoder * list canonicalStreamEvent) :=
  match lines with
  | [] => Some (d, [])
  | line :: rest =>
      '(d, events) ← DecodeLine now parse d line;
      '(d, more) ← decodeLines now parse d rest; Some (d, events ++ more)
  end.

#[local] Arguments TrimSpace : simpl never.

Lemma exact_names_cons k v m :
  exact_names ((k, v) :: m) = true →
  exact_names m = true ∧ k ∉ map fst m
  ∧ ∀ name, name ∈ event_fields → EqualFold k name = bool_decide (k = name).
Proof.
  unfold exact_names. cbn [map forallb]. rewrite !andb_true_iff, !bool_decide_eq_true.
  intros [[Hk Hnd]%list.NoDup_cons [Hname Hm]]. split_and!; [done..|].
  intros name Hin. rewrite forallb_forall in Hname. specialize (Hname name).
  rewrite <- list_elem_of_In in Hname. specialize (Hname Hin).
  case_bool_decide as Hkn; [|by rewrite orb_false_r in Hname; apply negb_true_iff].
  subst. unfold event_fields in Hin. repeat (apply elem_of_cons in Hin as [->|Hin]; [done|]).
  by apply not_elem_of_nil in Hin.
Qed.

Lemma field_exact m name :
  exact_names m = true → name ∈ event_fields → field m name = map_index m name.
Proof.
  intros Hm Hin. induction m as [|[k v] m IH]; [done|].
  apply exact_names_cons in Hm as (Hm & Hk & Hname). cbn [field]. rewrite (IH Hm), (Hname name Hin).
  unfold map_index. cbn [map_get]. case_bool_decide as Hkn; [|by destruct (map_get m name) as [[]|]].
  subst. assert (map_get m name = None) as ->; [|done].
  clear -Hk. induction m as [|[k w] m IH]; [done|]. cbn in *. rewrite IH by set_solver.
  rewrite bool_decide_eq_false_2; [done|set_solver].
Qed.

Lemma read_string_of value s : read_string value = Some s → s = string_of value.
Proof. by destruct value; try done; intros [= <-]. Qed.
Lemma read_int_of value i n : read_int value = Some n → value = AInt i → n = i.
Proof. intros H ->. cbn in H. by case_bool_decide; simplify_eq. Qed.
Lemma read_map_of value m : read_map value = Some m → m = as_map value.
Proof. by destruct value; try done; intros [= <-]. Qed.

(** What the struct holds is what the client reads. *)
Lemma read_exact m ev :
  exact_names m = true → read_anthropicEvent m = Some ev →
  av_Type ev = string_of (map_index m "type")
  ∧ (∀ i, map_index m "index" = AInt i → av_Index ev = i)
  ∧ av_Message ev = as_map (map_index m "message")
  ∧ av_ContentBlock ev = as_map (map_index m "content_block")
  ∧ av_Delta ev = as_map (map_index m "delta").
Proof.
  intros Hm. unfold read_anthropicEvent.
  rewrite !(field_exact m) by (done || unfold event_fields; set_solver).
  destruct (read_string _) as [type|] eqn:Ht; [|done]. destruct (read_int _) as [index|] eqn:Hi; [|done].
  cbn [mbind option_bind].
  destruct (read_map (map_index m "message")) as [message|] eqn:Hmsg; [|done].
  destruct (read_map (map_index m "content_block")) as [content|] eqn:Hc; [|done].
  destruct (read_map (map_index m "delta")) as [delta|] eqn:Hd; [|done]. cbn [mbind option_bind].
  destruct (read_map (map_index m "usage")) as [u|]; [|done]. cbn [mbind option_bind].
  destruct (read_usageBody u) as [usage|]; [|done]. cbn [mbind option_bind].
  destruct (read_map (map_index m "error")) as [err|]; [|done]. intros [= <-].
  cbn [av_Type av_Index av_Message av_ContentBlock av_Delta].
  split_and!; [by apply read_string_of|intros i; by apply read_int_of|by apply read_map_of..].
Qed.

(** ** The texts of a message's blocks *)

Definition texts (k : blockKind) (bs : list block) : list string :=
  omap (λ b, if bool_decide (b_kind b = k) then Some (b_text b) else None) bs.

Lemma texts_snoc k bs b :
  texts k (bs ++ [b]) = texts k bs ++ if bool_decide (b_kind b = k) then [b_text b] else [].
Proof. unfold texts. rewrite omap_app. cbn. by destruct (bool_decide _). Qed.

Lemma texts_insert k bs i b b' :
  bs !! i = Some b → b_kind b' = b_kind b →
  texts k (<[i := b']> bs)
  = texts k (take i bs) ++ (if bool_decide (b_kind b = k) then [b_text b'] else []) ++ texts k (drop (S i) bs).
Proof.
  intros Hi Hk. rewrite insert_take_drop by by apply lookup_lt_Some in Hi.
  unfold texts. rewrite omap_app. cbn. rewrite Hk. by destruct (bool_decide _).
Qed.

Lemma texts_split k bs i b :
  bs !! i = Some b →
  texts k bs = texts k (take i bs) ++ (if bool_decide (b_kind b = k) then [b_text b] else []) ++ texts k (drop (S i) bs).
Proof. intros Hi. rewrite <- (texts_insert k bs i b b Hi eq_refl). by rewrite list_insert_id. Qed.

(** Closing a block leaves the texts. *)
Lemma texts_same k bs i b b' :
  bs !! i = Some b → b_kind b' = b_kind b → b_text b' = b_text b → texts k (<[i := b']> bs) = texts k bs.
Proof. intros Hi Hk Ht. rewrite (texts_insert k bs i b b' Hi Hk), (texts_split k bs i b Hi). by rewrite Ht. Qed.

Lemma texts_other k bs i b b' :
  bs !! i = Some b → b_kind b' = b_kind b → b_kind b ≠ k → texts k (<[i := b']> bs) = texts k bs.
Proof.
  intros Hi Hk Hne. rewrite (texts_insert k bs i b b' Hi Hk), (texts_split k bs i b Hi).
  by rewrite bool_decide_eq_false_2.
Qed.

Lemma texts_none k bs : none_of k bs = true → texts k bs = [].
Proof.
  intros H. unfold texts. apply omap_none. intros b [i Hi]%list_elem_of_lookup.
  rewrite bool_decide_eq_false_2; [done|]. by eapply none_of_spec.
Qed.

(** A delta to the last block of its kind goes to the end. *)
Lemma texts_newest bs i b b' :
  bs !! i = Some b → b_kind b' = b_kind b → none_of (b_kind b) (drop (S i) bs) = true →
  texts (b_kind b) bs = texts (b_kind b) (take i bs) ++ [b_text b]
  ∧ texts (b_kind b) (<[i := b']> bs) = texts (b_kind b) (take i bs) ++ [b_text b'].
Proof.
  intros Hi Hk Hlast. rewrite (texts_insert _ bs i b b' Hi Hk), (texts_split _ bs i b Hi).
  rewrite (texts_none _ _ Hlast). by rewrite !bool_decide_eq_true_2.
Qed.

(** ** What the events say and what the message holds *)

Section read.
Context (candidateSpec : resolvedProtocolSpec).

(** The thinking of a message, where the policy passes it on. *)
Definition passed_thinking (bs : list block) : string :=
  if bool_decide (reasoningPolicyForProtocol candidateSpec "thinking" = "passthrough")
  then message_thinking bs else "".

Record message_content (bs : list block) (ct : content) : Prop := mkMessageContent {
  mc_text : ct_text ct = message_text bs;
  mc_thinking : ct_thinking ct = passed_thinking bs;
  mc_arguments : ∀ id, ct_arguments ct !! id = message_arguments bs id
}.

(** No two calls have one identifier. *)
Definition calls_distinct (bs : list block) : Prop :=
  ∀ id, (length (texts (BTool id) bs) ≤ 1)%nat ∧ (texts (BTool id) bs ≠ [] → id ≠ "" ∧ TrimSpace id = id).

Lemma message_texts bs bs' :
  (∀ k, texts k bs' = texts k bs) →
  message_text bs' = message_text bs ∧ message_thinking bs' = message_thinking bs
  ∧ ∀ id, message_arguments bs' id = message_arguments bs id.
Proof.
  intros H. unfold message_text, message_thinking, message_arguments.
  fold (texts BText bs') (texts BText bs) (texts BThinking bs') (texts BThinking bs). rewrite !H.
  split_and!; [done..|]. intros id. fold (texts (BTool id) bs') (texts (BTool id) bs). by rewrite H.
Qed.

Lemma same_texts bs bs' ct :
  (∀ k, texts k bs' = texts k bs) → message_content bs ct → calls_distinct bs →
  message_content bs' ct ∧ calls_distinct bs'.
Proof.
  intros H [Ht Hth Ha] Hd. destruct (message_texts bs bs' H) as (E1 & E2 & E3). split.
  - constructor; [by rewrite E1|unfold passed_thinking; by rewrite E2|intros id; by rewrite E3].
  - intros id. rewrite H. apply Hd.
Qed.

(** A text or thinking block that begins, and a call that begins. *)
Lemma block_begins bs b ct :
  new_block bs b = true → b_text b = "" → message_content bs ct → calls_distinct bs →
  let ct' := match b_kind b with
             | BTool id => mkContent (ct_text ct) (ct_thinking ct) (<[id := default "" (ct_arguments ct !! id)]> (ct_arguments ct))
             | _ => ct
             end in
  message_content (bs ++ [b]) ct' ∧ calls_distinct (bs ++ [b]).
Proof.
  intros Hnew Hempty [Ht Hth Ha] Hd ct'.
  assert (Hcat : ∀ k, (∀ id, k ≠ BTool id) → String.concat "" (texts k (bs ++ [b])) = String.concat "" (texts k bs)).
  { intros k _. rewrite texts_snoc, Hempty. destruct (bool_decide _); [|by rewrite app_nil_r].
    by rewrite concat_snoc, append_nil_r. }
  assert (message_text (bs ++ [b]) = message_text bs) as Et by by apply Hcat.
  assert (passed_thinking (bs ++ [b]) = passed_thinking bs) as Eth.
  { unfold passed_thinking, message_thinking. fold (texts BThinking (bs ++ [b])) (texts BThinking bs). by rewrite Hcat. }
  assert (Hother : ∀ id, b_kind b ≠ BTool id → texts (BTool id) (bs ++ [b]) = texts (BTool id) bs).
  { intros id Hne. rewrite texts_snoc, bool_decide_eq_false_2 by done. by rewrite app_nil_r. }
  unfold new_block in Hnew. destruct (b_kind b) as [| |id] eqn:Hk; subst ct'.
  1, 2: split; [constructor; [by rewrite Et|by rewrite Eth|]
               |intros id; rewrite Hother by done; apply Hd];
        intros id; rewrite Ha; unfold message_arguments; fold (texts (BTool id) bs);
        by rewrite <- (Hother id) by done.
  apply andb_true_iff in Hnew as [[Hne%negb_true_iff%bool_decide_eq_false Htrim%bool_decide_eq_true]%andb_true_iff Hnone].
  assert (texts (BTool id) (bs ++ [b]) = [""]) as Enew.
  { rewrite texts_snoc, (texts_none _ _ Hnone), bool_decide_eq_true_2 by done. by rewrite Hempty. }
  split.
  - constructor; cbn [ct_text ct_thinking ct_arguments]; [by rewrite Et|by rewrite Eth|].
    intros id'. unfold message_arguments. fold (texts (BTool id') (bs ++ [b])).
    destruct (decide (id = id')) as [<-|Hid].
    + rewrite lookup_insert_eq, Enew, Ha. unfold message_arguments. fold (texts (BTool id) bs).
      by rewrite (texts_none _ _ Hnone).
    + rewrite lookup_insert_ne, Ha by done. by rewrite Hother by congruence.
  - intros id'. destruct (decide (id = id')) as [<-|Hid]; [rewrite Enew; by split; [cbn; lia|]|].
    rewrite Hother by congruence. apply Hd.
Qed.

(** What [t] at the end of the block [b] adds to the content. *)
Definition grown (k : blockKind) (t : string) (ct : content) : content :=
  match k with
  | BText => mkContent (ct_text ct +:+ t) (ct_thinking ct) (ct_arguments ct)
  | BThinking =>
      if bool_decide (reasoningPolicyForProtocol candidateSpec "thinking" = "passthrough")
      then mkContent (ct_text ct) (ct_thinking ct +:+ t) (ct_arguments ct) else ct
  | BTool id => mkContent (ct_text ct) (ct_thinking ct)
                  (<[id := default "" (ct_arguments ct !! id) +:+ t]> (ct_arguments ct))
  end.

Lemma block_grows bs i b b' t ct :
  bs !! i = Some b → b_kind b' = b_kind b → b_text b' = b_text b +:+ t →
  none_of (b_kind b) (drop (S i) bs) = true → message_content bs ct → calls_distinct bs →
  message_content (<[i := b']> bs) (grown (b_kind b) t ct) ∧ calls_distinct (<[i := b']> bs).
Proof.
  intros Hi Hk Ht Hlast [Hct Hth Ha] Hd.
  destruct (texts_newest bs i b b' Hi Hk Hlast) as [E E']. rewrite Ht in E'.
  assert (Hother : ∀ k, k ≠ b_kind b → texts k (<[i := b']> bs) = texts k bs).
  { intros k Hne. by apply (texts_other k bs i b b'). }
  assert (Hcat : String.concat "" (texts (b_kind b) (<[i := b']> bs)) = String.concat "" (texts (b_kind b) bs) +:+ t).
  { by rewrite E, E', !concat_snoc, append_assoc. }
  split.
  - unfold message_text, message_thinking, message_arguments, passed_thinking, message_thinking in *.
    fold (texts BText bs) in Hct. fold (texts BThinking bs) in Hth.
    constructor; unfold message_text, passed_thinking, message_thinking, message_arguments;
      fold (texts BText (<[i := b']> bs)) (texts BThinking (<[i := b']> bs)).
    + destruct (b_kind b) eqn:Hkb; cbn [grown ct_text]; [by rewrite Hcat, Hct|..];
        [destruct (bool_decide _)|]; cbn [ct_text]; by rewrite Hother.
    + destruct (b_kind b) eqn:Hkb; cbn [grown ct_thinking].
      * by rewrite Hother.
      * destruct (bool_decide _); cbn [ct_thinking]; [|done]. by rewrite Hcat, Hth.
      * by rewrite Hother.
    + intros id. fold (texts (BTool id) (<[i := b']> bs)).
      assert (b_kind b ≠ BTool id → ct_arguments (grown (b_kind b) t ct) !! id = ct_arguments ct !! id) as Hsame.
      { destruct (b_kind b) as [| |id']; cbn [grown]; [done|by destruct (bool_decide _)|].
        cbn [ct_arguments]. intros ?. by rewrite lookup_insert_ne by congruence. }
      destruct (decide (b_kind b = BTool id)) as [Hid|Hne].
      2: { rewrite Hsame, Ha, Hother by congruence. done. }
      destruct (Hd id) as [Hlen _]. rewrite Hid in E, E' |- *. cbn [grown ct_arguments].
      rewrite lookup_insert_eq, Ha. fold (texts (BTool id) bs). rewrite E, E' in *.
      rewrite length_app in Hlen. destruct (texts (BTool id) (take i bs)); [done|cbn in Hlen; lia].
  - intros id. destruct (decide (b_kind b = BTool id)) as [Hid|Hne]; [|rewrite Hother by congruence; apply Hd].
    destruct (Hd id) as [Hlen Hid']. rewrite Hid in E, E'. rewrite E in Hlen, Hid'. rewrite E'.
    rewrite length_app in *. split; [done|]. intros _. apply Hid'. by destruct (texts (BTool id) (take i bs)).
Qed.

(** ** The decoder keeps up with the client *)

(** An event of the message's body: nothing ends the stream, and reasoning is named after
    the event of the Messages API. *)
Definition body_event (event : canonicalStreamEvent) : bool :=
  negb (terminal event) && negb (bool_decide (ev_Type event = Advanced))
  && bool_decide (ev_ReasoningEventName (ev_Reasoning event) ∈ [""; "content_block_delta"]).

(** The first event names the message, the others do not. *)
Definition one_message (events : list canonicalStreamEvent) : Prop :=
  match events with
  | [] => True
  | _ :: rest => Forall (λ event, ev_ID (ev_Meta event) = "") rest
  end.

Record tells (bs : list block) (d : anthropicMessagesStreamDecoder) (evs : list canonicalStreamEvent)
    : Prop := mkTells {
  tl_content : message_content bs (content_of candidateSpec evs);
  tl_calls : calls_distinct bs;
  tl_ids : ∀ i b id, bs !! i = Some b → b_kind b = BTool id → ad_toolIDByIndex d !! Z.of_nat i = Some id;
  tl_body : Forall (λ event, body_event event = true) evs;
  tl_one : evs ≠ [] ∧ one_message evs
}.

Definition follows (c : client) (d : anthropicMessagesStreamDecoder) (evs : list canonicalStreamEvent) : Prop :=
  match c with
  | CNew => ad_toolIDByIndex d = ∅ ∧ evs = []
  | CStreaming bs => tells bs d evs
  | CEnding bs reason => tells bs d evs ∧ ad_stopReason d = TrimSpace reason
  | CDone bs reason => ∃ evs0, evs = evs0 ++ [messageStop reason] ∧ tells bs d evs0
  end.

Lemma anyString_of value : anyString value = TrimSpace (string_of value).
Proof. by destruct value. Qed.

Lemma one_message_app events more :
  events ≠ [] → one_message events → Forall (λ event, ev_ID (ev_Meta event) = "") more →
  events ++ more ≠ [] ∧ one_message (events ++ more).
Proof. destruct events as [|event rest]; [done|]. intros _ ??. split; [done|]. by apply Forall_app. Qed.

Lemma content_of_app events more :
  content_of candidateSpec (events ++ more) = fold_left (add_event candidateSpec) more (content_of candidateSpec events).
Proof. unfold content_of. by rewrite fold_left_app. Qed.

(** Events that say nothing, with a decoder that knows the same calls. *)
Lemma tells_same bs bs' d d' evs more :
  tells bs d evs → ad_toolIDByIndex d' = ad_toolIDByIndex d → (∀ k, texts k bs' = texts k bs) →
  (∀ i b', bs' !! i = Some b' → ∃ b, bs !! i = Some b ∧ b_kind b = b_kind b') →
  Forall (λ event, ev_Type event = Usage ∧ body_event event = true ∧ ev_ID (ev_Meta event) = "") more →
  tells bs' d' (evs ++ more).
Proof.
  intros [Hc Hd Hids Hb [Hne Ho]] Hid Htexts Hkinds Hmore.
  assert (content_of candidateSpec (evs ++ more) = content_of candidateSpec evs) as Hct.
  { rewrite content_of_app. generalize (content_of candidateSpec evs). clear -Hmore.
    induction Hmore as [|event more [Ht _] Hmore IH]; intros ct; [done|]. cbn [fold_left].
    unfold add_event at 2. rewrite Ht. apply IH. }
  destruct (same_texts bs bs' _ Htexts Hc Hd) as [Hc' Hd']. constructor; [by rewrite Hct|done| | |].
  - intros i b id Hi Hk. destruct (Hkinds i b Hi) as (b0 & Hi0 & Hk0). rewrite Hid. eapply Hids; [exact Hi0|congruence].
  - apply Forall_app. split; [done|]. eapply list.Forall_impl; [exact Hmore|]. by intros ? (_ & ? & _).
  - apply one_message_app; [done..|]. eapply list.Forall_impl; [exact Hmore|]. by intros ? (_ & _ & ?).
Qed.

(** An event that says something of the message. *)
Lemma tells_event bs bs' d d' evs event :
  tells bs d evs → message_content bs' (add_event candidateSpec (content_of candidateSpec evs) event) →
  calls_distinct bs' →
  (∀ i b id, bs' !! i = Some b → b_kind b = BTool id → ad_toolIDByIndex d' !! Z.of_nat i = Some id) →
  body_event event = true → ev_ID (ev_Meta event) = "" →
  tells bs' d' (evs ++ [event]).
Proof.
  intros [Hc Hd Hids Hb [Hne Ho]] Hc' Hd' Hids' Hbe Hide. constructor; [by rewrite content_of_app|done..| |].
  - apply Forall_app. split; [done|by repeat constructor].
  - apply one_message_app; [done..|by repeat constructor].
Qed.

Lemma block_at_index (m : list (string * any)) i :
  block_at m = Some i → map_index m "index" = AInt (Z.of_nat i).
Proof.
  unfold block_at. destruct (map_index m "index") as [| |n| | | |]; try done.
  destruct (Z.leb_spec 0 n); [|done]. intros [= <-]. by rewrite Z2Nat.id.
Qed.

Lemma texts_member bs i b : bs !! i = Some b → texts (b_kind b) bs ≠ [].
Proof.
  intros Hi. rewrite (texts_split _ bs i b Hi), bool_decide_eq_true_2 by done.
  by destruct (texts (b_kind b) (take i bs)).
Qed.

(** The case of a test in a hypothesis. *)
Ltac test_in H P X :=
  destruct (decide P) as [X|X];
  [rewrite (bool_decide_eq_true_2 P X) in H|rewrite (bool_decide_eq_false_2 P X) in H].

Section steps.
Context (now : Z).
Implicit Types (m : list (string * any)).

Lemma message_start_follows d message :
  ad_toolIDByIndex d = ∅ →
  let '(d', evs') := decodeMessageStart now d message in tells [] d' evs'.
Proof.
  intros _. unfold decodeMessageStart. set (d1 := mkAnthropicDecoder _ _ _ _ _ _ _). set (created := createdEvent _).
  assert (tells [] d1 [created]) as Hd1.
  { constructor.
    - constructor; [done| |done]. cbn. unfold passed_thinking. by destruct (bool_decide _).
    - intros id. split; [cbn; lia|done].
    - by intros i b id ?.
    - by repeat constructor.
    - split; [done|constructor]. }
  assert (∀ usage, let '(d', told) := foldUsage usage d1 in tells [] d' (created :: told)) as Hfold.
  { intros usage. unfold foldUsage. apply (tells_same [] [] d1 _ [created]); [done|done|done|by intros ? ? ?|].
    by repeat constructor. }
  destruct (map_get message "usage") as [u|]; [|done].
  destruct (members ← _; read_usageBody members) as [usage|]; [|done].
  destruct (inputCounts usage); [|done]. specialize (Hfold usage). by destruct (foldUsage usage d1).
Qed.

Lemma block_start_follows bs d evs content b :
  tells bs d evs → openBlock content = Some b → new_block bs b = true →
  let '(d', evs') := decodeBlockStart d (Z.of_nat (length bs)) content in tells (bs ++ [b]) d' (evs ++ evs').
Proof.
  intros Ht Hopen Hnew. assert (b_text b = "") as Hempty.
  { unfold openBlock in Hopen. repeat (case_bool_decide; [by injection Hopen as <-|]). done. }
  destruct (block_begins bs b _ Hnew Hempty (tl_content _ _ _ Ht) (tl_calls _ _ _ Ht)) as [Hc Hd].
  assert (Hquiet : (∀ id, b_kind b ≠ BTool id) → ∀ d', ad_toolIDByIndex d' = ad_toolIDByIndex d →
    tells (bs ++ [b]) d' (evs ++ [])).
  { intros Hk d' Hd'. destruct Ht as [_ _ Hids Hb Ho]. rewrite app_nil_r. constructor; [|done| |done|done].
    - destruct (b_kind b) as [| |id] eqn:E; [exact Hc..|by destruct (Hk id)].
    - intros i b' id [[_ Hi]|[_ <-]]%lookup_snoc_Some Hk'; [|by destruct (Hk id)]. rewrite Hd'. by eapply Hids. }
  unfold decodeBlockStart. rewrite anyString_of. unfold openBlock in Hopen.
  set (kind := string_of (map_index content "type")) in *.
  test_in Hopen (kind = "text") H1.
  { injection Hopen as <-. rewrite H1. by apply Hquiet. }
  test_in Hopen (kind = "thinking") H2.
  { injection Hopen as <-. rewrite H2. by apply Hquiet. }
  test_in Hopen (kind = "tool_use") H3; [|done]. injection Hopen as <-. rewrite H3.
  change (TrimSpace "tool_use") with "tool_use".
  rewrite !bool_decide_eq_false_2, bool_decide_eq_true_2 by done. rewrite !anyString_of.
  set (id := string_of (map_index content "id")) in *. cbn [b_kind new_block] in Hc, Hnew.
  apply andb_true_iff in Hnew as [[Hne%negb_true_iff%bool_decide_eq_false Htrim%bool_decide_eq_true]%andb_true_iff _].
  rewrite Htrim. eapply tells_event; [exact Ht| |exact Hd| |done|done].
  - unfold add_event. cbn [ev_Type toolCallEvent ev_ToolCall ev_ToolCallID ev_ToolCallArgumentsDelta].
    rewrite Htrim, bool_decide_eq_false_2, append_nil_r by done. exact Hc.
  - intros i b' id' [[Hlt Hi]|[-> <-]]%lookup_snoc_Some Hk'.
    + cbn [ad_set_tool ad_toolIDByIndex]. rewrite lookup_insert_ne by lia. by eapply (tl_ids _ _ _ Ht).
    + cbn [ad_set_tool ad_toolIDByIndex]. injection Hk' as <-. by rewrite lookup_insert_eq.
Qed.

Lemma block_delta_follows bs d evs delta i b b' :
  tells bs d evs → bs !! i = Some b → none_of (b_kind b) (drop (S i) bs) = true →
  applyDelta delta b = Some b' →
  let '(d', evs') := decodeBlockDelta d (Z.of_nat i) delta in tells (<[i := b']> bs) d' (evs ++ evs').
Proof.
  intros Ht Hi Hlast Hdelta.
  assert (Hids : ∀ b', b_kind b' = b_kind b → ∀ j b0 id, <[i := b']> bs !! j = Some b0 → b_kind b0 = BTool id →
    ad_toolIDByIndex d !! Z.of_nat j = Some id).
  { intros b0' Hk j b0 id [(<- & <- & _)|[Hne Hj]]%list_lookup_insert_Some Hk0.
    - eapply (tl_ids _ _ _ Ht); [exact Hi|congruence].
    - by eapply (tl_ids _ _ _ Ht). }
  assert (Hgrow : ∀ t event d', b_kind b' = b_kind b → b_text b' = b_text b +:+ t →
    add_event candidateSpec (content_of candidateSpec evs) event
    = grown (b_kind b) t (content_of candidateSpec evs) →
    body_event event = true → ev_ID (ev_Meta event) = "" → ad_toolIDByIndex d' = ad_toolIDByIndex d →
    tells (<[i := b']> bs) d' (evs ++ [event])).
  { intros t event d' Hk Htext Hadd Hbody Hid Hd'.
    destruct (block_grows bs i b b' t _ Hi Hk Htext Hlast (tl_content _ _ _ Ht) (tl_calls _ _ _ Ht)) as [Hc Hd].
    eapply tells_event; [exact Ht|by rewrite Hadd|done| |done|done]. rewrite Hd'. by apply Hids. }
  unfold decodeBlockDelta. rewrite anyString_of. unfold applyDelta in Hdelta.
  set (kind := string_of (map_index delta "type")) in *.
  destruct (b_open b); cbn [negb] in Hdelta; [|done]. destruct (b_kind b) as [| |id] eqn:Hk.
  - test_in Hdelta (kind = "text_delta") H1; [|done]. injection Hdelta as <-. rewrite H1. cbn. by eapply Hgrow.
  - test_in Hdelta (kind = "thinking_delta") H1.
    + injection Hdelta as <-. rewrite H1. cbn. eapply Hgrow; [done|reflexivity| |done|done|done].
      unfold add_event. cbn. by rewrite andb_true_r.
    + test_in Hdelta (kind = "signature_delta") H2; [|done]. injection Hdelta as <-. rewrite H2. cbn.
      eapply tells_event; [exact Ht| | |by apply Hids|done|done].
      * unfold add_event. cbn. rewrite andb_false_r.
        eapply same_texts; [|apply (tl_content _ _ _ Ht)|apply (tl_calls _ _ _ Ht)].
        intros k. by apply (texts_same k bs i b).
      * eapply same_texts; [|apply (tl_content _ _ _ Ht)|apply (tl_calls _ _ _ Ht)].
        intros k. by apply (texts_same k bs i b).
  - test_in Hdelta (kind = "input_json_delta") H1; [|done]. injection Hdelta as <-. rewrite H1. cbn.
    pose proof (tl_ids _ _ _ Ht i b id Hi Hk) as Hid. rewrite Hid.
    destruct (tl_calls _ _ _ Ht id) as [_ Hclean]. pose proof (texts_member bs i b Hi) as Hin.
    rewrite Hk in Hin. destruct (Hclean Hin) as [Hne Htrim].
    eapply Hgrow; [done|reflexivity| |done|done|done].
    unfold add_event. cbn. by rewrite Htrim, bool_decide_eq_false_2.
Qed.

Lemma texts_closed bs i b k :
  bs !! i = Some b → texts k (<[i := mkBlock (b_kind b) (b_text b) (b_signature b) false]> bs) = texts k bs.
Proof. intros Hi. by apply (texts_same k bs i b). Qed.

(** One event, on both sides. *)
Lemma decode_follows m ev c c' d evs :
  exact_names m = true → read_anthropicEvent m = Some ev → client_payload c m = Some c' → follows c d evs →
  let '(d', evs') := decodeAnthropicEvent now d ev in follows c' d' (evs ++ evs').
Proof.
  intros Hm Hread Hstep Hf. destruct (read_exact m ev Hm Hread) as (Htype & Hindex & _ & Hcontent & Hdelta).
  unfold decodeAnthropicEvent. rewrite Htype, Hcontent, Hdelta. unfold client_payload in Hstep.
  set (type := string_of (map_index m "type")) in *. destruct c as [|bs|bs reason|bs reason]; [| | |done].
  - test_in Hstep (type = "message_start") H1; [|done]. injection Hstep as <-. rewrite H1. destruct Hf as [Hd ->].
    exact (message_start_follows d (av_Message ev) Hd).
  - test_in Hstep (type = "content_block_start") H1.
    { destruct (block_at m) as [i|] eqn:Hi; [|done]. cbn [mbind option_bind] in Hstep.
      destruct (openBlock _) as [b|] eqn:Hb; [|done]. cbn [mbind option_bind] in Hstep.
      destruct (bool_decide (i = length bs) && new_block bs b) eqn:E; [|done]. injection Hstep as <-.
      apply andb_true_iff in E as [Hi'%bool_decide_eq_true Hnew]. subst i.
      rewrite (Hindex _ (block_at_index m _ Hi)), H1. by apply (block_start_follows bs d evs _ b). }
    test_in Hstep (type = "content_block_delta") H2.
    { destruct (newest bs m) eqn:Hnew; [|done]. unfold newest in Hnew. unfold update_block in Hstep.
      destruct (block_at m) as [i|] eqn:Hi; [|done]. cbn [mbind option_bind] in Hstep, Hnew.
      destruct (bs !! i) as [b|] eqn:Hb; [|done]. cbn [mbind option_bind] in Hstep, Hnew.
      destruct (applyDelta _ b) as [b'|] eqn:Hb'; [|done]. injection Hstep as <-.
      rewrite (Hindex _ (block_at_index m _ Hi)), H2. by apply (block_delta_follows bs d evs _ i b b'). }
    test_in Hstep (type = "content_block_stop") H3.
    { unfold update_block in Hstep. destruct (block_at m) as [i|]; [|done]. cbn [mbind option_bind] in Hstep.
      destruct (bs !! i) as [b|] eqn:Hb; [|done]. cbn [mbind option_bind] in Hstep. unfold closeBlock in Hstep.
      destruct (b_open b); [|done]. injection Hstep as <-. rewrite H3.
      apply (tells_same bs _ d d evs []); [done|done| | |done]; [intros k; by apply texts_closed|].
      intros j b' [(<- & <- & _)|[_ Hj]]%list_lookup_insert_Some; [by exists b|by exists b']. }
    destruct (bool_decide (type = "message_delta") && _) eqn:E; [|done]. injection Hstep as <-.
    apply andb_true_iff in E as [H4%bool_decide_eq_true _]. rewrite H4.
    assert (∀ d', ad_toolIDByIndex d' = ad_toolIDByIndex d → ∀ told,
      Forall (λ event, ev_Type event = Usage ∧ body_event event = true ∧ ev_ID (ev_Meta event) = "") told →
      tells bs d' (evs ++ told)) as Hkept.
    { intros d' Hd' told Htold. apply (tells_same bs bs d); [exact Hf|done|done|by eauto|done]. }
    cbn. unfold decodeMessageDelta. rewrite anyString_of.
    destruct (_ || inputCounts _); (split; [apply Hkept; [done|by repeat constructor]|done]).
  - destruct Hf as [Ht Hr]. test_in Hstep (type = "message_stop") H1; [|done]. injection Hstep as <-. rewrite H1.
    cbn. exists evs. split; [|done]. unfold messageStop, anthropicStopReasonToFinishReason. by rewrite Hr, TrimSpace_idem.
Qed.

Context (parse : string → option any).

(** A line, on both sides. *)
Lemma line_follows line c c' d evs :
  readable parse line = true → client_run c (message_frames parse [line]) = Some c' → follows c d evs →
  ∃ d' evs', DecodeLine now parse d line = Some (d', evs') ∧ follows c' d' (evs ++ evs').
Proof.
  unfold readable, message_frames, line_payload, DecodeLine. intros Hline Hrun Hf. cbn in Hrun.
  destruct (sseDataFromLine line) as [| |data]; [|done|].
  { injection Hrun as <-. exists d, []. by rewrite app_nil_r. }
  destruct (parse data) as [[| | | | | |m]|]; try done. apply andb_true_iff in Hline as [Hm [ev Hev]%bool_decide_eq_true].
  cbn [mbind option_bind read_map]. rewrite Hev. cbn in Hrun |- *.
  case_bool_decide as Hping; cbn in Hrun.
  - injection Hrun as <-. exists d, []. rewrite app_nil_r. split; [|done].
    destruct (read_exact m ev Hm Hev) as (Htype & _). unfold decodeAnthropicEvent. rewrite Htype, Hping. done.
  - destruct (client_payload c m) as [c1|] eqn:Hstep; [|done]. injection Hrun as <-.
    pose proof (decode_follows m ev c c1 d evs Hm Hev Hstep Hf) as H.
    destruct (decodeAnthropicEvent now d ev) as [d' evs']. by exists d', evs'.
Qed.

Lemma lines_follow lines c c' d evs :
  Forall (λ line, readable parse line = true) lines →
  client_run c (message_frames parse lines) = Some c' → follows c d evs →
  ∃ d' more, decodeLines now parse d lines = Some (d', more) ∧ follows c' d' (evs ++ more).
Proof.
  intros Hlines. revert c d evs. induction Hlines as [|line lines Hline Hlines IH]; intros c d evs Hrun Hf.
  { injection Hrun as <-. exists d, []. by rewrite app_nil_r. }
  assert (∃ c1, client_run c (message_frames parse [line]) = Some c1
                ∧ client_run c1 (message_frames parse lines) = Some c') as (c1 & H1 & H2).
  { unfold message_frames in *. cbn [omap list_omap] in *. destruct (_ ≫= _) as [fr|]; [|by exists c].
    cbn [client_run] in *. destruct (client_step c fr) as [c1|]; [|done]. by exists c1. }
  destruct (line_follows line c c1 d evs Hline H1 Hf) as (d1 & evs1 & Hd1 & Hf1).
  destruct (IH c1 d1 _ H2 Hf1) as (d' & more & Hd' & Hf'). exists d', (evs1 ++ more).
  cbn [decodeLines]. rewrite Hd1. cbn. rewrite Hd'. split; [done|]. by rewrite app_assoc.
Qed.

(** The decoder's last event, and the ones before it. *)
Lemma message_decodes lines bs reason :
  Forall (λ line, readable parse line = true) lines →
  client_run CNew (message_frames parse lines) = Some (CDone bs reason) →
  ∃ d events, decodeLines now parse newAnthropicMessagesStreamDecoder lines = Some (d, events ++ [messageStop reason])
    ∧ tells bs d events.
Proof.
  intros Hlines Hrun.
  destruct (lines_follow lines CNew _ newAnthropicMessagesStreamDecoder [] Hlines Hrun) as (d & more & Hd & Hf);
    [done|]. destruct Hf as (evs & Hmore & Ht). cbn in Hmore. subst more. by exists d, evs.
Qed.

(** What the loop asks of the events before the last. *)
Lemma message_quiet bs d events : tells bs d events → Forall (λ event, terminal event = false) events.
Proof.
  intros Ht. eapply list.Forall_impl; [apply (tl_body _ _ _ Ht)|]. unfold body_event.
  by intros ? [[?%negb_true_iff _]%andb_true_iff _]%andb_true_iff.
Qed.

(** C17: The gateway reads a Claude stream as its own client would.  Take any lines whose data
    are objects the decoder's struct accepts (members under their own names, once): if a
    client of the Messages API can follow them to the end (pings aside), the decoder reads
    them without an error; the events it emits end nothing before the last, and what they
    say, delta by delta, is what the client's finished message holds: its text, its thinking
    where the policy passes it on, and the arguments of every call under its identifier.  The
    last event is [completed], or [incomplete] for a message cut off, and names the finish
    reason that stands for the message's stop reason. *)
Theorem anthropic_message_is_read lines bs reason :
  Forall (λ line, readable parse line = true) lines →
  client_run CNew (message_frames parse lines) = Some (CDone bs reason) →
  ∃ d events,
    decodeLines now parse newAnthropicMessagesStreamDecoder lines = Some (d, events ++ [messageStop reason])
    ∧ message_content bs (content_of candidateSpec events)
    ∧ Forall (λ event, terminal event = false) events
    ∧ ev_FinishReason (ev_Finish (messageStop reason)) = anthropicStopReasonToFinishReason reason
    ∧ (ev_Type (messageStop reason) = Incomplete ↔ TrimSpace reason ∈ ["max_tokens"; "length"; "content_filter"]).
Proof.
  intros Hlines Hrun. destruct (message_decodes lines bs reason Hlines Hrun) as (d & events & Hd & Ht).
  exists d, events. split_and!; [done|apply Ht|by eapply message_quiet|done|].
  - unfold messageStop, anthropicStopReasonToFinishReason, chatFinishReasonIsIncomplete. cbn [ev_Type finishEvent].
    set (r := TrimSpace reason). assert (TrimSpace r = r) as Hr by apply TrimSpace_idem. clearbody r.
    destruct (decide (r = "max_tokens")) as [->|]; [split; intros _; [set_solver|by vm_compute]|].
    rewrite (bool_decide_eq_false_2 (r = "max_tokens")) by done.
    destruct (decide (r = "tool_use")) as [->|]; [split; [by vm_compute|set_solver]|].
    rewrite (bool_decide_eq_false_2 (r = "tool_use")) by done.
    destruct (bool_decide_reflect (r ∈ ["stop_sequence"; "end_turn"])) as [H|H].
    + split; [done|]. intros Hin. exfalso. set_unfold. naive_solver.
    + rewrite Hr. destruct (bool_decide_reflect (r ∈ ["length"; "content_filter"])); set_solver.
Qed.
End steps.
End read.

(** ** A sample *)

(** The events of a short message, by the letter their data stands for. *)
Definition message_sample (data : string) : option any :=
  let event type members := Some (AObject (("type", AString type) :: members)) in
  match data with
  | "P" => event "ping" []
  | "S" => event "message_start" [("message", AObject
             [("id", AString "msg_7"); ("model", AString "claude");
              ("usage", AObject [("input_tokens", AInt 12); ("output_tokens", AInt 1)])])]
  | "T" => event "content_block_start" [("index", AInt 0); ("content_block", AObject
             [("type", AString "text"); ("text", AString "")])]
  | "D" => event "content_block_delta" [("index", AInt 0); ("delta", AObject
             [("type", AString "text_delta"); ("text", AString "Looking.")])]
  | "E" => event "content_block_stop" [("index", AInt 0)]
  | "U" => event "content_block_start" [("index", AInt 1); ("content_block", AObject
             [("type", AString "tool_use"); ("id", AString "toolu_1"); ("name", AString "search");
              ("input", AObject [])])]
  | "J" => event "content_block_delta" [("index", AInt 1); ("delta", AObject
             [("type", AString "input_json_delta"); ("partial_json", AString "{}")])]
  | "F" => event "content_block_stop" [("index", AInt 1)]
  | "M" => event "message_delta" [("delta", AObject [("stop_reason", AString "tool_use")]);
                                  ("usage", AObject [("output_tokens", AInt 7)])]
  | "Z" => event "message_stop" []
  | _ => None
  end.

Definition message_lines : list string :=
  ["event: message_start"; "data: S"; "data: T"; "data: P"; "data: D"; "data: E"; "data: U"; "data: J";
   "data: F"; "data: M"; "data: Z"].

Definition message_blocks : list block :=
  [mkBlock BText "Looking." "" false; mkBlock (BTool "toolu_1") "{}" "" false].

Lemma message_lines_readable : Forall (λ line, readable message_sample line = true) message_lines.
Proof. repeat constructor. Qed.

(** The prompt's tokens, which only the start reports, are kept with those of the end. *)
Lemma anthropic_message_is_read_witness :
  ∃ d events,
    decodeLines 0 message_sample newAnthropicMessagesStreamDecoder message_lines
    = Some (d, events ++ [messageStop "tool_use"])
    ∧ ct_text (content_of anthropicSpec events) = "Looking."
    ∧ ct_arguments (content_of anthropicSpec events) !! "toolu_1" = Some "{}"
    ∧ ev_FinishReason (ev_Finish (messageStop "tool_use")) = "tool_calls"
    ∧ PromptTokens (ad_usage d) = 12 ∧ CompletionTokens (ad_usage d) = 7.
Proof.
  destruct (anthropic_message_is_read anthropicSpec 0 message_sample message_lines message_blocks "tool_use"
    message_lines_readable ltac:(vm_compute; reflexivity)) as (d & events & Hd & [Ht _ Ha] & _ & Hr & _).
  exists d, events. split; [exact Hd|]. split; [rewrite Ht; reflexivity|].
  split; [rewrite Ha; reflexivity|]. split; [exact Hr|].
  vm_compute in Hd. injection Hd as <- _. split; reflexivity.
Defined.
