(* ===== verification/AnthropicClients.v ===== *)
(** * Claude messages for the clients of other protocols

    [proxyCanonicalStream] with the decoder of [AnthropicDecoder]: a message a client of the
    Messages API would accept reaches chat clients and Responses clients whole.  The chat
    encoder keeps the promise of [FaithfulEncoder] here. *)

From S2P Require Import Prelude GoFloat Catalog Json Pricing StreamEvents StopSequences.
From S2P Require Import AnthropicStream ChatStream ResponsesStream SemanticFailure StreamPassthrough.
From S2P Require Import StreamProxy ResponsesEncoder StreamClients AnthropicDecoder.

#[local] Arguments TrimSpace : simpl never.

(** ** Counts stay in their width *)

(** The counts an Anthropic usage fills in. *)
Record counts_ok (u : gatewayUsage) : Prop := mkCountsOk {
  co_prompt : in_int64 (PromptTokens u);
  co_completion : in_int64 (CompletionTokens u);
  co_total : in_int64 (TotalTokens u);
  co_cached : in_int64 (CachedPromptTokens u);
  co_plain : PromptCacheHitTokens u = 0 ∧ PromptCacheMissTokens u = 0 ∧ PromptTokensDetail u = None
}.

Lemma in_int64_0 : in_int64 0.
Proof. by vm_compute. Qed.

Lemma in_int64_max z : in_int64 z → in_int64 (Z.max 0 z).
Proof. unfold in_int64, min_int64, max_int64. lia. Qed.

Lemma add64_range a b : in_int64 (add64 a b).
Proof. apply wrap64_range. Qed.

Lemma counts_normalized u : counts_ok u → counts_ok (normalized u).
Proof.
  intros [Hp Hc Ht Hca (Hh & Hm & Hd)]. unfold normalized. rewrite Hh, Hm, Hd.
  change (Z.max 0 0) with 0. change (0 <? 0) with false. cbn [orb]. rewrite !andb_false_r.
  constructor; cbn; [done|done| | |done].
  - destruct (TotalTokens u =? 0); [apply add64_range|done].
  - destruct (_ && _); [done|by apply in_int64_max].
Qed.

Lemma counts_usage_ok u : counts_ok u → ChatStream.usage_ok u.
Proof. intros [Hp Hc Ht Hca _]%counts_normalized. by split_and!. Qed.

Lemma counts_completion u : counts_ok u → counts_ok (completionUsageFromGatewayUsage u).
Proof. intros [Hp Hc Ht Hca _]. apply counts_normalized. by constructor. Qed.

Lemma read_int_range value n : read_int value = Some n → in_int64 n.
Proof. destruct value; try done; cbn; [by intros [= <-]|]. case_bool_decide; [by intros [= <-]|done]. Qed.

Definition body_in_range (u : anthropicMessageUsageBody) : Prop :=
  in_int64 (ub_OutputTokens u) ∧ in_int64 (ub_CacheReadInputTokens u).

Lemma read_usageBody_range m u : read_usageBody m = Some u → body_in_range u.
Proof.
  unfold read_usageBody. destruct (read_int (field m "input_tokens")); [|done]. cbn [mbind option_bind].
  destruct (read_int (field m "output_tokens")) as [output|] eqn:Ho; [|done]. cbn [mbind option_bind].
  destruct (read_int (field m "cache_creation_input_tokens")); [|done]. cbn [mbind option_bind].
  destruct (read_int (field m "cache_read_input_tokens")) as [cached|] eqn:Hc; [|done]. cbn [mbind option_bind].
  destruct (read_pointer _ _); [|done]. intros [= <-]. split; by eapply read_int_range.
Qed.

Lemma counts_from_body u : body_in_range u → counts_ok (gatewayUsageFromAnthropicUsage u).
Proof.
  intros [Ho Hc]. unfold gatewayUsageFromAnthropicUsage. destruct (match ub_CacheCreation u with Some _ => _ | None => _ end).
  by constructor; try apply add64_range.
Qed.

Lemma counts_merge current delta :
  counts_ok current → counts_ok delta → counts_ok (mergeAnthropicStreamUsage current delta).
Proof.
  intros [Hp Hc Ht Hca Hpl] [Hp' Hc' Ht' Hca' _]. unfold mergeAnthropicStreamUsage. apply counts_normalized.
  destruct (_ || _); constructor; cbn; try done; try apply in_int64_0; by destruct (0 <? _).
Qed.

(** What a line gives: counts in their width, and at most two events. *)
Definition line_ok (d : anthropicMessagesStreamDecoder) (evs : list canonicalStreamEvent) : Prop :=
  counts_ok (ad_usage d) ∧ Forall ChatStream.event_ok evs ∧ (length evs ≤ 2)%nat.

Lemma no_usage_ok : ChatStream.usage_ok noUsage.
Proof. by vm_compute. Qed.

Lemma event_plain event :
  ev_CreatedAt (ev_Meta event) = 0 → ev_Usage event = noUsage → ChatStream.event_ok event.
Proof. intros Hc Hu. split; [rewrite Hc; apply in_int64_0|rewrite Hu; apply no_usage_ok]. Qed.

Lemma foldUsage_ok usage d :
  body_in_range usage → counts_ok (ad_usage d) →
  let '(d', told) := foldUsage usage d in
  counts_ok (ad_usage d') ∧ Forall ChatStream.event_ok told ∧ length told = 1%nat.
Proof.
  intros Hu Hd. unfold foldUsage. cbn [ad_set_usage ad_usage].
  pose proof (counts_merge _ _ Hd (counts_from_body usage Hu)) as Hm. split_and!; [done| |done].
  constructor; [|constructor]. split; [apply in_int64_0|]. by apply counts_usage_ok, counts_completion.
Qed.

Lemma decodeAnthropicEvent_ok now d ev :
  in_int64 now → body_in_range (av_Usage ev) → counts_ok (ad_usage d) →
  let '(d', evs) := decodeAnthropicEvent now d ev in line_ok d' evs.
Proof.
  intros Hnow Hu Hd. unfold decodeAnthropicEvent.
  assert (∀ d', ad_usage d' = ad_usage d → line_ok d' []) as Hnone.
  { intros d' E. split_and!; [by rewrite E|done|cbn; lia]. }
  assert (∀ d' event, ad_usage d' = ad_usage d → ev_CreatedAt (ev_Meta event) = 0 → ev_Usage event = noUsage →
    line_ok d' [event]) as Hone.
  { intros d' event E Hc He. split_and!; [by rewrite E| |cbn; lia]. constructor; [|done]. by apply event_plain. }
  repeat case_bool_decide; [| | | |by apply Hone..|by apply Hnone].
  - unfold decodeMessageStart. set (d1 := mkAnthropicDecoder _ _ _ _ _ _ _). set (created := createdEvent _).
    assert (ChatStream.event_ok created) as Hcr by (split; [exact Hnow|apply no_usage_ok]).
    assert (line_ok d1 [created]) as Hd1 by (split_and!; [exact Hd|constructor; [exact Hcr|constructor]|cbn; lia]).
    destruct (map_get _ "usage") as [value|]; [|done]. destruct (read_map _) as [members|]; [|done].
    cbn [mbind option_bind]. destruct (read_usageBody members) as [usage|] eqn:Eu; [|done].
    destruct (inputCounts usage); [|done].
    pose proof (foldUsage_ok usage d1 (read_usageBody_range _ _ Eu) Hd) as Hf.
    destruct (foldUsage usage d1) as [d2 told]. destruct Hf as (? & ? & Hl).
    split_and!; [done|by constructor|cbn; lia].
  - unfold decodeBlockStart. repeat case_bool_decide; first [by apply Hnone|by apply Hone].
  - unfold decodeBlockDelta. repeat case_bool_decide; first [by apply Hnone|by apply Hone].
  - unfold decodeMessageDelta. set (d1 := ad_set_stopReason _ _). destruct (_ || inputCounts _); [|by apply Hnone].
    pose proof (foldUsage_ok (av_Usage ev) d1 Hu Hd) as Hf.
    destruct (foldUsage _ d1) as [d2 told]. destruct Hf as (? & ? & Hl). split_and!; [done|done|lia].
Qed.

Lemma decodeLine_ok now parse d line d' evs :
  in_int64 now → counts_ok (ad_usage d) → AnthropicDecoder.DecodeLine now parse d line = Some (d', evs) → line_ok d' evs.
Proof.
  intros Hnow Hd. unfold AnthropicDecoder.DecodeLine. destruct (sseDataFromLine line) as [| |data]; [|done|].
  { intros [= <- <-]. split_and!; [done|done|cbn; lia]. }
  destruct (parse data) as [value|]; [|done]. cbn [mbind option_bind]. destruct (read_map value) as [m|]; [|done].
  cbn [mbind option_bind]. destruct (read_anthropicEvent m) as [ev|] eqn:Ev; [|done]. cbn [fmap option_fmap option_map].
  intros [= E]. assert (body_in_range (av_Usage ev)) as Hu.
  { unfold read_anthropicEvent in Ev. repeat match type of Ev with
      | (_ ≫= _) = Some _ => apply bind_Some in Ev as (? & ? & Ev)
      end. injection Ev as <-. by eapply read_usageBody_range. }
  pose proof (decodeAnthropicEvent_ok now d ev Hnow Hu Hd) as H. by rewrite E in H.
Qed.

Lemma decodeLines_ok now parse lines d d' evs :
  in_int64 now → counts_ok (ad_usage d) → AnthropicDecoder.decodeLines now parse d lines = Some (d', evs) →
  Forall ChatStream.event_ok evs ∧ (length evs ≤ 2 * length lines)%nat.
Proof.
  intros Hnow. revert d evs. induction lines as [|line lines IH]; intros d evs Hd Hdec; cbn [AnthropicDecoder.decodeLines] in Hdec.
  { injection Hdec as <- <-. split; [constructor|cbn; lia]. }
  destruct (AnthropicDecoder.DecodeLine now parse d line) as [[d1 evs1]|] eqn:E1; [|done]. cbn in Hdec.
  destruct (AnthropicDecoder.decodeLines now parse d1 lines) as [[d2 more]|] eqn:E2; [|done].
  injection Hdec as -> <-. destruct (decodeLine_ok now parse d line d1 evs1 Hnow Hd E1) as (Hd1 & He1 & Hl1).
  destruct (IH d1 more Hd1 E2) as [He2 Hl2]. split; [by apply Forall_app|]. rewrite length_app. cbn. lia.
Qed.

Lemma new_counts_ok : counts_ok (ad_usage newAnthropicMessagesStreamDecoder).
Proof. by constructor. Qed.

(** ** The chat client's pieces and the content *)

Definition said_text (ps : list piece) : string :=
  String.concat "" (omap (λ p, match p with PText text => Some text | _ => None end) ps).

(** The deltas of a call's arguments, in order. *)
Definition said_deltas (ps : list piece) (id : string) : list string :=
  omap (λ p, match p with
             | PCall id' _ arguments => if bool_decide (id' = id) then Some arguments else None
             | _ => None
             end) ps.

Definition said_arguments (ps : list piece) (id : string) : option string :=
  match said_deltas ps id with [] => None | deltas => Some (String.concat "" deltas) end.

Lemma said_text_app ps qs : said_text (ps ++ qs) = said_text ps +:+ said_text qs.
Proof. unfold said_text. by rewrite omap_app, concat_strings_app. Qed.

Lemma said_arguments_snoc ps id' name arguments id :
  said_arguments (ps ++ [PCall id' name arguments]) id
  = if bool_decide (id' = id) then Some (default "" (said_arguments ps id) +:+ arguments)
    else said_arguments ps id.
Proof.
  unfold said_arguments. assert (said_deltas (ps ++ [PCall id' name arguments]) id
    = said_deltas ps id ++ if bool_decide (id' = id) then [arguments] else []) as ->.
  { unfold said_deltas. rewrite omap_app. cbn. by destruct (bool_decide _). }
  destruct (bool_decide _); [|by rewrite app_nil_r]. destruct (said_deltas ps id) as [|x l]; [done|].
  exact (f_equal Some (concat_snoc (x :: l) arguments)).
Qed.

Lemma said_arguments_plain ps p id :
  is_call p = false → said_arguments (ps ++ [p]) id = said_arguments ps id.
Proof.
  intros Hp. unfold said_arguments. assert (said_deltas (ps ++ [p]) id = said_deltas ps id) as ->; [|done].
  unfold said_deltas. rewrite omap_app. destruct p; try done; by rewrite app_nil_r.
Qed.

Section pieces.
Context (candidateSpec : resolvedProtocolSpec).
Let pass := passes candidateSpec.

(** The names given to the calls so far. *)
Definition learnt (events : list canonicalStreamEvent) : gmap string string :=
  fold_left (λ names event, fst (says pass names event)) events ∅.

Lemma pieces_snoc_from names events event :
  pieces pass names (events ++ [event])
  = pieces pass names events ++ snd (says pass (fold_left (λ names event, fst (says pass names event)) events names) event).
Proof.
  revert names. induction events as [|x events IH]; intros names; cbn [app pieces fold_left].
  - destruct (says pass names event) as [names' ps]. by rewrite app_nil_r.
  - destruct (says pass names x) as [names' ps]. cbn [fst]. by rewrite IH, app_assoc.
Qed.

Lemma pieces_snoc events event :
  pieces pass ∅ (events ++ [event]) = pieces pass ∅ events ++ snd (says pass (learnt events) event).
Proof. apply pieces_snoc_from. Qed.

(** The pieces of a client say the content of the events. *)
Record pieces_say (ps : list piece) (ct : content) : Prop := mkPiecesSay {
  py_text : said_text ps = ct_text ct;
  py_arguments : ∀ id, said_arguments ps id = ct_arguments ct !! id;
  py_is_text : existsb is_text ps = negb (bool_decide (ct_text ct = ""));
  py_is_call : existsb is_call ps = negb (bool_decide (ct_arguments ct = ∅))
}.

(** A piece that is neither text nor call. *)
Lemma pieces_say_quiet ps p ct :
  pieces_say ps ct → is_text p = false → is_call p = false → ∀ t,
  pieces_say (ps ++ [p]) (mkContent (ct_text ct) t (ct_arguments ct)).
Proof.
  intros [Ht Ha Hit Hic] Hp1 Hp2 t. constructor; cbn [ct_text ct_arguments].
  - rewrite said_text_app, Ht. by destruct p; try done; rewrite append_nil_r.
  - intros id. by rewrite said_arguments_plain.
  - rewrite existsb_app. cbn [existsb]. rewrite Hp1. cbn [orb]. by rewrite orb_false_r.
  - rewrite existsb_app. cbn [existsb]. rewrite Hp2. cbn [orb]. by rewrite orb_false_r.
Qed.

Lemma pieces_say_thinking ps ct t :
  pieces_say ps ct → pieces_say ps (mkContent (ct_text ct) t (ct_arguments ct)).
Proof. by intros []. Qed.

Lemma pieces_say_event ps names ct event :
  pieces_say ps ct → pieces_say (ps ++ snd (says pass names event)) (add_event candidateSpec ct event).
Proof.
  intros Hs. unfold says, add_event. destruct (ev_Type event) eqn:Et; try (by rewrite app_nil_r).
  - (* text *)
    cbn [snd]. case_bool_decide as Hd.
    { rewrite Hd, app_nil_r, append_nil_r. by destruct ct. }
    destruct Hs as [Ht Ha Hit Hic]. constructor; cbn [ct_text ct_arguments].
    + rewrite said_text_app, Ht. done.
    + intros id. by rewrite said_arguments_plain.
    + rewrite existsb_app, orb_true_r. symmetry. apply negb_true_iff, bool_decide_eq_false.
      by intros [_ ?]%append_eq_nil.
    + by rewrite existsb_app, orb_false_r.
  - (* a call *)
    set (id := TrimSpace _). clearbody id. case_bool_decide as Hid; [by rewrite app_nil_r|]. cbn [snd].
    destruct Hs as [Ht Ha Hit Hic]. constructor; cbn [ct_text ct_arguments].
    + rewrite said_text_app, Ht. cbn. by rewrite append_nil_r.
    + intros id'. rewrite said_arguments_snoc, !Ha. destruct (bool_decide_reflect (id = id')) as [Hne|Hne].
      * subst id'. by rewrite lookup_insert_eq.
      * by rewrite lookup_insert_ne.
    + by rewrite existsb_app, orb_false_r.
    + rewrite existsb_app, orb_true_r. symmetry. apply negb_true_iff, bool_decide_eq_false. apply insert_non_empty.
  - (* reasoning *)
    cbn [snd]. set (kind := ev_ReasoningKind _). set (delta := ev_Delta event).
    assert (∀ ct', (∃ t, ct' = mkContent (ct_text ct) t (ct_arguments ct)) → pieces_say ps ct'
            ∧ ∀ p, is_text p = false → is_call p = false → pieces_say (ps ++ [p]) ct') as H.
    { intros ct' [t ->]. split; [by apply pieces_say_thinking|]. intros p ??. by apply pieces_say_quiet. }
    assert (∃ t, (if bool_decide (reasoningPolicyForProtocol candidateSpec kind = "passthrough") && bool_decide (kind = "thinking")
            then mkContent (ct_text ct) (ct_thinking ct +:+ delta) (ct_arguments ct) else ct)
            = mkContent (ct_text ct) t (ct_arguments ct)) as Hct.
    { destruct (_ && _); [by eexists|]. exists (ct_thinking ct). by destruct ct. }
    destruct (H _ Hct) as [H0 H1].
    destruct (negb _ || _); [by rewrite app_nil_r|].
    destruct (bool_decide (kind = "thinking_signature")); [by apply H1|].
    destruct (bool_decide (TrimSpace delta = "")); [by rewrite app_nil_r|by apply H1].
Qed.

Lemma pieces_say_content events : pieces_say (pieces pass ∅ events) (content_of candidateSpec events).
Proof.
  induction events as [|event events IH] using rev_ind; [by constructor|].
  rewrite pieces_snoc, content_of_snoc. by apply pieces_say_event.
Qed.
End pieces.

(** ** The chat encoder keeps its promise *)

Lemma wp_reason {E A} (R R' : string → io E → Prop) (m : M E A) s (Q : A → io E → Prop) :
  (∀ e s, R e s → R' e s) → wp R m s Q → wp R' m s Q.
Proof. unfold wp. intros HR. destruct (m s) as [[?|?] ?]; auto. Qed.

Section chat_client.
Context (candidateSpec : resolvedProtocolSpec) (siteType : string) (includeUsage requireUsage : bool)
        (valid : string → bool) (order : list (string * any) → list (string * any))
        (newUUID : Z → string) (createdAt : Z).
Hypothesis Hcreated : in_int64 createdAt.
Let pass := passes candidateSpec.

#[local] Instance to_chat : canonicalStreamEncoder openAIChatStreamEncoder :=
  chatEncoder candidateSpec siteType includeUsage requireUsage valid order.

(** What a chat client that is this gateway reads of the frames. *)
Definition chat_read (fs : list frame) (ps : list piece) (finish : string) : Prop :=
  ∃ usage d evs us meta,
    decodeFrames newUUID newOpenAIChatStreamDecoder fs
    = Some (d, evs ++ us ++ [finishEvent (finishType finish) meta (mkFinish finish "" "")])
    ∧ omap piece_of evs = ps ∧ Forall event_open evs ∧ usage_read includeUsage usage us.

(** A delta more may number a call more. *)
Definition chat_follows (s : io openAIChatStreamEncoder) (events : list canonicalStreamEvent) : Prop :=
  ∃ n, n ≤ Z.of_nat (length events)
       ∧ ChatStream.Inv newUUID s (learnt candidateSpec events) (pieces pass ∅ events) n.

#[local] Instance chatFaithful : FaithfulEncoder (newOpenAIChatStreamEncoder createdAt).
Proof.
  refine {| fe_admits events := Forall ChatStream.event_ok events ∧ Z.of_nat (length events) ≤ max_int64;
            fe_follows := chat_follows;
            fe_accepts _ := True;
            fe_complete fs events last :=
              chat_read fs (pieces pass ∅ events) (wire_finish (pieces pass ∅ events) last) |}.
  - intros l1 l2 [[? _]%Forall_app Hl]. split; [done|]. rewrite length_app in Hl. lia.
  - done.
  - intros room. exists 0. split; [done|]. by apply chat_Inv_new.
  - intros s events event [[_ [Hok _]%list.Forall_cons]%Forall_app Hlen] (n & Hn & Hinv) Ht.
    rewrite length_app in Hlen. cbn [length] in Hlen.
    eapply (wp_reason ChatStream.R); [by intros|].
    eapply chat_encode_spec; [exact Ht|exact Hok|exact Hinv|lia|].
    intros s' n' Hn' Hinv'. exists n'. rewrite length_app. cbn [length]. split; [lia|].
    rewrite (pieces_snoc candidateSpec). unfold learnt in *. by rewrite fold_left_app.
  - intros s events last [[_ [Hok _]%list.Forall_cons]%Forall_app _] (n & Hn & Hinv) Hlast.
    eapply (wp_reason ChatStream.R); [by intros|].
    eapply chat_last_spec; [exact Hinv|exact Hok|exact Hlast|].
    intros s' (d & evs & us & meta & ? & ? & ? & ?) ? ? ?. split; [by eexists _, d, evs, us, meta|by split_and!].
Defined.
End chat_client.

(** ** The decoder in the loop *)

Section anthropic_decoder.
Context (now : Z) (parse : string → option any).

(** No [Flush] of its own. *)
#[local] Instance anthropicDecoder : canonicalStreamDecoder anthropicMessagesStreamDecoder := {|
  StreamProxy.newDecoder := newAnthropicMessagesStreamDecoder;
  StreamProxy.DecodeLine d line := decoded_or_error d (AnthropicDecoder.DecodeLine now parse d line);
  StreamProxy.FlushDecoder d := (d, [])
|}.

Lemma lines_decode lines d d' evs :
  AnthropicDecoder.decodeLines now parse d lines = Some (d', evs) → StreamClients.decodeLines d lines = Some (d', evs).
Proof.
  revert d evs. induction lines as [|line lines IH]; intros d evs; cbn [AnthropicDecoder.decodeLines StreamClients.decodeLines]; [done|].
  change (StreamProxy.DecodeLine d line) with (decoded_or_error d (AnthropicDecoder.DecodeLine now parse d line)).
  destruct (AnthropicDecoder.DecodeLine now parse d line) as [[d1 evs1]|]; [|done]. cbn.
  destruct (AnthropicDecoder.decodeLines now parse d1 lines) as [[d2 more]|] eqn:E; [|done]. cbn.
  intros [= -> <-]. by rewrite (IH d1 more E).
Qed.
End anthropic_decoder.

(** ** To chat clients *)

Definition has_calls (bs : list block) : bool :=
  existsb (λ b, match b_kind b with BTool _ => true | _ => false end) bs.

(** The finish reason a chat client is told. *)
Definition chat_finish (bs : list block) (reason : string) : string :=
  if has_calls bs && bool_decide (message_text bs = "") then "tool_calls"
  else match ev_Type (messageStop reason) with
       | Incomplete => anthropicStopReasonToFinishReason reason
       | _ => "stop"
       end.

Lemma calls_of_message spec bs ct :
  message_content spec bs ct → has_calls bs = negb (bool_decide (ct_arguments ct = ∅)).
Proof.
  intros [_ _ Ha]. symmetry. destruct (has_calls bs) eqn:E.
  - apply existsb_exists in E as (b & Hb & Hk). destruct (b_kind b) as [| |id] eqn:Hid; try done.
    apply negb_true_iff, bool_decide_eq_false. intros Hemp. specialize (Ha id). rewrite Hemp, lookup_empty in Ha.
    symmetry in Ha. unfold message_arguments in Ha. apply list_elem_of_In, list_elem_of_lookup in Hb as [i Hi].
    pose proof (texts_member bs i b Hi) as Hin. rewrite Hid in Hin. unfold texts in Hin.
    destruct (omap _ bs); [done|discriminate Ha].
  - apply negb_false_iff, bool_decide_eq_true, map_empty. intros id. rewrite Ha. unfold message_arguments.
    rewrite omap_none; [done|]. intros b Hb. rewrite bool_decide_eq_false_2; [done|]. intros Hk.
    assert (has_calls bs = true); [|congruence]. apply existsb_exists. exists b. rewrite Hk.
    split; [by apply list_elem_of_In|done].
Qed.

Lemma messageStop_ok reason : ChatStream.event_ok (messageStop reason).
Proof. by apply event_plain. Qed.

Lemma messageStop_terminal reason : ev_Type (messageStop reason) ∈ [Completed; Incomplete].
Proof. unfold messageStop. cbn. destruct (chatFinishReasonIsIncomplete _); set_solver. Qed.

Lemma finish_reason_trimmed reason :
  TrimSpace (anthropicStopReasonToFinishReason reason) = anthropicStopReasonToFinishReason reason.
Proof.
  unfold anthropicStopReasonToFinishReason. repeat case_bool_decide; try done. apply TrimSpace_idem.
Qed.

(** The finish reason on the wire is that of the message. *)
Lemma wire_finish_of_message spec bs events reason :
  message_content spec bs (content_of spec events) →
  wire_finish (pieces (passes spec) ∅ events) (messageStop reason) = chat_finish bs reason.
Proof.
  intros Hc. destruct (pieces_say_content spec events) as [_ _ Ht Hk].
  unfold wire_finish, chat_finish. rewrite Hk, Ht, (calls_of_message spec bs _ Hc), negb_involutive.
  rewrite (mc_text _ _ _ Hc). destruct (_ && _); [done|]. pose proof (finish_reason_trimmed reason) as Hf.
  unfold messageStop. cbn [ev_Type finishEvent ev_Finish ev_FinishReason].
  set (f := anthropicStopReasonToFinishReason reason) in *. clearbody f.
  destruct (chatFinishReasonIsIncomplete f) eqn:E; [|done]. cbn [nonEmptyString]. rewrite Hf.
  destruct (decide (f = "")) as [->|Hne]; [done|]. by rewrite bool_decide_eq_false_2.
Qed.

Lemma Forall_both {A} {P Q : A → Prop} {l} : Forall (λ x, P x ∧ Q x) l → Forall P l ∧ Forall Q l.
Proof. intros H. split; (eapply list.Forall_impl; [exact H|by intros ? []]). Qed.

Section to_chat.
Context (now : Z) (parse : string → option any) (rawText : any → string)
        (candidateSpec : resolvedProtocolSpec) (siteType : string) (includeUsage requireUsage : bool)
        (valid : string → bool) (order : list (string * any) → list (string * any)) (newUUID : Z → string).

#[local] Instance from_anthropic : canonicalStreamDecoder anthropicMessagesStreamDecoder := anthropicDecoder now parse.
#[local] Instance to_chat' : canonicalStreamEncoder openAIChatStreamEncoder :=
  chatEncoder candidateSpec siteType includeUsage requireUsage valid order.

(** The reader's pieces are the message. *)
Definition chat_has_message (fs : list frame) (bs : list block) (reason : string) : Prop :=
  ∃ d evs us meta,
    let finish := chat_finish bs reason in
    decodeFrames newUUID newOpenAIChatStreamDecoder fs
    = Some (d, evs ++ us ++ [finishEvent (finishType finish) meta (mkFinish finish "" "")])
    ∧ said_text (omap piece_of evs) = message_text bs
    ∧ (∀ id, said_arguments (omap piece_of evs) id = message_arguments bs id)
    ∧ Forall event_open evs ∧ (length us ≤ 1)%nat.

(** C18: A Claude message reaches a chat client whole.  Take any lines whose data are objects
    the decoder's struct accepts, and that a client of the Messages API can follow to the end:
    through the loop of [proxyCanonicalStream] the chat client, which reads the chunks as
    [openAIChatStreamDecoder] does, gets the message's whole text and, under each call's
    identifier, the call's whole arguments; one terminal event ends the stream, with the
    finish reason [chat_finish] says, and the capture says "done" or "response_incomplete" as
    the message ended.  If the loop returns an error instead, the connection broke or the
    capture names the reason. *)
Theorem anthropic_reaches_chat_client room createdAt lines bs reason :
  in_int64 now → in_int64 createdAt → Z.of_nat (2 * length lines) ≤ max_int64 →
  Forall (λ line, line ≠ "" ∧ readable parse line = true) lines →
  client_run CNew (message_frames parse lines) = Some (CDone bs reason) →
  match proxyCanonicalStream (D := anthropicMessagesStreamDecoder) parse rawText
          (mkOptions AnthropicMessages requireUsage [] None)
          (newOpenAIChatStreamEncoder createdAt) room (reads_of lines) with
  | (Ok _, s) =>
      chat_has_message (frames s) bs reason
      ∧ sc_endReason (io_capture s) = end_reason (messageStop reason)
  | (Err _, s) => gave_up s
  end.
Proof.
  intros Hnow Hcreated Hlen Hlines Hrun.
  destruct (Forall_both Hlines) as [Hne Hread].
  destruct (message_decodes candidateSpec now parse lines bs reason Hread Hrun) as (d & events & Hdec & Ht).
  destruct (decodeLines_ok now parse lines _ _ _ Hnow new_counts_ok Hdec) as [Hok Hcount].
  pose proof (stream_reaches_client
    (FE := chatFaithful candidateSpec siteType includeUsage requireUsage valid order newUUID createdAt Hcreated)
    parse rawText (mkOptions AnthropicMessages requireUsage [] None) ltac:(cbn; set_solver) eq_refl eq_refl room
    lines d events (messageStop reason) Hne (lines_decode now parse _ _ _ _ Hdec) eq_refl) as H.
  specialize (H (message_quiet _ _ _ _ Ht) (messageStop_terminal reason)).
  specialize (H ltac:(split; [exact Hok|lia])).
  destruct (proxyCanonicalStream _ _ _ _ _ _) as [[[]|e] s]; [|by destruct H].
  destruct H as [(usage & d' & evs & us & meta & Hfs & Hps & Hopen & Hus) Hend]. split; [|exact Hend].
  rewrite (wire_finish_of_message candidateSpec bs events reason (tl_content _ _ _ _ Ht)) in Hfs.
  destruct (pieces_say_content candidateSpec events) as [Htext Hargs _ _].
  destruct (tl_content _ _ _ _ Ht) as [Hct _ Hca].
  exists d', evs, us, meta. split; [exact Hfs|]. rewrite Hps.
  split_and!; [by rewrite Htext|intros id; by rewrite Hargs|exact Hopen|].
  unfold usage_read in Hus. destruct (_ && _); [destruct Hus as (u & -> & _); cbn; lia|subst; cbn; lia].
Qed.
End to_chat.

(** A message that says something before its calls ends as if it had none: a chat client is
    told "stop", not "tool_calls". *)
Theorem call_after_text_ends_as_stop bs :
  has_calls bs = true → message_text bs ≠ "" → chat_finish bs "tool_use" = "stop".
Proof. intros Hk Ht. unfold chat_finish. by rewrite Hk, bool_decide_eq_false_2. Qed.

(** ** To Responses clients *)

Section to_responses.
Context (now : Z) (parse : string → option any) (rawText : any → string)
        (spec candidateSpec : resolvedProtocolSpec) (siteType : string) (requireUsage : bool)
        (CustomTools : gset string) (ResponseTools : gmap string responsesToolIdentity)
        (valid : string → bool) (json : string → option any) (marshal : any → string) (newItemID : string)
        (order : list (string * any) → list (string * any)).

#[local] Instance from_anthropic' : canonicalStreamDecoder anthropicMessagesStreamDecoder := anthropicDecoder now parse.
#[local] Instance to_responses : canonicalStreamEncoder openAIResponsesStreamEncoder :=
  responsesEncoder spec candidateSpec siteType requireUsage CustomTools ResponseTools valid json marshal newItemID order.

(** No event of a message is taken for one of the Responses API. *)
Lemma body_passes_over event :
  protocolEventName spec ReasoningDelta "response.reasoning_delta" ∉ knownTypes →
  body_event event = true → passes_over spec order event = true.
Proof.
  intros Hname [[_ Ha%negb_true_iff%bool_decide_eq_false]%andb_true_iff Hr%bool_decide_eq_true]%andb_true_iff.
  unfold passes_over. destruct (ev_Type event); try done.
  set_unfold in Hr. destruct Hr as [->|[->|[]]]; [by apply bool_decide_eq_true|by vm_compute].
Qed.

(** C19: A Claude message reaches a Responses client whole: for any lines whose data are
    objects the decoder's struct accepts and that a client of the Messages API can follow to
    the end, the events the client gets through [proxyCanonicalStream] are followed by its
    automaton to the end, each item shown once and at a place of its own; the output's text
    is the message's and each call has its arguments, the status is "completed", or
    "incomplete" for a message cut off, and the capture says the same.  If the loop returns an
    error instead, the client could follow what was sent, and the connection broke or the
    capture names the reason. *)
Theorem anthropic_reaches_responses_client room responseID createdAt lines bs reason :
  standardNames spec → protocolEventName spec ReasoningDelta "response.reasoning_delta" ∉ knownTypes →
  Forall (λ line, line ≠ "" ∧ readable parse line = true) lines →
  client_run CNew (message_frames parse lines) = Some (CDone bs reason) →
  match proxyCanonicalStream (D := anthropicMessagesStreamDecoder) parse rawText
          (mkOptions AnthropicMessages requireUsage [] None)
          (newOpenAIResponsesStreamEncoder responseID createdAt) room (reads_of lines) with
  | (Ok _, s) =>
      (∃ ct, message_content candidateSpec bs ct
         ∧ received CustomTools json marshal (end_status (messageStop reason)) ct (frames s))
      ∧ sc_endReason (io_capture s) = end_reason (messageStop reason)
  | (Err _, s) => is_Some (reader_run (0, RNew) (frames s)) ∧ gave_up s
  end.
Proof.
  intros Hnames Hreason Hlines Hrun.
  destruct (Forall_both Hlines) as [Hne Hread].
  destruct (message_decodes candidateSpec now parse lines bs reason Hread Hrun) as (d & events & Hdec & Ht).
  pose proof (stream_reaches_client (FE := responsesFaithful spec candidateSpec siteType requireUsage CustomTools
      ResponseTools valid json marshal newItemID order responseID createdAt Hnames)
    parse rawText (mkOptions AnthropicMessages requireUsage [] None) ltac:(cbn; set_solver) eq_refl eq_refl room
    lines d events (messageStop reason) Hne (lines_decode now parse _ _ _ _ Hdec) eq_refl) as H.
  specialize (H (message_quiet _ _ _ _ Ht) (messageStop_terminal reason)).
  destruct (tl_one _ _ _ _ Ht) as [Hfirst Hone].
  assert (one_response responseID (events ++ [messageStop reason]) = true) as Hresp.
  { destruct events as [|first rest]; [done|]. cbn [app one_response one_message] in *.
    apply forallb_forall. intros event Hin%list_elem_of_In.
    assert (ev_ID (ev_Meta event) = "") as Hid.
    { rewrite list.Forall_forall in Hone. apply elem_of_app in Hin as [Hin|Hin]; [by apply Hone|].
      by apply list_elem_of_singleton in Hin as ->. }
    unfold keeps_id. by rewrite Hid. }
  assert (Forall (λ event, passes_over spec order event = true) (events ++ [messageStop reason])) as Hpass.
  { apply Forall_app. split.
    - eapply list.Forall_impl; [apply (tl_body _ _ _ _ Ht)|]. intros event. by apply body_passes_over.
    - repeat constructor. unfold passes_over, messageStop. cbn [ev_Type finishEvent].
      by destruct (chatFinishReasonIsIncomplete _). }
  specialize (H (conj Hpass Hresp)).
  destruct (proxyCanonicalStream _ _ _ _ _ _) as [[[]|e] s]; [|exact H].
  destruct H as [Hrec Hend]. split; [|exact Hend]. eexists. split; [apply (tl_content _ _ _ _ Ht)|exact Hrec].
Qed.
End to_responses.

(** ** Samples *)

Lemma message_lines_ok : Forall (λ line, line ≠ "" ∧ readable message_sample line = true) message_lines.
Proof. repeat constructor; discriminate. Qed.

(** A message with text and a call. *)
Lemma anthropic_reaches_chat_client_witness :
  ∃ s,
    @proxyCanonicalStream anthropicMessagesStreamDecoder openAIChatStreamEncoder
      (anthropicDecoder 0 message_sample) (chatEncoder chatSpec "anthropic" true false (λ _, true) id)
      message_sample (λ _, "") (mkOptions AnthropicMessages false [] None)
      (newOpenAIChatStreamEncoder 0) None (reads_of message_lines) = (Ok tt, s)
    ∧ chat_has_message (λ _, "") (frames s) message_blocks "tool_use"
    ∧ message_text message_blocks = "Looking." ∧ message_arguments message_blocks "toolu_1" = Some "{}"
    ∧ chat_finish message_blocks "tool_use" = "stop" ∧ sc_endReason (io_capture s) = "done".
Proof.
  pose proof (anthropic_reaches_chat_client 0 message_sample (λ _, "") chatSpec "anthropic" true false
    (λ _, true) id (λ _, "") None 0 message_lines message_blocks "tool_use") as H.
  specialize (H ltac:(vm_compute; split; discriminate) ltac:(vm_compute; split; discriminate)).
  specialize (H ltac:(vm_compute; discriminate) message_lines_ok ltac:(vm_compute; reflexivity)).
  destruct (proxyCanonicalStream _ _ _ _ _ _) as [[[]|e] s] eqn:E in H;
    [|exfalso; vm_compute in E; discriminate].
  destruct H as [Hm Hend]. exists s. split_and!; [exact E|exact Hm|reflexivity..|exact Hend].
Defined.

Lemma anthropic_reaches_responses_client_witness :
  ∃ s n output items,
    @proxyCanonicalStream anthropicMessagesStreamDecoder openAIResponsesStreamEncoder
      (anthropicDecoder 0 message_sample)
      (responsesEncoder responsesSpec responsesSpec "anthropic" false ∅ ∅ (λ _, true) (λ _, None) (λ _, "") "" id)
      message_sample (λ _, "") (mkOptions AnthropicMessages false [] None)
      (newOpenAIResponsesStreamEncoder "resp_1" 0) None (reads_of message_lines) = (Ok tt, s)
    ∧ reader_run (0, RNew) (frames s) = Some (n, RDone "completed" output items)
    ∧ output_text output = "Looking." ∧ sc_endReason (io_capture s) = "done".
Proof.
  pose proof (anthropic_reaches_responses_client 0 message_sample (λ _, "") responsesSpec responsesSpec "anthropic" false
    ∅ ∅ (λ _, true) (λ _, None) (λ _, "") "" id None "resp_1" 0 message_lines message_blocks "tool_use") as H.
  specialize (H ltac:(vm_compute; repeat split; reflexivity)).
  specialize (H ltac:(apply (bool_decide_unpack _); vm_compute; exact I)).
  specialize (H message_lines_ok ltac:(vm_compute; reflexivity)).
  destruct (proxyCanonicalStream _ _ _ _ _ _) as [[[]|e] s] eqn:E in H;
    [|exfalso; vm_compute in E; discriminate].
  destruct H as [(ct & [Hct _ _] & n & output & items & Hr & _ & _ & Ht & _) Hend]. exists s, n, output, items.
  split; [exact E|]. split; [exact Hr|]. split; [rewrite Ht, Hct; reflexivity|exact Hend].
Defined.
