(* ===== verification/Answers.v ===== *)
(** * Whole answers

    The conversion of a response that is not streamed between the chat API, the Responses
    API and the Messages API: [convertResponseBetweenProtocols] of
    [gateway/protocol_canonical.go] with the decoders and encoders it composes, there and in
    [gateway/protocol_anthropic_messages.go] and [gateway/thinking_roundtrip.go]. What
    a client is told by the result is in [AnswerClients]. *)

From stdpp Require Import pretty.
From S2P Require Import Prelude GoFloat Catalog Json Pricing StreamEvents.
From S2P Require Import AnthropicStream ChatStream ResponsesStream StreamProxy ResponsesEncoder AnthropicDecoder.

#[local] Arguments TrimSpace : simpl never.

(** ** Canonical responses *)

(** Of a [canonicalContentPart] a response uses the type and the text. *)
Record canonicalContentPart := mkPart { cp_Type : string; cp_Text : string }.

(** [tb_Raw] is nil or the block as it came. *)
Record canonicalThinkingBlock := mkThinking {
  tb_Type : string;
  tb_Thinking : string;
  tb_Signature : string;
  tb_Raw : list (string * any)
}.

Record canonicalOutputItem := mkOutput {
  oi_Type : string;
  oi_ID : string;
  oi_Role : string;
  oi_Status : string;
  oi_Text : string;
  oi_Content : list canonicalContentPart;
  oi_Thinking : list canonicalThinkingBlock;
  oi_CallID : string;
  oi_Name : string;
  oi_Arguments : string;
  oi_Metadata : list (string * any);
  oi_Result : string;
  oi_RevisedPrompt : string;
  oi_Background : string;
  oi_OutputFormat : string;
  oi_Quality : string;
  oi_Size : string
}.

(** Struct literals: the fields that are named, the others zero. *)
Definition textItem (id role text : string) : canonicalOutputItem :=
  mkOutput "message" id role "completed" text [mkPart "output_text" text] [] "" "" "" [] "" "" "" "" "" "".
Definition reasoningItem (id role : string) (thinking : list canonicalThinkingBlock) : canonicalOutputItem :=
  mkOutput "reasoning" id role "completed" "" [] thinking "" "" "" [] "" "" "" "" "" "".
Definition functionCallItem (id callID name arguments : string) (metadata : list (string * any))
    : canonicalOutputItem :=
  mkOutput "function_call" id "" "completed" "" [] [] callID name arguments metadata "" "" "" "" "" "".

(** [Raw], the body itself, is not used again. *)
Record canonicalResponse := mkCanonical {
  cr_ID : string;
  cr_Model : string;
  cr_CreatedAt : Z;
  cr_FinishReason : string;
  cr_Output : list canonicalOutputItem;
  cr_Usage : gatewayUsage
}.

(** ** Thinking *)

Definition canonicalThinkingFromChatMessage (msg : list (string * any)) : list canonicalThinkingBlock :=
  let thinking := firstNonEmptyGatewayString
    [anyString (map_index msg "reasoning_content"); anyString (map_index msg "thinking")] in
  if bool_decide (thinking = "") then []
  else [mkThinking "thinking" thinking (anyString (map_index msg "thinking_signature")) []].

Definition responsesReasoningText (raw : any) : string :=
  match raw with
  | AString value => TrimSpace value
  | AArray parts =>
      Join (omap (λ rawPart,
        let part := as_map rawPart in
        if bool_decide (anyString (map_index part "type") ∈ ["reasoning_text"; "summary_text"; "text"])
        then let text := anyString (map_index part "text") in
             if bool_decide (text = "") then None else Some text
        else None) parts) (String.String "010" "")
  | _ => ""
  end.

Definition canonicalThinkingFromResponsesItem (item : list (string * any)) : list canonicalThinkingBlock :=
  let thinking :=
    if bool_decide (anyString (map_index item "type") = "reasoning")
    then firstNonEmptyGatewayString [responsesReasoningText (map_index item "content");
                                     responsesReasoningText (map_index item "summary")]
    else "" in
  if bool_decide (thinking = "") then canonicalThinkingFromChatMessage item
  else [mkThinking "thinking" thinking
          (firstNonEmptyGatewayString [anyString (map_index item "thinking_signature");
                                       anyString (map_index item "signature")]) []].

Definition canonicalThinkingFromAnthropicBlock (block : list (string * any)) : option canonicalThinkingBlock :=
  let thinking := rawStringFromAny (map_index block "thinking") in
  if negb (bool_decide (anyString (map_index block "type") = "thinking")) then None
  else if bool_decide (TrimSpace thinking = "") then None
  else Some (mkThinking "thinking" thinking (rawStringFromAny (map_index block "signature")) block).

Definition anthropicThinkingBlocksFromCanonical (blocks : list canonicalThinkingBlock) : list any :=
  omap (λ block,
    if bool_decide (TrimSpace (tb_Thinking block) = "") then None
    else
      let item := map_set (tb_Raw block) "type" (AString (nonEmptyString [tb_Type block; "thinking"])) in
      let item := map_set item "thinking" (AString (tb_Thinking block)) in
      let signature := TrimSpace (tb_Signature block) in
      Some (AObject (if bool_decide (signature = "") then item
                     else map_set item "signature" (AString signature)))) blocks.

Definition chatReasoningContent (blocks : list canonicalThinkingBlock) : string :=
  Join (omap (λ block, if bool_decide (TrimSpace (tb_Thinking block) = "") then None
                       else Some (tb_Thinking block)) blocks) (String.String "010" "").

(** [nil] when there is no text. *)
Definition responsesReasoningItem (blocks : list canonicalThinkingBlock) : option (list (string * any)) :=
  let text := chatReasoningContent blocks in
  if bool_decide (TrimSpace text = "") then None
  else
    let signature := head (omap (λ block,
      let signature := TrimSpace (tb_Signature block) in
      if bool_decide (signature = "") then None else Some signature) blocks) in
    Some ([("type", AString "reasoning");
           ("summary", AArray [AObject [("type", AString "summary_text"); ("text", AString text)]]);
           ("content", AArray [AObject [("type", AString "reasoning_text"); ("text", AString text)]])]
          ++ match signature with Some s => [("thinking_signature", AString s)] | None => [] end).

Definition canonicalThinkingBlocksFromOutput (items : list canonicalOutputItem) : list canonicalThinkingBlock :=
  flat_map oi_Thinking items.

(** ** Decoding *)

Definition toolCallMetadataFromGatewayMap (raw : list (string * any)) : list (string * any) :=
  omap (λ key, let value := rawStringFromAny (map_index raw key) in
               if bool_decide (value = "") then None else Some (key, AString value))
    ["thought_signature"; "thoughtSignature"]
  ++ let namespace := anyString (map_index raw "namespace") in
     if bool_decide (namespace = "") then [] else [("namespace", AString namespace)].

(** A tool call of a chat message with its signatures. *)
Definition read_answerCall (m : list (string * any)) : option (chatToolCall * string * string) :=
  call ← read_chatToolCall m;
  signature ← read_string (field m "thought_signature");
  camel ← read_string (field m "thoughtSignature");
  Some (call, signature, camel).

Record chatAnswerChoice := mkAnswerChoice {
  ac_Index : Z;
  ac_Message : chatMessage;
  ac_Calls : list (chatToolCall * string * string)
}.

(** [chatChoice]: delta and finish reason are checked for their type and not used. *)
Definition read_answerChoice (m : list (string * any)) : option chatAnswerChoice :=
  _ ← read_chatChoice m;
  index ← read_int (field m "index");
  members ← read_map (field m "message");
  message ← read_chatMessage members;
  calls ← read_array (field members "tool_calls");
  calls ← read_all read_answerCall calls;
  Some (mkAnswerChoice index message calls).

Section decode.
Context (synthesizedID : string)        (* [synthesizedResponseID] *)
        (now : Z)                       (* the current second *)
        (rawText : any → string).       (* the text a value was written as *)

(** [fmt.Sprintf("%s_%d")] *)
Definition numbered (prefix id : string) (index : Z) : string := prefix +:+ id +:+ "_" +:+ pretty index.

Definition chatOutput (id : string) (choice : chatAnswerChoice) : list canonicalOutputItem :=
  let message := ac_Message choice in
  let thinking := canonicalThinkingFromChatMessage
    [("reasoning_content", AString (cm_ReasoningContent message)); ("thinking", AString (cm_Thinking message));
     ("thinking_signature", AString (cm_ThinkingSignature message))] in
  let text := anyString (cm_Content message) in
  (if bool_decide (length thinking = O) then []
   else [reasoningItem (numbered "thinking_" id (ac_Index choice)) "assistant" thinking])
  ++ (if bool_decide (text = "") then [] else [textItem (numbered "msg_" id (ac_Index choice)) "assistant" text])
  ++ map (λ '(call, signature, camel),
       functionCallItem ("fc_" +:+ tc_ID call) (tc_ID call) (tc_Name call) (tc_Arguments call)
         (toolCallMetadataFromGatewayMap [("thought_signature", AString signature);
                                          ("thoughtSignature", AString camel)])) (ac_Calls choice).

Definition canonicalResponseFromOpenAIChatBody (root : list (string * any)) : option canonicalResponse :=
  id ← read_string (field root "id");
  created ← read_int (field root "created");
  model ← read_string (field root "model");
  choices ← read_array (field root "choices");
  choices ← read_all read_answerChoice choices;
  usage ← read_map (field root "usage");
  usage ← read_gatewayUsage usage;
  let id := if bool_decide (id = "") then synthesizedID else id in
  let created := if created =? 0 then now else created in
  Some (mkCanonical id model created "" (flat_map (chatOutput id) choices) (normalized usage)).

(** *** The Responses API *)

(** A part of an item's content: its type and text, and as a map of a decoded item. *)
Definition contentPart (m : list (string * any)) : canonicalContentPart :=
  mkPart (default "" (read_string (field m "type"))) (default "" (read_string (field m "text"))).

Definition responsesOutputContentAsAny (content : list canonicalContentPart) : any :=
  AArray (map (λ part, AObject [("type", AString (cp_Type part)); ("text", AString (cp_Text part))]) content).

Definition nonBlank (text : string) : string := if bool_decide (TrimSpace text = "") then "" else text.

(** [responsesOutputItem] and what becomes of it; [read_responsesOutputItem] has checked the
    types of all members. *)
Definition read_outputItem (m : list (string * any)) : option canonicalOutputItem :=
  item ← read_responsesOutputItem m;
  contents ← read_array (field m "content");
  contents ← read_all (λ part, Some (contentPart part)) contents;
  let text name := default "" (read_string (field m name)) in
  Some (mkOutput (it_Type item) (it_ID item) (text "role") (text "status")
          (String.concat "" (map (λ part, nonBlank (cp_Text part)) contents)) contents
          (canonicalThinkingFromResponsesItem
             [("type", AString (it_Type item)); ("content", responsesOutputContentAsAny contents);
              ("reasoning_content", AString (text "reasoning_content")); ("thinking", AString (text "thinking"));
              ("thinking_signature", AString (text "thinking_signature"))])
          (it_CallID item) (it_Name item) (it_Arguments item) []
          (text "result") (text "revised_prompt") (text "background") (text "output_format") (text "quality")
          (text "size")).

(** The counts of images and text, which [completionUsageFromResponsesUsage] leaves out. *)
Definition imageCounts (m : list (string * any)) (u : responsesUsage) (usage : gatewayUsage) : gatewayUsage :=
  let '(image, text) :=
    match ru_InputTokensDetails u with
    | Some details =>
        let audio := default 0 (details ← read_map (field m "input_tokens_details"); read_int (field details "audio_tokens")) in
        let text := sub64 (sub64 (ru_InputTokens u) (id_ImageTokens details)) audio in
        (id_ImageTokens details, if text <? 0 then ru_InputTokens u else text)
    | None => (InputImageTokens usage, InputTextTokens usage)
    end in
  mkUsage (PromptTokens usage) (CompletionTokens usage) (TotalTokens usage) (ImageCount usage)
    (CachedPromptTokens usage) (PromptCacheHitTokens usage) (PromptCacheMissTokens usage) (CacheWriteTokens usage)
    (CacheCreationInputTokens usage) (CacheCreation5mInputTokens usage) (CacheCreation1hInputTokens usage)
    (ReasoningTokens usage) text image (ru_OutputTokens u) (AudioOutputTokens usage) (PromptTokensDetail usage).

(** [decodeCanonicalResponseFromResponsesBody] with [canonicalResponseFromResponsesResponse]. *)
Definition decodeCanonicalResponseFromResponsesBody (root : list (string * any)) : option canonicalResponse :=
  response ← read_responsesResponse root;
  output ← read_array (field root "output");
  output ← read_all read_outputItem output;
  let usage := completionUsageFromResponsesUsage (rs_Usage response) in
  let usage := match rs_Usage response with
               | Some u => imageCounts (as_map (field root "usage")) u usage
               | None => usage
               end in
  Some (mkCanonical (rs_ID response) (rs_Model response) (rs_CreatedAt response) "" output usage).

(** *** The Messages API *)

Record anthropicContentBlock := mkContentBlock {
  ab_Type : string;
  ab_Text : string;
  ab_Thinking : string;
  ab_Signature : string;
  ab_ID : string;
  ab_Name : string;
  ab_Input : string
}.

(** The last member of a name, be it null: that is the one a [json.RawMessage] keeps. *)
Definition raw_field (m : list (string * any)) (name : string) : option any :=
  list.last (omap (λ '(k, v), if EqualFold k name then Some v else None) m).

(** [Input] is a [json.RawMessage]: the text of the value, and nothing when it is missing;
    [marshalJSONToString] makes "{}" of nothing. *)
Definition read_contentBlock (m : list (string * any)) : option anthropicContentBlock :=
  type ← read_string (field m "type");
  text ← read_string (field m "text");
  thinking ← read_string (field m "thinking");
  signature ← read_string (field m "signature");
  id ← read_string (field m "id");
  name ← read_string (field m "name");
  Some (mkContentBlock type text thinking signature id name
          (default "{}" (rawText <$> raw_field m "input"))).

Definition messageOutput (id role : string) (block : anthropicContentBlock) : list canonicalOutputItem :=
  let role := nonEmptyString [role; "assistant"] in
  if bool_decide (ab_Type block = "thinking") then
    match canonicalThinkingFromAnthropicBlock
            [("type", AString (ab_Type block)); ("thinking", AString (ab_Thinking block));
             ("signature", AString (ab_Signature block))] with
    | Some thinking => [reasoningItem ("thinking_" +:+ id) role [thinking]]
    | None => []
    end
  else if bool_decide (ab_Type block = "text") then [textItem ("msg_" +:+ id) role (ab_Text block)]
  else if bool_decide (ab_Type block = "tool_use")
  then [functionCallItem (ab_ID block) (ab_ID block) (ab_Name block) (ab_Input block) []]
  else [].

Definition canonicalResponseFromAnthropicMessagesBody (root : list (string * any)) : option canonicalResponse :=
  id ← read_string (field root "id");
  model ← read_string (field root "model");
  role ← read_string (field root "role");
  content ← read_array (field root "content");
  content ← read_all read_contentBlock content;
  stopReason ← read_string (field root "stop_reason");
  usage ← read_map (field root "usage");
  usage ← read_usageBody usage;
  let id := if bool_decide (id = "") then synthesizedID else id in
  Some (mkCanonical id model now (anthropicStopReasonToFinishReason stopReason)
          (flat_map (messageOutput id role) content) (gatewayUsageFromAnthropicUsage usage)).
End decode.

(** ** Encoding *)

Record responseConversionOptions := mkConversion {
  rc_ImageResponseFormat : string;
  rc_CustomTools : gset string;
  rc_ResponseTools : gmap string responsesToolIdentity;
  rc_RequireUsage : bool
}.

Section encode.
Context (parse : string → option any) (marshal : any → string) (newUUID : string).

(** The text of an item, that of its parts when it has none of its own. *)
Definition itemText (item : canonicalOutputItem) : string :=
  if bool_decide (oi_Text item = "") then String.concat "" (map cp_Text (oi_Content item)) else oi_Text item.

Definition responsesCall (options : responseConversionOptions) (fallbackID : string) (item : canonicalOutputItem) : any :=
  let fallback := if bool_decide (TrimSpace (oi_CallID item) = "") then fallbackID else TrimSpace (oi_CallID item) in
  let status := AString (nonEmptyString [oi_Status item; "completed"]) in
  if bool_decide (oi_Name item ∈ rc_CustomTools options) then
    AObject [("id", AString (responsesItemIDForType newUUID "custom_tool_call" (oi_ID item) fallback));
             ("type", AString "custom_tool_call"); ("status", status); ("call_id", AString (oi_CallID item));
             ("name", AString (oi_Name item));
             ("input", AString (bridgedCustomToolInputFromArguments parse marshal (oi_Arguments item)))]
  else
    let '(name, namespace) :=
      match rc_ResponseTools options !! oi_Name item with
      | Some identity => (ti_Name identity, [("namespace", AString (ti_Namespace identity))])
      | None => (oi_Name item, [])
      end in
    AObject ([("id", AString (responsesItemIDForType newUUID "function_call" (oi_ID item) fallback));
              ("type", AString "function_call"); ("status", status); ("call_id", AString (oi_CallID item));
              ("arguments", AString (oi_Arguments item))] ++ namespace ++ [("name", AString name)]).

Definition reasoningOf (fallbackID : string) (item : canonicalOutputItem) : list any :=
  match responsesReasoningItem (oi_Thinking item) with
  | Some reasoning =>
      [AObject (map_set reasoning "id" (AString (responsesItemIDForType newUUID "reasoning" (oi_ID item) fallbackID)))]
  | None => []
  end.

Definition responsesOutput (options : responseConversionOptions) (id : string) (index : nat) (item : canonicalOutputItem)
    : list any :=
  let fallbackID := numbered "" (responseIDOrFallback id) (Z.of_nat index) in
  let status := AString (nonEmptyString [oi_Status item; "completed"]) in
  if bool_decide (oi_Type item = "reasoning") then reasoningOf fallbackID item
  else if bool_decide (oi_Type item = "function_call") then [responsesCall options fallbackID item]
  else if bool_decide (oi_Type item = "image_generation_call") then
    [AObject [("id", AString (responsesItemIDForType newUUID "image_generation_call" (oi_ID item) fallbackID));
              ("type", AString "image_generation_call"); ("status", status); ("result", AString (oi_Result item));
              ("revised_prompt", AString (oi_RevisedPrompt item)); ("background", AString (oi_Background item));
              ("output_format", AString (oi_OutputFormat item)); ("quality", AString (oi_Quality item));
              ("size", AString (oi_Size item))]]
  else
    reasoningOf fallbackID item
    ++ [AObject [("id", AString (responsesItemIDForType newUUID "message" (oi_ID item) fallbackID));
                 ("type", AString "message"); ("status", status);
                 ("role", AString (nonEmptyString [oi_Role item; "assistant"]));
                 ("content", AArray [AObject [("type", AString "output_text"); ("text", AString (itemText item));
                                              ("annotations", AArray [])]])]].

Definition encodeCanonicalResponseAsResponses (response : canonicalResponse) (options : responseConversionOptions) : any :=
  AObject
    [("id", AString (responseIDOrFallback (cr_ID response))); ("object", AString "response");
     ("created_at", AInt (cr_CreatedAt response)); ("status", AString "completed"); ("background", ABool false);
     ("error", ANil); ("incomplete_details", ANil); ("model", AString (cr_Model response));
     ("output", AArray (List.concat (imap (responsesOutput options (cr_ID response)) (cr_Output response))));
     ("usage", responsesUsagePayload (completionUsageFromGatewayUsage (cr_Usage response)))].

(** *** The chat API *)

(** The calls that have a name. *)
Definition chatCall (item : canonicalOutputItem) : option any :=
  let name := TrimSpace (oi_Name item) in
  if negb (bool_decide (oi_Type item = "function_call")) || bool_decide (name = "") then None
  else
    let callID := TrimSpace (oi_CallID item) in
    let callID := if bool_decide (callID = "") then TrimSpace (oi_ID item) else callID in
    Some (AObject [("id", AString callID); ("type", AString "function");
                   ("function", AObject [("name", AString name); ("arguments", AString (oi_Arguments item))])]).

(** The text of the assistant's messages; parts of white space only are left out. *)
Definition chatText (item : canonicalOutputItem) : string :=
  if negb (bool_decide (oi_Type item = "message")) then ""
  else if negb (bool_decide (oi_Role item = "")) && negb (bool_decide (oi_Role item = "assistant")) then ""
  else if negb (bool_decide (oi_Text item = "")) then oi_Text item
  else String.concat "" (map (λ part, nonBlank (cp_Text part)) (oi_Content item)).

Definition encodeCanonicalResponseAsChatCompletion (response : canonicalResponse) : any :=
  let toolCalls := omap chatCall (cr_Output response) in
  let text := String.concat "" (map chatText (cr_Output response)) in
  let reasoning := chatReasoningContent (canonicalThinkingBlocksFromOutput (cr_Output response)) in
  let calls := negb (bool_decide (length toolCalls = O)) && bool_decide (text = "") in
  let finishReason := if calls then "tool_calls" else nonEmptyString [cr_FinishReason response; "stop"] in
  let message :=
    [("role", AString "assistant"); ("content", AString text)]
    ++ (if bool_decide (reasoning = "") then [] else [("reasoning_content", AString reasoning)])
    ++ (if calls then [("tool_calls", AArray toolCalls)] else []) in
  AObject
    [("id", AString (responseIDOrFallback (cr_ID response))); ("object", AString "chat.completion");
     ("created", AInt (cr_CreatedAt response)); ("model", AString (cr_Model response));
     ("choices", AArray [AObject [("index", AInt 0); ("message", AObject message);
                                  ("finish_reason", AString finishReason)]]);
     ("usage", chatCompletionUsagePayload (cr_Usage response))].

(** *** The Messages API *)

Definition finishReasonToAnthropicStopReason (reason : string) (hasToolUse : bool) : string :=
  let reason := TrimSpace reason in
  if hasToolUse then "tool_use"
  else if bool_decide (reason = "length") then "max_tokens"
  else if bool_decide (reason = "tool_calls") then "tool_use"
  else if bool_decide (reason = "") then "end_turn"
  else reason.

Definition unmarshalJSONObjectOrEmpty (text : string) : any :=
  let text := TrimSpace text in
  if bool_decide (text = "") then AObject [] else default (AObject []) (parse text).

(** The first part that is not empty is the text of a message without one. *)
Definition anthropicText (item : canonicalOutputItem) : string :=
  fold_left (λ text part, if bool_decide (text = "") then cp_Text part else text) (oi_Content item) (oi_Text item).

Definition anthropicOutput (item : canonicalOutputItem) : list any :=
  if bool_decide (oi_Type item = "reasoning") then anthropicThinkingBlocksFromCanonical (oi_Thinking item)
  else if bool_decide (oi_Type item = "function_call") then
    [AObject (addToolCallMetadataToAnthropicBlock
       [("type", AString "tool_use"); ("id", AString (nonEmptyString [oi_CallID item; oi_ID item]));
        ("name", AString (oi_Name item)); ("input", unmarshalJSONObjectOrEmpty (oi_Arguments item))]
       (oi_Metadata item))]
  else if bool_decide (oi_Type item = "message") then
    anthropicThinkingBlocksFromCanonical (oi_Thinking item)
    ++ let text := anthropicText item in
       if bool_decide (text = "") then [] else [AObject [("type", AString "text"); ("text", AString text)]]
  else [].

Definition encodeCanonicalResponseAsAnthropicMessage (response : canonicalResponse) : any :=
  let hasToolUse := existsb (λ item, bool_decide (oi_Type item = "function_call")) (cr_Output response) in
  AObject
    [("id", AString (responseIDOrFallback (cr_ID response))); ("type", AString "message");
     ("role", AString "assistant"); ("model", AString (cr_Model response));
     ("content", AArray (flat_map anthropicOutput (cr_Output response)));
     ("stop_reason", AString (finishReasonToAnthropicStopReason (cr_FinishReason response) hasToolUse));
     ("stop_sequence", ANil); ("usage", anthropicUsagePayload (cr_Usage response))].
End encode.

(** ** The conversion *)

(** Between the three APIs; images and Gemini are not modelled. *)
Inductive api := ChatAPI | ResponsesAPI | MessagesAPI.

#[global] Instance api_eq_dec : EqDecision api.
Proof. solve_decision. Defined.

Section convert.
Context (synthesizedID : string) (now : Z) (rawText : any → string)
        (parse : string → option any) (marshal : any → string) (newUUID : string).

Definition decodeResponse (from : api) (root : list (string * any)) : option canonicalResponse :=
  match from with
  | ChatAPI => canonicalResponseFromOpenAIChatBody synthesizedID now root
  | ResponsesAPI => decodeCanonicalResponseFromResponsesBody root
  | MessagesAPI => canonicalResponseFromAnthropicMessagesBody synthesizedID now rawText root
  end.

Definition encodeResponse (to : api) (response : canonicalResponse) (options : responseConversionOptions) : any :=
  match to with
  | ChatAPI => encodeCanonicalResponseAsChatCompletion response
  | ResponsesAPI => encodeCanonicalResponseAsResponses parse marshal newUUID response options
  | MessagesAPI => encodeCanonicalResponseAsAnthropicMessage parse response
  end.

Definition convertResponseBetweenProtocols (from to : api) (body : string) (options : responseConversionOptions)
    : result (any * gatewayUsage) string :=
  match value ← parse body; root ← read_map value; decodeResponse from root with
  | None => Err unmarshalError
  | Some canonical =>
      if rc_RequireUsage options && negb (gatewayUsageAvailable (cr_Usage canonical))
      then Err "response usage is unavailable for protocol conversion"
      else Ok (encodeResponse to canonical options, cr_Usage canonical)
  end.
End convert.
