(* ===== verification/AnswerClients.v ===== *)
(** * What a client is told by a whole answer

    A reader of each API says what text and calls an answer holds: [heard] of what an
    upstream sent (of a chat answer, the text without the white space around it), [client]
    of what is written.  Every decoder of [Answers] keeps what its reader finds, every
    encoder writes what its reader finds again, and so a conversion between two APIs keeps
    it; what it loses otherwise is stated at the end. *)

From stdpp Require Import pretty.
From S2P Require Import Prelude GoFloat Catalog Json Pricing StreamEvents.
From S2P Require Import AnthropicStream ChatStream ResponsesStream StreamProxy ResponsesEncoder AnthropicDecoder.
From S2P Require Import Answers.

#[local] Arguments TrimSpace : simpl never.

(** ** What a client reads

    One reader per API, for the answers of upstreams as for those the gateway writes. *)

(** A call: its identifier, the name of its tool and its arguments, when they are JSON. *)
Record answerCall := mkAnswerCall { ca_ID : string; ca_Name : string; ca_Arguments : option any }.

Record toldAnswer := mkAnswer { an_text : string; an_calls : list answerCall }.

Definition str (m : list (string * any)) (name : string) : string := default "" (read_string (field m name)).
Definition items_of (m : list (string * any)) (name : string) : list (list (string * any)) :=
  map as_map (default [] (read_array (field m name))).

Section clients.
Context (parse : string → option any).

Definition argumentsOf (text : string) : option any := parse (TrimSpace text).

Definition chatClientCall (call : list (string * any)) : answerCall :=
  let function := as_map (field call "function") in
  mkAnswerCall (str call "id") (str function "name") (argumentsOf (str function "arguments")).

Definition chatMessages (root : list (string * any)) : list (list (string * any)) :=
  map (λ choice, as_map (field choice "message")) (items_of root "choices").

Definition chatClient (root : list (string * any)) : toldAnswer :=
  mkAnswer (String.concat "" (map (λ message, rawStringFromAny (field message "content")) (chatMessages root)))
    (flat_map (λ message, map chatClientCall (items_of message "tool_calls")) (chatMessages root)).

Definition of_type (type : string) (items : list (list (string * any))) : list (list (string * any)) :=
  List.filter (λ item, bool_decide (str item "type" = type)) items.

Definition responsesClient (root : list (string * any)) : toldAnswer :=
  let output := items_of root "output" in
  mkAnswer
    (String.concat "" (map (λ item, String.concat "" (map (λ part, str part "text") (items_of item "content")))
                         (of_type "message" output)))
    (map (λ item, mkAnswerCall (str item "call_id") (str item "name") (argumentsOf (str item "arguments")))
       (of_type "function_call" output)).

(** A block without an input has an empty one. *)
Definition blockInput (block : list (string * any)) : any :=
  default (AObject []) (raw_field block "input").

Definition messagesClient (root : list (string * any)) : toldAnswer :=
  let content := items_of root "content" in
  mkAnswer (String.concat "" (map (λ block, str block "text") (of_type "text" content)))
    (map (λ block, mkAnswerCall (str block "id") (str block "name") (Some (blockInput block)))
       (of_type "tool_use" content)).

Definition client (who : api) (root : list (string * any)) : toldAnswer :=
  match who with
  | ChatAPI => chatClient root
  | ResponsesAPI => responsesClient root
  | MessagesAPI => messagesClient root
  end.
End clients.

(** What a conversion takes from an answer: of the content of a chat message the text without
    the white space around it, and nothing of a content that is not a text. *)
Definition heard (parse : string → option any) (from : api) (root : list (string * any)) : toldAnswer :=
  match from with
  | ChatAPI =>
      mkAnswer (String.concat "" (map (λ message, anyString (field message "content")) (chatMessages root)))
        (an_calls (chatClient parse root))
  | _ => client parse from root
  end.

(** Of a text, that it has no white space around it. *)
Definition clean (text : string) : bool := negb (bool_decide (text = "")) && bool_decide (TrimSpace text = text).

(** The calls have identifiers and names, and their arguments are JSON. *)
Definition proper_call (call : answerCall) : bool :=
  clean (ca_ID call) && clean (ca_Name call) && bool_decide (is_Some (ca_Arguments call)).

(** What a client of the other API is told: a chat client gets the calls only of an answer
    without text. *)
Definition told (to : api) (a : toldAnswer) : toldAnswer :=
  match to with
  | ChatAPI => if bool_decide (an_text a = "") then a else mkAnswer (an_text a) []
  | _ => a
  end.

(** ** What a canonical response says *)

Section says.
Context (parse : string → option any).

Definition item_text (item : canonicalOutputItem) : string :=
  if bool_decide (oi_Type item = "message") then itemText item else "".
Definition item_calls (item : canonicalOutputItem) : list answerCall :=
  if bool_decide (oi_Type item = "function_call")
  then [mkAnswerCall (oi_CallID item) (oi_Name item) (argumentsOf parse (oi_Arguments item))] else [].

Definition response_says (output : list canonicalOutputItem) : toldAnswer :=
  mkAnswer (String.concat "" (map item_text output)) (flat_map item_calls output).

(** The item reads the same for every encoder. *)
Definition item_ok (item : canonicalOutputItem) : Prop :=
  oi_Type item = "message" → chatText item = itemText item ∧ anthropicText item = itemText item.

(** An item of the kinds the encoders know. *)
Definition known_item (item : canonicalOutputItem) : Prop :=
  oi_Type item ∈ ["reasoning"; "message"; "function_call"].

Lemma item_text_type type item : oi_Type item = type → type ≠ "message" → item_text item = "".
Proof. intros Ht Hne. unfold item_text. by rewrite Ht, bool_decide_eq_false_2. Qed.

(** *** Chat clients *)

Lemma chat_texts output :
  Forall item_ok output → map chatText output = map item_text output.
Proof.
  intros Hok. induction Hok as [|item output Hi Hok IH]; [done|]. cbn [map]. rewrite IH. f_equal.
  unfold item_text. case_bool_decide as Ht; [by apply Hi|]. unfold chatText. by rewrite bool_decide_eq_false_2.
Qed.

Lemma clean_spec text : clean text = true → text ≠ "" ∧ TrimSpace text = text.
Proof. unfold clean. by intros [?%negb_true_iff%bool_decide_eq_false ?%bool_decide_eq_true]%andb_true_iff. Qed.

Lemma proper_spec call :
  proper_call call = true →
  (ca_ID call ≠ "" ∧ TrimSpace (ca_ID call) = ca_ID call) ∧ (ca_Name call ≠ "" ∧ TrimSpace (ca_Name call) = ca_Name call)
  ∧ is_Some (ca_Arguments call).
Proof.
  unfold proper_call. intros [[?%clean_spec ?%clean_spec]%andb_true_iff ?%bool_decide_eq_true]%andb_true_iff. done.
Qed.

Lemma chat_calls output :
  Forall (λ call, proper_call call = true) (flat_map item_calls output) →
  map (λ x, chatClientCall parse (as_map x)) (omap chatCall output) = flat_map item_calls output.
Proof.
  induction output as [|item output IH]; [done|]. cbn [flat_map]. intros [Hi Ho]%Forall_app.
  cbn [omap list_omap]. unfold item_calls in Hi |- *. unfold chatCall at 1.
  case_bool_decide as Ht; cbn [negb orb]; [|by apply IH].
  apply list.Forall_cons in Hi as [Hp _]. destruct (proper_spec _ Hp) as ([Hid Htid] & [Hn Htn] & _). cbn in Hid, Htid, Hn, Htn.
  rewrite Htn, bool_decide_eq_false_2, Htid, bool_decide_eq_false_2 by done. cbn [map app]. by rewrite IH.
Qed.

Lemma encode_chat response :
  Forall item_ok (cr_Output response) →
  Forall (λ call, proper_call call = true) (an_calls (response_says (cr_Output response))) →
  client parse ChatAPI (as_map (encodeCanonicalResponseAsChatCompletion response))
  = told ChatAPI (response_says (cr_Output response)).
Proof.
  intros Hok Hp. unfold encodeCanonicalResponseAsChatCompletion, response_says, told, client. cbn [an_text].
  rewrite (chat_texts _ Hok). set (text := String.concat "" (map item_text (cr_Output response))).
  pose proof (chat_calls _ Hp) as Hcalls. cbn [an_calls response_says] in Hp.
  set (calls := omap chatCall (cr_Output response)) in *. set (reasoning := chatReasoningContent _).
  unfold chatClient, chatMessages. cbn [as_map].
  change (items_of _ "choices") with
    [[("index", AInt 0);
      ("message", AObject ([("role", AString "assistant"); ("content", AString text)]
         ++ (if bool_decide (reasoning = "") then [] else [("reasoning_content", AString reasoning)])
         ++ (if negb (bool_decide (length calls = 0%nat)) && bool_decide (text = "") then [("tool_calls", AArray calls)] else [])));
      ("finish_reason", AString (if negb (bool_decide (length calls = 0%nat)) && bool_decide (text = "") then "tool_calls"
                                 else nonEmptyString [cr_FinishReason response; "stop"]))]].
  cbn [map flat_map]. set (choice := [_; _; _]).
  change (as_map (field choice "message")) with
    ([("role", AString "assistant"); ("content", AString text)]
         ++ (if bool_decide (reasoning = "") then [] else [("reasoning_content", AString reasoning)])
         ++ (if negb (bool_decide (length calls = 0%nat)) && bool_decide (text = "") then [("tool_calls", AArray calls)] else [])).
  rewrite app_nil_r. cbn [String.concat].
  destruct (bool_decide (reasoning = "")), (bool_decide_reflect (text = "")) as [Ht|Ht],
    (bool_decide_reflect (length calls = 0%nat)) as [Hl|Hl]; cbn [negb andb app];
    (apply (f_equal2 mkAnswer); [reflexivity|]); rewrite <- ?Hcalls.
  all: first [reflexivity | by apply nil_length_inv in Hl; rewrite Hl
             | unfold items_of; cbn -[chatClientCall]; by rewrite map_map].
Qed.

(** *** Responses clients *)

Lemma of_type_app type l m : of_type type (l ++ m) = of_type type l ++ of_type type m.
Proof. apply List.filter_app. Qed.

(** What a reader of lists finds: texts in the items of one type, calls in those of another. *)
Section reader.
Context (textType callType : string) (readText : list (string * any) → string)
        (readCall : list (string * any) → answerCall).

Definition texts_of (output : list any) : string :=
  String.concat "" (map readText (of_type textType (map as_map output))).
Definition calls_of (output : list any) : list answerCall :=
  map readCall (of_type callType (map as_map output)).

Lemma texts_of_app l m : texts_of (l ++ m) = texts_of l +:+ texts_of m.
Proof. unfold texts_of. by rewrite map_app, of_type_app, map_app, concat_strings_app. Qed.
Lemma calls_of_app l m : calls_of (l ++ m) = calls_of l ++ calls_of m.
Proof. unfold calls_of. by rewrite map_app, of_type_app, map_app. Qed.

(** Item by item is all of it. *)
Lemma output_read (g : nat → canonicalOutputItem → list any) output :
  (∀ i item, item ∈ output → texts_of (g i item) = item_text item ∧ calls_of (g i item) = item_calls item) →
  mkAnswer (texts_of (List.concat (imap g output))) (calls_of (List.concat (imap g output))) = response_says output.
Proof.
  revert g. induction output as [|item output IH]; intros g Hg; [done|]. rewrite imap_cons. cbn [List.concat].
  destruct (Hg O item) as [Ht Hc]; [by left|]. assert (Hrest := λ Hg', IH (g ∘ S) Hg').
  rewrite texts_of_app, calls_of_app, Ht, Hc. injection (Hrest (λ i item' Hin, Hg (S i) item' (list_elem_of_further _ _ _ Hin))) as Ht' Hc'.
  unfold response_says. cbn [map flat_map]. rewrite Ht', Hc'. by rewrite concat_strings_cons.
Qed.
End reader.

Definition output_texts : list any → string :=
  texts_of "message" (λ item, String.concat "" (map (λ part, str part "text") (items_of item "content"))).
Definition output_calls : list any → list answerCall :=
  calls_of "function_call" (λ item, mkAnswerCall (str item "call_id") (str item "name") (argumentsOf parse (str item "arguments"))).

(** The reasoning an item carries is no text. *)
Lemma reasoning_unread newUUID fallbackID item :
  output_texts (reasoningOf newUUID fallbackID item) = "" ∧ output_calls (reasoningOf newUUID fallbackID item) = [].
Proof.
  unfold reasoningOf, responsesReasoningItem. destruct (bool_decide _); [done|].
  destruct (head _) as [signature|]; by split.
Qed.

Section responses.
Context (marshal : any → string) (newUUID : string) (options : responseConversionOptions).

(** The tool of a call has no other name at the client. *)
Definition plain_tool (call : answerCall) : Prop :=
  ca_Name call ∉ rc_CustomTools options ∧ rc_ResponseTools options !! ca_Name call = None.

Lemma responses_item_read id i item :
  known_item item → Forall plain_tool (item_calls item) →
  output_texts (responsesOutput parse marshal newUUID options id i item) = item_text item
  ∧ output_calls (responsesOutput parse marshal newUUID options id i item) = item_calls item.
Proof.
  unfold known_item, responsesOutput, item_text, item_calls. intros Hk Hplain.
  set (fallbackID := numbered _ _ _). set_unfold in Hk. destruct Hk as [Hk|[Hk|[Hk|[]]]]; rewrite Hk in *.
  - apply reasoning_unread.
  - destruct (reasoning_unread newUUID fallbackID item) as [Ht Hc].
    change (bool_decide ("message" = "reasoning")) with false. change (bool_decide ("message" = "function_call")) with false.
    change (bool_decide ("message" = "image_generation_call")) with false. cbn [bool_decide].
    unfold output_texts, output_calls in *. rewrite texts_of_app, calls_of_app, Ht, Hc. split; reflexivity.
  - change (bool_decide ("function_call" = "reasoning")) with false. change (bool_decide ("function_call" = "function_call")) with true in *.
    change (bool_decide ("function_call" = "message")) with false. cbv iota in *.
    apply list.Forall_cons in Hplain as [[Hcustom Hnone] _]. cbn [ca_Name] in Hcustom, Hnone.
    unfold responsesCall. rewrite (bool_decide_eq_false_2 _ Hcustom), Hnone. split; reflexivity.
Qed.

Lemma encode_responses response :
  Forall known_item (cr_Output response) →
  Forall plain_tool (an_calls (response_says (cr_Output response))) →
  client parse ResponsesAPI (as_map (encodeCanonicalResponseAsResponses parse marshal newUUID response options))
  = response_says (cr_Output response).
Proof.
  intros Hk Hplain. apply (output_read "message" "function_call"). intros i item Hin.
  rewrite list.Forall_forall in Hk. apply responses_item_read; [by apply Hk|].
  rewrite list.Forall_forall in Hplain |- *. intros call Hcall. apply Hplain.
  apply list_elem_of_In, in_flat_map. exists item. by rewrite <- !list_elem_of_In.
Qed.
End responses.

(** *** Messages clients *)

Definition content_texts : list any → string := texts_of "text" (λ block, str block "text").
Definition content_calls : list any → list answerCall :=
  calls_of "tool_use" (λ block, mkAnswerCall (str block "id") (str block "name") (Some (blockInput block))).

(** A thinking block as the decoders make it. *)
Definition thinking_ok (block : canonicalThinkingBlock) : Prop :=
  tb_Type block = "thinking"
  ∧ (tb_Raw block = [] ∨ ∃ thinking signature,
       tb_Raw block = [("type", AString "thinking"); ("thinking", AString thinking); ("signature", AString signature)]).

Lemma thinking_unread blocks :
  Forall thinking_ok blocks →
  content_texts (anthropicThinkingBlocksFromCanonical blocks) = ""
  ∧ content_calls (anthropicThinkingBlocksFromCanonical blocks) = [].
Proof.
  intros Hok. induction Hok as [|[type thinking signature raw] blocks [Ht Hraw] Hok IH]; [done|].
  unfold anthropicThinkingBlocksFromCanonical. cbn [omap list_omap]. cbn [tb_Type tb_Raw tb_Thinking tb_Signature] in *.
  destruct (bool_decide (TrimSpace thinking = "")); [exact IH|]. fold anthropicThinkingBlocksFromCanonical.
  rewrite Ht. change (nonEmptyString ["thinking"; "thinking"]) with "thinking".
  unfold content_texts, content_calls in *.
  destruct (bool_decide (TrimSpace signature = "")), Hraw as [->|(t & s & ->)]; exact IH.
Qed.

(** An item the Messages encoder writes as it is. *)
Definition messages_ok (item : canonicalOutputItem) : Prop :=
  item_ok item ∧ Forall thinking_ok (oi_Thinking item).

Lemma messages_item_read item :
  parse "" = None → messages_ok item → Forall (λ call, proper_call call = true) (item_calls item) →
  content_texts (anthropicOutput parse item) = item_text item
  ∧ content_calls (anthropicOutput parse item) = item_calls item.
Proof.
  unfold anthropicOutput, item_text, item_calls, item_ok. intros Hempty [Hok Hthinking] Hcalls.
  pose proof (thinking_unread _ Hthinking) as [Htt Htc].
  destruct (bool_decide_reflect (oi_Type item = "reasoning")) as [Hr|Hr]; [rewrite Hr; split; [exact Htt|exact Htc]|].
  destruct (bool_decide_reflect (oi_Type item = "function_call")) as [Hf|Hf].
  - rewrite Hf. change (bool_decide ("function_call" = "message")) with false. cbv iota.
    apply list.Forall_cons in Hcalls as [Hp _].
    destruct (proper_spec _ Hp) as ([Hid Htid] & [Hn Htn] & [arguments Ha]). cbn [ca_ID ca_Name ca_Arguments] in *.
    assert (unmarshalJSONObjectOrEmpty parse (oi_Arguments item) = arguments) as ->.
    { unfold unmarshalJSONObjectOrEmpty. unfold argumentsOf in Ha. case_bool_decide as He; [by rewrite He, Hempty in Ha|].
      by rewrite Ha. }
    rewrite Ha. cbn [nonEmptyString]. rewrite Htid, bool_decide_eq_false_2 by done.
    unfold addToolCallMetadataToAnthropicBlock. set (signature := firstNonEmptyGatewayString _).
    split; destruct (bool_decide (signature = "")); try reflexivity.
    all: idtac.
  - destruct (bool_decide_reflect (oi_Type item = "message")) as [Hm|Hm]; [|by split]. destruct (Hok Hm) as [_ ->].
    unfold content_texts, content_calls in *. rewrite texts_of_app, calls_of_app, Htt, Htc.
    case_bool_decide as He; [by rewrite He|by split].
Qed.

Lemma encode_messages response :
  parse "" = None → Forall messages_ok (cr_Output response) →
  Forall (λ call, proper_call call = true) (an_calls (response_says (cr_Output response))) →
  client parse MessagesAPI (as_map (encodeCanonicalResponseAsAnthropicMessage parse response))
  = response_says (cr_Output response).
Proof.
  intros Hempty Hok Hp. unfold client, messagesClient.
  change (items_of _ "content") with (map as_map (flat_map (anthropicOutput parse) (cr_Output response))).
  rewrite flat_map_concat_map. change (map (anthropicOutput parse)) with (fmap (M := list) (anthropicOutput parse)).
  rewrite <- (imap_const (anthropicOutput parse)). apply (output_read "text" "tool_use"). intros i item Hin.
  rewrite list.Forall_forall in Hok. apply messages_item_read; [done|by apply Hok|].
  rewrite list.Forall_forall in Hp |- *. intros call Hcall. apply Hp.
  apply list_elem_of_In, in_flat_map. exists item. by rewrite <- !list_elem_of_In.
Qed.

(** *** Decoded answers *)

Lemma read_map_as_map value m : read_map value = Some m → as_map value = m.
Proof. destruct value; cbn; congruence. Qed.

Lemma read_all_spec {A} (read : list (string * any) → option A) items l :
  read_all read items = Some l → Forall2 (λ m a, read m = Some a) (map as_map items) l.
Proof.
  revert l. induction items as [|item items IH]; intros l Hl; cbn in Hl; [by simplify_eq|].
  apply bind_Some in Hl as (m & Hm%read_map_as_map & (a & Ha & (rest & Hrest & [= <-])%bind_Some)%bind_Some).
  cbn. constructor; [by rewrite Hm|by apply IH].
Qed.

(** What a field of a list of objects was read as. *)
Lemma items_read {A} (read : list (string * any) → option A) m name items l :
  read_array (field m name) = Some items → read_all read items = Some l →
  Forall2 (λ m a, read m = Some a) (items_of m name) l.
Proof. intros Hi Hl. unfold items_of. rewrite Hi. by apply read_all_spec. Qed.

Lemma str_read m name s : read_string (field m name) = Some s → str m name = s.
Proof. unfold str. by intros ->. Qed.

Lemma response_says_app l m :
  response_says (l ++ m)
  = mkAnswer (an_text (response_says l) +:+ an_text (response_says m))
      (an_calls (response_says l) ++ an_calls (response_says m)).
Proof. unfold response_says. cbn. by rewrite map_app, concat_strings_app, flat_map_app. Qed.

(** Objects that are read one by one. *)
Lemma says_flat_map {A B} (R : B → A → Prop) (f : A → list canonicalOutputItem) T C ms l :
  Forall2 R ms l → (∀ m a, R m a → m ∈ ms → response_says (f a) = mkAnswer (T m) (C m)) →
  response_says (flat_map f l) = mkAnswer (String.concat "" (map T ms)) (flat_map C ms).
Proof.
  intros HR Hf. induction HR as [|m a ms l Hma HR IH]; [done|]. cbn [flat_map].
  rewrite response_says_app, (Hf m a Hma) by (by left).
  rewrite IH by (intros m' a' Hr Hin; apply (Hf m' a' Hr); by right). cbn [map an_text an_calls]. by rewrite concat_strings_cons.
Qed.

(** The items of one type, one by one. *)
Lemma texts_by_item type (read : list (string * any) → string) items :
  String.concat "" (map read (of_type type items))
  = String.concat "" (map (λ m, if bool_decide (str m "type" = type) then read m else "") items).
Proof.
  induction items as [|m items IH]; [done|]. unfold of_type in *. cbn [List.filter map].
  rewrite concat_strings_cons, <- IH. case_bool_decide; [|done]. cbn [map]. by rewrite concat_strings_cons.
Qed.

Lemma calls_by_item type (read : list (string * any) → answerCall) items :
  map read (of_type type items) = flat_map (λ m, if bool_decide (str m "type" = type) then [read m] else []) items.
Proof.
  induction items as [|m items IH]; [done|]. unfold of_type in *. cbn [List.filter flat_map]. rewrite <- IH.
  by case_bool_decide.
Qed.

Lemma Forall_flat_map_2 {A B} (R : B → A → Prop) (P : canonicalOutputItem → Prop) (f : A → list canonicalOutputItem) ms l :
  Forall2 R ms l → (∀ m a, R m a → m ∈ ms → Forall P (f a)) → Forall P (flat_map f l).
Proof.
  intros HR Hf. induction HR as [|m a ms l Hma HR IH]; [constructor|]. cbn [flat_map]. apply Forall_app. split.
  - apply (Hf m a Hma). by left.
  - apply IH. intros. apply (Hf m0 a0); [done|by right].
Qed.

Lemma if_nil_Forall (P : canonicalOutputItem → Prop) (b : bool) item : P item → Forall P (if b then [] else [item]).
Proof. destruct b; auto. Qed.

Lemma textItem_ok id role text : role ∈ [""; "assistant"] → messages_ok (textItem id role text).
Proof.
  intros Hrole. split; [intros _|constructor]. unfold chatText, itemText, anthropicText, textItem. cbn.
  assert (negb (bool_decide (role = "")) && negb (bool_decide (role = "assistant")) = false) as ->
    by (set_unfold in Hrole; destruct Hrole as [->|[->|[]]]; done).
  destruct (bool_decide_reflect (text = "")) as [->|Ht]; done.
Qed.

Lemma textItem_text id role text : item_text (textItem id role text) = text.
Proof. unfold item_text, itemText. cbn. by destruct (bool_decide (text = "")). Qed.

Lemma functionCallItem_ok id callID name arguments metadata : messages_ok (functionCallItem id callID name arguments metadata).
Proof. split; [done|constructor]. Qed.

Lemma chat_thinking_ok m : Forall thinking_ok (canonicalThinkingFromChatMessage m).
Proof.
  unfold canonicalThinkingFromChatMessage. destruct (bool_decide _); repeat constructor.
Qed.

Lemma responses_thinking_ok m : Forall thinking_ok (canonicalThinkingFromResponsesItem m).
Proof.
  unfold canonicalThinkingFromResponsesItem. destruct (bool_decide (_ = "")); [apply chat_thinking_ok|repeat constructor].
Qed.

Lemma reasoningItem_ok id role thinking : Forall thinking_ok thinking → messages_ok (reasoningItem id role thinking).
Proof. by split. Qed.

(** **** From the chat API *)

Lemma read_call m call signature camel :
  read_answerCall m = Some (call, signature, camel) →
  mkAnswerCall (tc_ID call) (tc_Name call) (argumentsOf parse (tc_Arguments call)) = chatClientCall parse m.
Proof.
  unfold read_answerCall, read_chatToolCall, chatClientCall. intros Hr. simplify_option_eq.
  repeat match goal with H : _ = Some _ |- _ => first [apply str_read in H | apply read_map_as_map in H] end.
  by subst.
Qed.

Lemma calls_read ms calls :
  Forall2 (λ m a, read_answerCall m = Some a) ms calls →
  response_says (map (λ '(call, signature, camel),
      functionCallItem ("fc_" +:+ tc_ID call) (tc_ID call) (tc_Name call) (tc_Arguments call)
        (toolCallMetadataFromGatewayMap [("thought_signature", AString signature);
                                         ("thoughtSignature", AString camel)])) calls)
  = mkAnswer "" (map (chatClientCall parse) ms).
Proof.
  intros HR. induction HR as [|m [[call signature] camel] ms calls Hr HR IH]; [done|].
  cbn [map]. unfold response_says in *. cbn [map flat_map]. injection IH as Ht Hc. rewrite Hc.
  rewrite concat_strings_cons, Ht. cbn -[argumentsOf chatClientCall].
  change (item_calls (functionCallItem ?a ?b ?c ?d ?e)) with [mkAnswerCall b c (argumentsOf parse d)].
  by rewrite (read_call _ _ _ _ Hr).
Qed.

Lemma read_message members message : read_chatMessage members = Some message → cm_Content message = field members "content".
Proof. unfold read_chatMessage. intros Hr. by simplify_option_eq. Qed.

Definition choiceMessage (choice : list (string * any)) : list (string * any) := as_map (field choice "message").

Lemma chat_choice_says m choice id :
  read_answerChoice m = Some choice →
  response_says (chatOutput id choice)
  = mkAnswer (anyString (field (choiceMessage m) "content"))
      (map (chatClientCall parse) (items_of (choiceMessage m) "tool_calls")).
Proof.
  unfold read_answerChoice, choiceMessage. intros Hr.
  apply bind_Some in Hr as (_ & _ & Hr). apply bind_Some in Hr as (index & _ & Hr).
  apply bind_Some in Hr as (members & Hm%read_map_as_map & Hr). apply bind_Some in Hr as (message & Hmessage & Hr).
  apply bind_Some in Hr as (items & Hitems & Hr). apply bind_Some in Hr as (calls & Hcalls & [= <-]).
  rewrite Hm in *. unfold chatOutput. cbn [ac_Message ac_Calls ac_Index]. rewrite !response_says_app.
  rewrite (calls_read _ _ (items_read _ _ _ _ _ Hitems Hcalls)), (read_message _ _ Hmessage).
  set (thinking := canonicalThinkingFromChatMessage _).
  assert (response_says (if bool_decide (length thinking = O) then []
            else [reasoningItem (numbered "thinking_" id index) "assistant" thinking]) = mkAnswer "" []) as ->
    by by destruct (bool_decide _).
  cbn [an_text an_calls app]. f_equal.
  - case_bool_decide as Ht; [by rewrite Ht|]. cbn [an_text response_says map String.concat].
    by rewrite textItem_text, !append_nil_r.
  - by destruct (bool_decide _).
Qed.

Lemma decode_chat synthesizedID now root c :
  canonicalResponseFromOpenAIChatBody synthesizedID now root = Some c →
  response_says (cr_Output c) = heard parse ChatAPI root
  ∧ Forall known_item (cr_Output c) ∧ Forall messages_ok (cr_Output c).
Proof.
  unfold canonicalResponseFromOpenAIChatBody. intros Hd.
  apply bind_Some in Hd as (id & _ & Hd). apply bind_Some in Hd as (created & _ & Hd).
  apply bind_Some in Hd as (model & _ & Hd). apply bind_Some in Hd as (items & Hi & Hd).
  apply bind_Some in Hd as (choices & Hc & Hd). apply bind_Some in Hd as (usage & _ & Hd).
  apply bind_Some in Hd as (u & _ & [= <-]). cbn [cr_Output].
  pose proof (items_read _ _ _ _ _ Hi Hc) as HR. clear Hi Hc. set (id' := if bool_decide _ then _ else _).
  unfold heard, chatClient, chatMessages in *. cbn [an_calls]. split_and!.
  - rewrite map_map, (flat_map_concat_map _ (map _ _)), map_map, <- flat_map_concat_map.
    apply (says_flat_map _ _ _ _ _ _ HR). intros m choice Hr _. by apply chat_choice_says.
  - apply (Forall_flat_map_2 _ _ _ _ _ HR). intros m choice _ _. unfold chatOutput.
    rewrite !Forall_app. split_and!.
    + apply if_nil_Forall. unfold known_item. cbn. set_solver.
    + apply if_nil_Forall. unfold known_item. cbn. set_solver.
    + apply Forall_map, list.Forall_forall. intros [[call signature] camel] _. unfold known_item. cbn. set_solver.
  - apply (Forall_flat_map_2 _ _ _ _ _ HR). intros m choice _ _. unfold chatOutput.
    rewrite !Forall_app. split_and!.
    + apply if_nil_Forall, reasoningItem_ok, chat_thinking_ok.
    + apply if_nil_Forall, textItem_ok. set_solver.
    + apply Forall_map, list.Forall_forall. intros [[call signature] camel] _. apply functionCallItem_ok.
Qed.

(** **** From the Responses API *)

(** A message of the assistant; a part of white space only is empty. *)
Definition plain_item (item : list (string * any)) : Prop :=
  str item "type" = "message" →
  str item "role" ∈ [""; "assistant"]
  ∧ Forall (λ part, str part "text" = "" ∨ TrimSpace (str part "text") ≠ "") (items_of item "content").

(** A decoded item and the object it was decoded from. *)
Lemma output_item_read m item :
  read_outputItem m = Some item →
  oi_Type item = str m "type" ∧ oi_Role item = str m "role" ∧ oi_CallID item = str m "call_id"
  ∧ oi_Name item = str m "name" ∧ oi_Arguments item = str m "arguments"
  ∧ oi_Content item = map contentPart (items_of m "content")
  ∧ oi_Text item = String.concat "" (map (λ part, nonBlank (str part "text")) (items_of m "content"))
  ∧ Forall thinking_ok (oi_Thinking item).
Proof.
  unfold read_outputItem. intros Hr.
  apply bind_Some in Hr as (fields & Hfields & Hr). apply bind_Some in Hr as (items & Hitems & Hr).
  apply bind_Some in Hr as (contents & Hcontents & [= <-]). cbn [oi_Type oi_Role oi_CallID oi_Name oi_Arguments oi_Content oi_Text oi_Thinking].
  assert (contents = map contentPart (items_of m "content")) as ->.
  { pose proof (items_read _ _ _ _ _ Hitems Hcontents) as HR. clear Hitems Hcontents.
    induction HR as [|part a ms l Hp HR IH]; [done|]. cbn. injection Hp as <-. by f_equal. }
  unfold read_responsesOutputItem in Hfields. simplify_option_eq.
  repeat match goal with H : read_string (field m _) = Some _ |- _ => apply str_read in H end.
  split_and!; try done; [by rewrite map_map|apply responses_thinking_ok].
Qed.

Lemma first_text parts text :
  text ≠ "" → fold_left (λ text part, if bool_decide (text = "") then cp_Text part else text) parts text = text.
Proof.
  intros Ht. induction parts as [|part parts IH]; [done|]. cbn. by rewrite bool_decide_eq_false_2.
Qed.

Lemma no_text parts :
  String.concat "" (map cp_Text parts) = "" →
  fold_left (λ text part, if bool_decide (text = "") then cp_Text part else text) parts "" = "".
Proof.
  induction parts as [|part parts IH]; [done|]. cbn [map]. rewrite concat_strings_cons.
  intros [Hp Hr]%append_eq_nil. cbn. rewrite Hp. by apply IH.
Qed.

Lemma nonBlank_texts parts :
  Forall (λ part, str part "text" = "" ∨ TrimSpace (str part "text") ≠ "") parts →
  map (λ part, nonBlank (str part "text")) parts = map (λ part, str part "text") parts.
Proof.
  intros Hp. induction Hp as [|part parts Hb Hp IH]; [done|]. cbn [map]. rewrite IH. f_equal.
  unfold nonBlank. case_bool_decide; [|done]. by destruct Hb as [->|].
Qed.

Lemma output_item_says m item :
  read_outputItem m = Some item → plain_item m →
  messages_ok item
  ∧ response_says [item]
    = mkAnswer
        (if bool_decide (str m "type" = "message")
         then String.concat "" (map (λ part, str part "text") (items_of m "content")) else "")
        (if bool_decide (str m "type" = "function_call")
         then [mkAnswerCall (str m "call_id") (str m "name") (argumentsOf parse (str m "arguments"))] else []).
Proof.
  intros (Ht & Hrole & Hid & Hn & Ha & Hc & Htext & Hthinking)%output_item_read Hplain.
  set (text := String.concat "" (map (λ part, str part "text") (items_of m "content"))).
  assert (String.concat "" (map cp_Text (oi_Content item)) = text) as Htexts by by rewrite Hc, map_map.
  assert (str m "type" = "message" → String.concat "" (map (λ part, nonBlank (str part "text")) (items_of m "content")) = text)
    as Hblank.
  { intros [_ Hp]%Hplain. unfold text. by rewrite (nonBlank_texts _ Hp). }
  assert (str m "type" = "message" → itemText item = text) as Hitem.
  { intros Hm. unfold itemText. rewrite Htexts, Htext, (Hblank Hm). by case_bool_decide. }
  split; [split; [|done]|].
  - intros Hm. rewrite Ht in Hm. rewrite (Hitem Hm). destruct (Hplain Hm) as [Hroles _]. split.
    + unfold chatText. rewrite Ht, Hm, Hrole, Htext, (Hblank Hm), Hc, map_map. cbn [negb bool_decide].
      assert (negb (bool_decide (str m "role" = "")) && negb (bool_decide (str m "role" = "assistant")) = false) as ->
        by (set_unfold in Hroles; destruct Hroles as [->|[->|[]]]; done).
      change (bool_decide ("message" = "message")) with true. cbn [negb].
      case_bool_decide; cbn [negb]; [|done]. exact (Hblank Hm).
    + unfold anthropicText. rewrite Htext, (Hblank Hm). destruct (decide (text = "")) as [He|He]; [|by apply first_text].
      rewrite He. apply no_text. by rewrite Htexts.
  - unfold response_says, item_text, item_calls. cbn [map flat_map]. rewrite Ht, Hid, Hn, Ha, app_nil_r. f_equal.
    cbn [String.concat]. case_bool_decide as Hm; [by apply Hitem|done].
Qed.

Lemma flat_map_single {A} (l : list A) : flat_map (λ x, [x]) l = l.
Proof. induction l as [|x l IH]; [done|]. cbn. by rewrite IH. Qed.

Lemma decode_responses root c :
  decodeCanonicalResponseFromResponsesBody root = Some c → Forall plain_item (items_of root "output") →
  response_says (cr_Output c) = client parse ResponsesAPI root ∧ Forall messages_ok (cr_Output c).
Proof.
  unfold decodeCanonicalResponseFromResponsesBody. intros Hd Hplain. rewrite list.Forall_forall in Hplain.
  apply bind_Some in Hd as (response & _ & Hd). apply bind_Some in Hd as (items & Hi & Hd).
  apply bind_Some in Hd as (output & Ho & [= <-]). cbn [cr_Output].
  pose proof (items_read _ _ _ _ _ Hi Ho) as HR. rewrite <- (flat_map_single output). split.
  - unfold client, responsesClient. rewrite texts_by_item, calls_by_item.
    apply (says_flat_map _ _ _ _ _ _ HR). intros m item Hr Hin. by apply (output_item_says _ _ Hr), Hplain.
  - apply (Forall_flat_map_2 _ _ _ _ _ HR). intros m item Hr Hin. constructor; [|constructor].
    by apply (output_item_says _ _ Hr), Hplain.
Qed.

(** **** From the Messages API *)

(** The input of a call is the value of the text it was written as. *)
Definition plain_block (rawText : any → string) (block : list (string * any)) : Prop :=
  str block "type" = "tool_use" →
  parse (TrimSpace (default "{}" (rawText <$> raw_field block "input"))) = Some (blockInput block).

Lemma block_read rawText m block :
  read_contentBlock rawText m = Some block →
  ab_Type block = str m "type" ∧ ab_Text block = str m "text" ∧ ab_ID block = str m "id"
  ∧ ab_Name block = str m "name" ∧ ab_Input block = default "{}" (rawText <$> raw_field m "input").
Proof.
  unfold read_contentBlock. intros Hr. simplify_option_eq.
  repeat match goal with H : read_string (field m _) = Some _ |- _ => apply str_read in H end. by subst.
Qed.

Lemma anthropic_thinking_ok thinking signature block :
  canonicalThinkingFromAnthropicBlock
    [("type", AString "thinking"); ("thinking", AString thinking); ("signature", AString signature)] = Some block →
  thinking_ok block.
Proof.
  unfold canonicalThinkingFromAnthropicBlock. cbv zeta.
  change (map_index _ "thinking") with (AString thinking). change (map_index _ "signature") with (AString signature).
  change (negb _) with false. cbv iota. cbn [rawStringFromAny]. case_bool_decide; [done|]. intros [= <-].
  split; [done|right; by exists thinking, signature].
Qed.

Lemma nonEmpty_role role : role ∈ [""; "assistant"] → nonEmptyString [role; "assistant"] = "assistant".
Proof. intros Hr. set_unfold in Hr. by destruct Hr as [->|[->|[]]]. Qed.

Lemma message_block_says rawText id role m block :
  read_contentBlock rawText m = Some block → plain_block rawText m → role ∈ [""; "assistant"] →
  Forall known_item (messageOutput id role block) ∧ Forall messages_ok (messageOutput id role block)
  ∧ response_says (messageOutput id role block)
    = mkAnswer (if bool_decide (str m "type" = "text") then str m "text" else "")
        (if bool_decide (str m "type" = "tool_use")
         then [mkAnswerCall (str m "id") (str m "name") (Some (blockInput m))] else []).
Proof.
  intros (Ht & Htext & Hid & Hn & Hi)%block_read Hplain Hrole. unfold messageOutput. rewrite Ht, (nonEmpty_role _ Hrole).
  destruct (bool_decide_reflect (str m "type" = "thinking")) as [Hty|_].
  { rewrite Hty. destruct (canonicalThinkingFromAnthropicBlock _) as [thinking|] eqn:Hb; [|done].
    apply anthropic_thinking_ok in Hb. split_and!; [| |done]; (constructor; [|constructor]).
    - unfold known_item. cbn. set_solver.
    - by apply reasoningItem_ok, Forall_singleton. }
  destruct (bool_decide_reflect (str m "type" = "text")) as [Hty|_].
  { rewrite Hty. split_and!; [| |unfold response_says; cbn [map flat_map]; rewrite textItem_text, Htext; done];
      (constructor; [|constructor]).
    - unfold known_item. cbn. set_solver.
    - apply textItem_ok. set_solver. }
  destruct (bool_decide_reflect (str m "type" = "tool_use")) as [Hty|_]; [|done].
  split_and!; [| |unfold response_says, item_calls, argumentsOf; cbn; by rewrite Hid, Hn, Hi, (Hplain Hty)];
    (constructor; [|constructor]).
  - unfold known_item. cbn. set_solver.
  - apply functionCallItem_ok.
Qed.

Lemma decode_messages synthesizedID now rawText root c :
  canonicalResponseFromAnthropicMessagesBody synthesizedID now rawText root = Some c →
  str root "role" ∈ [""; "assistant"] → Forall (plain_block rawText) (items_of root "content") →
  response_says (cr_Output c) = client parse MessagesAPI root
  ∧ Forall known_item (cr_Output c) ∧ Forall messages_ok (cr_Output c).
Proof.
  unfold canonicalResponseFromAnthropicMessagesBody. intros Hd Hrole Hplain. rewrite list.Forall_forall in Hplain.
  apply bind_Some in Hd as (id & _ & Hd). apply bind_Some in Hd as (model & _ & Hd).
  apply bind_Some in Hd as (role & <-%str_read & Hd). apply bind_Some in Hd as (items & Hi & Hd).
  apply bind_Some in Hd as (blocks & Hb & Hd). apply bind_Some in Hd as (reason & _ & Hd).
  apply bind_Some in Hd as (usage & _ & Hd). apply bind_Some in Hd as (u & _ & [= <-]). cbn [cr_Output].
  pose proof (items_read _ _ _ _ _ Hi Hb) as HR. set (id' := if bool_decide (id = "") then _ else _).
  assert (Hsay := λ m block Hr Hin, message_block_says rawText id' (str root "role") m block Hr (Hplain m Hin) Hrole).
  split_and!.
  - unfold client, messagesClient. rewrite texts_by_item, calls_by_item.
    apply (says_flat_map _ _ _ _ _ _ HR). intros m block Hr Hin. by apply Hsay.
  - apply (Forall_flat_map_2 _ _ _ _ _ HR). intros m block Hr Hin. by apply (Hsay m).
  - apply (Forall_flat_map_2 _ _ _ _ _ HR). intros m block Hr Hin. by apply (Hsay m).
Qed.
End says.

(** ** The conversion *)

(** An answer as the conversions expect it. *)
Definition plain (parse : string → option any) (rawText : any → string) (from : api) (root : list (string * any)) : Prop :=
  match from with
  | ChatAPI => True
  | ResponsesAPI => Forall plain_item (items_of root "output")
  | MessagesAPI =>
      str root "role" ∈ [""; "assistant"] ∧ Forall (plain_block parse rawText) (items_of root "content")
  end.

Lemma decode_says parse synthesizedID now rawText from root c :
  decodeResponse synthesizedID now rawText from root = Some c → plain parse rawText from root →
  response_says parse (cr_Output c) = heard parse from root
  ∧ (from ≠ ResponsesAPI → Forall known_item (cr_Output c)) ∧ Forall messages_ok (cr_Output c).
Proof.
  destruct from; cbn [decodeResponse plain]; intros Hd Hp.
  - destruct (decode_chat parse _ _ _ _ Hd) as (? & ? & ?). done.
  - destruct (decode_responses parse _ _ Hd Hp) as (? & ?). done.
  - destruct Hp as [Hr Hp]. destruct (decode_messages parse _ _ _ _ _ Hd Hr Hp) as (? & ? & ?). done.
Qed.

Lemma encode_says parse marshal newUUID to response options :
  parse "" = None →
  (to = ResponsesAPI → Forall known_item (cr_Output response)
     ∧ Forall (plain_tool options) (an_calls (response_says parse (cr_Output response)))) →
  Forall messages_ok (cr_Output response) →
  Forall (λ call, proper_call call = true) (an_calls (response_says parse (cr_Output response))) →
  client parse to (as_map (encodeResponse parse marshal newUUID to response options))
  = told to (response_says parse (cr_Output response)).
Proof.
  intros Hempty Hresponses Hok Hp. destruct to; cbn [encodeResponse].
  - apply encode_chat; [|done]. eapply Forall_impl; [|exact Hok]. by intros item [? _].
  - destruct Hresponses; [done|]. by apply encode_responses.
  - by apply encode_messages.
Qed.

(** C20: A whole answer, converted from one of the three APIs to another, tells the client
    the text and the calls that were taken from it, with their identifiers, names and
    arguments, as readers of the two APIs find them.  Taken is what the upstream said, but for
    the white space around the text of a chat message and for a chat content that is not a
    text ([heard]); told is all of it, but for the calls of an answer with text, which a chat
    client does not get ([told]).

    It holds of answers whose calls have identifiers and names without white space around them
    and arguments that are JSON ([proper_call]); where the upstream speaks the Responses API,
    whose messages are the assistant's with no part of white space only; where it speaks the
    Messages API, in the assistant's role and with inputs that are the values of their texts
    ([plain]); and, for a client of the Responses API, of tools that have no other name there
    ([plain_tool]).  Of JSON it is assumed that nothing is not a value.  The conversion fails
    only on a body that cannot be read, or when usage is required and missing; the usage it
    reports is that of the answer. *)
Theorem converted_answer_says_the_same parse synthesizedID now rawText marshal newUUID from to body options root
    (Hne : from ≠ to) (Hempty : parse "" = None)
    (Hbody : parse body = Some (AObject root)) (Hplain : plain parse rawText from root)
    (Hcalls : Forall (λ call, proper_call call = true) (an_calls (heard parse from root)))
    (Htools : to = ResponsesAPI → Forall (plain_tool options) (an_calls (heard parse from root))) :
  match convertResponseBetweenProtocols synthesizedID now rawText parse marshal newUUID from to body options with
  | Ok (converted, usage) =>
      client parse to (as_map converted) = told to (heard parse from root)
      ∧ (rc_RequireUsage options = true → gatewayUsageAvailable usage = true)
      ∧ cr_Usage <$> decodeResponse synthesizedID now rawText from root = Some usage
  | Err _ =>
      match decodeResponse synthesizedID now rawText from root with
      | None => True
      | Some canonical => rc_RequireUsage options = true ∧ gatewayUsageAvailable (cr_Usage canonical) = false
      end
  end.
Proof.
  unfold convertResponseBetweenProtocols. rewrite Hbody. cbn [mbind option_bind read_map].
  destruct (decodeResponse _ _ _ from root) as [c|] eqn:Hd; [|done].
  destruct (decode_says _ _ _ _ _ _ _ Hd Hplain) as (Hsays & Hknown & Hok).
  destruct (rc_RequireUsage options && negb (gatewayUsageAvailable (cr_Usage c))) eqn:Hu; bool_to_prop; [done|].
  split_and!.
  - rewrite <- Hsays in *. apply encode_says; [done| |done|done]. intros Hto. split; [|by apply Htools].
    apply Hknown. by rewrite <- Hto.
  - intros Hr. by rewrite Hr in Hu; apply negb_false_iff in Hu.
  - done.
Qed.

Definition sample_root : list (string * any) :=
  [("id", AString "msg_1"); ("role", AString "assistant"); ("model", AString "m"); ("stop_reason", AString "tool_use");
   ("content", AArray
     [AObject [("type", AString "thinking"); ("thinking", AString "look it up"); ("signature", AString "s")];
      AObject [("type", AString "text"); ("text", AString "one moment")];
      AObject [("type", AString "tool_use"); ("id", AString "call_1"); ("name", AString "lookup");
               ("input", AObject [("q", AString "x")])]]);
   ("usage", AObject [("input_tokens", AInt 3); ("output_tokens", AInt 5)])].
Definition sample_parse (text : string) : option any :=
  if bool_decide (text = "body") then Some (AObject sample_root)
  else if bool_decide (text = "{q:x}") then Some (AObject [("q", AString "x")]) else None.
Definition sample_conversion (to : api) : result (any * gatewayUsage) string :=
  convertResponseBetweenProtocols "resp_1" 0 (λ _, "{q:x}") sample_parse (λ _, "") "u" MessagesAPI to "body"
    (mkConversion "" ∅ ∅ true).

Lemma converted_answer_says_the_same_witness :
  ∃ converted usage, sample_conversion ResponsesAPI = Ok (converted, usage)
  ∧ client sample_parse ResponsesAPI (as_map converted)
    = mkAnswer "one moment" [mkAnswerCall "call_1" "lookup" (Some (AObject [("q", AString "x")]))].
Proof.
  eexists _, _. split; [vm_compute; reflexivity|].
  refine (proj1 (converted_answer_says_the_same sample_parse "resp_1" 0 (λ _, "{q:x}") (λ _, "") "u"
    MessagesAPI ResponsesAPI "body" (mkConversion "" ∅ ∅ true) sample_root _ _ _ _ _ _)).
  - done.
  - done.
  - done.
  - split; [set_solver|]. repeat constructor; intros H; vm_compute in H |- *; congruence.
  - repeat constructor.
  - intros _. repeat constructor. vm_compute. congruence.
Defined.

(** ** What the conversions lose *)

(** A chat client is told nothing of the calls of an answer that has text, though it may be
    told that the answer ended in calls. *)
Theorem calls_beside_text_are_dropped parse response :
  String.concat "" (map chatText (cr_Output response)) ≠ "" →
  an_calls (client parse ChatAPI (as_map (encodeCanonicalResponseAsChatCompletion response))) = [].
Proof.
  intros Ht. unfold encodeCanonicalResponseAsChatCompletion. rewrite (bool_decide_eq_false_2 _ Ht), andb_false_r.
  by destruct (bool_decide (chatReasoningContent _ = "")).
Qed.

Example finish_without_calls :
  match sample_conversion ChatAPI with
  | Ok (converted, _) =>
      map (λ choice, (str choice "finish_reason", items_of (as_map (field choice "message")) "tool_calls"))
        (items_of (as_map converted) "choices") = [("tool_calls", [])]
  | Err _ => False
  end.
Proof. vm_compute. reflexivity. Qed.

(** An answer of the chat API that was cut short, by its length or a filter, is a complete
    answer to a client of another API. *)
Theorem cut_answers_look_complete synthesizedID now parse marshal newUUID options root c :
  canonicalResponseFromOpenAIChatBody synthesizedID now root = Some c →
  field (as_map (encodeCanonicalResponseAsAnthropicMessage parse c)) "stop_reason"
    ∈ [AString "end_turn"; AString "tool_use"]
  ∧ field (as_map (encodeCanonicalResponseAsResponses parse marshal newUUID c options)) "status" = AString "completed".
Proof.
  unfold canonicalResponseFromOpenAIChatBody. intros Hd.
  apply bind_Some in Hd as (id & _ & Hd). apply bind_Some in Hd as (created & _ & Hd).
  apply bind_Some in Hd as (model & _ & Hd). apply bind_Some in Hd as (items & Hi & Hd).
  apply bind_Some in Hd as (choices & Hc & Hd). apply bind_Some in Hd as (usage & _ & Hd).
  apply bind_Some in Hd as (u & _ & [= <-]). split; [|done].
  unfold encodeCanonicalResponseAsAnthropicMessage. cbn [as_map cr_FinishReason cr_Output].
  destruct (existsb _ _); cbn; set_solver.
Qed.
