(* ===== verification/RateLimit.v ===== *)
(** * Rate limiting of gateway requests

    [internal/ratelimit/service.go]: per-scope windows that count the requests in
    flight (the RPM limit) and the tokens of the current minute (the TPM limit),
    the configuration cache, admission ([acquire]) and settlement ([Settle]).
    Every function whose name ends in [Locked] is one critical section of the
    service mutex; [exec] below interleaves those sections. *)

From S2P Require Import Prelude GoFloat.

(** ** Constants and data *)

Definition defaultReserveOutputTokens : Z := 4096.
Definition configCacheTTL : Z := 30 * Second.
Definition windowSweepInterval : Z := Minute.
Definition windowExpiry : Z := 2 * Minute.
Definition rpmRetryAfterSeconds : Z := 5.
Definition queueMaxWait : Z := 60 * Second.
Definition queueMaxDepth : nat := 100.

(** A decoded JSON value, the [any] of the payload map. *)
Inductive any :=
| AnyNil
| AnyBool (b : bool)
| AnyInt (z : Z)
| AnyInt64 (z : Z)
| AnyInt32 (z : Z)
| AnyFloat64 (f : float64)
| AnyFloat32 (f : float64)
| AnyNumber (s : string)
| AnyString (s : string)
| AnyArray (l : list any)
| AnyObject (l : list (string * any)).

(** What the model takes from the platform: the length of the encoding
    [json.Marshal] gives to a map, or its error, and the [int64] an out-of-range
    [float64] converts to. *)
Class GoRuntime := {
  marshal_len : gmap string any → option Z;
  float_out_of_range : float64 → Z
}.

(** [store.GatewayRateLimit], the columns the service reads *)
Record GatewayRateLimit := mkRow {
  row_Scope : string;
  row_Status : string;
  row_RPMLimit : option Z;
  row_TPMLimit : option Z
}.

Record ConfigInput := mkConfigInput {
  in_Status : string;
  in_RPMLimit : option Z;
  in_TPMLimit : option Z
}.

Record Config := mkConfig {
  conf_Status : string;
  conf_RPMLimit : option Z;
  conf_TPMLimit : option Z
}.

(** The repository over the database: [Ok None] is gorm.ErrRecordNotFound. *)
Record RateLimitRepository := mkRepo {
  repo_GetGlobal : result (option GatewayRateLimit) string;
  repo_GetByAPIKey : uuid → result (option GatewayRateLimit) string;
  repo_Upsert : string → option uuid → ConfigInput → result GatewayRateLimit string
}.

Record AcquireInput := mkInput {
  req_APIKeyID : uuid;
  req_Endpoint : string;
  req_Payload : option (gmap string any);
  req_EstimateTPM : bool;
  req_RequestedAt : Z
}.

Record activeConfig := mkActive {
  cfg_Scope : string;
  cfg_ScopeKey : string;
  cfg_RPMLimit : option Z;
  cfg_TPMLimit : option Z
}.

Record ReservationScope := mkResScope {
  rs_Scope : string;
  rs_ScopeKey : string;
  rs_RPMLimit : option Z;
  rs_TPMLimit : option Z;
  rs_RPMUsed : Z;
  rs_TPMReserved : Z;
  rs_TPMActual : Z;
  rs_ReservedTokens : Z;
  rs_RPMHeld : bool
}.

Record Reservation := mkReservation {
  res_WindowStart : Z;
  res_EstimatedTokens : Z;
  res_ReservedTokens : Z;
  res_Scopes : list ReservationScope
}.

Record LimitError := mkLimitError {
  le_Scope : string;
  le_ScopeKey : string;
  le_LimitType : string;
  le_Limit : Z;
  le_RetryAfterSeconds : Z
}.

(** What [acquire] can fail with: a limit, or an error of the repository. *)
Inductive acquireError :=
| ErrLimit (e : LimitError)
| ErrStore (e : string).

(** Channels and waiters are shared by reference, so they live in heaps of the
    service and are named by pointers. *)
Definition ptr : Type := nat.

Record scopeWindow := mkWindow {
  w_windowStart : Z;
  w_inflight : Z;
  w_tpmReserved : Z;
  w_tpmActual : Z;
  w_release : option ptr
}.

Record cachedScopeConfig := mkCached {
  cc_config : option activeConfig;
  cc_fetchedAt : Z
}.

Record queueWaiter := mkWaiter {
  wt_ready : bool;      (* the ready channel is closed *)
  wt_abandoned : bool
}.

Record Service := mkService {
  windows : gmap string scopeWindow;
  configs : gmap string cachedScopeConfig;
  queues : gmap string (list ptr);
  lastSweep : Z;
  waiters : gmap ptr queueWaiter;   (* heap of waiters *)
  chans : gmap ptr bool;            (* heap of release channels: token present *)
  nextPtr : ptr
}.

Definition NewService : Service := mkService ∅ ∅ ∅ 0 ∅ ∅ 0%nat.

Definition set_windows (ws : gmap string scopeWindow) (s : Service) : Service :=
  mkService ws (configs s) (queues s) (lastSweep s) (waiters s) (chans s) (nextPtr s).
Definition set_configs (cs : gmap string cachedScopeConfig) (s : Service) : Service :=
  mkService (windows s) cs (queues s) (lastSweep s) (waiters s) (chans s) (nextPtr s).
Definition set_queues (qs : gmap string (list ptr)) (s : Service) : Service :=
  mkService (windows s) (configs s) qs (lastSweep s) (waiters s) (chans s) (nextPtr s).
Definition set_waiters (hs : gmap ptr queueWaiter) (s : Service) : Service :=
  mkService (windows s) (configs s) (queues s) (lastSweep s) hs (chans s) (nextPtr s).
Definition set_chans (hs : gmap ptr bool) (s : Service) : Service :=
  mkService (windows s) (configs s) (queues s) (lastSweep s) (waiters s) hs (nextPtr s).

(** ** Token estimates *)

Section Tokens.
Context `{GoRuntime}.

Definition int64FromAny (value : any) : option Z :=
  match value with
  | AnyInt v | AnyInt64 v | AnyInt32 v => Some v
  | AnyFloat64 f | AnyFloat32 f =>
      Some (match trunc_int64 f with Some z => z | None => float_out_of_range f end)
  | AnyNumber s => ParseInt64 s
  | _ => None
  end.

(** The first positive value among the three fields. *)
Definition outputTokenReservation (payload : gmap string any) : Z :=
  let fix go (keys : list string) :=
    match keys with
    | [] => defaultReserveOutputTokens
    | key :: rest =>
        match payload !! key ≫= int64FromAny with
        | Some value => if 0 <? value then value else go rest
        | None => go rest
        end
    end in
  go ["max_tokens"; "max_completion_tokens"; "max_output_tokens"].

Definition notPromptKeys : list string :=
  ["max_tokens"; "max_completion_tokens"; "max_output_tokens"; "stream"].

Definition estimatePromptTokens (payload : gmap string any) : Z :=
  let cloned := filter (λ kv, kv.1 ∉ notPromptKeys) payload in
  match marshal_len cloned with
  | None => 1
  | Some n => let tokens := n `quot` 4 in if tokens <? 1 then 1 else tokens
  end.

Definition EstimateTokens (payload : option (gmap string any)) : Z :=
  match payload with
  | None => defaultReserveOutputTokens
  | Some p => add64 (estimatePromptTokens p) (outputTokenReservation p)
  end.
End Tokens.

(** ** Windows *)

(** The window of a scope, created on first use, and emptied of its tokens when
    the minute changed; the requests in flight are kept. *)
Definition windowLocked (scopeKey : string) (windowStart : Z)
    (ws : gmap string scopeWindow) : scopeWindow * gmap string scopeWindow :=
  match ws !! scopeKey with
  | None =>
      let w := mkWindow windowStart 0 0 0 None in (w, <[scopeKey := w]> ws)
  | Some w =>
      if w_windowStart w =? windowStart then (w, ws)
      else let w' := mkWindow windowStart (w_inflight w) 0 0 (w_release w) in
           (w', <[scopeKey := w']> ws)
  end.

Definition queueLen (s : Service) (key : string) : nat :=
  length (default [] (queues s !! key)).

Definition sweepLocked (now : Z) (s : Service) : Service :=
  if time_sub now (lastSweep s) <? windowSweepInterval then s
  else
    let windowCutoff := now - windowExpiry in
    let keepWindow (kv : string * scopeWindow) : Prop :=
      ¬ (w_inflight kv.2 = 0 ∧ queueLen s kv.1 = 0%nat ∧ w_windowStart kv.2 < windowCutoff) in
    let configCutoff := now - configCacheTTL in
    let keepConfig (kv : string * cachedScopeConfig) : Prop :=
      ¬ (cc_fetchedAt kv.2 < configCutoff) in
    mkService (filter keepWindow (windows s)) (filter keepConfig (configs s))
              (queues s) now (waiters s) (chans s) (nextPtr s).

(** ** Admission *)

Record pendingScope := mkPending {
  pd_config : activeConfig;
  pd_holdSlot : bool;
  pd_tpmDelta : Z
}.

(** The first loop of [acquire]: every scope must admit the request; the windows
    it looks at are created or rolled on the way. *)
Fixpoint checkScopes (queueLenOf : string → nat) (queueHeadScope : string)
    (windowStart estimatedTokens tpmRetryAfter : Z)
    (cfgs : list activeConfig) (ws : gmap string scopeWindow)
    : gmap string scopeWindow * result (list pendingScope) LimitError :=
  match cfgs with
  | [] => (ws, Ok [])
  | cfg :: rest =>
      let continue ws' pending1 :=
        match checkScopes queueLenOf queueHeadScope windowStart estimatedTokens
                tpmRetryAfter rest ws' with
        | (ws'', Ok pending) => (ws'', Ok (pending1 ++ pending))
        | (ws'', Err e) => (ws'', Err e)
        end in
      let holdSlot := bool_decide (cfg_RPMLimit cfg ≠ None) in
      let tpmDelta := match cfg_TPMLimit cfg with Some _ => estimatedTokens | None => 0 end in
      if negb holdSlot && (tpmDelta =? 0) then continue ws []
      else
        let '(window, ws1) := windowLocked (cfg_ScopeKey cfg) windowStart ws in
        let queuedAhead := (0 <? queueLenOf (cfg_ScopeKey cfg))%nat
                           && negb (bool_decide (cfg_ScopeKey cfg = queueHeadScope)) in
        let rpmLimited := match cfg_RPMLimit cfg with
                          | Some limit => queuedAhead || (limit <? add64 (w_inflight window) 1)
                          | None => false
                          end in
        let tpmLimited := match cfg_TPMLimit cfg with
                          | Some limit =>
                              (0 <? estimatedTokens)
                              && (limit <? add64 (add64 (w_tpmActual window) (w_tpmReserved window))
                                             estimatedTokens)
                          | None => false
                          end in
        if rpmLimited then
          (ws1, Err (mkLimitError (cfg_Scope cfg) (cfg_ScopeKey cfg) "rpm"
                       (default 0 (cfg_RPMLimit cfg)) rpmRetryAfterSeconds))
        else if tpmLimited then
          (ws1, Err (mkLimitError (cfg_Scope cfg) (cfg_ScopeKey cfg) "tpm"
                       (default 0 (cfg_TPMLimit cfg)) tpmRetryAfter))
        else continue ws1 [mkPending cfg holdSlot tpmDelta]
  end.

(** The second loop: take the slot and the tokens of one scope. *)
Definition commitScope (windowStart : Z) (item : pendingScope)
    (ws : gmap string scopeWindow) : ReservationScope * gmap string scopeWindow :=
  let cfg := pd_config item in
  let '(window, ws1) := windowLocked (cfg_ScopeKey cfg) windowStart ws in
  let inflight := if pd_holdSlot item then add64 (w_inflight window) 1 else w_inflight window in
  let reserved := add64 (w_tpmReserved window) (pd_tpmDelta item) in
  let window' := mkWindow (w_windowStart window) inflight reserved (w_tpmActual window)
                   (w_release window) in
  (mkResScope (cfg_Scope cfg) (cfg_ScopeKey cfg) (cfg_RPMLimit cfg) (cfg_TPMLimit cfg)
     inflight reserved (w_tpmActual window) (pd_tpmDelta item) (pd_holdSlot item),
   <[cfg_ScopeKey cfg := window']> ws1).

Fixpoint commitScopes (windowStart : Z) (pending : list pendingScope)
    (ws : gmap string scopeWindow) : list ReservationScope * gmap string scopeWindow :=
  match pending with
  | [] => ([], ws)
  | item :: rest =>
      let '(sc, ws1) := commitScope windowStart item ws in
      let '(scs, ws2) := commitScopes windowStart rest ws1 in
      (sc :: scs, ws2)
  end.

(** [acquire] from [s.mu.Lock()] on. [Ok None] is the nil reservation: no limit
    applies. *)
Definition acquireLocked (now estimatedTokens : Z) (cfgs : list activeConfig)
    (queueHeadScope : string) (s : Service)
    : Service * result (option Reservation) LimitError :=
  let windowStart := time_truncate now Minute in
  let s1 := sweepLocked now s in
  let tpmRetryAfter := Z.max 1 (ceil_seconds (time_sub (windowStart + Minute) now)) in
  match checkScopes (queueLen s1) queueHeadScope windowStart estimatedTokens tpmRetryAfter
          cfgs (windows s1) with
  | (ws1, Err e) => (set_windows ws1 s1, Err e)
  | (ws1, Ok []) => (set_windows ws1 s1, Ok None)
  | (ws1, Ok pending) =>
      let '(scopes, ws2) := commitScopes windowStart pending ws1 in
      (set_windows ws2 s1,
       Ok (Some (mkReservation windowStart estimatedTokens estimatedTokens scopes)))
  end.

(** ** The configuration cache *)

Section Configs.
Context `{UuidString}.

Definition scopeKeysOf (apiKeyID : uuid) : list string :=
  ["global"; ("api_key:" +:+ uuid_String apiKeyID)%string].

Definition activeConfigFromStore (item : GatewayRateLimit) (scopeKey : string)
    : option activeConfig :=
  if negb (bool_decide (row_Status item = "enabled")) then None
  else match row_RPMLimit item, row_TPMLimit item with
       | None, None => None
       | rpm, tpm => Some (mkActive (row_Scope item) scopeKey rpm tpm)
       end.

(** The first critical section of [activeConfigsCached]: the fresh entries that
    are active, and the keys to fetch. *)
Fixpoint cachedConfigs (now : Z) (keys : list string) (s : Service)
    : list activeConfig * list string :=
  match keys with
  | [] => ([], [])
  | key :: rest =>
      let '(result, missing) := cachedConfigs now rest s in
      match configs s !! key with
      | Some cached =>
          if configCacheTTL <? time_sub now (cc_fetchedAt cached) then (result, key :: missing)
          else match cc_config cached with
               | Some cfg => (cfg :: result, missing)
               | None => (result, missing)
               end
      | None => (result, key :: missing)
      end
  end.

(** The queries of the missing scopes; the record of a missing row is the zero
    value, which is not enabled. *)
Definition fetchConfig (repo : RateLimitRepository) (apiKeyID : uuid) (key : string)
    : result (option activeConfig) string :=
  match (if bool_decide (key = "global") then repo_GetGlobal repo
         else repo_GetByAPIKey repo apiKeyID) with
  | Err e => Err e
  | Ok item => Ok (item ≫= λ row, activeConfigFromStore row key)
  end.

Fixpoint fetchConfigs (repo : RateLimitRepository) (apiKeyID : uuid) (keys : list string)
    : result (list (string * option activeConfig)) string :=
  match keys with
  | [] => Ok []
  | key :: rest =>
      match fetchConfig repo apiKeyID key with
      | Err e => Err e
      | Ok cfg => match fetchConfigs repo apiKeyID rest with
                  | Err e => Err e
                  | Ok l => Ok ((key, cfg) :: l)
                  end
      end
  end.

(** The second critical section: cache what was fetched. *)
Definition storeConfigs (now : Z) (fetched : list (string * option activeConfig))
    (s : Service) : Service :=
  set_configs (foldr (λ kc cs, <[kc.1 := mkCached kc.2 now]> cs) (configs s) fetched) s.

Definition activeConfigsCached (repo : RateLimitRepository) (apiKeyID : uuid) (now : Z)
    (s : Service) : Service * result (list activeConfig) string :=
  let '(result, missing) := cachedConfigs now (scopeKeysOf apiKeyID) s in
  match missing with
  | [] => (s, Ok result)
  | _ => match fetchConfigs repo apiKeyID missing with
         | Err e => (s, Err e)
         | Ok fetched =>
             (storeConfigs now fetched s, Ok (result ++ omap snd fetched))
         end
  end.

Definition invalidateConfig (scope : string) (apiKeyID : uuid) (s : Service) : Service :=
  let scopeKey := if bool_decide (scope = "api_key")
                  then ("api_key:" +:+ uuid_String apiKeyID)%string else "global" in
  set_configs (delete scopeKey (configs s)) s.

(** [acquire] run without interference between its critical sections; [db] is
    absent when the store is not initialised. *)
Definition acquire `{GoRuntime} (db : option RateLimitRepository) (timeNow : Z)
    (input : AcquireInput) (queueHeadScope : string) (s : Service)
    : Service * result (option Reservation) acquireError :=
  match db with
  | None => (s, Ok None)
  | Some repo =>
      if bool_decide (req_APIKeyID input = uuid_Nil) then (s, Ok None)
      else
        let now := if req_RequestedAt input =? 0 then timeNow else req_RequestedAt input in
        let estimatedTokens := if req_EstimateTPM input
                               then EstimateTokens (req_Payload input) else 0 in
        match activeConfigsCached repo (req_APIKeyID input) now s with
        | (s1, Err e) => (s1, Err (ErrStore e))
        | (s1, Ok cfgs) =>
            match acquireLocked now estimatedTokens cfgs queueHeadScope s1 with
            | (s2, Ok r) => (s2, Ok r)
            | (s2, Err e) => (s2, Err (ErrLimit e))
            end
        end
  end.

(** ** Administration of the limits *)

Definition normalizeStatus (value : string) : string :=
  let v := TrimSpace value in
  if bool_decide (v = "enabled") then "enabled"
  else if bool_decide (v = "disabled" ∨ v = "") then "disabled"
  else "".

Definition configFromStore (item : GatewayRateLimit) : Config :=
  let status := normalizeStatus (row_Status item) in
  mkConfig (if bool_decide (status = "") then "disabled" else status)
    (row_RPMLimit item) (row_TPMLimit item).

Definition notPositive (limit : option Z) : bool :=
  match limit with Some l => l <=? 0 | None => false end.

Definition setLimit (db : option RateLimitRepository) (scope : string) (apiKeyID : uuid)
    (input : ConfigInput) (s : Service) : Service * result Config string :=
  match db with
  | None => (s, Err "store is not initialized")
  | Some repo =>
      let status := normalizeStatus (in_Status input) in
      if bool_decide (status = "") then
        (s, Err "rate_limit.status must be enabled or disabled")
      else if notPositive (in_RPMLimit input) then
        (s, Err "rate_limit.rpm_limit must be greater than 0")
      else if notPositive (in_TPMLimit input) then
        (s, Err "rate_limit.tpm_limit must be greater than 0")
      else
        let apiKeyParam := if bool_decide (scope = "api_key") then Some apiKeyID else None in
        match repo_Upsert repo scope apiKeyParam
                (mkConfigInput status (in_RPMLimit input) (in_TPMLimit input)) with
        | Err e => (s, Err e)
        | Ok item => (invalidateConfig scope apiKeyID s, Ok (configFromStore item))
        end
  end.

Definition SetGlobal (db : option RateLimitRepository) (input : ConfigInput) (s : Service)
    : Service * result Config string :=
  setLimit db "global" uuid_Nil input s.

Definition SetAPIKey (db : option RateLimitRepository) (apiKeyID : uuid)
    (input : ConfigInput) (s : Service) : Service * result Config string :=
  if bool_decide (apiKeyID = uuid_Nil) then (s, Err "api_key_id is required")
  else setLimit db "api_key" apiKeyID input s.
End Configs.

(** ** Settlement *)

(** [window.release <- struct{}{}] with a default branch: a full buffer drops the
    signal, and so does a nil channel. *)
Definition sendRelease (release : option ptr) (s : Service) : Service :=
  match release with
  | Some c => set_chans (<[c := true]> (chans s)) s
  | None => s
  end.

Definition settleScope (windowStart actualTokens : Z) (sc : ReservationScope) (s : Service)
    : Service :=
  match windows s !! rs_ScopeKey sc with
  | None => s
  | Some w =>
      let inflight := if rs_RPMHeld sc then Z.max 0 (sub64 (w_inflight w) 1) else w_inflight w in
      let s1 := if rs_RPMHeld sc then sendRelease (w_release w) s else s in
      let here := (0 <? rs_ReservedTokens sc) && (w_windowStart w =? windowStart) in
      let reserved := if here then Z.max 0 (sub64 (w_tpmReserved w) (rs_ReservedTokens sc))
                      else w_tpmReserved w in
      let actual := if here then add64 (w_tpmActual w) actualTokens else w_tpmActual w in
      set_windows (<[rs_ScopeKey sc := mkWindow (w_windowStart w) inflight reserved actual
                                         (w_release w)]> (windows s1)) s1
  end.

Definition Settle (r : Reservation) (actualTokens : Z) (s : Service) : Service :=
  let actual := Z.max 0 actualTokens in
  fold_left (λ s sc, settleScope (res_WindowStart r) actual sc s) (res_Scopes r) s.

(** [releaseSignal]: the release channel of a scope, made on first use. *)
Definition releaseSignal (scopeKey : string) (s : Service) : ptr * Service :=
  let w := default (mkWindow 0 0 0 0 None) (windows s !! scopeKey) in
  match w_release w with
  | Some c => (c, set_windows (<[scopeKey := w]> (windows s)) s)
  | None =>
      let c := nextPtr s in
      let w' := mkWindow (w_windowStart w) (w_inflight w) (w_tpmReserved w) (w_tpmActual w)
                  (Some c) in
      (c, mkService (<[scopeKey := w']> (windows s)) (configs s) (queues s) (lastSweep s)
            (waiters s) (<[c := false]> (chans s)) (S c))
  end.

(** ** The waiting queues ([queue.go]) *)

Definition enqueueWaiter (scopeKey : string) (s : Service) : Service * option ptr :=
  let ws := default [] (queues s !! scopeKey) in
  if (queueMaxDepth <=? length ws)%nat then (s, None)
  else
    let p := nextPtr s in
    let ready := (length ws =? 0)%nat in
    (mkService (windows s) (configs s) (<[scopeKey := ws ++ [p]]> (queues s)) (lastSweep s)
       (<[p := mkWaiter ready false]> (waiters s)) (chans s) (S p), Some p).

(** Drop the abandoned waiters at the head. *)
Fixpoint dropAbandoned (hs : gmap ptr queueWaiter) (ws : list ptr) : list ptr :=
  match ws with
  | p :: rest => match hs !! p with
                 | Some w => if wt_abandoned w then dropAbandoned hs rest else ws
                 | None => ws
                 end
  | [] => []
  end.

Definition finishWaiter (scopeKey : string) (p : ptr) (s : Service) : Service :=
  let hs := alter (λ w, mkWaiter (wt_ready w) true) p (waiters s) in
  match dropAbandoned hs (default [] (queues s !! scopeKey)) with
  | [] => set_queues (delete scopeKey (queues s)) (set_waiters hs s)
  | head :: rest =>
      set_queues (<[scopeKey := head :: rest]> (queues s))
        (set_waiters (alter (λ w, mkWaiter true (wt_abandoned w)) head hs) s)
  end.
