(* ===== verification/RateLimitInv.v ===== *)
(** * Rate limiting: the accounting invariants

    The critical sections of [RateLimit] interleaved in any order by any number of
    requests, with the reservations the requests hold, and the invariants of the
    windows: slots in flight, reserved tokens, and the waiting queues. *)

From S2P Require Import Prelude GoFloat RateLimit.

(** ** The system: the service and the reservations in the hands of requests *)

Record World := mkWorld {
  svc : Service;
  live : gmap nat Reservation;   (* acquired, not yet settled *)
  nextRes : nat;
  clk : Z                        (* the latest [now] an acquisition used *)
}.

Inductive label :=
| LAcquire (now estimatedTokens : Z) (cfgs : list activeConfig) (queueHeadScope : string)
| LSettle (id : nat) (actualTokens : Z)
| LEnqueue (scopeKey : string)
| LFinish (scopeKey : string) (p : ptr)
| LReleaseSignal (scopeKey : string)
| LReceive (c : ptr)
| LConfigs (cs : gmap string cachedScopeConfig).

Definition exec (w : World) (l : label) : World :=
  match l with
  | LAcquire now est cfgs head =>
      match acquireLocked now est cfgs head (svc w) with
      | (s, Ok (Some r)) =>
          mkWorld s (<[nextRes w := r]> (live w)) (S (nextRes w)) (Z.max now (clk w))
      | (s, _) => mkWorld s (live w) (nextRes w) (Z.max now (clk w))
      end
  | LSettle id actual =>
      match live w !! id with
      | Some r => mkWorld (Settle r actual (svc w)) (delete id (live w)) (nextRes w) (clk w)
      | None => w
      end
  | LEnqueue key => mkWorld (fst (enqueueWaiter key (svc w))) (live w) (nextRes w) (clk w)
  | LFinish key p => mkWorld (finishWaiter key p (svc w)) (live w) (nextRes w) (clk w)
  | LReleaseSignal key =>
      mkWorld (snd (releaseSignal key (svc w))) (live w) (nextRes w) (clk w)
  | LReceive c =>
      mkWorld (set_chans (<[c := false]> (chans (svc w))) (svc w)) (live w) (nextRes w) (clk w)
  | LConfigs cs => mkWorld (set_configs cs (svc w)) (live w) (nextRes w) (clk w)
  end.

Definition run (w : World) (ls : list label) : World := fold_left exec ls w.

Definition initial : World := mkWorld NewService ∅ 0 Minute.

(** The worlds the labels allowed by [ok] lead to. *)
Inductive reachable (ok : World → label → Prop) : World → Prop :=
| reach_initial : reachable ok initial
| reach_exec w l : reachable ok w → ok w l → reachable ok (exec w l).

(** ** What the invariants talk about *)

(** The requests the window of a scope counts as in flight. *)
Definition inflight_of (k : string) (ws : gmap string scopeWindow) : Z :=
  match ws !! k with Some w => w_inflight w | None => 0 end.

(** The sum of [f] over the entries of scope [k] of a reservation. *)
Definition scope_sum (f : ReservationScope → Z) (k : string) (scs : list ReservationScope) : Z :=
  foldr (λ sc n, (if bool_decide (rs_ScopeKey sc = k) then f sc else 0) + n) 0 scs.

(** The slots of scope [k] a reservation holds. *)
Definition held_by (k : string) (scs : list ReservationScope) : Z :=
  scope_sum (λ sc, if rs_RPMHeld sc then 1 else 0) k scs.

Definition held (k : string) (m : gmap nat Reservation) : Z :=
  map_sum (λ r, held_by k (res_Scopes r)) m.

(** The tokens of scope [k] a reservation took in the minute [start]. *)
Definition tokens_by (k : string) (start : Z) (r : Reservation) : Z :=
  if res_WindowStart r =? start then scope_sum rs_ReservedTokens k (res_Scopes r) else 0.

Definition reserved (k : string) (start : Z) (m : gmap nat Reservation) : Z :=
  map_sum (tokens_by k start) m.

(** The window of a scope as an acquisition in the minute [start] sees it. *)
Definition view (k : string) (start : Z) (ws : gmap string scopeWindow) : scopeWindow :=
  fst (windowLocked k start ws).

(** The scopes a request takes part in: those that hold a slot or count tokens. *)
Definition pendingOf (estimatedTokens : Z) (cfgs : list activeConfig) : list pendingScope :=
  omap (λ cfg,
    let holdSlot := bool_decide (cfg_RPMLimit cfg ≠ None) in
    let tpmDelta := match cfg_TPMLimit cfg with Some _ => estimatedTokens | None => 0 end in
    if negb holdSlot && (tpmDelta =? 0) then None
    else Some (mkPending cfg holdSlot tpmDelta)) cfgs.

(** The window and the entry of a scope after the second loop. *)
Definition committed (p : pendingScope) (w : scopeWindow) : scopeWindow :=
  mkWindow (w_windowStart w)
    (if pd_holdSlot p then add64 (w_inflight w) 1 else w_inflight w)
    (add64 (w_tpmReserved w) (pd_tpmDelta p)) (w_tpmActual w) (w_release w).

Definition entryOf (p : pendingScope) (w : scopeWindow) : ReservationScope :=
  let cfg := pd_config p in
  mkResScope (cfg_Scope cfg) (cfg_ScopeKey cfg) (cfg_RPMLimit cfg) (cfg_TPMLimit cfg)
    (w_inflight w) (w_tpmReserved w) (w_tpmActual w) (pd_tpmDelta p) (pd_holdSlot p).

Definition pd_key (p : pendingScope) : string := cfg_ScopeKey (pd_config p).

(** The window of a scope after the settlement of its entry [sc]. *)
Definition settledWindow (start actual : Z) (sc : ReservationScope) (w : scopeWindow) : scopeWindow :=
  let here := (0 <? rs_ReservedTokens sc) && (w_windowStart w =? start) in
  mkWindow (w_windowStart w)
    (if rs_RPMHeld sc then Z.max 0 (sub64 (w_inflight w) 1) else w_inflight w)
    (if here then Z.max 0 (sub64 (w_tpmReserved w) (rs_ReservedTokens sc)) else w_tpmReserved w)
    (if here then add64 (w_tpmActual w) actual else w_tpmActual w)
    (w_release w).

(** A scope admits a request: a free slot and nobody queued ahead, and the
    estimate fits in the tokens of the minute. *)
Definition rpm_admits (queueLenOf : string → nat) (head : string) (w : scopeWindow)
    (cfg : activeConfig) : Prop :=
  ∀ limit, cfg_RPMLimit cfg = Some limit →
    (queueLenOf (cfg_ScopeKey cfg) = 0%nat ∨ cfg_ScopeKey cfg = head)
    ∧ add64 (w_inflight w) 1 ≤ limit.

Definition tpm_admits (estimatedTokens : Z) (w : scopeWindow) (cfg : activeConfig) : Prop :=
  ∀ limit, cfg_TPMLimit cfg = Some limit → 0 < estimatedTokens →
    add64 (add64 (w_tpmActual w) (w_tpmReserved w)) estimatedTokens ≤ limit.

(** Acquisitions use the configurations of [activeConfigsCached], at most one per
    scope, whose RPM limits stay below the cap of the scope; a reservation is
    settled by the request that holds it. *)
Definition ok_rpm (cap : string → Z) (w : World) (l : label) : Prop :=
  match l with
  | LAcquire _ _ cfgs _ =>
      NoDup (cfg_ScopeKey <$> cfgs)
      ∧ ∀ cfg limit, cfg ∈ cfgs → cfg_RPMLimit cfg = Some limit → limit ≤ cap (cfg_ScopeKey cfg)
  | LSettle id _ => is_Some (live w !! id)
  | _ => True
  end.

(** Acquisitions at times that do not go back, with estimates that are not
    negative, on windows whose counters have room for them; TPM limits below the
    cap of the scope. *)
Definition ok_tpm (cap : string → Z) (w : World) (l : label) : Prop :=
  match l with
  | LAcquire now est cfgs _ =>
      clk w ≤ now ∧ 0 ≤ est ≤ max_int64
      ∧ NoDup (cfg_ScopeKey <$> cfgs)
      ∧ (∀ cfg limit, cfg ∈ cfgs → cfg_TPMLimit cfg = Some limit → limit ≤ cap (cfg_ScopeKey cfg))
      ∧ ∀ k win, windows (svc w) !! k = Some win →
          w_tpmActual win + w_tpmReserved win + est ≤ max_int64
  | LSettle id actual =>
      is_Some (live w !! id)
      ∧ ∀ k win, windows (svc w) !! k = Some win → w_tpmActual win + Z.max 0 actual ≤ max_int64
  | _ => True
  end.

(** The tokens the window of a scope counts as reserved in the minute [start]. *)
Definition reserved_of (k : string) (start : Z) (ws : gmap string scopeWindow) : Z :=
  w_tpmReserved (view k start ws).

Definition windows_ok (t : Z) (ws : gmap string scopeWindow) : Prop :=
  ∀ k win, ws !! k = Some win →
    w_windowStart win ≤ time_truncate t Minute ∧ 0 ≤ w_tpmActual win ∧ 0 ≤ w_tpmReserved win.

Definition reservation_ok (t : Z) (r : Reservation) : Prop :=
  res_WindowStart r ≤ time_truncate t Minute
  ∧ NoDup (rs_ScopeKey <$> res_Scopes r)
  ∧ ∀ sc, sc ∈ res_Scopes r → 0 ≤ rs_ReservedTokens sc.

(** The names of the reservations are fresh. *)
Definition fresh_inv (w : World) : Prop :=
  ∀ id, is_Some (live w !! id) → (id < nextRes w)%nat.

Definition rpm_inv (cap : string → Z) (w : World) : Prop :=
  fresh_inv w ∧
  ∀ k, inflight_of k (windows (svc w)) = held k (live w)
       ∧ inflight_of k (windows (svc w)) ≤ Z.max 0 (cap k).

Definition tpm_inv (cap : string → Z) (w : World) : Prop :=
  fresh_inv w ∧ 0 ≤ clk w ∧ windows_ok (clk w) (windows (svc w))
  ∧ (∀ id r, live w !! id = Some r → reservation_ok (clk w) r)
  ∧ ∀ k, let start := time_truncate (clk w) Minute in
         reserved_of k start (windows (svc w)) = reserved k start (live w)
         ∧ reserved_of k start (windows (svc w)) ≤ Z.max 0 (cap k).

(** ** Slots in flight *)

Lemma windowLocked_lookup k start ws :
  snd (windowLocked k start ws) !! k = Some (fst (windowLocked k start ws)).
Proof.
  unfold windowLocked. destruct (ws !! k) as [w|] eqn:E; simpl.
  - case_match; simpl; [done|]. by rewrite lookup_insert_eq.
  - by rewrite lookup_insert_eq.
Qed.

Lemma windowLocked_lookup_ne k j start ws :
  k ≠ j → snd (windowLocked k start ws) !! j = ws !! j.
Proof.
  intros Hne. unfold windowLocked.
  destruct (ws !! k); simpl; [case_match; simpl; [done|]|]; by rewrite lookup_insert_ne.
Qed.

Lemma view_inflight k start ws : w_inflight (view k start ws) = inflight_of k ws.
Proof.
  unfold view, windowLocked, inflight_of. destruct (ws !! k); simpl; [case_match|]; done.
Qed.

Lemma view_start k start ws : w_windowStart (view k start ws) = start.
Proof.
  unfold view, windowLocked. destruct (ws !! k); simpl; [case_match|]; bool_to_prop; done.
Qed.

Lemma view_of_lookup k start ws w :
  ws !! k = Some w → w_windowStart w = start → view k start ws = w.
Proof.
  intros Hk Hs. unfold view, windowLocked. by rewrite Hk, Hs, Z.eqb_refl.
Qed.

Lemma view_insert_eq k start w ws :
  w_windowStart w = start → view k start (<[k := w]> ws) = w.
Proof. intros Hs. apply view_of_lookup; [by rewrite lookup_insert_eq|done]. Qed.

Lemma view_ext k start ws ws' : ws !! k = ws' !! k → view k start ws = view k start ws'.
Proof. unfold view, windowLocked. intros ->. destruct (ws' !! k); [case_match|]; done. Qed.

Lemma view_insert_ne j k start w ws : k ≠ j → view j start (<[k := w]> ws) = view j start ws.
Proof. intros Hne. apply view_ext. by rewrite lookup_insert_ne. Qed.

(** Looking at a window changes no view. *)
Lemma view_windowLocked j k start ws :
  view j start (snd (windowLocked k start ws)) = view j start ws.
Proof.
  destruct (decide (k = j)) as [->|Hne].
  - apply view_of_lookup; [apply windowLocked_lookup|apply view_start].
  - apply view_ext. by apply windowLocked_lookup_ne.
Qed.

Lemma inflight_of_insert j k w ws :
  inflight_of j (<[k := w]> ws) = if bool_decide (k = j) then w_inflight w else inflight_of j ws.
Proof.
  unfold inflight_of. rewrite lookup_insert. case_decide; case_bool_decide; done.
Qed.

Lemma inflight_of_sweep k now s :
  inflight_of k (windows (sweepLocked now s)) = inflight_of k (windows s).
Proof.
  unfold sweepLocked. case_match; simpl; [done|]. unfold inflight_of.
  destruct (windows s !! k) as [w|] eqn:E.
  - destruct (decide (w_inflight w = 0)) as [H0|Hn].
    + destruct (filter _ _ !! k) as [w'|] eqn:E'; [|done].
      apply map_lookup_filter_Some in E' as [E' _]. by simplify_eq.
    + erewrite map_lookup_filter_Some_2; [done|done|]. simpl. tauto.
  - by rewrite map_lookup_filter_None_2 by auto.
Qed.

Lemma rpm_limited_false queueLenOf head w cfg :
  (match cfg_RPMLimit cfg with
   | Some limit =>
       ((0 <? queueLenOf (cfg_ScopeKey cfg))%nat && negb (bool_decide (cfg_ScopeKey cfg = head)))
       || (limit <? add64 (w_inflight w) 1)
   | None => false
   end) = false ↔ rpm_admits queueLenOf head w cfg.
Proof.
  unfold rpm_admits. destruct (cfg_RPMLimit cfg) as [limit|]; [|by split].
  rewrite orb_false_iff, andb_false_iff, Z.ltb_ge, Nat.ltb_ge, negb_false_iff, bool_decide_eq_true.
  split; [|intros H; specialize (H limit eq_refl); split; [destruct H as [[]]; auto with lia|tauto]].
  intros [[Hq|Hq] Hl] l [= <-]; (split; [|done]); [left; lia|by right].
Qed.

Lemma tpm_limited_false est w cfg :
  (match cfg_TPMLimit cfg with
   | Some limit =>
       (0 <? est) && (limit <? add64 (add64 (w_tpmActual w) (w_tpmReserved w)) est)
   | None => false
   end) = false ↔ tpm_admits est w cfg.
Proof.
  unfold tpm_admits. destruct (cfg_TPMLimit cfg) as [limit|]; [|by split].
  rewrite andb_false_iff, !Z.ltb_ge. split.
  - intros [H|H] l [= <-]; lia.
  - intros H. destruct (decide (0 < est)) as [Hp|Hp]; [right; by apply H|left; lia].
Qed.

#[local] Arguments pendingOf : simpl never.

Lemma pendingOf_cons est cfg cfgs :
  pendingOf est (cfg :: cfgs) =
    let holdSlot := bool_decide (cfg_RPMLimit cfg ≠ None) in
    let tpmDelta := match cfg_TPMLimit cfg with Some _ => est | None => 0 end in
    if negb holdSlot && (tpmDelta =? 0) then pendingOf est cfgs
    else mkPending cfg holdSlot tpmDelta :: pendingOf est cfgs.
Proof.
  unfold pendingOf. cbv zeta. simpl.
  by destruct (negb _ && _).
Qed.

(** The check changes no view; it succeeds exactly when every scope admits the
    request, and a failure names a scope that does not. *)
Lemma checkScopes_spec queueLenOf head start est ra cfgs ws ws' r :
  checkScopes queueLenOf head start est ra cfgs ws = (ws', r) →
  (∀ j, view j start ws' = view j start ws) ∧
  match r with
  | Ok pending =>
      pending = pendingOf est cfgs ∧
      ∀ p, p ∈ pending →
        let w := view (cfg_ScopeKey (pd_config p)) start ws in
        rpm_admits queueLenOf head w (pd_config p) ∧ tpm_admits est w (pd_config p)
  | Err e =>
      ∃ p, p ∈ pendingOf est cfgs ∧ le_ScopeKey e = cfg_ScopeKey (pd_config p)
           ∧ le_Scope e = cfg_Scope (pd_config p) ∧
        let w := view (cfg_ScopeKey (pd_config p)) start ws in
        (le_LimitType e = "rpm" ∧ ¬ rpm_admits queueLenOf head w (pd_config p)
         ∨ le_LimitType e = "tpm" ∧ ¬ tpm_admits est w (pd_config p))
  end.
Proof.
  revert ws ws' r; induction cfgs as [|cfg cfgs IH]; intros ws ws' r; simpl.
  { intros [= <- <-]. split; [done|]. split; [done|]. intros p Hp. by apply not_elem_of_nil in Hp. }
  destruct (negb _ && _) eqn:Eskip.
  { destruct (checkScopes _ _ _ _ _ cfgs ws) as [ws1 [pending|e]] eqn:Erec; intros [= <- <-];
      destruct (IH _ _ _ Erec) as [Hv Hr]; (split; [done|]); rewrite pendingOf_cons; simpl; rewrite Eskip; done. }
  destruct (windowLocked (cfg_ScopeKey cfg) start ws) as [w ws1] eqn:Ew.
  assert (w = view (cfg_ScopeKey cfg) start ws) as Hw by (unfold view; by rewrite Ew).
  assert (∀ j, view j start ws1 = view j start ws) as Hv1
    by (intros j; pose proof (view_windowLocked j (cfg_ScopeKey cfg) start ws) as H; by rewrite Ew in H).
  match goal with |- (if ?b then _ else _) = _ → _ => destruct b eqn:Erpm end.
  { intros [= <- <-]. split; [done|]. eexists. split; [rewrite pendingOf_cons; simpl; rewrite Eskip; apply elem_of_cons; by left|].
    split; [done|]. split; [done|]. left. split; [done|]. simpl. rewrite <- Hw, <- rpm_limited_false.
    by rewrite Erpm. }
  match goal with |- (if ?b then _ else _) = _ → _ => destruct b eqn:Etpm end.
  { intros [= <- <-]. split; [done|]. eexists. split; [rewrite pendingOf_cons; simpl; rewrite Eskip; apply elem_of_cons; by left|].
    split; [done|]. split; [done|]. right. split; [done|]. simpl. rewrite <- Hw, <- tpm_limited_false.
    by rewrite Etpm. }
  apply rpm_limited_false in Erpm. apply tpm_limited_false in Etpm.
  destruct (checkScopes _ _ _ _ _ cfgs ws1) as [ws2 [pending|e]] eqn:Erec; intros [= <- <-];
    destruct (IH _ _ _ Erec) as [Hv Hr]; (split; [intros j; by rewrite Hv, Hv1|]);
    rewrite pendingOf_cons; simpl; rewrite Eskip.
  - destruct Hr as [-> Hr]. split; [done|]. intros p [->|Hp]%elem_of_cons; simpl; [by rewrite <- Hw|].
    rewrite <- Hv1. by apply Hr.
  - destruct Hr as (p & Hp & ? & ? & Hr). exists p. rewrite <- Hv1.
    split; [apply elem_of_cons; by right|]. done.
Qed.

(** ** The second loop *)

Lemma commitScope_entry start p ws :
  fst (commitScope start p ws) = entryOf p (committed p (view (pd_key p) start ws)).
Proof.
  unfold commitScope, view, pd_key. by destruct (windowLocked _ start ws) as [w ws1].
Qed.

Lemma commitScope_view start p ws j :
  view j start (snd (commitScope start p ws)) =
    if bool_decide (pd_key p = j) then committed p (view j start ws) else view j start ws.
Proof.
  pose proof (view_windowLocked j (pd_key p) start ws) as Hv.
  unfold commitScope, pd_key in *.
  destruct (windowLocked (cfg_ScopeKey (pd_config p)) start ws) as [w ws1] eqn:Ew. simpl in *.
  case_bool_decide as Hk.
  - subst j. assert (w = view (cfg_ScopeKey (pd_config p)) start ws) as -> by (unfold view; by rewrite Ew).
    rewrite view_insert_eq by (simpl; apply view_start). done.
  - by rewrite view_insert_ne.
Qed.

(** On scopes with different keys each entry is computed from the view before. *)
Lemma commitScopes_spec start pending ws scs ws' :
  commitScopes start pending ws = (scs, ws') → NoDup (pd_key <$> pending) →
  scs = (λ p, entryOf p (committed p (view (pd_key p) start ws))) <$> pending
  ∧ (∀ p, p ∈ pending → view (pd_key p) start ws' = committed p (view (pd_key p) start ws))
  ∧ (∀ j, j ∉ pd_key <$> pending → view j start ws' = view j start ws).
Proof.
  revert ws scs ws'; induction pending as [|p pending IH]; intros ws scs ws'; simpl.
  { intros [= <- <-] _. split_and!; [done| |done]. intros p Hp. by apply not_elem_of_nil in Hp. }
  pose proof (commitScope_entry start p ws) as He. pose proof (commitScope_view start p ws) as Hv.
  destruct (commitScope start p ws) as [sc ws1]. simpl in He, Hv.
  destruct (commitScopes start pending ws1) as [scs1 ws2] eqn:Erec.
  intros [= <- <-] [Hni Hnd]%list.NoDup_cons.
  destruct (IH _ _ _ Erec Hnd) as (-> & Hin & Hout).
  assert (∀ q, q ∈ pending → pd_key p ≠ pd_key q) as Hne.
  { intros q Hq Heq. apply Hni. rewrite Heq. by apply list_elem_of_fmap_2. }
  split_and!.
  - rewrite He. f_equal. apply list_fmap_ext. intros i q Hq%list_elem_of_lookup_2.
    rewrite Hv, bool_decide_eq_false_2 by auto. done.
  - intros q [->|Hq]%elem_of_cons.
    + rewrite Hout, Hv, bool_decide_eq_true_2 by done. done.
    + rewrite Hin, Hv, bool_decide_eq_false_2 by auto. done.
  - intros j [Hj1 Hj2]%not_elem_of_cons.
    rewrite Hout, Hv, bool_decide_eq_false_2 by auto. done.
Qed.

Lemma scope_sum_out f k scs : k ∉ rs_ScopeKey <$> scs → scope_sum f k scs = 0.
Proof.
  induction scs as [|sc scs IH]; simpl; [done|].
  intros [Hk Hscs]%not_elem_of_cons. rewrite bool_decide_eq_false_2 by auto. by rewrite IH.
Qed.

Lemma scope_sum_in f sc scs :
  NoDup (rs_ScopeKey <$> scs) → sc ∈ scs → scope_sum f (rs_ScopeKey sc) scs = f sc.
Proof.
  induction scs as [|sc' scs IH]; simpl; [by intros _ ?%not_elem_of_nil|].
  intros [Hni Hnd]%list.NoDup_cons [->|Hin]%elem_of_cons.
  - rewrite bool_decide_eq_true_2 by done.
    change (foldr _ 0 scs) with (scope_sum f (rs_ScopeKey sc') scs). rewrite scope_sum_out by done. lia.
  - rewrite bool_decide_eq_false_2; [by rewrite <- (IH Hnd Hin)|].
    intros Heq. apply Hni. rewrite Heq. by apply list_elem_of_fmap_2.
Qed.

Lemma scope_sum_nonneg f k scs : (∀ sc, sc ∈ scs → 0 ≤ f sc) → 0 ≤ scope_sum f k scs.
Proof.
  induction scs as [|sc scs IH]; simpl; [done|]. intros Hpos.
  assert (0 ≤ scope_sum f k scs) by (apply IH; intros; apply Hpos, elem_of_cons; by right).
  assert (0 ≤ f sc) by (apply Hpos, elem_of_cons; by left).
  change (foldr _ 0 scs) with (scope_sum f k scs). case_bool_decide; lia.
Qed.

Lemma held_by_nonneg k scs : 0 ≤ held_by k scs.
Proof. apply scope_sum_nonneg. intros sc _. by destruct (rs_RPMHeld sc). Qed.

Lemma pendingOf_keys est cfgs :
  (pd_key <$> pendingOf est cfgs) `sublist_of` (cfg_ScopeKey <$> cfgs).
Proof.
  induction cfgs as [|cfg cfgs IH]; [done|]. rewrite pendingOf_cons. simpl.
  destruct (negb _ && _); simpl; by constructor.
Qed.

Lemma pendingOf_elem est cfgs p :
  p ∈ pendingOf est cfgs →
  pd_config p ∈ cfgs
  ∧ pd_holdSlot p = bool_decide (cfg_RPMLimit (pd_config p) ≠ None)
  ∧ pd_tpmDelta p = match cfg_TPMLimit (pd_config p) with Some _ => est | None => 0 end.
Proof.
  intros Hp. unfold pendingOf in Hp. apply list_elem_of_omap in Hp as (cfg & Hcfg & Hp).
  case_match; [done|]. by simplify_eq/=.
Qed.

(** ** Admission as a whole *)

(** Nothing but windows is touched, and what each scope looks like afterwards is
    decided by the outcome: a reservation took its part in every scope of the
    request, any other outcome took nothing anywhere. *)
Lemma acquireLocked_spec now est cfgs head s s' res :
  acquireLocked now est cfgs head s = (s', res) → NoDup (cfg_ScopeKey <$> cfgs) →
  let start := time_truncate now Minute in
  let s1 := sweepLocked now s in
  queues s' = queues s ∧ waiters s' = waiters s ∧ chans s' = chans s ∧ nextPtr s' = nextPtr s ∧
  match res with
  | Ok (Some r) =>
      r = mkReservation start est est
            ((λ p, entryOf p (committed p (view (pd_key p) start (windows s1)))) <$> pendingOf est cfgs)
      ∧ (∀ p, p ∈ pendingOf est cfgs →
           rpm_admits (queueLen s1) head (view (pd_key p) start (windows s1)) (pd_config p)
           ∧ tpm_admits est (view (pd_key p) start (windows s1)) (pd_config p)
           ∧ view (pd_key p) start (windows s') = committed p (view (pd_key p) start (windows s1)))
      ∧ (∀ j, j ∉ pd_key <$> pendingOf est cfgs →
           view j start (windows s') = view j start (windows s1))
  | Ok None => pendingOf est cfgs = [] ∧ ∀ j, view j start (windows s') = view j start (windows s1)
  | Err e =>
      (∃ p, p ∈ pendingOf est cfgs ∧ le_ScopeKey e = pd_key p ∧
         let w := view (pd_key p) start (windows s1) in
         (le_LimitType e = "rpm" ∧ ¬ rpm_admits (queueLen s1) head w (pd_config p)
          ∨ le_LimitType e = "tpm" ∧ ¬ tpm_admits est w (pd_config p)))
      ∧ ∀ j, view j start (windows s') = view j start (windows s1)
  end.
Proof.
  intros Hacq Hnd start s1. unfold acquireLocked in Hacq. fold start s1 in Hacq.
  assert (queues s1 = queues s ∧ waiters s1 = waiters s ∧ chans s1 = chans s ∧ nextPtr s1 = nextPtr s)
    as (Hq & Hw & Hc & Hn) by (unfold s1, sweepLocked; by destruct (time_sub _ _ <? _)).
  destruct (checkScopes _ _ _ _ _ _ _) as [ws1 [pending|e]] eqn:Echeck;
    apply checkScopes_spec in Echeck as [Hv1 Hr].
  - destruct Hr as [-> Hadm].
    remember (pendingOf est cfgs) as pending eqn:Ep.
    destruct pending as [|p0 pending0]; [simplify_eq/=; by split_and!|].
    destruct (commitScopes start (p0 :: pending0) ws1) as [scs ws2] eqn:Ecommit.
    simplify_eq. apply commitScopes_spec in Ecommit as (-> & Hin & Hout);
      [|rewrite Ep; eapply sublist_NoDup; [done|apply pendingOf_keys]].
    split_and!; [done..| | |].
    + f_equal. apply list_fmap_ext. intros i p _. by rewrite Hv1.
    + intros p Hp. destruct (Hadm p Hp) as [Hr Ht]. split_and!; [done..|]. by rewrite Hin, Hv1.
    + intros j Hj. by rewrite Hout, Hv1.
  - simplify_eq/=. destruct Hr as (p & Hp & ? & ? & Hlim). split_and!; [done..| |done].
    exists p. done.
Qed.

(** ** The count of requests in flight *)

Lemma entries_keys start ws (l : list pendingScope) :
  rs_ScopeKey <$> ((λ p, entryOf p (committed p (view (pd_key p) start ws))) <$> l)
  = pd_key <$> l.
Proof. rewrite <- list_fmap_compose. by apply list_fmap_ext. Qed.

(** What [scope_sum] gives on the entries of a new reservation. *)
Lemma scope_sum_entries f start ws (l : list pendingScope) k :
  NoDup (pd_key <$> l) →
  let entry p := entryOf p (committed p (view (pd_key p) start ws)) in
  (∀ p, p ∈ l → pd_key p = k → scope_sum f k (entry <$> l) = f (entry p))
  ∧ (k ∉ pd_key <$> l → scope_sum f k (entry <$> l) = 0).
Proof.
  intros Hnd entry. split.
  - intros p Hp <-. change (pd_key p) with (rs_ScopeKey (entry p)).
    apply scope_sum_in; [unfold entry; by rewrite entries_keys|]. by apply list_elem_of_fmap_2.
  - intros Hk. apply scope_sum_out. unfold entry. by rewrite entries_keys.
Qed.

Lemma acquireLocked_inflight now est cfgs head s s' res :
  acquireLocked now est cfgs head s = (s', res) → NoDup (cfg_ScopeKey <$> cfgs) →
  (∀ k, 0 ≤ inflight_of k (windows s) < max_int64) →
  ∀ k, inflight_of k (windows s') = inflight_of k (windows s) +
         match res with Ok (Some r) => held_by k (res_Scopes r) | _ => 0 end
       ∧ (inflight_of k (windows s') = inflight_of k (windows s)
          ∨ ∃ cfg limit, cfg ∈ cfgs ∧ cfg_ScopeKey cfg = k ∧ cfg_RPMLimit cfg = Some limit
                         ∧ inflight_of k (windows s') ≤ limit).
Proof.
  intros Hacq Hnd Hrange k.
  destruct (acquireLocked_spec _ _ _ _ _ _ _ Hacq Hnd) as (_ & _ & _ & _ & Hr).
  set (start := time_truncate now Minute) in *. set (s1 := sweepLocked now s) in *.
  assert (Hsw : ∀ j, w_inflight (view j start (windows s1)) = inflight_of j (windows s))
    by (intros j; rewrite view_inflight; apply inflight_of_sweep).
  rewrite <- (view_inflight k start (windows s')).
  destruct res as [[r|]|e].
  - destruct Hr as (-> & Hin & Hout). simpl.
    assert (Hnd' : NoDup (pd_key <$> pendingOf est cfgs))
      by (eapply sublist_NoDup; [done|apply pendingOf_keys]).
    destruct (scope_sum_entries (λ sc, if rs_RPMHeld sc then 1 else 0) start (windows s1)
                (pendingOf est cfgs) k Hnd') as [Hsin Hsout].
    destruct (decide (k ∈ pd_key <$> pendingOf est cfgs)) as [Hk|Hk].
    + apply list_elem_of_fmap in Hk as (p & -> & Hp).
      destruct (Hin p Hp) as (Hrpm & _ & ->). unfold held_by. rewrite (Hsin p Hp eq_refl).
      pose proof (Hrange (pd_key p)) as Hb. apply pendingOf_elem in Hp as (Hcfg & Hhold & _).
      simpl. rewrite Hsw, Hhold in *. case_bool_decide as Hl; [|split; [lia|by left]].
      destruct (cfg_RPMLimit (pd_config p)) as [limit|] eqn:El; [|done].
      destruct (Hrpm limit El) as [_ Hle]. rewrite Hsw in Hle.
      rewrite add64_small in * by (unfold in_int64, min_int64, max_int64 in *; lia).
      split; [lia|]. right. by exists (pd_config p), limit.
    + rewrite Hout, Hsw by done. unfold held_by. rewrite Hsout by done. split; [lia|by left].
  - destruct Hr as [_ Hr]. rewrite Hr, Hsw. split; [lia|by left].
  - destruct Hr as [_ Hr]. rewrite Hr, Hsw. split; [lia|by left].
Qed.

Lemma windows_sendRelease c s : windows (sendRelease c s) = windows s.
Proof. by destruct c. Qed.

Lemma settleScope_inflight start actual sc s k :
  inflight_of k (windows s) ≤ max_int64 →
  held_by k [sc] ≤ inflight_of k (windows s) → 0 ≤ inflight_of k (windows s) →
  inflight_of k (windows (settleScope start actual sc s))
  = inflight_of k (windows s) - held_by k [sc].
Proof.
  unfold settleScope, held_by, scope_sum. simpl. intros Hmax Hle Hpos.
  destruct (windows s !! rs_ScopeKey sc) as [w|] eqn:E; simpl.
  - assert (windows (if rs_RPMHeld sc then sendRelease (w_release w) s else s) = windows s) as ->
      by (destruct (rs_RPMHeld sc); [apply windows_sendRelease|done]).
    rewrite inflight_of_insert. simpl. case_bool_decide as Hk; [|lia]. subst k.
    unfold inflight_of in *. rewrite E in *. destruct (rs_RPMHeld sc); [|lia].
    rewrite sub64_small by (unfold in_int64, min_int64, max_int64 in *; lia). lia.
  - case_bool_decide as Hk; [|lia]. subst k. unfold inflight_of in *. rewrite E in *.
    destruct (rs_RPMHeld sc); lia.
Qed.

Lemma Settle_inflight r actual s k :
  inflight_of k (windows s) ≤ max_int64 →
  held_by k (res_Scopes r) ≤ inflight_of k (windows s) →
  inflight_of k (windows (Settle r actual s))
  = inflight_of k (windows s) - held_by k (res_Scopes r).
Proof.
  unfold Settle. generalize (Z.max 0 actual) as act; intros act.
  revert s; induction (res_Scopes r) as [|sc scs IH]; intros s Hmax Hle; cbn [fold_left].
  { unfold held_by, scope_sum. simpl. lia. }
  assert (held_by k (sc :: scs) = held_by k [sc] + held_by k scs) as Hsplit
    by (unfold held_by, scope_sum; simpl; lia).
  pose proof (held_by_nonneg k scs) as H1. pose proof (held_by_nonneg k [sc]) as H2.
  assert (Hstep : inflight_of k (windows (settleScope (res_WindowStart r) act sc s))
                  = inflight_of k (windows s) - held_by k [sc])
    by (apply settleScope_inflight; lia).
  rewrite IH; lia.
Qed.

Lemma releaseSignal_inflight key s k :
  inflight_of k (windows (snd (releaseSignal key s))) = inflight_of k (windows s).
Proof.
  unfold releaseSignal. case_match; simpl; rewrite inflight_of_insert;
    (case_bool_decide as Hk; [subst k|done]); unfold inflight_of;
    by destruct (windows s !! key).
Qed.

Lemma enqueueWaiter_windows key s : windows (fst (enqueueWaiter key s)) = windows s.
Proof. unfold enqueueWaiter. by case_match. Qed.

Lemma finishWaiter_windows key p s : windows (finishWaiter key p s) = windows s.
Proof. unfold finishWaiter. by case_match. Qed.

Lemma held_nonneg k m : 0 ≤ held k m.
Proof. apply map_sum_nonneg. intros; apply held_by_nonneg. Qed.

Lemma fresh_inv_exec w l : fresh_inv w → fresh_inv (exec w l).
Proof.
  unfold fresh_inv. intros Hf id Hid. destruct l; simpl in *; try by apply Hf.
  - destruct (acquireLocked _ _ _ _ _) as [s [[r|]|e]]; simpl in *; try by apply Hf.
    destruct (decide (id = nextRes w)) as [->|Hne]; [lia|].
    rewrite lookup_insert_ne in Hid by done. apply Hf in Hid. lia.
  - destruct (live w !! id0) eqn:E; simpl in *; [|by apply Hf].
    apply Hf. destruct (decide (id0 = id)) as [->|Hne]; [by rewrite E|].
    by rewrite lookup_delete_ne in Hid.
Qed.

Lemma fresh_inv_next w : fresh_inv w → live w !! nextRes w = None.
Proof.
  intros Hf. destruct (live w !! nextRes w) eqn:E; [|done].
  assert (nextRes w < nextRes w)%nat; [|lia]. apply Hf. by rewrite E.
Qed.

Lemma rpm_inv_exec cap w l :
  (∀ k, cap k < max_int64) → rpm_inv cap w → ok_rpm cap w l → rpm_inv cap (exec w l).
Proof.
  intros Hcap [Hf Hinv] Hok. split; [by apply fresh_inv_exec|].
  assert (Hrange : ∀ k, 0 ≤ inflight_of k (windows (svc w)) < max_int64).
  { intros k. destruct (Hinv k) as [-> Hle]. pose proof (held_nonneg k (live w)).
    specialize (Hcap k). unfold max_int64 in *. destruct (Hinv k) as [Heq _]. lia. }
  intros k. destruct (Hinv k) as [Heq Hle]. destruct l; simpl in *.
  - destruct (acquireLocked now estimatedTokens cfgs queueHeadScope (svc w)) as [s res] eqn:Hacq.
    destruct Hok as [Hnd Hlim].
    destruct (acquireLocked_inflight _ _ _ _ _ _ _ Hacq Hnd Hrange k) as [Hsum Hbound].
    assert (inflight_of k (windows s) ≤ Z.max 0 (cap k)) as Hcapk.
    { destruct Hbound as [->|(cfg & limit & Hcfg & <- & Hl & Hb)]; [done|].
      specialize (Hlim cfg limit Hcfg Hl). lia. }
    destruct res as [[r|]|e]; simpl in *; [|split; lia..].
    split; [|done]. unfold held. rewrite map_sum_insert by (by apply fresh_inv_next).
    unfold held in Heq. lia.
  - destruct Hok as [r Hr]. rewrite Hr. simpl.
    unfold held in Heq. rewrite (map_sum_delete _ _ _ _ Hr) in Heq.
    fold (held k (delete id (live w))) in Heq. pose proof (held_nonneg k (delete id (live w))).
    pose proof (held_by_nonneg k (res_Scopes r)). specialize (Hrange k).
    rewrite Settle_inflight by lia. split; lia.
  - by rewrite enqueueWaiter_windows.
  - by rewrite finishWaiter_windows.
  - by rewrite releaseSignal_inflight.
  - done.
  - done.
Qed.

Lemma rpm_inv_reachable cap w :
  (∀ k, cap k < max_int64) → reachable (ok_rpm cap) w → rpm_inv cap w.
Proof.
  intros Hcap. induction 1 as [|w l Hr IH Hok]; [|by apply rpm_inv_exec].
  split; [intros id [r Hr]; by simpl in Hr|]. intros k. simpl.
  assert (inflight_of k ∅ = 0) as -> by (unfold inflight_of; by rewrite lookup_empty).
  unfold held. rewrite map_sum_empty. lia.
Qed.

(** C24: in every interleaving of acquisitions, settlements, queue operations and
    configuration changes, the [inflight] counter of a scope is exactly the number
    of slots held by the reservations that are not settled yet, and it never
    exceeds the RPM limits configured for the scope. *)
Theorem inflight_is_held (cap : string → Z) (w : World) (k : string) :
  (∀ k, cap k < max_int64) → reachable (ok_rpm cap) w →
  inflight_of k (windows (svc w)) = held k (live w)
  ∧ 0 ≤ inflight_of k (windows (svc w)) ≤ Z.max 0 (cap k).
Proof.
  intros Hcap Hr. destruct (rpm_inv_reachable cap w Hcap Hr) as [_ Hinv].
  destruct (Hinv k) as [Heq Hle]. pose proof (held_nonneg k (live w)). lia.
Qed.

(** ** Tokens of the current minute *)

Lemma reserved_of_alt k start ws :
  reserved_of k start ws =
    match ws !! k with
    | Some w => if w_windowStart w =? start then w_tpmReserved w else 0
    | None => 0
    end.
Proof.
  unfold reserved_of, view, windowLocked. destruct (ws !! k); simpl; [case_match|]; done.
Qed.

Lemma view_actual_alt k start ws :
  w_tpmActual (view k start ws) =
    match ws !! k with
    | Some w => if w_windowStart w =? start then w_tpmActual w else 0
    | None => 0
    end.
Proof. unfold view, windowLocked. destruct (ws !! k); simpl; [case_match|]; done. Qed.

Lemma sweep_lookup now s k w :
  windows (sweepLocked now s) !! k = Some w → windows s !! k = Some w.
Proof.
  unfold sweepLocked. destruct (time_sub _ _ <? _); simpl; [done|].
  by intros [? _]%map_lookup_filter_Some.
Qed.

Lemma sweep_dropped now s k w :
  windows s !! k = Some w → windows (sweepLocked now s) !! k = None →
  w_windowStart w < now - windowExpiry.
Proof.
  unfold sweepLocked. destruct (time_sub _ _ <? _); simpl; [congruence|].
  intros Hk [|Hn]%map_lookup_filter_None; [congruence|].
  specialize (Hn w Hk). simpl in Hn. lia.
Qed.

(** The sweep drops no window of the current minute. *)
Lemma sweep_reserved now s k :
  reserved_of k (time_truncate now Minute) (windows (sweepLocked now s))
  = reserved_of k (time_truncate now Minute) (windows s).
Proof.
  rewrite !reserved_of_alt.
  destruct (windows (sweepLocked now s) !! k) as [w|] eqn:E.
  - by rewrite (sweep_lookup _ _ _ _ E).
  - destruct (windows s !! k) as [w|] eqn:E'; [|done].
    pose proof (sweep_dropped _ _ _ _ E' E) as Hlt.
    pose proof (time_truncate_le now Minute eq_refl).
    destruct (Z.eqb_spec (w_windowStart w) (time_truncate now Minute)); [|done].
    unfold windowExpiry, Minute in *. lia.
Qed.

Lemma sweep_actual now s k :
  w_tpmActual (view k (time_truncate now Minute) (windows (sweepLocked now s)))
  = w_tpmActual (view k (time_truncate now Minute) (windows s)).
Proof.
  rewrite !view_actual_alt.
  destruct (windows (sweepLocked now s) !! k) as [w|] eqn:E.
  - by rewrite (sweep_lookup _ _ _ _ E).
  - destruct (windows s !! k) as [w|] eqn:E'; [|done].
    pose proof (sweep_dropped _ _ _ _ E' E) as Hlt.
    pose proof (time_truncate_le now Minute eq_refl).
    destruct (Z.eqb_spec (w_windowStart w) (time_truncate now Minute)); [|done].
    unfold windowExpiry, Minute in *. lia.
Qed.

(** An acquisition leaves alone the windows of other minutes. *)
Definition only_at (start : Z) (ws ws' : gmap string scopeWindow) : Prop :=
  ∀ k w, ws' !! k = Some w → w_windowStart w = start ∨ ws !! k = Some w.

#[export] Instance only_at_preorder start : PreOrder (only_at start).
Proof.
  split.
  - intros ws k w Hk. by right.
  - intros ws1 ws2 ws3 H12 H23 k w Hk. destruct (H23 k w Hk) as [?|Hk2]; [by left|by apply H12].
Qed.

Lemma windowLocked_only k start ws : only_at start ws (snd (windowLocked k start ws)).
Proof.
  intros j w. destruct (decide (k = j)) as [->|Hne].
  - rewrite windowLocked_lookup. intros [= <-]. left. apply view_start.
  - rewrite windowLocked_lookup_ne by done. by right.
Qed.

Lemma checkScopes_only ql head start est ra cfgs ws :
  only_at start ws (fst (checkScopes ql head start est ra cfgs ws)).
Proof.
  revert ws; induction cfgs as [|cfg cfgs IH]; intros ws; simpl; [done|].
  destruct (negb _ && _).
  { specialize (IH ws). by destruct (checkScopes _ _ _ _ _ cfgs ws) as [ws1 []]. }
  pose proof (windowLocked_only (cfg_ScopeKey cfg) start ws) as Hw.
  destruct (windowLocked _ start ws) as [w ws1]. simpl in Hw.
  match goal with |- only_at _ _ (fst (if ?b then _ else _)) => destruct b end; [done|].
  match goal with |- only_at _ _ (fst (if ?b then _ else _)) => destruct b end; [done|].
  specialize (IH ws1). destruct (checkScopes _ _ _ _ _ cfgs ws1) as [ws2 []]; by transitivity ws1.
Qed.

Lemma commitScopes_only start pending ws :
  only_at start ws (snd (commitScopes start pending ws)).
Proof.
  revert ws; induction pending as [|p pending IH]; intros ws; simpl; [done|].
  assert (only_at start ws (snd (commitScope start p ws))) as H1.
  { pose proof (windowLocked_only (cfg_ScopeKey (pd_config p)) start ws) as Hw.
    pose proof (view_start (cfg_ScopeKey (pd_config p)) start ws) as Hs. unfold view in Hs.
    unfold commitScope. destruct (windowLocked _ start ws) as [w ws1]. simpl in *.
    intros j w'. rewrite lookup_insert. case_decide; [intros [= <-]; by left|]. apply Hw. }
  destruct (commitScope start p ws) as [sc ws1]. simpl in H1. specialize (IH ws1).
  destruct (commitScopes start pending ws1) as [scs ws2]. simpl in *. by transitivity ws1.
Qed.

Lemma acquireLocked_only now est cfgs head s :
  only_at (time_truncate now Minute) (windows s) (windows (fst (acquireLocked now est cfgs head s))).
Proof.
  assert (only_at (time_truncate now Minute) (windows s) (windows (sweepLocked now s))) as Hs
    by (intros k w Hk; right; by eapply sweep_lookup).
  unfold acquireLocked. etransitivity; [exact Hs|].
  pose proof (checkScopes_only (queueLen (sweepLocked now s)) head (time_truncate now Minute) est
    (Z.max 1 (ceil_seconds (time_sub (time_truncate now Minute + Minute) now))) cfgs
    (windows (sweepLocked now s))) as Hc.
  destruct (checkScopes _ _ _ _ _ _ _) as [ws1 [[|p pending]|e]]; simpl in Hc; [done| |done].
  pose proof (commitScopes_only (time_truncate now Minute) (p :: pending) ws1) as Hm.
  destruct (commitScopes _ _ _) as [scs ws2]. simpl in *. by transitivity ws1.
Qed.

Lemma windows_ok_later t t' ws : t ≤ t' → windows_ok t ws → windows_ok t' ws.
Proof.
  intros Ht Hok k w Hk. destruct (Hok k w Hk) as (? & ? & ?).
  pose proof (time_truncate_mono t t' Minute eq_refl Ht). split_and!; lia.
Qed.

Lemma reservation_ok_later t t' r : t ≤ t' → reservation_ok t r → reservation_ok t' r.
Proof.
  intros Ht (Hs & ?). split; [|done].
  pose proof (time_truncate_mono t t' Minute eq_refl Ht). lia.
Qed.

Lemma tokens_by_nonneg t k start r : reservation_ok t r → 0 ≤ tokens_by k start r.
Proof.
  intros (_ & _ & Hpos). unfold tokens_by. case_match; [|done]. by apply scope_sum_nonneg.
Qed.

Lemma reserved_nonneg t k start m :
  (∀ id r, m !! id = Some r → reservation_ok t r) → 0 ≤ reserved k start m.
Proof. intros Hm. apply map_sum_nonneg. intros id r Hr. eapply tokens_by_nonneg. by eapply Hm. Qed.

(** When a minute begins nothing is reserved in it yet. *)
Lemma reserved_new_minute t k start m :
  time_truncate t Minute < start → (∀ id r, m !! id = Some r → reservation_ok t r) →
  reserved k start m = 0.
Proof.
  intros Hlt Hm. unfold reserved. rewrite (map_sum_ext _ (λ _, 0)).
  - induction m as [|id r m Hid IH] using map_ind; [apply map_sum_empty|].
    rewrite map_sum_insert by done. rewrite IH; [done|].
    intros j r' Hj. apply (Hm j). rewrite lookup_insert_ne; [done|]. intros ->. congruence.
  - intros id r Hr. destruct (Hm id r Hr) as (Hs & _). unfold tokens_by.
    destruct (Z.eqb_spec (res_WindowStart r) start); [lia|done].
Qed.

Lemma reserved_of_new_minute t k start ws :
  time_truncate t Minute < start → windows_ok t ws → reserved_of k start ws = 0.
Proof.
  intros Hlt Hok. rewrite reserved_of_alt. destruct (ws !! k) as [w|] eqn:E; [|done].
  destruct (Hok k w E) as (? & _). destruct (Z.eqb_spec (w_windowStart w) start); [lia|done].
Qed.

(** What a successful acquisition of one scope does to its tokens. *)
Lemma committed_reserved est p w :
  0 ≤ est ≤ max_int64 → 0 ≤ w_tpmActual w → 0 ≤ w_tpmReserved w →
  w_tpmActual w + w_tpmReserved w + est ≤ max_int64 →
  tpm_admits est w (pd_config p) →
  pd_tpmDelta p = match cfg_TPMLimit (pd_config p) with Some _ => est | None => 0 end →
  w_tpmReserved (committed p w) = w_tpmReserved w + pd_tpmDelta p
  ∧ 0 ≤ pd_tpmDelta p
  ∧ (pd_tpmDelta p = 0 ∨ ∃ limit, cfg_TPMLimit (pd_config p) = Some limit
                          ∧ w_tpmReserved w + pd_tpmDelta p ≤ limit).
Proof.
  intros Hest Ha Hr Hsum Hadm Hd. simpl. rewrite Hd.
  destruct (cfg_TPMLimit (pd_config p)) as [limit|] eqn:El;
    rewrite add64_small by (unfold in_int64, min_int64, max_int64 in *; lia);
    (split; [done|]); (split; [lia|]); [|by left].
  destruct (decide (est = 0)) as [->|Hne]; [by left|]. right. exists limit. split; [done|].
  specialize (Hadm limit El ltac:(lia)).
  rewrite (add64_small (w_tpmActual _)) in Hadm by (unfold in_int64, min_int64, max_int64 in *; lia).
  rewrite add64_small in Hadm by (unfold in_int64, min_int64, max_int64 in *; lia). lia.
Qed.

(** The tokens the outcome of an acquisition reserves in the scope [k]. *)
Definition outcome_tokens (k : string) (start : Z)
    (res : result (option Reservation) LimitError) : Z :=
  match res with Ok (Some r) => tokens_by k start r | _ => 0 end.

(** Each scope afterwards: as it was, or the commit of one admitted scope. *)
Lemma acquireLocked_view now est cfgs head s s' res k :
  acquireLocked now est cfgs head s = (s', res) → NoDup (cfg_ScopeKey <$> cfgs) →
  let start := time_truncate now Minute in
  let before := view k start (windows (sweepLocked now s)) in
  (view k start (windows s') = before ∧ outcome_tokens k start res = 0)
  ∨ ∃ p, pd_config p ∈ cfgs ∧ pd_key p = k ∧ view k start (windows s') = committed p before
      ∧ tpm_admits est before (pd_config p)
      ∧ pd_tpmDelta p = match cfg_TPMLimit (pd_config p) with Some _ => est | None => 0 end
      ∧ outcome_tokens k start res = pd_tpmDelta p.
Proof.
  intros Hacq Hnd start before.
  destruct (acquireLocked_spec _ _ _ _ _ _ _ Hacq Hnd) as (_ & _ & _ & _ & Hr). fold start in Hr.
  destruct res as [[r|]|e]; [|left; by destruct Hr as [_ ->]..].
  destruct Hr as (-> & Hin & Hout).
  assert (Hnd' : NoDup (pd_key <$> pendingOf est cfgs))
    by (eapply sublist_NoDup; [exact Hnd|apply pendingOf_keys]).
  destruct (scope_sum_entries rs_ReservedTokens start (windows (sweepLocked now s))
              (pendingOf est cfgs) k Hnd') as [Hsin Hsout].
  unfold outcome_tokens, tokens_by. simpl. rewrite Z.eqb_refl.
  destruct (decide (k ∈ pd_key <$> pendingOf est cfgs)) as [Hk|Hk].
  - apply list_elem_of_fmap in Hk as (p & -> & Hp). right. exists p.
    destruct (Hin p Hp) as (_ & Ht & Hv). rewrite (Hsin p Hp eq_refl).
    apply pendingOf_elem in Hp as (? & _ & ?). done.
  - left. by rewrite Hsout, Hout.
Qed.

(** An acquisition adds to the tokens of the minute exactly what its reservation
    records, and stays below the limit of the scope. *)
Lemma acquireLocked_reserved cap now est cfgs head s s' res :
  acquireLocked now est cfgs head s = (s', res) → NoDup (cfg_ScopeKey <$> cfgs) →
  0 ≤ est ≤ max_int64 → windows_ok now (windows s) →
  (∀ cfg limit, cfg ∈ cfgs → cfg_TPMLimit cfg = Some limit → limit ≤ cap (cfg_ScopeKey cfg)) →
  (∀ k win, windows s !! k = Some win → w_tpmActual win + w_tpmReserved win + est ≤ max_int64) →
  let start := time_truncate now Minute in
  windows_ok now (windows s') ∧
  ∀ k, reserved_of k start (windows s')
         = reserved_of k start (windows s) + outcome_tokens k start res
       ∧ (reserved_of k start (windows s') = reserved_of k start (windows s)
          ∨ reserved_of k start (windows s') ≤ cap k).
Proof.
  intros Hacq Hnd Hest Hok Hcap Hroom start.
  pose proof (acquireLocked_only now est cfgs head s) as Honly. rewrite Hacq in Honly. simpl in Honly.
  pose proof (λ k, acquireLocked_view _ _ _ _ _ _ _ k Hacq Hnd) as Hafter.
  fold start in Hafter, Honly. simpl in Hafter.
  set (V k := view k start (windows (sweepLocked now s))) in *.
  assert (HVr : ∀ k, w_tpmReserved (V k) = reserved_of k start (windows s))
    by (intros k; apply (sweep_reserved now s k)).
  assert (HV : ∀ k, 0 ≤ w_tpmActual (V k) ∧ 0 ≤ w_tpmReserved (V k)
                   ∧ w_tpmActual (V k) + w_tpmReserved (V k) + est ≤ max_int64).
  { intros k. rewrite HVr.
    rewrite (sweep_actual now s k : w_tpmActual (V k) = w_tpmActual (view k start (windows s))).
    rewrite reserved_of_alt, view_actual_alt.
    destruct (windows s !! k) as [w|] eqn:E; [|lia].
    destruct (Hok k w E) as (? & ? & ?). specialize (Hroom k w E).
    destruct (w_windowStart w =? start); lia. }
  split.
  - intros k w Hk. destruct (Honly k w Hk) as [Hs|Hold]; [|by apply (Hok k)].
    pose proof (view_of_lookup k start (windows s') w Hk Hs) as Hw. split; [fold start; lia|].
    rewrite <- Hw. destruct (HV k) as (? & ? & ?).
    destruct (Hafter k) as [[Hv _]|(p & _ & _ & Hv & Hadm & Hd & _)];
      change (view k start (windows (sweepLocked now s))) with (V k) in *; rewrite Hv; [done|].
    destruct (committed_reserved est p (V k)) as (-> & ? & _); [done..|]. simpl. lia.
  - intros k. unfold reserved_of at 1 3 5. destruct (HV k) as (? & ? & ?).
    destruct (Hafter k) as [[Hv Ht]|(p & Hcfg & Hkey & Hv & Hadm & Hd & Ht)];
      change (view k start (windows (sweepLocked now s))) with (V k) in *; rewrite Hv, Ht.
    + rewrite HVr. split; [lia|by left].
    + destruct (committed_reserved est p (V k)) as (-> & ? & Hlim); [done..|].
      rewrite HVr in *. split; [done|].
      destruct Hlim as [->|(limit & El & Hle)]; [left; lia|right].
      specialize (Hcap _ _ Hcfg El). unfold pd_key in Hkey. rewrite Hkey in Hcap. lia.
Qed.

Lemma settleScope_lookup start actual sc s k :
  windows (settleScope start actual sc s) !! k =
    if bool_decide (rs_ScopeKey sc = k) then settledWindow start actual sc <$> windows s !! k
    else windows s !! k.
Proof.
  unfold settleScope. case_bool_decide as Hk.
  - subst k. destruct (windows s !! rs_ScopeKey sc) as [w|] eqn:E; simpl; [|by rewrite E].
    by rewrite lookup_insert_eq.
  - destruct (windows s !! rs_ScopeKey sc) as [w|] eqn:E; simpl; [|done].
    rewrite lookup_insert_ne by done.
    destruct (rs_RPMHeld sc); [by rewrite windows_sendRelease|done].
Qed.

Lemma settle_fold_out start actual scs s k :
  k ∉ rs_ScopeKey <$> scs →
  windows (fold_left (λ s sc, settleScope start actual sc s) scs s) !! k = windows s !! k.
Proof.
  revert s; induction scs as [|sc scs IH]; intros s; simpl; [done|].
  intros [Hne Hk]%not_elem_of_cons. rewrite IH by done.
  by rewrite settleScope_lookup, bool_decide_eq_false_2.
Qed.

Lemma settle_fold_in start actual scs s sc :
  NoDup (rs_ScopeKey <$> scs) → sc ∈ scs →
  windows (fold_left (λ s sc, settleScope start actual sc s) scs s) !! rs_ScopeKey sc
  = settledWindow start actual sc <$> windows s !! rs_ScopeKey sc.
Proof.
  revert s; induction scs as [|sc' scs IH]; intros s; simpl; [by intros _ ?%not_elem_of_nil|].
  intros [Hni Hnd]%list.NoDup_cons [->|Hin]%elem_of_cons.
  - by rewrite settle_fold_out, settleScope_lookup, bool_decide_eq_true_2.
  - rewrite IH, settleScope_lookup, bool_decide_eq_false_2; [done| |done|done].
    intros Heq. apply Hni. rewrite Heq. by apply list_elem_of_fmap_2.
Qed.

(** Settling the reservation [r] changes the window of a scope only when the
    scope is one of [r]'s. *)
Lemma Settle_lookup r actual s k :
  NoDup (rs_ScopeKey <$> res_Scopes r) →
  (windows (Settle r actual s) !! k = windows s !! k ∧ k ∉ rs_ScopeKey <$> res_Scopes r)
  ∨ ∃ sc, sc ∈ res_Scopes r ∧ rs_ScopeKey sc = k ∧
      windows (Settle r actual s) !! k
      = settledWindow (res_WindowStart r) (Z.max 0 actual) sc <$> windows s !! k.
Proof.
  intros Hnd. destruct (decide (k ∈ rs_ScopeKey <$> res_Scopes r)) as [Hk|Hk].
  - right. apply list_elem_of_fmap in Hk as (sc & -> & Hsc). exists sc.
    split_and!; [done..|]. by apply settle_fold_in.
  - left. split; [|done]. by apply settle_fold_out.
Qed.

Lemma Settle_windows_ok t r actual s :
  reservation_ok t r → windows_ok t (windows s) →
  (∀ k w, windows s !! k = Some w → w_tpmActual w + Z.max 0 actual ≤ max_int64) →
  windows_ok t (windows (Settle r actual s)).
Proof.
  intros (_ & Hnd & Hpos) Hok Hroom k w' Hk.
  destruct (Settle_lookup r actual s k Hnd) as [[Heq _]|(sc & Hsc & Hkey & Heq)];
    rewrite Heq in Hk; [by apply (Hok k)|].
  apply fmap_Some in Hk as (w & Hw & ->).
  destruct (Hok k w Hw) as (Hst & Hact & Hres). specialize (Hroom k w Hw). simpl.
  destruct (_ && _); [|done].
  rewrite add64_small by (unfold in_int64, min_int64, max_int64 in *; lia). lia.
Qed.

Lemma Settle_reserved t k start r actual s :
  reservation_ok t r → windows_ok t (windows s) →
  tokens_by k start r ≤ reserved_of k start (windows s) ≤ max_int64 →
  reserved_of k start (windows (Settle r actual s))
  = reserved_of k start (windows s) - tokens_by k start r.
Proof.
  intros (_ & Hnd & Hpos) Hok Hle. unfold tokens_by in *. rewrite !reserved_of_alt in *.
  destruct (Settle_lookup r actual s k Hnd) as [[-> Hk]|(sc & Hsc & <- & ->)].
  { rewrite scope_sum_out in * by done. destruct (_ =? start); lia. }
  rewrite scope_sum_in in * by done. specialize (Hpos sc Hsc).
  destruct (windows s !! rs_ScopeKey sc) as [w|] eqn:Hw; simpl in *;
    [|destruct (res_WindowStart r =? start); lia].
  destruct (Hok _ w Hw) as (_ & _ & Hres).
  destruct (Z.eqb_spec (res_WindowStart r) start) as [Heq|Hne],
           (Z.eqb_spec (w_windowStart w) start) as [Hst|Hst],
           (Z.eqb_spec (w_windowStart w) (res_WindowStart r)) as [Hw'|Hw'];
    simpl in *; try congruence; rewrite ?andb_true_r, ?andb_false_r; try lia.
  destruct (Z.ltb_spec 0 (rs_ReservedTokens sc)); [|lia].
  rewrite sub64_small by (unfold in_int64, min_int64, max_int64 in *; lia). lia.
Qed.

Lemma releaseSignal_reserved key s k start :
  reserved_of k start (windows (snd (releaseSignal key s))) = reserved_of k start (windows s).
Proof.
  rewrite !reserved_of_alt. unfold releaseSignal.
  destruct (decide (key = k)) as [<-|Hne];
    destruct (w_release _); simpl; rewrite ?lookup_insert_eq, ?(lookup_insert_ne _ _ _ _ Hne);
    try done; destruct (windows s !! key); simpl; try done; by destruct start.
Qed.

Lemma releaseSignal_windows_ok t key s :
  0 ≤ t → windows_ok t (windows s) → windows_ok t (windows (snd (releaseSignal key s))).
Proof.
  intros Ht Hok k w. pose proof (time_truncate_mono 0 t Minute eq_refl Ht) as Hmono.
  change (time_truncate 0 Minute) with 0 in Hmono.
  unfold releaseSignal. destruct (decide (key = k)) as [<-|Hne];
    destruct (w_release _); simpl;
    rewrite ?lookup_insert_eq, ?(lookup_insert_ne _ _ _ _ Hne); try apply Hok;
    intros [= <-]; destruct (windows s !! key) as [w0|] eqn:E; simpl; try (by apply (Hok key)); lia.
Qed.

Lemma tpm_inv_acquire cap w now est cfgs head :
  (∀ k, cap k ≤ max_int64) → tpm_inv cap w → ok_tpm cap w (LAcquire now est cfgs head) →
  tpm_inv cap (exec w (LAcquire now est cfgs head)).
Proof.
  intros Hcap (Hf & Hclk & Hwin & Hres & Hinv) (Hnow & Hest & Hnd & Hlim & Hroom).
  split; [by apply fresh_inv_exec|]. simpl.
  destruct (acquireLocked now est cfgs head (svc w)) as [s res] eqn:Hacq.
  pose proof (windows_ok_later _ now _ Hnow Hwin) as Hwin'.
  destruct (acquireLocked_reserved cap _ _ _ _ _ _ _ Hacq Hnd Hest Hwin' Hlim Hroom) as [Hok Hsum].
  assert (Hbase : ∀ k, let start := time_truncate now Minute in
            reserved_of k start (windows (svc w)) = reserved k start (live w)
            ∧ reserved_of k start (windows (svc w)) ≤ Z.max 0 (cap k)).
  { intros k start. pose proof (time_truncate_mono _ _ Minute eq_refl Hnow) as Hmono.
    destruct (decide (start = time_truncate (clk w) Minute)) as [->|Hne]; [apply Hinv|].
    rewrite (reserved_of_new_minute (clk w)), (reserved_new_minute (clk w));
      [lia|unfold start in *; lia|done|unfold start in *; lia|done]. }
  assert (Hres' : ∀ id r, live w !! id = Some r → reservation_ok now r)
    by (intros id r Hr; eapply reservation_ok_later; [exact Hnow|by eapply Hres]).
  assert (Hcommon : ∀ r, res = Ok (Some r) → reservation_ok now r).
  { intros r ->. destruct (acquireLocked_spec _ _ _ _ _ _ _ Hacq Hnd) as (_ & _ & _ & _ & -> & _).
    split_and!; simpl; [done| |].
    - rewrite entries_keys. eapply sublist_NoDup; [exact Hnd|apply pendingOf_keys].
    - intros sc (p & -> & Hp)%list_elem_of_fmap. simpl. apply pendingOf_elem in Hp as (_ & _ & ->).
      case_match; lia. }
  assert (clk w `max` now = now) as Hmax by lia. rewrite Z.max_comm in Hmax.
  unfold outcome_tokens in Hsum.
  destruct res as [[r|]|e]; simpl; rewrite Hmax; split_and!; try done; try lia.
  - intros id r'. rewrite lookup_insert. case_decide; [intros [= <-]; by apply Hcommon|by apply Hres'].
  - intros k. destruct (Hbase k) as [Hb1 Hb2], (Hsum k) as [Hs1 Hs2].
    unfold reserved. rewrite map_sum_insert by (by apply fresh_inv_next).
    fold (reserved k (time_truncate now Minute) (live w)). split; lia.
  - intros k. destruct (Hbase k) as [Hb1 Hb2], (Hsum k) as [Hs1 Hs2]. split; lia.
  - intros k. destruct (Hbase k) as [Hb1 Hb2], (Hsum k) as [Hs1 Hs2]. split; lia.
Qed.

Lemma tpm_inv_settle cap w id actual :
  (∀ k, cap k ≤ max_int64) → tpm_inv cap w → ok_tpm cap w (LSettle id actual) →
  tpm_inv cap (exec w (LSettle id actual)).
Proof.
  intros Hcap (Hf & Hclk & Hwin & Hres & Hinv) ([r Hr] & Hroom).
  split; [by apply fresh_inv_exec|]. simpl. rewrite Hr. simpl.
  pose proof (Hres id r Hr) as Hrok.
  split_and!; [done|by apply Settle_windows_ok| |].
  - intros id' r' [_ ?]%lookup_delete_Some. by eapply Hres.
  - intros k. destruct (Hinv k) as [Heq Hle]. specialize (Hcap k).
    unfold reserved in Heq. rewrite (map_sum_delete _ _ _ _ Hr) in Heq.
    fold (reserved k (time_truncate (clk w) Minute) (delete id (live w))) in Heq.
    assert (0 ≤ reserved k (time_truncate (clk w) Minute) (delete id (live w))).
    { apply (reserved_nonneg (clk w)). intros id' r' [_ ?]%lookup_delete_Some. by eapply Hres. }
    pose proof (tokens_by_nonneg (clk w) k (time_truncate (clk w) Minute) r Hrok).
    rewrite (Settle_reserved (clk w)); [lia|done|done|unfold max_int64 in *; lia].
Qed.

Lemma tpm_inv_reachable cap w :
  (∀ k, cap k ≤ max_int64) → reachable (ok_tpm cap) w → tpm_inv cap w.
Proof.
  intros Hcap. induction 1 as [|w l Hr IH Hok].
  - split_and!; try done.
    + intros id [r Hr]; by simpl in Hr.
    + intros k. simpl. rewrite reserved_of_alt. unfold reserved. rewrite map_sum_empty.
      simpl. rewrite lookup_empty. lia.
  - destruct l as [now est cfgs head|id actual|key|key p|key|c|cs];
      [by apply tpm_inv_acquire|by apply tpm_inv_settle| | | | |];
      destruct IH as (Hf & Hclk & Hwin & Hres & Hinv).
    + unfold tpm_inv; simpl; rewrite enqueueWaiter_windows. done.
    + unfold tpm_inv; simpl; rewrite finishWaiter_windows. done.
    + split_and!; try done; [by apply releaseSignal_windows_ok|].
      intros k. simpl. rewrite releaseSignal_reserved. apply Hinv.
    + by split_and!.
    + by split_and!.
Qed.

(** C26: as long as the clock of the acquisitions does not go back, no estimate is
    negative, and the counters of the windows have room for the estimates and for the
    settled counts (see [token_estimate_overflow]), the [tpmReserved] counter of a
    scope is, in the current minute, exactly the sum of the estimates reserved in that
    minute by the requests that are still running, and it never exceeds the TPM limits
    configured for the scope. *)
Theorem reserved_is_live_estimates (cap : string → Z) (w : World) (k : string) :
  (∀ k, cap k ≤ max_int64) → reachable (ok_tpm cap) w →
  let start := time_truncate (clk w) Minute in
  reserved_of k start (windows (svc w)) = reserved k start (live w)
  ∧ 0 ≤ reserved_of k start (windows (svc w)) ≤ Z.max 0 (cap k).
Proof.
  intros Hcap Hr start. destruct (tpm_inv_reachable cap w Hcap Hr) as (_ & _ & _ & Hres & Hinv).
  destruct (Hinv k) as [Heq Hle]. fold start in Heq, Hle.
  pose proof (reserved_nonneg (clk w) k start (live w) Hres). lia.
Qed.

Lemma inflight_is_held_witness :
  let w := exec initial (LAcquire Minute 0 [mkActive "global" "global" (Some 1) None] "") in
  held "global" (live w) = 1
  ∧ inflight_of "global" (windows (svc w)) = held "global" (live w)
  ∧ 0 ≤ inflight_of "global" (windows (svc w)) ≤ Z.max 0 1.
Proof.
  intros w. split; [by vm_compute|]. apply (inflight_is_held (λ _, 1) w "global").
  - intros k. unfold max_int64. lia.
  - apply reach_exec; [apply reach_initial|]. split; [apply NoDup_singleton|].
    intros cfg limit ->%list_elem_of_singleton [= <-]. lia.
Defined.

Lemma reserved_is_live_estimates_witness :
  let w := exec initial (LAcquire (10 * Minute) 60 [mkActive "global" "global" None (Some 100)] "") in
  reserved "global" (10 * Minute) (live w) = 60
  ∧ reserved_of "global" (10 * Minute) (windows (svc w)) = reserved "global" (10 * Minute) (live w)
  ∧ 0 ≤ reserved_of "global" (10 * Minute) (windows (svc w)) ≤ Z.max 0 100.
Proof.
  intros w. split; [by vm_compute|].
  change (10 * Minute) with (time_truncate (clk w) Minute).
  apply (reserved_is_live_estimates (λ _, 100) w "global").
  - intros k. unfold max_int64. lia.
  - apply reach_exec; [apply reach_initial|]. split_and!.
    + by vm_compute.
    + lia.
    + by vm_compute.
    + apply NoDup_singleton.
    + intros cfg limit ->%list_elem_of_singleton [= <-]. lia.
    + intros k win Hk. done.
Defined.
