(* ===== verification/RateConfig.v ===== *)
(** * Rate limiting: the configuration cache, admission and two ways around it

    The cache of scope configurations ([activeConfigsCached], [setLimit]) against
    the rows of the database, what [acquireLocked] decides, and two inputs on
    which the token limits of [ratelimit/service.go] do not hold: an estimate that
    overflows, and an acquisition whose clock is behind the window. *)

From S2P Require Import Prelude GoFloat RateLimit RateLimitInv.

(** Cached configurations are filed under their own scope key. *)
Definition configs_wf (s : Service) : Prop :=
  ∀ key c cfg, configs s !! key = Some c → cc_config c = Some cfg → cfg_ScopeKey cfg = key.

(** What the limits of a scope should be at [now]: a cached configuration young
    enough, or else the row of the database. *)
Definition scopeConfig `{UuidString} (repo : RateLimitRepository) (apiKeyID : uuid) (now : Z)
    (s : Service) (key : string) : result (option activeConfig) string :=
  match configs s !! key with
  | Some c => if configCacheTTL <? time_sub now (cc_fetchedAt c)
              then fetchConfig repo apiKeyID key else Ok (cc_config c)
  | None => fetchConfig repo apiKeyID key
  end.

(** The limits that apply to a request. *)
Definition effective `{UuidString} (repo : RateLimitRepository) (apiKeyID : uuid) (now : Z)
    (s : Service) (keys : list string) : list activeConfig :=
  omap (λ key, match scopeConfig repo apiKeyID now s key with Ok c => c | Err _ => None end) keys.

(** ** The cache *)

Section Cache.
Context `{UuidString}.

Lemma scopeKeysOf_NoDup id : NoDup (scopeKeysOf id).
Proof.
  unfold scopeKeysOf. apply list.NoDup_cons. split; [|apply NoDup_singleton].
  rewrite list_elem_of_singleton. by intros [=].
Qed.

Lemma fetchConfig_key repo id key cfg :
  fetchConfig repo id key = Ok (Some cfg) → cfg_ScopeKey cfg = key.
Proof.
  unfold fetchConfig. case_match; [|done]. intros [= Hb].
  apply bind_Some in Hb as (row & _ & Hrow). unfold activeConfigFromStore in Hrow.
  repeat (case_match; simplify_eq/=); done.
Qed.

Lemma fetchConfigs_keys repo id keys fetched key cfg :
  fetchConfigs repo id keys = Ok fetched → (key, Some cfg) ∈ fetched → cfg_ScopeKey cfg = key.
Proof.
  revert fetched. induction keys as [|k keys IH]; simpl; intros fetched.
  - intros [= <-] Hin. by apply not_elem_of_nil in Hin.
  - destruct (fetchConfig repo id k) as [c|] eqn:Ef; [|done].
    destruct (fetchConfigs repo id keys) as [l|]; [|done]. intros [= <-].
    intros [[= <- <-]|Hin]%elem_of_cons; [by eapply fetchConfig_key|by apply (IH l)].
Qed.

(** Cached and fetched configurations together are the effective ones. *)
Lemma cachedConfigs_effective repo id now keys s res missing :
  cachedConfigs now keys s = (res, missing) →
  match fetchConfigs repo id missing with
  | Ok fetched => res ++ omap snd fetched ≡ₚ effective repo id now s keys
  | Err e => ∃ key, key ∈ keys ∧ scopeConfig repo id now s key = Err e
  end.
Proof.
  revert res missing. induction keys as [|key keys IH]; simpl; intros res missing.
  { intros [= <- <-]. simpl. constructor. }
  destruct (cachedConfigs now keys s) as [res0 missing0]. specialize (IH _ _ eq_refl). intros Hc.
  assert ((∃ c, scopeConfig repo id now s key = Ok c ∧ missing = missing0
                ∧ res = match c with Some cfg => cfg :: res0 | None => res0 end)
          ∨ scopeConfig repo id now s key = fetchConfig repo id key
            ∧ missing = key :: missing0 ∧ res = res0) as [(c & -> & -> & ->)|(Hs & -> & ->)].
  { unfold scopeConfig. destruct (configs s !! key) as [c|]; [destruct (_ <? _)|].
    2: left; exists (cc_config c); destruct (cc_config c).
    all: simplify_eq; auto. }
  - destruct (fetchConfigs repo id missing0).
    + destruct c; simpl; by rewrite IH.
    + destruct IH as (k & ? & ?). exists k. split; [by right|done].
  - simpl. destruct (fetchConfig repo id key) as [c|e].
    + rewrite Hs. destruct (fetchConfigs repo id missing0).
      * destruct c; simpl; [by rewrite <- Permutation_middle, IH|done].
      * destruct IH as (k & ? & ?). exists k. split; [by right|done].
    + exists key. split; [by left|done].
Qed.

Lemma scopeConfig_key repo id now s key cfg :
  configs_wf s → scopeConfig repo id now s key = Ok (Some cfg) → cfg_ScopeKey cfg = key.
Proof.
  intros Hwf. unfold scopeConfig. destruct (configs s !! key) as [c|] eqn:E; [case_match|];
    intros Hc; try by eapply fetchConfig_key.
  injection Hc as Hc. by eapply Hwf.
Qed.

Lemma effective_keys repo id now s keys :
  configs_wf s → NoDup keys → NoDup (cfg_ScopeKey <$> effective repo id now s keys).
Proof.
  intros Hwf. pose proof (λ k, scopeConfig_key repo id now s k) as Hk.
  induction 1 as [|key keys Hkey Hnd IH]; [constructor|].
  unfold effective in *. simpl. destruct (scopeConfig repo id now s key) as [[cfg|]|] eqn:E; try done.
  apply list.NoDup_cons. split; [|done]. rewrite (Hk _ _ Hwf E).
  intros (cfg' & Heq & Hin)%list_elem_of_fmap. apply list_elem_of_omap in Hin as (k & Hin & Hc).
  destruct (scopeConfig repo id now s k) as [[cfg''|]|] eqn:E'; simplify_eq.
  by rewrite (Hk _ _ Hwf E') in Hkey.
Qed.

Lemma storeConfigs_wf now fetched s :
  configs_wf s → (∀ key cfg, (key, Some cfg) ∈ fetched → cfg_ScopeKey cfg = key) →
  configs_wf (storeConfigs now fetched s).
Proof.
  intros Hwf Hf. unfold storeConfigs, configs_wf. simpl.
  induction fetched as [|[k c] fetched IH]; simpl; [exact Hwf|].
  intros key c' cfg. rewrite lookup_insert. case_decide as Hd.
  - intros [= <-] Hc. simpl in Hc. subst. apply Hf. by left.
  - apply IH. intros key' cfg' Hin. apply Hf. by right.
Qed.

Lemma activeConfigsCached_wf repo id now s s' res :
  activeConfigsCached repo id now s = (s', res) → configs_wf s → configs_wf s'.
Proof.
  unfold activeConfigsCached. destruct (cachedConfigs _ _ _) as [res0 [|m missing]];
    [by intros [= <- <-]|]. destruct (fetchConfigs _ _ _) as [fetched|e] eqn:E; intros [= <- <-] Hwf; [|done].
  apply storeConfigs_wf; [done|]. intros key cfg. by eapply fetchConfigs_keys.
Qed.

Lemma activeConfigsCached_effective repo id now s s' cfgs :
  activeConfigsCached repo id now s = (s', Ok cfgs) →
  cfgs ≡ₚ effective repo id now s (scopeKeysOf id).
Proof.
  unfold activeConfigsCached. destruct (cachedConfigs _ _ _) as [res0 missing] eqn:E.
  pose proof (cachedConfigs_effective repo id _ _ _ _ _ E) as Hc.
  destruct missing as [|m missing]; [intros [= <- <-]; simpl in Hc; by rewrite app_nil_r in Hc|].
  destruct (fetchConfigs _ _ _) as [fetched|e]; [|done]. by intros [= <- <-].
Qed.
End Cache.

(** whatever the cache holds, the limits an acquisition works with are those of
    its two scopes, one at most per scope: each is the cached one when it was
    read no more than [configCacheTTL] ago, and else the row the database has. *)
Theorem configs_are_effective `{UuidString} (repo : RateLimitRepository) (id : uuid) (now : Z)
    (s s' : Service) (cfgs : list activeConfig) :
  activeConfigsCached repo id now s = (s', Ok cfgs) → configs_wf s →
  cfgs ≡ₚ effective repo id now s (scopeKeysOf id)
  ∧ NoDup (cfg_ScopeKey <$> cfgs) ∧ configs_wf s'.
Proof.
  intros Hc Hwf. pose proof (activeConfigsCached_effective _ _ _ _ _ _ Hc) as Hp.
  split; [done|]. split; [|by eapply activeConfigsCached_wf].
  rewrite Hp. apply effective_keys; [done|apply scopeKeysOf_NoDup].
Qed.

(** after an administrator set the limits of an API key, the very next request
    of that key is limited by the row that was written and by nothing older: the
    cached copy is gone, however young it was. *)
Theorem set_limit_takes_effect `{UuidString} (repo repo' : RateLimitRepository) (id : uuid)
    (input : ConfigInput) (s s' s'' : Service) (now : Z) (c : Config) (row : GatewayRateLimit)
    (cfgs : list activeConfig) :
  configs_wf s →
  SetAPIKey (Some repo) id input s = (s', Ok c) →
  repo_Upsert repo "api_key" (Some id)
    (mkConfigInput (normalizeStatus (in_Status input)) (in_RPMLimit input) (in_TPMLimit input))
    = Ok row →
  repo_GetByAPIKey repo' id = Ok (Some row) →
  activeConfigsCached repo' id now s' = (s'', Ok cfgs) →
  let key := ("api_key:" +:+ uuid_String id)%string in
  c = configFromStore row
  ∧ ∀ cfg, cfg ∈ cfgs ∧ cfg_ScopeKey cfg = key ↔ activeConfigFromStore row key = Some cfg.
Proof.
  intros Hwf Hset Hup Hget Hc key.
  assert (s' = invalidateConfig "api_key" id s ∧ c = configFromStore row) as [-> ->].
  { unfold SetAPIKey, setLimit in Hset. repeat (case_match; simplify_eq/=); done. }
  split; [done|]. intros cfg.
  assert (Hkey : scopeConfig repo' id now (invalidateConfig "api_key" id s) key
                 = Ok (activeConfigFromStore row key)).
  { unfold scopeConfig, invalidateConfig, fetchConfig. simpl. rewrite lookup_delete_eq.
    by rewrite Hget. }
  assert (Hwf' : configs_wf (invalidateConfig "api_key" id s)).
  { intros k c' cfg'. simpl. intros [_ ?]%lookup_delete_Some. by eapply Hwf. }
  rewrite (activeConfigsCached_effective _ _ _ _ _ _ Hc). split.
  - intros [Hin Hk]. apply list_elem_of_omap in Hin as (k & _ & Hk').
    destruct (scopeConfig _ _ _ _ k) as [oc|] eqn:E; [subst oc|done].
    assert (k = key) as ->; [|congruence]. rewrite <- Hk. symmetry. by eapply scopeConfig_key.
  - intros Hrow. split; [|].
    + apply list_elem_of_omap. exists key. rewrite Hkey. split; [by right; left|done].
    + eapply (scopeConfig_key repo'); [exact Hwf'|]. by rewrite Hkey, Hrow.
Qed.

(** What [fetchConfigs] brought for [key] is what [storeConfigs] files under it. *)
Lemma storeConfigs_lookup `{UuidString} repo id keys fetched now s key old :
  fetchConfigs repo id keys = Ok fetched → key ∈ keys → fetchConfig repo id key = Ok old →
  configs (storeConfigs now fetched s) !! key = Some (mkCached old now).
Proof.
  unfold storeConfigs. simpl. revert fetched.
  induction keys as [|k keys IH]; simpl; intros fetched Hf Hin Hold; [by apply not_elem_of_nil in Hin|].
  destruct (fetchConfig repo id k) as [c|] eqn:Ek; [|done].
  destruct (fetchConfigs repo id keys) as [l|]; [|done]. simplify_eq/=.
  rewrite lookup_insert. case_decide as Hk; [simpl in Hk; subst k; congruence|].
  apply elem_of_cons in Hin as [Hin|Hin]; [by destruct Hk|]. by apply IH.
Qed.

(** the database is read between the two critical sections of
    [activeConfigsCached].  When an administrator changes the limits of a key in
    that gap, the old limits are filed after the cache entry was dropped, and
    rule for as long as a cached copy lives, whatever the database says. *)
Theorem stale_limits_after_set `{UuidString} (old new : RateLimitRepository) (id : uuid)
    (input : ConfigInput) (s s' : Service) (now later : Z) (keys : list string)
    (fetched : list (string * option activeConfig)) (c : Config) (oldLimits : option activeConfig) :
  let key := ("api_key:" +:+ uuid_String id)%string in
  snd (cachedConfigs now (scopeKeysOf id) s) = keys → key ∈ keys →
  fetchConfigs old id keys = Ok fetched → fetchConfig old id key = Ok oldLimits →
  SetAPIKey (Some new) id input s = (s', Ok c) →
  time_sub later now ≤ configCacheTTL →
  scopeConfig new id later (storeConfigs now fetched s') key = Ok oldLimits.
Proof.
  intros key _ Hin Hf Hold _ Hlater. unfold scopeConfig.
  rewrite (storeConfigs_lookup old id keys fetched now s' key oldLimits) by done.
  cbn [cc_fetchedAt cc_config]. destruct (Z.ltb_spec configCacheTTL (time_sub later now)); [lia|done].
Qed.

(** ** What an acquisition decides *)

(** C39: the decision of [acquire] is exactly: every scope that has a limit has a free
    slot, nobody queued ahead, and room for the estimate. A request that is not
    admitted takes nothing in any scope, so admission is all or nothing. *)
Theorem admission_exact (now est : Z) (cfgs : list activeConfig) (head : string) (s s' : Service)
    (res : result (option Reservation) LimitError) :
  acquireLocked now est cfgs head s = (s', res) → NoDup (cfg_ScopeKey <$> cfgs) →
  let start := time_truncate now Minute in
  let before k := view k start (windows (sweepLocked now s)) in
  ((∃ r, res = Ok (Some r)) ↔
     pendingOf est cfgs ≠ []
     ∧ ∀ p, p ∈ pendingOf est cfgs →
         rpm_admits (queueLen (sweepLocked now s)) head (before (pd_key p)) (pd_config p)
         ∧ tpm_admits est (before (pd_key p)) (pd_config p))
  ∧ ((¬ ∃ r, res = Ok (Some r)) → ∀ k, view k start (windows s') = before k)
  ∧ queues s' = queues s ∧ waiters s' = waiters s.
Proof.
  intros Hacq Hnd start before.
  destruct (acquireLocked_spec _ _ _ _ _ _ _ Hacq Hnd) as (Hq & Hw & _ & _ & Hr).
  fold start in Hr. destruct res as [[r|]|e].
  - destruct Hr as (-> & Hin & _). split_and!; [|by intros []; eauto|done..].
    split; [|by eauto]. intros _. split; [|intros p Hp; by destruct (Hin p Hp) as (? & ? & _)].
    intros Hnil. unfold acquireLocked in Hacq.
    destruct (checkScopes _ _ _ _ _ _ _) as [ws1 [pending|]] eqn:Ec; [|done].
    apply checkScopes_spec in Ec as [_ [-> _]]. by rewrite Hnil in Hacq.
  - destruct Hr as [Hnil Hr]. split_and!; [|done..]. split; [by intros []|by intros [? _]].
  - destruct Hr as [(p & Hp & _ & Hlim) Hr]. split_and!; [|done..].
    split; [by intros []|intros [_ Hall]]. destruct (Hall p Hp) as [Hrpm Htpm].
    by destruct Hlim as [[_ Hn]|[_ Hn]].
Qed.

(** ** Two ways around the token limit *)

(** The number 9223372036854774784, the largest float64 below 2^63. *)
Definition largestFloat : float64 := of_int 9223372036854774784.

(** the estimate of a request that asks for that many output tokens and has a
    prompt of at least 1024 tokens overflows to a negative number, and then no
    token limit is checked: the request is admitted whatever the limit is, and
    the reserved tokens of the minute go down. *)
Theorem token_estimate_overflow `{GoRuntime} (payload : gmap string any) (bytes now limit : Z)
    (key : string) (s : Service) :
  payload !! "max_tokens" = Some (AnyFloat64 largestFloat) →
  marshal_len (filter (λ kv, kv.1 ∉ notPromptKeys) payload) = Some bytes →
  4096 ≤ bytes ≤ 1099511627776 →
  let est := EstimateTokens (Some payload) in
  est < 0
  ∧ ∃ s' r, acquireLocked now est [mkActive "api_key" key None (Some limit)] "" s = (s', Ok (Some r)).
Proof.
  intros Hmax Hlen Hbytes est.
  assert (Hest : est < 0).
  { assert (Hout : outputTokenReservation payload = 9223372036854774784)
      by (unfold outputTokenReservation; rewrite Hmax; by vm_compute).
    unfold est, EstimateTokens, estimatePromptTokens. rewrite Hlen, Hout. cbv zeta.
    assert (1024 ≤ bytes `quot` 4 ≤ 274877906944) by (Z.quot_rem_to_equations; lia).
    destruct (Z.ltb_spec (bytes `quot` 4) 1); [lia|].
    unfold add64, wrap64, two63, two64. Z.div_mod_to_equations. lia. }
  split; [done|].
  destruct (acquireLocked now est _ "" s) as [s' res] eqn:Hacq. exists s'.
  pose proof (acquireLocked_spec _ _ _ _ _ _ _ Hacq (NoDup_singleton _)) as (_ & _ & _ & _ & Hr).
  unfold pendingOf in Hr. simpl in Hr. destruct (Z.eqb_spec est 0); [lia|]. simpl in Hr.
  destruct res as [[r|]|e]; [by exists r|by destruct Hr|].
  destruct Hr as [(p & ->%list_elem_of_singleton & _ & [[_ Hn]|[_ Hn]]) _]; exfalso; apply Hn.
  - by intros l.
  - intros l _ Hpos. lia.
Qed.

(** an acquisition whose clock is behind the window rolls the window back and
    forgets what the newer minute reserved: here the requests running in one
    minute hold 120 tokens of a limit of 100. *)
Theorem window_rollback_exceeds_limit :
  let cfgs := [mkActive "global" "global" None (Some 100)] in
  let w := run initial
             [LAcquire (10 * Minute) 60 cfgs ""; LAcquire (10 * Minute - 1) 60 cfgs "";
              LAcquire (10 * Minute + 1) 60 cfgs ""] in
  reserved "global" (10 * Minute) (live w) = 120
  ∧ reserved_of "global" (10 * Minute) (windows (svc w)) = 60.
Proof. by vm_compute. Qed.

(** ** Instances *)

Definition plainKeys : UuidString := λ id, String (ascii_of_N id) EmptyString.

(** A database with one row, for the API key 7. *)
Definition oneKeyRow (status : string) (rpm : option Z) : RateLimitRepository :=
  mkRepo (Ok None)
    (λ id, if decide (id = 7%N) then Ok (Some (mkRow "api_key" status rpm None)) else Ok None)
    (λ _ _ input, Ok (mkRow "api_key" (in_Status input) (in_RPMLimit input) (in_TPMLimit input))).

Lemma configs_wf_new : configs_wf NewService.
Proof. intros k c cfg Hk. done. Qed.

Lemma configs_are_effective_witness :
  ∃ s' cfgs, @activeConfigsCached plainKeys (oneKeyRow "enabled" (Some 3)) 7%N Minute NewService
             = (s', Ok cfgs)
    ∧ length cfgs = 1%nat
    ∧ NoDup (cfg_ScopeKey <$> cfgs).
Proof.
  eexists _, _. split; [by vm_compute|]. split; [done|].
  eapply (@configs_are_effective plainKeys (oneKeyRow "enabled" (Some 3)) 7%N Minute NewService);
    [by vm_compute|apply configs_wf_new].
Defined.

Lemma set_limit_takes_effect_witness :
  let repo := oneKeyRow "enabled" (Some 3) in
  let key := ("api_key:" +:+ @uuid_String plainKeys 7%N)%string in
  ∃ s' s'' c cfgs,
    @SetAPIKey plainKeys (Some repo) 7%N (mkConfigInput "enabled" (Some 3) None) NewService
      = (s', Ok c)
    ∧ @activeConfigsCached plainKeys repo 7%N Minute s' = (s'', Ok cfgs)
    ∧ mkActive "api_key" key (Some 3) None ∈ cfgs.
Proof.
  intros repo key. eexists _, _, _, _. split; [by vm_compute|]. split; [by vm_compute|].
  eapply (@set_limit_takes_effect plainKeys repo repo 7%N (mkConfigInput "enabled" (Some 3) None)
            NewService _ _ Minute _ (mkRow "api_key" "enabled" (Some 3) None));
    [apply configs_wf_new|by vm_compute|by vm_compute|by vm_compute|by vm_compute|by vm_compute].
Defined.

Lemma admission_exact_witness :
  ∃ s' r, acquireLocked Minute 0 [mkActive "global" "global" (Some 1) None] "" NewService
          = (s', Ok (Some r))
    ∧ queues s' = queues NewService
    ∧ pendingOf 0 [mkActive "global" "global" (Some 1) None] ≠ [].
Proof.
  eexists _, _. split; [by vm_compute|].
  destruct (admission_exact Minute 0 [mkActive "global" "global" (Some 1) None] "" NewService _ _
              eq_refl (NoDup_singleton _)) as (Hiff & _ & Hq & _).
  split; [exact Hq|]. apply Hiff. eexists. by vm_compute.
Defined.

Definition longPrompt : GoRuntime :=
  {| marshal_len _ := Some 5000; float_out_of_range _ := min_int64 |}.

Lemma token_estimate_overflow_witness :
  let est := @EstimateTokens longPrompt (Some {["max_tokens" := AnyFloat64 largestFloat]}) in
  est = -9223372036854775582
  ∧ ∃ s' r, acquireLocked Minute est [mkActive "api_key" "k" None (Some 1)] "" NewService
            = (s', Ok (Some r)).
Proof.
  intros est. split; [by vm_compute|].
  apply (@token_estimate_overflow longPrompt {["max_tokens" := AnyFloat64 largestFloat]}
           5000 Minute 1 "k" NewService); [by vm_compute|done|lia].
Defined.

Lemma stale_limits_after_set_witness :
  let old := oneKeyRow "enabled" (Some 3) in
  let new := oneKeyRow "enabled" (Some 1) in
  let key := ("api_key:" +:+ @uuid_String plainKeys 7%N)%string in
  ∃ fetched s' c,
    fetchConfigs old 7%N (@scopeKeysOf plainKeys 7%N) = Ok fetched
    ∧ @SetAPIKey plainKeys (Some new) 7%N (mkConfigInput "enabled" (Some 1) None) NewService
      = (s', Ok c)
    ∧ fetchConfig new 7%N key = Ok (Some (mkActive "api_key" key (Some 1) None))
    ∧ @scopeConfig plainKeys new 7%N (Minute + 20 * Second) (storeConfigs Minute fetched s') key
      = Ok (Some (mkActive "api_key" key (Some 3) None)).
Proof.
  intros old new key. eexists _, _, _. split; [by vm_compute|]. split; [by vm_compute|].
  split; [by vm_compute|].
  eapply (@stale_limits_after_set plainKeys old new 7%N (mkConfigInput "enabled" (Some 1) None)
            NewService _ Minute (Minute + 20 * Second) (@scopeKeysOf plainKeys 7%N));
    [by vm_compute|by right; left|by vm_compute|by vm_compute|by vm_compute|by vm_compute].
Defined.
