(* ===== verification/RateQueue.v ===== *)
(** * Rate limiting: waiting for a slot

    [acquireQueued] of [ratelimit/queue.go] as a process: the program counter of a
    call, the clock readings and wake-ups it may see, and the service it shares
    with every other call. The queues are shown to be fair and live, and two ways
    in which a call can be answered wrongly are exhibited. *)

From S2P Require Import Prelude GoFloat RateLimit RateLimitInv RateConfig.
From Stdlib Require Import Sorted.

(** ** The process *)


(** What [acquireQueued] fails with: an error of [acquire], or the context's. *)
Inductive queueError :=
| QAcquire (e : acquireError)
| QContext.

(** How the inner loop of [acquireQueued] was left. *)
Inductive innerExit :=
| ExitAcquired (r : option Reservation)   (* err == nil *)
| ExitTerminal (e : queueError)           (* terminalErr *)
| ExitScopeChanged.

Inductive qpc :=
| PStart
| PLoop
| PWaitReady (queueScope : string) (waiter : ptr)
| PHead (queueScope : string) (waiter : ptr)
| PArm (queueScope : string) (waiter : ptr)
| PWaitRelease (queueScope : string) (waiter : ptr) (release : ptr)
| PTokens (queueScope : string) (waiter : ptr)
| PSleep (queueScope : string) (waiter : ptr)
| PFinish (queueScope : string) (waiter : ptr) (exit : innerExit)
| PDone (answer : result (option Reservation) queueError).

(** A call: its input, the deadline, the latest limit error and where it is. *)
Record Call := mkCall {
  call_input : AcquireInput;
  call_deadline : Z;
  call_limitErr : LimitError;
  call_pc : qpc
}.

Inductive qevent :=
| Tick (now : Z)     (* the code runs on, and nowFn() answers [now] *)
| Ready              (* the ready channel of the waiter is closed *)
| Token              (* a value arrives on the release channel *)
| Elapsed            (* the timer fires *)
| CtxDone.           (* the context is cancelled *)

Section Process.
Context `{GoRuntime} `{UuidString}.

Definition queueWaitImpossible (limitErr : LimitError) (input : AcquireInput) : bool :=
  if negb (bool_decide (le_LimitType limitErr = "tpm")) || (le_Limit limitErr <=? 0)
     || negb (req_EstimateTPM input) then false
  else le_Limit limitErr <? EstimateTokens (req_Payload input).

Definition at_time (now : Z) (input : AcquireInput) : AcquireInput :=
  mkInput (req_APIKeyID input) (req_Endpoint input) (req_Payload input) (req_EstimateTPM input) now.

Definition goto (c : Call) (pc : qpc) : Call :=
  mkCall (call_input c) (call_deadline c) (call_limitErr c) pc.
Definition limited (c : Call) (e : LimitError) (pc : qpc) : Call :=
  mkCall (call_input c) (call_deadline c) e pc.

(** One attempt while the call waits at the head of [queueScope]. *)
Definition headAttempt (db : option RateLimitRepository) (now : Z) (queueScope : string)
    (waiter : ptr) (c : Call) (s : Service) : Call * Service :=
  match acquire db now (at_time now (call_input c)) queueScope s with
  | (s', Ok r) => (goto c (PFinish queueScope waiter (ExitAcquired r)), s')
  | (s', Err (ErrStore e)) =>
      (goto c (PFinish queueScope waiter (ExitTerminal (QAcquire (ErrStore e)))), s')
  | (s', Err (ErrLimit e)) =>
      if negb (bool_decide (le_ScopeKey e = queueScope)) then
        (limited c e (PFinish queueScope waiter ExitScopeChanged), s')
      else if bool_decide (le_LimitType e = "rpm") then (limited c e (PArm queueScope waiter), s')
      else (limited c e (PTokens queueScope waiter), s')
  end.

(** The answer once the waiter is finished; [None] goes round the outer loop. *)
Definition afterFinish (limitErr : LimitError) (exit : innerExit)
    : option (result (option Reservation) queueError) :=
  match exit with
  | ExitAcquired (Some r) => Some (Ok (Some r))
  | ExitAcquired None => Some (Err (QAcquire (ErrLimit limitErr)))
  | ExitTerminal e => Some (Err e)
  | ExitScopeChanged => None
  end.

Definition qstep (db : option RateLimitRepository) (c : Call) (ev : qevent) (s : Service)
    : option (Call * Service) :=
  match call_pc c, ev with
  | PStart, Tick now =>
      let start := if req_RequestedAt (call_input c) =? 0 then now
                   else req_RequestedAt (call_input c) in
      let attempt := at_time start (call_input c) in
      let c' := mkCall (call_input c) (start + queueMaxWait) (call_limitErr c) in
      Some match acquire db now attempt "" s with
           | (s', Ok r) => (c' (PDone (Ok r)), s')
           | (s', Err (ErrLimit e)) => (limited (c' PLoop) e PLoop, s')
           | (s', Err e) => (c' (PDone (Err (QAcquire e))), s')
           end
  | PLoop, Tick now =>
      let refused := goto c (PDone (Err (QAcquire (ErrLimit (call_limitErr c))))) in
      if queueWaitImpossible (call_limitErr c) (call_input c) then Some (refused, s)
      else if call_deadline c <? now then Some (refused, s)
      else
        let queueScope := le_ScopeKey (call_limitErr c) in
        Some match enqueueWaiter queueScope s with
             | (s', Some waiter) => (goto c (PWaitReady queueScope waiter), s')
             | (s', None) => (refused, s')
             end
  | PWaitReady queueScope waiter, Ready =>
      if default false (wt_ready <$> waiters s !! waiter)
      then Some (goto c (PHead queueScope waiter), s) else None
  | PWaitReady queueScope waiter, CtxDone =>
      Some (goto c (PDone (Err QContext)), finishWaiter queueScope waiter s)
  | PHead queueScope waiter, Tick now => Some (headAttempt db now queueScope waiter c s)
  | PArm queueScope waiter, Tick now =>
      let remaining := time_sub (call_deadline c) now in
      if remaining <=? 0 then
        Some (goto c (PFinish queueScope waiter
                        (ExitTerminal (QAcquire (ErrLimit (call_limitErr c))))), s)
      else
        let '(release, s') := releaseSignal queueScope s in
        Some (goto c (PWaitRelease queueScope waiter release), s')
  | PWaitRelease queueScope waiter release, Token =>
      if default false (chans s !! release)
      then Some (goto c (PHead queueScope waiter), set_chans (<[release := false]> (chans s)) s)
      else None
  | PWaitRelease queueScope waiter _, Elapsed =>
      Some (goto c (PFinish queueScope waiter
                      (ExitTerminal (QAcquire (ErrLimit (call_limitErr c))))), s)
  | PWaitRelease queueScope waiter _, CtxDone | PSleep queueScope waiter, CtxDone =>
      Some (goto c (PFinish queueScope waiter (ExitTerminal QContext)), s)
  | PTokens queueScope waiter, Tick now =>
      let wait := mul64 (le_RetryAfterSeconds (call_limitErr c)) Second in
      if call_deadline c <? now + wait then
        Some (goto c (PFinish queueScope waiter
                        (ExitTerminal (QAcquire (ErrLimit (call_limitErr c))))), s)
      else Some (goto c (PSleep queueScope waiter), s)
  | PSleep queueScope waiter, Elapsed => Some (goto c (PHead queueScope waiter), s)
  | PFinish queueScope waiter exit, Tick _ =>
      let s' := finishWaiter queueScope waiter s in
      Some match afterFinish (call_limitErr c) exit with
           | Some answer => (goto c (PDone answer), s')
           | None => (goto c PLoop, s')
           end
  | _, _ => None
  end.

(** ** Calls sharing the service *)

Record Sys := mkSys { sys_svc : Service; sys_calls : gmap nat Call }.

Inductive sysstep : Sys → Sys → Prop :=
| sys_arrive i input s cs :
    cs !! i = None →
    sysstep (mkSys s cs) (mkSys s (<[i := mkCall input 0 (mkLimitError "" "" "" 0 0) PStart]> cs))
| sys_call db i c ev c' s s' cs :
    cs !! i = Some c → qstep db c ev s = Some (c', s') →
    sysstep (mkSys s cs) (mkSys s' (<[i := c']> cs))
| sys_acquire db now input s cs :
    sysstep (mkSys s cs) (mkSys (fst (acquire db now input "" s)) cs)
| sys_settle r actual s cs : sysstep (mkSys s cs) (mkSys (Settle r actual s) cs)
| sys_limit db id input s cs : sysstep (mkSys s cs) (mkSys (fst (SetAPIKey db id input s)) cs)
| sys_global db input s cs : sysstep (mkSys s cs) (mkSys (fst (SetGlobal db input s)) cs).

(** The waiter a call stands in a queue with. *)
Definition place (c : Call) : option (string * ptr) :=
  match call_pc c with
  | PWaitReady k p | PHead k p | PArm k p | PWaitRelease k p _ | PTokens k p | PSleep k p
  | PFinish k p _ => Some (k, p)
  | PStart | PLoop | PDone _ => None
  end.

(** Before its turn, and once it has it. *)
Definition waiting (c : Call) : bool :=
  match call_pc c with PWaitReady _ _ => true | _ => false end.
End Process.

Definition queue (s : Service) (key : string) : list ptr := default [] (queues s !! key).

(** The queues by themselves: bounded, in order of arrival, exactly the first
    waiter is ready, and it has not left. *)
Definition queue_inv (s : Service) : Prop :=
  (∀ p, is_Some (waiters s !! p) → (p < nextPtr s)%nat)
  ∧ (∀ k, (length (queue s k) ≤ queueMaxDepth)%nat ∧ StronglySorted lt (queue s k))
  ∧ (∀ k i p, queue s k !! i = Some p →
       ∃ w, waiters s !! p = Some w ∧ wt_ready w = bool_decide (i = 0%nat)
            ∧ (i = 0%nat → wt_abandoned w = false))
  ∧ (∀ k k' p, p ∈ queue s k → p ∈ queue s k' → k = k').

(** Every call that has a place stands in that queue, has it for itself, and every
    waiter that did not leave belongs to a call. *)
Definition sys_inv (y : Sys) : Prop :=
  queue_inv (sys_svc y)
  ∧ (∀ i c k p, sys_calls y !! i = Some c → place c = Some (k, p) →
       p ∈ queue (sys_svc y) k
       ∧ (∃ w, waiters (sys_svc y) !! p = Some w ∧ wt_abandoned w = false
               ∧ (wt_ready w = false → waiting c = true)))
  ∧ (∀ i j c d k p, sys_calls y !! i = Some c → sys_calls y !! j = Some d →
       place c = Some (k, p) → place d = Some (k, p) → i = j)
  ∧ (∀ k p w, p ∈ queue (sys_svc y) k → waiters (sys_svc y) !! p = Some w →
       wt_abandoned w = false → ∃ i c, sys_calls y !! i = Some c ∧ place c = Some (k, p)).

(** ** Operations that leave the queues alone *)

Definition same_queues (s s' : Service) : Prop :=
  queues s' = queues s ∧ waiters s' = waiters s ∧ (nextPtr s ≤ nextPtr s')%nat.

#[export] Instance same_queues_preorder : PreOrder same_queues.
Proof.
  split; [by intros s|]. intros s1 s2 s3 (? & ? & ?) (? & ? & ?). split_and!; try congruence. lia.
Qed.

Lemma acquireLocked_same now est cfgs head s :
  same_queues s (fst (acquireLocked now est cfgs head s)).
Proof.
  unfold acquireLocked, sweepLocked. destruct (time_sub _ _ <? _);
    destruct (checkScopes _ _ _ _ _ _ _) as [ws [[|p ps]|e]]; try done;
    destruct (commitScopes _ _ _) as [scs ws2]; done.
Qed.

Lemma activeConfigsCached_same `{UuidString} repo id now s :
  same_queues s (fst (activeConfigsCached repo id now s)).
Proof.
  unfold activeConfigsCached. destruct (cachedConfigs _ _ _) as [res [|m ms]]; [done|].
  by destruct (fetchConfigs _ _ _).
Qed.

Lemma acquire_same `{GoRuntime} `{UuidString} db now input head s :
  same_queues s (fst (acquire db now input head s)).
Proof.
  unfold acquire. destruct db as [repo|]; [|done]. case_bool_decide; [done|]. cbv zeta.
  set (t := if req_RequestedAt input =? 0 then now else req_RequestedAt input).
  set (est := if req_EstimateTPM input then EstimateTokens (req_Payload input) else 0).
  pose proof (activeConfigsCached_same repo (req_APIKeyID input) t s) as Hs1.
  destruct (activeConfigsCached _ _ _ _) as [s1 [cfgs|e]]; [|done]. simpl in Hs1.
  pose proof (acquireLocked_same t est cfgs head s1) as Hs2.
  destruct (acquireLocked _ _ _ _ _) as [s2 [r|e]]; simpl in *; by etrans.
Qed.

Lemma settleScope_same start actual sc s : same_queues s (settleScope start actual sc s).
Proof.
  unfold settleScope, sendRelease. destruct (windows s !! _); [|done].
  destruct (rs_RPMHeld sc); [|done]. by destruct (w_release _).
Qed.

Lemma Settle_same r actual s : same_queues s (Settle r actual s).
Proof.
  unfold Settle. revert s. induction (res_Scopes r) as [|sc scs IH]; intros s; simpl; [done|].
  etrans; [apply settleScope_same|apply IH].
Qed.

Lemma setLimit_same `{UuidString} db scope id input s :
  same_queues s (fst (setLimit db scope id input s)).
Proof. unfold setLimit, invalidateConfig. repeat (case_match; try done). Qed.

Lemma releaseSignal_same key s : same_queues s (snd (releaseSignal key s)).
Proof. unfold releaseSignal. destruct (w_release _); simpl; split_and!; simpl; auto. Qed.

(** ** The queues *)

Lemma queue_inv_same s s' : same_queues s s' → queue_inv s → queue_inv s'.
Proof.
  intros (Hq & Hw & Hn) (H1 & H2 & H3 & H4). unfold queue_inv, queue in *. rewrite Hq, Hw.
  split_and!; [|done..]. intros p Hp. specialize (H1 p Hp). lia.
Qed.

Lemma StronglySorted_snoc (l : list nat) (x : nat) :
  StronglySorted lt l → (∀ y, y ∈ l → (y < x)%nat) → StronglySorted lt (l ++ [x]).
Proof.
  induction 1 as [|y l Hs IH Hall]; intros Hx; simpl; [repeat constructor|].
  constructor; [apply IH; intros z Hz; apply Hx; by right|].
  apply Forall_app. split; [done|]. constructor; [apply Hx; by left|constructor].
Qed.

Lemma StronglySorted_suffix (l1 l2 : list nat) :
  StronglySorted lt (l1 ++ l2) → StronglySorted lt l2.
Proof. induction l1 as [|x l1 IH]; simpl; [done|]. intros [? _]%StronglySorted_inv. auto. Qed.

Lemma StronglySorted_NoDup (l : list nat) : StronglySorted lt l → NoDup l.
Proof.
  induction 1 as [|x l Hs IH Hall]; [constructor|]. apply list.NoDup_cons. split; [|done].
  intros Hx. rewrite list.Forall_forall in Hall. specialize (Hall x Hx). lia.
Qed.

Lemma queue_inv_lookup s k p :
  queue_inv s → p ∈ queue s k → ∃ w, waiters s !! p = Some w.
Proof.
  intros (_ & _ & H & _) [i Hi]%list_elem_of_lookup. destruct (H k i p Hi) as (w & ? & _). eauto.
Qed.

Lemma enqueueWaiter_spec key s s' p :
  enqueueWaiter key s = (s', Some p) → queue_inv s →
  queue_inv s'
  ∧ waiters s !! p = None
  ∧ waiters s' = <[p := mkWaiter (bool_decide (queue s key = [])) false]> (waiters s)
  ∧ ∀ k, queue s' k = if decide (k = key) then queue s key ++ [p] else queue s k.
Proof.
  unfold enqueueWaiter. fold (queue s key). intros He (H1 & H2 & H3 & H4).
  destruct (Nat.leb_spec queueMaxDepth (length (queue s key))) as [|Hlen]; simplify_eq.
  assert (Hfresh : waiters s !! nextPtr s = None).
  { apply eq_None_not_Some. intros Hs. specialize (H1 _ Hs). lia. }
  assert (Hb : (length (queue s key) =? 0)%nat = bool_decide (queue s key = [])) by (by destruct (queue s key)).
  rewrite Hb. simpl. set (q := queue s key) in *.
  assert (Hq : ∀ k, queue (mkService (windows s) (configs s) (<[key:=q ++ [nextPtr s]]> (queues s))
             (lastSweep s) (<[nextPtr s:=mkWaiter (bool_decide (q = [])) false]> (waiters s))
             (chans s) (S (nextPtr s))) k = if decide (k = key) then q ++ [nextPtr s] else queue s k).
  { intros k. unfold queue. simpl. rewrite lookup_insert. by repeat case_decide; simplify_eq. }
  assert (Hlt : ∀ k p, p ∈ queue s k → (p < nextPtr s)%nat).
  { intros k p Hp. apply H1. destruct (queue_inv_lookup s k p) as [w ?]; [by split_and!|done|eauto]. }
  split; [|by split_and!]. split_and!; simpl.
  - intros p. rewrite lookup_insert. case_decide; [lia|]. intros Hp%H1. lia.
  - intros k. rewrite Hq. case_decide; [|apply H2]. rewrite length_app. simpl.
    split; [lia|]. apply StronglySorted_snoc; [apply H2|apply Hlt].
  - intros k i p. rewrite Hq. intros Hi. rewrite lookup_insert.
    assert (Hold : queue s k !! i = Some p → p ≠ nextPtr s).
    { intros Hin%list_elem_of_lookup_2. specialize (Hlt _ _ Hin). lia. }
    destruct (decide (k = key)) as [->|Hk].
    + apply lookup_app_Some in Hi as [Hi|[Hge Hi]].
      * rewrite decide_False by (by apply not_eq_sym, Hold). by apply H3 in Hi.
      * destruct (i - length q)%nat eqn:E; simplify_eq/=. rewrite decide_True by done.
        eexists. split; [done|]. simpl. split; [|done]. apply bool_decide_ext.
        split; intros He; [rewrite He in *; simpl in *; lia|]. destruct q; [done|simpl in *; lia].
    + rewrite decide_False by (by apply not_eq_sym, Hold). by apply H3 in Hi.
  - intros k k' p. rewrite !Hq. repeat case_decide; subst; [done| | |apply H4];
      rewrite elem_of_app, list_elem_of_singleton.
    + intros [Hp| ->] Hp'; [by eapply H4|]. specialize (Hlt _ _ Hp'). lia.
    + intros Hp' [Hp| ->]; [by eapply H4|]. specialize (Hlt _ _ Hp'). lia.
Qed.

Lemma dropAbandoned_suffix hs ws :
  ∃ pre, ws = pre ++ dropAbandoned hs ws
         ∧ (∀ p, p ∈ pre → ∃ w, hs !! p = Some w ∧ wt_abandoned w = true)
         ∧ (∀ p rest w, dropAbandoned hs ws = p :: rest → hs !! p = Some w → wt_abandoned w = false).
Proof.
  induction ws as [|p ws (pre & Heq & Hpre & Hhd)]; simpl.
  { exists []. split_and!; [done|by intros ? ?%not_elem_of_nil|done]. }
  destruct (hs !! p) as [w|] eqn:Ep; [destruct (wt_abandoned w) eqn:Ea|].
  - exists (p :: pre). simpl. split_and!; [by f_equal| |done].
    intros q [->|?]%elem_of_cons; eauto.
  - exists []. split_and!; [done|by intros ? ?%not_elem_of_nil|]. intros; simplify_eq. done.
  - exists []. split_and!; [done|by intros ? ?%not_elem_of_nil|]. intros; simplify_eq.
Qed.

(** The heap of waiters after [finishWaiter]: [p] left, and the new head is ready. *)
Definition finished (key : string) (p : ptr) (s : Service) : gmap ptr queueWaiter :=
  let hs := alter (λ w, mkWaiter (wt_ready w) true) p (waiters s) in
  match dropAbandoned hs (queue s key) with
  | [] => hs
  | head :: _ => alter (λ w, mkWaiter true (wt_abandoned w)) head hs
  end.

Lemma finishWaiter_queue key p s k :
  queue (finishWaiter key p s) k
  = if decide (k = key)
    then dropAbandoned (alter (λ w, mkWaiter (wt_ready w) true) p (waiters s)) (queue s key)
    else queue s k.
Proof.
  unfold finishWaiter. fold (queue s key).
  destruct (dropAbandoned _ _) as [|head rest]; unfold queue; simpl.
  - rewrite lookup_delete. by repeat case_decide; simplify_eq.
  - rewrite lookup_insert. by repeat case_decide; simplify_eq.
Qed.

Lemma finishWaiter_waiters key p s : waiters (finishWaiter key p s) = finished key p s.
Proof.
  unfold finishWaiter, finished. fold (queue s key). by destruct (dropAbandoned _ _).
Qed.

Lemma finishWaiter_nextPtr key p s : nextPtr (finishWaiter key p s) = nextPtr s.
Proof. unfold finishWaiter. by destruct (dropAbandoned _ _). Qed.

Lemma finished_lookup key p s q w' :
  finished key p s !! q = Some w' →
  ∃ w, waiters s !! q = Some w
       ∧ wt_abandoned w' = (if decide (p = q) then true else wt_abandoned w)
       ∧ (wt_ready w = true → wt_ready w' = true)
       ∧ (head (queue (finishWaiter key p s) key) ≠ Some q → wt_ready w' = wt_ready w)
       ∧ (head (queue (finishWaiter key p s) key) = Some q → wt_ready w' = true).
Proof.
  rewrite finishWaiter_queue, decide_True by done. unfold finished.
  set (hs := alter _ p (waiters s)).
  assert (Hhs : ∀ w1, hs !! q = Some w1 → ∃ w, waiters s !! q = Some w
    ∧ wt_abandoned w1 = (if decide (p = q) then true else wt_abandoned w) ∧ wt_ready w1 = wt_ready w).
  { intros w1. unfold hs. destruct (decide (p = q)) as [->|Hne].
    - rewrite lookup_alter_eq. intros (w & -> & ->)%fmap_Some. eauto.
    - rewrite lookup_alter_ne by done. eauto. }
  destruct (dropAbandoned hs (queue s key)) as [|h rest]; intros Hw'.
  - destruct (Hhs _ Hw') as (w & ? & -> & ->). by exists w.
  - destruct (decide (h = q)) as [->|Hne].
    + rewrite lookup_alter_eq in Hw'. apply fmap_Some in Hw' as (w1 & Hw1 & ->).
      destruct (Hhs _ Hw1) as (w & ? & Ha & Hr). exists w. by split_and!.
    + rewrite lookup_alter_ne in Hw' by done. destruct (Hhs _ Hw') as (w & ? & -> & ->).
      exists w. split_and!; try done. intros [= ?]; by subst.
Qed.

Lemma finished_is_Some key p s q : is_Some (finished key p s !! q) ↔ is_Some (waiters s !! q).
Proof.
  unfold finished. destruct (dropAbandoned _ _) as [|h rest];
    by rewrite !lookup_alter_is_Some.
Qed.

Lemma finishWaiter_sub key p s k q : q ∈ queue (finishWaiter key p s) k → q ∈ queue s k.
Proof.
  rewrite finishWaiter_queue. case_decide; [|done]. subst k.
  destruct (dropAbandoned_suffix (alter (λ w, mkWaiter (wt_ready w) true) p (waiters s))
              (queue s key)) as (pre & Heq & _).
  rewrite Heq at 2. rewrite elem_of_app. auto.
Qed.

(** A waiter that did not leave keeps its place. *)
Lemma finishWaiter_keeps key p s k q w :
  q ∈ queue s k → waiters s !! q = Some w → wt_abandoned w = false → q ≠ p →
  q ∈ queue (finishWaiter key p s) k.
Proof.
  intros Hq Hw Ha Hne. rewrite finishWaiter_queue. case_decide; [subst k|done].
  destruct (dropAbandoned_suffix (alter (λ w, mkWaiter (wt_ready w) true) p (waiters s))
              (queue s key)) as (pre & Heq & Hpre & _).
  rewrite Heq, elem_of_app in Hq. destruct Hq as [Hq|]; [|done].
  destruct (Hpre q Hq) as (w1 & Hw1 & Hab). rewrite lookup_alter_ne in Hw1 by done. congruence.
Qed.

(** The waiters of the queue of [key] itself. *)
Lemma finishWaiter_head key p s i q :
  queue_inv s → queue (finishWaiter key p s) key !! i = Some q →
  ∃ w, finished key p s !! q = Some w ∧ wt_ready w = bool_decide (i = 0%nat)
       ∧ (i = 0%nat → wt_abandoned w = false).
Proof.
  intros (H1 & H2 & H3 & H4) Hi. pose proof (finishWaiter_queue key p s key) as Hq.
  rewrite decide_True in Hq by done. set (hs := alter (λ w, mkWaiter (wt_ready w) true) p (waiters s)) in *.
  destruct (dropAbandoned_suffix hs (queue s key)) as (pre & Heq & Hpre & Hhd).
  destruct (H2 key) as [_ Hs]. rewrite Heq in Hs. apply StronglySorted_suffix in Hs.
  rewrite <- Hq in Heq, Hhd, Hs.
  remember (queue (finishWaiter key p s) key) as d eqn:Hd.
  assert (Hj : queue s key !! (length pre + i)%nat = Some q).
  { rewrite Heq, lookup_app_r by lia. by replace (length pre + i - length pre)%nat with i by lia. }
  destruct (H3 _ _ _ Hj) as (w & Hw & Hr & _).
  destruct (proj2 (finished_is_Some key p s q) (mk_is_Some _ _ Hw)) as [w' Hw'].
  destruct (finished_lookup _ _ _ _ _ Hw') as (w0 & Hw0 & Habd & _ & Hsame & Hhead).
  rewrite <- Hd in Hsame, Hhead. clear Hd Hq. simplify_eq. exists w'. split; [done|].
  destruct i as [|i].
  - destruct d as [|q' rest] eqn:Ed; simplify_eq/=. rewrite Hhead by done. split; [done|]. intros _.
    rewrite Habd. destruct (decide (p = q)) as [->|Hne].
    + apply (Hhd q rest (mkWaiter (wt_ready w) true)); [done|]. unfold hs.
      by rewrite lookup_alter_eq, Hw.
    + eapply (Hhd q rest); [done|]. unfold hs. by rewrite lookup_alter_ne.
  - split; [|done]. rewrite Hsame, Hr; [by apply bool_decide_ext; split; lia|].
    intros Hh. apply StronglySorted_NoDup in Hs. destruct d as [|q' rest]; simplify_eq/=.
    apply list.NoDup_cons in Hs as [Hnin _]. by apply Hnin, list_elem_of_lookup_2 with i.
Qed.

Lemma finishWaiter_inv key p s :
  queue_inv s → (∀ k, p ∈ queue s k → k = key) → queue_inv (finishWaiter key p s).
Proof.
  intros Hinv Hp. pose proof Hinv as (H1 & H2 & H3 & H4).
  pose proof (finishWaiter_queue key p s) as Hq. split_and!.
  - intros q. rewrite finishWaiter_waiters, finishWaiter_nextPtr, finished_is_Some. apply H1.
  - intros k. rewrite Hq. case_decide; [|apply H2]. subst k. destruct (H2 key) as [Hl Hs].
    destruct (dropAbandoned_suffix (alter (λ w, mkWaiter (wt_ready w) true) p (waiters s))
                (queue s key)) as (pre & Heq & _).
    rewrite Heq, length_app in Hl. rewrite Heq in Hs. split; [lia|by eapply StronglySorted_suffix].
  - intros k i q Hi. rewrite finishWaiter_waiters. destruct (decide (k = key)) as [->|Hk].
    { by apply finishWaiter_head. }
    rewrite Hq, decide_False in Hi by done. destruct (H3 k i q Hi) as (w & Hw & Hr & Ha).
    pose proof (list_elem_of_lookup_2 _ _ _ Hi) as Hin.
    destruct (proj2 (finished_is_Some key p s q) (mk_is_Some _ _ Hw)) as [w' Hw'].
    destruct (finished_lookup _ _ _ _ _ Hw') as (w0 & Hw0 & Habd & _ & Hsame & _). simplify_eq.
    exists w'. split; [done|]. rewrite Habd, decide_False by (intros ->; by apply Hk, Hp).
    split; [|done]. rewrite Hsame; [done|]. intros Hhead.
    apply Hk. apply (H4 _ _ q Hin), (finishWaiter_sub key p).
    destruct (queue (finishWaiter key p s) key); simplify_eq/=. by left.
  - intros k k' q Hk%finishWaiter_sub Hk'%finishWaiter_sub. by eapply H4.
Qed.

(** ** Calls and their places *)

Lemma sys_inv_same s s' cs : same_queues s s' → sys_inv (mkSys s cs) → sys_inv (mkSys s' cs).
Proof.
  intros Hsame (Hq & H1 & H2 & H3). split; [by eapply queue_inv_same|]. unfold queue in *. simpl in *.
  destruct Hsame as (-> & -> & _). done.
Qed.

(** A step of a call that keeps its place. *)
Lemma sys_inv_move s s' cs i c c' :
  same_queues s s' → sys_inv (mkSys s cs) → cs !! i = Some c → place c' = place c →
  (∀ k p w, place c = Some (k, p) → waiters s !! p = Some w → wt_ready w = false →
     waiting c' = true) →
  sys_inv (mkSys s' (<[i := c']> cs)).
Proof.
  intros Hsame Hinv Hi Hplace Hwait. apply (sys_inv_same s); [done|].
  destruct Hinv as (Hq & H1 & H2 & H3). split_and!; simpl in *; [done| | |].
  - intros j d k p. rewrite lookup_insert. case_decide; [|by apply H1].
    intros [= <-] Hpl. subst j. rewrite Hplace in Hpl. destruct (H1 _ _ _ _ Hi Hpl) as (? & w & Hw & ? & _).
    split; [done|]. exists w. split_and!; [done..|]. by apply (Hwait k p).
  - intros j j' d d' k p Hd Hd' Hpl Hpl'.
    assert (Hback : ∀ j d, <[i:=c']> cs !! j = Some d → place d = Some (k, p) →
              ∃ d0, cs !! j = Some d0 ∧ place d0 = Some (k, p)).
    { intros j0 d0. rewrite lookup_insert. case_decide; [|eauto].
      intros [= <-] Hp. subst j0. exists c. by rewrite <- Hplace. }
    destruct (Hback _ _ Hd Hpl) as (e & ? & ?), (Hback _ _ Hd' Hpl') as (e' & ? & ?). by eapply H2.
  - intros k p w Hp Hw Ha. destruct (H3 k p w Hp Hw Ha) as (j & d & Hd & Hpl).
    exists j. destruct (decide (i = j)) as [<-|Hne].
    + exists c'. rewrite lookup_insert_eq. split; [done|]. simplify_eq. by rewrite Hplace.
    + exists d. by rewrite lookup_insert_ne.
Qed.

Lemma sys_inv_arrive s cs i c :
  sys_inv (mkSys s cs) → cs !! i = None → place c = None → sys_inv (mkSys s (<[i := c]> cs)).
Proof.
  intros (Hq & H1 & H2 & H3) Hi Hc. split_and!; simpl in *; [done| | |].
  - intros j d k p. rewrite lookup_insert. case_decide; [intros [= <-]; congruence|apply H1].
  - intros j j' d d' k p. rewrite !lookup_insert. repeat case_decide; try (intros; simplify_eq; congruence).
    apply H2.
  - intros k p w Hp Hw Ha. destruct (H3 k p w Hp Hw Ha) as (j & d & Hd & ?).
    exists j, d. rewrite lookup_insert_ne; [done|]. intros <-. congruence.
Qed.

Lemma sys_inv_enqueue s s' cs i c c' key p :
  sys_inv (mkSys s cs) → cs !! i = Some c → place c = None →
  enqueueWaiter key s = (s', Some p) → place c' = Some (key, p) → waiting c' = true →
  sys_inv (mkSys s' (<[i := c']> cs)).
Proof.
  intros (Hq & H1 & H2 & H3) Hi Hc He Hc' Hwait. simpl in *.
  destruct (enqueueWaiter_spec _ _ _ _ He Hq) as (Hq' & Hfresh & Hws & Hqs).
  assert (Hmono : ∀ k q, q ∈ queue s k → q ∈ queue s' k).
  { intros k q Hin. rewrite Hqs. case_decide; [subst; by apply elem_of_app; left|done]. }
  assert (Hold : ∀ j d k q, cs !! j = Some d → place d = Some (k, q) → q ≠ p).
  { intros j d k q Hd Hp ->. destruct (H1 _ _ _ _ Hd Hp) as (_ & w & ? & _). congruence. }
  split_and!; simpl; [done| | |].
  - intros j d k q. rewrite lookup_insert. case_decide.
    + intros [= <-] Hp. rewrite Hc' in Hp. simplify_eq. split.
      { rewrite Hqs, decide_True by done. apply elem_of_app. right. by left. }
      rewrite Hws, lookup_insert_eq. eauto.
    + intros Hd Hp. destruct (H1 _ _ _ _ Hd Hp) as (? & w & ? & ?). split; [by apply Hmono|].
      exists w. rewrite Hws, lookup_insert_ne; [done|]. by apply not_eq_sym, (Hold j d k).
  - intros j j' d d' k q. rewrite !lookup_insert. intros Hd Hd' Hp Hp'. repeat case_decide; try congruence.
    3: by eapply H2.
    + destruct (Hold _ _ _ _ Hd Hp). congruence.
    + destruct (Hold _ _ _ _ Hd' Hp'). congruence.
  - intros k q w Hin. rewrite Hws, lookup_insert. case_decide as Heq.
    + subst q. intros _ _. exists i, c'. rewrite lookup_insert_eq. split; [done|].
      rewrite Hqs in Hin. case_decide; [by subst|].
      apply (queue_inv_lookup _ _ _ Hq) in Hin as [? ?]. congruence.
    + intros Hw Ha. assert (Hin' : q ∈ queue s k).
      { rewrite Hqs in Hin. case_decide; [|done]. subst k.
        apply elem_of_app in Hin as [|?%list_elem_of_singleton]; [done|congruence]. }
      destruct (H3 k q w Hin' Hw Ha) as (j & d & ? & ?). exists j, d.
      rewrite lookup_insert_ne; [done|]. intros <-. congruence.
Qed.

Lemma sys_inv_finish s cs i c c' key p :
  sys_inv (mkSys s cs) → cs !! i = Some c → place c = Some (key, p) → place c' = None →
  sys_inv (mkSys (finishWaiter key p s) (<[i := c']> cs)).
Proof.
  intros (Hq & H1 & H2 & H3) Hi Hc Hc'. simpl in *.
  destruct (H1 _ _ _ _ Hi Hc) as (Hin & wp & Hwp & _ & _).
  assert (Hone : ∀ k, p ∈ queue s k → k = key) by (intros k Hk; by eapply Hq).
  split_and!; simpl; [by apply finishWaiter_inv| | |].
  - intros j d k q. rewrite lookup_insert. case_decide as Hij; [intros [= <-]; congruence|].
    intros Hd Hp. destruct (H1 _ _ _ _ Hd Hp) as (Hq' & w & Hw & Ha & Hr).
    assert (q ≠ p).
    { intros ->. apply Hij. apply (H2 i j c d key p); [done..|]. by rewrite <- (Hone k Hq'). }
    split; [by eapply finishWaiter_keeps|]. rewrite finishWaiter_waiters.
    destruct (proj2 (finished_is_Some key p s q) (mk_is_Some _ _ Hw)) as [w' Hw'].
    destruct (finished_lookup _ _ _ _ _ Hw') as (w0 & Hw0 & Habd & Hmono & _).
    assert (w0 = w) as -> by congruence.
    exists w'. split_and!; [done|by rewrite Habd, decide_False by done|].
    intros Hr'. apply Hr. destruct (wt_ready w); [by rewrite Hmono in Hr'|done].
  - intros j j' d d' k q. rewrite !lookup_insert. repeat case_decide; try (intros; simplify_eq; congruence).
    apply H2.
  - intros k q w' Hin' Hw' Ha'. rewrite finishWaiter_waiters in Hw'.
    destruct (finished_lookup _ _ _ _ _ Hw') as (w & Hw & Habd & _).
    case_decide; [congruence|]. rewrite Habd in Ha'.
    destruct (H3 k q w) as (j & d & Hd & Hp); [by eapply finishWaiter_sub|done..|].
    exists j, d. rewrite lookup_insert_ne; [done|]. intros <-. congruence.
Qed.

Section Steps.
Context `{GoRuntime} `{UuidString}.

Lemma not_waiting_move s s' cs i c c' :
  same_queues s s' → sys_inv (mkSys s cs) → cs !! i = Some c → waiting c = false →
  place c' = place c → sys_inv (mkSys s' (<[i := c']> cs)).
Proof.
  intros Hsame Hinv Hi Hw Hp. eapply sys_inv_move; [done..|].
  intros k p w Hpl Hws Hr. destruct Hinv as (_ & H1 & _).
  destruct (H1 _ _ _ _ Hi Hpl) as (_ & w0 & Hw0 & _ & Hwait). simpl in *. simplify_eq.
  by rewrite Hwait in Hw.
Qed.

Lemma headAttempt_inv db now k p s cs i c c' s' :
  headAttempt db now k p c s = (c', s') → sys_inv (mkSys s cs) → cs !! i = Some c →
  call_pc c = PHead k p → sys_inv (mkSys s' (<[i := c']> cs)).
Proof.
  intros Hh Hinv Hi Hpc. assert (Hc : place c = Some (k, p) ∧ waiting c = false)
    by (by unfold place, waiting; rewrite Hpc). destruct Hc as [Hpl Hw].
  unfold headAttempt in Hh. pose proof (acquire_same db now (at_time now (call_input c)) k s) as Hsame.
  destruct (acquire _ _ _ _ _) as [s1 [r|[e|e]]]; simpl in Hsame; [|case_match; [|case_match]|];
    simplify_eq; eapply not_waiting_move; try done; by rewrite Hpl.
Qed.

Lemma qstep_inv db s cs i c ev c' s' :
  qstep db c ev s = Some (c', s') → sys_inv (mkSys s cs) → cs !! i = Some c →
  sys_inv (mkSys s' (<[i := c']> cs)).
Proof.
  intros Hstep Hinv Hi.
  assert (Hmove : ∀ s1 c1, same_queues s s1 → waiting c = false → place c1 = place c →
            sys_inv (mkSys s1 (<[i := c1]> cs))) by (intros; by eapply not_waiting_move).
  assert (Hfin : ∀ c1 k p, place c = Some (k, p) → place c1 = None →
            sys_inv (mkSys (finishWaiter k p s) (<[i := c1]> cs)))
    by (intros; by eapply sys_inv_finish).
  unfold qstep in Hstep. unfold place, waiting in *.
  destruct (call_pc c) as [| |k q|k q|k q|k q ch|k q|k q|k q ex|a] eqn:Hpc;
    destruct ev as [now| | | |]; try done.
  - pose proof (acquire_same db now (at_time (if req_RequestedAt (call_input c) =? 0 then now
       else req_RequestedAt (call_input c)) (call_input c)) "" s) as Hsame.
    destruct (acquire _ _ _ _ _) as [s1 [r|[e|e]]]; simplify_eq; by apply Hmove.
  - destruct (queueWaitImpossible _ _); [simplify_eq; by apply Hmove|].
    destruct (call_deadline c <? now); [simplify_eq; by apply Hmove|].
    destruct (enqueueWaiter _ s) as [s1 [p|]] eqn:He; simplify_eq.
    + eapply sys_inv_enqueue; [done..| |done|done|done]. unfold place. by rewrite Hpc.
    + apply Hmove; [|done..]. unfold enqueueWaiter in He. by case_match; simplify_eq.
  - destruct (waiters s !! q) as [w|] eqn:Ew; [|done]. simpl in Hstep.
    destruct (wt_ready w) eqn:Er; [|done]. simplify_eq.
    eapply sys_inv_move; [done..|unfold place; by rewrite Hpc|].
    intros k' p' w'. unfold place. rewrite Hpc. intros [= <- <-]. congruence.
  - simplify_eq. by apply Hfin.
  - injection Hstep as Hh. by eapply headAttempt_inv.
  - case_match; [simplify_eq; by apply Hmove|].
    pose proof (releaseSignal_same k s) as Hsame. destruct (releaseSignal k s) as [ch s1].
    simplify_eq. by apply Hmove.
  - case_match; [|done]. simplify_eq. by apply Hmove.
  - simplify_eq. by apply Hmove.
  - simplify_eq. by apply Hmove.
  - case_match; simplify_eq; by apply Hmove.
  - simplify_eq. by apply Hmove.
  - simplify_eq. by apply Hmove.
  - case_match; simplify_eq; by apply Hfin.
Qed.

Lemma sysstep_inv y y' : sysstep y y' → sys_inv y → sys_inv y'.
Proof.
  intros Hstep Hinv. destruct Hstep.
  - by apply sys_inv_arrive.
  - by eapply qstep_inv.
  - eapply sys_inv_same; [apply acquire_same|done].
  - eapply sys_inv_same; [apply Settle_same|done].
  - eapply sys_inv_same; [|done]. unfold SetAPIKey. case_match; [done|apply setLimit_same].
  - eapply sys_inv_same; [apply setLimit_same|done].
Qed.

Lemma sys_inv_initial : sys_inv (mkSys NewService ∅).
Proof.
  assert (Hq : ∀ k, queue NewService k = []) by (intros k; unfold queue; simpl; by rewrite lookup_empty).
  split; [|split; [done|split; [done|]]]; simpl.
  - split_and!.
    + intros p [w Hw]. done.
    + intros k. rewrite Hq. simpl. split; [lia|constructor].
    + intros k i p. by rewrite Hq.
    + intros k k' p Hp. rewrite Hq in Hp. by apply not_elem_of_nil in Hp.
  - intros k p w Hp. rewrite Hq in Hp. by apply not_elem_of_nil in Hp.
Qed.

Lemma sys_inv_reachable y : rtc sysstep (mkSys NewService ∅) y → sys_inv y.
Proof.
  intros Hr. assert (Hgen : ∀ x, rtc sysstep x y → sys_inv x → sys_inv y).
  { induction 1; [done|]. eauto using sysstep_inv. }
  apply (Hgen _ Hr), sys_inv_initial.
Qed.

(** C37: in every state any number of calls can reach, each queue is within its
    depth and in order of arrival, and its first waiter is a running call whose
    turn it is: no queue is ever stuck behind a call that left. *)
Theorem queue_head_is_running (y : Sys) (k : string) :
  rtc sysstep (mkSys NewService ∅) y →
  (length (queue (sys_svc y) k) ≤ queueMaxDepth)%nat
  ∧ StronglySorted lt (queue (sys_svc y) k)
  ∧ (∀ p rest, queue (sys_svc y) k = p :: rest →
       ∃ i c w, sys_calls y !! i = Some c ∧ place c = Some (k, p)
                ∧ waiters (sys_svc y) !! p = Some w ∧ wt_ready w = true).
Proof.
  intros (Hq & _ & _ & H3)%sys_inv_reachable. pose proof Hq as (_ & H2 & Hi & _).
  destruct (H2 k) as [Hl Hs]. split_and!; [done..|]. intros p rest Heq.
  destruct (Hi k 0%nat p) as (w & Hw & Hr & Ha); [by rewrite Heq|].
  destruct (H3 k p w) as (i & c & Hc & Hp); [by rewrite Heq; left|done|by apply Ha|].
  by exists i, c, w.
Qed.

(** only the first waiter of a scope tries to acquire: two calls past their
    [ready] channel never stand in the same queue. *)
Theorem one_call_at_the_head (y : Sys) (i j : nat) (c d : Call) (k : string) (p q : ptr) :
  rtc sysstep (mkSys NewService ∅) y →
  sys_calls y !! i = Some c → sys_calls y !! j = Some d →
  place c = Some (k, p) → place d = Some (k, q) →
  waiting c = false → waiting d = false → i = j.
Proof.
  intros (Hq & H1 & H2 & _)%sys_inv_reachable Hc Hd Hpc Hpd Hwc Hwd.
  assert (Hhead : ∀ i c p, sys_calls y !! i = Some c → place c = Some (k, p) → waiting c = false →
            queue (sys_svc y) k !! 0%nat = Some p).
  { intros i0 c0 p0 Hc0 Hp0 Hw0. destruct (H1 _ _ _ _ Hc0 Hp0) as (Hin & w & Hw & _ & Hr).
    destruct Hq as (_ & _ & Hlk & _). apply list_elem_of_lookup in Hin as [n Hn].
    destruct (Hlk k n p0 Hn) as (w' & Hw' & Hrdy & _).
    assert (w' = w) as -> by congruence. destruct (wt_ready w) eqn:Ew; [|by rewrite Hr in Hw0].
    symmetry in Hrdy. apply bool_decide_eq_true in Hrdy. by subst n. }
  pose proof (Hhead _ _ _ Hc Hpc Hwc) as E1. pose proof (Hhead _ _ _ Hd Hpd Hwd) as E2.
  simplify_eq. by eapply H2.
Qed.
End Steps.

(** ** Schedules *)

Inductive action :=
| AArrive (i : nat) (input : AcquireInput)
| ACall (i : nat) (ev : qevent)
| ASettle (i : nat) (actual : Z).   (* the answer of call [i] is settled *)

Definition act `{GoRuntime} `{UuidString} (db : option RateLimitRepository) (y : Sys) (a : action)
    : option Sys :=
  match a with
  | AArrive i input =>
      match sys_calls y !! i with
      | Some _ => None
      | None => Some (mkSys (sys_svc y)
                  (<[i := mkCall input 0 (mkLimitError "" "" "" 0 0) PStart]> (sys_calls y)))
      end
  | ACall i ev =>
      c ← sys_calls y !! i; r ← qstep db c ev (sys_svc y);
      Some (mkSys r.2 (<[i := r.1]> (sys_calls y)))
  | ASettle i actual =>
      c ← sys_calls y !! i;
      match call_pc c with
      | PDone (Ok (Some r)) => Some (mkSys (Settle r actual (sys_svc y)) (sys_calls y))
      | _ => None
      end
  end.

Fixpoint schedule `{GoRuntime} `{UuidString} (db : option RateLimitRepository)
    (actions : list action) (y : Sys) : option Sys :=
  match actions with
  | [] => Some y
  | a :: rest => y' ← act db y a; schedule db rest y'
  end.

Lemma act_sound `{GoRuntime} `{UuidString} db a y y' : act db y a = Some y' → sysstep y y'.
Proof.
  destruct y as [s cs]. destruct a as [i input|i ev|i actual]; simpl.
  - case_match; [done|]. intros [= <-]. by apply sys_arrive.
  - intros (c & Hc & ([c' s'] & Hstep & [= <-])%bind_Some)%bind_Some. by eapply sys_call.
  - intros (c & _ & Hs)%bind_Some. repeat case_match; simplify_eq. apply sys_settle.
Qed.

Lemma schedule_sound `{GoRuntime} `{UuidString} db actions y y' :
  schedule db actions y = Some y' → rtc sysstep y y'.
Proof.
  revert y. induction actions as [|a actions IH]; simpl; intros y; [intros [= <-]; done|].
  intros (y1 & Hact & Hrest)%bind_Some. eapply rtc_l; [by eapply act_sound|by apply IH].
Qed.

(** ** Two wrong answers *)

(** A database with one global limit, and any key names. *)
Definition oneGlobalLimit (rpm : option Z) : RateLimitRepository :=
  mkRepo (Ok (Some (mkRow "global" "enabled" rpm None))) (λ _, Ok None)
    (λ _ _ _, Err "read only").

Definition plainRuntime : GoRuntime := {| marshal_len _ := None; float_out_of_range _ := 0 |}.

(** Call 0 takes the only slot; call 1 is refused, becomes the head of the queue
    and is refused again; call 0 finishes; only then does call 1 ask for the
    release channel. *)
Definition lostWakeup : list action :=
  let input := mkInput 1%N "chat" None false 0 in
  [AArrive 0 input; ACall 0 (Tick (60 * Minute));
   AArrive 1 input; ACall 1 (Tick (60 * Minute)); ACall 1 (Tick (60 * Minute)); ACall 1 Ready;
   ACall 1 (Tick (60 * Minute)); ASettle 0 10; ACall 1 (Tick (60 * Minute))].

(** the signal of a request that settles between the refusal of a queued call
    and its [releaseSignal] is lost: the queued call then waits, first in its
    queue, with nothing in flight, although an attempt would succeed; no token
    will arrive, so only its timer or its context ends the wait. *)
Theorem release_signal_lost :
  ∃ y c p ch,
    rtc (@sysstep plainRuntime plainKeys) (mkSys NewService ∅) y
    ∧ sys_calls y !! 1%nat = Some c ∧ call_pc c = PWaitRelease "global" p ch
    ∧ inflight_of "global" (windows (sys_svc y)) = 0
    ∧ @qstep plainRuntime plainKeys None c Token (sys_svc y) = None
    ∧ ∃ r s', @acquire plainKeys plainRuntime (Some (oneGlobalLimit (Some 1)))
                (60 * Minute + 1) (at_time (60 * Minute + 1) (call_input c)) "global" (sys_svc y)
              = (s', Ok (Some r)).
Proof.
  destruct (@schedule plainRuntime plainKeys (Some (oneGlobalLimit (Some 1))) lostWakeup
              (mkSys NewService ∅)) as [y|] eqn:E; [|by vm_compute in E].
  exists y. pose proof (schedule_sound _ _ _ _ E) as Hr. vm_compute in E. injection E as <-.
  eexists _, _, _. split; [exact Hr|]. split; [by vm_compute|]. split; [by vm_compute|].
  split; [by vm_compute|]. split; [by vm_compute|]. eexists _, _. by vm_compute.
Qed.

(** a queued call whose limits were removed meanwhile is refused with the old
    limit error when its turn comes, although the same outcome of [acquire] lets a
    call that never queued through. *)
Theorem removed_limit_still_refuses `{GoRuntime} `{UuidString} (db : option RateLimitRepository)
    (now now' : Z) (k : string) (p : ptr) (c : Call) (s s' : Service) :
  call_pc c = PHead k p →
  acquire db now (at_time now (call_input c)) k s = (s', Ok None) →
  (∃ c1 c2, qstep db c (Tick now) s = Some (c1, s')
     ∧ qstep db c1 (Tick now') s' = Some (c2, finishWaiter k p s')
     ∧ call_pc c2 = PDone (Err (QAcquire (ErrLimit (call_limitErr c)))))
  ∧ ∀ d, call_pc d = PStart → req_RequestedAt (call_input d) = 0 →
      acquire db now (at_time now (call_input d)) "" s = (s', Ok None) →
      ∃ d', qstep db d (Tick now) s = Some (d', s') ∧ call_pc d' = PDone (Ok None).
Proof.
  intros Hpc Hacq. split.
  - exists (goto c (PFinish k p (ExitAcquired None))). eexists. unfold qstep. rewrite Hpc.
    unfold headAttempt. rewrite Hacq. done.
  - intros d Hd Hreq Hok. unfold qstep. rewrite Hd, Hreq. simpl. rewrite Hok. by eexists.
Qed.

(** One call at the head of the queue of the global scope. *)
Definition waitAtHead : list action :=
  let input := mkInput 1%N "chat" None false 0 in
  [AArrive 0 input; ACall 0 (Tick (60 * Minute));
   AArrive 1 input; ACall 1 (Tick (60 * Minute)); ACall 1 (Tick (60 * Minute))].

Lemma queue_head_is_running_witness :
  ∃ y, rtc (@sysstep plainRuntime plainKeys) (mkSys NewService ∅) y
    ∧ queue (sys_svc y) "global" = [0%nat]
    ∧ ∃ i c w, sys_calls y !! i = Some c ∧ place c = Some ("global", 0%nat)
               ∧ waiters (sys_svc y) !! 0%nat = Some w ∧ wt_ready w = true.
Proof.
  destruct (@schedule plainRuntime plainKeys (Some (oneGlobalLimit (Some 1))) waitAtHead
              (mkSys NewService ∅)) as [y|] eqn:E; [|by vm_compute in E].
  exists y. pose proof (schedule_sound _ _ _ _ E) as Hr. split; [exact Hr|].
  assert (Hq : queue (sys_svc y) "global" = [0%nat]).
  { vm_compute in E. injection E as <-. by vm_compute. }
  split; [exact Hq|].
  exact (proj2 (proj2 (@queue_head_is_running plainRuntime plainKeys y "global" Hr)) _ _ Hq).
Defined.

Lemma one_call_at_the_head_witness :
  ∃ y c, rtc (@sysstep plainRuntime plainKeys) (mkSys NewService ∅) y
    ∧ sys_calls y !! 1%nat = Some c ∧ place c = Some ("global", 0%nat)
    ∧ ∀ j d q, sys_calls y !! j = Some d → place d = Some ("global", q) → waiting d = false →
        1%nat = j.
Proof.
  destruct (@schedule plainRuntime plainKeys (Some (oneGlobalLimit (Some 1))) lostWakeup
              (mkSys NewService ∅)) as [y|] eqn:E; [|by vm_compute in E].
  pose proof (schedule_sound _ _ _ _ E) as Hr.
  assert (Hc : ∃ c, sys_calls y !! 1%nat = Some c ∧ place c = Some ("global", 0%nat)
                    ∧ waiting c = false).
  { vm_compute in E. injection E as <-. eexists. split_and!; by vm_compute. }
  destruct Hc as (c & Hc & Hp & Hw). exists y, c. split; [exact Hr|]. split; [exact Hc|].
  split; [exact Hp|]. intros j d q Hd Hq Hwd.
  exact (@one_call_at_the_head plainRuntime plainKeys y 1%nat j c d "global" 0%nat q
           Hr Hc Hd Hp Hq Hw Hwd).
Defined.

Lemma removed_limit_still_refuses_witness :
  let db := Some (oneGlobalLimit None) in
  let c := mkCall (mkInput 1%N "chat" None false 0) (61 * Minute)
             (mkLimitError "global" "global" "rpm" 1 1) (PHead "global" 0%nat) in
  ∃ s' c1 c2, @qstep plainRuntime plainKeys db c (Tick (60 * Minute)) NewService = Some (c1, s')
    ∧ @qstep plainRuntime plainKeys db c1 (Tick (60 * Minute)) s'
      = Some (c2, finishWaiter "global" 0%nat s')
    ∧ call_pc c2 = PDone (Err (QAcquire (ErrLimit (mkLimitError "global" "global" "rpm" 1 1)))).
Proof.
  intros db c. eexists.
  apply (@removed_limit_still_refuses plainRuntime plainKeys db (60 * Minute) (60 * Minute)
           "global" 0%nat c NewService); by vm_compute.
Defined.
