(* ===== verification/ApiKeyStore.v ===== *)
(** * The table of API keys

    [store/api_key_repository.go], [store/api_key_order.go], [store/api_key_model_rules.go],
    [store/api_key_last_used_throttle.go] and [config/timezone.go].  A JSON column is kept as
    the value it encodes; [updated_at], which a trigger sets, is left out.  A statement that
    breaks a constraint of [migrations/00001_initial_schema.sql] fails and leaves the tables as
    they were; other failures of the database are not modelled. *)

From stdpp Require Import sorting.
From S2P Require Import Prelude GoFloat StableSort Catalog.

(** ** Columns and calendars *)

(** What a NUMERIC(18,8) and a NUMERIC(8,4) column give back of a float64 written to them. *)
Class NumericColumns := { numeric8 : float64 → float64; numeric4 : float64 → float64 }.

(** What is read from a column can be written back. *)
Class NumericLaws `{NumericColumns} := {
  numeric8_idem : ∀ x, numeric8 (numeric8 x) = numeric8 x;
  numeric4_idem : ∀ x, numeric4 (numeric4 x) = numeric4 x;
  numeric8_zero : numeric8 fzero = fzero
}.

(** A [time.Location]: the offset in force at a time in seconds since 1970, in seconds, and
    when that offset began and ends, from the time zone database. *)
Class Location := lookup_zone : Z → Z * Z * Z.

Definition zeroUnix : Z := -62135596800.
Definition daySeconds : Z := 86400.

Section calendar.
Context `{Location}.

Definition unixSeconds (t : Z) : Z := t `div` Second + zeroUnix.

(** [time.Date] of a day counted from 1970, a clock in seconds and nanoseconds: the offset is
    looked up for the local time taken as UTC, and again if that was not the right one. *)
Definition dateClock (day clock nsec : Z) : Z :=
  let unix := day * daySeconds + clock in
  let '(offset, from, until) := lookup_zone unix in
  let unix :=
    if offset =? 0 then unix
    else
      let utc := unix - offset in
      if (utc <? from) || (until <=? utc) then unix - (lookup_zone utc).1.1 else utc in
  (unix - zeroUnix) * Second + nsec.
Definition dateMidnight (day : Z) : Z := dateClock day 0 0.

(** The local time in seconds, its day, from 1970, and its clock; 1970-01-01 was a Thursday. *)
Definition localSeconds (t : Z) : Z := unixSeconds t + (lookup_zone (unixSeconds t)).1.1.
Definition localDay (t : Z) : Z := localSeconds t `div` daySeconds.
Definition localClock (t : Z) : Z := localSeconds t `mod` daySeconds.
Definition Weekday (day : Z) : Z := (day + 4) `mod` 7.

Definition StartOfDay (t : Z) : Z := dateMidnight (localDay t).

(** [AddDate] keeps the clock. *)
Definition addDays (t days : Z) : Z := dateClock (localDay t + days) (localClock t) (t `mod` Second).

Definition StartOfWeek (t : Z) : Z :=
  let start := StartOfDay t in
  let daysSinceMonday := (Weekday (localDay start) + 6) `mod` 7 in
  addDays start (- daysSinceMonday).
End calendar.

(** ** Rows *)

Record APIKeyImageBridge := mkBridge {
  ib_Enabled : bool; ib_Model : string; ib_SiteID : option uuid; ib_MaxCalls : Z
}.

(** What the column [model_mappings] holds: a list of rules, the map of an older version, or
    neither. *)
Inductive modelMappings :=
| MappingRules (rules : list APIKeyModelRule)
| MappingLegacy (mappings : gmap string string)
| MappingInvalid.

Record quotaState := mkQuota {
  QuotaLimit : option float64; QuotaUsed : float64; QuotaTotalUsed : float64;
  QuotaTotalResetAt : option Z; QuotaUnlimited : bool;
  QuotaDailyLimit : option float64; QuotaDailyUsed : float64; QuotaDailyUnlimited : bool;
  QuotaDailyWindowStart : option Z;
  QuotaWeeklyLimit : option float64; QuotaWeeklyUsed : float64; QuotaWeeklyUnlimited : bool;
  QuotaWeeklyWindowStart : option Z
}.

Record APIKey := mkKey {
  ak_ID : uuid; ak_Name : string; ak_SortOrder : Z;
  ak_KeyPrefix : string; ak_KeyHash : string; ak_EncryptedSecret : option string;
  ak_MaskedKey : string; ak_KeyKind : string;
  ak_Scope : string; ak_Status : string; ak_ModelPolicy : string; ak_SitePolicy : string;
  ak_ModelMappings : modelMappings; ak_ImageToolBridge : option APIKeyImageBridge;
  ak_BillingMultiplier : float64; ak_Quota : quotaState;
  ak_CreatedByAdminID : option uuid; ak_LastUsedAt : option Z; ak_ExpiresAt : option Z;
  ak_CreatedAt : Z
}.

Definition APIKeyKindAgentInternal : string := "agent_internal".
Definition DefaultImageBridgeMaxCalls : Z := 2.

(** [ImageBridge]: [None] when the bridge is off. *)
Definition ImageBridge (k : APIKey) : option APIKeyImageBridge :=
  cfg ← ak_ImageToolBridge k;
  let model := TrimSpace (ib_Model cfg) in
  if negb (ib_Enabled cfg) || bool_decide (model = "") then None
  else Some (mkBridge true model (ib_SiteID cfg)
               (if ib_MaxCalls cfg <=? 0 then DefaultImageBridgeMaxCalls else ib_MaxCalls cfg)).

(** [sort.Strings] *)
Definition sortStrings : list string → list string := SliceStable string_ltb.

Definition LegacyAPIKeyModelRules (mappings : gmap string string) : list APIKeyModelRule :=
  NormalizeAPIKeyModelRules
    (map (λ pattern, mkRule pattern (default "" (mappings !! pattern)) APIKeyModelRuleModeHard)
       (sortStrings (map_to_list mappings).*1)).

Definition ParseAPIKeyModelRules (data : modelMappings) : list APIKeyModelRule :=
  match data with
  | MappingRules rules => NormalizeAPIKeyModelRules rules
  | MappingLegacy mappings => LegacyAPIKeyModelRules mappings
  | MappingInvalid => []
  end.

Definition ModelRules (k : APIKey) : list APIKeyModelRule := ParseAPIKeyModelRules (ak_ModelMappings k).

Definition with_quota (q : quotaState) (k : APIKey) : APIKey :=
  mkKey (ak_ID k) (ak_Name k) (ak_SortOrder k) (ak_KeyPrefix k) (ak_KeyHash k) (ak_EncryptedSecret k)
    (ak_MaskedKey k) (ak_KeyKind k) (ak_Scope k) (ak_Status k) (ak_ModelPolicy k) (ak_SitePolicy k)
    (ak_ModelMappings k) (ak_ImageToolBridge k) (ak_BillingMultiplier k) q (ak_CreatedByAdminID k)
    (ak_LastUsedAt k) (ak_ExpiresAt k) (ak_CreatedAt k).

Definition with_status (status : string) (k : APIKey) : APIKey :=
  mkKey (ak_ID k) (ak_Name k) (ak_SortOrder k) (ak_KeyPrefix k) (ak_KeyHash k) (ak_EncryptedSecret k)
    (ak_MaskedKey k) (ak_KeyKind k) (ak_Scope k) status (ak_ModelPolicy k) (ak_SitePolicy k)
    (ak_ModelMappings k) (ak_ImageToolBridge k) (ak_BillingMultiplier k) (ak_Quota k)
    (ak_CreatedByAdminID k) (ak_LastUsedAt k) (ak_ExpiresAt k) (ak_CreatedAt k).

Definition with_last_used (at_ : option Z) (k : APIKey) : APIKey :=
  mkKey (ak_ID k) (ak_Name k) (ak_SortOrder k) (ak_KeyPrefix k) (ak_KeyHash k) (ak_EncryptedSecret k)
    (ak_MaskedKey k) (ak_KeyKind k) (ak_Scope k) (ak_Status k) (ak_ModelPolicy k) (ak_SitePolicy k)
    (ak_ModelMappings k) (ak_ImageToolBridge k) (ak_BillingMultiplier k) (ak_Quota k)
    (ak_CreatedByAdminID k) at_ (ak_ExpiresAt k) (ak_CreatedAt k).

Definition with_order (order : Z) (k : APIKey) : APIKey :=
  mkKey (ak_ID k) (ak_Name k) order (ak_KeyPrefix k) (ak_KeyHash k) (ak_EncryptedSecret k)
    (ak_MaskedKey k) (ak_KeyKind k) (ak_Scope k) (ak_Status k) (ak_ModelPolicy k) (ak_SitePolicy k)
    (ak_ModelMappings k) (ak_ImageToolBridge k) (ak_BillingMultiplier k) (ak_Quota k)
    (ak_CreatedByAdminID k) (ak_LastUsedAt k) (ak_ExpiresAt k) (ak_CreatedAt k).

(** ** Quotas *)

(** [x >= y] *)
Definition fge (x y : float64) : bool := fle y x.

Section quota.
Context `{Location}.

Definition EffectiveTotalQuotaUsed (q : quotaState) : float64 :=
  if feq (QuotaTotalUsed q) fzero && bool_decide (QuotaTotalResetAt q = None) && negb (feq (QuotaUsed q) fzero)
  then QuotaUsed q else QuotaTotalUsed q.

Definition EffectiveDailyQuotaUsed (now : Z) (q : quotaState) : float64 :=
  if bool_decide (QuotaDailyWindowStart q = Some (StartOfDay now)) then QuotaDailyUsed q else fzero.

Definition EffectiveWeeklyQuotaUsed (now : Z) (q : quotaState) : float64 :=
  if bool_decide (QuotaWeeklyWindowStart q = Some (StartOfWeek now)) then QuotaWeeklyUsed q else fzero.

Definition QuotaExceeded (q : quotaState) : bool :=
  negb (QuotaUnlimited q)
  && match QuotaLimit q with Some limit => fge (EffectiveTotalQuotaUsed q) limit | None => false end.

Record APIKeyQuotaExceededError := mkQuotaError { qe_Scope : string; qe_ResetAt : option Z }.

Definition QuotaExceededErrorAt (now : Z) (q : quotaState) : option APIKeyQuotaExceededError :=
  if negb (QuotaUnlimited q)
     && match QuotaLimit q with Some limit => fge (EffectiveTotalQuotaUsed q) limit | None => true end
  then Some (mkQuotaError "total" None)
  else if negb (QuotaDailyUnlimited q)
     && match QuotaDailyLimit q with Some limit => fge (EffectiveDailyQuotaUsed now q) limit | None => false end
  then Some (mkQuotaError "daily" (Some (addDays (StartOfDay now) 1)))
  else if negb (QuotaWeeklyUnlimited q)
     && match QuotaWeeklyLimit q with Some limit => fge (EffectiveWeeklyQuotaUsed now q) limit | None => false end
  then Some (mkQuotaError "weekly" (Some (addDays (StartOfWeek now) 7)))
  else None.

(** The row [AddUsageAt] computes. *)
Definition chargedAt (amount : float64) (now : Z) (q : quotaState) : quotaState :=
  let dailyStart := StartOfDay now in
  let weeklyStart := StartOfWeek now in
  let dailyUsed := if bool_decide (QuotaDailyWindowStart q = Some dailyStart) then QuotaDailyUsed q else fzero in
  let weeklyUsed := if bool_decide (QuotaWeeklyWindowStart q = Some weeklyStart) then QuotaWeeklyUsed q else fzero in
  mkQuota (QuotaLimit q) (fadd (QuotaUsed q) amount) (fadd (EffectiveTotalQuotaUsed q) amount)
    (QuotaTotalResetAt q) (QuotaUnlimited q)
    (QuotaDailyLimit q) (fadd dailyUsed amount) (QuotaDailyUnlimited q) (Some dailyStart)
    (QuotaWeeklyLimit q) (fadd weeklyUsed amount) (QuotaWeeklyUnlimited q) (Some weeklyStart).

(** The row [AddUsage] computes: the day and the week are not charged. *)
Definition consumed (amount : float64) (q : quotaState) : quotaState :=
  mkQuota (QuotaLimit q) (fadd (QuotaUsed q) amount) (fadd (EffectiveTotalQuotaUsed q) amount)
    (QuotaTotalResetAt q) (QuotaUnlimited q)
    (QuotaDailyLimit q) (QuotaDailyUsed q) (QuotaDailyUnlimited q) (QuotaDailyWindowStart q)
    (QuotaWeeklyLimit q) (QuotaWeeklyUsed q) (QuotaWeeklyUnlimited q) (QuotaWeeklyWindowStart q).

(** A limit that can be reset: it is set and above zero. *)
Definition limitEnabled (unlimited : bool) (limit : option float64) : bool :=
  negb unlimited && match limit with Some limit => negb (fle limit fzero) | None => false end.

Definition resetOf (total daily weekly : bool) (now : Z) (q : quotaState) : result quotaState string :=
  if total && negb (limitEnabled (QuotaUnlimited q) (QuotaLimit q)) then Err "total quota limit is not enabled"
  else if daily && negb (limitEnabled (QuotaDailyUnlimited q) (QuotaDailyLimit q))
  then Err "daily quota limit is not enabled"
  else if weekly && negb (limitEnabled (QuotaWeeklyUnlimited q) (QuotaWeeklyLimit q))
  then Err "weekly quota limit is not enabled"
  else Ok (mkQuota (QuotaLimit q) (QuotaUsed q)
    (if total then fzero else QuotaTotalUsed q) (if total then Some now else QuotaTotalResetAt q) (QuotaUnlimited q)
    (QuotaDailyLimit q) (if daily then fzero else QuotaDailyUsed q) (QuotaDailyUnlimited q)
    (if daily then Some (StartOfDay now) else QuotaDailyWindowStart q)
    (QuotaWeeklyLimit q) (if weekly then fzero else QuotaWeeklyUsed q) (QuotaWeeklyUnlimited q)
    (if weekly then Some (StartOfWeek now) else QuotaWeeklyWindowStart q)).

Definition is_inf (x : float64) : bool := match x with S754_infinity _ => true | _ => false end.

Definition increasedLimit (amount : float64) (q : quotaState) : result quotaState string :=
  match QuotaLimit q with
  | Some limit =>
      if QuotaUnlimited q then Err "total quota limit is not enabled"
      else
        let increased := fadd limit amount in
        if is_nan increased || is_inf increased then Err "increased total quota limit is out of range"
        else Ok (mkQuota (Some increased) (QuotaUsed q) (QuotaTotalUsed q) (QuotaTotalResetAt q) (QuotaUnlimited q)
               (QuotaDailyLimit q) (QuotaDailyUsed q) (QuotaDailyUnlimited q) (QuotaDailyWindowStart q)
               (QuotaWeeklyLimit q) (QuotaWeeklyUsed q) (QuotaWeeklyUnlimited q) (QuotaWeeklyWindowStart q))
  | None => Err "total quota limit is not enabled"
  end.
End quota.

(** ** The table *)

Abbreviation keyTable := (gmap uuid APIKey).

Section table.
Context `{NumericColumns, Location, UuidString}.

(** A row as it is read back. *)
Definition stored_quota (q : quotaState) : quotaState :=
  mkQuota (numeric8 <$> QuotaLimit q) (numeric8 (QuotaUsed q)) (numeric8 (QuotaTotalUsed q))
    (QuotaTotalResetAt q) (QuotaUnlimited q)
    (numeric8 <$> QuotaDailyLimit q) (numeric8 (QuotaDailyUsed q)) (QuotaDailyUnlimited q) (QuotaDailyWindowStart q)
    (numeric8 <$> QuotaWeeklyLimit q) (numeric8 (QuotaWeeklyUsed q)) (QuotaWeeklyUnlimited q)
    (QuotaWeeklyWindowStart q).

Definition stored (k : APIKey) : APIKey :=
  mkKey (ak_ID k) (ak_Name k) (ak_SortOrder k) (ak_KeyPrefix k) (ak_KeyHash k) (ak_EncryptedSecret k)
    (ak_MaskedKey k) (ak_KeyKind k) (ak_Scope k) (ak_Status k) (ak_ModelPolicy k) (ak_SitePolicy k)
    (ak_ModelMappings k) (ak_ImageToolBridge k) (numeric4 (ak_BillingMultiplier k)) (stored_quota (ak_Quota k))
    (ak_CreatedByAdminID k) (ak_LastUsedAt k) (ak_ExpiresAt k) (ak_CreatedAt k).

Definition rows (t : keyTable) : list APIKey := (map_to_list t).*2.

(** [First]: the row with the smallest primary key. *)
Definition first_row (p : APIKey → bool) (t : keyTable) : option APIKey :=
  foldr (λ k best,
    if p k then match best with
                | Some b => if (ak_ID b <? ak_ID k)%N then best else Some k
                | None => Some k
                end
    else best) None (rows t).

(** The constraints on writes of [key_hash] and [key_prefix] to the row [id]. *)
Definition unique_keys (id : uuid) (hash prefix : string) (t : keyTable) : bool :=
  forallb (λ k, bool_decide (ak_ID k = id)
             || negb (bool_decide (ak_KeyHash k = hash)) && negb (bool_decide (ak_KeyPrefix k = prefix)))
    (rows t).

Definition GetByID (id : uuid) (t : keyTable) : option APIKey := t !! id.

Record CreateAPIKeyParams := mkCreateParams {
  cp_Name : string; cp_KeyPrefix : string; cp_KeyHash : string; cp_EncryptedSecret : option string;
  cp_MaskedKey : string; cp_KeyKind : string; cp_Scope : string; cp_Status : string;
  cp_ModelPolicy : string; cp_SitePolicy : string; cp_ModelMappings : list APIKeyModelRule;
  cp_ImageToolBridge : option APIKeyImageBridge; cp_BillingMultiplier : float64;
  cp_QuotaLimit : option float64; cp_QuotaUnlimited : bool;
  cp_QuotaDailyLimit : option float64; cp_QuotaDailyUnlimited : bool;
  cp_QuotaWeeklyLimit : option float64; cp_QuotaWeeklyUnlimited : bool;
  cp_ExpiresAt : option Z; cp_CreatedByAdminID : option uuid
}.

Definition or_default (value fallback : string) : string :=
  if bool_decide (value = "") then fallback else value.

(** The place after the last key. *)
Definition nextOrder (t : keyTable) : Z :=
  match rows t with
  | [] => 1
  | k :: rest => add64 (foldr (λ k, Z.max (ak_SortOrder k)) (ak_SortOrder k) rest) 1
  end.

(** On an insert gorm writes the default that the tag of a field gives in place of Go's zero
    value: [billing_multiplier] has 1, and [quota_daily_unlimited] and [quota_weekly_unlimited]
    have true. *)
Definition default_one (x : float64) : float64 := match x with S754_zero false => of_int 1 | _ => x end.
Definition default_true (b : bool) : bool := if b then b else true.

(** [id] and [now] are the defaults of the columns. *)
Definition CreateRow (p : CreateAPIKeyParams) (id : uuid) (now : Z) (t : keyTable)
    : keyTable * result APIKey string :=
  let k := mkKey id (cp_Name p) (nextOrder t) (cp_KeyPrefix p) (cp_KeyHash p) (cp_EncryptedSecret p)
    (cp_MaskedKey p) (or_default (cp_KeyKind p) "generated") (or_default (cp_Scope p) "gateway")
    (or_default (cp_Status p) "active") (or_default (cp_ModelPolicy p) "allow_all")
    (or_default (cp_SitePolicy p) "allow_all") (MappingRules (cp_ModelMappings p)) (cp_ImageToolBridge p)
    (default_one (cp_BillingMultiplier p))
    (mkQuota (cp_QuotaLimit p) fzero fzero None (cp_QuotaUnlimited p)
       (cp_QuotaDailyLimit p) fzero (default_true (cp_QuotaDailyUnlimited p)) None
       (cp_QuotaWeeklyLimit p) fzero (default_true (cp_QuotaWeeklyUnlimited p)) None)
    (cp_CreatedByAdminID p) None (cp_ExpiresAt p) now in
  match t !! id with
  | Some _ => (t, Err "create api key: duplicate id")
  | None =>
      if unique_keys id (cp_KeyHash p) (cp_KeyPrefix p) t
      then (<[id := stored k]> t, Ok k)
      else (t, Err "create api key: duplicate key")
  end.

Record UpdateAPIKeyParams := mkUpdateParams {
  up_ID : uuid; up_Name : string; up_Status : string; up_ModelPolicy : string; up_SitePolicy : string;
  up_ModelMappings : option (list APIKeyModelRule);
  up_ImageToolBridge : option (option APIKeyImageBridge);
  up_BillingMultiplier : option float64;
  up_QuotaLimit : option float64; up_QuotaUnlimited : bool;
  up_QuotaDailyLimit : option float64; up_QuotaDailyUnlimited : bool;
  up_QuotaWeeklyLimit : option float64; up_QuotaWeeklyUnlimited : bool;
  up_ExpiresAt : option Z
}.

(** The columns [Update] writes. *)
Definition updated (p : UpdateAPIKeyParams) (k : APIKey) : APIKey :=
  let q := ak_Quota k in
  mkKey (ak_ID k) (up_Name p) (ak_SortOrder k) (ak_KeyPrefix k) (ak_KeyHash k) (ak_EncryptedSecret k)
    (ak_MaskedKey k) (ak_KeyKind k) (ak_Scope k) (up_Status p) (up_ModelPolicy p) (up_SitePolicy p)
    (match up_ModelMappings p with Some rules => MappingRules rules | None => ak_ModelMappings k end)
    (default (ak_ImageToolBridge k) (up_ImageToolBridge p))
    (default (ak_BillingMultiplier k) (up_BillingMultiplier p))
    (mkQuota (up_QuotaLimit p) (QuotaUsed q) (QuotaTotalUsed q) (QuotaTotalResetAt q) (up_QuotaUnlimited p)
       (up_QuotaDailyLimit p) (QuotaDailyUsed q) (up_QuotaDailyUnlimited p) (QuotaDailyWindowStart q)
       (up_QuotaWeeklyLimit p) (QuotaWeeklyUsed q) (up_QuotaWeeklyUnlimited p) (QuotaWeeklyWindowStart q))
    (ak_CreatedByAdminID k) (ak_LastUsedAt k) (up_ExpiresAt p) (ak_CreatedAt k).

Definition Update (p : UpdateAPIKeyParams) (t : keyTable) : keyTable * result APIKey string :=
  match t !! up_ID p with
  | None => (t, Err "record not found")
  | Some k => let k := stored (updated p k) in (<[up_ID p := k]> t, Ok k)
  end.

Record RotateAPIKeySecretParams := mkRotateParams {
  rp_ID : uuid; rp_KeyPrefix : string; rp_KeyHash : string; rp_EncryptedSecret : option string;
  rp_MaskedKey : string; rp_KeyKind : string
}.

Definition with_secret (p : RotateAPIKeySecretParams) (k : APIKey) : APIKey :=
  mkKey (ak_ID k) (ak_Name k) (ak_SortOrder k) (rp_KeyPrefix p) (rp_KeyHash p) (rp_EncryptedSecret p)
    (rp_MaskedKey p) (rp_KeyKind p) (ak_Scope k) (ak_Status k) (ak_ModelPolicy k) (ak_SitePolicy k)
    (ak_ModelMappings k) (ak_ImageToolBridge k) (ak_BillingMultiplier k) (ak_Quota k)
    (ak_CreatedByAdminID k) (ak_LastUsedAt k) (ak_ExpiresAt k) (ak_CreatedAt k).

Definition RotateSecret (p : RotateAPIKeySecretParams) (t : keyTable) : keyTable * result APIKey string :=
  match t !! rp_ID p with
  | None => (t, Err "load rotated api key: record not found")
  | Some k =>
      if unique_keys (rp_ID p) (rp_KeyHash p) (rp_KeyPrefix p) t
      then (<[rp_ID p := with_secret p k]> t, Ok (with_secret p k))
      else (t, Err "rotate api key secret: duplicate key")
  end.

Definition DeleteRow (id : uuid) (t : keyTable) : keyTable * option string :=
  match t !! id with
  | None => (t, Some "delete api key: not found")
  | Some _ => (delete id t, None)
  end.

(** [AddUsage]; the returned row is the one in memory. *)
Definition AddUsage (id : uuid) (amount : float64) (t : keyTable) : keyTable * result APIKey string :=
  match t !! id with
  | None => (t, Err "record not found")
  | Some k =>
      let k := with_quota (consumed amount (ak_Quota k)) k in
      (<[id := stored k]> t, Ok k)
  end.

Definition AddUsageAt (id : uuid) (amount : float64) (now : Z) (t : keyTable)
    : keyTable * result APIKey string :=
  match t !! id with
  | None => (t, Err "record not found")
  | Some k =>
      let k := with_quota (chargedAt amount now (ak_Quota k)) k in
      (<[id := stored k]> t, Ok k)
  end.

Definition IncreaseQuotaLimit (id : uuid) (amount : float64) (t : keyTable) : keyTable * result APIKey string :=
  if is_nan amount || is_inf amount || fle amount fzero
  then (t, Err "quota increase amount must be a finite number greater than 0")
  else match t !! id with
  | None => (t, Err "record not found")
  | Some k =>
      match increasedLimit amount (ak_Quota k) with
      | Err e => (t, Err e)
      | Ok q => (<[id := stored (with_quota q k)]> t, Ok (with_quota q k))
      end
  end.

Record APIKeyQuotaResetResult := mkResetResult {
  rr_APIKey : APIKey; rr_TotalUsedBefore : float64; rr_DailyUsedBefore : float64; rr_WeeklyUsedBefore : float64
}.

Definition ResetQuota (id : uuid) (total daily weekly : bool) (now : Z) (t : keyTable)
    : keyTable * result APIKeyQuotaResetResult string :=
  match t !! id with
  | None => (t, Err "record not found")
  | Some k =>
      match resetOf total daily weekly now (ak_Quota k) with
      | Err e => (t, Err e)
      | Ok q =>
          let result := mkResetResult (with_quota q k) (EffectiveTotalQuotaUsed (ak_Quota k))
            (EffectiveDailyQuotaUsed now (ak_Quota k)) (EffectiveWeeklyQuotaUsed now (ak_Quota k)) in
          (<[id := stored (with_quota q k)]> t, Ok result)
      end
  end.

(** ** Looking a key up *)

(** When [last_used_at] was last written, per key; shared by all repositories. *)
Definition apiKeyLastUsedInterval : Z := Minute.
Definition apiKeyLastUsedMaxEntries : nat := 50000.

Definition shouldWrite (id : uuid) (now : Z) (seen : gmap uuid Z) : gmap uuid Z * bool :=
  let recent last := (0 <=? time_sub now last) && (time_sub now last <? apiKeyLastUsedInterval) in
  match seen !! id with
  | Some last =>
      if recent last then (seen, false)
      else
        let seen := if (size seen <? apiKeyLastUsedMaxEntries)%nat then seen
                    else filter (λ kv, time_sub now kv.2 < apiKeyLastUsedInterval) seen in
        (<[id := now]> seen, true)
  | None =>
      let seen := if (size seen <? apiKeyLastUsedMaxEntries)%nat then seen
                  else filter (λ kv, time_sub now kv.2 < apiKeyLastUsedInterval) seen in
      (<[id := now]> seen, true)
  end.

Record keyStore := mkStore { ks_keys : keyTable; ks_seen : gmap uuid Z }.

Definition set_keys (t : keyTable) (s : keyStore) : keyStore := mkStore t (ks_seen s).

(** [expires_at <= now], never of a key without an end. *)
Definition expired (now : Z) (k : APIKey) : bool :=
  match ak_ExpiresAt k with Some at_ => at_ <=? now | None => false end.

Definition DisableExpiredAPIKeys (now : Z) (t : keyTable) : keyTable :=
  (λ k, if bool_decide (ak_Status k = "active") && expired now k then with_status "disabled" k else k) <$> t.

Record activeLookup := mkLookup { lo_KeyKind : string; lo_RequireQuota : bool; lo_TouchLastUsed : bool }.

Inductive lookupError :=
| RecordNotFound
| QuotaError (e : APIKeyQuotaExceededError).

Definition lookupActive (keyHash : string) (now : Z) (opts : activeLookup) (s : keyStore)
    : keyStore * result APIKey lookupError :=
  let matching k := bool_decide (ak_KeyHash k = keyHash)
    && (bool_decide (lo_KeyKind opts = "") || bool_decide (ak_KeyKind k = lo_KeyKind opts)) in
  match first_row matching (ks_keys s) with
  | None => (s, Err RecordNotFound)
  | Some k =>
      if negb (bool_decide (ak_Status k = "active")) then (s, Err RecordNotFound)
      else if expired now k then (set_keys (DisableExpiredAPIKeys now (ks_keys s)) s, Err RecordNotFound)
      else match (if lo_RequireQuota opts then QuotaExceededErrorAt now (ak_Quota k) else None) with
      | Some e => (s, Err (QuotaError e))
      | None =>
          if lo_TouchLastUsed opts then
            let '(seen, write) := shouldWrite (ak_ID k) now (ks_seen s) in
            let k' := with_last_used (Some now) k in
            (mkStore (if write then <[ak_ID k := k']> (ks_keys s) else ks_keys s) seen, Ok k')
          else (s, Ok k)
      end
  end.

Definition GetActiveByHash (keyHash : string) (now : Z) := lookupActive keyHash now (mkLookup "" true true).
Definition GetActiveGeneratedByHash (keyHash : string) (now : Z) :=
  lookupActive keyHash now (mkLookup "generated" true true).
Definition GetActiveIdentityByHash (keyHash : string) (now : Z) := lookupActive keyHash now (mkLookup "" false false).
Definition GetActiveGeneratedIdentityByHash (keyHash : string) (now : Z) :=
  lookupActive keyHash now (mkLookup "generated" false false).

(** [ExistsByHash], and [ExistsGeneratedByHash] with the kind "generated". *)
Definition existsByHash (keyHash keyKind : string) (t : keyTable) : bool :=
  existsb (λ k, bool_decide (ak_KeyHash k = keyHash)
             && (bool_decide (keyKind = "") || bool_decide (ak_KeyKind k = keyKind))) (rows t).

(** ** The order of display *)

Definition apiKeyOrderLess (a b : APIKey) : bool :=
  if negb (ak_SortOrder a =? ak_SortOrder b) then
    if (ak_SortOrder a =? 0) || (ak_SortOrder b =? 0) then negb (ak_SortOrder a =? 0)
    else ak_SortOrder a <? ak_SortOrder b
  else if negb (ak_CreatedAt a =? ak_CreatedAt b) then ak_CreatedAt a <? ak_CreatedAt b
  else string_ltb (uuid_String (ak_ID a)) (uuid_String (ak_ID b)).

Definition SortAPIKeys : list APIKey → list APIKey := SliceStable apiKeyOrderLess.

Definition ListKeys (t : keyTable) : list APIKey := SortAPIKeys (rows t).

(** The loop of [BackfillAPIKeyOrder]. *)
Fixpoint backfill (last : Z) (keys : list APIKey) : list APIKey :=
  match keys with
  | [] => []
  | k :: rest =>
      let last := Z.max last (ak_SortOrder k) in
      if negb (ak_SortOrder k =? 0) then backfill last rest
      else with_order (add64 last 1) k :: backfill (add64 last 1) rest
  end.

Definition BackfillAPIKeyOrder (keys : list APIKey) : list APIKey := backfill 0 (SortAPIKeys keys).

Definition set_order (id : uuid) (order : Z) (t : keyTable) : keyTable := alter (with_order order) id t.

(** The updates of a loop, one row after another. *)
Definition set_orders (l : list (uuid * Z)) (t : keyTable) : keyTable :=
  fold_left (λ t p, set_order p.1 p.2 t) l t.

Definition InitializeOrder (t : keyTable) : keyTable :=
  set_orders (map (λ k, (ak_ID k, ak_SortOrder k)) (BackfillAPIKeyOrder (ListKeys t))) t.

Definition ErrInvalidAPIKeyOrder : string := "api key order must contain every visible key exactly once".

Definition visible (k : APIKey) : bool := negb (bool_decide (ak_KeyKind k = APIKeyKindAgentInternal)).

(** The places of a list, counted from 1. *)
Definition numbered_ids (ids : list uuid) : list (uuid * Z) :=
  imap (λ index id, (id, Z.of_nat index + 1)) ids.

Definition Reorder (ids : list uuid) (t : keyTable) : keyTable * option string :=
  if bool_decide (uuid_Nil ∈ ids) || negb (bool_decide (NoDup ids)) then (t, Some ErrInvalidAPIKeyOrder)
  else
    let shown := List.filter visible (ListKeys t) in
    if negb (forallb (λ k, bool_decide (ak_ID k ∈ ids)) shown)
       || negb (length ids =? length shown)%nat
    then (t, Some ErrInvalidAPIKeyOrder)
    else (set_orders (numbered_ids ids) t, None).
End table.

(** ** What happens to the table *)

Section history.
Context `{NumericColumns, Location, UuidString}.

Inductive tableOp :=
| OpCreate (p : CreateAPIKeyParams) (id : uuid) (now : Z)
| OpUpdate (p : UpdateAPIKeyParams)
| OpRotate (p : RotateAPIKeySecretParams)
| OpDelete (id : uuid)
| OpCharge (id : uuid) (amount : float64) (now : Z)
| OpConsume (id : uuid) (amount : float64)
| OpIncrease (id : uuid) (amount : float64)
| OpReset (id : uuid) (total daily weekly : bool) (now : Z)
| OpLookup (keyHash : string) (now : Z) (opts : activeLookup)
| OpDisableExpired (now : Z)
| OpReorder (ids : list uuid)
| OpInitializeOrder.

Definition perform (o : tableOp) (s : keyStore) : keyStore :=
  let t := ks_keys s in
  match o with
  | OpCreate p id now => set_keys (CreateRow p id now t).1 s
  | OpUpdate p => set_keys (Update p t).1 s
  | OpRotate p => set_keys (RotateSecret p t).1 s
  | OpDelete id => set_keys (DeleteRow id t).1 s
  | OpCharge id amount now => set_keys (AddUsageAt id amount now t).1 s
  | OpConsume id amount => set_keys (AddUsage id amount t).1 s
  | OpIncrease id amount => set_keys (IncreaseQuotaLimit id amount t).1 s
  | OpReset id total daily weekly now => set_keys (ResetQuota id total daily weekly now t).1 s
  | OpLookup keyHash now opts => (lookupActive keyHash now opts s).1
  | OpDisableExpired now => set_keys (DisableExpiredAPIKeys now t) s
  | OpReorder ids => set_keys (Reorder ids t).1 s
  | OpInitializeOrder => set_keys (InitializeOrder t) s
  end.

Definition newStore : keyStore := mkStore ∅ ∅.

Definition run (ops : list tableOp) (s : keyStore) : keyStore := fold_left (λ s o, perform o s) ops s.

(** *** Rows are filed under their identity *)

Definition keyed (t : keyTable) : Prop := map_Forall (λ id k, ak_ID k = id) t.

Lemma keyed_insert id k t : keyed t → ak_ID k = id → keyed (<[id := k]> t).
Proof. intros Ht Hk. by apply map_Forall_insert_2. Qed.

Lemma rows_elem k t : keyed t → k ∈ rows t ↔ t !! ak_ID k = Some k.
Proof.
  intros Ht. unfold rows. split.
  - intros ([id k'] & -> & Hin%elem_of_map_to_list)%list_elem_of_fmap. cbn. by rewrite (Ht id k' Hin).
  - intros Hk%elem_of_map_to_list. apply list_elem_of_fmap. by exists (ak_ID k, k).
Qed.

Lemma first_row_some p t k : first_row p t = Some k → p k = true ∧ k ∈ rows t.
Proof.
  unfold first_row. generalize (rows t) as l. intros l. revert k.
  induction l as [|k l IH]; cbn; intros k0; [done|].
  destruct (p k) eqn:Ep.
  - destruct (foldr _ _ _) as [b|].
    + destruct (_ <? _)%N; intros [= <-].
      * destruct (IH b eq_refl). split; [done|by right].
      * split; [done|by left].
    + intros [= <-]. split; [done|by left].
  - intros E. destruct (IH k0 E). split; [done|by right].
Qed.

Lemma first_row_none p t k : first_row p t = None → k ∈ rows t → p k = false.
Proof.
  unfold first_row. generalize (rows t) as l. intros l.
  induction l as [|k' l IH]; cbn; [by intros _ ?%not_elem_of_nil|].
  destruct (p k') eqn:Ep.
  - destruct (foldr _ _ _) as [b|]; [by destruct (_ <? _)%N|done].
  - intros E [->|Hin]%elem_of_cons; auto.
Qed.

(** *** The accounts *)

(** [AddUsageAt] charges at a time, [AddUsage] without one. *)
Inductive quotaEntry :=
| Charged (amount : float64) (now : Z)
| Consumed (amount : float64)
| Cleared (total daily weekly : bool) (now : Z).

Definition entry_time (e : quotaEntry) : Z :=
  match e with Charged _ now | Cleared _ _ _ now => now | Consumed _ => 0 end.

(** The entries that belong to a day. *)
Definition timed : list quotaEntry → list quotaEntry :=
  List.filter (λ e, match e with Consumed _ => false | _ => true end).

(** What an operation puts on the account of [id]. *)
Definition booked (id : uuid) (o : tableOp) (t : keyTable) : option quotaEntry :=
  match o with
  | OpCharge id' amount now => if bool_decide (id' = id) then Some (Charged amount now) else None
  | OpConsume id' amount => if bool_decide (id' = id) then Some (Consumed amount) else None
  | OpReset id' total daily weekly now =>
      if bool_decide (id' = id) then
        match (ResetQuota id' total daily weekly now t).2 with
        | Ok _ => Some (Cleared total daily weekly now)
        | Err _ => None
        end
      else None
  | _ => None
  end.

Fixpoint statement (id : uuid) (ops : list tableOp) (s : keyStore) : list quotaEntry :=
  match ops with
  | [] => []
  | o :: rest => option_list (booked id o (ks_keys s)) ++ statement id rest (perform o s)
  end.

(** One more amount, as the columns keep it. *)
Definition add_up (used amount : float64) : float64 := numeric8 (fadd used amount).

Definition spent_ever (l : list quotaEntry) : float64 :=
  fold_left (λ u e, match e with Charged a _ | Consumed a => add_up u a | Cleared _ _ _ _ => u end) l fzero.

Definition spent_in_total (l : list quotaEntry) : float64 :=
  fold_left (λ u e, match e with
                    | Charged a _ | Consumed a => add_up u a
                    | Cleared total _ _ _ => if total then fzero else u
                    end) l fzero.

End history.

(** *** A counter that starts again in each window *)

Section window.
Context (add : float64 → float64 → float64) (start : quotaEntry → Z) (clears : quotaEntry → bool).

Definition window_step (w : option Z * float64) (e : quotaEntry) : option Z * float64 :=
  match e with
  | Charged a _ => (Some (start e), add (if bool_decide (w.1 = Some (start e)) then w.2 else fzero) a)
  | _ => if clears e then (Some (start e), fzero) else w
  end.

Definition window_spent (d : Z) (l : list quotaEntry) : float64 :=
  fold_left (λ u e, match e with Charged a _ => add u a | _ => if clears e then fzero else u end)
    (filter (λ e, start e = d) l) fzero.

Lemma window_spent_snoc d l e :
  window_spent d (l ++ [e]) =
  if decide (start e = d)
  then match e with
       | Charged a _ => add (window_spent d l) a
       | _ => if clears e then fzero else window_spent d l
       end
  else window_spent d l.
Proof.
  unfold window_spent. rewrite list.filter_app, fold_left_app, list.filter_cons.
  destruct (decide _); cbn; [by destruct e|done].
Qed.

Lemma window_spent_none d l : Forall (λ e, start e < d) l → window_spent d l = fzero.
Proof.
  intros Hl. unfold window_spent. rewrite filter_none; [done|].
  eapply list.Forall_impl; [exact Hl|]. cbn. lia.
Qed.

(** In windows that follow each other the counter holds what was spent in the present one. *)
Lemma window_counts l : StronglySorted Z.le (map start l) →
  let '(w, used) := fold_left window_step l (None, fzero) in
  (∀ d, w = Some d → used = window_spent d l)
  ∧ (∀ d, Forall (λ e, start e ≤ d) l → w ≠ Some d → window_spent d l = fzero).
Proof.
  induction l as [|e l IH] using rev_ind; intros Hs; [by split|].
  rewrite map_app in Hs. assert (StronglySorted Z.le (map start l)) as Hs' by (by eapply StronglySorted_app_1_l).
  assert (Forall (λ x, start x ≤ start e) l) as Hle.
  { apply list.Forall_forall. intros x Hx.
    eapply StronglySorted_app_1_elem_of; [exact Hs|by apply list_elem_of_fmap_2|by left]. }
  specialize (IH Hs'). rewrite fold_left_app. cbn [fold_left].
  destruct (fold_left window_step l (None, fzero)) as [w used]. destruct IH as [Hw Hno].
  assert (Hnow : (if bool_decide (w = Some (start e)) then used else fzero) = window_spent (start e) l).
  { case_bool_decide as E; [by apply Hw|]. symmetry. by apply Hno. }
  assert (Hearlier : ∀ d, start e < d → window_spent d l = fzero).
  { intros d Hd. apply window_spent_none. eapply list.Forall_impl; [exact Hle|]. cbn. lia. }
  assert (Hlater : ∀ d, Forall (λ x, start x ≤ d) (l ++ [e]) → Forall (λ x, start x ≤ d) l ∧ start e ≤ d).
  { intros d [H1 H2]%list.Forall_app. split; [exact H1|]. by inversion H2. }
  destruct e as [a t|a|to da we t]; cbn [window_step fst snd].
  { rewrite Hnow. split; intros d; rewrite window_spent_snoc.
    + intros [= <-]. by rewrite decide_True.
    + intros [_ Hd]%Hlater Hne. rewrite decide_False by congruence.
      apply Hearlier. assert (start (Charged a t) ≠ d) by congruence. lia. }
  1: set (e := Consumed a) in *. 2: set (e := Cleared to da we t) in *.
  all: destruct (clears e) eqn:Ec; split; intros d; rewrite window_spent_snoc; subst e; rewrite Ec.
  1,5: intros [= <-]; by rewrite decide_True.
  1,4: intros [_ Hd]%Hlater Hne; rewrite decide_False by congruence; apply Hearlier;
       match goal with |- ?x < _ => assert (x ≠ d) by congruence end; lia.
  1,3: intros Hd; destruct (decide _); by apply Hw.
  all: intros [Hd _]%Hlater Hne; destruct (decide _); by apply Hno.
Qed.
End window.

Definition clears_day (e : quotaEntry) : bool := match e with Cleared _ daily _ _ => daily | _ => false end.
Definition clears_week (e : quotaEntry) : bool := match e with Cleared _ _ weekly _ => weekly | _ => false end.
Definition entry_day `{Location} (e : quotaEntry) : Z := StartOfDay (entry_time e).
Definition entry_week `{Location} (e : quotaEntry) : Z := StartOfWeek (entry_time e).

(** What was spent in the day, or week, that began at [d], since it was last reset. *)
Definition spent_on `{NumericColumns, Location} (d : Z) (l : list quotaEntry) : float64 :=
  window_spent add_up entry_day clears_day d (timed l).
Definition spent_in_week `{NumericColumns, Location} (d : Z) (l : list quotaEntry) : float64 :=
  window_spent add_up entry_week clears_week d (timed l).

(** *** One operation, one entry *)

Section accounts.
Context `{NumericColumns, !NumericLaws, Location, UuidString}.

(** What [stored_quota] may change of the counters. *)
Lemma stored_quota_idem q : stored_quota (stored_quota q) = stored_quota q.
Proof.
  assert (∀ o : option float64, numeric8 <$> (numeric8 <$> o) = numeric8 <$> o) as Ho.
  { intros [x|]; [|done]. cbn. by rewrite numeric8_idem. }
  unfold stored_quota. cbn -[fmap]. by rewrite !numeric8_idem, !Ho.
Qed.

Definition usage (q : quotaState) : float64 * float64 * option Z * float64 * option Z * float64 * option Z :=
  (QuotaUsed q, QuotaTotalUsed q, QuotaTotalResetAt q, QuotaDailyUsed q, QuotaDailyWindowStart q,
   QuotaWeeklyUsed q, QuotaWeeklyWindowStart q).

(** Rows are as they are read back. *)
Definition settled (k : APIKey) : Prop := stored_quota (ak_Quota k) = ak_Quota k.

Lemma stored_settled k : settled (stored k).
Proof. apply stored_quota_idem. Qed.

(** How one operation changes the counters of a row, given its entry. *)
Inductive accounted : option quotaEntry → quotaState → quotaState → Prop :=
| acc_kept q q' : usage q' = usage q → accounted None q q'
| acc_charged q amount now : accounted (Some (Charged amount now)) q (stored_quota (chargedAt amount now q))
| acc_consumed q amount : accounted (Some (Consumed amount)) q (stored_quota (consumed amount q))
| acc_cleared q q' total daily weekly now :
    resetOf total daily weekly now q = Ok q' →
    accounted (Some (Cleared total daily weekly now)) q (stored_quota q').

(** Fields that are read back the way they were written. *)
Lemma usage_stored q q' : stored_quota q = q → usage q' = usage q → usage (stored_quota q') = usage q.
Proof.
  intros Hq%(f_equal usage). unfold usage in *. cbn in *. intros [= -> -> -> -> -> -> ->]. exact Hq.
Qed.

Lemma increased_usage amount q q' : increasedLimit amount q = Ok q' → usage q' = usage q.
Proof.
  unfold increasedLimit. destruct (QuotaLimit q); [|done]. destruct (QuotaUnlimited q); [done|].
  destruct (_ || _); [done|]. by intros [= <-].
Qed.

(** Operations that only set the place of rows, one after another. *)
Lemma set_orders_lookup (l : list (uuid * Z)) (t : keyTable) id :
  set_orders l t !! id =
  (λ k, fold_left (λ k p, if decide (p.1 = id) then with_order p.2 k else k) l k) <$> t !! id.
Proof.
  unfold set_orders. revert t. induction l as [|[i o] l IH]; intros t; cbn [fold_left]; [by destruct (t !! id)|].
  rewrite IH. unfold set_order. cbn [fst snd].
  destruct (decide (i = id)) as [->|Hne]; [rewrite lookup_alter_eq|rewrite lookup_alter_ne by done];
    by destruct (t !! id).
Qed.

(** Every row is filed under its identity, as it is read back. *)
Definition good (t : keyTable) : Prop := map_Forall (λ id k, ak_ID k = id ∧ settled k) t.

Lemma good_keyed t : good t → keyed t.
Proof. intros Ht id k Hk. by destruct (Ht id k Hk). Qed.

Lemma good_insert id k t : good t → ak_ID k = id → settled k → good (<[id := k]> t).
Proof. intros ???. by apply map_Forall_insert_2. Qed.

Lemma good_set_orders l t : good t → good (set_orders l t).
Proof.
  intros Ht id k'. rewrite set_orders_lookup. intros (k & Hk & ->)%fmap_Some.
  specialize (Ht id k Hk). revert Ht. generalize k. clear k Hk.
  induction l as [|[i o] l IH]; intros k Hk; [done|]. cbn. apply IH. by destruct (decide _).
Qed.

Lemma set_orders_quota (l : list (uuid * Z)) id k :
  ak_Quota (fold_left (λ k p, if decide (p.1 = id) then with_order p.2 k else k) l k) = ak_Quota k.
Proof.
  revert k. induction l as [|p l IH]; intros k; [done|]. cbn. rewrite IH. by destruct (decide _).
Qed.

(** A look-up answers with an error, or with the row it found, touched or not. *)
Lemma lookup_active_keys hash now opts s :
  keyed (ks_keys s) →
  ks_keys (lookupActive hash now opts s).1 = ks_keys s
  ∨ ks_keys (lookupActive hash now opts s).1 = DisableExpiredAPIKeys now (ks_keys s)
  ∨ ∃ k, ks_keys s !! ak_ID k = Some k
         ∧ ks_keys (lookupActive hash now opts s).1 = <[ak_ID k := with_last_used (Some now) k]> (ks_keys s).
Proof.
  intros Hs. unfold lookupActive. destruct (first_row _ _) as [k|] eqn:E; [|by left].
  apply first_row_some in E as [_ Hk]. apply rows_elem in Hk; [|done].
  destruct (negb _); [by left|]. destruct (expired _ _); [by right; left|].
  destruct (if lo_RequireQuota opts then _ else _); [by left|].
  destruct (lo_TouchLastUsed opts); [|by left].
  destruct (shouldWrite _ _ _) as [seen []]; cbn; [|by left]. right; right. by exists k.
Qed.

Lemma good_perform o s : good (ks_keys s) → good (ks_keys (perform o s)).
Proof.
  intros Hs. destruct o; cbn [perform ks_keys set_keys].
  - unfold CreateRow. destruct (_ !! _); [done|]. destruct (unique_keys _ _ _ _); [|done].
    apply good_insert; [done|done|apply stored_settled].
  - unfold Update. destruct (_ !! _) as [k|] eqn:E; [|done].
    apply good_insert; [done| |apply stored_settled]. by destruct (Hs _ _ E).
  - unfold RotateSecret. destruct (_ !! _) as [k|] eqn:E; [|done]. destruct (unique_keys _ _ _ _); [|done].
    by apply good_insert; destruct (Hs _ _ E).
  - unfold DeleteRow. destruct (_ !! _); [|done]. by apply map_Forall_delete.
  - unfold AddUsageAt. destruct (_ !! _) as [k|] eqn:E; [|done].
    apply good_insert; [done| |apply stored_settled]. by destruct (Hs _ _ E).
  - unfold AddUsage. destruct (_ !! _) as [k|] eqn:E; [|done].
    apply good_insert; [done| |apply stored_settled]. by destruct (Hs _ _ E).
  - unfold IncreaseQuotaLimit. destruct (_ || _); [done|]. destruct (_ !! _) as [k|] eqn:E; [|done].
    destruct (increasedLimit _ _); [|done].
    apply good_insert; [done| |apply stored_settled]. by destruct (Hs _ _ E).
  - unfold ResetQuota. destruct (_ !! _) as [k|] eqn:E; [|done]. destruct (resetOf _ _ _ _ _); [|done].
    apply good_insert; [done| |apply stored_settled]. by destruct (Hs _ _ E).
  - destruct (lookup_active_keys keyHash now opts s (good_keyed _ Hs)) as [->|[->|(k & Hk & ->)]]; [done| |].
    + intros id k' (k & <- & Hk)%lookup_fmap_Some. destruct (Hs _ _ Hk). by destruct (_ && _).
    + by apply good_insert; destruct (Hs _ _ Hk).
  - intros id k' (k & <- & Hk)%lookup_fmap_Some. destruct (Hs _ _ Hk). by destruct (_ && _).
  - unfold Reorder. destruct (_ || _); [done|]. destruct (_ || _); [done|]. by apply good_set_orders.
  - by apply good_set_orders.
Qed.

(** The row that is there is changed by its own operations, and only as its entry says. *)
Lemma perform_accounts o s id k :
  good (ks_keys s) → o ≠ OpDelete id → ks_keys s !! id = Some k →
  ∃ k', ks_keys (perform o s) !! id = Some k' ∧ accounted (booked id o (ks_keys s)) (ak_Quota k) (ak_Quota k').
Proof.
  intros Hs Ho Hk. assert (Hset := proj2 (Hs id k Hk)).
  assert (Hsame : accounted None (ak_Quota k) (ak_Quota k)) by (by constructor).
  destruct o; cbn [perform ks_keys set_keys booked].
  - exists k. split; [|done]. unfold CreateRow. destruct (_ !! id0) eqn:E; [done|].
    destruct (unique_keys _ _ _ _); [|done]. cbn. rewrite lookup_insert_ne; congruence.
  - unfold Update. destruct (_ !! up_ID p) as [k'|] eqn:E; [|by exists k].
    destruct (decide (up_ID p = id)) as [<-|Hne]; [|exists k; split; [by cbn; rewrite lookup_insert_ne|done]].
    eexists. split; [apply lookup_insert_eq|]. constructor. simplify_eq. by apply usage_stored.
  - unfold RotateSecret. destruct (_ !! rp_ID p) as [k'|] eqn:E; [|by exists k].
    destruct (unique_keys _ _ _ _); [|by exists k].
    destruct (decide (rp_ID p = id)) as [<-|Hne]; [|exists k; split; [by cbn; rewrite lookup_insert_ne|done]].
    eexists. split; [apply lookup_insert_eq|]. by simplify_eq.
  - exists k. split; [|done]. unfold DeleteRow. destruct (_ !! id0); [|done]. cbn.
    rewrite lookup_delete_ne; congruence.
  - unfold AddUsageAt. destruct (bool_decide_reflect (id0 = id)) as [->|Hne].
    + rewrite Hk. eexists. split; [apply lookup_insert_eq|]. apply acc_charged.
    + exists k. split; [|done]. destruct (_ !! id0); [|done]. by cbn; rewrite lookup_insert_ne.
  - unfold AddUsage. destruct (bool_decide_reflect (id0 = id)) as [->|Hne].
    + rewrite Hk. eexists. split; [apply lookup_insert_eq|]. apply acc_consumed.
    + exists k. split; [|done]. destruct (_ !! id0); [|done]. by cbn; rewrite lookup_insert_ne.
  - unfold IncreaseQuotaLimit. destruct (_ || _); [by exists k|].
    destruct (_ !! id0) as [k'|] eqn:E; [|by exists k].
    destruct (increasedLimit _ _) as [q|] eqn:Eq; [|by exists k].
    destruct (decide (id0 = id)) as [->|Hne]; [|exists k; split; [by cbn; rewrite lookup_insert_ne|done]].
    eexists. split; [apply lookup_insert_eq|]. simplify_eq. constructor. cbn.
    apply usage_stored; [done|]. by eapply increased_usage.
  - unfold ResetQuota. destruct (bool_decide_reflect (id0 = id)) as [->|Hne].
    + rewrite Hk. destruct (resetOf _ _ _ _ _) as [q|] eqn:Eq; [|by exists k].
      eexists. split; [apply lookup_insert_eq|]. by apply acc_cleared.
    + exists k. split; [|done]. destruct (_ !! id0); [|done]. destruct (resetOf _ _ _ _ _); [|done].
      by cbn; rewrite lookup_insert_ne.
  - destruct (lookup_active_keys keyHash now opts s (good_keyed _ Hs)) as [->|[->|(k' & Hk' & ->)]]; [by exists k| |].
    + unfold DisableExpiredAPIKeys. rewrite lookup_fmap, Hk. eexists. split; [done|]. by destruct (_ && _).
    + destruct (decide (ak_ID k' = id)) as [<-|Hne]; [|exists k; split; [by cbn; rewrite lookup_insert_ne|done]].
      eexists. split; [apply lookup_insert_eq|]. by simplify_eq.
  - unfold DisableExpiredAPIKeys. rewrite lookup_fmap, Hk. eexists. split; [done|]. by destruct (_ && _).
  - unfold Reorder. destruct (_ || _); [by exists k|]. destruct (_ || _); [by exists k|]. cbn [fst].
    rewrite set_orders_lookup, Hk. eexists. split; [done|]. by rewrite set_orders_quota.
  - unfold InitializeOrder. rewrite set_orders_lookup, Hk. eexists. split; [done|]. by rewrite set_orders_quota.
Qed.

Record balanced (l : list quotaEntry) (q : quotaState) : Prop := mkBalanced {
  bal_ever : QuotaUsed q = spent_ever l;
  bal_total : QuotaTotalUsed q = spent_in_total l;
  bal_reset : QuotaTotalResetAt q = None → spent_in_total l = spent_ever l;
  bal_day : (QuotaDailyWindowStart q, QuotaDailyUsed q)
            = fold_left (window_step add_up entry_day clears_day) (timed l) (None, fzero);
  bal_week : (QuotaWeeklyWindowStart q, QuotaWeeklyUsed q)
             = fold_left (window_step add_up entry_week clears_week) (timed l) (None, fzero)
}.

Lemma balanced_total l q : balanced l q → EffectiveTotalQuotaUsed q = spent_in_total l.
Proof.
  intros [He Ht Hr _ _]. unfold EffectiveTotalQuotaUsed. rewrite He, Ht.
  case_bool_decide as E; [|by rewrite andb_false_r]. rewrite (Hr E), andb_true_r.
  by destruct (feq _ _).
Qed.

Lemma balanced_kept l q q' : usage q' = usage q → balanced l q → balanced l q'.
Proof.
  unfold usage. intros [= E1 E2 E3 E4 E5 E6 E7] [].
  constructor; by rewrite ?E1, ?E2, ?E3, ?E4, ?E5, ?E6, ?E7.
Qed.

Lemma timed_app l m : timed (l ++ m) = timed l ++ timed m.
Proof. apply List.filter_app. Qed.

Lemma balanced_step l e q q' :
  stored_quota q = q → accounted e q q' → balanced l q → balanced (l ++ option_list e) q'.
Proof.
  intros Hq He Hl. destruct He as [q q' Hu|q a t|q a|q q' total daily weekly t Hr]; cbn [option_list].
  - rewrite app_nil_r. by eapply balanced_kept.
  - pose proof (balanced_total l q Hl) as Htotal. destruct Hl as [He Ht Hr Hd Hw].
    constructor; unfold spent_ever, spent_in_total; cbn; rewrite ?fold_left_app; cbn.
    + by rewrite He.
    + by rewrite Htotal.
    + intros Hn. specialize (Hr Hn). unfold spent_in_total, spent_ever in Hr. by rewrite Hr.
    + by rewrite timed_app, fold_left_app, <- Hd.
    + by rewrite timed_app, fold_left_app, <- Hw.
  - pose proof (balanced_total l q Hl) as Htotal. destruct Hl as [He Ht Hr Hd Hw].
    apply (f_equal usage) in Hq. unfold usage in Hq. cbn in Hq. injection Hq as Q1 Q2 Q3 Q4.
    constructor; unfold spent_ever, spent_in_total; cbn; rewrite ?fold_left_app; cbn.
    + by rewrite He.
    + by rewrite Htotal.
    + intros Hn. specialize (Hr Hn). unfold spent_in_total, spent_ever in Hr. by rewrite Hr.
    + by rewrite timed_app, app_nil_r, <- Hd, Q3.
    + by rewrite timed_app, app_nil_r, <- Hw, Q4.
  - apply (f_equal usage) in Hq. unfold usage in Hq. cbn in Hq. injection Hq as Q1 Q2 Q3 Q4.
    destruct Hl as [He Ht Hn Hd Hw]. unfold resetOf in Hr.
    destruct (total && _); [done|]. destruct (daily && _); [done|]. destruct (weekly && _); [done|].
    injection Hr as <-.
    constructor; unfold spent_ever, spent_in_total; cbn; rewrite ?fold_left_app; cbn.
    + by rewrite Q1, He.
    + destruct total; [apply numeric8_zero|]. by rewrite Q2, Ht.
    + destruct total; [done|]. intros E. by apply Hn.
    + rewrite timed_app, fold_left_app, <- Hd. cbn. destruct daily; [by rewrite numeric8_zero|by rewrite Q3].
    + rewrite timed_app, fold_left_app, <- Hw. cbn. destruct weekly; [by rewrite numeric8_zero|by rewrite Q4].
Qed.

Lemma balanced_run id ops : ∀ l s k,
  good (ks_keys s) → OpDelete id ∉ ops → ks_keys s !! id = Some k → balanced l (ak_Quota k) →
  ∃ k', ks_keys (run ops s) !! id = Some k' ∧ balanced (l ++ statement id ops s) (ak_Quota k').
Proof.
  induction ops as [|o ops IH]; intros l s k Hs Hops Hk Hl.
  - exists k. cbn. by rewrite app_nil_r.
  - apply not_elem_of_cons in Hops as [Ho Hops].
    destruct (perform_accounts o s id k Hs) as (k' & Hk' & Hacc); [congruence|done|].
    cbn [statement run fold_left]. rewrite app_assoc.
    apply (IH _ _ k'); [by apply good_perform|done|done|].
    eapply balanced_step; [|done|done]. by destruct (Hs id k Hk).
Qed.

Lemma good_run ops s : good (ks_keys s) → good (ks_keys (run ops s)).
Proof. revert s. induction ops as [|o l IH]; intros s Hs; [done|]. cbn. apply IH. by apply good_perform. Qed.

Lemma balanced_window start clears l now (w : option Z) used :
  (w, used) = fold_left (window_step add_up start clears) l (None, fzero) →
  StronglySorted Z.le (map start l ++ [now]) →
  (if bool_decide (w = Some now) then used else fzero) = window_spent add_up start clears now l.
Proof.
  intros Hw Hs. pose proof (window_counts add_up start clears l) as Hc. rewrite <- Hw in Hc.
  destruct Hc as [Hin Hout]; [by eapply StronglySorted_app_1_l|].
  case_bool_decide as E; [by apply Hin|]. symmetry. apply Hout; [|done].
  apply list.Forall_forall. intros e He.
  eapply StronglySorted_app_1_elem_of; [exact Hs|by apply list_elem_of_fmap_2|by left].
Qed.

Lemma created_balanced p id now t k :
  (CreateRow p id now t).2 = Ok k →
  ∃ k', (CreateRow p id now t).1 !! id = Some k' ∧ balanced [] (ak_Quota k').
Proof.
  unfold CreateRow. destruct (t !! id); [done|]. destruct (unique_keys _ _ _ _); [|done].
  intros _. eexists. split; [apply lookup_insert_eq|].
  constructor; cbn; by rewrite ?numeric8_zero.
Qed.

(** A limit is not reached. *)
Lemma total_below (unlimited : bool) (limit : option float64) (used : float64) :
  negb unlimited && match limit with Some x => fge used x | None => true end = false
  ↔ unlimited = true ∨ ∃ x, limit = Some x ∧ fge used x = false.
Proof. destruct unlimited, limit as [x|]; cbn -[fge]; naive_solver. Qed.

Lemma period_below (unlimited : bool) (limit : option float64) (used : float64) :
  negb unlimited && match limit with Some x => fge used x | None => false end = false
  ↔ unlimited = true ∨ ∀ x, limit = Some x → fge used x = false.
Proof. destruct unlimited, limit as [x|]; cbn -[fge]; naive_solver. Qed.

(** C3: The quota of a key is what was charged to it.  Take a key that is created at any point
    of any history, and whatever operations of the table follow until it is deleted, with the
    days and weeks of its charges and resets not going back.  Then it counts in total what was
    charged since its total was last reset, be it through [AddUsageAt], as the recorder of
    requests does, or through [AddUsage], as [ConsumeQuota] does; it counts today and this week
    what [AddUsageAt] charged in them since they were last reset ([AddUsage] charges neither);
    and it is let through just as long as these amounts are below its limits. *)
Theorem quota_counts_what_is_spent before p id created ops now k0 :
  let s := run before newStore in
  (CreateRow p id created (ks_keys s)).2 = Ok k0 → OpDelete id ∉ ops →
  let s1 := perform (OpCreate p id created) s in
  let l := statement id ops s1 in
  StronglySorted Z.le (map entry_day (timed l) ++ [StartOfDay now]) →
  StronglySorted Z.le (map entry_week (timed l) ++ [StartOfWeek now]) →
  ∃ k, ks_keys (run ops s1) !! id = Some k
    ∧ let q := ak_Quota k in
      QuotaUsed q = spent_ever l
      ∧ EffectiveTotalQuotaUsed q = spent_in_total l
      ∧ EffectiveDailyQuotaUsed now q = spent_on (StartOfDay now) l
      ∧ EffectiveWeeklyQuotaUsed now q = spent_in_week (StartOfWeek now) l
      ∧ (QuotaExceededErrorAt now q = None ↔
         (QuotaUnlimited q = true
          ∨ ∃ limit, QuotaLimit q = Some limit ∧ fge (spent_in_total l) limit = false)
         ∧ (QuotaDailyUnlimited q = true
            ∨ ∀ limit, QuotaDailyLimit q = Some limit → fge (spent_on (StartOfDay now) l) limit = false)
         ∧ (QuotaWeeklyUnlimited q = true
            ∨ ∀ limit, QuotaWeeklyLimit q = Some limit →
                fge (spent_in_week (StartOfWeek now) l) limit = false)).
Proof.
  intros s Hk0 Hops s1 l Hdays Hweeks.
  assert (good (ks_keys s)) as Hs by (by apply good_run).
  destruct (created_balanced p id created _ k0 Hk0) as (k1 & Hk1 & Hbal).
  destruct (balanced_run id ops [] s1 k1) as (k & Hk & Hl); [by apply good_perform|done|done|done|].
  exists k. split; [done|]. cbn [app] in Hl. fold l in Hl.
  pose proof (balanced_total _ _ Hl) as Htotal.
  pose proof (balanced_window _ _ _ _ _ _ (bal_day _ _ Hl) Hdays) as Hday.
  pose proof (balanced_window _ _ _ _ _ _ (bal_week _ _ Hl) Hweeks) as Hweek.
  change (EffectiveDailyQuotaUsed now (ak_Quota k) = spent_on (StartOfDay now) l) in Hday.
  change (EffectiveWeeklyQuotaUsed now (ak_Quota k) = spent_in_week (StartOfWeek now) l) in Hweek.
  split_and!; [apply Hl|done..|]. unfold QuotaExceededErrorAt. rewrite Htotal, Hday, Hweek.
  rewrite <- total_below, <- !period_below.
  destruct (_ && _); [naive_solver|]. destruct (_ && _); [naive_solver|]. destruct (_ && _); naive_solver.
Qed.
End accounts.

(** ** The order of display *)

Section display.
Context `{UuidString}.

Definition place_less (a b : APIKey) : bool :=
  if (ak_SortOrder a =? 0) || (ak_SortOrder b =? 0)
  then negb (ak_SortOrder a =? 0) && (ak_SortOrder b =? 0) else ak_SortOrder a <? ak_SortOrder b.
Definition created_less (a b : APIKey) : bool := ak_CreatedAt a <? ak_CreatedAt b.
Definition text_less (a b : APIKey) : bool := string_ltb (uuid_String (ak_ID a)) (uuid_String (ak_ID b)).

#[local] Instance place_order : StrictWeak place_less (λ _, True).
Proof.
  unfold place_less. split; intros x y.
  - intros _ _. destruct (Z.eqb_spec (ak_SortOrder x) 0), (Z.eqb_spec (ak_SortOrder y) 0); cbn; lia.
  - intros z _ _ _.
    destruct (Z.eqb_spec (ak_SortOrder x) 0), (Z.eqb_spec (ak_SortOrder y) 0), (Z.eqb_spec (ak_SortOrder z) 0);
      cbn; lia.
Qed.

#[local] Instance created_order : StrictWeak created_less (λ _, True).
Proof. unfold created_less. split; intros; lia. Qed.

#[local] Instance text_order : StrictWeak text_less (λ _, True).
Proof.
  split; [intros ????; apply string_ltb_asym|intros ??????; apply string_not_ltb_trans].
Qed.

Lemma order_less_lex a b : apiKeyOrderLess a b = lex place_less (lex created_less text_less) a b.
Proof.
  unfold apiKeyOrderLess, lex, place_less, created_less, text_less.
  destruct (Z.eqb_spec (ak_SortOrder a) (ak_SortOrder b)) as [->|Ho]; cbn [negb].
  - destruct (Z.eqb_spec (ak_SortOrder b) 0) as [|]; cbn [orb andb negb]; rewrite ?Z.ltb_irrefl; cbn [negb];
      (destruct (Z.eqb_spec (ak_CreatedAt a) (ak_CreatedAt b)) as [->|]; cbn [negb];
       [by rewrite Z.ltb_irrefl|]; destruct (ak_CreatedAt a <? ak_CreatedAt b) eqn:E1,
         (ak_CreatedAt b <? ak_CreatedAt a) eqn:E2; cbn; lia).
  - destruct (Z.eqb_spec (ak_SortOrder a) 0), (Z.eqb_spec (ak_SortOrder b) 0); cbn; try lia.
    destruct (ak_SortOrder a <? ak_SortOrder b) eqn:E1, (ak_SortOrder b <? ak_SortOrder a) eqn:E2; cbn; lia.
Qed.

#[export] Instance api_key_order : StrictWeak apiKeyOrderLess (λ _, True).
Proof.
  pose proof (_ : StrictWeak (lex place_less (lex created_less text_less)) (λ _, True)) as [Hasym Htrans].
  split.
  - intros x y Hx Hy. rewrite !order_less_lex. by apply Hasym.
  - intros x y z Hx Hy Hz. rewrite !order_less_lex. by apply Htrans.
Qed.

Lemma ListKeys_perm t : ListKeys t ≡ₚ rows t.
Proof. symmetry. apply SliceStable_perm. Qed.

Lemma ListKeys_sorted t : StronglySorted (not_after apiKeyOrderLess) (ListKeys t).
Proof. apply (SliceStable_sorted _ (λ _, True)). by apply list.Forall_true. Qed.

(** The updates of a loop, for a row that is among them. *)
Lemma fold_orders_in (l : list (uuid * Z)) id o k :
  NoDup l.*1 → (id, o) ∈ l →
  fold_left (λ k p, if decide (p.1 = id) then with_order p.2 k else k) l k = with_order o k.
Proof.
  revert k. induction l as [|[i o'] l IH]; intros k; [by intros _ ?%not_elem_of_nil|].
  intros [Hi Hl]%list.NoDup_cons. cbn [fold_left fst snd]. intros [[= <- <-]|Hin]%elem_of_cons.
  - rewrite decide_True by done. cbn in Hi. clear IH. generalize (with_order o k). clear k Hl.
    induction l as [|[j o'] l IH]; intros k; [done|]. cbn in Hi |- *.
    apply not_elem_of_cons in Hi as [Hne Hi]. rewrite decide_False by done. by apply IH.
  - rewrite decide_False; [by apply IH|]. intros ->. apply Hi. by apply (list_elem_of_fmap_2 fst _ (id, o)).
Qed.

Lemma numbered_fst ids : (numbered_ids ids).*1 = ids.
Proof. unfold numbered_ids. rewrite fmap_imap. apply list_eq. intros i. rewrite list_lookup_imap. by destruct (ids !! i). Qed.

Lemma numbered_sorted ids : StronglySorted (λ p q, p.2 < q.2) (numbered_ids ids).
Proof.
  apply StronglySorted_by_index. intros i j p q. unfold numbered_ids.
  intros (x & _ & ->)%list_lookup_imap_Some (y & _ & ->)%list_lookup_imap_Some Hij. cbn. lia.
Qed.

Lemma filter_StronglySorted {A} (R : A → A → Prop) p l : StronglySorted R l → StronglySorted R (List.filter p l).
Proof.
  induction 1 as [|x l Hl IH Hx]; [constructor|]. cbn. destruct (p x); [|done]. constructor; [done|].
  apply list.Forall_forall. intros y [Hy _]%list_elem_of_In%filter_In.
  rewrite list.Forall_forall in Hx. by apply Hx, list_elem_of_In.
Qed.

(** Keys at places of their own, from 1, are listed by their places. *)
Lemma listed_by_place l :
  StronglySorted (not_after apiKeyOrderLess) l → NoDup (map ak_SortOrder l) →
  Forall (λ k, 0 < ak_SortOrder k) l → StronglySorted (λ p q, p.2 < q.2) (map (λ k, (ak_ID k, ak_SortOrder k)) l).
Proof.
  induction 1 as [|k l Hl IH Hk]; [constructor|]. cbn [map]. intros [Hnew Hnd]%list.NoDup_cons [H0 Hpos]%list.Forall_cons.
  constructor; [by apply IH|]. apply list.Forall_forall. intros p (k' & -> & Hk')%list_elem_of_fmap.
  rewrite list.Forall_forall in Hk. specialize (Hk k' Hk'). rewrite list.Forall_forall in Hpos. specialize (Hpos k' Hk').
  assert (ak_SortOrder k ≠ ak_SortOrder k') as Hne.
  { intros E. apply Hnew. rewrite E. by apply list_elem_of_fmap_2. }
  unfold not_after, apiKeyOrderLess in Hk. cbn in Hpos |- *.
  rewrite (proj2 (Z.eqb_neq _ _)) in Hk by lia. rewrite !(proj2 (Z.eqb_neq _ 0)) in Hk by lia. cbn in Hk. lia.
Qed.

Lemma fold_visible (l : list (uuid * Z)) id k :
  visible (fold_left (λ k p, if decide (p.1 = id) then with_order p.2 k else k) l k) = visible k.
Proof. revert k. induction l as [|p l IH]; intros k; [done|]. cbn. rewrite IH. by destruct (decide _). Qed.

Lemma keyed_set_orders l t : keyed t → keyed (set_orders l t).
Proof.
  intros Ht id k'. rewrite set_orders_lookup. intros (k & Hk & ->)%fmap_Some.
  specialize (Ht id k Hk). revert Ht. generalize k. clear k Hk.
  induction l as [|[i o] l IH]; intros k Hk; [done|]. cbn. apply IH. by destruct (decide _).
Qed.

Definition shown (t : keyTable) : list APIKey := List.filter visible (ListKeys t).

Lemma shown_elem t k : keyed t → k ∈ shown t ↔ t !! ak_ID k = Some k ∧ visible k = true.
Proof.
  intros Ht. unfold shown. rewrite list_elem_of_In, filter_In, <- list_elem_of_In, (ListKeys_perm t).
  by rewrite rows_elem.
Qed.

Lemma shown_NoDup t : keyed t → NoDup (map ak_ID (shown t)).
Proof.
  intros Ht. assert (NoDup (map ak_ID (ListKeys t))) as Hnd.
  { rewrite (ListKeys_perm t). unfold rows. rewrite <- list_fmap_compose.
    erewrite list_fmap_ext; [apply (NoDup_fst_map_to_list t)|].
    intros i [id k] Hi%list_elem_of_lookup_2%elem_of_map_to_list. cbn. by apply Ht. }
  unfold shown. revert Hnd. induction (ListKeys t) as [|k l IH]; [done|]. cbn. intros [Hk Hl]%list.NoDup_cons.
  destruct (visible k); [|by apply IH]. cbn. apply list.NoDup_cons. split; [|by apply IH].
  intros (k' & E & Hin)%list_elem_of_fmap. apply Hk. rewrite E. apply list_elem_of_fmap_2.
  apply list_elem_of_In in Hin. apply filter_In in Hin as [Hin _]. by apply list_elem_of_In.
Qed.

(** After the updates the visible keys have just the places of the list. *)
Lemma reordered_places ids t :
  keyed t → NoDup ids → map ak_ID (shown t) ≡ₚ ids →
  map (λ k, (ak_ID k, ak_SortOrder k)) (shown (set_orders (numbered_ids ids) t)) ≡ₚ numbered_ids ids.
Proof.
  intros Ht Hnd Hids.
  assert (Hplace : ∀ id o k, (id, o) ∈ numbered_ids ids → t !! id = Some k →
            set_orders (numbered_ids ids) t !! id = Some (with_order o k)).
  { intros id o k Hin Hk. rewrite set_orders_lookup, Hk. cbn. f_equal.
    apply fold_orders_in; [by rewrite numbered_fst|done]. }
  pose proof (keyed_set_orders (numbered_ids ids) t Ht) as Ht'.
  apply NoDup_Permutation.
  - apply (NoDup_fmap_1 fst). rewrite <- list_fmap_compose. by apply shown_NoDup.
  - apply (NoDup_fmap_1 fst). by rewrite numbered_fst.
  - intros [id o]. split.
    + intros (k' & [= -> ->] & [Hk' Hv]%shown_elem)%list_elem_of_fmap; [|done].
      rewrite set_orders_lookup in Hk'. apply fmap_Some in Hk' as (k & Hk & Hk').
      assert (ak_ID k' ∈ ids) as Hin.
      { rewrite <- Hids, <- (Ht _ _ Hk). apply list_elem_of_fmap_2. apply shown_elem; [done|].
        rewrite (Ht _ _ Hk). split; [done|]. by rewrite Hk', fold_visible in Hv. }
      rewrite <- (numbered_fst ids) in Hin. apply list_elem_of_fmap in Hin as ([id o] & Hid & Hin).
      cbn in Hid. pose proof (Hplace id o k Hin) as Hp. rewrite <- Hid in Hp. specialize (Hp Hk).
      rewrite set_orders_lookup, Hk in Hp. cbn in Hp. injection Hp as Hp.
      assert (ak_SortOrder k' = o) as -> by (by rewrite (eq_trans Hk' Hp)). by rewrite Hid.
    + intros Hin. assert (id ∈ ids) as Hid.
      { rewrite <- (numbered_fst ids). by apply (list_elem_of_fmap_2 fst _ (id, o)). }
      rewrite <- Hids in Hid. apply list_elem_of_fmap in Hid as (k & -> & [Hk Hv]%shown_elem); [|done].
      specialize (Hplace _ _ _ Hin Hk). apply list_elem_of_fmap. exists (with_order o k).
      split; [done|]. apply shown_elem; [done|]. by split.
Qed.

(** Reordering does what it says.  When the order is accepted, the list of the keys shows
    the visible ones in exactly the order that was asked for, whatever places they and the
    hidden keys had before. *)
Theorem reorder_shows_the_given_order `{NumericColumns, !NumericLaws, Location} before ids t' :
  let t := ks_keys (run before newStore) in
  Reorder ids t = (t', None) → map ak_ID (List.filter visible (ListKeys t')) = ids.
Proof.
  intros t. assert (keyed t) as Ht by (apply good_keyed, good_run; done).
  unfold Reorder. destruct (_ || _) eqn:E1; [done|]. apply orb_false_elim in E1 as [_ Hnd%negb_false_iff].
  apply bool_decide_eq_true in Hnd. destruct (_ || _) eqn:E2; [done|]. intros [= <-].
  apply orb_false_elim in E2 as [Hall%negb_false_iff Hlen%negb_false_iff].
  change (map ak_ID (shown (set_orders (numbered_ids ids) t)) = ids).
  assert (map ak_ID (shown t) ≡ₚ ids) as Hids.
  { apply submseteq_length_Permutation.
    - apply NoDup_submseteq; [by apply shown_NoDup|]. intros id (k & -> & Hk)%list_elem_of_fmap.
      rewrite forallb_forall in Hall. apply list_elem_of_In in Hk. by apply Hall, bool_decide_eq_true in Hk.
    - apply Nat.eqb_eq in Hlen. rewrite length_map. unfold shown in *. lia. }
  pose proof (reordered_places ids t Ht Hnd Hids) as Hp.
  assert (map (λ k, (ak_ID k, ak_SortOrder k)) (shown (set_orders (numbered_ids ids) t)) = numbered_ids ids) as Heq.
  { apply (StronglySorted_unique_strong (λ p q, p.2 < q.2)); [| |apply numbered_sorted|exact Hp].
    - intros p q _ _ H12 H21. cbn in *. lia.
    - apply listed_by_place.
      + apply filter_StronglySorted, ListKeys_sorted.
      + pose proof (Permutation_map snd Hp) as Hs. rewrite map_map in Hs. cbn in Hs.
        rewrite Hs. change (NoDup (numbered_ids ids).*2).
        unfold numbered_ids. rewrite fmap_imap. cbn.
        change (NoDup (imap (λ j (_ : uuid), Z.of_nat j + 1) ids)).
        rewrite (imap_seq_0 ids (λ i, Z.of_nat i + 1)). apply NoDup_fmap_2; [intros ???; lia|apply NoDup_seq].
      + apply list.Forall_forall. intros k Hk.
        apply (list_elem_of_fmap_2 (λ k, (ak_ID k, ak_SortOrder k))) in Hk. rewrite Hp in Hk.
        apply elem_of_lookup_imap_1 in Hk as (i & id & [= _ ->] & _). lia. }
  apply (f_equal (map fst)) in Heq. rewrite map_map in Heq. etransitivity; [exact Heq|apply numbered_fst].
Qed.
End display.

(** ** A limit that is missing *)

(** A key that is not unlimited but has no total limit - [CreateAPIKey] accepts it - is always
    refused, while [QuotaExceeded], by which the overshoot is reported, says it is within. *)
Theorem missing_limit_refuses `{Location} now q :
  QuotaUnlimited q = false → QuotaLimit q = None →
  QuotaExceededErrorAt now q = Some (mkQuotaError "total" None) ∧ QuotaExceeded q = false.
Proof. unfold QuotaExceededErrorAt, QuotaExceeded. by intros -> ->. Qed.

(** ** The limits of a new key *)

(** A key that is created with a daily or a weekly limit does not have it: the flag that says
    it is limited is Go's false, and the column's default is written for it.  However much is
    charged, the key is never refused for a day or a week, until it is updated.  The restore of
    a backup sets these flags again ([restoreAPIKeyPeriodicQuotaFlags]). *)
Theorem created_limits_do_not_bind `{NumericColumns, Location, UuidString} p id created t k charges now :
  (CreateRow p id created t).2 = Ok k →
  let q := fold_left (λ q c, chargedAt c.1 c.2 q) charges (ak_Quota k) in
  match QuotaExceededErrorAt now q with Some e => qe_Scope e = "total" | None => True end.
Proof.
  intros Hk q.
  assert (QuotaDailyUnlimited q = true ∧ QuotaWeeklyUnlimited q = true) as [Hd Hw].
  { assert (QuotaDailyUnlimited (ak_Quota k) = true ∧ QuotaWeeklyUnlimited (ak_Quota k) = true) as Hq.
    { unfold CreateRow in Hk. destruct (t !! id); [done|]. destruct (unique_keys _ _ _ _); [|done].
      injection Hk as <-. cbn. split; by destruct (cp_QuotaDailyUnlimited p), (cp_QuotaWeeklyUnlimited p). }
    subst q. revert Hq. generalize (ak_Quota k). clear Hk.
    induction charges as [|c charges IH]; intros q Hq; [done|]. apply IH. exact Hq. }
  unfold QuotaExceededErrorAt. rewrite Hd, Hw. cbn. by destruct (_ && _).
Qed.

(** ** Concrete tables *)

Definition exactColumns : NumericColumns := {| numeric8 := λ x, x; numeric4 := λ x, x |}.
Lemma exactLaws : @NumericLaws exactColumns.
Proof. by constructor. Qed.

(** UTC+8, as in Asia/Shanghai. *)
Definition plusEight : Location := λ _, (28800, -9223372036, 9223372036).
Definition hexID : UuidString := λ id, String (ascii_of_N id) "".

Definition sampleKey (hash kind : string) : CreateAPIKeyParams :=
  mkCreateParams "key" hash hash None "****" kind "gateway" "active" "allow_all" "allow_all" [] None
    (of_int 1) (Some (of_int 10)) false (Some (of_int 4)) false None true None None.

(** Noon of a day, counted from 1970-01-01, UTC+8. *)
Definition noon (day : Z) : Z := (day * daySeconds + 4 * 3600 - zeroUnix) * Second.

(** The daily limit binds only once the key is updated. *)
Definition sampleUpdate : UpdateAPIKeyParams :=
  mkUpdateParams 1%N "key" "active" "allow_all" "allow_all" None None None (Some (of_int 10)) false
    (Some (of_int 4)) false None true None.

Definition sampleCharges : list tableOp :=
  [OpUpdate sampleUpdate; OpCharge 1%N (of_int 3) (noon 20000); OpReset 1%N false true false (noon 20000);
   OpConsume 1%N (of_int 2); OpCharge 1%N (of_int 3) (noon 20001);
   OpReorder [1%N]; OpCharge 2%N (of_int 5) (noon 20001); OpCharge 1%N (of_int 1) (noon 20001)].

Lemma quota_counts_what_is_spent_witness :
  let s1 := @perform exactColumns plusEight hexID (OpCreate (sampleKey "h1" "generated") 1%N 0) newStore in
  let l := @statement exactColumns plusEight hexID 1%N sampleCharges s1 in
  ∃ k, ks_keys (@run exactColumns plusEight hexID sampleCharges s1) !! 1%N = Some k
    ∧ EffectiveTotalQuotaUsed (ak_Quota k) = @spent_in_total exactColumns l
    ∧ @spent_in_total exactColumns l = of_int 9
    ∧ @spent_on exactColumns plusEight (@StartOfDay plusEight (noon 20001)) l = of_int 4
    ∧ @QuotaExceededErrorAt plusEight (noon 20001) (ak_Quota k)
      = Some (mkQuotaError "daily" (Some (noon 20001 + 12 * Hour)))
    ∧ @QuotaExceededErrorAt plusEight (noon 20002) (ak_Quota k) = None.
Proof.
  intros s1 l.
  destruct (@quota_counts_what_is_spent exactColumns exactLaws plusEight hexID [] (sampleKey "h1" "generated") 1%N 0
    sampleCharges (noon 20002) (default (mkKey 0%N "" 0 "" "" None "" "" "" "" "" "" MappingInvalid None fzero
      (mkQuota None fzero fzero None true None fzero true None None fzero true None) None None None 0)
      (head (rows (ks_keys s1)))))
    as (k & Hk & _ & Htotal & _ & _ & Hok).
  - vm_compute. reflexivity.
  - unfold sampleCharges. rewrite !not_elem_of_cons. split_and!; [discriminate..|apply not_elem_of_nil].
  - vm_compute. repeat constructor; discriminate.
  - vm_compute. repeat constructor; discriminate.
  - exists k. split; [exact Hk|]. split; [exact Htotal|].
    split; [vm_compute; reflexivity|]. split; [vm_compute; reflexivity|].
    vm_compute in Hk. injection Hk as <-. split; vm_compute; reflexivity.
Defined.

Lemma reorder_shows_the_given_order_witness :
  let before := [OpCreate (sampleKey "h1" "generated") 1%N 0; OpCreate (sampleKey "h2" "agent_internal") 2%N 0;
                 OpCreate (sampleKey "h3" "custom") 3%N 0] in
  let t := ks_keys (@run exactColumns plusEight hexID before newStore) in
  ∃ t', @Reorder hexID [3%N; 1%N] t = (t', None)
    ∧ map ak_ID (List.filter visible (@ListKeys hexID t)) = [1%N; 3%N]
    ∧ map ak_ID (List.filter visible (@ListKeys hexID t')) = [3%N; 1%N].
Proof.
  intros before t. exists (@Reorder hexID [3%N; 1%N] t).1.
  assert (@Reorder hexID [3%N; 1%N] t = ((@Reorder hexID [3%N; 1%N] t).1, None)) as E
    by (vm_compute; reflexivity).
  split; [exact E|]. split; [vm_compute; reflexivity|].
  apply (@reorder_shows_the_given_order hexID exactColumns exactLaws plusEight before [3%N; 1%N] _ E).
Defined.
