(* ===== verification/ApiKeyAccess.v ===== *)
(** * What an API key may reach

    The permission tables of [store/api_key_access_repository.go] and of
    [store/api_key_repository.go], the resolution of a key's access in [auth/service.go] and
    [setupRoute] of [gateway/handler_chat.go], over the table of [ApiKeyStore] and the router
    of [Router].  The catalogue's look-ups are a parameter, see [Router.RouteStore].  A
    transaction that fails leaves the tables as they were. *)

From S2P Require Import Prelude GoFloat Catalog RouteCooldowns SiteConfig Router RateLimit ApiKeyStore.

(** ** Tables beside the keys *)

Record APIKeySitePermission := mkSitePermission { sp_APIKeyID : uuid; sp_SiteID : uuid; sp_Enabled : bool }.

Record APIKeySiteGroupPermission := mkGroupPermission {
  gp_APIKeyID : uuid; gp_GroupID : uuid; gp_Enabled : bool
}.

Record APIKeySiteModelPermission := mkModelPermission {
  mp_APIKeyID : uuid; mp_SiteModelID : uuid; mp_Enabled : bool
}.

Record SiteModel := mkSiteModel {
  sm_ID : uuid; sm_SiteID : uuid; sm_CanonicalID : option uuid; sm_UpstreamName : string; sm_DisplayName : string
}.

Record SiteRow := mkSite { si_ID : uuid; si_Name : string; si_Slug : string; si_SiteType : string }.

Record tables := mkTables {
  tb_store : keyStore;
  tb_sitePermissions : list APIKeySitePermission;
  tb_groupPermissions : list APIKeySiteGroupPermission;
  tb_modelPermissions : list APIKeySiteModelPermission;
  tb_groups : gmap uuid bool;                    (* enabled *)
  tb_groupSites : list (uuid * uuid);            (* group, site *)
  tb_sites : gmap uuid SiteRow;
  tb_siteModels : gmap uuid SiteModel;
  tb_canonical : gmap uuid CanonicalModel;
  tb_rateLimits : gmap uuid GatewayRateLimit
}.

Definition tb_keys (d : tables) : gmap uuid APIKey := ks_keys (tb_store d).

Definition set_store (s : keyStore) (d : tables) : tables :=
  mkTables s (tb_sitePermissions d) (tb_groupPermissions d) (tb_modelPermissions d) (tb_groups d)
    (tb_groupSites d) (tb_sites d) (tb_siteModels d) (tb_canonical d) (tb_rateLimits d).
Definition set_table (t : gmap uuid APIKey) (d : tables) : tables := set_store (set_keys t (tb_store d)) d.
Definition set_sitePermissions (l : list APIKeySitePermission) (d : tables) : tables :=
  mkTables (tb_store d) l (tb_groupPermissions d) (tb_modelPermissions d) (tb_groups d)
    (tb_groupSites d) (tb_sites d) (tb_siteModels d) (tb_canonical d) (tb_rateLimits d).
Definition set_groupPermissions (l : list APIKeySiteGroupPermission) (d : tables) : tables :=
  mkTables (tb_store d) (tb_sitePermissions d) l (tb_modelPermissions d) (tb_groups d)
    (tb_groupSites d) (tb_sites d) (tb_siteModels d) (tb_canonical d) (tb_rateLimits d).
Definition set_modelPermissions (l : list APIKeySiteModelPermission) (d : tables) : tables :=
  mkTables (tb_store d) (tb_sitePermissions d) (tb_groupPermissions d) l (tb_groups d)
    (tb_groupSites d) (tb_sites d) (tb_siteModels d) (tb_canonical d) (tb_rateLimits d).
Definition set_rateLimits (m : gmap uuid GatewayRateLimit) (d : tables) : tables :=
  mkTables (tb_store d) (tb_sitePermissions d) (tb_groupPermissions d) (tb_modelPermissions d) (tb_groups d)
    (tb_groupSites d) (tb_sites d) (tb_siteModels d) (tb_canonical d) m.

(** ** Lists without repetition *)

(** The loops over a list with a set of what was seen. *)
Fixpoint firsts (seen : gset uuid) (items : list uuid) : list uuid :=
  match items with
  | [] => []
  | x :: rest => if bool_decide (x ∈ seen) then firsts seen rest else x :: firsts ({[x]} ∪ seen) rest
  end.

(** [normalizeUUIDs], and [uniqueUUIDs] of the store *)
Definition normalizeUUIDs (items : list uuid) : list uuid := firsts {[uuid_Nil]} items.

(** ** Permissions *)

(** A unique constraint and the references of the rows that are written. *)
Definition SetSitePermissions (apiKeyID : uuid) (siteIDs : list uuid) (d : tables) : result tables string :=
  if negb (forallb (λ id, bool_decide (is_Some (tb_sites d !! id))) siteIDs)
     || negb (bool_decide (NoDup siteIDs)) || negb (bool_decide (siteIDs = []) || bool_decide (is_Some (tb_keys d !! apiKeyID)))
  then Err "set api key site permission"
  else Ok (set_sitePermissions
    (List.filter (λ p, negb (bool_decide (sp_APIKeyID p = apiKeyID))) (tb_sitePermissions d)
       ++ map (λ id, mkSitePermission apiKeyID id true) siteIDs) d).

Definition SetSiteGroupPermissions (apiKeyID : uuid) (groupIDs : list uuid) (d : tables) : result tables string :=
  let groupIDs := normalizeUUIDs groupIDs in
  if negb (forallb (λ id, bool_decide (is_Some (tb_groups d !! id))) groupIDs)
     || negb (bool_decide (groupIDs = []) || bool_decide (is_Some (tb_keys d !! apiKeyID)))
  then Err "set api key site group permission"
  else Ok (set_groupPermissions
    (List.filter (λ p, negb (bool_decide (gp_APIKeyID p = apiKeyID))) (tb_groupPermissions d)
       ++ map (λ id, mkGroupPermission apiKeyID id true) groupIDs) d).

Definition SetSiteModelPermissions (apiKeyID : uuid) (siteModelIDs : list uuid) (d : tables) : result tables string :=
  let siteModelIDs := normalizeUUIDs siteModelIDs in
  if negb (forallb (λ id, bool_decide (is_Some (tb_siteModels d !! id))) siteModelIDs)
     || negb (bool_decide (siteModelIDs = []) || bool_decide (is_Some (tb_keys d !! apiKeyID)))
  then Err "set api key site model permission"
  else Ok (set_modelPermissions
    (List.filter (λ p, negb (bool_decide (mp_APIKeyID p = apiKeyID))) (tb_modelPermissions d)
       ++ map (λ id, mkModelPermission apiKeyID id true) siteModelIDs) d).

Definition AllowedSiteIDs (apiKeyID : uuid) (d : tables) : list uuid :=
  map sp_SiteID (List.filter (λ p, bool_decide (sp_APIKeyID p = apiKeyID) && sp_Enabled p) (tb_sitePermissions d)).

Definition ListSiteGroupPermissions (apiKeyID : uuid) (d : tables) : list APIKeySiteGroupPermission :=
  List.filter (λ p, bool_decide (gp_APIKeyID p = apiKeyID)) (tb_groupPermissions d).

Definition EnabledSiteIDsForGroups (groupIDs : list uuid) (d : tables) : list uuid :=
  firsts ∅ (map snd (List.filter (λ gs,
    bool_decide (gs.1 ∈ groupIDs) && bool_decide (tb_groups d !! gs.1 = Some true)) (tb_groupSites d))).

Definition enabledModelPermissions (apiKeyID : uuid) (d : tables) : list APIKeySiteModelPermission :=
  List.filter (λ p, bool_decide (mp_APIKeyID p = apiKeyID) && mp_Enabled p) (tb_modelPermissions d).

Definition EnabledSiteModelIDs (apiKeyID : uuid) (d : tables) : list uuid :=
  map mp_SiteModelID (enabledModelPermissions apiKeyID d).

(** The details of the nil identifier are never loaded. *)
Definition siteModelOf (id : uuid) (d : tables) : option SiteModel :=
  if bool_decide (id = uuid_Nil) then None else tb_siteModels d !! id.

Definition EnabledSiteModelIDsForCanonical (apiKeyID canonicalModelID : uuid) (d : tables) : list uuid :=
  map mp_SiteModelID (List.filter (λ p,
    match siteModelOf (mp_SiteModelID p) d with
    | Some model => bool_decide (sm_CanonicalID model = Some canonicalModelID)
    | None => false
    end) (enabledModelPermissions apiKeyID d)).

(** ** What a key may reach *)

(** [nil] and the empty list are one; the two loops share what they have seen. *)
Definition effectiveAllowedSiteIDs (k : APIKey) (d : tables) : list uuid :=
  if bool_decide (ak_SitePolicy k = "allow_all") then []
  else
    let groupIDs := map gp_GroupID (List.filter gp_Enabled (ListSiteGroupPermissions (ak_ID k) d)) in
    normalizeUUIDs (AllowedSiteIDs (ak_ID k) d ++ EnabledSiteIDsForGroups groupIDs d).

(** The error is a site model that is gone. *)
Fixpoint filterSiteModelIDs (ids : list uuid) (allowed : list uuid) (d : tables) : result (list uuid) string :=
  match ids with
  | [] => Ok []
  | id :: rest =>
      match tb_siteModels d !! id with
      | None => Err "record not found"
      | Some model =>
          match filterSiteModelIDs rest allowed d with
          | Err e => Err e
          | Ok l => Ok (if bool_decide (sm_SiteID model ∈ allowed) then id :: l else l)
          end
      end
  end.

Definition filterSiteModelIDsBySites (siteModelIDs allowedSiteIDs : list uuid) (d : tables) : result (list uuid) string :=
  if bool_decide (siteModelIDs = []) || bool_decide (allowedSiteIDs = []) then Ok []
  else filterSiteModelIDs siteModelIDs allowedSiteIDs d.

Definition allowedSiteModelIDsForCanonical (apiKeyID canonicalModelID : uuid) (allowedSiteIDs : list uuid) (d : tables)
    : result (list uuid) string :=
  let ids := EnabledSiteModelIDsForCanonical apiKeyID canonicalModelID d in
  if bool_decide (allowedSiteIDs = []) then Ok ids else filterSiteModelIDsBySites ids allowedSiteIDs d.

Record APIKeyAccessSets := mkAccessSets {
  as_APIKey : APIKey; as_AllowedSiteIDs : list uuid; as_AllowedSiteModelIDs : list uuid
}.

Definition ResolveAPIKeyModelListAccess (k : APIKey) (d : tables) : APIKeyAccessSets :=
  let ids := if bool_decide (ak_ModelPolicy k = "allow_list") then EnabledSiteModelIDs (ak_ID k) d else [] in
  if bool_decide (ak_ModelPolicy k = "allow_list") && bool_decide (ids = []) then mkAccessSets k [] []
  else mkAccessSets k (effectiveAllowedSiteIDs k d) ids.

Definition ResolveAPIKeyAccessSets (apiKeyID : uuid) (d : tables) : result APIKeyAccessSets string :=
  match tb_keys d !! apiKeyID with
  | None => Err "record not found"
  | Some k =>
      let allowedSiteIDs := effectiveAllowedSiteIDs k d in
      if bool_decide (ak_ModelPolicy k = "allow_list") then
        let ids := EnabledSiteModelIDs (ak_ID k) d in
        if bool_decide (ak_SitePolicy k = "allow_list") then
          match filterSiteModelIDsBySites ids allowedSiteIDs d with
          | Err e => Err e
          | Ok ids => Ok (mkAccessSets k allowedSiteIDs ids)
          end
        else Ok (mkAccessSets k allowedSiteIDs ids)
      else Ok (mkAccessSets k allowedSiteIDs [])
  end.

Inductive accessError := ErrSiteNotAllowed | ErrModelNotAllowed | AccessError (message : string).

Record APIKeyRouteAccess := mkRouteAccess {
  ra_Allowed : bool; ra_APIKey : APIKey; ra_RequestedModel : string; ra_ModelKey : string;
  ra_CanonicalModel : CanonicalModel; ra_AllowedSiteIDs : list uuid; ra_AllowedSiteModelIDs : list uuid
}.

(** [resolveCanonicalModel] of the service; the router has its own. *)
Definition resolveCanonical (st : RouteStore) (modelKey : string) : result CanonicalModel string :=
  let normalized := CanonicalModelKeyFromUpstream modelKey in
  let normalized := if bool_decide (normalized = "") then NormalizeModelKey modelKey else normalized in
  if bool_decide (normalized = "") then Err "model_key is required"
  else match st_GetByKey st normalized with
  | Ok (Some canonical) => Ok canonical
  | Err e => Err e
  | Ok None =>
      match st_GetByNormalizedAlias st normalized with
      | Ok (Some canonical) => Ok canonical
      | _ => Err "canonical model was not found"
      end
  end.

Definition ResolveAPIKeyRouteAccess (st : RouteStore) (apiKeyID : uuid) (modelKey : string) (d : tables)
    : result APIKeyRouteAccess accessError :=
  match tb_keys d !! apiKeyID with
  | None => Err (AccessError "record not found")
  | Some k =>
      match resolveCanonical st modelKey with
      | Err e => Err (AccessError e)
      | Ok canonical =>
          let allowedSiteIDs := effectiveAllowedSiteIDs k d in
          if bool_decide (ak_SitePolicy k = "allow_list") && bool_decide (allowedSiteIDs = []) then Err ErrSiteNotAllowed
          else
            let access ids := mkRouteAccess true k modelKey (cn_ModelKey canonical) canonical allowedSiteIDs ids in
            if bool_decide (ak_ModelPolicy k = "allow_list") then
              match allowedSiteModelIDsForCanonical (ak_ID k) (cn_ID canonical) allowedSiteIDs d with
              | Err e => Err (AccessError e)
              | Ok [] => Err ErrModelNotAllowed
              | Ok ids => Ok (access ids)
              end
            else Ok (access [])
      end
  end.

Definition CheckSiteAccess (apiKeyID siteID : uuid) (d : tables) : result bool string :=
  match tb_keys d !! apiKeyID with
  | None => Err "record not found"
  | Some k =>
      if bool_decide (ak_SitePolicy k = "allow_all") then Ok true
      else Ok (bool_decide (siteID ∈ effectiveAllowedSiteIDs k d))
  end.

(** ** The set-up of a route *)

Record chatFailure := mkChatFailure {
  cf_status : Z; cf_code : string; cf_message : string; cf_requestedModel : string; cf_stage : string
}.

(** A plan, or why there is none; a missing route is remembered. *)
Inductive routeSetup :=
| Routed (access : APIKeyRouteAccess) (plan : SelectionPlan)
| NotRouted (failure : chatFailure) (noRoute : option APIKeyRouteAccess).

(** [explicitImage] is [imageIntent == codexImageIntentExplicit], [canonicalImage] is
    [request.Canonical.Image != nil]. *)
Definition setupRoute (st : RouteStore) (orders : nat → list string) (now : Z) (apiKeyID : uuid)
    (endpointType requestedModel : string) (canonicalImage explicitImage bridged : bool) (d : tables) : routeSetup :=
  match ResolveAPIKeyRouteAccess st apiKeyID requestedModel d with
  | Err ErrModelNotAllowed =>
      NotRouted (mkChatFailure 403 "model_not_allowed" "api key is not allowed to access this model" requestedModel "authz") None
  | Err ErrSiteNotAllowed =>
      NotRouted (mkChatFailure 403 "site_not_allowed" "api key is not allowed to access any site" requestedModel "authz") None
  | Err (AccessError e) => NotRouted (mkChatFailure 400 "invalid_model" e requestedModel "authz") None
  | Ok access =>
      let endpointType := if canonicalImage then "gemini-image" else endpointType in
      let query := mkQuery (ra_ModelKey access) endpointType (explicitImage && negb bridged) false
        (ra_AllowedSiteIDs access) (ra_AllowedSiteModelIDs access) [] [] 0 3 in
      match Plan st orders now query with
      | Ok plan => Routed access plan
      | Err e =>
          if bool_decide (e = ErrNoRouteCandidates) then
            if explicitImage
            then NotRouted (mkChatFailure 400 "image_generation_not_supported"
                   "no available upstream route candidate supports image generation" (ra_ModelKey access) "route_plan") None
            else NotRouted (mkChatFailure 503 "no_route_candidates" "no available upstream route candidates"
                   (ra_ModelKey access) "route_plan") (Some access)
          else NotRouted (mkChatFailure 502 "route_selection_failed" e (ra_ModelKey access) "route_plan") None
      end
  end.

(** ** What the permissions say *)

(** A site opened for the key itself, or through an enabled group. *)
Definition permittedSite (k : APIKey) (site : uuid) (d : tables) : Prop :=
  (∃ p, p ∈ tb_sitePermissions d ∧ sp_APIKeyID p = ak_ID k ∧ sp_SiteID p = site ∧ sp_Enabled p = true)
  ∨ (∃ p, p ∈ tb_groupPermissions d ∧ gp_APIKeyID p = ak_ID k ∧ gp_Enabled p = true
       ∧ tb_groups d !! gp_GroupID p = Some true ∧ (gp_GroupID p, site) ∈ tb_groupSites d).

Definition permittedModel (k : APIKey) (siteModel : uuid) (d : tables) : Prop :=
  ∃ p, p ∈ tb_modelPermissions d ∧ mp_APIKeyID p = ak_ID k ∧ mp_SiteModelID p = siteModel ∧ mp_Enabled p = true.

Lemma firsts_elem seen l x : x ∈ firsts seen l ↔ x ∈ l ∧ x ∉ seen.
Proof.
  revert seen. induction l as [|y l IH]; intros seen; cbn; [set_solver|].
  case_bool_decide; [|rewrite elem_of_cons]; rewrite IH; [set_solver|].
  destruct (decide (x = y)); set_solver.
Qed.

Lemma firsts_NoDup seen l : NoDup (firsts seen l).
Proof.
  revert seen. induction l as [|y l IH]; intros seen; cbn; [constructor|].
  case_bool_decide; [done|]. apply list.NoDup_cons. split; [|done]. rewrite firsts_elem. set_solver.
Qed.

Lemma normalizeUUIDs_elem l x : x ∈ normalizeUUIDs l ↔ x ∈ l ∧ x ≠ uuid_Nil.
Proof. unfold normalizeUUIDs. rewrite firsts_elem. set_solver. Qed.

(** Membership in a list kept and mapped. *)
Lemma elem_of_map_filter {A B} (f : A → B) (p : A → bool) l y :
  y ∈ map f (List.filter p l) ↔ ∃ x, x ∈ l ∧ p x = true ∧ y = f x.
Proof.
  rewrite list_elem_of_fmap. split.
  - intros (x & -> & Hx). apply list_elem_of_In, filter_In in Hx as [Hx Hp]. exists x. by rewrite list_elem_of_In.
  - intros (x & Hx & Hp & ->). exists x. split; [done|]. apply list_elem_of_In, filter_In. by rewrite <- list_elem_of_In.
Qed.


Lemma effective_elem k d site :
  ak_SitePolicy k ≠ "allow_all" →
  site ∈ effectiveAllowedSiteIDs k d ↔ site ≠ uuid_Nil ∧ permittedSite k site d.
Proof.
  intros Hk. unfold effectiveAllowedSiteIDs. rewrite bool_decide_eq_false_2 by done.
  unfold permittedSite, AllowedSiteIDs, EnabledSiteIDsForGroups, ListSiteGroupPermissions.
  rewrite normalizeUUIDs_elem, elem_of_app, firsts_elem, !elem_of_map_filter. split.
  - intros [[(p & Hp & Hc & ->)|[([g s] & Hgs & Hc & ->) _]] Hnil]; split; try done.
    + apply andb_prop in Hc as [Hc%bool_decide_eq_true He]. left. by exists p.
    + apply andb_prop in Hc as [Hg%bool_decide_eq_true He%bool_decide_eq_true]. cbn in *.
      apply elem_of_map_filter in Hg as (p & Hp & Hpe & ->).
      apply list_elem_of_In, filter_In in Hp as [Hp Hkey%bool_decide_eq_true].
      right. exists p. by rewrite list_elem_of_In.
  - intros [Hnil [(p & Hp & Hk' & <- & He)|(p & Hp & Hk' & He & Hg & Hgs)]]; split; try done.
    + left. exists p. by rewrite Hk', He, bool_decide_eq_true_2.
    + right. split; [|set_solver]. exists (gp_GroupID p, site). split; [done|]. split; [|done].
      cbn. rewrite (bool_decide_eq_true_2 (_ = Some true)) by done. rewrite andb_true_r. apply bool_decide_eq_true.
      apply elem_of_map_filter. exists p. split; [|done].
      apply list_elem_of_In, filter_In. rewrite <- list_elem_of_In. split; [done|]. by apply bool_decide_eq_true.
Qed.

Lemma effective_NoDup k d : NoDup (effectiveAllowedSiteIDs k d).
Proof.
  unfold effectiveAllowedSiteIDs. case_bool_decide; [constructor|]. apply firsts_NoDup.
Qed.

Lemma enabled_models_elem k d m : m ∈ EnabledSiteModelIDs (ak_ID k) d ↔ permittedModel k m d.
Proof.
  unfold EnabledSiteModelIDs, enabledModelPermissions, permittedModel. rewrite elem_of_map_filter. split.
  - intros (p & Hp & [Hc%bool_decide_eq_true He]%andb_prop & ->). by exists p.
  - intros (p & Hp & Hk & <- & He). exists p. by rewrite Hk, He, bool_decide_eq_true_2.
Qed.

(** The site model exists and is of the canonical model. *)
Definition servesCanonical (canonicalModelID siteModel : uuid) (d : tables) : Prop :=
  ∃ model, siteModelOf siteModel d = Some model ∧ sm_CanonicalID model = Some canonicalModelID.

Lemma canonical_models_elem k canonicalID d m :
  m ∈ EnabledSiteModelIDsForCanonical (ak_ID k) canonicalID d ↔ permittedModel k m d ∧ servesCanonical canonicalID m d.
Proof.
  unfold EnabledSiteModelIDsForCanonical, servesCanonical. rewrite <- enabled_models_elem.
  unfold EnabledSiteModelIDs. rewrite elem_of_map_filter, list_elem_of_fmap. split.
  - intros (p & Hp & Hc & ->). split; [by exists p|].
    destruct (siteModelOf _ d) as [model|]; [|done]. exists model. split; [done|]. by apply bool_decide_eq_true in Hc.
  - intros [(p & -> & Hp) (model & Hm & Hc)]. exists p. split; [done|]. rewrite Hm. split; [|done]. by apply bool_decide_eq_true.
Qed.

Lemma filterSiteModelIDs_elem ids allowed d l m :
  filterSiteModelIDs ids allowed d = Ok l →
  m ∈ l ↔ m ∈ ids ∧ ∃ model, tb_siteModels d !! m = Some model ∧ sm_SiteID model ∈ allowed.
Proof.
  revert l. induction ids as [|id ids IH]; intros l; cbn; [intros [= <-]; set_solver|].
  destruct (tb_siteModels d !! id) as [model|] eqn:Em; [|done].
  destruct (filterSiteModelIDs ids allowed d) as [l'|]; [|done]. intros [= <-].
  specialize (IH l' eq_refl). case_bool_decide as Ha; rewrite ?elem_of_cons, IH; [|naive_solver].
  split; [intros [->|[? ?]]|intros [[->|] ?]]; eauto; naive_solver.
Qed.

Lemma filterSiteModelIDs_err ids allowed d e :
  filterSiteModelIDs ids allowed d = Err e → ∃ id, id ∈ ids ∧ tb_siteModels d !! id = None.
Proof.
  induction ids as [|id ids IH]; cbn; [done|]. destruct (tb_siteModels d !! id) as [model|] eqn:Em.
  - destruct (filterSiteModelIDs ids allowed d); [done|]. intros [= ->].
    destruct IH as (id' & Hin & Hn); [done|]. exists id'. split; [by right|done].
  - intros _. exists id. split; [by left|done].
Qed.

(** ** The access of a key *)

(** What the key may be sent to. *)
Definition siteOpen (k : APIKey) (site : uuid) (d : tables) : Prop :=
  ak_SitePolicy k = "allow_all" ∨ site ≠ uuid_Nil ∧ permittedSite k site d.

Definition modelOpen (k : APIKey) (canonicalID siteModel : uuid) (d : tables) : Prop :=
  permittedModel k siteModel d ∧ servesCanonical canonicalID siteModel d
  ∧ ∃ model, tb_siteModels d !! siteModel = Some model ∧ siteOpen k (sm_SiteID model) d.

Definition policies (k : APIKey) : Prop :=
  ak_SitePolicy k ∈ ["allow_all"; "allow_list"] ∧ ak_ModelPolicy k ∈ ["allow_all"; "allow_list"].

(** Every permission names a site model of the table. *)
Definition modelsExist (d : tables) : Prop :=
  ∀ p, p ∈ tb_modelPermissions d → is_Some (tb_siteModels d !! mp_SiteModelID p).

(** What [ResolveAPIKeyRouteAccess] says of a key and a canonical model. *)
Definition accessSays (k : APIKey) (canonical : CanonicalModel) (d : tables)
    (r : result APIKeyRouteAccess accessError) : Prop :=
  match r with
  | Ok a =>
      ra_APIKey a = k ∧ ra_ModelKey a = cn_ModelKey canonical
      ∧ (if bool_decide (ak_SitePolicy k = "allow_all") then ra_AllowedSiteIDs a = []
         else ra_AllowedSiteIDs a ≠ [] ∧ ∀ s, s ∈ ra_AllowedSiteIDs a ↔ siteOpen k s d)
      ∧ (if bool_decide (ak_ModelPolicy k = "allow_all") then ra_AllowedSiteModelIDs a = []
         else ra_AllowedSiteModelIDs a ≠ [] ∧ ∀ m, m ∈ ra_AllowedSiteModelIDs a ↔ modelOpen k (cn_ID canonical) m d)
  | Err ErrSiteNotAllowed => ∀ s, ¬ siteOpen k s d
  | Err ErrModelNotAllowed => ak_ModelPolicy k = "allow_list" ∧ ∀ m, ¬ modelOpen k (cn_ID canonical) m d
  | Err (AccessError _) => False
  end.

Lemma two_policies (p : string) : p ∈ ["allow_all"; "allow_list"] → p = "allow_all" ∨ p = "allow_list".
Proof. set_solver. Qed.

Lemma siteModelOf_some id d model : siteModelOf id d = Some model → tb_siteModels d !! id = Some model.
Proof. unfold siteModelOf. by case_bool_decide. Qed.

Lemma effective_all k d : ak_SitePolicy k = "allow_all" → effectiveAllowedSiteIDs k d = [].
Proof. intros Hk. unfold effectiveAllowedSiteIDs. by rewrite bool_decide_eq_true_2. Qed.

(** The models of the canonical model, cut to the sites that are open. *)
Lemma canonicalModels_spec k canonicalID d :
  policies k → modelsExist d → (ak_SitePolicy k = "allow_list" → effectiveAllowedSiteIDs k d ≠ []) →
  ∃ ids, allowedSiteModelIDsForCanonical (ak_ID k) canonicalID (effectiveAllowedSiteIDs k d) d = Ok ids
    ∧ ∀ m, m ∈ ids ↔ modelOpen k canonicalID m d.
Proof.
  intros [Hs _] Hex Hne. unfold allowedSiteModelIDsForCanonical.
  assert (Hall : ∀ m, m ∈ EnabledSiteModelIDsForCanonical (ak_ID k) canonicalID d → is_Some (tb_siteModels d !! m)).
  { intros m [(p & Hp & _ & <- & _) _]%canonical_models_elem. by apply Hex. }
  apply two_policies in Hs as [Hs|Hs].
  - rewrite (effective_all k d Hs). rewrite bool_decide_eq_true_2 by done.
    eexists. split; [done|]. intros m. rewrite canonical_models_elem. unfold modelOpen, siteOpen.
    split; [|naive_solver]. intros [Hp (model & Hm & Hc)]. split; [done|]. split; [by exists model|].
    exists model. split; [by apply siteModelOf_some|by left].
  - rewrite bool_decide_eq_false_2 by auto. unfold filterSiteModelIDsBySites.
    case_bool_decide as Hnil; cbn.
    + exists []. split; [done|]. intros m. split; [by intros ?%not_elem_of_nil|].
      intros (Hp & Hc & _). rewrite <- Hnil. by apply canonical_models_elem.
    + rewrite bool_decide_eq_false_2 by auto.
      destruct (filterSiteModelIDs _ _ d) as [ids|e] eqn:Ef.
      * exists ids. split; [done|]. intros m. rewrite (filterSiteModelIDs_elem _ _ _ _ _ Ef), canonical_models_elem.
        unfold modelOpen, siteOpen. rewrite Hs. setoid_rewrite (effective_elem k d); [|by rewrite Hs].
        naive_solver.
      * apply filterSiteModelIDs_err in Ef as (id & Hin & Hn). destruct (Hall id Hin). congruence.
Qed.

Lemma resolve_access st id modelKey d k canonical :
  tb_keys d !! id = Some k → resolveCanonical st modelKey = Ok canonical → policies k → modelsExist d →
  accessSays k canonical d (ResolveAPIKeyRouteAccess st id modelKey d).
Proof.
  intros Hk Hc Hp Hex. unfold ResolveAPIKeyRouteAccess. rewrite Hk, Hc.
  destruct (bool_decide_reflect (ak_SitePolicy k = "allow_list")) as [Hs|Hs]; cbn [andb].
  - case_bool_decide as Hnil.
    + cbn. intros s [Hall|Hopen]; [congruence|].
      apply effective_elem in Hopen; [|by rewrite Hs]. rewrite Hnil in Hopen. by apply not_elem_of_nil in Hopen.
    + destruct (canonicalModels_spec k (cn_ID canonical) d Hp Hex (λ _, Hnil)) as (ids & -> & Hids).
      assert (Hsites : ∀ s, s ∈ effectiveAllowedSiteIDs k d ↔ siteOpen k s d).
      { intros s. rewrite effective_elem by (by rewrite Hs). unfold siteOpen. rewrite Hs. naive_solver. }
      destruct (two_policies _ (proj2 Hp)) as [Hm|Hm]; rewrite Hm.
      * unfold accessSays. by rewrite Hs, Hm.
      * destruct ids as [|m ids]; cbn.
        -- split; [done|]. intros m ?%Hids. by apply (not_elem_of_nil m).
        -- unfold accessSays. rewrite Hs, Hm. by split_and!.
  - destruct (two_policies _ (proj1 Hp)) as [Ha|]; [|done].
    destruct (canonicalModels_spec k (cn_ID canonical) d Hp Hex) as (ids & -> & Hids); [by intros ?|].
    rewrite (effective_all k d Ha) in *. destruct (two_policies _ (proj2 Hp)) as [Hm|Hm]; rewrite Hm; cbn.
    + unfold accessSays. by rewrite Ha, Hm.
    + destruct ids as [|m ids]; cbn.
      * split; [done|]. intros m ?%Hids. by apply (not_elem_of_nil m).
      * unfold accessSays. rewrite Ha, Hm. by split_and!.
Qed.

(** ** Routes within the access *)

Lemma plan_routes st orders now query p c :
  Plan st orders now query = Ok p → c ∈ plan_Selected p :: plan_Failover p →
  (q_AllowedSiteIDs query = [] ∨ cs_ID (cd_Site c) ∈ q_AllowedSiteIDs query)
  ∧ (q_AllowedSiteModelIDs query = [] ∨ cm_SiteModelID (cd_Model c) ∈ q_AllowedSiteModelIDs query).
Proof.
  unfold Plan. destruct (Candidates st orders now query) as [[canonical [|c0 items]]|] eqn:Ec; try done.
  intros [= <-] Hc. cbn in Hc.
  destruct (Candidates_rows _ _ _ _ _ _ c Ec) as (rows & table & row & _ & _ & _ & He & Hid).
  { apply elem_of_cons in Hc as [->|Hc]; [by left|]. right. by apply subseteq_take in Hc. }
  unfold identity, candidateOf in Hid. injection Hid as Hsite Hmodel _. rewrite Hsite, Hmodel. cbn.
  destruct He. by split.
Qed.

(** A route of the set-up is one the key may be sent to. *)
Lemma routed_open st orders now id endpointType model image explicit bridged d k access plan c :
  tb_keys d !! id = Some k → policies k → modelsExist d →
  setupRoute st orders now id endpointType model image explicit bridged d = Routed access plan →
  c ∈ plan_Selected plan :: plan_Failover plan →
  siteOpen k (cs_ID (cd_Site c)) d
  ∧ (ak_ModelPolicy k = "allow_all"
     ∨ ∃ canonical, resolveCanonical st model = Ok canonical ∧ modelOpen k (cn_ID canonical) (cm_SiteModelID (cd_Model c)) d).
Proof.
  intros Hk Hp Hex. unfold setupRoute.
  destruct (resolveCanonical st model) as [canonical|e] eqn:Hc; swap 1 2.
  { unfold ResolveAPIKeyRouteAccess. rewrite Hk, Hc. done. }
  pose proof (resolve_access st id model d k canonical Hk Hc Hp Hex) as Ha.
  destruct (ResolveAPIKeyRouteAccess st id model d) as [a|[]]; try done.
  destruct Ha as (_ & _ & Hsites & Hmodels).
  destruct (Plan st orders now _) as [p|e] eqn:Hplan; cbn [ra_AllowedSiteIDs] in *;
    [|by repeat case_match].
  intros [= <- <-] Hin. destruct (plan_routes _ _ _ _ _ _ Hplan Hin) as [Hs Hm]. cbn in Hs, Hm. split.
  - destruct (bool_decide_reflect (ak_SitePolicy k = "allow_all")) as [|Hne]; [by left|].
    destruct Hsites as [Hnonempty Helem]. destruct Hs as [|Hs]; [done|]. by apply Helem.
  - destruct (bool_decide_reflect (ak_ModelPolicy k = "allow_all")) as [|Hne]; [by left|].
    destruct Hmodels as [Hnonempty Helem]. destruct Hm as [|Hm]; [done|].
    right. exists canonical. split; [done|]. by apply Helem.
Qed.
