(* ===== verification/ApiKeyService.v ===== *)
(** * API keys: how they are made, changed and recognised

    [auth/tokens.go], the API key operations of [auth/service.go] and the internal key of
    [store/agent_repository.go], over [ApiKeyStore] and [ApiKeyAccess].  The hash, the
    encryption and the random numbers are parameters; [store.HashAgentToken] is the same hash
    as [hashToken].  An operation reads and writes one state of the tables, but for
    [SetAPIKeyModelMappings], which is cut between its read and its write. *)

From S2P Require Import Prelude GoFloat StableSort Catalog RouteCooldowns SiteConfig Router RateLimit ApiKeyStore ApiKeyAccess.

(** ** Keys as text *)

#[local] Abbreviation bytes_of := String.list_ascii_of_string.
#[local] Abbreviation of_bytes := String.string_of_list_ascii.

(** [hashToken] is SHA-256 in hexadecimal; [Encrypt] gives what is stored and a mask. *)
Class Secrets := {
  hashToken : string → string;
  Encrypt : string → result (string * string) string
}.

Definition apiKeyPublicPrefix : string := "xlyra-".
Definition apiKeyCompatiblePrefix : string := "sk-".
Definition apiKeyGeneratedKind : string := "generated".
Definition apiKeyCustomKind : string := "custom".
Definition apiKeySecretLength : nat := 48.

Definition apiKeyPrefix (key : string) : string :=
  if HasPrefix key apiKeyPublicPrefix then
    let secret := TrimPrefix key apiKeyPublicPrefix in
    apiKeyPublicPrefix +:+ (if len secret <=? 8 then secret else String.substring 0 8 secret)
  else if len key <=? 16 then key else String.substring 0 16 key.

Definition apiKeyStoragePrefix `{Secrets} (key keyKind : string) : string :=
  if bool_decide (keyKind = apiKeyCustomKind) then "custom-" +:+ String.substring 0 12 (hashToken key)
  else apiKeyPrefix key.

(** Letters and digits; a byte of a longer rune is none of them. *)
Definition alphanumeric (c : ascii) : bool :=
  let n := nat_of_ascii c in ascii_in 97 122 n || ascii_in 65 90 n || ascii_in 48 57 n.

Definition validGeneratedAPIKeySecret (secret : string) : bool :=
  (len secret =? Z.of_nat apiKeySecretLength) && forallb alphanumeric (bytes_of secret).

Definition generatedAPIKeyAlias (key : string) : option string :=
  let key := TrimSpace key in
  if negb (HasPrefix key apiKeyCompatiblePrefix) then None
  else
    let secret := TrimPrefix key apiKeyCompatiblePrefix in
    if validGeneratedAPIKeySecret secret then Some (apiKeyPublicPrefix +:+ secret) else None.

Definition validateCustomGatewayAPIKey (key : string) : option string :=
  if bool_decide (key = "") then Some "custom api key is required"
  else if forallb (λ c, alphanumeric c || bool_decide (c = "-"%char)) (bytes_of key) then None
  else Some "custom api key may only contain letters, numbers, and hyphen".

Definition alphabet : list ascii := bytes_of "abcdefghijklmnopqrstuvwxyzABCDEFGHIJKLMNOPQRSTUVWXYZ0123456789".

(** [rand.Int] of 62: an index below it, or a failure of the source. *)
Definition drawn := option (fin 62).

(** The first [n] bytes of a secret, from the draws in turn. *)
Fixpoint secretBytes (draw : nat → drawn) (n : nat) : option (list ascii) :=
  match n with
  | O => Some []
  | S n => l ← secretBytes draw n; index ← draw n; Some (l ++ [nth (fin_to_nat index) alphabet "a"%char])
  end.

Definition newGatewayAPIKey (draw : nat → drawn) : result string string :=
  match secretBytes draw apiKeySecretLength with
  | Some l => Ok (apiKeyPublicPrefix +:+ of_bytes l)
  | None => Err "read random index"
  end.

Definition maskToken (token : string) : string :=
  if len token <=? 12 then "****"
  else String.substring 0 10 token +:+ "..." +:+ String.substring (String.length token - 4) 4 token.

(** ** Checks of the input *)

Definition optionalBool (value : option bool) (fallback : bool) : bool := default fallback value.

Definition zeroQuotaLimit (value : option float64) : bool :=
  match value with Some x => feq x fzero | None => false end.

Definition validateAPIKeyQuota (field : string) (limit : option float64) (unlimited : bool) (used : float64)
    : option string :=
  match limit with
  | Some limit =>
      if unlimited then None
      else if is_nan limit || is_inf limit || flt limit fzero
      then Some (field +:+ " must be a finite number greater than or equal to 0")
      else if flt limit used then
        if bool_decide (field = "quota_limit")
        then Some "quota_limit must be greater than or equal to quota_total_used"
        else Some (field +:+ " must be greater than or equal to current used quota")
      else None
  | None => None
  end.

Definition validateAPIKeyBillingMultiplier (value : option float64) : result float64 string :=
  match value with
  | None => Ok (of_int 1)
  | Some x =>
      if is_nan x || is_inf x || fle x fzero
      then Err "billing_multiplier must be a finite number greater than 0"
      else if flt (of_int 100) x then Err "billing_multiplier must be less than or equal to 100"
      else Ok x
  end.

(** [normalizeModelPolicy] and [normalizeSitePolicy] *)
Definition normalizePolicy (value : string) : string :=
  if bool_decide (TrimSpace value = "allow_list") then "allow_list" else "allow_all".

(** [nullableTime], [timePtrAsAny]: the zero time counts as none. *)
Definition nullableTime (value : option Z) : option Z :=
  match value with Some t => if t =? 0 then None else Some t | None => None end.

Definition modelRulePatternIdentity (pattern : string) : string :=
  if bool_decide (pattern = "*") then "*"
  else if HasSuffix pattern "*" then
    let rawPrefix := TrimSuffix pattern "*" in
    if Contains rawPrefix "*" then ""
    else
      let prefix := NormalizeModelKeyPrefix rawPrefix in
      if bool_decide (prefix = "") then "" else "wildcard:" +:+ prefix
  else if Contains pattern "*" then ""
  else
    let normalized := NormalizeModelKey pattern in
    if bool_decide (normalized = "") then "" else "exact:" +:+ normalized.

Fixpoint ruleShapes (seen : gset string) (rules : list APIKeyModelRule) : option string :=
  match rules with
  | [] => None
  | rule :: rest =>
      let pattern := TrimSpace (rule_Pattern rule) in
      let target := TrimSpace (rule_Target rule) in
      if bool_decide (pattern = "") || bool_decide (target = "")
      then Some "model rule pattern and target must not be empty"
      else
        let identity := modelRulePatternIdentity pattern in
        if bool_decide (identity = "") then Some ("model rule pattern is not valid: " +:+ pattern)
        else if bool_decide (identity ∈ seen) then Some ("duplicate model rule pattern: " +:+ pattern)
        else ruleShapes ({[identity]} ∪ seen) rest
  end.

Definition validateModelRuleShapes (rules : list APIKeyModelRule) : option string := ruleShapes ∅ rules.

(** The keys of the canonical models behind an allow list. *)
Definition canonicalKeysForSiteModelIDs (siteModelIDs : list uuid) (d : tables) : list string :=
  omap (λ id,
    model ← siteModelOf id d; canonicalID ← sm_CanonicalID model;
    canonical ← tb_canonical d !! canonicalID; Some (cn_ModelKey canonical)) siteModelIDs.

(** The loop of [validateModelRules]; [None] allows every target. *)
Fixpoint ruleTargets (st : RouteStore) (allowedTargets : option (list string)) (rules : list APIKeyModelRule)
    : result (list APIKeyModelRule) string :=
  match rules with
  | [] => Ok []
  | rule :: rest =>
      let target := TrimSpace (rule_Target rule) in
      match st_GetByKey st target with
      | Ok (Some canonical) =>
          let allowed := match allowedTargets with
                         | Some keys => bool_decide (cn_ModelKey canonical ∈ keys)
                         | None => true
                         end in
          if negb allowed then Err ("mapped model is not in the api key model allow list: " +:+ target)
          else match ruleTargets st allowedTargets rest with
          | Ok l => Ok (mkRule (TrimSpace (rule_Pattern rule)) (cn_ModelKey canonical)
                          (NormalizeAPIKeyModelRuleMode (rule_Mode rule)) :: l)
          | Err e => Err e
          end
      | _ => Err ("mapped model is not a valid canonical model: " +:+ target)
      end
  end.

Definition validateModelRules (st : RouteStore) (rules : list APIKeyModelRule) (modelPolicy : string)
    (allowedSiteModelIDs : list uuid) (d : tables) : result (list APIKeyModelRule) string :=
  if bool_decide (rules = []) then Ok []
  else match validateModelRuleShapes rules with
  | Some e => Err e
  | None =>
      ruleTargets st
        (if bool_decide (normalizePolicy modelPolicy = "allow_list")
         then Some (canonicalKeysForSiteModelIDs allowedSiteModelIDs d) else None) rules
  end.

(** [siteModels.GetByID] of each, in turn. *)
Definition normalizeExistingSiteModelIDs (siteModelIDs : list uuid) (d : tables) : result (list uuid) string :=
  let ids := normalizeUUIDs siteModelIDs in
  if forallb (λ id, bool_decide (is_Some (tb_siteModels d !! id))) ids then Ok ids
  else Err "site_model_id was not found".

Record ImageToolBridgeInput := mkBridgeInput {
  bi_Enabled : bool; bi_Model : string; bi_SiteID : option uuid; bi_MaxCalls : option Z
}.

Definition imageToolBridgeMaxCallsLimit : Z := 10.

(** [None] leaves the bridge as it is, [Some None] turns it off. *)
Definition normalizeImageToolBridge (st : RouteStore) (input : option ImageToolBridgeInput) (d : tables)
    : result (option (option APIKeyImageBridge)) string :=
  match input with
  | None => Ok None
  | Some i =>
      if negb (bi_Enabled i) then Ok (Some None)
      else
        let model := TrimSpace (bi_Model i) in
        if bool_decide (model = "") then Err "image tool bridge model is required when the bridge is enabled"
        else match st_GetByKey st model with
        | Ok (Some _) =>
            let siteID := match bi_SiteID i with
                          | Some id => if bool_decide (id = uuid_Nil) then None else Some id
                          | None => None
                          end in
            if match siteID with Some id => bool_decide (tb_sites d !! id = None) | None => false end
            then Err "image tool bridge site is not a valid site"
            else match bi_MaxCalls i with
            | Some n =>
                if (n <? 1) || (imageToolBridgeMaxCallsLimit <? n)
                then Err "image tool bridge max calls must be between 1 and 10"
                else Ok (Some (Some (mkBridge true model siteID n)))
            | None => Ok (Some (Some (mkBridge true model siteID DefaultImageBridgeMaxCalls)))
            end
        | _ => Err "image tool bridge model is not a valid canonical model"
        end
  end.

Definition normalizeRateLimitStatus (value : string) : string :=
  let v := TrimSpace value in
  if bool_decide (v = "enabled") then "enabled"
  else if bool_decide (v = "disabled") || bool_decide (v = "") then "disabled" else "".

Definition belowOne (limit : option Z) : bool := match limit with Some n => n <=? 0 | None => false end.

(** The input is what [RateLimit.ConfigInput] holds. *)
Definition upsertAPIKeyRateLimit (apiKeyID : uuid) (input : ConfigInput) (d : tables) : result tables string :=
  let status := normalizeRateLimitStatus (in_Status input) in
  if bool_decide (status = "") then Err "rate_limit.status must be enabled or disabled"
  else if belowOne (in_RPMLimit input) then Err "rate_limit.rpm_limit must be greater than 0"
  else if belowOne (in_TPMLimit input) then Err "rate_limit.tpm_limit must be greater than 0"
  else if bool_decide (tb_keys d !! apiKeyID = None) then Err "upsert gateway rate limit"
  else Ok (set_rateLimits
    (<[apiKeyID := mkRow "api_key" status (in_RPMLimit input) (in_TPMLimit input)]> (tb_rateLimits d)) d).

(** ** Operations

    A call that fails leaves the tables as they were; a transaction is rolled back. *)

#[local] Notation "'let!' x := r 'in' k" := (match r with Ok x => k | Err e => Err e end)
  (at level 200, x pattern, r at level 100, k at level 200, right associativity).
#[local] Notation "'check!' o 'in' k" := (match o with None => k | Some e => Err e end)
  (at level 200, o at level 100, k at level 200, right associativity).

Section operations.
Context `{NumericColumns, Location, UuidString, Secrets}.

(** The attempts at a key that is new, each with draws of its own. *)
Fixpoint generateKey (draws : nat → nat → drawn) (attempt remaining : nat) (d : tables) : result string string :=
  match remaining with
  | O => Err "generate unique api key: too many collisions"
  | S remaining =>
      let! key := newGatewayAPIKey (draws attempt) in
      if existsByHash (hashToken key) "" (tb_keys d) then generateKey draws (S attempt) remaining d
      else
        let compatible := apiKeyCompatiblePrefix +:+ TrimPrefix key apiKeyPublicPrefix in
        if existsByHash (hashToken compatible) "" (tb_keys d) then generateKey draws (S attempt) remaining d
        else Ok key
  end.

Definition createGatewayAPIKeyValue (customKey : string) (draws : nat → nat → drawn) (d : tables)
    : result (string * string) string :=
  if bool_decide (customKey = "") then
    let! key := generateKey draws 0 10 d in Ok (key, apiKeyGeneratedKind)
  else
    check! validateCustomGatewayAPIKey customKey in
    if existsByHash (hashToken customKey) "" (tb_keys d) then Err "api key already exists"
    else if match generatedAPIKeyAlias customKey with
            | Some generatedKey => existsByHash (hashToken generatedKey) apiKeyGeneratedKind (tb_keys d)
            | None => false
            end
    then Err "custom api key conflicts with an existing generated api key alias"
    else Ok (customKey, apiKeyCustomKind).

Record CreateAPIKeyInput := mkCreateInput {
  ci_Name : string; ci_CustomKey : string; ci_ModelPolicy : string; ci_SiteModelIDs : list uuid;
  ci_SitePolicy : string; ci_SiteIDs : list uuid; ci_SiteGroupIDs : list uuid;
  ci_ModelRules : list APIKeyModelRule; ci_ImageToolBridge : option ImageToolBridgeInput;
  ci_BillingMultiplier : option float64; ci_QuotaLimit : option float64; ci_QuotaUnlimited : bool;
  ci_QuotaDailyLimit : option float64; ci_QuotaDailyUnlimited : option bool;
  ci_QuotaWeeklyLimit : option float64; ci_QuotaWeeklyUnlimited : option bool;
  ci_ExpiresAt : option Z; ci_RateLimit : option ConfigInput
}.

Record CreateAPIKeyResult := mkCreateResult { cr_Key : string; cr_KeyPrefix : string; cr_APIKey : APIKey }.

(** A daily or weekly limit of a new key. *)
Definition createPeriodQuota (field period : string) (limit : option float64) (unlimited : option bool)
    : result bool string :=
  let unlimited := optionalBool unlimited (bool_decide (limit = None)) || zeroQuotaLimit limit in
  if negb unlimited && bool_decide (limit = None)
  then Err (field +:+ " is required when " +:+ period +:+ " quota is limited")
  else check! validateAPIKeyQuota field limit unlimited fzero in Ok unlimited.

(** The permissions and the rate limit of a new key, inside its transaction. *)
Definition createAccess (input : CreateAPIKeyInput) (siteModelIDs siteGroupIDs : list uuid) (id : uuid) (d : tables)
    : result tables string :=
  let! d := SetSiteModelPermissions id siteModelIDs d in
  let! d := SetSiteGroupPermissions id siteGroupIDs d in
  let! d := (if bool_decide (ci_SiteIDs input = []) then Ok d else SetSitePermissions id (ci_SiteIDs input) d) in
  match ci_RateLimit input with Some r => upsertAPIKeyRateLimit id r d | None => Ok d end.

(** [id] and [now] are given by the database. *)
Definition CreateAPIKey (st : RouteStore) (input : CreateAPIKeyInput) (adminID : uuid) (draws : nat → nat → drawn)
    (id : uuid) (now : Z) (d : tables) : result (tables * CreateAPIKeyResult) string :=
  let name := TrimSpace (ci_Name input) in
  if bool_decide (name = "") then Err "api key name is required"
  else
    let quotaUnlimited := ci_QuotaUnlimited input || zeroQuotaLimit (ci_QuotaLimit input) in
    check! validateAPIKeyQuota "quota_limit" (ci_QuotaLimit input) quotaUnlimited fzero in
    let! dailyUnlimited := createPeriodQuota "quota_daily_limit" "daily" (ci_QuotaDailyLimit input) (ci_QuotaDailyUnlimited input) in
    let! weeklyUnlimited := createPeriodQuota "quota_weekly_limit" "weekly" (ci_QuotaWeeklyLimit input) (ci_QuotaWeeklyUnlimited input) in
    let! billingMultiplier := validateAPIKeyBillingMultiplier (ci_BillingMultiplier input) in
    let modelPolicy := normalizePolicy (ci_ModelPolicy input) in
    let! siteModelIDs := normalizeExistingSiteModelIDs (ci_SiteModelIDs input) d in
    let sitePolicy := normalizePolicy (ci_SitePolicy input) in
    let siteGroupIDs := normalizeUUIDs (ci_SiteGroupIDs input) in
    let! modelRules := validateModelRules st (ci_ModelRules input) modelPolicy siteModelIDs d in
    let! imageToolBridge := normalizeImageToolBridge st (ci_ImageToolBridge input) d in
    let! (key, keyKind) := createGatewayAPIKeyValue (ci_CustomKey input) draws d in
    let! (encrypted, masked) := Encrypt key in
    let keyPrefix := apiKeyStoragePrefix key keyKind in
    match CreateRow (mkCreateParams name keyPrefix (hashToken key) (Some encrypted) masked keyKind "gateway" "active"
                       modelPolicy sitePolicy modelRules (default None imageToolBridge) billingMultiplier
                       (ci_QuotaLimit input) quotaUnlimited (ci_QuotaDailyLimit input) dailyUnlimited
                       (ci_QuotaWeeklyLimit input) weeklyUnlimited (nullableTime (ci_ExpiresAt input)) (Some adminID))
            id now (tb_keys d) with
    | (_, Err e) => Err e
    | (t, Ok created) =>
        let! d := createAccess input siteModelIDs siteGroupIDs id (set_table t d) in
        Ok (d, mkCreateResult key keyPrefix created)
    end.

Record UpdateAPIKeyInput := mkUpdateInput {
  ui_Name : string; ui_Status : string; ui_ModelPolicy : string; ui_SiteModelIDs : option (list uuid);
  ui_SitePolicy : string; ui_SiteIDs : option (list uuid); ui_SiteGroupIDs : option (list uuid);
  ui_ModelRules : option (list APIKeyModelRule); ui_ImageToolBridge : option ImageToolBridgeInput;
  ui_BillingMultiplier : option float64; ui_QuotaLimit : option float64; ui_QuotaUnlimited : bool;
  ui_QuotaDailyLimit : option float64; ui_QuotaDailyUnlimited : option bool;
  ui_QuotaWeeklyLimit : option float64; ui_QuotaWeeklyUnlimited : option bool;
  ui_ExpiresAt : option Z; ui_RateLimit : option ConfigInput
}.

(** A daily or weekly limit after an update, with what was used of it so far. *)
Definition updatePeriodQuota (field period : string) (limit current : option float64) (unlimited : option bool)
    (currentUnlimited : bool) (used : float64) : result (option float64 * bool) string :=
  let limit := match limit with Some _ => limit | None => current end in
  let fallback := currentUnlimited || bool_decide (current = None) && bool_decide (unlimited = None) in
  let unlimited := optionalBool unlimited fallback || zeroQuotaLimit limit in
  if negb unlimited && bool_decide (limit = None)
  then Err (field +:+ " is required when " +:+ period +:+ " quota is limited")
  else check! validateAPIKeyQuota field limit unlimited used in Ok (limit, unlimited).

(** [set l] when the input gives a list. *)
Definition given {A} (set : A → tables → result tables string) (o : option A) (d : tables) : result tables string :=
  match o with Some l => set l d | None => Ok d end.

(** The clock is read for the daily limit, the weekly limit and the expiry, in turn. *)
Definition UpdateAPIKey (st : RouteStore) (id : uuid) (input : UpdateAPIKeyInput) (now1 now2 now3 : Z) (d : tables)
    : result (tables * APIKey) string :=
  match tb_keys d !! id with
  | None => Err "record not found"
  | Some current =>
      let q := ak_Quota current in
      let quotaUnlimited := ui_QuotaUnlimited input || zeroQuotaLimit (ui_QuotaLimit input) in
      check! validateAPIKeyQuota "quota_limit" (ui_QuotaLimit input) quotaUnlimited (EffectiveTotalQuotaUsed q) in
      let! (dailyLimit, dailyUnlimited) :=
        updatePeriodQuota "quota_daily_limit" "daily" (ui_QuotaDailyLimit input) (QuotaDailyLimit q)
          (ui_QuotaDailyUnlimited input) (QuotaDailyUnlimited q) (EffectiveDailyQuotaUsed now1 q) in
      let! (weeklyLimit, weeklyUnlimited) :=
        updatePeriodQuota "quota_weekly_limit" "weekly" (ui_QuotaWeeklyLimit input) (QuotaWeeklyLimit q)
          (ui_QuotaWeeklyUnlimited input) (QuotaWeeklyUnlimited q) (EffectiveWeeklyQuotaUsed now2 q) in
      let! _ := validateAPIKeyBillingMultiplier (ui_BillingMultiplier input) in
      let name := or_default (TrimSpace (ui_Name input)) (ak_Name current) in
      let status := or_default (TrimSpace (ui_Status input)) (ak_Status current) in
      let effectiveExpiresAt := match ui_ExpiresAt input with Some t => Some t | None => ak_ExpiresAt current end in
      if bool_decide (status = "active") && negb (bool_decide (ak_Status current = "active"))
         && match effectiveExpiresAt with Some t => t <=? now3 | None => false end
      then Err "cannot enable an expired api key; extend the expiration time first"
      else
        let modelPolicy := if bool_decide (ui_ModelPolicy input = "") then ak_ModelPolicy current
                           else normalizePolicy (ui_ModelPolicy input) in
        let sitePolicy := if bool_decide (ui_SitePolicy input = "") then ak_SitePolicy current
                          else normalizePolicy (ui_SitePolicy input) in
        let! siteModelIDs := (match ui_SiteModelIDs input with
                              | Some ids => let! ids := normalizeExistingSiteModelIDs ids d in Ok (Some ids)
                              | None => Ok None
                              end) in
        let siteGroupIDs := normalizeUUIDs <$> ui_SiteGroupIDs input in
        let! modelRules := (match ui_ModelRules input with
                            | Some rules =>
                                let allowed := default (EnabledSiteModelIDs id d) siteModelIDs in
                                let! rules := validateModelRules st rules modelPolicy allowed d in Ok (Some rules)
                            | None => Ok None
                            end) in
        let! imageToolBridge := normalizeImageToolBridge st (ui_ImageToolBridge input) d in
        match Update (mkUpdateParams id name status modelPolicy sitePolicy modelRules imageToolBridge
                        (ui_BillingMultiplier input) (ui_QuotaLimit input) quotaUnlimited dailyLimit dailyUnlimited
                        weeklyLimit weeklyUnlimited (nullableTime (ui_ExpiresAt input))) (tb_keys d) with
        | (_, Err e) => Err e
        | (t, Ok updated) =>
            let! d := given (SetSiteModelPermissions id) siteModelIDs (set_table t d) in
            let! d := given (SetSitePermissions id) (ui_SiteIDs input) d in
            let! d := given (SetSiteGroupPermissions id) siteGroupIDs d in
            let! d := given (upsertAPIKeyRateLimit id) (ui_RateLimit input) d in
            Ok (d, updated)
        end
  end.

Definition RotateAPIKey (id : uuid) (draws : nat → nat → drawn) (d : tables)
    : result (tables * CreateAPIKeyResult) string :=
  match tb_keys d !! id with
  | None => Err "record not found"
  | Some current =>
      if bool_decide (ak_KeyKind current = apiKeyCustomKind) then Err "custom api keys do not support rotation"
      else
        let! (key, keyKind) := createGatewayAPIKeyValue "" draws d in
        let! (encrypted, masked) := Encrypt key in
        let keyPrefix := apiKeyStoragePrefix key keyKind in
        match RotateSecret (mkRotateParams id keyPrefix (hashToken key) (Some encrypted) masked keyKind) (tb_keys d) with
        | (_, Err e) => Err e
        | (t, Ok updated) => Ok (set_table t d, mkCreateResult key keyPrefix updated)
        end
  end.

(** The references to the row go with it. *)
Definition DeleteAPIKey (id : uuid) (d : tables) : result tables string :=
  match DeleteRow id (tb_keys d) with
  | (_, Some e) => Err e
  | (t, None) =>
      let others {A} (key : A → uuid) := List.filter (λ p, negb (bool_decide (key p = id))) in
      Ok (set_rateLimits (delete id (tb_rateLimits d))
           (set_modelPermissions (others mp_APIKeyID (tb_modelPermissions d))
             (set_groupPermissions (others gp_APIKeyID (tb_groupPermissions d))
               (set_sitePermissions (others sp_APIKeyID (tb_sitePermissions d)) (set_table t d)))))
  end.
End operations.

Section more_operations.
Context `{NumericColumns, Location, UuidString, Secrets}.

Record IncreaseAPIKeyQuotaResult := mkIncreaseResult {
  ir_APIKey : APIKey; ir_Amount : float64; ir_LimitBefore : float64
}.

(** A row that comes back from the table's own operations, in the tables. *)
Definition onKeys {A} (r : gmap uuid APIKey * result A string) (d : tables) : result (tables * A) string :=
  match r with (t, Ok x) => Ok (set_table t d, x) | (_, Err e) => Err e end.

Definition IncreaseAPIKeyQuota (id : uuid) (amount : float64) (d : tables)
    : result (tables * IncreaseAPIKeyQuotaResult) string :=
  if is_nan amount || is_inf amount || fle amount fzero then Err "amount must be a finite number greater than 0"
  else
    let! (d, k) := onKeys (IncreaseQuotaLimit id amount (tb_keys d)) d in
    Ok (d, mkIncreaseResult k amount (fsub (default fzero (QuotaLimit (ak_Quota k))) amount)).

Record resetScopes := mkScopes { rs_total : bool; rs_daily : bool; rs_weekly : bool; rs_normalized : list string }.

Fixpoint resetScopesOf (s : resetScopes) (scopes : list string) : option resetScopes :=
  match scopes with
  | [] => Some s
  | scope :: rest =>
      let scope := TrimSpace scope in
      let add (seen : bool) := if seen then rs_normalized s else rs_normalized s ++ [scope] in
      if bool_decide (scope = "total") then
        resetScopesOf (mkScopes true (rs_daily s) (rs_weekly s) (add (rs_total s))) rest
      else if bool_decide (scope = "daily") then
        resetScopesOf (mkScopes (rs_total s) true (rs_weekly s) (add (rs_daily s))) rest
      else if bool_decide (scope = "weekly") then
        resetScopesOf (mkScopes (rs_total s) (rs_daily s) true (add (rs_weekly s))) rest
      else None
  end.

Definition ResetAPIKeyQuota (id : uuid) (scopes : list string) (now : Z) (d : tables)
    : result (tables * (APIKeyQuotaResetResult * list string)) string :=
  match resetScopesOf (mkScopes false false false []) scopes with
  | None => Err "scopes may only contain total, daily, or weekly"
  | Some s =>
      if negb (rs_total s) && negb (rs_daily s) && negb (rs_weekly s)
      then Err "at least one quota reset scope is required"
      else
        let! (d, reset) := onKeys (ResetQuota id (rs_total s) (rs_daily s) (rs_weekly s) now (tb_keys d)) d in
        Ok (d, (reset, rs_normalized s))
  end.

(** The row as it was read, with other policies and rules; mappings that are written back
    unchanged are not mentioned. *)
Definition writtenBack (id : uuid) (current : APIKey) (modelPolicy sitePolicy : string)
    (rules : option (list APIKeyModelRule)) : UpdateAPIKeyParams :=
  let q := ak_Quota current in
  mkUpdateParams id (ak_Name current) (ak_Status current) modelPolicy sitePolicy rules None None
    (QuotaLimit q) (QuotaUnlimited q) (QuotaDailyLimit q) (QuotaDailyUnlimited q)
    (QuotaWeeklyLimit q) (QuotaWeeklyUnlimited q) (nullableTime (ak_ExpiresAt current)).

Record APIKeySiteModelPermissionDetail := mkDetail {
  de_permission : APIKeySiteModelPermission; de_SiteID : uuid; de_SiteName : string; de_SiteSlug : string;
  de_SiteType : string; de_UpstreamModelName : string; de_DisplayName : string;
  de_CanonicalModelID : option uuid; de_CanonicalModelKey : option string
}.

(** A model, a site or a canonical model that is missing reads as its zero value. *)
Definition detailOf (d : tables) (p : APIKeySiteModelPermission) : APIKeySiteModelPermissionDetail :=
  let model := default (mkSiteModel uuid_Nil uuid_Nil None "" "") (siteModelOf (mp_SiteModelID p) d) in
  let site := default (mkSite uuid_Nil "" "" "")
                (if bool_decide (sm_SiteID model = uuid_Nil) then None else tb_sites d !! sm_SiteID model) in
  let canonical := id ← sm_CanonicalID model; if bool_decide (id = uuid_Nil) then None else tb_canonical d !! id in
  mkDetail p (sm_SiteID model) (si_Name site) (si_Slug site) (si_SiteType site) (sm_UpstreamName model)
    (sm_DisplayName model) (sm_CanonicalID model)
    (match canonical with
     | Some c => if bool_decide (cn_ID c = uuid_Nil) then None else Some (cn_ModelKey c)
     | None => None
     end).

Definition detail_less (a b : APIKeySiteModelPermissionDetail) : bool :=
  if negb (bool_decide (de_SiteName a = de_SiteName b)) then string_ltb (de_SiteName a) (de_SiteName b)
  else string_ltb (de_UpstreamModelName a) (de_UpstreamModelName b).

Definition siteModelPermissionDetails (permissions : list APIKeySiteModelPermission) (d : tables)
    : list APIKeySiteModelPermissionDetail :=
  SliceStable detail_less (map (detailOf d) permissions).

Definition ListSiteModelPermissionDetails (id : uuid) (d : tables) : list APIKeySiteModelPermissionDetail :=
  siteModelPermissionDetails (List.filter (λ p, bool_decide (mp_APIKeyID p = id)) (tb_modelPermissions d)) d.

Definition APIKeyEffectiveSiteModels (k : APIKey) (d : tables) : list APIKeySiteModelPermissionDetail :=
  let models := ListSiteModelPermissionDetails (ak_ID k) d in
  if negb (bool_decide (ak_SitePolicy k = "allow_list")) then models
  else
    let allowedSiteIDs := effectiveAllowedSiteIDs k d in
    if bool_decide (allowedSiteIDs = []) then []
    else List.filter (λ m, bool_decide (de_SiteID m ∈ allowedSiteIDs)) models.

Definition changePolicies (id : uuid) (modelPolicy sitePolicy : APIKey → string) (d : tables)
    : result (tables * APIKey) string :=
  match tb_keys d !! id with
  | None => Err "record not found"
  | Some current =>
      if bool_decide (modelPolicy current = ak_ModelPolicy current)
         && bool_decide (sitePolicy current = ak_SitePolicy current)
      then Ok (d, current)
      else onKeys (Update (writtenBack id current (modelPolicy current) (sitePolicy current) None) (tb_keys d)) d
  end.

(** A policy that is given, or the present one. *)
Definition policyOr (value : string) (current : string) : string :=
  if bool_decide (TrimSpace value = "") then current else normalizePolicy value.

Definition SetAPIKeySiteModels (id : uuid) (siteModelIDs : list uuid) (modelPolicy : string) (d : tables)
    : result (tables * (APIKey * list APIKeySiteModelPermissionDetail)) string :=
  let! normalized := normalizeExistingSiteModelIDs siteModelIDs d in
  let! d := SetSiteModelPermissions id normalized d in
  let! (d, current) := changePolicies id (λ k, policyOr modelPolicy (ak_ModelPolicy k)) ak_SitePolicy d in
  Ok (d, (current, ListSiteModelPermissionDetails id d)).

Definition SetAPIKeySites (id : uuid) (siteIDs : list uuid) (sitePolicy : string) (d : tables)
    : result (tables * APIKey) string :=
  let! d := SetSitePermissions id siteIDs d in
  changePolicies id ak_ModelPolicy (λ k, policyOr sitePolicy (ak_SitePolicy k)) d.

Definition SetAPIKeySiteGroups (id : uuid) (groupIDs : list uuid) (d : tables) : result (tables * APIKey) string :=
  let! d := SetSiteGroupPermissions id (normalizeUUIDs groupIDs) d in
  match tb_keys d !! id with Some current => Ok (d, current) | None => Err "record not found" end.

(** What [SetAPIKeyModelMappings] reads, and the row it will write; other operations may come
    before it does. *)
Definition readModelMappings (st : RouteStore) (id : uuid) (rules : list APIKeyModelRule) (d : tables)
    : result UpdateAPIKeyParams string :=
  check! validateModelRuleShapes rules in
  match tb_keys d !! id with
  | None => Err "record not found"
  | Some current =>
      let! modelRules := validateModelRules st rules (ak_ModelPolicy current) (EnabledSiteModelIDs id d) d in
      Ok (writtenBack id current (ak_ModelPolicy current) (ak_SitePolicy current) (Some modelRules))
  end.

Definition writeModelMappings (p : UpdateAPIKeyParams) (d : tables) : result (tables * APIKey) string :=
  onKeys (Update p (tb_keys d)) d.

Definition ConsumeQuota (id : uuid) (amount : float64) (d : tables) : result (tables * APIKey) string :=
  if fle amount fzero then
    match tb_keys d !! id with Some k => Ok (d, k) | None => Err "record not found" end
  else onKeys (AddUsage id amount (tb_keys d)) d.

Definition ListAPIKeys (now : Z) (d : tables) : tables * list APIKey :=
  let t := DisableExpiredAPIKeys now (tb_keys d) in (set_table t d, ListKeys t).

(** ** Recognising a key *)

Inductive validateError := MissingKey | InvalidKey | QuotaExhausted (e : APIKeyQuotaExceededError).

(** The key itself, or failing that the generated key it is an alias of; the clock is read
    again for the second. *)
Definition validateWith (look : string → Z → keyStore → keyStore * result APIKey lookupError)
    (lookGenerated : string → Z → keyStore → keyStore * result APIKey lookupError)
    (key : string) (now1 now2 : Z) (d : tables) : tables * result APIKey validateError :=
  if bool_decide (key = "") then (d, Err MissingKey)
  else
    let '(s, r) := look (hashToken key) now1 (tb_store d) in
    let d := set_store s d in
    match r with
    | Ok k => (d, Ok k)
    | Err (QuotaError e) => (d, Err (QuotaExhausted e))
    | Err RecordNotFound =>
        match generatedAPIKeyAlias key with
        | None => (d, Err InvalidKey)
        | Some generatedKey =>
            let '(s, r) := lookGenerated (hashToken generatedKey) now2 (tb_store d) in
            let d := set_store s d in
            match r with
            | Ok k => (d, Ok k)
            | Err (QuotaError e) => (d, Err (QuotaExhausted e))
            | Err RecordNotFound => (d, Err InvalidKey)
            end
        end
    end.

Definition ValidateAPIKey : string → Z → Z → tables → tables * result APIKey validateError :=
  validateWith GetActiveByHash GetActiveGeneratedByHash.

(** The look-ups of [ValidateAPIKeyIdentity] ask for no quota and so give no quota error. *)
Definition ValidateAPIKeyIdentity : string → Z → Z → tables → tables * result APIKey validateError :=
  validateWith GetActiveIdentityByHash GetActiveGeneratedIdentityByHash.

(** ** The key of the agents *)

Definition AgentAPIKeyName : string := "xLyra-agent".

Definition with_name (name : string) (k : APIKey) : APIKey :=
  mkKey (ak_ID k) name (ak_SortOrder k) (ak_KeyPrefix k) (ak_KeyHash k) (ak_EncryptedSecret k)
    (ak_MaskedKey k) (ak_KeyKind k) (ak_Scope k) (ak_Status k) (ak_ModelPolicy k) (ak_SitePolicy k)
    (ak_ModelMappings k) (ak_ImageToolBridge k) (ak_BillingMultiplier k) (ak_Quota k)
    (ak_CreatedByAdminID k) (ak_LastUsedAt k) (ak_ExpiresAt k) (ak_CreatedAt k).

Definition with_policies (modelPolicy sitePolicy : string) (k : APIKey) : APIKey :=
  mkKey (ak_ID k) (ak_Name k) (ak_SortOrder k) (ak_KeyPrefix k) (ak_KeyHash k) (ak_EncryptedSecret k)
    (ak_MaskedKey k) (ak_KeyKind k) (ak_Scope k) (ak_Status k) modelPolicy sitePolicy
    (ak_ModelMappings k) (ak_ImageToolBridge k) (ak_BillingMultiplier k) (ak_Quota k)
    (ak_CreatedByAdminID k) (ak_LastUsedAt k) (ak_ExpiresAt k) (ak_CreatedAt k).

Definition internalParams : CreateAPIKeyParams :=
  mkCreateParams AgentAPIKeyName "internal" (hashToken AgentAPIKeyName) None "internal" APIKeyKindAgentInternal
    "gateway" "active" "allow_all" "allow_all" [] None fzero None true None true None true None None.

Definition EnsureInternalAPIKey (id : uuid) (now : Z) (d : tables) : result (tables * APIKey) string :=
  match first_row (λ k, bool_decide (ak_KeyKind k = APIKeyKindAgentInternal)) (tb_keys d) with
  | Some item =>
      let item := with_status "active" (with_name AgentAPIKeyName item) in
      Ok (set_table (<[ak_ID item := item]> (tb_keys d)) d, item)
  | None => onKeys (CreateRow internalParams id now (tb_keys d)) d
  end.

(** Each call is a transaction of its own: a failure keeps what came before it. *)
Definition SyncInternalAPIKeyPolicy (sitePolicy : string) (siteIDs : list uuid) (modelPolicy : string)
    (siteModelIDs : list uuid) (id : uuid) (now : Z) (d : tables) : tables * result APIKey string :=
  match EnsureInternalAPIKey id now d with
  | Err e => (d, Err e)
  | Ok (d, key) =>
      let policy value := if bool_decide (value = "allow_list") then "allow_list" else "allow_all" in
      let key' := with_policies (policy modelPolicy) (policy sitePolicy) key in
      let d := set_table (alter (with_policies (policy modelPolicy) (policy sitePolicy)) (ak_ID key) (tb_keys d)) d in
      match SetSitePermissions (ak_ID key) siteIDs d with
      | Err e => (d, Err ("sync internal agent site permissions: " +:+ e))
      | Ok d =>
          match SetSiteModelPermissions (ak_ID key) siteModelIDs d with
          | Err e => (d, Err ("sync internal agent site model permissions: " +:+ e))
          | Ok d => (d, Ok key')
          end
      end
  end.
End more_operations.
