(* ===== verification/ApiKeyHistory.v ===== *)
(** * API keys: what the operations keep, and what follows

    The operations of [ApiKeyService] in any order: each row stays well formed, a text opens
    at most one row, and a request goes only where its key may go.  [keysInv] is the invariant
    of the table of keys; [move] is what one operation may do to it. *)

From S2P Require Import Prelude GoFloat StableSort Catalog RouteCooldowns SiteConfig Router RateLimit ApiKeyStore ApiKeyAccess ApiKeyService.

#[local] Abbreviation bytes_of := String.list_ascii_of_string.
#[local] Abbreviation of_bytes := String.string_of_list_ascii.

(** ** What holds of every row *)

(** What [validateModelRuleShapes] and [validateModelRules] leave. *)
Definition ruleOk (r : APIKeyModelRule) : Prop :=
  TrimSpace (rule_Pattern r) = rule_Pattern r ∧ modelRulePatternIdentity (rule_Pattern r) ≠ ""
  ∧ rule_Mode r ∈ [APIKeyModelRuleModeHard; APIKeyModelRuleModeSoft].

Definition rulesOk (rules : list APIKeyModelRule) : Prop :=
  Forall ruleOk rules ∧ NoDup (map (λ r, modelRulePatternIdentity (rule_Pattern r)) rules).

Definition bridgeOk (b : APIKeyImageBridge) : Prop :=
  ib_Enabled b = true ∧ TrimSpace (ib_Model b) = ib_Model b ∧ ib_Model b ≠ ""
  ∧ ib_SiteID b ≠ Some uuid_Nil ∧ 1 ≤ ib_MaxCalls b ≤ imageToolBridgeMaxCallsLimit.

Record rowOk (k : APIKey) : Prop := {
  ok_policies : policies k;
  ok_kind : ak_KeyKind k ∈ [apiKeyGeneratedKind; apiKeyCustomKind; APIKeyKindAgentInternal];
  ok_rules : match ak_ModelMappings k with MappingRules rules => rulesOk rules | _ => False end;
  ok_bridge : match ak_ImageToolBridge k with Some b => bridgeOk b | None => True end;
  ok_name : TrimSpace (ak_Name k) = ak_Name k ∧ ak_Name k ≠ ""
}.

(** *** The checks establish it *)

Lemma normalizePolicy_ok p : normalizePolicy p ∈ ["allow_all"; "allow_list"].
Proof. unfold normalizePolicy. case_bool_decide; set_solver. Qed.

Lemma policyOr_ok p cur : cur ∈ ["allow_all"; "allow_list"] → policyOr p cur ∈ ["allow_all"; "allow_list"].
Proof. unfold policyOr. case_bool_decide; [done|]. intros _. apply normalizePolicy_ok. Qed.

Lemma mode_ok m : NormalizeAPIKeyModelRuleMode m ∈ [APIKeyModelRuleModeHard; APIKeyModelRuleModeSoft].
Proof. unfold NormalizeAPIKeyModelRuleMode. destruct (EqualFold _ _); set_solver. Qed.

(** The patterns of rules that passed the shape check. *)
Lemma ruleShapes_ok seen rules :
  ruleShapes seen rules = None →
  let ids := map (λ r, modelRulePatternIdentity (TrimSpace (rule_Pattern r))) rules in
  NoDup ids ∧ ∀ i, i ∈ ids → i ≠ "" ∧ i ∉ seen.
Proof.
  revert seen. induction rules as [|r rules IH]; intros seen; cbn [ruleShapes map].
  { intros _. split; [constructor|]. by intros i ?%not_elem_of_nil. }
  destruct (_ || _); [done|]. case_bool_decide as Hne; [done|]. case_bool_decide as Hseen; [done|].
  intros (Hnd & Hin)%IH. split.
  - apply list.NoDup_cons. split; [|done]. intros Hi%Hin. set_solver.
  - intros i [->|Hi]%elem_of_cons; [done|]. apply Hin in Hi. set_solver.
Qed.

Lemma ruleTargets_patterns st allowed rules l :
  ruleTargets st allowed rules = Ok l →
  map rule_Pattern l = map (λ r, TrimSpace (rule_Pattern r)) rules
  ∧ Forall (λ r, rule_Mode r ∈ [APIKeyModelRuleModeHard; APIKeyModelRuleModeSoft]) l.
Proof.
  revert l. induction rules as [|r rules IH]; intros l; cbn [ruleTargets]; [by intros [= <-]|].
  destruct (st_GetByKey st _) as [[canonical|]|]; try done. destruct (negb _); [done|].
  destruct (ruleTargets st allowed rules) as [l'|]; [|done]. intros [= <-].
  destruct (IH l' eq_refl) as [Hp Hm]. cbn. rewrite Hp. split; [done|]. constructor; [apply mode_ok|done].
Qed.

Lemma validateModelRules_ok st rules policy allowed d l : validateModelRules st rules policy allowed d = Ok l → rulesOk l.
Proof.
  unfold validateModelRules, validateModelRuleShapes.
  case_bool_decide; [intros [= <-]; split; constructor|].
  destruct (ruleShapes ∅ rules) eqn:Es; [done|]. intros [Hp Hm]%ruleTargets_patterns.
  apply ruleShapes_ok in Es as [Hnd Hne]. cbn in Hnd, Hne.
  assert (Hids : map (λ r, modelRulePatternIdentity (rule_Pattern r)) l
                 = map (λ r, modelRulePatternIdentity (TrimSpace (rule_Pattern r))) rules).
  { rewrite <- (map_map rule_Pattern modelRulePatternIdentity l), Hp, map_map. done. }
  split; [|by rewrite Hids]. apply list.Forall_forall. intros r Hr. split_and!.
  - assert (Hr' : rule_Pattern r ∈ map rule_Pattern l) by (by apply list_elem_of_fmap_2).
    rewrite Hp in Hr'. apply list_elem_of_fmap in Hr' as (r' & -> & _). apply TrimSpace_idem.
  - apply (Hne (modelRulePatternIdentity (rule_Pattern r))). rewrite <- Hids.
    by apply (list_elem_of_fmap_2 (λ r, modelRulePatternIdentity (rule_Pattern r))).
  - rewrite list.Forall_forall in Hm. by apply Hm.
Qed.

Lemma normalizeImageToolBridge_ok st input d b : normalizeImageToolBridge st input d = Ok (Some (Some b)) → bridgeOk b.
Proof.
  unfold normalizeImageToolBridge. destruct input as [i|]; [|done]. destruct (negb _); [done|].
  case_bool_decide as Hm; [done|]. destruct (st_GetByKey st _) as [[]|]; try done.
  destruct (match _ with Some _ => _ | None => _ end) eqn:Es; [done|].
  assert (Hsite : (match bi_SiteID i with Some id => if bool_decide (id = uuid_Nil) then None else Some id | None => None end)
                  ≠ Some uuid_Nil) by (destruct (bi_SiteID i); [case_bool_decide|]; congruence).
  destruct (bi_MaxCalls i) as [n|]; [destruct (_ || _) eqn:En; [done|]|]; intros [= <-];
    (split; [done|]; split; [apply TrimSpace_idem|]; split; [done|]; split; [done|]; cbn).
  - unfold imageToolBridgeMaxCallsLimit in *. lia.
  - unfold DefaultImageBridgeMaxCalls, imageToolBridgeMaxCallsLimit. lia.
Qed.

Lemma trimmed_or_default s cur : TrimSpace cur = cur ∧ cur ≠ "" →
  TrimSpace (or_default (TrimSpace s) cur) = or_default (TrimSpace s) cur ∧ or_default (TrimSpace s) cur ≠ "".
Proof. intros [Hc Hn]. unfold or_default. case_bool_decide; [done|]. split; [apply TrimSpace_idem|done]. Qed.

(** ** What happens to the service *)

(** A row that goes on: the same key, and as well formed as before. *)
Record keptRow (k k' : APIKey) : Prop := {
  kr_id : ak_ID k' = ak_ID k;
  kr_hash : ak_KeyHash k' = ak_KeyHash k;
  kr_kind : ak_KeyKind k' = ak_KeyKind k;
  kr_ok : rowOk k → rowOk k'
}.

Abbreviation kept t t' := (∀ id : uuid, option_Forall2 keptRow ((t : gmap uuid APIKey) !! id) ((t' : gmap uuid APIKey) !! id)).

#[export] Instance keptRow_refl : Reflexive keptRow.
Proof. by constructor. Qed.
#[export] Instance keptRow_trans : Transitive keptRow.
Proof. intros k1 k2 k3 [] []. constructor; [congruence..|auto]. Qed.

Lemma kept_refl t : kept t t.
Proof. intros id. destruct (t !! id); by constructor. Qed.

Lemma kept_trans t1 t2 t3 : kept t1 t2 → kept t2 t3 → kept t1 t3.
Proof. intros H12 H23 id. etransitivity; [apply H12|apply H23]. Qed.

Lemma kept_insert t id k k' : t !! id = Some k → keptRow k k' → kept t (<[id := k']> t).
Proof.
  intros Hk Hr j. destruct (decide (id = j)) as [->|]; [|rewrite lookup_insert_ne by done; apply kept_refl].
  rewrite lookup_insert_eq, Hk. by constructor.
Qed.

Lemma kept_fmap (f : APIKey → APIKey) t : (∀ k, keptRow k (f k)) → kept t (f <$> t).
Proof. intros Hf id. rewrite lookup_fmap. destruct (t !! id); by constructor. Qed.

Lemma kept_alter (f : APIKey → APIKey) id t : (∀ k, keptRow k (f k)) → kept t (alter f id t).
Proof.
  intros Hf j. destruct (decide (id = j)) as [->|]; [|rewrite lookup_alter_ne by done; apply kept_refl].
  rewrite lookup_alter_eq. destruct (t !! j); by constructor.
Qed.

Lemma kept_set_orders l t : kept t (set_orders l t).
Proof.
  unfold set_orders. revert t. induction l as [|p l IH]; intros t; cbn [fold_left]; [apply kept_refl|].
  eapply kept_trans; [|apply IH]. apply kept_alter. intros k. constructor; try done. intros []. by constructor.
Qed.

Section service.
Context `{NumericColumns, Location, UuidString, Secrets}.

(** The tables, and the calls of [SetAPIKeyModelMappings] that have read but not written. *)
Record service := mkService { sv_tables : tables; sv_pending : list UpdateAPIKeyParams }.

Definition sv_keys (s : service) : gmap uuid APIKey := tb_keys (sv_tables s).

(** [OpCatalogue] is any change of the sites, models and groups by the rest of the program;
    permissions go with what they name. *)
Inductive serviceOp :=
| SvCreate (st : RouteStore) (input : CreateAPIKeyInput) (adminID : uuid) (draws : nat → nat → drawn) (id : uuid) (now : Z)
| SvUpdate (st : RouteStore) (id : uuid) (input : UpdateAPIKeyInput) (now1 now2 now3 : Z)
| SvRotate (id : uuid) (draws : nat → nat → drawn)
| SvDelete (id : uuid)
| SvIncrease (id : uuid) (amount : float64)
| SvReset (id : uuid) (scopes : list string) (now : Z)
| SvSiteModels (id : uuid) (siteModelIDs : list uuid) (modelPolicy : string)
| SvSites (id : uuid) (siteIDs : list uuid) (sitePolicy : string)
| SvSiteGroups (id : uuid) (groupIDs : list uuid)
| SvReadMappings (st : RouteStore) (id : uuid) (rules : list APIKeyModelRule)
| SvWriteMappings (call : nat)
| SvConsume (id : uuid) (amount : float64)
| SvCharge (id : uuid) (amount : float64) (now : Z)
| SvValidate (key : string) (now1 now2 : Z)
| SvIdentity (key : string) (now1 now2 : Z)
| SvList (now : Z)
| SvReorder (ids : list uuid)
| SvInternal (id : uuid) (now : Z)
| SvSyncInternal (sitePolicy : string) (siteIDs : list uuid) (modelPolicy : string) (siteModelIDs : list uuid) (id : uuid) (now : Z)
| SvCatalogue (groups : gmap uuid bool) (groupSites : list (uuid * uuid)) (sites : gmap uuid SiteRow)
    (siteModels : gmap uuid SiteModel) (canonical : gmap uuid CanonicalModel).

Definition settle {A} (d : tables) (r : result (tables * A) string) : tables :=
  match r with Ok (d, _) => d | Err _ => d end.

Definition withCatalogue (groups : gmap uuid bool) (groupSites : list (uuid * uuid)) (sites : gmap uuid SiteRow)
    (siteModels : gmap uuid SiteModel) (canonical : gmap uuid CanonicalModel) (d : tables) : tables :=
  mkTables (tb_store d)
    (List.filter (λ p, bool_decide (is_Some (sites !! sp_SiteID p))) (tb_sitePermissions d))
    (List.filter (λ p, bool_decide (is_Some (groups !! gp_GroupID p))) (tb_groupPermissions d))
    (List.filter (λ p, bool_decide (is_Some (siteModels !! mp_SiteModelID p))) (tb_modelPermissions d))
    groups groupSites sites siteModels canonical (tb_rateLimits d).

Definition performOn (o : serviceOp) (d : tables) : tables :=
  match o with
  | SvCreate st input adminID draws id now => settle d (CreateAPIKey st input adminID draws id now d)
  | SvUpdate st id input now1 now2 now3 => settle d (UpdateAPIKey st id input now1 now2 now3 d)
  | SvRotate id draws => settle d (RotateAPIKey id draws d)
  | SvDelete id => match DeleteAPIKey id d with Ok d => d | Err _ => d end
  | SvIncrease id amount => settle d (IncreaseAPIKeyQuota id amount d)
  | SvReset id scopes now => settle d (ResetAPIKeyQuota id scopes now d)
  | SvSiteModels id siteModelIDs modelPolicy => settle d (SetAPIKeySiteModels id siteModelIDs modelPolicy d)
  | SvSites id siteIDs sitePolicy => settle d (SetAPIKeySites id siteIDs sitePolicy d)
  | SvSiteGroups id groupIDs => settle d (SetAPIKeySiteGroups id groupIDs d)
  | SvReadMappings _ _ _ | SvWriteMappings _ => d
  | SvConsume id amount => settle d (ConsumeQuota id amount d)
  | SvCharge id amount now => settle d (onKeys (AddUsageAt id amount now (tb_keys d)) d)
  | SvValidate key now1 now2 => (ValidateAPIKey key now1 now2 d).1
  | SvIdentity key now1 now2 => (ValidateAPIKeyIdentity key now1 now2 d).1
  | SvList now => (ListAPIKeys now d).1
  | SvReorder ids => set_table (Reorder ids (tb_keys d)).1 d
  | SvInternal id now => settle d (EnsureInternalAPIKey id now d)
  | SvSyncInternal sitePolicy siteIDs modelPolicy siteModelIDs id now =>
      (SyncInternalAPIKeyPolicy sitePolicy siteIDs modelPolicy siteModelIDs id now d).1
  | SvCatalogue groups groupSites sites siteModels canonical => withCatalogue groups groupSites sites siteModels canonical d
  end.

Definition performService (o : serviceOp) (s : service) : service :=
  let d := sv_tables s in
  match o with
  | SvReadMappings st id rules =>
      match readModelMappings st id rules d with
      | Ok p => mkService d (sv_pending s ++ [p])
      | Err _ => s
      end
  | SvWriteMappings call =>
      match sv_pending s !! call with
      | Some p => mkService (settle d (writeModelMappings p d)) (delete call (sv_pending s))
      | None => s
      end
  | _ => mkService (performOn o d) (sv_pending s)
  end.

Definition emptyTables : tables := mkTables newStore [] [] [] ∅ [] ∅ ∅ ∅ ∅.
Definition newService : service := mkService emptyTables [].

Definition serve (ops : list serviceOp) (s : service) : service := fold_left (λ s o, performService o s) ops s.

(** *** How the table of keys moves *)

(** What a key was made of: its text. *)
Inductive issued (t : gmap uuid APIKey) (k : APIKey) : Prop :=
| iss_custom key :
    ak_KeyHash k = hashToken key → ak_KeyKind k = apiKeyCustomKind → validateCustomGatewayAPIKey key = None →
    (∀ g, generatedAPIKeyAlias key = Some g → existsByHash (hashToken g) apiKeyGeneratedKind t = false) → issued t k
| iss_generated secret :
    ak_KeyHash k = hashToken (apiKeyPublicPrefix +:+ secret) → ak_KeyKind k = apiKeyGeneratedKind →
    validGeneratedAPIKeySecret secret = true →
    existsByHash (hashToken (apiKeyCompatiblePrefix +:+ secret)) "" t = false → issued t k
| iss_internal :
    ak_KeyHash k = hashToken AgentAPIKeyName → ak_KeyKind k = APIKeyKindAgentInternal → issued t k.

Definition newHash (id : uuid) (k : APIKey) (t : gmap uuid APIKey) : Prop :=
  ∀ id' k', t !! id' = Some k' → id' ≠ id → ak_KeyHash k' ≠ ak_KeyHash k.

Inductive move (replaced : option uuid) (t : gmap uuid APIKey) : gmap uuid APIKey → Prop :=
| mv_kept t' : kept t t' → move replaced t t'
| mv_new id k :
    t !! id = None → ak_ID k = id → rowOk k → newHash id k t → issued t k → move replaced t (<[id := k]> t)
| mv_rotated id k k' :
    replaced = Some id → t !! id = Some k → ak_ID k' = ak_ID k → (rowOk k → rowOk k') →
    newHash id k' t → issued t k' → move replaced t (<[id := k']> t)
| mv_deleted id : replaced = Some id → move replaced t (delete id t).

End service.

(** *** What each operation does to the keys *)

(** The permissions leave the keys alone, and the site models they name exist. *)
Definition accessOnly (d d' : tables) : Prop := tb_keys d' = tb_keys d ∧ (modelsExist d → modelsExist d').

#[export] Instance accessOnly_trans : Transitive accessOnly.
Proof. intros d1 d2 d3 [] []. split; [congruence|auto]. Qed.
#[export] Instance accessOnly_refl : Reflexive accessOnly.
Proof. by split. Qed.

Section moves.
Context `{NumericColumns, Location, UuidString, Secrets}.

Record paramsOk (p : UpdateAPIKeyParams) : Prop := {
  po_policies : up_SitePolicy p ∈ ["allow_all"; "allow_list"] ∧ up_ModelPolicy p ∈ ["allow_all"; "allow_list"];
  po_rules : ∀ rules, up_ModelMappings p = Some rules → rulesOk rules;
  po_bridge : ∀ b, up_ImageToolBridge p = Some (Some b) → bridgeOk b;
  po_name : TrimSpace (up_Name p) = up_Name p ∧ up_Name p ≠ ""
}.

#[local] Ltac keeps := constructor; [done..|intros []; by constructor].

Lemma keeps_stored k : keptRow k (stored k).
Proof. keeps. Qed.
Lemma keeps_quota q k : keptRow k (with_quota q k).
Proof. keeps. Qed.
Lemma keeps_last_used at_ k : keptRow k (with_last_used at_ k).
Proof. keeps. Qed.
Lemma keeps_status status k : keptRow k (with_status status k).
Proof. keeps. Qed.
Lemma keeps_agent_name k : keptRow k (with_name AgentAPIKeyName k).
Proof. constructor; [done..|]. intros []. by constructor. Qed.

Lemma keeps_policies m s k :
  m ∈ ["allow_all"; "allow_list"] → s ∈ ["allow_all"; "allow_list"] → keptRow k (with_policies m s k).
Proof. intros Hm Hs. constructor; [done..|]. intros []. by constructor. Qed.

Lemma keeps_updated p k : paramsOk p → keptRow k (updated p k).
Proof.
  intros Hp. constructor; [done..|]. intros Hk. destruct p as [id name status mp sp rules bridge ? ? ? ? ? ? ? ?].
  destruct Hp as [Hpol Hrules Hbridge Hname], Hk as [Hkpol Hkind Hkrules Hkbridge Hkname]. cbn in *.
  constructor; cbn; [done|done| | |done].
  - destruct rules; [by apply Hrules|done].
  - destruct bridge as [[b|]|]; cbn; [by apply Hbridge|done|done].
Qed.

Lemma kept_update p t : paramsOk p → kept t (Update p t).1.
Proof.
  intros Hp. unfold Update. destruct (t !! up_ID p) as [k|] eqn:Hk; [|apply kept_refl].
  eapply kept_insert; [done|]. etransitivity; [by apply keeps_updated|apply keeps_stored].
Qed.

Lemma kept_quota_row t id k q : t !! id = Some k → kept t (<[id := stored (with_quota q k)]> t).
Proof. intros Hk. eapply kept_insert; [done|]. etransitivity; [apply keeps_quota|apply keeps_stored]. Qed.

Lemma kept_charge id amount now t : kept t (AddUsageAt id amount now t).1.
Proof. unfold AddUsageAt. destruct (t !! id) eqn:Hk; [by apply kept_quota_row|apply kept_refl]. Qed.
Lemma kept_usage id amount t : kept t (AddUsage id amount t).1.
Proof. unfold AddUsage. destruct (t !! id) eqn:Hk; [by apply kept_quota_row|apply kept_refl]. Qed.
Lemma kept_increase id amount t : kept t (IncreaseQuotaLimit id amount t).1.
Proof.
  unfold IncreaseQuotaLimit. destruct (_ || _); [apply kept_refl|].
  destruct (t !! id) eqn:Hk; [|apply kept_refl]. destruct (increasedLimit _ _); [by apply kept_quota_row|apply kept_refl].
Qed.
Lemma kept_reset id total daily weekly now t : kept t (ResetQuota id total daily weekly now t).1.
Proof.
  unfold ResetQuota. destruct (t !! id) eqn:Hk; [|apply kept_refl].
  destruct (resetOf _ _ _ _ _); [by apply kept_quota_row|apply kept_refl].
Qed.

Lemma kept_disable now t : kept t (DisableExpiredAPIKeys now t).
Proof. apply kept_fmap. intros k. destruct (_ && _); [apply keeps_status|done]. Qed.

Lemma kept_lookup hash now opts s : keyed (ks_keys s) → kept (ks_keys s) (ks_keys (lookupActive hash now opts s).1).
Proof.
  intros Hs. destruct (lookup_active_keys hash now opts s Hs) as [->|[->|(k & Hk & ->)]];
    [apply kept_refl|apply kept_disable|]. eapply kept_insert; [done|apply keeps_last_used].
Qed.

Lemma keyed_kept t t' : kept t t' → keyed t → keyed t'.
Proof.
  intros Hk Ht id k' Hk'. specialize (Hk id). rewrite Hk' in Hk. inversion Hk as [k ? Hr E|].
  rewrite (kr_id _ _ Hr). by apply Ht.
Qed.

(** [validateWith] over two look-ups. *)
Lemma kept_validate look lookG key now1 now2 d :
  (∀ h now s, keyed (ks_keys s) → kept (ks_keys s) (ks_keys (look h now s).1)) →
  (∀ h now s, keyed (ks_keys s) → kept (ks_keys s) (ks_keys (lookG h now s).1)) →
  keyed (tb_keys d) → kept (tb_keys d) (tb_keys (validateWith look lookG key now1 now2 d).1).
Proof.
  intros Hlook HlookG Hd. unfold validateWith. case_bool_decide; [apply kept_refl|].
  pose proof (Hlook (hashToken key) now1 (tb_store d) Hd) as H1'.
  destruct (look _ _ _) as [s r]. cbn in H1'. destruct r as [k|[|e]]; [done| |done].
  destruct (generatedAPIKeyAlias key) as [g|]; [|done]. cbn [tb_store set_store].
  assert (keyed (ks_keys s)) as Hs by (by eapply keyed_kept).
  pose proof (HlookG (hashToken g) now2 s Hs) as H2'.
  destruct (lookG _ _ _) as [s' r']. cbn in H2'.
  destruct r' as [k|[|e]]; (eapply kept_trans; [exact H1'|exact H2']).
Qed.

Lemma site_permissions_only id ids d d' : SetSitePermissions id ids d = Ok d' → accessOnly d d'.
Proof. unfold SetSitePermissions. destruct (_ || _); [done|]. by intros [= <-]. Qed.
Lemma group_permissions_only id ids d d' : SetSiteGroupPermissions id ids d = Ok d' → accessOnly d d'.
Proof. unfold SetSiteGroupPermissions. destruct (_ || _); [done|]. by intros [= <-]. Qed.
Lemma rate_limit_only id input d d' : upsertAPIKeyRateLimit id input d = Ok d' → accessOnly d d'.
Proof. unfold upsertAPIKeyRateLimit. repeat (destruct (_ : bool); [done|]). repeat case_bool_decide; try done.
  all: repeat (destruct (belowOne _); try done). all: by intros [= <-]. Qed.

Lemma model_permissions_only id ids d d' : SetSiteModelPermissions id ids d = Ok d' → accessOnly d d'.
Proof.
  unfold SetSiteModelPermissions. destruct (_ || _) eqn:E; [done|]. intros [= <-]. split; [done|].
  apply orb_false_elim in E as [E%negb_false_iff _]. rewrite forallb_forall in E.
  intros Hd p [Hp|Hp]%elem_of_app.
  - apply list_elem_of_In, filter_In in Hp as [Hp _]. by apply Hd, list_elem_of_In.
  - apply list_elem_of_fmap in Hp as (m & -> & Hm). cbn. apply list_elem_of_In in Hm.
    by apply E, bool_decide_eq_true in Hm.
Qed.

Lemma given_only {A} (set : A → tables → result tables string) o d d' :
  (∀ x d d', set x d = Ok d' → accessOnly d d') → given set o d = Ok d' → accessOnly d d'.
Proof. intros Hset. destruct o; cbn; [apply Hset|by intros [= <-]]. Qed.
End moves.

(** *** New keys *)

Section issuing.
Context `{NumericColumns, Location, UuidString, Secrets}.

Lemma bytes_app (s1 s2 : string) : bytes_of (s1 +:+ s2) = bytes_of s1 ++ bytes_of s2.
Proof. induction s1 as [|c s1 IH]; [done|]. cbn. by rewrite <- IH. Qed.

Lemma cut_prefix_app p l : cut_prefix p (p ++ l) = Some l.
Proof. induction p as [|c p IH]; [done|]. cbn. by destruct (ascii_dec c c). Qed.

Lemma TrimPrefix_app p s : TrimPrefix (p +:+ s) p = s.
Proof. unfold TrimPrefix. rewrite bytes_app, cut_prefix_app. apply String.string_of_list_ascii_of_string. Qed.

Lemma alphabet_ok i : alphanumeric (nth i alphabet "a"%char) = true.
Proof.
  assert (forallb alphanumeric alphabet = true) as Ha by (by vm_compute). rewrite forallb_forall in Ha.
  destruct (nth_in_or_default i alphabet "a"%char) as [Hin|E]; [by apply Ha|by rewrite E].
Qed.

Lemma secretBytes_ok draw n l :
  secretBytes draw n = Some l → length l = n ∧ Forall (λ c, alphanumeric c = true) l.
Proof.
  revert l. induction n as [|n IH]; intros l; cbn [secretBytes]; [by intros [= <-]|].
  destruct (secretBytes draw n) as [l'|]; [|done]. destruct (draw n) as [i|]; [|done]. cbn [mbind option_bind]. intros [= <-].
  destruct (IH l' eq_refl) as [Hlen Hall]. rewrite length_app. split; [cbn [length]; lia|].
  apply list.Forall_app. split; [done|]. constructor; [|done]. apply alphabet_ok.
Qed.

Lemma length_of_bytes l : String.length (of_bytes l) = length l.
Proof. induction l as [|c l IH]; [done|]. cbn. by rewrite <- IH. Qed.

Lemma newGatewayAPIKey_ok draw key :
  newGatewayAPIKey draw = Ok key → ∃ secret, key = apiKeyPublicPrefix +:+ secret ∧ validGeneratedAPIKeySecret secret = true.
Proof.
  unfold newGatewayAPIKey. destruct (secretBytes draw apiKeySecretLength) as [l|] eqn:E; [|done]. intros [= <-].
  exists (of_bytes l). split; [done|]. apply secretBytes_ok in E as [Hlen Hall].
  unfold validGeneratedAPIKeySecret. rewrite String.list_ascii_of_string_of_list_ascii. apply andb_true_iff. split.
  - unfold len. rewrite (length_of_bytes l), Hlen. done.
  - rewrite forallb_forall. intros c Hc. rewrite list.Forall_forall in Hall. by apply Hall, list_elem_of_In.
Qed.

Lemma generateKey_ok draws attempt n d key :
  generateKey draws attempt n d = Ok key →
  ∃ secret, key = apiKeyPublicPrefix +:+ secret ∧ validGeneratedAPIKeySecret secret = true
    ∧ existsByHash (hashToken (apiKeyCompatiblePrefix +:+ secret)) "" (tb_keys d) = false.
Proof.
  revert attempt. induction n as [|n IH]; intros attempt; cbn [generateKey]; [done|].
  destruct (newGatewayAPIKey (draws attempt)) as [key'|] eqn:Ek; [|done].
  destruct (existsByHash (hashToken key') _ _); [apply IH|].
  destruct (existsByHash (hashToken (_ +:+ _)) _ _) eqn:Ec; [apply IH|]. intros [= <-].
  apply newGatewayAPIKey_ok in Ek as (secret & -> & Hs). exists secret.
  by rewrite TrimPrefix_app in Ec.
Qed.

Lemma createValue_issued custom draws d key kind k :
  createGatewayAPIKeyValue custom draws d = Ok (key, kind) →
  ak_KeyHash k = hashToken key → ak_KeyKind k = kind → issued (tb_keys d) k.
Proof.
  unfold createGatewayAPIKeyValue. case_bool_decide.
  - destruct (generateKey _ _ _ _) as [key'|] eqn:E; [|done]. intros [= <- <-] Hh Hk.
    apply generateKey_ok in E as (secret & -> & Hs & Hc). by eapply iss_generated.
  - destruct (validateCustomGatewayAPIKey custom) eqn:Ev; [done|]. destruct (existsByHash _ _ _); [done|].
    destruct (match generatedAPIKeyAlias custom with Some _ => _ | None => _ end) eqn:Ea; [done|].
    intros [= <- <-] Hh Hk. eapply iss_custom; [done..|]. intros g Hg. by rewrite Hg in Ea.
Qed.

Lemma createValue_kind custom draws d key kind :
  createGatewayAPIKeyValue custom draws d = Ok (key, kind) → kind ∈ [apiKeyGeneratedKind; apiKeyCustomKind].
Proof.
  unfold createGatewayAPIKeyValue. case_bool_decide.
  - destruct (generateKey _ _ _ _); [|done]. intros [= _ <-]. set_solver.
  - destruct (validateCustomGatewayAPIKey custom); [done|]. destruct (existsByHash _ _ _); [done|].
    destruct (match generatedAPIKeyAlias custom with Some _ => _ | None => _ end); [done|]. intros [= _ <-]. set_solver.
Qed.

Lemma unique_keys_new id hash prefix t k :
  keyed t → unique_keys id hash prefix t = true → ak_KeyHash k = hash → newHash id k t.
Proof.
  intros Ht Hu Hk j k' Hj Hne. unfold unique_keys in Hu. rewrite forallb_forall in Hu.
  assert (k' ∈ rows t) as Hr by (apply rows_elem; [done|]; by rewrite (Ht _ _ Hj)).
  apply list_elem_of_In, Hu, orb_prop in Hr as [E%bool_decide_eq_true|[E _]%andb_prop].
  - by rewrite (Ht _ _ Hj) in E.
  - apply negb_true_iff, bool_decide_eq_false in E. congruence.
Qed.

(** A new row, as [CreateRow] stores it. *)
Lemma createRow_move replaced p id now t t' k :
  keyed t → CreateRow p id now t = (t', Ok k) → rowOk k → issued t k → move replaced t t'.
Proof.
  intros Ht. unfold CreateRow. destruct (t !! id) eqn:Hid; [done|].
  destruct (unique_keys _ _ _ _) eqn:Hu; [|done]. intros [= <- <-] Hok Hiss. apply mv_new; [done|done| | |].
  - by apply (kr_ok _ _ (keeps_stored _)).
  - by apply (unique_keys_new id _ _ t _ Ht Hu).
  - destruct Hiss; [eapply iss_custom|eapply iss_generated|apply iss_internal]; done.
Qed.

Lemma createAccess_only input ms gs id d d' : createAccess input ms gs id d = Ok d' → accessOnly d d'.
Proof.
  unfold createAccess. intros E.
  destruct (SetSiteModelPermissions _ _ _) as [d1|] eqn:E1; [|done].
  destruct (SetSiteGroupPermissions _ _ _) as [d2|] eqn:E2; [|done].
  apply model_permissions_only in E1. apply group_permissions_only in E2.
  destruct (if bool_decide _ then _ else _) as [d3|] eqn:E3; [|done].
  assert (accessOnly d2 d3) as E3'.
  { case_bool_decide; [by injection E3 as <-|by apply site_permissions_only in E3]. }
  assert (accessOnly d3 d') as E4.
  { destruct (ci_RateLimit input); [by apply rate_limit_only in E|by injection E as <-]. }
  etransitivity; [exact E1|]. etransitivity; [exact E2|]. by etransitivity.
Qed.

Lemma create_row_ok p id now t t' k :
  CreateRow p id now t = (t', Ok k) →
  policies k → ak_KeyKind k ∈ [apiKeyGeneratedKind; apiKeyCustomKind; APIKeyKindAgentInternal] →
  rulesOk (cp_ModelMappings p) → (∀ b, cp_ImageToolBridge p = Some b → bridgeOk b) →
  TrimSpace (cp_Name p) = cp_Name p → cp_Name p ≠ "" → rowOk k.
Proof.
  unfold CreateRow. destruct (t !! id); [done|]. destruct (unique_keys _ _ _ _); [|done].
  intros [= _ <-] Hpol Hkind Hrules Hbridge Ht Hn. constructor; cbn; [done|done|done| |done].
  destruct (cp_ImageToolBridge p); [by apply Hbridge|done].
Qed.

Lemma create_moves replaced st input adminID draws id now d d' res :
  keyed (tb_keys d) → CreateAPIKey st input adminID draws id now d = Ok (d', res) →
  move replaced (tb_keys d) (tb_keys d') ∧ (modelsExist d → modelsExist d').
Proof.
  intros Hd. unfold CreateAPIKey. case_bool_decide as Hname; [done|].
  destruct (validateAPIKeyQuota _ _ _ _); [done|]. destruct (createPeriodQuota _ "daily" _ _); [|done].
  destruct (createPeriodQuota _ _ _ _); [|done]. destruct (validateAPIKeyBillingMultiplier _); [|done].
  destruct (normalizeExistingSiteModelIDs _ _); [|done].
  destruct (validateModelRules _ _ _ _ _) as [rules|] eqn:Hrules; [|done]. apply validateModelRules_ok in Hrules.
  destruct (normalizeImageToolBridge _ _ _) as [bridge|] eqn:Hbridge; [|done].
  destruct (createGatewayAPIKeyValue _ _ _) as [[key kind]|] eqn:Hkey; [|done].
  destruct (Encrypt key) as [[enc masked]|]; [|done].
  destruct (CreateRow _ _ _ _) as [t [k|]] eqn:Hrow; [|done].
  destruct (createAccess _ _ _ _ _) as [d1|] eqn:Hacc; [|done]. intros [= <- _].
  apply createAccess_only in Hacc as [-> Hex]. split; [|done]. cbn.
  assert (ak_KeyHash k = hashToken key ∧ ak_KeyKind k = kind ∧ policies k) as (Hh & Hk & Hpol).
  { unfold CreateRow in Hrow. destruct (tb_keys d !! id); [done|]. destruct (unique_keys _ _ _ _); [|done].
    injection Hrow as _ <-. apply createValue_kind in Hkey. cbn. split; [done|]. split.
    - unfold or_default. case_bool_decide as E; [|done]. rewrite E in Hkey. rewrite !elem_of_cons in Hkey.
      by destruct Hkey as [?|[?|?%not_elem_of_nil]].
    - unfold or_default. split; cbn; (case_bool_decide as E; [set_solver|apply normalizePolicy_ok]). }
  eapply createRow_move; [done|exact Hrow| |by eapply createValue_issued].
  apply (create_row_ok _ _ _ _ _ _ Hrow); [done| |done| |apply TrimSpace_idem|done].
  - apply createValue_kind in Hkey. rewrite Hk. set_solver.
  - intros b Hb. cbn in Hb. destruct bridge as [b'|]; [|done]. cbn in Hb. subst b'.
    by apply normalizeImageToolBridge_ok in Hbridge.
Qed.

Lemma rotate_moves id draws d d' res :
  keyed (tb_keys d) → RotateAPIKey id draws d = Ok (d', res) →
  move (Some id) (tb_keys d) (tb_keys d') ∧ (modelsExist d → modelsExist d').
Proof.
  intros Hd. unfold RotateAPIKey. destruct (tb_keys d !! id) as [k|] eqn:Hk; [|done].
  case_bool_decide; [done|]. destruct (createGatewayAPIKeyValue _ _ _) as [[key kind]|] eqn:Hkey; [|done].
  destruct (Encrypt key) as [[enc masked]|]; [|done]. unfold RotateSecret. cbn [rp_ID]. rewrite Hk.
  destruct (unique_keys _ _ _ _) eqn:Hu; [|done]. intros [= <- _]. split; [|done]. cbn.
  eapply mv_rotated; [done|done|done| | |by eapply createValue_issued].
  - intros []. constructor; try done. cbn. apply createValue_kind in Hkey. set_solver.
  - by eapply unique_keys_new.
Qed.

Lemma delete_moves id d d' :
  DeleteAPIKey id d = Ok d' → move (Some id) (tb_keys d) (tb_keys d') ∧ (modelsExist d → modelsExist d').
Proof.
  unfold DeleteAPIKey, DeleteRow. destruct (tb_keys d !! id); [|done]. intros [= <-].
  split; [by apply mv_deleted|]. intros Hex p Hp. cbn in Hp. apply Hex.
  apply list_elem_of_In, filter_In in Hp as [Hp _]. by apply list_elem_of_In.
Qed.

Lemma changePolicies_kept id mp sp d d' k :
  (∀ k, rowOk k → mp k ∈ ["allow_all"; "allow_list"] ∧ sp k ∈ ["allow_all"; "allow_list"]) →
  map_Forall (λ _, rowOk) (tb_keys d) → changePolicies id mp sp d = Ok (d', k) →
  kept (tb_keys d) (tb_keys d') ∧ tb_modelPermissions d' = tb_modelPermissions d ∧ tb_siteModels d' = tb_siteModels d.
Proof.
  intros Hpol Hrows. unfold changePolicies. destruct (tb_keys d !! id) as [c|] eqn:Hc; [|done].
  destruct (_ && _); [intros [= <- _]; split; [apply kept_refl|done]|].
  specialize (Hrows _ _ Hc). destruct (Hpol c Hrows).
  unfold onKeys. pose proof (kept_update (writtenBack id c (mp c) (sp c) None) (tb_keys d)) as Hu.
  destruct (Update _ _) as [t [k'|]]; [|done]. intros [= <- _]. split; [|done]. apply Hu.
  constructor; cbn; [done|done|done|apply Hrows].
Qed.
End issuing.

(** *** The invariant *)

Section invariant.
Context `{NumericColumns, Location, UuidString, Secrets}.

Lemma update_moves st id input n1 n2 n3 d d' res :
  map_Forall (λ _, rowOk) (tb_keys d) → UpdateAPIKey st id input n1 n2 n3 d = Ok (d', res) →
  kept (tb_keys d) (tb_keys d') ∧ (modelsExist d → modelsExist d').
Proof.
  intros Hrows. unfold UpdateAPIKey. destruct (tb_keys d !! id) as [c|] eqn:Hc; [|done]. specialize (Hrows _ _ Hc).
  destruct (validateAPIKeyQuota _ _ _ _); [done|]. destruct (updatePeriodQuota _ "daily" _ _ _ _ _) as [[dl du]|]; [|done].
  destruct (updatePeriodQuota _ _ _ _ _ _ _) as [[wl wu]|]; [|done].
  destruct (validateAPIKeyBillingMultiplier _); [|done]. destruct (_ && _ && _); [done|].
  destruct (match ui_SiteModelIDs input with Some _ => _ | None => _ end) as [models|] eqn:Hm; [|done].
  destruct (match ui_ModelRules input with Some _ => _ | None => _ end) as [rules|] eqn:Hr; [|done].
  destruct (normalizeImageToolBridge _ _ _) as [bridge|] eqn:Hb; [|done].
  set (params := mkUpdateParams id _ _ _ _ _ _ _ _ _ _ _ _ _ _).
  assert (paramsOk params) as Hp.
  { destruct (ok_policies _ Hrows) as [Hsp Hmp]. constructor; cbn.
    - split; [destruct (bool_decide (ui_SitePolicy input = ""))|destruct (bool_decide (ui_ModelPolicy input = ""))];
        try done; apply normalizePolicy_ok.
    - intros l ->. destruct (ui_ModelRules input); [|done].
      destruct (validateModelRules _ _ _ _ _) as [l'|] eqn:Hv; [|done]. injection Hr as ->. by eapply validateModelRules_ok.
    - intros b ->. by eapply normalizeImageToolBridge_ok.
    - apply trimmed_or_default, Hrows. }
  pose proof (kept_update params (tb_keys d) Hp) as Hu.
  destruct (Update params _) as [t [k|]]; [|done].
  destruct (given (SetSiteModelPermissions id) _ _) as [d1|] eqn:E1; [|done].
  destruct (given (SetSitePermissions id) _ _) as [d2|] eqn:E2; [|done].
  destruct (given (SetSiteGroupPermissions id) _ _) as [d3|] eqn:E3; [|done].
  destruct (given (upsertAPIKeyRateLimit id) _ _) as [d4|] eqn:E4; [|done]. intros [= <- _].
  eapply given_only in E1; [|apply model_permissions_only]. eapply given_only in E2; [|apply site_permissions_only].
  eapply given_only in E3; [|apply group_permissions_only]. eapply given_only in E4; [|apply rate_limit_only].
  assert (accessOnly (set_table t d) d4) as [-> Hex] by (do 3 (etransitivity; [eassumption|]); done).
  by split.
Qed.

Lemma readModelMappings_ok st id rules d p :
  map_Forall (λ _, rowOk) (tb_keys d) → readModelMappings st id rules d = Ok p → paramsOk p.
Proof.
  intros Hrows. unfold readModelMappings. destruct (validateModelRuleShapes rules); [done|].
  destruct (tb_keys d !! id) as [c|] eqn:Hc; [|done]. specialize (Hrows _ _ Hc).
  destruct (validateModelRules _ _ _ _ _) as [l|] eqn:Hv; [|done]. intros [= <-].
  constructor; cbn; [apply Hrows| |done|apply Hrows]. intros l' [= <-]. by eapply validateModelRules_ok.
Qed.

Lemma internal_ok k id now t t' : CreateRow internalParams id now t = (t', Ok k) → rowOk k ∧ issued t k.
Proof.
  unfold CreateRow. destruct (t !! id); [done|]. destruct (unique_keys _ _ _ _); [|done]. intros [= _ <-].
  split; [|by apply iss_internal]. constructor; cbn; [split; set_solver|set_solver| |done|done].
  split; constructor.
Qed.

Lemma internal_moves replaced id now d d' k :
  keyed (tb_keys d) → EnsureInternalAPIKey id now d = Ok (d', k) →
  move replaced (tb_keys d) (tb_keys d') ∧ (modelsExist d → modelsExist d').
Proof.
  intros Hd. unfold EnsureInternalAPIKey. destruct (first_row _ _) as [item|] eqn:Hi.
  - intros [= <- _]. split; [|done]. apply first_row_some in Hi as [_ Hi%rows_elem]; [|done].
    apply mv_kept. eapply kept_insert; [done|]. etransitivity; [apply keeps_agent_name|apply keeps_status].
  - unfold onKeys. destruct (CreateRow _ _ _ _) as [t [k'|]] eqn:Hc; [|done]. intros [= <- <-]. split; [|done].
    destruct (internal_ok _ _ _ _ _ Hc). by eapply createRow_move.
Qed.

Lemma sync_moves sp si mp mi id now d :
  keyed (tb_keys d) → let d' := (SyncInternalAPIKeyPolicy sp si mp mi id now d).1 in
  (∃ t, move None (tb_keys d) t ∧ kept t (tb_keys d')) ∧ (modelsExist d → modelsExist d').
Proof.
  intros Hd. unfold SyncInternalAPIKeyPolicy. cbn zeta.
  destruct (EnsureInternalAPIKey id now d) as [[d1 key]|] eqn:He; cycle 1.
  { split; [|done]. exists (tb_keys d). split; [by apply mv_kept; apply kept_refl|apply kept_refl]. }
  apply (internal_moves None) in He as [Hm Hex]; [|done].
  set (t1 := alter _ _ (tb_keys d1)). assert (kept (tb_keys d1) t1) as Ht1.
  { apply kept_alter. intros k. apply keeps_policies; case_bool_decide; set_solver. }
  destruct (SetSitePermissions _ _ _) as [d2|] eqn:E2; [|by eauto].
  apply site_permissions_only in E2 as [E2 Hex2].
  destruct (SetSiteModelPermissions _ _ _) as [d3|] eqn:E3; cbn.
  - apply model_permissions_only in E3 as [E3 Hex3]. rewrite E3, E2. split; [by eauto|auto].
  - rewrite E2. split; [by eauto|auto].
Qed.

(** What is true of the table of keys. *)
Record keysInv (t : gmap uuid APIKey) : Prop := {
  ki_keyed : keyed t;
  ki_rows : map_Forall (λ _, rowOk) t;
  ki_hash : ∀ i j k k', t !! i = Some k → t !! j = Some k' → ak_KeyHash k = ak_KeyHash k' → i = j;
  ki_made : map_Forall (λ _ k, ∃ t0, issued t0 k) t;
  ki_alias : ∀ i j k k' key g, t !! i = Some k → t !! j = Some k' → ak_KeyHash k = hashToken key →
    generatedAPIKeyAlias key = Some g → ak_KeyKind k' = apiKeyGeneratedKind → ak_KeyHash k' = hashToken g → False
}.

Lemma issued_same t k k' :
  ak_KeyHash k' = ak_KeyHash k → ak_KeyKind k' = ak_KeyKind k → issued t k → issued t k'.
Proof.
  intros Hh Hk []; [eapply iss_custom|eapply iss_generated|apply iss_internal]; try done; by etransitivity.
Qed.

Lemma keysInv_kept t t' : keysInv t → kept t t' → keysInv t'.
Proof.
  intros Hi Hk.
  assert (Hback : ∀ id k', t' !! id = Some k' → ∃ k, t !! id = Some k ∧ keptRow k k').
  { intros id k' Hk'. specialize (Hk id). rewrite Hk' in Hk. inversion Hk as [k ? Hr E|]; subst. by exists k. }
  constructor.
  - eapply keyed_kept; [done|apply Hi].
  - intros id k' (k & Hk1 & Hr)%Hback. apply (kr_ok _ _ Hr), (ki_rows _ Hi _ _ Hk1).
  - intros i j k k' (k1 & Hk1 & Hr1)%Hback (k2 & Hk2 & Hr2)%Hback.
    rewrite (kr_hash _ _ Hr1), (kr_hash _ _ Hr2). exact (ki_hash _ Hi i j k1 k2 Hk1 Hk2).
  - intros id k' (k & Hk1 & Hr)%Hback. destruct (ki_made _ Hi _ _ Hk1) as [t0 Ht0]. exists t0.
    by eapply issued_same; [apply Hr|apply Hr|].
  - intros i j k k' key g (k1 & Hk1 & Hr1)%Hback (k2 & Hk2 & Hr2)%Hback.
    rewrite (kr_hash _ _ Hr1), (kr_hash _ _ Hr2), (kr_kind _ _ Hr2). exact (ki_alias _ Hi i j k1 k2 key g Hk1 Hk2).
Qed.
End invariant.

(** *** The invariant is kept *)

(** [hashToken] has no collisions. *)
Class HashInjective `{Secrets} := hash_inj : ∀ x y, hashToken x = hashToken y → x = y.

Section preservation.
Context `{NumericColumns, Location, UuidString, !Secrets, !HashInjective}.

Lemma existsByHash_false hash kind t id k :
  keyed t → existsByHash hash kind t = false → t !! id = Some k → ak_KeyHash k = hash →
  kind = "" ∨ ak_KeyKind k = kind → False.
Proof.
  intros Ht He Hk Hh Hkind. unfold existsByHash in He.
  match type of He with ?e = false => assert (e = true); [|congruence] end.
  apply existsb_exists. exists k. split.
  - apply list_elem_of_In, rows_elem; [done|]. by rewrite (Ht _ _ Hk).
  - apply andb_true_iff. split; [by apply bool_decide_eq_true|]. apply orb_true_iff.
    destruct Hkind; [left|right]; by apply bool_decide_eq_true.
Qed.

(** Letters, digits and hyphens: nothing to trim. *)
Definition wordText (key : string) : bool := forallb (λ c, alphanumeric c || bool_decide (c = "-"%char)) (bytes_of key).

Lemma word_trimmed key : wordText key = true → TrimSpace key = key.
Proof.
  unfold wordText. intros E. rewrite forallb_forall in E.
  apply TrimSpace_plain, list.Forall_forall. intros c Hc%list_elem_of_In%E. revert Hc.
  destruct c as [[] [] [] [] [] [] [] []]; vm_compute; congruence.
Qed.

Lemma custom_word key : validateCustomGatewayAPIKey key = None → wordText key = true.
Proof. unfold validateCustomGatewayAPIKey, wordText. case_bool_decide; [done|]. by destruct (forallb _ _). Qed.

Lemma secret_word prefix secret :
  wordText prefix = true → validGeneratedAPIKeySecret secret = true → wordText (prefix +:+ secret) = true.
Proof.
  unfold wordText, validGeneratedAPIKeySecret. intros Hp [_ Hs]%andb_prop. rewrite bytes_app, forallb_app, Hp. cbn.
  rewrite forallb_forall in Hs |- *. intros c Hc%Hs. by rewrite Hc.
Qed.

Lemma cut_prefix_inv p l l' : cut_prefix p l = Some l' → l = p ++ l'.
Proof.
  revert l. induction p as [|a p IH]; intros l; cbn; [by intros [= ->]|]. destruct l as [|b l]; [done|].
  destruct (ascii_dec a b) as [->|]; [|done]. intros E. by rewrite (IH _ E).
Qed.

(** An alias names the secret of a generated key. *)
Lemma alias_secret key g :
  generatedAPIKeyAlias key = Some g →
  ∃ secret, validGeneratedAPIKeySecret secret = true ∧ g = apiKeyPublicPrefix +:+ secret
    ∧ TrimSpace key = apiKeyCompatiblePrefix +:+ secret.
Proof.
  unfold generatedAPIKeyAlias. destruct (negb _) eqn:Hp; [done|]. destruct (validGeneratedAPIKeySecret _) eqn:Hv; [|done].
  intros [= <-]. exists (TrimPrefix (TrimSpace key) apiKeyCompatiblePrefix). split; [done|]. split; [done|].
  apply negb_false_iff in Hp. revert Hp. unfold TrimPrefix, HasPrefix. generalize (TrimSpace key). intros s.
  destruct s as [|c1 [|c2 [|c3 s]]]; cbn [String.prefix apiKeyCompatiblePrefix];
    repeat (destruct (ascii_dec _ _) as [<-|]; [|done]); try done.
  intros _. change (String "s" (String "k" (String "-" s)) = String "s" (String "k" (String "-" (of_bytes (bytes_of s))))).
  by rewrite String.string_of_list_ascii_of_string.
Qed.

Lemma public_not_compatible secret secret' : apiKeyPublicPrefix +:+ secret ≠ apiKeyCompatiblePrefix +:+ secret'.
Proof. by intros [=]. Qed.

Lemma text_inj p s s' : p +:+ s = p +:+ s' → s = s'.
Proof. intros E%(f_equal (λ x, TrimPrefix x p)). by rewrite !TrimPrefix_app in E. Qed.

(** A row whose text is an alias was made from that text by hand. *)
Lemma alias_is_custom t k key g :
  issued t k → ak_KeyHash k = hashToken key → generatedAPIKeyAlias key = Some g →
  ∃ secret, key = apiKeyCompatiblePrefix +:+ secret ∧ g = apiKeyPublicPrefix +:+ secret
    ∧ ak_KeyKind k = apiKeyCustomKind.
Proof.
  intros Hi Hkey (secret & Hs & -> & Ht)%alias_secret. exists secret.
  destruct Hi as [key' Hh Hk Hv _|s' Hh Hk Hs' _|Hh Hk]; rewrite Hh in Hkey; apply hash_inj in Hkey; subst key.
  - split; [|done]. by rewrite <- Ht, (word_trimmed _ (custom_word _ Hv)).
  - rewrite word_trimmed in Ht by (by apply secret_word). by apply public_not_compatible in Ht.
  - exfalso. clear -Ht. vm_compute in Ht. congruence.
Qed.

Lemma keysInv_issue t id k :
  keysInv t → ak_ID k = id → rowOk k → newHash id k t → issued t k → keysInv (<[id := k]> t).
Proof.
  intros Hi Hid Hok Hnew Hiss.
  assert (Hcase : ∀ i k', <[id := k]> t !! i = Some k' → (i = id ∧ k' = k) ∨ (i ≠ id ∧ t !! i = Some k')).
  { intros i k'. destruct (decide (i = id)) as [->|]; [rewrite lookup_insert_eq; intros [= <-]; by left|].
    rewrite lookup_insert_ne by done. by right. }
  constructor.
  - apply keyed_insert; [apply Hi|done].
  - apply map_Forall_insert_2; [done|apply Hi].
  - intros i j k1 k2 [[-> ->]|[Hni H1']]%Hcase [[-> ->]|[Hnj H2']]%Hcase Hh; [done| | |by eapply (ki_hash _ Hi)].
    + exfalso. apply (Hnew _ _ H2' Hnj). congruence.
    + exfalso. apply (Hnew _ _ H1' Hni). congruence.
  - apply map_Forall_insert_2; [by exists t|apply Hi].
  - intros i j k1 k2 key g [[-> ->]|[Hni H1']]%Hcase [[-> ->]|[Hnj H2']]%Hcase Hh Ha Hk Hg;
      [| | |exact (ki_alias _ Hi i j k1 k2 key g H1' H2' Hh Ha Hk Hg)].
    + destruct (alias_is_custom _ _ _ _ Hiss Hh Ha) as (? & _ & _ & E). by rewrite Hk in E.
    + destruct (alias_is_custom _ _ _ _ Hiss Hh Ha) as (secret & -> & -> & E).
      destruct Hiss as [key' Hh' _ _ Hfree|? ? E' _ _|? E']; [|by rewrite E in E'..].
      rewrite Hh' in Hh. apply hash_inj in Hh. subst key'.
      eapply (existsByHash_false _ _ _ _ _ (ki_keyed _ Hi) (Hfree _ Ha) H2' Hg). by right.
    + destruct (ki_made _ Hi _ _ H1') as [t0 Hiss1].
      destruct (alias_is_custom _ _ _ _ Hiss1 Hh Ha) as (secret & -> & -> & _).
      destruct Hiss as [? ? E _ _|secret' Hh' _ _ Hfree|? E]; [by rewrite Hk in E| |by rewrite Hk in E].
      rewrite Hh' in Hg. apply hash_inj, text_inj in Hg. subst secret'.
      eapply (existsByHash_false _ _ _ _ _ (ki_keyed _ Hi) Hfree H1' Hh). by left.
Qed.

Lemma keysInv_move replaced t t' : keysInv t → move replaced t t' → keysInv t'.
Proof.
  intros Hi [t1 Hk|id k Hn Hid Hok Hnew Hiss|id k k' _ Hk Hid Hok Hnew Hiss|id _].
  - by eapply keysInv_kept.
  - by apply keysInv_issue.
  - apply keysInv_issue; [done| | |done|done].
    + by rewrite Hid, (ki_keyed _ Hi _ _ Hk).
    + apply Hok, (ki_rows _ Hi _ _ Hk).
  - assert (Hsub : ∀ i k, delete id t !! i = Some k → t !! i = Some k) by (intros i k [_ ?]%lookup_delete_Some; done).
    constructor.
    + intros i k Hk%Hsub. exact (ki_keyed _ Hi _ _ Hk).
    + intros i k Hk%Hsub. exact (ki_rows _ Hi _ _ Hk).
    + intros i j k1 k2 H1'%Hsub H2'%Hsub. exact (ki_hash _ Hi _ _ _ _ H1' H2').
    + intros i k Hk%Hsub. exact (ki_made _ Hi _ _ Hk).
    + intros i j k1 k2 key g H1'%Hsub H2'%Hsub. exact (ki_alias _ Hi _ _ _ _ _ _ H1' H2').
Qed.
End preservation.

Section reachable.
Context `{NumericColumns, Location, UuidString, !Secrets, !HashInjective}.

(** The key whose text an operation replaces or ends. *)
Definition replaced (o : serviceOp) : option uuid :=
  match o with SvRotate id _ => Some id | SvDelete id => Some id | _ => None end.

Record svInv (s : service) : Prop := {
  si_keys : keysInv (sv_keys s);
  si_models : modelsExist (sv_tables s);
  si_pending : Forall paramsOk (sv_pending s)
}.

(** A move, and changes that keep every row. *)
Definition moves (o : serviceOp) (d d' : tables) : Prop :=
  (∃ t, move (replaced o) (tb_keys d) t ∧ kept t (tb_keys d')) ∧ (modelsExist d → modelsExist d').

Lemma moves_kept o d d' : kept (tb_keys d) (tb_keys d') → (modelsExist d → modelsExist d') → moves o d d'.
Proof. intros Hk Hm. split; [|done]. exists (tb_keys d'). split; [by apply mv_kept|apply kept_refl]. Qed.

Lemma moves_refl o d : moves o d d.
Proof. apply moves_kept; [apply kept_refl|done]. Qed.

Lemma moves_by o d d' : move (replaced o) (tb_keys d) (tb_keys d') ∧ (modelsExist d → modelsExist d') → moves o d d'.
Proof. intros [Hm He]. split; [|done]. exists (tb_keys d'). split; [done|apply kept_refl]. Qed.

(** An operation of the table alone. *)
Lemma moves_onKeys {A} o d (r : gmap uuid APIKey * result A string) :
  kept (tb_keys d) r.1 → moves o d (settle d (onKeys r d)).
Proof. intros Hk. destruct r as [t [x|e]]; cbn in *; [|apply moves_refl]. by apply moves_kept. Qed.

Lemma moves_store o d s : kept (tb_keys d) (ks_keys s) → moves o d (set_store s d).
Proof. intros Hk. by apply moves_kept. Qed.

(** [validateWith] changes no table beside the keys. *)
Lemma validate_models look lookG key now1 now2 d :
  modelsExist d → modelsExist (validateWith look lookG key now1 now2 d).1.
Proof.
  intros Hd. unfold validateWith. case_bool_decide; [done|]. destruct (look _ _ _) as [s [k|[|e]]]; [done| |done].
  destruct (generatedAPIKeyAlias key); [|done]. by destruct (lookG _ _ _) as [s' [k|[|e]]].
Qed.

Lemma catalogue_models groups groupSites sites siteModels canonical d :
  modelsExist (withCatalogue groups groupSites sites siteModels canonical d).
Proof. intros p [_ Hp]%list_elem_of_In%filter_In. by apply bool_decide_eq_true in Hp. Qed.

(** The two setters that may also change a policy. *)
Lemma policies_moves o id mp sp d d1 d' k :
  (∀ k, rowOk k → mp k ∈ ["allow_all"; "allow_list"] ∧ sp k ∈ ["allow_all"; "allow_list"]) →
  map_Forall (λ _, rowOk) (tb_keys d) → accessOnly d d1 → changePolicies id mp sp d1 = Ok (d', k) → moves o d d'.
Proof.
  intros Hpol Hrows [Hk Hm] Hc. apply changePolicies_kept in Hc as (Hkept & Hp & Hs); [|done|by rewrite Hk].
  apply moves_kept; [by rewrite <- Hk|]. intros Hd p. rewrite Hp, Hs. by apply Hm.
Qed.

Lemma performOn_moves o d :
  keyed (tb_keys d) → map_Forall (λ _, rowOk) (tb_keys d) → moves o d (performOn o d).
Proof.
  intros Hd Hrows. destruct o; cbn [performOn].
  - destruct (CreateAPIKey _ _ _ _ _ _ _) as [[d' res]|] eqn:E; [|apply moves_refl].
    apply moves_by. by eapply create_moves.
  - destruct (UpdateAPIKey _ _ _ _ _ _ _) as [[d' res]|] eqn:E; [|apply moves_refl].
    apply moves_kept; by eapply update_moves.
  - destruct (RotateAPIKey _ _ _) as [[d' res]|] eqn:E; [|apply moves_refl]. apply moves_by. by eapply rotate_moves.
  - destruct (DeleteAPIKey id d) as [d'|] eqn:E; [|apply moves_refl]. apply moves_by. by eapply delete_moves.
  - unfold IncreaseAPIKeyQuota. destruct (_ || _); [apply moves_refl|].
    pose proof (moves_onKeys (SvIncrease id amount) d _ (kept_increase id amount (tb_keys d))) as Hm.
    by destruct (onKeys _ _) as [[d' k]|].
  - unfold ResetAPIKeyQuota. destruct (resetScopesOf _ _) as [rs|]; [|apply moves_refl].
    destruct (_ && _); [apply moves_refl|].
    pose proof (moves_onKeys (SvReset id scopes now) d _
      (kept_reset id (rs_total rs) (rs_daily rs) (rs_weekly rs) now (tb_keys d))) as Hm.
    by destruct (onKeys _ _) as [[d' k]|].
  - unfold SetAPIKeySiteModels. destruct (normalizeExistingSiteModelIDs _ _) as [ids|]; [|apply moves_refl].
    destruct (SetSiteModelPermissions _ _ _) as [d1|] eqn:E1; [|apply moves_refl].
    destruct (changePolicies _ _ _ _) as [[d2 k]|] eqn:E2; [|apply moves_refl].
    eapply policies_moves; [|done|by eapply model_permissions_only|exact E2].
    intros k' Hk'. split; [apply policyOr_ok|]; apply Hk'.
  - unfold SetAPIKeySites. destruct (SetSitePermissions _ _ _) as [d1|] eqn:E1; [|apply moves_refl].
    destruct (changePolicies _ _ _ _) as [[d2 k]|] eqn:E2; [|apply moves_refl].
    eapply policies_moves; [|done|by eapply site_permissions_only|exact E2].
    intros k' Hk'. split; [|apply policyOr_ok]; apply Hk'.
  - unfold SetAPIKeySiteGroups. destruct (SetSiteGroupPermissions _ _ _) as [d1|] eqn:E1; [|apply moves_refl].
    destruct (tb_keys d1 !! id); [|apply moves_refl]. apply group_permissions_only in E1 as [Hk Hm].
    apply moves_kept; [|done]. cbn. rewrite Hk. apply kept_refl.
  - apply moves_refl.
  - apply moves_refl.
  - unfold ConsumeQuota. destruct (fle _ _); [by destruct (tb_keys d !! id); apply moves_refl|].
    apply moves_onKeys, kept_usage.
  - apply moves_onKeys, kept_charge.
  - apply moves_kept; [|apply validate_models]. apply kept_validate; [intros; by apply kept_lookup..|done].
  - apply moves_kept; [|apply validate_models]. apply kept_validate; [intros; by apply kept_lookup..|done].
  - apply moves_kept; [|done]. apply kept_disable.
  - apply moves_kept; [|done]. cbn. unfold Reorder. destruct (_ || _); [apply kept_refl|].
    destruct (_ || _); [apply kept_refl|]. apply kept_set_orders.
  - destruct (EnsureInternalAPIKey _ _ _) as [[d' k]|] eqn:E; [|apply moves_refl]. apply moves_by. by eapply internal_moves.
  - by apply sync_moves.
  - apply moves_kept; [apply kept_refl|]. intros _. apply catalogue_models.
Qed.

Lemma performService_moves o s : svInv s →
  moves o (sv_tables s) (sv_tables (performService o s)) ∧ Forall paramsOk (sv_pending (performService o s)).
Proof.
  intros [Hk Hm Hp]. pose proof (performOn_moves o (sv_tables s) (ki_keyed _ Hk) (ki_rows _ Hk)) as Ho.
  destruct o; cbn [performService]; try (split; [exact Ho|exact Hp]).
  - destruct (readModelMappings _ _ _ _) as [p|] eqn:E; cbn; (split; [apply moves_refl|]); [|done].
    apply list.Forall_app. split; [done|]. constructor; [|done]. eapply readModelMappings_ok; [apply Hk|exact E].
  - destruct (sv_pending s !! call) as [p|] eqn:E; [|by split; [apply moves_refl|]]. cbn. split.
    + apply moves_onKeys, kept_update. rewrite list.Forall_lookup in Hp. by eapply Hp.
    + by apply list.Forall_delete.
Qed.

Lemma svInv_perform o s : svInv s → svInv (performService o s).
Proof.
  intros Hi. destruct (performService_moves o s Hi) as [[(t & Hmove & Hkept) Hm] Hp].
  constructor; [|apply Hm, Hi|done]. eapply keysInv_kept; [|exact Hkept]. eapply keysInv_move; [apply Hi|exact Hmove].
Qed.

Lemma svInv_new : svInv newService.
Proof.
  constructor; [|by intros p ?%not_elem_of_nil|by constructor].
  change (keysInv ∅). constructor; [apply map_Forall_empty|apply map_Forall_empty| |apply map_Forall_empty|].
  - intros i j k k' Hk. by rewrite lookup_empty in Hk.
  - intros i j k k' key g Hk. by rewrite lookup_empty in Hk.
Qed.

Lemma svInv_serve ops s : svInv s → svInv (serve ops s).
Proof. revert s. induction ops as [|o ops IH]; intros s Hs; [done|]. cbn. by apply IH, svInv_perform. Qed.
End reachable.

(** ** Recognising keys *)

Section recognising.
Context `{NumericColumns, Location, UuidString, !Secrets, !HashInjective}.

(** The text is the row's own, or names it as an alias does. *)
Definition opens (key : string) (k : APIKey) : Prop :=
  ak_KeyHash k = hashToken key
  ∨ ak_KeyKind k = apiKeyGeneratedKind
    ∧ ∃ g, generatedAPIKeyAlias key = Some g ∧ ak_KeyHash k = hashToken g.

(** The row can be used at [now], but for its quota. *)
Definition live (now : Z) (k : APIKey) : Prop := ak_Status k = "active" ∧ expired now k = false.

Lemma opens_one t i j k k' key :
  keysInv t → t !! i = Some k → t !! j = Some k' → opens key k → opens key k' → i = j.
Proof.
  intros Hi Hk Hk' [Hh|(Hg & g & Ha & Hh)] [Hh'|(Hg' & g' & Ha' & Hh')].
  - eapply (ki_hash _ Hi); [exact Hk|exact Hk'|congruence].
  - exfalso. exact (ki_alias _ Hi i j k k' key g' Hk Hk' Hh Ha' Hg' Hh').
  - exfalso. exact (ki_alias _ Hi j i k' k key g Hk' Hk Hh' Ha Hg Hh).
  - eapply (ki_hash _ Hi); [exact Hk|exact Hk'|congruence].
Qed.

Definition matching (hash kind : string) (k : APIKey) : bool :=
  bool_decide (ak_KeyHash k = hash) && (bool_decide (kind = "") || bool_decide (ak_KeyKind k = kind)).

Lemma first_row_found p t id k :
  keyed t → t !! id = Some k → p k = true → (∀ k', k' ∈ rows t → p k' = true → k' = k) → first_row p t = Some k.
Proof.
  intros Ht Hk Hp Hone. assert (k ∈ rows t) as Hin by (apply rows_elem; [done|]; by rewrite (Ht _ _ Hk)).
  destruct (first_row p t) as [k'|] eqn:E.
  - apply first_row_some in E as [Hp' Hin']. f_equal. by apply Hone.
  - by rewrite (first_row_none _ _ _ E Hin) in Hp.
Qed.

(** The look-up of a hash that a row has. *)
Lemma lookup_found hash now opts s id k :
  keysInv (ks_keys s) → ks_keys s !! id = Some k → matching hash (lo_KeyKind opts) k = true →
  (lookupActive hash now opts s).2 =
    if bool_decide (ak_Status k = "active") && negb (expired now k) then
      match (if lo_RequireQuota opts then QuotaExceededErrorAt now (ak_Quota k) else None) with
      | Some e => Err (QuotaError e)
      | None => Ok (if lo_TouchLastUsed opts then with_last_used (Some now) k else k)
      end
    else Err RecordNotFound.
Proof.
  intros Hi Hk Hm.
  assert (Hf : first_row (matching hash (lo_KeyKind opts)) (ks_keys s) = Some k).
  { apply (first_row_found _ _ id k (ki_keyed _ Hi) Hk Hm).
    intros k' Hin Hm'. apply rows_elem in Hin; [|apply Hi].
    apply andb_prop in Hm as [Hm%bool_decide_eq_true _], Hm' as [Hm'%bool_decide_eq_true _].
    assert (ak_ID k' = id) as E by (eapply (ki_hash _ Hi); [exact Hin|exact Hk|congruence]). congruence. }
  unfold lookupActive. cbn zeta.
  change (first_row _ (ks_keys s)) with (first_row (matching hash (lo_KeyKind opts)) (ks_keys s)). rewrite Hf.
  destruct (bool_decide (ak_Status k = "active")); cbn; [|done]. destruct (expired now k); cbn; [done|].
  destruct (if lo_RequireQuota opts then _ else _); [done|].
  destruct (lo_TouchLastUsed opts); [|done]. by destruct (shouldWrite _ _ _) as [seen []].
Qed.

Lemma lookup_missing hash now opts s :
  keyed (ks_keys s) → (∀ id k, ks_keys s !! id = Some k → matching hash (lo_KeyKind opts) k = false) →
  lookupActive hash now opts s = (s, Err RecordNotFound).
Proof.
  intros Hs Hno. unfold lookupActive. destruct (first_row _ _) as [k|] eqn:E; [|done].
  apply first_row_some in E as [Hm Hk%rows_elem]; [|done]. pose proof (eq_trans (eq_sym Hm) (Hno _ _ Hk)). done.
Qed.

(** The clock that is read for a row. *)
Definition readAt (key : string) (now1 now2 : Z) (k : APIKey) : Z :=
  if bool_decide (ak_KeyHash k = hashToken key) then now1 else now2.

(** The answer for the row that a text opens. *)
Definition answerFor (now : Z) (k : APIKey) : result APIKey validateError :=
  if bool_decide (ak_Status k = "active") && negb (expired now k) then
    match QuotaExceededErrorAt now (ak_Quota k) with
    | Some e => Err (QuotaExhausted e)
    | None => Ok (with_last_used (Some now) k)
    end
  else Err InvalidKey.

Lemma validate_opened key now1 now2 d id k :
  keysInv (tb_keys d) → key ≠ "" → tb_keys d !! id = Some k → opens key k →
  (ValidateAPIKey key now1 now2 d).2 = answerFor (readAt key now1 now2 k) k.
Proof.
  intros Hi Hne Hk Hopen. unfold ValidateAPIKey, validateWith, GetActiveByHash, GetActiveGeneratedByHash, readAt, answerFor.
  rewrite bool_decide_eq_false_2 by done. destruct (bool_decide_reflect (ak_KeyHash k = hashToken key)) as [Hh|Hh].
  - pose proof (lookup_found (hashToken key) now1 (mkLookup "" true true) (tb_store d) id k Hi Hk) as Hl.
    rewrite (surjective_pairing (lookupActive _ _ _ _)), Hl by (unfold matching; cbn; by rewrite bool_decide_eq_true_2).
    cbn [lo_RequireQuota lo_TouchLastUsed].
    destruct (_ && _); [by destruct (QuotaExceededErrorAt now1 (ak_Quota k))|].
    destruct (generatedAPIKeyAlias key) as [g|] eqn:Ha; [|done].
    rewrite lookup_missing; [done| |].
    { cbn. eapply keyed_kept; [apply kept_lookup|]; apply Hi. }
    cbn. intros j k'. pose proof (kept_lookup (hashToken key) now1 (mkLookup "" true true) (tb_store d) (ki_keyed _ Hi)) as Hkept.
    intros Hk'. apply not_true_iff_false. intros [Hg%bool_decide_eq_true Hkind%bool_decide_eq_true]%andb_prop.
    pose proof (keysInv_kept _ _ Hi Hkept) as Hi'.
    specialize (Hkept id). change (ks_keys (tb_store d)) with (tb_keys d) in Hkept. rewrite Hk in Hkept.
    inversion Hkept as [k0 k1 Hr E0 E1|]. symmetry in E1.
    eapply (ki_alias _ Hi' id j k1 k' key g E1 Hk'); [by rewrite (kr_hash _ _ Hr)|done|done|done].
  - destruct Hopen as [|(Hkind & g & Ha & Hg)]; [done|].
    rewrite lookup_missing; [|apply Hi|].
    + rewrite Ha. cbn [tb_store set_store].
      pose proof (lookup_found (hashToken g) now2 (mkLookup "generated" true true) (tb_store d) id k Hi Hk) as Hl.
      rewrite (surjective_pairing (lookupActive _ _ _ _)), Hl
        by (apply andb_true_iff; split; [|apply orb_true_iff; right]; by apply bool_decide_eq_true).
      cbn [lo_RequireQuota lo_TouchLastUsed].
      destruct (_ && _); [by destruct (QuotaExceededErrorAt now2 (ak_Quota k))|done].
    + intros j k' Hk'. cbn [lo_KeyKind]. apply not_true_iff_false. intros [Hh'%bool_decide_eq_true _]%andb_prop.
      exact (ki_alias _ Hi j id k' k key g Hk' Hk Hh' Ha Hkind Hg).
Qed.

Lemma validate_unopened key now1 now2 d :
  keyed (tb_keys d) → key ≠ "" → (∀ id k, tb_keys d !! id = Some k → ¬ opens key k) →
  (ValidateAPIKey key now1 now2 d).2 = Err InvalidKey.
Proof.
  intros Hd Hne Hno. unfold ValidateAPIKey, validateWith, GetActiveByHash, GetActiveGeneratedByHash.
  rewrite bool_decide_eq_false_2 by done.
  rewrite lookup_missing; [|done|].
  - destruct (generatedAPIKeyAlias key) as [g|] eqn:Ha; [|done]. rewrite lookup_missing; [done|done|].
    intros id k Hk. apply not_true_iff_false. intros [Hg%bool_decide_eq_true Hkind%bool_decide_eq_true]%andb_prop.
    apply (Hno id k Hk). right. split; [done|]. by exists g.
  - intros id k Hk. apply not_true_iff_false. intros [Hh%bool_decide_eq_true _]%andb_prop.
    apply (Hno id k Hk). by left.
Qed.

Lemma opened_dec key (t : gmap uuid APIKey) :
  (∃ id k, t !! id = Some k ∧ opens key k) ∨ (∀ id k, t !! id = Some k → ¬ opens key k).
Proof.
  induction t as [|i k t Hi IH] using map_ind; [right; intros id k Hk; by rewrite lookup_empty in Hk|].
  assert (Hd : opens key k ∨ ¬ opens key k).
  { unfold opens. destruct (decide (ak_KeyHash k = hashToken key)) as [|Hh]; [by left; left|].
    destruct (decide (ak_KeyKind k = apiKeyGeneratedKind)) as [|Hg]; [|right; naive_solver].
    destruct (generatedAPIKeyAlias key) as [g|]; [|right; naive_solver].
    destruct (decide (ak_KeyHash k = hashToken g)); [left; naive_solver|right; naive_solver]. }
  destruct Hd as [Hd|Hd]; [left; exists i, k; by rewrite lookup_insert_eq|].
  destruct IH as [(id & k' & Hk' & Ho)|IH].
  - left. exists id, k'. split; [|done]. rewrite lookup_insert_ne; [done|congruence].
  - right. intros id k' [[<- <-]|[_ Hk']]%lookup_insert_Some; [done|by eapply IH].
Qed.

(** C2: A request is answered by the key's own row and by no other.  In every state the
    operations reach, a text opens at most one row - a custom key never comes to name a
    generated one, nor the other way round - and the answer is that row, stamped with its use,
    if it is active, within its time and its quota; the quota it has used up; or that the key
    is not valid, when no row is opened or the one that is cannot be used. *)
Theorem validation_is_exact ops key now1 now2 :
  let s := serve ops newService in
  key ≠ "" →
  (∀ i j k k', sv_keys s !! i = Some k → sv_keys s !! j = Some k' → opens key k → opens key k' → i = j)
  ∧ match (ValidateAPIKey key now1 now2 (sv_tables s)).2 with
    | Ok k' => ∃ k, sv_keys s !! ak_ID k' = Some k ∧ opens key k
        ∧ let now := readAt key now1 now2 k in
          live now k ∧ QuotaExceededErrorAt now (ak_Quota k) = None ∧ k' = with_last_used (Some now) k
    | Err (QuotaExhausted e) => ∃ id k, sv_keys s !! id = Some k ∧ opens key k
        ∧ live (readAt key now1 now2 k) k ∧ QuotaExceededErrorAt (readAt key now1 now2 k) (ak_Quota k) = Some e
    | Err InvalidKey => ∀ id k, sv_keys s !! id = Some k → opens key k → ¬ live (readAt key now1 now2 k) k
    | Err MissingKey => False
    end.
Proof.
  intros s Hne. assert (keysInv (sv_keys s)) as Hi by (apply si_keys, svInv_serve, svInv_new).
  split; [intros i j k k' Hk Hk'; by eapply opens_one|].
  destruct (opened_dec key (sv_keys s)) as [(id & k & Hk & Ho)|Hno].
  - assert (Hlive : live (readAt key now1 now2 k) k ↔
              bool_decide (ak_Status k = "active") && negb (expired (readAt key now1 now2 k) k) = true).
    { unfold live. by rewrite andb_true_iff, bool_decide_eq_true, negb_true_iff. }
    rewrite (validate_opened key now1 now2 (sv_tables s) id k Hi Hne Hk Ho). unfold answerFor.
    destruct (_ && _); [destruct (QuotaExceededErrorAt _ _) as [e|] eqn:Eq|].
    + exists id, k. split; [done|]. split; [done|]. split; [by apply Hlive|done].
    + exists k. cbn. rewrite (ki_keyed _ Hi _ _ Hk). split; [done|]. split; [done|]. split; [by apply Hlive|done].
    + intros j k' Hk' Ho'. assert (j = id) as -> by (by eapply opens_one).
      assert (k' = k) as -> by congruence. by rewrite Hlive.
  - rewrite (validate_unopened key now1 now2 (sv_tables s) (ki_keyed _ Hi) Hne Hno).
    intros id k Hk Ho. by destruct (Hno id k Hk).
Qed.

(** *** Keys that were given out *)

Lemma move_keeps r t t' id k :
  move r t t' → r ≠ Some id → t !! id = Some k → ∃ k', t' !! id = Some k' ∧ keptRow k k'.
Proof.
  intros [t1 Hk|id' k0 Hn|id' k0 k1 Hr|id' Hr] Hne Hid.
  - specialize (Hk id). rewrite Hid in Hk. inversion Hk as [? k' Hkr E0 E1|]; subst. by exists k'.
  - exists k. split; [|done]. rewrite lookup_insert_ne; [done|congruence].
  - exists k. split; [|done]. rewrite lookup_insert_ne; [done|congruence].
  - exists k. split; [|done]. rewrite lookup_delete_ne; [done|congruence].
Qed.

Lemma perform_keeps o s id k :
  svInv s → replaced o ≠ Some id → sv_keys s !! id = Some k →
  ∃ k', sv_keys (performService o s) !! id = Some k' ∧ keptRow k k'.
Proof.
  intros Hi Hne Hk. destruct (performService_moves o s Hi) as [[(t & Hmove & Hkept) _] _].
  destruct (move_keeps _ _ _ _ _ Hmove Hne Hk) as (k1 & Hk1 & Hr1).
  specialize (Hkept id). rewrite Hk1 in Hkept. inversion Hkept as [? k2 Hr2 E0 E1|]; subst.
  exists k2. split; [done|]. by etransitivity.
Qed.

Lemma serve_keeps ops s id k :
  svInv s → Forall (λ o, replaced o ≠ Some id) ops → sv_keys s !! id = Some k →
  ∃ k', sv_keys (serve ops s) !! id = Some k' ∧ keptRow k k'.
Proof.
  revert s k. induction ops as [|o ops IH]; intros s k Hi Hops Hk; [by exists k|].
  apply list.Forall_cons in Hops as [Ho Hops].
  destruct (perform_keeps o s id k Hi Ho Hk) as (k1 & Hk1 & Hr1).
  destruct (IH _ _ (svInv_perform o s Hi) Hops Hk1) as (k2 & Hk2 & Hr2).
  exists k2. split; [done|]. by etransitivity.
Qed.

Lemma opens_kept key k k' : keptRow k k' → opens key k → opens key k'.
Proof. intros [_ Hh Hk _]. unfold opens. by rewrite Hh, Hk. Qed.

(** The row of a key that was made has its hash. *)
Lemma created_row st input adminID draws id now d d' res :
  CreateAPIKey st input adminID draws id now d = Ok (d', res) →
  ∃ k, tb_keys d' !! id = Some k ∧ ak_KeyHash k = hashToken (cr_Key res).
Proof.
  unfold CreateAPIKey. case_bool_decide; [done|].
  destruct (validateAPIKeyQuota _ _ _ _); [done|]. destruct (createPeriodQuota _ "daily" _ _); [|done].
  destruct (createPeriodQuota _ _ _ _); [|done]. destruct (validateAPIKeyBillingMultiplier _); [|done].
  destruct (normalizeExistingSiteModelIDs _ _); [|done]. destruct (validateModelRules _ _ _ _ _); [|done].
  destruct (normalizeImageToolBridge _ _ _); [|done]. destruct (createGatewayAPIKeyValue _ _ _) as [[key kind]|]; [|done].
  destruct (Encrypt key) as [[enc masked]|]; [|done].
  destruct (CreateRow _ _ _ _) as [t [k|]] eqn:Hrow; [|done].
  destruct (createAccess _ _ _ _ _) as [d1|] eqn:Hacc; [|done]. intros [= <- <-].
  apply createAccess_only in Hacc as [-> _]. unfold CreateRow in Hrow. destruct (tb_keys d !! id); [done|].
  destruct (unique_keys _ _ _ _); [|done]. injection Hrow as <- _. eexists. split; [apply lookup_insert_eq|done].
Qed.

(** C5: A key that is given out keeps opening the row it was made for, and only that row,
    whatever is done afterwards - other keys made, rotated or deleted, limits, policies and
    rules changed, the catalogue replaced - until this key itself is rotated or deleted. *)
Theorem issued_keys_stay_valid before st input adminID draws id now d1 res ops :
  let s := serve before newService in
  CreateAPIKey st input adminID draws id now (sv_tables s) = Ok (d1, res) →
  Forall (λ o, replaced o ≠ Some id) ops →
  let s' := serve ops (performService (SvCreate st input adminID draws id now) s) in
  ∃ k, sv_keys s' !! id = Some k ∧ opens (cr_Key res) k
    ∧ ∀ id' k', sv_keys s' !! id' = Some k' → opens (cr_Key res) k' → id' = id.
Proof.
  intros s Hc Hops s'. assert (svInv s) as Hs by apply svInv_serve, svInv_new.
  destruct (created_row _ _ _ _ _ _ _ _ _ Hc) as (k & Hk & Hh).
  assert (sv_keys (performService (SvCreate st input adminID draws id now) s) !! id = Some k) as Hk1.
  { unfold sv_keys. cbn. by rewrite Hc. }
  destruct (serve_keeps ops _ id k (svInv_perform _ _ Hs) Hops Hk1) as (k' & Hk' & Hr).
  exists k'. split; [exact Hk'|]. split; [by apply (opens_kept _ _ _ Hr); left|].
  intros id' k2 Hk2 Ho. eapply opens_one; [|exact Hk2|exact Hk'|exact Ho|by apply (opens_kept _ _ _ Hr); left].
  apply si_keys, svInv_serve, svInv_perform, Hs.
Qed.

(** A fresh text is one that no row has. *)
Lemma generateKey_fresh draws attempt n d key :
  generateKey draws attempt n d = Ok key → existsByHash (hashToken key) "" (tb_keys d) = false.
Proof.
  revert attempt. induction n as [|n IH]; intros attempt; cbn [generateKey]; [done|].
  destruct (newGatewayAPIKey (draws attempt)) as [key'|]; [|done].
  destruct (existsByHash (hashToken key') _ _) eqn:E; [apply IH|].
  destruct (existsByHash (hashToken (_ +:+ _)) _ _); [apply IH|]. by intros [= <-].
Qed.

(** C6: Rotation replaces a key for good.  Whatever text opened the row before it, the text
    itself or its alias, opens nothing afterwards; the text that is given out opens it. *)
Theorem rotation_revokes_the_old_key before id draws d' res key k :
  let d := sv_tables (serve before newService) in
  tb_keys d !! id = Some k → opens key k → RotateAPIKey id draws d = Ok (d', res) →
  (∀ id' k', tb_keys d' !! id' = Some k' → ¬ opens key k')
  ∧ ∃ k', tb_keys d' !! id = Some k' ∧ opens (cr_Key res) k'.
Proof.
  intros d Hk Ho Hrot.
  assert (keysInv (tb_keys d)) as Hi by (apply si_keys, svInv_serve, svInv_new).
  unfold RotateAPIKey in Hrot. rewrite Hk in Hrot. case_bool_decide as Hkind; [done|].
  unfold createGatewayAPIKeyValue in Hrot. rewrite bool_decide_eq_true_2 in Hrot by done.
  destruct (generateKey draws 0 10 d) as [new|] eqn:Hg; [|done].
  destruct (Encrypt new) as [[enc masked]|]; [|done]. unfold RotateSecret in Hrot. cbn [rp_ID] in Hrot. rewrite Hk in Hrot.
  destruct (unique_keys _ _ _ _); [|done]. injection Hrot as <- <-. cbn.
  split; [|eexists; split; [apply lookup_insert_eq|by left]].
  pose proof (generateKey_fresh _ _ _ _ _ Hg) as Hfresh. apply generateKey_ok in Hg as (secret & -> & Hs & Hcompat).
  destruct (ki_made _ Hi _ _ Hk) as [t0 Hmade].
  intros id' k' Hk' Ho'. destruct (decide (id' = id)) as [->|Hne]; cycle 1.
  { rewrite lookup_insert_ne in Hk' by done. apply Hne. by eapply opens_one. }
  rewrite lookup_insert_eq in Hk'. injection Hk' as <-.
  assert (Hno : ak_KeyHash k ≠ hashToken (apiKeyPublicPrefix +:+ secret)).
  { intros E. eapply existsByHash_false; [apply Hi|exact Hfresh|exact Hk|exact E|by left]. }
  destruct Ho as [Hh|(_ & g & Ha & Hh)], Ho' as [Hh'|(_ & g' & Ha' & Hh')]; cbn in Hh'.
  - congruence.
  - destruct (alias_is_custom _ _ _ _ Hmade Hh Ha') as (_ & _ & _ & E). congruence.
  - apply hash_inj in Hh'. subst key. apply alias_secret in Ha as (s' & _ & _ & Ht).
    rewrite word_trimmed in Ht by (by apply secret_word). by apply public_not_compatible in Ht.
  - rewrite Ha in Ha'. injection Ha' as <-. congruence.
Qed.

(** ** What a key may reach *)

(** C1: A request is only ever sent where its key may go.  Whatever has been done to keys,
    permissions and the catalogue, the selected route and each fall-back lead to a site that
    the key's policy leaves open, for itself or through an enabled group, and to a site model
    it is given for the canonical model that was asked for. *)
Theorem key_reaches_only_what_it_may ops st orders now id k endpointType model image explicit bridged access plan c :
  let d := sv_tables (serve ops newService) in
  tb_keys d !! id = Some k →
  setupRoute st orders now id endpointType model image explicit bridged d = Routed access plan →
  c ∈ plan_Selected plan :: plan_Failover plan →
  siteOpen k (cs_ID (cd_Site c)) d
  ∧ (ak_ModelPolicy k = "allow_all"
     ∨ ∃ canonical, resolveCanonical st model = Ok canonical ∧ modelOpen k (cn_ID canonical) (cm_SiteModelID (cd_Model c)) d).
Proof.
  intros d Hk Hr Hc. assert (svInv (serve ops newService)) as Hi by apply svInv_serve, svInv_new.
  eapply routed_open; [exact Hk| |apply Hi|exact Hr|exact Hc]. apply (ki_rows _ (si_keys _ Hi) _ _ Hk).
Qed.

(** C4: The access of a key is exactly what its policies and permissions say, and a refusal
    says which of them is in the way.  A key of a model that is known is refused for its sites
    only when it has none, for its models only when none that serves the model is given to it
    at an open site, and otherwise gets all of them, each list empty just where its policy
    asks for none. *)
Theorem access_is_exact ops st id k model canonical :
  let d := sv_tables (serve ops newService) in
  tb_keys d !! id = Some k → resolveCanonical st model = Ok canonical →
  accessSays k canonical d (ResolveAPIKeyRouteAccess st id model d).
Proof.
  intros d Hk Hc. assert (svInv (serve ops newService)) as Hi by apply svInv_serve, svInv_new.
  apply resolve_access; [done|done|apply (ki_rows _ (si_keys _ Hi) _ _ Hk)|apply Hi].
Qed.

(** C7: Rows stay well formed: under whatever operations, each is filed under its identity,
    has one of the known kinds and policies, a name, valid rules with patterns that do not
    repeat and a bridge, if it has one, that names a model and allows one to ten calls; no two
    have a hash in common; and every permission names a site model that exists. *)
Theorem rows_stay_well_formed ops :
  let s := serve ops newService in
  map_Forall (λ id k, ak_ID k = id ∧ rowOk k) (sv_keys s)
  ∧ (∀ i j k k', sv_keys s !! i = Some k → sv_keys s !! j = Some k' → ak_KeyHash k = ak_KeyHash k' → i = j)
  ∧ modelsExist (sv_tables s).
Proof.
  intros s. assert (svInv s) as Hi by apply svInv_serve, svInv_new. destruct Hi as [Hi Hm _].
  split; [|split; [apply Hi|done]]. intros id k Hk. split; [by apply (ki_keyed _ Hi)|by apply (ki_rows _ Hi _ _ Hk)].
Qed.

(** ** Two things that go wrong *)

(** Once the agents' key exists, its name, which anyone can read in the source, opens it: it
    is looked up like any other key, and it has no limits. *)
Theorem agent_key_opens_by_its_name ops id now d' k now1 now2 :
  let d := sv_tables (serve ops newService) in
  first_row (λ k, bool_decide (ak_KeyKind k = APIKeyKindAgentInternal)) (tb_keys d) = None →
  EnsureInternalAPIKey id now d = Ok (d', k) →
  (ValidateAPIKey AgentAPIKeyName now1 now2 d').2 = Ok (with_last_used (Some now1) (stored k))
  ∧ ak_SitePolicy k = "allow_all" ∧ ak_ModelPolicy k = "allow_all" ∧ QuotaUnlimited (ak_Quota k) = true.
Proof.
  intros d Hnone He. assert (keysInv (tb_keys d)) as Hi by (apply si_keys, svInv_serve, svInv_new).
  destruct (internal_moves None _ _ _ _ _ (ki_keyed _ Hi) He) as [Hm _].
  pose proof (keysInv_move _ _ _ Hi Hm) as Hi'.
  unfold EnsureInternalAPIKey, onKeys, CreateRow in He. rewrite Hnone in He.
  destruct (tb_keys d !! id); [done|]. destruct (unique_keys _ _ _ _); [|done]. injection He as <- <-.
  split; [|done]. cbn in Hi'.
  erewrite (validate_opened AgentAPIKeyName now1 now2 _ id); [|exact Hi'|done|apply lookup_insert_eq|by left].
  unfold readAt. by rewrite bool_decide_eq_true_2.
Qed.

(** [SetAPIKeyModelMappings] writes back the status it read, so a key that is disabled in
    between is active again, and limits that were changed are lost. *)
Theorem stale_mappings_restore_the_status st id rules d k p d1 d2 k2 :
  readModelMappings st id rules d = Ok p → tb_keys d !! id = Some k →
  writeModelMappings p d1 = Ok (d2, k2) →
  ak_Status k2 = ak_Status k ∧ QuotaUnlimited (ak_Quota k2) = QuotaUnlimited (ak_Quota k)
  ∧ ak_ExpiresAt k2 = nullableTime (ak_ExpiresAt k).
Proof.
  unfold readModelMappings, writeModelMappings, onKeys, Update. destruct (validateModelRuleShapes rules); [done|].
  intros Hr Hk. rewrite Hk in Hr. destruct (validateModelRules _ _ _ _ _); [|done]. injection Hr as <-. cbn [up_ID writtenBack].
  destruct (tb_keys d1 !! id); [|done]. by intros [= _ <-].
Qed.
End recognising.

(** ** Rules without an order *)

Lemma HasSuffix_star s : HasSuffix s "*" = true → TrimSuffix s "*" +:+ "*" = s.
Proof.
  unfold HasSuffix, TrimSuffix. destruct (cut_prefix _ _) as [rest|] eqn:E; [|done]. intros _.
  apply cut_prefix_inv in E. change (rev (bytes_of "*")) with ["*"%char] in E.
  apply (f_equal (@rev ascii)) in E. rewrite rev_involutive in E. cbn in E.
  rewrite <- (String.string_of_list_ascii_of_string s), E. clear. generalize (rev rest). intros l.
  induction l as [|c l IH]; [done|]. exact (f_equal (String c) IH).
Qed.

(** What a rule that applies says about its pattern. *)
Lemma exact_identity normalized r :
  ruleOk r → exact_match normalized r = true → modelRulePatternIdentity (rule_Pattern r) = "exact:" +:+ normalized.
Proof.
  intros (Ht & Hid & _). unfold exact_match, IsExact, IsCatchAll, IsWildcard. rewrite Ht.
  intros [[Hc%negb_true_iff Hw%negb_true_iff]%andb_prop Hn%bool_decide_eq_true]%andb_prop.
  unfold modelRulePatternIdentity in *. apply bool_decide_eq_false in Hc. rewrite (bool_decide_eq_false_2 _ Hc) in *.
  destruct (HasSuffix (rule_Pattern r) "*") eqn:Hs.
  - exfalso. rewrite andb_true_r in Hw. apply Z.ltb_ge in Hw. apply HasSuffix_star in Hs. apply Hc.
    destruct (TrimSuffix (rule_Pattern r) "*") as [|c s]; [done|]. rewrite <- Hs in Hw. unfold len in Hw.
    change (String c s +:+ "*") with (String c (s +:+ "*")) in Hw. destruct s as [|a s].
    + change ("" +:+ "*") with "*" in Hw. cbn [String.length] in Hw. lia.
    + change (String a s +:+ "*") with (String a (s +:+ "*")) in Hw. cbn [String.length] in Hw. lia.
  - destruct (Contains (rule_Pattern r) "*"); [done|]. rewrite Hn in *. by destruct (bool_decide (normalized = "")).
Qed.

Lemma wildcard_identity normalized r n :
  ruleOk r → wildcard_match normalized r = Some n →
  ∃ prefix, modelRulePatternIdentity (rule_Pattern r) = "wildcard:" +:+ prefix ∧ HasPrefix normalized prefix = true ∧ len prefix = n.
Proof.
  intros (Ht & Hid & _). unfold wildcard_match, IsCatchAll, IsWildcard, wildcardPrefix. rewrite Ht.
  case_bool_decide as Hc; [done|]. destruct (_ && _) eqn:Hw; [|done]. apply andb_prop in Hw as [_ Hs]. cbn.
  unfold modelRulePatternIdentity. rewrite (bool_decide_eq_false_2 _ Hc), Hs.
  destruct (Contains _ _); [done|]. case_bool_decide; [done|]. cbn. destruct (HasPrefix _ _) eqn:Hp; [|done].
  intros [= <-]. by eexists.
Qed.

Lemma prefix_same s p p' : HasPrefix s p = true → HasPrefix s p' = true → len p = len p' → p = p'.
Proof.
  unfold HasPrefix, len. revert s p'. induction p as [|c p IH]; intros s p' Hp Hp' Hl.
  - by destruct p'.
  - destruct p' as [|c' p']; [done|]. destruct s as [|c0 s]; [done|]. cbn in Hp, Hp', Hl.
    destruct (ascii_dec c c0) as [->|]; [|done]. destruct (ascii_dec c' c0) as [->|]; [|done].
    f_equal. apply (IH s); [done|done|lia].
Qed.

(** Rules with one identity are one rule. *)
Lemma identity_one rules r r' :
  rulesOk rules → r ∈ rules → r' ∈ rules →
  modelRulePatternIdentity (rule_Pattern r) = modelRulePatternIdentity (rule_Pattern r') → r = r'.
Proof.
  intros [_ Hnd] Hr Hr' E. apply list_elem_of_lookup in Hr as [i Hr], Hr' as [j Hr'].
  set (f := λ r, modelRulePatternIdentity (rule_Pattern r)) in *.
  assert (i = j) as ->; [|congruence].
  eapply (NoDup_lookup (map f rules)); [exact Hnd| |].
  - change (map f rules) with (f <$> rules). by rewrite list_lookup_fmap, Hr.
  - change (map f rules) with (f <$> rules). rewrite list_lookup_fmap, Hr'. unfold f. cbn. by rewrite E.
Qed.

(** The choice does not depend on where the rules stand. *)
Lemma chosen_once normalized rules rules' o o' :
  rulesOk rules → rules ≡ₚ rules' → chosen normalized rules o → chosen normalized rules' o' → o = o'.
Proof.
  intros Hok Hp Ho Ho'.
  assert (Hin : ∀ i r, rules' !! i = Some r → r ∈ rules) by (intros i r Hr; rewrite Hp; by eapply list_elem_of_lookup_2).
  assert (Hrule : ∀ r, r ∈ rules → ruleOk r) by (destruct Hok as [Hall _]; by apply list.Forall_forall).
  destruct o as [r|], o' as [r'|]; [|exfalso|exfalso|done].
  - f_equal. destruct Ho as [i Hc], Ho' as [j Hc'].
    destruct Hc as [(Hi & He & _)|[(Hne & n & Hi & Hn & Hmax)|(Hne & Hnw & Hi & Hca & _)]],
      Hc' as [(Hj & He' & _)|[(Hne' & n' & Hj & Hn' & Hmax')|(Hne' & Hnw' & Hj & Hca' & _)]];
      pose proof (list_elem_of_lookup_2 _ _ _ Hi) as Hr; pose proof (Hin _ _ Hj) as Hr';
      assert (Hr1 : r ∈ rules') by (by rewrite <- Hp).
    + apply (identity_one rules); [done..|]. rewrite (exact_identity normalized r), (exact_identity normalized r'); auto.
    + exfalso. by rewrite (Hne' r Hr1) in He.
    + exfalso. by rewrite (Hne' r Hr1) in He.
    + exfalso. by rewrite (Hne r' Hr') in He'.
    + assert (n = n') as <-.
      { apply list_elem_of_lookup in Hr' as [i' Hi']. apply list_elem_of_lookup in Hr1 as [j' Hj'].
        destruct (Hmax _ _ _ Hi' Hn') as [|[]], (Hmax' _ _ _ Hj' Hn) as [|[]]; lia. }
      destruct (wildcard_identity _ _ _ (Hrule r Hr) Hn) as (p & Hid & Hpre & Hl).
      destruct (wildcard_identity _ _ _ (Hrule r' Hr') Hn') as (p' & Hid' & Hpre' & Hl').
      apply (identity_one rules); [done..|]. rewrite Hid, Hid'. f_equal. by eapply prefix_same; [..|congruence].
    + exfalso. rewrite (Hnw' r Hr1) in Hn. done.
    + exfalso. by rewrite (Hne r' Hr') in He'.
    + exfalso. rewrite (Hnw r' Hr') in Hn'. done.
    + apply (identity_one rules); [done..|]. unfold IsCatchAll in Hca, Hca'.
      destruct (Hrule r Hr) as [Ht _], (Hrule r' Hr') as [Ht' _]. rewrite Ht in Hca. rewrite Ht' in Hca'.
      apply bool_decide_eq_true in Hca, Hca'. by rewrite Hca, Hca'.
  - destruct Ho' as (Hne' & Hnw' & Hnc'). destruct Ho as [i [(Hi & He & _)|[(_ & n & Hi & Hn & _)|(_ & _ & Hi & Hca & _)]]];
      assert (r ∈ rules') as Hr by (rewrite <- Hp; by eapply list_elem_of_lookup_2).
    + by rewrite (Hne' r Hr) in He.
    + by rewrite (Hnw' r Hr) in Hn.
    + by rewrite (Hnc' r Hr) in Hca.
  - destruct Ho as (Hne & Hnw & Hnc). destruct Ho' as [i [(Hi & He & _)|[(_ & n & Hi & Hn & _)|(_ & _ & Hi & Hca & _)]]];
      pose proof (Hin _ _ Hi) as Hr.
    + by rewrite (Hne r' Hr) in He.
    + by rewrite (Hnw r' Hr) in Hn.
    + by rewrite (Hnc r' Hr) in Hca.
Qed.

Lemma rulesOk_normalized rules : rulesOk rules → rulesOk (NormalizeAPIKeyModelRules rules).
Proof.
  intros [Hall Hnd]. unfold NormalizeAPIKeyModelRules. induction rules as [|r rules IH]; [by split; constructor|].
  apply list.Forall_cons in Hall as [Hr Hall]. cbn [map] in Hnd. apply list.NoDup_cons in Hnd as [Hnew Hnd].
  specialize (IH Hall Hnd). cbn [omap list_omap]. destruct (_ || _); [done|]. destruct IH as [IHall IHnd].
  destruct Hr as (Ht & Hid & Hm). split.
  - constructor; [|done]. unfold ruleOk. cbn. rewrite Ht. split; [done|]. split; [done|apply mode_ok].
  - cbn [map]. apply list.NoDup_cons. split; [|done]. cbn. rewrite Ht. intros Hin. apply Hnew.
    clear -Hin Hall. induction rules as [|r' rules IH]; [by apply not_elem_of_nil in Hin|].
    apply list.Forall_cons in Hall as [(Ht' & _) Hall]. cbn in Hin. destruct (_ || _).
    + right. by apply IH.
    + cbn in Hin. rewrite Ht' in Hin. apply elem_of_cons in Hin as [->|Hin]; [by left|right; by apply IH].
Qed.

(** The order of a key's rules does not matter.  Every rule of every row that the
    operations reach has a pattern of its own, so a model is mapped the same way however the
    rules are arranged. *)
Theorem rules_need_no_order `{NumericColumns, Location, UuidString, !Secrets, !HashInjective} ops id k rules model :
  sv_keys (serve ops newService) !! id = Some k → ModelRules k ≡ₚ rules →
  matchModelRule rules model = matchModelRule (ModelRules k) model.
Proof.
  intros Hk Hp. assert (rulesOk (ModelRules k)) as Hok.
  { pose proof (svInv_serve ops _ svInv_new) as [Hi _ _]. pose proof (ok_rules _ (ki_rows _ Hi _ _ Hk)) as Hr.
    unfold ModelRules, ParseAPIKeyModelRules. destruct (ak_ModelMappings k); [|done..]. by apply rulesOk_normalized. }
  unfold matchModelRule. case_bool_decide as Hne; [done|]. symmetry. eapply chosen_once; [done|done| |];
    apply (matchLoop_chosen _ []);
    (split; [by intros r ?%not_elem_of_nil|]; split; [|by intros r ?%not_elem_of_nil]);
    (split; [done|by intros r ?%not_elem_of_nil]).
Qed.

(** ** Concrete states *)

(** A hash that is the text itself. *)
Definition textSecrets : Secrets := {| hashToken := λ s, s; Encrypt := λ s, Ok ("sealed:" +:+ s, maskToken s) |}.
#[local] Existing Instance exactColumns.
#[local] Existing Instance plusEight.
#[local] Existing Instance hexID.
#[local] Existing Instance textSecrets.
#[local] Instance textInjective : HashInjective.
Proof. by intros x y. Qed.

Definition anyModel : RouteStore := exampleStore exampleRows [].

(** Each attempt draws one letter, over and over. *)
Definition oneLetter : nat → nat → drawn := λ attempt _, if (attempt =? 0)%nat then Some 0%fin else Some 1%fin.

Definition sampleCatalogue : serviceOp :=
  SvCatalogue {[5%N := true]} [(5%N, 1%N)] {[1%N := mkSite 1%N "a" "a" "newapi"; 2%N := mkSite 2%N "b" "b" "newapi"]}
    {[11%N := mkSiteModel 11%N 1%N (Some 9%N) "gpt-4o" "gpt-4o"; 12%N := mkSiteModel 12%N 2%N (Some 9%N) "gpt-4o" "gpt-4o"]}
    {[9%N := mkCanonical 9%N "gpt-4o"]}.

Definition sampleInput (custom policy : string) : CreateAPIKeyInput :=
  mkCreateInput " one " custom policy [11%N; 12%N; 11%N] policy [] [5%N]
    [mkRule "gpt-*" "gpt-4o" "soft"; mkRule "*" " gpt-4o " "" ; mkRule "o1" "gpt-4o" "hard"]
    (Some (mkBridgeInput true "gpt-image" None (Some 3))) None (Some (of_int 10)) false None None None None None
    (Some (mkConfigInput "enabled" (Some 60) None)).

Definition sampleUpdateInput (status : string) : UpdateAPIKeyInput :=
  mkUpdateInput "" status "" None "" None None None None None (Some (of_int 20)) false (Some (of_int 4)) (Some false)
    None None None None.

Definition customCreate : serviceOp := SvCreate anyModel (sampleInput "my-key" "allow_list") 3%N oneLetter 7%N (noon 20000).
Definition generatedCreate : serviceOp := SvCreate anyModel (sampleInput "" "") 3%N oneLetter 8%N (noon 20000).
Definition sampleOps : list serviceOp :=
  [sampleCatalogue; customCreate; generatedCreate; SvInternal 6%N (noon 20000);
   SvUpdate anyModel 7%N (sampleUpdateInput "active") (noon 20000) (noon 20000) (noon 20000);
   SvCharge 7%N (of_int 3) (noon 20000)].

#[local] Abbreviation sampleState := (serve sampleOps newService).

(** The generated key, and the alias it is known by. *)
Definition fortyEight (c : ascii) : string := of_bytes (repeat c 48).

(** What a check of a row comes to. *)
Definition rowCheck (id : uuid) (p : APIKey → bool) (t : gmap uuid APIKey) : bool :=
  match t !! id with Some k => p k | None => false end.

Lemma validation_is_exact_witness :
  ("sk-" +:+ fortyEight "a"%char) ≠ ""
  ∧ (∃ k, sv_keys sampleState !! 8%N = Some k ∧ opens ("sk-" +:+ fortyEight "a"%char) k)
  ∧ (match (ValidateAPIKey ("sk-" +:+ fortyEight "a"%char) (noon 20000) (noon 20001) (sv_tables sampleState)).2 with
     | Ok k => ak_ID k = 8%N ∧ ak_LastUsedAt k = Some (noon 20001)
     | Err _ => False
     end)
  ∧ (∀ i j k k', sv_keys sampleState !! i = Some k → sv_keys sampleState !! j = Some k' →
       opens "my-key" k → opens "my-key" k' → i = j).
Proof.
  split; [by vm_compute|]. split.
  { destruct (sv_keys sampleState !! 8%N) as [k|] eqn:Ek; [|by vm_compute in Ek]. exists k. split; [done|].
    right. vm_compute in Ek. injection Ek as <-. split; [done|]. exists ("xlyra-" +:+ fortyEight "a"%char). by split; vm_compute. }
  split; [vm_compute; by split|].
  assert (Hne : "my-key" ≠ "") by done.
  destruct (@validation_is_exact exactColumns plusEight hexID textSecrets textInjective sampleOps "my-key" 0 0 Hne) as [Hone _]. exact Hone.
Defined.

Lemma issued_keys_stay_valid_witness :
  let before := [sampleCatalogue; customCreate] in
  let after := [SvRotate 7%N oneLetter; SvDelete 7%N; SvInternal 6%N 0; sampleCatalogue] in
  match CreateAPIKey anyModel (sampleInput "" "") 3%N oneLetter 8%N (noon 20000) (sv_tables (serve before newService)) with
  | Ok (_, res) => cr_Key res = "xlyra-" +:+ fortyEight "a"%char
      ∧ ∃ k, sv_keys (serve after (performService generatedCreate (serve before newService))) !! 8%N = Some k
             ∧ opens (cr_Key res) k
  | Err _ => False
  end.
Proof.
  intros before after.
  destruct (CreateAPIKey _ _ _ _ _ _ _) as [[d1 res]|] eqn:E; [|by vm_compute in E].
  split; [vm_compute in E; by injection E as _ <-|].
  destruct (@issued_keys_stay_valid exactColumns plusEight hexID textSecrets textInjective before anyModel (sampleInput "" "") 3%N oneLetter 8%N (noon 20000) d1 res after E)
    as (k & Hk & Ho & _); [apply (bool_decide_unpack _); by vm_compute|]. exists k. split; [exact Hk|exact Ho].
Defined.

Lemma rotation_revokes_the_old_key_witness :
  let d := sv_tables sampleState in
  match RotateAPIKey 8%N oneLetter d with
  | Ok (d', res) => cr_Key res = "xlyra-" +:+ fortyEight "b"%char
      ∧ ∀ id' k', tb_keys d' !! id' = Some k' → ¬ opens ("sk-" +:+ fortyEight "a"%char) k'
  | Err _ => False
  end.
Proof.
  intros d. destruct (RotateAPIKey 8%N oneLetter d) as [[d' res]|] eqn:E; [|by vm_compute in E].
  split; [vm_compute in E; by injection E as _ <-|].
  destruct (tb_keys d !! 8%N) as [k|] eqn:Ek; [|by vm_compute in Ek].
  apply (@rotation_revokes_the_old_key exactColumns plusEight hexID textSecrets textInjective sampleOps 8%N oneLetter d' res ("sk-" +:+ fortyEight "a"%char) k Ek); [|exact E].
  right. vm_compute in Ek. injection Ek as <-. split; [done|]. exists ("xlyra-" +:+ fortyEight "a"%char). by split; vm_compute.
Defined.

Lemma key_reaches_only_what_it_may_witness :
  let d := sv_tables sampleState in
  match setupRoute anyModel fixedOrder Minute 7%N "openai" "gpt-4o" false false false d with
  | Routed _ plan => map (λ c, (cs_ID (cd_Site c), cm_SiteModelID (cd_Model c))) (plan_Selected plan :: plan_Failover plan) = [(1%N, 11%N)]
      ∧ ∃ k, tb_keys d !! 7%N = Some k ∧ siteOpen k 1%N d
  | NotRouted _ _ => False
  end.
Proof.
  intros d. destruct (setupRoute _ _ _ _ _ _ _ _ _ _) as [access plan|f n] eqn:E; [|by vm_compute in E].
  assert (Hplan : map (λ c, (cs_ID (cd_Site c), cm_SiteModelID (cd_Model c))) (plan_Selected plan :: plan_Failover plan) = [(1%N, 11%N)])
    by (vm_compute in E; by injection E as _ <-).
  split; [exact Hplan|]. destruct (tb_keys d !! 7%N) as [k|] eqn:Ek; [|by vm_compute in Ek]. exists k. split; [done|].
  injection Hplan as Hsite _ _. rewrite <- Hsite.
  apply (@key_reaches_only_what_it_may exactColumns plusEight hexID textSecrets textInjective sampleOps anyModel fixedOrder Minute 7%N k "openai" "gpt-4o" false false false
           access plan (plan_Selected plan) Ek E). by left.
Defined.

Lemma access_is_exact_witness :
  let d := sv_tables sampleState in
  ∃ k, tb_keys d !! 7%N = Some k
    ∧ accessSays k (mkCanonical 9%N "gpt-4o") d (ResolveAPIKeyRouteAccess anyModel 7%N "gpt-4o" d)
    ∧ match ResolveAPIKeyRouteAccess anyModel 7%N "gpt-4o" d with
      | Ok a => ra_AllowedSiteIDs a = [1%N] ∧ ra_AllowedSiteModelIDs a = [11%N]
      | Err _ => False
      end.
Proof.
  intros d. destruct (tb_keys d !! 7%N) as [k|] eqn:Ek; [|by vm_compute in Ek]. exists k. split; [done|].
  split; [|vm_compute; split; reflexivity].
  apply (@access_is_exact exactColumns plusEight hexID textSecrets textInjective sampleOps anyModel 7%N k "gpt-4o" (mkCanonical 9%N "gpt-4o") Ek). vm_compute. reflexivity.
Defined.

Lemma rows_stay_well_formed_witness :
  size (sv_keys sampleState) = 3%nat ∧ map_Forall (λ id k, ak_ID k = id ∧ rowOk k) (sv_keys sampleState).
Proof.
  split; [by vm_compute|]. destruct (@rows_stay_well_formed exactColumns plusEight hexID textSecrets textInjective sampleOps) as [Hrows _]. exact Hrows.
Defined.

Lemma rules_need_no_order_witness :
  ∃ k, sv_keys sampleState !! 7%N = Some k
    ∧ map rule_Pattern (ModelRules k) = ["gpt-*"; "*"; "o1"]
    ∧ (rule_Pattern <$> matchModelRule (ModelRules k) "GPT-5") = Some "gpt-*"
    ∧ matchModelRule (rev (ModelRules k)) "GPT-5" = matchModelRule (ModelRules k) "GPT-5".
Proof.
  destruct (sv_keys sampleState !! 7%N) as [k|] eqn:Ek; [|by vm_compute in Ek]. exists k. split; [done|].
  split; [vm_compute in Ek; injection Ek as <-; vm_compute; reflexivity|].
  split; [vm_compute in Ek; injection Ek as <-; vm_compute; reflexivity|].
  apply (@rules_need_no_order exactColumns plusEight hexID textSecrets textInjective sampleOps 7%N k _ "GPT-5" Ek). apply Permutation_rev.
Defined.
