(* ===== verification/ModelsList.v ===== *)
(** * The list of models

    What [GET /v1/models] shows for an API key ([buildModelsPayloadForAccess] and its
    helpers in [gateway/models_cache.go]), over the rows of [RouteRows] and the access of
    [ApiKeyAccess]; and that, without Grok sign-in keys, it lists exactly the models the
    router offers the key.

    An item is the canonical model it is built from, with the endpoint types, the site types
    and, for an alias, the model it stands for; its descriptive metadata (name, limits,
    category) are left out. *)

From S2P Require Import Prelude StableSort GoFloat SiteConfig RouteCooldowns Catalog Json Router.
From S2P Require Import UpstreamFailure ApiKeyStore ApiKeyAccess Credentials RouteRows.

(** ** Cooldowns and keys *)

Definition gatewayUUIDSet (items : list uuid) : gset uuid :=
  fold_left (λ result item, if bool_decide (item = uuid_Nil) then result else {[item]} ∪ result) items ∅.

(** The sites and the models in a cooldown that is not of one credential. *)
Definition gatewayCooldownSets (items : list RouteCooldown) : gset uuid * gset uuid :=
  fold_left (λ '(siteCooldowns, modelCooldowns) item,
    if bool_decide (is_Some (rc_SiteCredentialID item)) then (siteCooldowns, modelCooldowns)
    else match rc_SiteModelID item with
         | Some model => (siteCooldowns, {[model]} ∪ modelCooldowns)
         | None => ({[rc_SiteID item]} ∪ siteCooldowns, modelCooldowns)
         end) items (∅, ∅).

Definition counted (counts : gmap uuid Z) (id : uuid) : Z := default 0 (counts !! id).

(** One more member in the set of an identifier. *)
Definition seen_add (id member : uuid) (seen : gmap uuid (gset uuid)) : gmap uuid (gset uuid) :=
  <[id := {[member]} ∪ default ∅ (seen !! id)]> seen.

Definition seen_counts (seen : gmap uuid (gset uuid)) : gmap uuid Z := (λ members, Z.of_nat (size members)) <$> seen.

Section counts.
Context `{Texts}.

Definition gatewaySiteCredentialCounts (credentials : list SiteCredential) (states : gmap uuid SiteAPIKeyState)
    (cooldowns : list RouteCooldown) (now : Z) : gmap uuid Z :=
  fold_left (λ counts credential,
    if negb (isAPIKeyCredentialType (cr_CredentialType credential)) || negb (credentialUsable credential)
       || credentialCooling cooldowns (cr_SiteID credential) uuid_Nil (cr_ID credential) then counts
    else
      let state := default zeroState (states !! cr_ID credential) in
      if negb (credentialStateUsableForCredentialAt credential state now) then counts
      else <[cr_SiteID credential := counted counts (cr_SiteID credential) + 1]> counts) credentials ∅.

Definition gatewayModelCredentialStateUsable (credential : SiteCredential) (state : option SiteAPIKeyState) (now : Z) : bool :=
  if HasPrefix (cr_CredentialType credential) "grok_sso:" then grokCredentialUsable credential state
  else credentialStateUsableForCredentialAt credential (default zeroState state) now.

(** A key that is not in the table is the zero row, which is refused. *)
Definition countModelKey (credentialsByID : gmap uuid SiteCredential) (states : gmap uuid SiteAPIKeyState)
    (cooldowns : list RouteCooldown) (now : Z) (seen : gmap uuid (gset uuid)) (apiKeyModel : SiteAPIKeyModel)
    : gmap uuid (gset uuid) :=
  match km_SiteModelID apiKeyModel with
  | None => seen
  | Some modelID =>
      if negb (km_Available apiKeyModel) || negb (km_Enabled apiKeyModel) then seen
      else match credentialsByID !! km_SiteCredentialID apiKeyModel with
           | None => seen
           | Some credential =>
               if bool_decide (cr_ID credential = uuid_Nil) || negb (isModelBoundCredentialType (cr_CredentialType credential))
                  || negb (credentialUsable credential)
                  || negb (gatewayModelCredentialStateUsable credential (states !! cr_ID credential) now) then seen
               else if credentialCooling cooldowns (km_SiteID apiKeyModel) modelID (cr_ID credential) then seen
               else seen_add modelID (cr_ID credential) seen
           end
  end.

Definition gatewayModelCredentialCounts (apiKeyModels : list SiteAPIKeyModel) (credentials : list SiteCredential)
    (states : gmap uuid SiteAPIKeyState) (cooldowns : list RouteCooldown) (now : Z) : gmap uuid Z :=
  seen_counts (fold_left (countModelKey (credentialsByID credentials) states cooldowns now) apiKeyModels ∅).

Definition gatewayModelCredentialBindingCounts (apiKeyModels : list SiteAPIKeyModel) : gmap uuid Z :=
  seen_counts (fold_left (λ seen apiKeyModel,
    match km_SiteModelID apiKeyModel with
    | None => seen
    | Some modelID => seen_add modelID (km_SiteCredentialID apiKeyModel) seen
    end) apiKeyModels ∅).

(** ** The items *)

Definition normalizeEndpointType (v : string) : string :=
  let normalized := TrimSpace (ToLower v) in
  if bool_decide (normalized = "systemone") then "typesafe-systemone" else normalized.

Definition gatewayModelEndpointTypes (model : SiteModel) : list string :=
  if bool_decide (sm_Capabilities model = "") then []
  else match unmarshal (sm_Capabilities model) ≫= read_map with
       | None => []
       | Some values =>
           match map_index values "supported_endpoint_types" with
           | AArray items =>
               omap (λ item,
                 match item with
                 | AString text =>
                     let text := normalizeEndpointType text in
                     if bool_decide (text = "") then None else Some text
                 | _ => None
                 end) items
           | _ => []
           end
       end.

Record ModelItem := mkItem {
  it_id : string;
  it_canonical : CatalogModel;
  it_endpointTypes : list string;
  it_siteTypes : list string;
  it_mappedModel : option string
}.

(** The three maps of the loop over the site models. *)
Record Listing := mkListing {
  ls_items : gmap string CatalogModel;
  ls_endpointTypes : gmap string (gset string);
  ls_siteTypes : gmap string (gset string)
}.

Definition listCanonical (canonical : CatalogModel) (site : Site) (model : SiteModel) (l : Listing) : Listing :=
  let key := cn_ModelKey (ct_Model canonical) in
  let siteType := TrimSpace (ToLower (si_SiteType site)) in
  mkListing
    (match ls_items l !! key with Some _ => ls_items l | None => <[key := canonical]> (ls_items l) end)
    (<[key := list_to_set (gatewayModelEndpointTypes model) ∪ default ∅ (ls_endpointTypes l !! key)]> (ls_endpointTypes l))
    (if bool_decide (siteType = "") then ls_siteTypes l
     else <[key := {[siteType]} ∪ default ∅ (ls_siteTypes l !! key)]> (ls_siteTypes l)).

(** The guards of the loop: the canonical model and the site of a site model that counts. *)
Definition listedSiteModel (access : APIKeyAccessSets) (t : RouteTables) (now : Z) (siteModel : SiteModel)
    : option (CatalogModel * Site) :=
  let cooldowns := ListActive now (tb_cooldowns (rt_keys t)) in
  let (siteCooldowns, modelCooldowns) := gatewayCooldownSets cooldowns in
  let states := statesByCredentialID (tb_states (rt_keys t)) in
  if negb (bool_decide (RouteRows.sm_Status siteModel = "active")) then None
  else
    canonicalID ← RouteRows.sm_CanonicalID siteModel;
    if bool_decide (ak_ModelPolicy (as_APIKey access) = "allow_list")
       && negb (bool_decide (RouteRows.sm_ID siteModel ∈ gatewayUUIDSet (as_AllowedSiteModelIDs access))) then None
    else if bool_decide (RouteRows.sm_ID siteModel ∈ modelCooldowns) then None
    else
      canonical ← find (λ c, bool_decide (cn_ID (ct_Model c) = canonicalID) && bool_decide (ct_Status c = "active"))
                    (rev (rt_canonicals t));
      site ← activeSite t (RouteRows.sm_SiteID siteModel);
      if negb (si_Enabled site) || negb (bool_decide (si_Status site = "active")) then None
      else if bool_decide (ak_SitePolicy (as_APIKey access) = "allow_list")
              && negb (bool_decide (RouteRows.si_ID site ∈ gatewayUUIDSet (as_AllowedSiteIDs access))) then None
      else if bool_decide (RouteRows.si_ID site ∈ siteCooldowns) then None
      else
        let modelAvailableKeys :=
          counted (gatewayModelCredentialCounts (tb_keyModels (rt_keys t)) (tb_credentials (rt_keys t)) states cooldowns now)
            (RouteRows.sm_ID siteModel) in
        let availableKeys :=
          if negb (bool_decide (RouteRows.si_SiteType site = "newapi"))
             && (counted (gatewayModelCredentialBindingCounts (tb_keyModels (rt_keys t))) (RouteRows.sm_ID siteModel) =? 0)
          then counted (gatewaySiteCredentialCounts (tb_credentials (rt_keys t)) states cooldowns now) (RouteRows.si_ID site)
          else modelAvailableKeys in
        if availableKeys <=? 0 then None else Some (canonical, site).

Definition listing (access : APIKeyAccessSets) (t : RouteTables) (now : Z) : Listing :=
  fold_left (λ l siteModel,
    match listedSiteModel access t now siteModel with
    | Some (canonical, site) => listCanonical canonical site siteModel l
    | None => l
    end) (sortSiteModels (rt_models t)) (mkListing ∅ ∅ ∅).

(** [applyModelEndpointTypes] and [applyModelSiteTypes] *)
Definition sortedSet (s : option (gset string)) : list string := sortStrings (elements (default ∅ s)).

Definition itemOf (l : Listing) (modelKey : string) (canonical : CatalogModel) : ModelItem :=
  mkItem (cn_ModelKey (ct_Model canonical)) canonical (sortedSet (ls_endpointTypes l !! modelKey))
    (sortedSet (ls_siteTypes l !! modelKey)) None.

Definition itemsByModelKey (l : Listing) : gmap string ModelItem := map_imap (λ key c, Some (itemOf l key c)) (ls_items l).

(** The items of the canonical models, in the order of the table. *)
Definition listedModels (access : APIKeyAccessSets) (t : RouteTables) (now : Z) : list ModelItem :=
  let items := itemsByModelKey (listing access t now) in
  omap (λ canonical, items !! cn_ModelKey (ct_Model canonical)) (rt_canonicals t).
End counts.

(** ** Aliases *)

Fixpoint aliasLoop (itemsByNormalizedKey : gmap string ModelItem) (listed : gset string) (rules : list APIKeyModelRule)
    : list ModelItem :=
  match rules with
  | [] => []
  | rule :: rest =>
      let normalized := NormalizeModelKey (rule_Pattern rule) in
      if negb (IsExact rule) || bool_decide (normalized = "") || bool_decide (normalized ∈ listed)
      then aliasLoop itemsByNormalizedKey listed rest
      else match itemsByNormalizedKey !! NormalizeModelKey (rule_Target rule) with
           | None => aliasLoop itemsByNormalizedKey listed rest
           | Some target =>
               mkItem (rule_Pattern rule) (it_canonical target) (it_endpointTypes target) (it_siteTypes target)
                 (Some (it_id target))
               :: aliasLoop itemsByNormalizedKey ({[normalized]} ∪ listed) rest
           end
  end.

(** The loop over the map of the items comes in any order: [items] lists them. *)
Definition modelRuleAliasPayloads (rules : list APIKeyModelRule) (items : list (string * ModelItem)) : list ModelItem :=
  if bool_decide (rules = []) then []
  else
    let listed : gset string := list_to_set (map (λ kv, NormalizeModelKey kv.1) items) in
    let itemsByNormalizedKey : gmap string ModelItem :=
      fold_left (λ m kv, <[NormalizeModelKey kv.1 := kv.2]> m) items ∅ in
    aliasLoop itemsByNormalizedKey listed rules.

(** ** The payload *)

Section payload.
Context `{Texts} (iterateItems : gmap string ModelItem → list (string * ModelItem)).

Definition buildModelsPayloadForAccess (access : APIKeyAccessSets) (t : RouteTables) (now : Z) : list ModelItem :=
  if bool_decide (ak_SitePolicy (as_APIKey access) = "allow_list") && bool_decide (as_AllowedSiteIDs access = []) then []
  else if bool_decide (ak_ModelPolicy (as_APIKey access) = "allow_list")
          && bool_decide (as_AllowedSiteModelIDs access = []) then []
  else listedModels access t now
       ++ modelRuleAliasPayloads (ModelRules (as_APIKey access)) (iterateItems (itemsByModelKey (listing access t now))).
End payload.

(** ** The sets and counts *)

Lemma gatewayUUIDSet_elem items x : x ∈ gatewayUUIDSet items ↔ x ∈ items ∧ x ≠ uuid_Nil.
Proof.
  unfold gatewayUUIDSet.
  assert (H : ∀ acc, x ∈ fold_left (λ result item, if bool_decide (item = uuid_Nil) then result else {[item]} ∪ result) items acc
              ↔ x ∈ (acc : gset uuid) ∨ x ∈ items ∧ x ≠ uuid_Nil).
  { induction items as [|y l IH]; intros acc; cbn [fold_left]; [set_solver|]. rewrite IH. case_bool_decide; set_solver. }
  rewrite H. set_solver.
Qed.

Lemma exists_snoc {A} (P : A → Prop) l x : (∃ y, y ∈ l ++ [x] ∧ P y) ↔ (∃ y, y ∈ l ∧ P y) ∨ P x.
Proof. setoid_rewrite elem_of_app. setoid_rewrite list_elem_of_singleton. naive_solver. Qed.

Lemma cooldownSets_elem items :
  (∀ id, id ∈ (gatewayCooldownSets items).1 ↔ ∃ r, r ∈ items ∧ targets r (TSite id))
  ∧ (∀ id, id ∈ (gatewayCooldownSets items).2 ↔ ∃ r, r ∈ items ∧ (targets r (TModel id) ∨ targets r (TTransient id))).
Proof.
  unfold gatewayCooldownSets. induction items as [|r items [IH1 IH2]] using rev_ind; [cbn; set_solver|].
  rewrite fold_left_app. cbn [fold_left]. destruct (fold_left _ items (∅, ∅)) as [s m]. cbn [fst snd] in *.
  split; intros id; rewrite exists_snoc; [rewrite <-IH1|rewrite <-IH2]; unfold targets;
    destruct (rc_SiteCredentialID r) as [k|]; cbn; try (intuition congruence);
    destruct (rc_SiteModelID r) as [model|]; cbn; rewrite ?elem_of_union, ?elem_of_singleton;
    destruct (TransientRouteCooldown r); intuition congruence.
Qed.

Lemma cooldownSets_index now table :
  let ix := indexCooldowns (ListActive now table) in
  (∀ id, id ∈ (gatewayCooldownSets (ListActive now table)).1 ↔ is_Some (ix_sites ix !! id))
  ∧ (∀ id, id ∈ (gatewayCooldownSets (ListActive now table)).2
       ↔ is_Some (ix_models ix !! id) ∨ is_Some (ix_transientModels ix !! id)).
Proof.
  cbv zeta. destruct (cooldownSets_elem (ListActive now table)) as [H1 H2]. split; intros id.
  - rewrite H1, (index_active now table (TSite id)). setoid_rewrite ListActive_elem. naive_solver.
  - rewrite H2, (index_active now table (TModel id)), (index_active now table (TTransient id)).
    setoid_rewrite ListActive_elem. naive_solver.
Qed.

Definition members (seen : gmap uuid (gset uuid)) (id : uuid) : gset uuid := default ∅ (seen !! id).

Lemma seen_add_members id member seen id' :
  members (seen_add id member seen) id' = if bool_decide (id = id') then {[member]} ∪ members seen id' else members seen id'.
Proof.
  unfold members, seen_add. case_bool_decide as E; [subst; by rewrite lookup_insert_eq|by rewrite lookup_insert_ne].
Qed.

Lemma counted_seen seen id : counted (seen_counts seen) id = Z.of_nat (size (members seen id)).
Proof. unfold counted, seen_counts, members. rewrite lookup_fmap. by destruct (seen !! id). Qed.

Lemma counted_zero seen id : counted (seen_counts seen) id = 0 ↔ members seen id = ∅.
Proof. rewrite counted_seen, <-leibniz_equiv_iff, <-size_empty_iff. lia. Qed.

Lemma bindingCounts_zero l id :
  counted (gatewayModelCredentialBindingCounts l) id = 0 ↔ List.filter (λ b, bool_decide (km_SiteModelID b = Some id)) l = [].
Proof.
  unfold gatewayModelCredentialBindingCounts. rewrite counted_zero.
  induction l as [|b l IH] using rev_ind; [done|].
  rewrite fold_left_app, List.filter_app. cbn. destruct (km_SiteModelID b) as [m|].
  - rewrite seen_add_members. case_bool_decide as E.
    + subst m. rewrite bool_decide_eq_true_2 by done. split; [set_solver|]. by intros [_ ?]%app_eq_nil.
    + rewrite (bool_decide_eq_false_2 (Some m = Some id)) by congruence. by rewrite app_nil_r.
  - rewrite bool_decide_eq_false_2 by done. by rewrite app_nil_r.
Qed.

Section keys.
Context `{Texts, UuidString}.

Lemma siteCounts_length t now siteID :
  counted (gatewaySiteCredentialCounts (tb_credentials t) (statesByCredentialID (tb_states t))
             (ListActive now (tb_cooldowns t)) now) siteID
  = Z.of_nat (length (routeSiteKeys t now siteID)).
Proof.
  unfold gatewaySiteCredentialCounts, routeSiteKeys. rewrite <-(Permutation_length (SortGatewayCredentials_perm _)).
  induction (tb_credentials t) as [|c l IH] using rev_ind; [done|].
  rewrite fold_left_app, omap_app, length_app. cbn [fold_left omap list_omap].
  destruct (bool_decide_reflect (cr_SiteID c = siteID)) as [E|E]; cbn [negb orb].
  - subst siteID. destruct (negb _ || negb _ || credentialCooling _ _ _ _); cbn [length]; [lia|].
    destruct (negb (credentialStateUsableForCredentialAt _ _ _)); cbn [length]; [lia|].
    unfold counted at 1. rewrite lookup_insert_eq. cbn [from_option Datatypes.id]. lia.
  - cbn [length]. rewrite Nat.add_0_r. destruct (negb _ || negb _ || credentialCooling _ _ _ _); [done|].
    destruct (negb (credentialStateUsableForCredentialAt _ _ _)); [done|].
    unfold counted. by rewrite lookup_insert_ne.
Qed.
End keys.

(** ** Tables in good order *)

(** Beside what the routes need: canonical models have identities and keys of their own, a
    binding is of the site of its key, and no key is a Grok sign-in (those are judged
    differently by the list and by the router). *)
Record listing_ok (t : RouteTables) : Prop := {
  lo_routes : route_tables_ok t;
  lo_canonicals : NoDup ((λ c, cn_ID (ct_Model c)) <$> rt_canonicals t);
  lo_modelKeys : NoDup ((λ c, cn_ModelKey (ct_Model c)) <$> rt_canonicals t);
  lo_key_sites : ∀ b c, b ∈ tb_keyModels (rt_keys t) → c ∈ tb_credentials (rt_keys t) →
    cr_ID c = km_SiteCredentialID b → cr_SiteID c = km_SiteID b;
  lo_plain : ∀ c, c ∈ tb_credentials (rt_keys t) → HasPrefix (cr_CredentialType c) "grok_sso:" = false;
  lo_sites : ∀ s, s ∈ rt_sites t → RouteRows.si_ID s ≠ uuid_Nil
}.

Section models.
Context `{Texts, UuidString} (t : RouteTables) (now : Z) (Hok : listing_ok t).

Notation k := (rt_keys t).
Notation states := (statesByCredentialID (tb_states k)).
Notation cooldowns := (ListActive now (tb_cooldowns k)).

Lemma countModelKey_bound model b seen :
  model ∈ rt_models t → b ∈ tb_keyModels k → km_SiteModelID b = Some (RouteRows.sm_ID model) →
  countModelKey (credentialsByID (tb_credentials k)) states cooldowns now seen b
  = match boundKey k now (RouteRows.sm_SiteID model) (RouteRows.sm_ID model) [] b with
    | Some _ => seen_add (RouteRows.sm_ID model) (km_SiteCredentialID b) seen
    | None => seen
    end.
Proof.
  intros Hm Hb Hmodel. pose proof (lo_routes _ Hok) as Hr.
  pose proof (rok_bindings _ Hr b model Hb Hm Hmodel) as Hsite. unfold countModelKey, boundKey. rewrite Hmodel.
  destruct (negb (km_Available b) || negb (km_Enabled b)); [done|].
  destruct (credentialsByID (tb_credentials k) !! km_SiteCredentialID b) as [c|] eqn:Ec.
  - pose proof Ec as Ec'. unfold credentialsByID in Ec'. rewrite fold_insert_Some in Ec' by apply (ok_credentials _ (rok_tables _ Hr)).
    destruct Ec' as [Hc Hid]. pose proof (lo_key_sites _ Hok b c Hb Hc Hid) as Hcs. rewrite Hsite in Hcs.
    assert (Hof : credentialsByID (credentialsOf (RouteRows.sm_SiteID model) k) !! km_SiteCredentialID b = Some c)
      by (apply credentials_map_lookup; [apply (rok_tables _ Hr)|done]).
    rewrite Hof, (bool_decide_eq_false_2 _ (rok_credential_ids _ Hr c Hc)), (rok_types _ Hr b c Hb Hc Hid).
    unfold gatewayModelCredentialStateUsable. rewrite (lo_plain _ Hok c Hc). cbn [negb orb mbind option_bind].
    rewrite Hsite, Hid, <-Hid. rewrite (state_lookup_same t Hr c _ Hc Hcs).
    rewrite (bool_decide_eq_true_2 ([] = [])) by done.
    destruct (credentialUsable c); cbn [negb orb]; [|done].
    destruct (credentialStateUsableForCredentialAt c _ now); cbn [negb]; by destruct (credentialCooling _ _ _ _).
  - destruct (credentialsByID (credentialsOf _ k) !! _) as [c|] eqn:Eof; [|done].
    apply (credentials_map_lookup _ _ _ _ (rok_tables _ Hr)) in Eof as (Hc & _ & Hid).
    exfalso. apply eq_None_not_Some in Ec. apply Ec. exists c. unfold credentialsByID.
    by rewrite fold_insert_Some by apply (ok_credentials _ (rok_tables _ Hr)).
Qed.

Lemma countModelKey_other b seen id :
  km_SiteModelID b ≠ Some id →
  members (countModelKey (credentialsByID (tb_credentials k)) states cooldowns now seen b) id = members seen id.
Proof.
  intros Hne. unfold countModelKey. destruct (km_SiteModelID b) as [m|]; [|done].
  destruct (negb _ || negb _); [done|]. destruct (_ !! km_SiteCredentialID b) as [c|]; [|done].
  destruct (bool_decide _ || negb _ || negb _ || negb _); [done|]. destruct (credentialCooling _ _ _ _); [done|].
  rewrite seen_add_members. by rewrite bool_decide_eq_false_2 by congruence.
Qed.

Lemma modelCounts_zero model :
  model ∈ rt_models t →
  counted (gatewayModelCredentialCounts (tb_keyModels k) (tb_credentials k) states cooldowns now) (RouteRows.sm_ID model) = 0
  ↔ listCredentialsForSiteModel k now (RouteRows.sm_SiteID model) (RouteRows.sm_ID model) [] = [].
Proof.
  intros Hm. unfold gatewayModelCredentialCounts. rewrite counted_zero.
  set (bound := boundKey k now (RouteRows.sm_SiteID model) (RouteRows.sm_ID model) []).
  transitivity (omap bound (bindingsOf (RouteRows.sm_SiteID model) (RouteRows.sm_ID model) k) = []).
  2:{ rewrite listCredentials_eq. fold bound. pose proof (SortGatewayCredentials_perm (omap bound (bindingsOf (RouteRows.sm_SiteID model) (RouteRows.sm_ID model) k))) as Hp.
      split; intros E; [by rewrite E|]. rewrite E in Hp. by apply Permutation_sym, Permutation_nil in Hp. }
  rewrite <-(modelBindings t (lo_routes _ Hok) model Hm).
  assert (Hsub : ∀ b, b ∈ tb_keyModels k → b ∈ tb_keyModels k) by done. revert Hsub.
  generalize (tb_keyModels k) at 1 3 4 as l. intros l Hsub.
  induction l as [|b l IH] using rev_ind; [done|].
  assert (IH' := IH ltac:(intros b' Hb'; apply Hsub, elem_of_app; by left)). clear IH.
  rewrite fold_left_app, List.filter_app, omap_app. cbn [fold_left List.filter].
  destruct (bool_decide_reflect (km_SiteModelID b = Some (RouteRows.sm_ID model))) as [E|E].
  - rewrite (countModelKey_bound model b _ Hm) by (try done; apply Hsub, elem_of_app; right; by left).
    cbn [omap list_omap]. fold bound. destruct (bound b).
    + rewrite seen_add_members, bool_decide_eq_true_2 by done. split; [set_solver|]. by intros [_ ?]%app_eq_nil.
    + by rewrite app_nil_r.
  - rewrite countModelKey_other by done. by rewrite app_nil_r.
Qed.

(** The list and the router count the keys of a model alike. *)
Lemma available_same (iterate : gmap uuid GatewayCredential → list GatewayCredential) canonical site model :
  (∀ m, Permutation (iterate m) ((map_to_list m).*2)) → Inj (=) (=) uuid_String →
  model ∈ rt_models t → RouteRows.si_ID site = RouteRows.sm_SiteID model →
  (if negb (bool_decide (RouteRows.si_SiteType site = "newapi"))
      && (counted (gatewayModelCredentialBindingCounts (tb_keyModels k)) (RouteRows.sm_ID model) =? 0)
   then counted (gatewaySiteCredentialCounts (tb_credentials k) states cooldowns now) (RouteRows.si_ID site)
   else counted (gatewayModelCredentialCounts (tb_keyModels k) (tb_credentials k) states cooldowns now) (RouteRows.sm_ID model)) <=? 0
  = ((availableAPIKeys (routeRow iterate t now canonical site model)).1 <=? 0).
Proof.
  intros Hit Hinj Hm Hid.
  pose proof (fillRouteKeyCounts_spec iterate Hit Hinj t now (lo_routes _ Hok) model Hm) as Hk. cbv zeta in Hk. rewrite <-Hid in Hk.
  destruct (fillRouteSiteCredentialCount k now (RouteRows.si_ID site)) as [siteCount key] eqn:Es.
  destruct (routeRow_fields iterate t now canonical site model _ _ _ _ _ Hk Es) as (_ & Ht & _ & Htotal & Havail & Hsite & _).
  unfold availableAPIKeys. rewrite Ht, Htotal, Havail, Hsite.
  pose proof (bindingCounts_zero (tb_keyModels k) (RouteRows.sm_ID model)) as Hb.
  rewrite (modelBindings t (lo_routes _ Hok) model Hm), <-Hid in Hb.
  assert (Hz : (counted (gatewayModelCredentialBindingCounts (tb_keyModels k)) (RouteRows.sm_ID model) =? 0)
               = (Z.of_nat (length (bindingsOf (RouteRows.si_ID site) (RouteRows.sm_ID model) k)) =? 0)).
  { apply eq_true_iff_eq. rewrite !Z.eqb_eq, Hb. destruct (bindingsOf _ _ _); cbn; split; done || lia. }
  rewrite Hz. destruct (negb _ && _); cbn [fst].
  - rewrite siteCounts_length. unfold fillRouteSiteCredentialCount in Es. by injection Es as <- _.
  - pose proof (modelCounts_zero model Hm) as Hc. rewrite <-Hid in Hc. revert Hc.
    set (n := counted _ (RouteRows.sm_ID model)). set (l := listCredentialsForSiteModel _ _ _ _ _). intros Hc.
    assert (0 ≤ n) by (unfold n, gatewayModelCredentialCounts; rewrite counted_seen; lia).
    apply eq_true_iff_eq. rewrite !Z.leb_le. destruct l as [|g l']; cbn [length].
    + assert (n = 0) by by apply Hc. lia.
    + assert (n ≠ 0) by (intros E; by apply Hc in E). lia.
Qed.
End models.

(** ** What is listed *)

Section listed.
Context `{Texts}.

Lemma listing_items access t now :
  let l := listing access t now in
  (∀ key c, ls_items l !! key = Some c → cn_ModelKey (ct_Model c) = key)
  ∧ ∀ key, is_Some (ls_items l !! key) ↔
      ∃ m, m ∈ rt_models t ∧ ∃ c s, listedSiteModel access t now m = Some (c, s) ∧ cn_ModelKey (ct_Model c) = key.
Proof.
  cbv zeta. unfold listing.
  assert (Hin : ∀ m, m ∈ rt_models t ↔ m ∈ sortSiteModels (rt_models t))
    by (intros m; unfold sortSiteModels; by rewrite <-SliceStable_perm).
  setoid_rewrite Hin. clear Hin.
  induction (sortSiteModels (rt_models t)) as [|m ms [IH1 IH2]] using rev_ind.
  - cbn. split; [by intros ??|]. intros key. split; [by intros [? ?]|]. intros (m & Hm & _). by apply elem_of_nil in Hm.
  - rewrite fold_left_app. cbn [fold_left]. set (l := fold_left _ ms _) in *. setoid_rewrite exists_snoc.
    destruct (listedSiteModel access t now m) as [[c s]|] eqn:E.
    2:{ split; [done|]. intros key. rewrite IH2. split; [by left|]. by intros [?|(? & ? & ? & _)]. }
    unfold listCanonical. cbn [ls_items]. set (key0 := cn_ModelKey (ct_Model c)).
    assert (Hex : ∀ key, (∃ c' s', Some (c, s) = Some (c', s') ∧ cn_ModelKey (ct_Model c') = key) ↔ key0 = key).
    { intros key. split; [by intros (? & ? & [= <- <-] & <-)|]. intros <-. by exists c, s. }
    destruct (ls_items l !! key0) as [c0|] eqn:E0.
    + split; [done|]. intros key. rewrite IH2, Hex. split; [by left|]. intros [?|<-]; [done|].
      apply IH2. by exists c0.
    + split; intros key.
      * intros c'. destruct (decide (key0 = key)) as [<-|Hne]; [rewrite lookup_insert_eq; by intros [= <-]|].
        rewrite lookup_insert_ne by done. apply IH1.
      * rewrite Hex. destruct (decide (key0 = key)) as [<-|Hne].
        -- rewrite lookup_insert_eq. split; [by right|by eexists].
        -- rewrite lookup_insert_ne, IH2 by done. split; [by left|]. by intros [?|?].
Qed.

Lemma listedModels_ids access t now c :
  c ∈ rt_canonicals t →
  cn_ModelKey (ct_Model c) ∈ map it_id (listedModels access t now)
  ↔ is_Some (ls_items (listing access t now) !! cn_ModelKey (ct_Model c)).
Proof.
  intros Hc. destruct (listing_items access t now) as [Hkeys _]. unfold listedModels, itemsByModelKey.
  rewrite list_elem_of_fmap. setoid_rewrite list_elem_of_omap. setoid_rewrite map_lookup_imap. split.
  - intros (item & Hid & c' & _ & Hitem). destruct (ls_items _ !! cn_ModelKey (ct_Model c')) as [c0|] eqn:E; [|done].
    cbn [mbind option_bind] in Hitem. injection Hitem as <-. cbn [itemOf it_id] in Hid. rewrite Hid.
    rewrite (Hkeys _ _ E), E. by eexists.
  - intros [c0 E]. eexists. split; [|exists c; split; [done|by rewrite E]]. cbn. by rewrite (Hkeys _ _ E).
Qed.
End listed.

(** ** What is offered *)

(** A candidate that is not marked as cooling comes from a row that is not skipped and whose
    model is in no transient cooldown. *)
Lemma open_candidate st orders now query canonical items rows table :
  Candidates st orders now query = Ok (canonical, items) → q_Limit query ≤ 0 →
  st_ListByCanonicalModel st (cn_ID canonical) = Ok rows → st_Cooldowns st = Ok table →
  let ix := indexCooldowns (ListActive now table) in
  (∃ item, item ∈ items ∧ cd_Cooling item = false)
  ↔ ∃ row, row ∈ rows ∧ skipped query ix row = false ∧ ix_transientModels ix !! row_SiteModelID row = None.
Proof.
  intros (rows' & table' & Hr & Ht & ->)%Candidates_inv Hl Hr' Ht' ix.
  assert (rows' = rows) as -> by congruence. assert (table' = table) as -> by congruence. fold ix.
  assert (Hlim : limited (q_Limit query) (rankedCandidates query orders ix rows) = rankedCandidates query orders ix rows).
  { unfold limited. by rewrite (proj2 (Z.ltb_ge _ _)) by lia. }
  rewrite Hlim. pose proof (ranked_identity query orders ix rows) as Hp.
  transitivity (∃ x, x ∈ map identity (rankedCandidates query orders ix rows) ∧ x.2 = false).
  { split.
    - intros (item & Hin & Hc). exists (identity item). split; [|done]. by apply list_elem_of_fmap_2.
    - intros (x & (item & -> & Hin)%list_elem_of_fmap & Hc). by exists item. }
  setoid_rewrite Hp. rewrite map_map. setoid_rewrite list_elem_of_fmap. split.
  - intros (x & (row & -> & Hrow) & Hc). apply list_elem_of_In, List.filter_In in Hrow as [Hrow Hs].
    apply list_elem_of_In in Hrow. exists row. apply negb_true_iff in Hs. split_and!; [done..|].
    cbn in Hc. apply bool_decide_eq_false in Hc. by apply eq_None_not_Some.
  - intros (row & Hrow & Hs & Hn). eexists. split; [exists row; split; [done|]|].
    + apply list_elem_of_In, List.filter_In. rewrite Hs. by rewrite <-list_elem_of_In.
    + cbn. rewrite Hn. by apply bool_decide_eq_false_2, is_Some_None.
Qed.

Section offered.
Context `{Texts, UuidString} (iterate : gmap uuid GatewayCredential → list GatewayCredential).

Lemma find_unique {A B} `{EqDecision B} (f : A → B) l x :
  NoDup (f <$> l) → x ∈ l → find (λ y, bool_decide (f y = f x)) l = Some x.
Proof.
  induction l as [|y l IH]; intros Hnd Hin; [by apply elem_of_nil in Hin|]. rewrite fmap_cons in Hnd.
  apply list.NoDup_cons in Hnd as [Hy Hnd]. cbn. apply elem_of_cons in Hin as [->|Hin]; [by rewrite bool_decide_eq_true_2|].
  rewrite bool_decide_eq_false_2; [by apply IH|]. intros E. apply Hy. rewrite E. by apply list_elem_of_fmap_2.
Qed.

Lemma activeSite_id t id s : activeSite t id = Some s → s ∈ rt_sites t ∧ RouteRows.si_ID s = id.
Proof.
  unfold activeSite. intros [Hin Hid%bool_decide_eq_true]%find_some. split; [|done].
  apply list_elem_of_In. rewrite <-in_rev, List.filter_In in Hin. by destruct Hin.
Qed.

Lemma canonicalRows_elem t now c :
  listing_ok t → c ∈ rt_canonicals t →
  ∃ rows, ListByCanonicalModel iterate t now (cn_ID (ct_Model c)) = Ok rows
    ∧ ∀ row, row ∈ rows ↔
        ct_Status c = "active" ∧ ∃ m, m ∈ rt_models t ∧ RouteRows.sm_CanonicalID m = Some (cn_ID (ct_Model c))
          ∧ ∃ s, activeSite t (RouteRows.sm_SiteID m) = Some s ∧ row = routeRow iterate t now c s m.
Proof.
  intros Hok Hc. unfold ListByCanonicalModel.
  rewrite (find_unique (λ c, cn_ID (ct_Model c)) _ c (lo_canonicals _ Hok) Hc).
  case_bool_decide as Ha; cbn [negb].
  2:{ eexists. split; [done|]. intros row. split; [by intros ?%elem_of_nil|]. by intros [? _]. }
  eexists. split; [done|]. intros row. rewrite <-SliceStable_perm, list_elem_of_omap. split.
  - intros (m & Hm & Hrow). unfold sortSiteModels in Hm. rewrite <-SliceStable_perm in Hm.
    apply list_elem_of_In, List.filter_In in Hm as [Hm Hcm%bool_decide_eq_true]. apply list_elem_of_In in Hm.
    split; [done|]. exists m. split_and!; [done..|]. destruct (activeSite t _) as [s|] eqn:Es; [|done].
    cbn [mbind option_bind] in Hrow. case_bool_decide; [done|]. injection Hrow as <-. by exists s.
  - intros (_ & m & Hm & Hcm & s & Es & ->). exists m. split.
    + unfold sortSiteModels. rewrite <-SliceStable_perm. apply list_elem_of_In, List.filter_In.
      rewrite <-list_elem_of_In. split; [done|]. by apply bool_decide_eq_true.
    + rewrite Es. cbn [mbind option_bind]. apply activeSite_id in Es as [Hs _].
      by rewrite bool_decide_eq_false_2 by apply (lo_sites _ Hok s Hs).
Qed.
End offered.

(** ** What a key may use *)

Definition mayUse (k : APIKey) (d : tables) (siteModel site : uuid) : Prop :=
  (ak_ModelPolicy k = "allow_list" → permittedModel k siteModel d ∧ siteModel ≠ uuid_Nil) ∧ siteOpen k site d.

Ltac policy E :=
  rewrite E, ?(bool_decide_eq_true_2 ("allow_list" = "allow_list")), ?(bool_decide_eq_false_2 ("allow_all" = "allow_list")) by done;
  cbn [andb].

(** The gates of the list. *)
Lemma list_gates k d siteModel site :
  policies k →
  let a := ResolveAPIKeyModelListAccess k d in
  as_APIKey a = k
  ∧ ((bool_decide (ak_ModelPolicy k = "allow_list") && negb (bool_decide (siteModel ∈ gatewayUUIDSet (as_AllowedSiteModelIDs a))) = false
      ∧ bool_decide (ak_SitePolicy k = "allow_list") && negb (bool_decide (site ∈ gatewayUUIDSet (as_AllowedSiteIDs a))) = false)
     ↔ mayUse k d siteModel site).
Proof.
  intros [Hs Hm]. unfold ResolveAPIKeyModelListAccess, mayUse.
  assert (Hsite : bool_decide (ak_SitePolicy k = "allow_list") && negb (bool_decide (site ∈ gatewayUUIDSet (effectiveAllowedSiteIDs k d))) = false
                  ↔ siteOpen k site d).
  { unfold siteOpen. destruct (two_policies _ Hs) as [E|E]; policy E.
    - split; [by left|done].
    - rewrite negb_false_iff, bool_decide_eq_true, gatewayUUIDSet_elem, effective_elem by by rewrite E.
      split; [tauto|]. by intros [?|[? ?]]. }
  destruct (two_policies _ Hm) as [E|E]; policy E; cbn [as_APIKey as_AllowedSiteIDs as_AllowedSiteModelIDs].
  - split; [done|]. rewrite Hsite. naive_solver.
  - assert (Hmodel : bool_decide (siteModel ∈ gatewayUUIDSet (EnabledSiteModelIDs (ak_ID k) d)) = true
                     ↔ permittedModel k siteModel d ∧ siteModel ≠ uuid_Nil).
    { by rewrite bool_decide_eq_true, gatewayUUIDSet_elem, enabled_models_elem. }
    destruct (bool_decide_reflect (EnabledSiteModelIDs (ak_ID k) d = [])) as [En|En]; cbn [as_APIKey as_AllowedSiteIDs as_AllowedSiteModelIDs].
    + split; [done|]. rewrite En in Hmodel. split.
      * intros [Hf _]. destruct (bool_decide_reflect (siteModel ∈ gatewayUUIDSet [])) as [Hin|]; [|done].
        by apply gatewayUUIDSet_elem in Hin as [?%elem_of_nil _].
      * intros [Hp _]. destruct Hmodel as [_ Hmodel]. specialize (Hmodel (Hp eq_refl)).
        apply bool_decide_eq_true, gatewayUUIDSet_elem in Hmodel as [Hin _]. by apply elem_of_nil in Hin.
    + split; [done|]. rewrite Hsite, negb_false_iff, Hmodel. naive_solver.
Qed.

(** The tables of the permissions know the site models. *)
Definition same_models (d : tables) (t : RouteTables) : Prop :=
  ∀ m, m ∈ rt_models t → ∃ m', tb_siteModels d !! RouteRows.sm_ID m = Some m'
    ∧ ApiKeyAccess.sm_CanonicalID m' = RouteRows.sm_CanonicalID m ∧ ApiKeyAccess.sm_SiteID m' = RouteRows.sm_SiteID m.

(** The gates of the router, for the access of a request. *)
Lemma route_gates k d t c m access :
  policies k → same_models d t → m ∈ rt_models t → RouteRows.sm_CanonicalID m = Some (cn_ID c) →
  accessSays k c d (Ok access) →
  (match uuidSet (ra_AllowedSiteIDs access) with
   | Some s => negb (bool_decide (RouteRows.sm_SiteID m ∈ s)) | None => false end = false
   ∧ match uuidSet (ra_AllowedSiteModelIDs access) with
     | Some s => negb (bool_decide (RouteRows.sm_ID m ∈ s)) | None => false end = false)
  ↔ mayUse k d (RouteRows.sm_ID m) (RouteRows.sm_SiteID m).
Proof.
  intros [Hs Hm] Hsame Hin Hc (_ & _ & Hsites & Hmodels).
  assert (Hset : ∀ (l : list uuid) x, l ≠ [] →
            match uuidSet l with Some s => negb (bool_decide (x ∈ s)) | None => false end = false ↔ x ∈ l).
  { intros l x Hl. destruct l as [|y l]; [done|]. cbn [uuidSet]. rewrite negb_false_iff, bool_decide_eq_true. by rewrite elem_of_list_to_set. }
  assert (H1 : match uuidSet (ra_AllowedSiteIDs access) with
               | Some s => negb (bool_decide (RouteRows.sm_SiteID m ∈ s)) | None => false end = false
               ↔ siteOpen k (RouteRows.sm_SiteID m) d).
  { destruct (bool_decide_reflect (ak_SitePolicy k = "allow_all")) as [E|E]; [rewrite Hsites; split; [by left|done]|]. destruct Hsites as [Hne Hsites]. by rewrite Hset, Hsites. }
  rewrite H1. unfold mayUse. destruct (bool_decide_reflect (ak_ModelPolicy k = "allow_all")) as [E|E].
  - rewrite Hmodels, E. cbn. naive_solver.
  - destruct (two_policies _ Hm) as [E'|E']; [done|]. destruct Hmodels as [Hne Hmodels]. rewrite Hset, Hmodels by done.
    destruct (Hsame m Hin) as (m' & Hm' & Hc' & Hs'). unfold modelOpen, servesCanonical, siteModelOf.
    rewrite E'. split.
    + intros [Ho (Hp & (model & Hmodel & _) & _)]. split; [|done]. intros _. split; [done|]. by case_bool_decide.
    + intros [Hp Ho]. destruct (Hp eq_refl) as [Hperm Hnil]. split; [done|]. split; [done|].
      rewrite bool_decide_eq_false_2, Hm' by done. split; [exists m'; by rewrite Hc', Hc|]. exists m'. by rewrite Hs'.
Qed.

(** No access: nothing the key may use. *)
Lemma refused_gates k d t c m e :
  policies k → same_models d t → m ∈ rt_models t → RouteRows.sm_CanonicalID m = Some (cn_ID c) →
  accessSays k c d (Err e) → ¬ mayUse k d (RouteRows.sm_ID m) (RouteRows.sm_SiteID m).
Proof.
  intros Hp Hsame Hin Hc Ha [Hm Hs]. destruct e; cbn in Ha; [by apply (Ha _ Hs)| |done].
  destruct Ha as [E Hno]. destruct (Hm E) as [Hperm Hnil], (Hsame m Hin) as (m' & Hm' & Hc' & Hs').
  apply (Hno (RouteRows.sm_ID m)). split; [done|]. split.
  - exists m'. unfold siteModelOf. by rewrite bool_decide_eq_false_2, Hc'.
  - exists m'. by rewrite Hs'.
Qed.

(** ** The list and the router *)

Section exact.
Context `{Texts, UuidString} (iterate : gmap uuid GatewayCredential → list GatewayCredential).
Hypothesis Hiterate : ∀ m, Permutation (iterate m) ((map_to_list m).*2).
Hypothesis Hinj : Inj (=) (=) uuid_String.
Variables (t : RouteTables) (d : tables) (now : Z).
Hypothesis Hok : listing_ok t.
Hypothesis Hsame : same_models d t.

Notation ix := (indexCooldowns (ListActive now (tb_cooldowns (rt_keys t)))).

(** All that is asked of a site model beside the access. *)
Definition openRow (c : CatalogModel) (m : SiteModel) (s : Site) : bool :=
  bool_decide (RouteRows.sm_Status m = "active") && si_Enabled s && bool_decide (si_Status s = "active")
  && negb ((availableAPIKeys (routeRow iterate t now c s m)).1 <=? 0)
  && negb (bool_decide (is_Some (ix_sites ix !! RouteRows.sm_SiteID m)))
  && negb (bool_decide (is_Some (ix_models ix !! RouteRows.sm_ID m)))
  && negb (bool_decide (is_Some (ix_transientModels ix !! RouteRows.sm_ID m))).

Lemma find_canonical (c : CatalogModel) id :
  find (λ c, bool_decide (cn_ID (ct_Model c) = id) && bool_decide (ct_Status c = "active")) (rev (rt_canonicals t)) = Some c
  ↔ c ∈ rt_canonicals t ∧ cn_ID (ct_Model c) = id ∧ ct_Status c = "active".
Proof.
  split.
  - intros [Hin [Hid%bool_decide_eq_true Ha%bool_decide_eq_true]%andb_prop]%find_some.
    apply in_rev in Hin. by rewrite list_elem_of_In.
  - intros (Hin & <- & Ha). destruct (find _ _) as [c'|] eqn:E.
    + apply find_some in E as [Hin' [Hid%bool_decide_eq_true _]%andb_prop]. apply in_rev, list_elem_of_In in Hin'. f_equal.
      by eapply (NoDup_fmap_inj (λ c, cn_ID (ct_Model c)) _ _ _ (lo_canonicals _ Hok)).
    + apply find_none with (x := c) in E; [|by rewrite <-in_rev, <-list_elem_of_In].
      by rewrite !bool_decide_eq_true_2 in E.
Qed.

Lemma openRow_true c m s :
  openRow c m s = true ↔
  RouteRows.sm_Status m = "active" ∧ si_Enabled s = true ∧ si_Status s = "active"
  ∧ (availableAPIKeys (routeRow iterate t now c s m)).1 <=? 0 = false
  ∧ ix_sites ix !! RouteRows.sm_SiteID m = None
  ∧ ix_models ix !! RouteRows.sm_ID m = None ∧ ix_transientModels ix !! RouteRows.sm_ID m = None.
Proof.
  unfold openRow. rewrite !andb_true_iff, !negb_true_iff, !bool_decide_eq_true, !bool_decide_eq_false, <-!eq_None_not_Some. tauto.
Qed.

Lemma listed_row k m c s :
  policies k → m ∈ rt_models t →
  listedSiteModel (ResolveAPIKeyModelListAccess k d) t now m = Some (c, s)
  ↔ RouteRows.sm_CanonicalID m = Some (cn_ID (ct_Model c)) ∧ c ∈ rt_canonicals t ∧ ct_Status c = "active"
    ∧ activeSite t (RouteRows.sm_SiteID m) = Some s
    ∧ mayUse k d (RouteRows.sm_ID m) (RouteRows.sm_SiteID m) ∧ openRow c m s = true.
Proof.
  intros Hp Hm. rewrite openRow_true. unfold listedSiteModel.
  destruct (gatewayCooldownSets _) as [siteCooldowns modelCooldowns] eqn:Ecd.
  destruct (cooldownSets_index now (tb_cooldowns (rt_keys t))) as [Hcs Hcm]. rewrite Ecd in Hcs, Hcm. cbn [fst snd] in *.
  destruct (list_gates k d (RouteRows.sm_ID m) (RouteRows.sm_SiteID m) Hp) as [-> Hgates].
  specialize (Hcs (RouteRows.sm_SiteID m)). specialize (Hcm (RouteRows.sm_ID m)).
  assert (Hav : ∀ c s, activeSite t (RouteRows.sm_SiteID m) = Some s → _) by
    (intros c' s' [_ Hs']%activeSite_id; exact (available_same t now Hok iterate c' s' m Hiterate Hinj Hm Hs')).
  assert (Hid : ∀ s, activeSite t (RouteRows.sm_SiteID m) = Some s → RouteRows.si_ID s = RouteRows.sm_SiteID m)
    by (intros s'; apply activeSite_id).
  split.
  - destruct (bool_decide_reflect (RouteRows.sm_Status m = "active")) as [Ha|_]; cbn [negb]; [|done].
    destruct (RouteRows.sm_CanonicalID m) as [id|]; cbn [mbind option_bind]; [|done].
    destruct (bool_decide (ak_ModelPolicy k = "allow_list") && _) eqn:Eg1; [done|].
    destruct (bool_decide_reflect (RouteRows.sm_ID m ∈ modelCooldowns)) as [_|Hcool]; [done|].
    destruct (find _ _) as [c'|] eqn:Ec; cbn [mbind option_bind]; [|done].
    destruct (activeSite t (RouteRows.sm_SiteID m)) as [s'|] eqn:Es; cbn [mbind option_bind]; [|done].
    rewrite (Hid s' eq_refl). destruct (si_Enabled s') eqn:Een; cbn [negb orb]; [|done].
    destruct (bool_decide_reflect (si_Status s' = "active")) as [Hst|_]; cbn [negb]; [|done].
    destruct (bool_decide (ak_SitePolicy k = "allow_list") && _) eqn:Eg2; [done|].
    destruct (bool_decide_reflect (RouteRows.sm_SiteID m ∈ siteCooldowns)) as [_|Hsc]; [done|].
    rewrite <-(Hid s' eq_refl) at 1. rewrite (Hav c' s' eq_refl). destruct (_ <=? 0) eqn:Ele; [done|].
    intros [= <- <-]. apply find_canonical in Ec as (Hc & <- & Hca). rewrite Hcm in Hcool. rewrite Hcs in Hsc.
    split_and!; [done..| |done|done|done|done| | |]; [by apply Hgates|apply eq_None_not_Some; tauto..].
  - intros (Hcid & Hc & Hca & Es & Hmay%Hgates & Ha & Een & Hst & Ele & Hix & Hmx & Htx).
    destruct Hmay as [Hg1 Hg2]. rewrite Ha, bool_decide_eq_true_2, Hcid by done. cbn [negb mbind option_bind].
    rewrite Hg1. rewrite bool_decide_eq_false_2 by (rewrite Hcm, Hmx, Htx; by intros [[? ?]|[? ?]]).
    rewrite (proj2 (find_canonical c _)) by done. cbn [mbind option_bind]. rewrite Es. cbn [mbind option_bind].
    rewrite (Hid s Es), Een, Hst, bool_decide_eq_true_2 by done. cbn [negb orb]. rewrite Hg2.
    rewrite bool_decide_eq_false_2 by (rewrite Hcs, Hix; by intros [? ?]).
    rewrite <-(Hid s Es) at 1. rewrite (Hav c s Es), Ele. done.
Qed.

(** The query of a request for any endpoint. *)
Definition anyEndpoint (access : APIKeyRouteAccess) : CandidateQuery :=
  mkQuery (ra_ModelKey access) "" false false (ra_AllowedSiteIDs access) (ra_AllowedSiteModelIDs access) [] [] 0 3.

Lemma routeRow_status c s m :
  let row := routeRow iterate t now c s m in
  row_SiteEnabled row = si_Enabled s ∧ row_SiteStatus row = si_Status s ∧ row_SiteModelStatus row = RouteRows.sm_Status m
  ∧ row_SiteID row = RouteRows.si_ID s ∧ row_SiteModelID row = RouteRows.sm_ID m.
Proof.
  cbv zeta. unfold routeRow. destruct (fillModelHealth _ _ _) as [[rate latency] n].
  destruct (fillRouteKeyCounts _ _ _ _ _) as [[total available] bound].
  by destruct (fillRouteSiteCredentialCount _ _ _) as [siteCount key].
Qed.

Lemma skipped_row access c m s :
  RouteRows.si_ID s = RouteRows.sm_SiteID m →
  let row := routeRow iterate t now c s m in
  skipped (anyEndpoint access) ix row = false ∧ ix_transientModels ix !! row_SiteModelID row = None
  ↔ (match uuidSet (ra_AllowedSiteIDs access) with
     | Some s => negb (bool_decide (RouteRows.sm_SiteID m ∈ s)) | None => false end = false
     ∧ match uuidSet (ra_AllowedSiteModelIDs access) with
       | Some s => negb (bool_decide (RouteRows.sm_ID m ∈ s)) | None => false end = false)
    ∧ openRow c m s = true.
Proof.
  intros Hs row. rewrite openRow_true. destruct (routeRow_status c s m) as (H1 & H2 & H3 & H4 & H5). fold row in H1, H2, H3, H4, H5 |- *.
  unfold skipped, anyEndpoint.
  cbn [q_EndpointType q_ImageGeneration q_AllowedSiteIDs q_AllowedSiteModelIDs q_ExcludeSiteIDs q_ExcludeSiteModelIDs uuidSet andb].
  change (routeCandidateSupportsEndpoint row "") with true. rewrite H1, H2, H3, H4, H5, Hs.
  rewrite !orb_false_iff, !negb_false_iff, !bool_decide_eq_true, !bool_decide_eq_false, <-!eq_None_not_Some. cbn [negb]. tauto.
Qed.

(** C8: The list of models shows what the router offers.  Take tables in good order
    ([listing_ok]: identifiers are unique and refer to each other, and no credential is a
    Grok sign-in key, for which [stale_sign_in_is_listed] shows the two to differ), and a
    canonical model whose key is not blank and resolves to it.  Then the model is listed for
    an API key just when the key has access to it and the router, asked for any endpoint,
    has a candidate for the key that is not marked as cooling. *)
Theorem list_is_what_is_offered (getByKey byAlias : string → result (option CanonicalModel) string)
    (orders : nat → list string) (id : uuid) (k : APIKey) (c : CatalogModel) :
  tb_keys d !! id = Some k → policies k → modelsExist d → c ∈ rt_canonicals t →
  let st := routeStore iterate t now getByKey byAlias in
  let key := cn_ModelKey (ct_Model c) in
  TrimSpace key ≠ "" →
  ApiKeyAccess.resolveCanonical st key = Ok (ct_Model c) → resolveCanonicalModel st (TrimSpace key) = Ok (ct_Model c) →
  key ∈ map it_id (listedModels (ResolveAPIKeyModelListAccess k d) t now)
  ↔ ∃ access items item,
      ResolveAPIKeyRouteAccess st id key d = Ok access
      ∧ Candidates st orders now (anyEndpoint access) = Ok (ct_Model c, items)
      ∧ item ∈ items ∧ cd_Cooling item = false.
Proof.
  intros Hk Hp Hex Hc st key Hkey Hres Hres'.
  pose proof (resolve_access st id key d k (ct_Model c) Hk Hres Hp Hex) as Hsays.
  unfold key at 1. rewrite (listedModels_ids _ t now c Hc). destruct (listing_items (ResolveAPIKeyModelListAccess k d) t now) as [_ ->].
  assert (Hlisted : (∃ m, m ∈ rt_models t ∧ ∃ c' s, listedSiteModel (ResolveAPIKeyModelListAccess k d) t now m = Some (c', s)
                       ∧ cn_ModelKey (ct_Model c') = cn_ModelKey (ct_Model c))
                    ↔ ct_Status c = "active" ∧ ∃ m, m ∈ rt_models t ∧ RouteRows.sm_CanonicalID m = Some (cn_ID (ct_Model c))
                        ∧ ∃ s, activeSite t (RouteRows.sm_SiteID m) = Some s
                            ∧ mayUse k d (RouteRows.sm_ID m) (RouteRows.sm_SiteID m) ∧ openRow c m s = true).
  { split.
    - intros (m & Hm & c' & s & (Hid & Hc' & Ha & Es & Hmay & Ho)%(listed_row k m c' s Hp Hm) & Hsamekey).
      assert (c' = c) as -> by by eapply (NoDup_fmap_inj (λ c, cn_ModelKey (ct_Model c)) _ _ _ (lo_modelKeys _ Hok)).
      split; [done|]. exists m. split_and!; [done..|]. by exists s.
    - intros (Ha & m & Hm & Hid & s & Es & Hmay & Ho). exists m. split; [done|]. exists c, s. split; [|done].
      by apply (listed_row k m c s Hp Hm). }
  rewrite Hlisted. destruct (ResolveAPIKeyRouteAccess st id key d) as [access|e] eqn:Eacc.
  2:{ split; [|by intros (? & ? & ? & ? & _)]. intros (_ & m & Hm & Hid & s & _ & Hmay & _).
      exfalso. by eapply (refused_gates k d t (ct_Model c) m e). }
  assert (Hra : ra_ModelKey access = key) by apply Hsays.
  destruct (canonicalRows_elem iterate t now c Hok Hc) as (rows & Hrows & Hrow).
  assert (Hcand : ∃ items, Candidates st orders now (anyEndpoint access) = Ok (ct_Model c, items)).
  { unfold Candidates. cbn [anyEndpoint q_ModelKey]. rewrite Hra, bool_decide_eq_false_2, Hres' by done.
    cbn [st routeStore st_ListByCanonicalModel st_Cooldowns]. rewrite Hrows. by eexists. }
  destruct Hcand as [items Hcand].
  pose proof (open_candidate st orders now _ _ items rows _ Hcand (Z.le_refl 0) Hrows eq_refl) as Hopen. cbv zeta in Hopen.
  assert (Hgate : ∀ m s, m ∈ rt_models t → RouteRows.sm_CanonicalID m = Some (cn_ID (ct_Model c)) →
            activeSite t (RouteRows.sm_SiteID m) = Some s →
            (skipped (anyEndpoint access) ix (routeRow iterate t now c s m) = false
             ∧ ix_transientModels ix !! row_SiteModelID (routeRow iterate t now c s m) = None)
            ↔ mayUse k d (RouteRows.sm_ID m) (RouteRows.sm_SiteID m) ∧ openRow c m s = true).
  { intros m s Hm Hid Es. rewrite skipped_row by by apply activeSite_id in Es as [_ ?].
    by rewrite (route_gates k d t (ct_Model c) m access Hp Hsame Hm Hid Hsays). }
  transitivity (∃ item, item ∈ items ∧ cd_Cooling item = false).
  - rewrite Hopen. setoid_rewrite Hrow. split.
    + intros (Ha & m & Hm & Hid & s & Es & Hmo). exists (routeRow iterate t now c s m). apply (Hgate m s Hm Hid Es) in Hmo.
      split; [|done]. split; [done|]. exists m. split_and!; [done..|]. by exists s.
    + intros (row & (Ha & m & Hm & Hid & s & Es & ->) & Hsk). apply (Hgate m s Hm Hid Es) in Hsk.
      split; [done|]. exists m. split_and!; [done..|]. by exists s.
  - split; [intros (item & Hin & Hcool); by exists access, items, item|].
    intros (access' & items' & item & [= <-] & Hcand' & Hin & Hcool). rewrite Hcand in Hcand'. injection Hcand' as <-. by exists item.
Qed.
End exact.

(** ** Aliases lead to listed models *)

Lemma matchLoop_exact normalized r rules : ∀ wildcard wildcardLen catchAll,
  r ∈ rules → exact_match normalized r = true → (∀ r', r' ∈ rules → exact_match normalized r' = true → r' = r) →
  matchLoop normalized wildcard wildcardLen catchAll rules = Some r.
Proof.
  induction rules as [|x rules IH]; intros wildcard wildcardLen catchAll Hin Hr Hone; [by apply elem_of_nil in Hin|].
  assert (Hrest : x ≠ r → ∀ wildcard wildcardLen catchAll, matchLoop normalized wildcard wildcardLen catchAll rules = Some r).
  { intros Hx w n ca. apply IH; [|done|intros r' Hr'; apply Hone; by right].
    by apply elem_of_cons in Hin as [?|Hin]; [congruence|]. }
  cbn [matchLoop]. destruct (exact_match normalized x) eqn:Ex.
  - assert (x = r) as -> by (apply Hone; [by left|done]). clear Hrest.
    unfold exact_match, IsExact in Hr. apply andb_prop in Hr as [[->%negb_true_iff ->%negb_true_iff]%andb_prop Heq%bool_decide_eq_true].
    by rewrite bool_decide_eq_true_2.
  - specialize (Hrest ltac:(intros ->; congruence)). unfold exact_match, IsExact in Ex.
    destruct (IsCatchAll x); [apply Hrest|]. destruct (IsWildcard x).
    + destruct (wildcardPrefix x); [|apply Hrest]. by repeat case_match; apply Hrest.
    + cbn in Ex. rewrite Ex. apply Hrest.
Qed.

(** Every alias of the loop comes from an exact rule with a target among the items. *)
Lemma aliasLoop_elem byKey rules : ∀ listed alias,
  alias ∈ aliasLoop byKey listed rules →
  ∃ rule target, rule ∈ rules ∧ IsExact rule = true ∧ NormalizeModelKey (rule_Pattern rule) ≠ ""
    ∧ NormalizeModelKey (rule_Pattern rule) ∉ listed
    ∧ byKey !! NormalizeModelKey (rule_Target rule) = Some target
    ∧ alias = mkItem (rule_Pattern rule) (it_canonical target) (it_endpointTypes target) (it_siteTypes target) (Some (it_id target)).
Proof.
  induction rules as [|r rules IH]; intros listed alias Hin; [by apply elem_of_nil in Hin|]. cbn [aliasLoop] in Hin.
  destruct (negb (IsExact r) || _ || _) eqn:E.
  { destruct (IH _ _ Hin) as (rule & target & Hr & Hrest). exists rule, target. split; [by right|done]. }
  destruct (byKey !! NormalizeModelKey (rule_Target r)) as [target|] eqn:Et.
  2:{ destruct (IH _ _ Hin) as (rule & target & Hr & Hrest). exists rule, target. split; [by right|done]. }
  apply elem_of_cons in Hin as [->|Hin].
  - exists r, target. bool_to_prop. split_and!; [by left|done..].
  - destruct (IH _ _ Hin) as (rule & target' & Hr & He & Hn & Hl & Hrest). exists rule, target'.
    split; [by right|]. do 2 (split; [done|]). split; [|done]. intros Hin'. apply Hl, elem_of_union. by right.
Qed.

Lemma byNormalizedKey_elem (items : list (string * ModelItem)) n target :
  fold_left (λ m kv, <[NormalizeModelKey kv.1 := kv.2]> m) items (∅ : gmap string ModelItem) !! n = Some target →
  ∃ key, (key, target) ∈ items ∧ NormalizeModelKey key = n.
Proof.
  induction items as [|[key item] items IH] using rev_ind; [done|].
  rewrite fold_left_app. cbn [fold_left fst snd]. destruct (decide (NormalizeModelKey key = n)) as [<-|Hne].
  - rewrite lookup_insert_eq. intros [= ->]. exists key. split; [|done]. apply elem_of_app. right. by left.
  - rewrite lookup_insert_ne by done. intros (key' & Hin & Hk)%IH. exists key'. split; [|done]. apply elem_of_app. by left.
Qed.

(** An alias stands for a listed model.  The aliases are listed after the models, under
    names that are no listed model's.  A request for one, in this spelling, is mapped by the
    rules of the key to exactly the model the alias was made from, as long as no two exact
    rules have the same pattern (which the service sees to). *)
Theorem alias_stands_for_listed_model (rules : list APIKeyModelRule) (items : list (string * ModelItem)) (alias : ModelItem) :
  NoDup ((λ r, NormalizeModelKey (rule_Pattern r)) <$> List.filter IsExact rules) →
  alias ∈ modelRuleAliasPayloads rules items →
  (∀ kv, kv ∈ items → NormalizeModelKey kv.1 ≠ NormalizeModelKey (it_id alias))
  ∧ ∃ rule key item,
      matchModelRule rules (it_id alias) = Some rule
      ∧ (key, item) ∈ items ∧ NormalizeModelKey key = NormalizeModelKey (rule_Target rule)
      ∧ it_mappedModel alias = Some (it_id item) ∧ it_canonical alias = it_canonical item
      ∧ it_endpointTypes alias = it_endpointTypes item.
Proof.
  intros Hnd. unfold modelRuleAliasPayloads. case_bool_decide; [by intros ?%elem_of_nil|].
  intros (rule & target & Hrule & He & Hn & Hl & Ht & ->)%aliasLoop_elem. cbn [it_id it_mappedModel it_canonical it_endpointTypes].
  split.
  { intros kv Hkv Heq. apply Hl. rewrite elem_of_list_to_set, <-Heq.
    by apply (list_elem_of_fmap_2 (λ kv : string * ModelItem, NormalizeModelKey kv.1)). }
  apply byNormalizedKey_elem in Ht as (key & Hkey & Hk). exists rule, key, target.
  split_and!; [|done..]. unfold matchModelRule. rewrite bool_decide_eq_false_2 by done.
  assert (Hex : ∀ r, r ∈ rules → exact_match (NormalizeModelKey (rule_Pattern rule)) r = true →
            r ∈ List.filter IsExact rules ∧ NormalizeModelKey (rule_Pattern r) = NormalizeModelKey (rule_Pattern rule)).
  { intros r Hr Hm. unfold exact_match in Hm. bool_to_prop. split; [|done]. apply list_elem_of_In, List.filter_In. by rewrite <-list_elem_of_In. }
  assert (Hself : exact_match (NormalizeModelKey (rule_Pattern rule)) rule = true)
    by (unfold exact_match; by rewrite He, bool_decide_eq_true_2).
  apply matchLoop_exact; [done..|]. intros r Hr Hm.
  destruct (Hex r Hr Hm) as [Hin Hkr], (Hex rule Hrule Hself) as [Hin' _].
  exact (NoDup_fmap_inj (λ r, NormalizeModelKey (rule_Pattern r)) _ _ _ Hnd Hin Hin' Hkr).
Qed.

(** ** Samples *)

#[local] Existing Instance sampleIDs.
#[local] Existing Instance sampleTexts.

(** A key that may use model 7, and has an alias for it. *)
Definition sampleAPIKey : APIKey :=
  mkKey 50%N "key" 0 "" "" None "" "generated" "gateway" "active" "allow_list" "allow_all"
    (MappingRules [mkRule "fast" "m" "hard"]) None (of_int 1)
    (mkQuota None fzero fzero None true None fzero true None None fzero true None) None None None 0.

Definition sampleAccess : tables :=
  ApiKeyAccess.mkTables (mkStore {[50%N := sampleAPIKey]} ∅) [] [] [mkModelPermission 50%N 7%N true] ∅ [] ∅
    {[7%N := ApiKeyAccess.mkSiteModel 7%N 1%N (Some 3%N) "m" "M"]} ∅ ∅.

Lemma sampleListing_ok : listing_ok (sampleRoutes sampleTables).
Proof.
  assert (Hc : ∀ c, c ∈ tb_credentials sampleTables → c = Credentials.sampleKey 11%N "api_key" ∨ c = Credentials.sampleKey 12%N "api_key")
    by (intros c [<-|[<-|[]]]%list_elem_of_In; [by left|by right]).
  split; cbn [rt_keys rt_canonicals rt_sites sampleRoutes].
  - exact sampleRoutes_ok.
  - apply NoDup_singleton.
  - apply NoDup_singleton.
  - intros b c [<-|[<-|[]]]%list_elem_of_In [->| ->]%Hc _; reflexivity.
  - intros c [->| ->]%Hc; reflexivity.
  - intros s [<-|[]]%list_elem_of_In; discriminate.
Qed.

Lemma sampleAccess_same : same_models sampleAccess (sampleRoutes sampleTables).
Proof. intros m [<-|[]]%list_elem_of_In. eexists. split; [vm_compute; reflexivity|by split]. Qed.

Lemma list_is_what_is_offered_witness :
  map it_id (listedModels (ResolveAPIKeyModelListAccess sampleAPIKey sampleAccess) (sampleRoutes sampleTables) 5) = ["m"]
  ∧ ∃ access items item,
      ResolveAPIKeyRouteAccess (sampleStore sampleTables) 50%N "m" sampleAccess = Ok access
      ∧ Candidates (sampleStore sampleTables) (λ _, []) 5 (anyEndpoint access) = Ok (sampleCanonical, items)
      ∧ item ∈ items ∧ cd_Cooling item = false.
Proof.
  assert (Hm : map it_id (listedModels (ResolveAPIKeyModelListAccess sampleAPIKey sampleAccess) (sampleRoutes sampleTables) 5) = ["m"])
    by (vm_compute; reflexivity).
  split; [exact Hm|].
  apply (list_is_what_is_offered sampleIterate (λ m, reflexivity _) sampleIDs_inj (sampleRoutes sampleTables) sampleAccess 5
           sampleListing_ok sampleAccess_same (λ _, Ok (Some sampleCanonical)) (λ _, Ok None) (λ _, []) 50%N sampleAPIKey
           (mkCatalogModel sampleCanonical "active" "")).
  - vm_compute. reflexivity.
  - split; apply (bool_decide_unpack _); vm_compute; exact I.
  - intros p [<-|[]]%list_elem_of_In. eexists. vm_compute. reflexivity.
  - left.
  - vm_compute. discriminate.
  - vm_compute. reflexivity.
  - vm_compute. reflexivity.
  - rewrite Hm. left.
Defined.

Definition sampleListed : list (string * ModelItem) :=
  map_to_list (itemsByModelKey (listing (ResolveAPIKeyModelListAccess sampleAPIKey sampleAccess) (sampleRoutes sampleTables) 5)).

Definition sampleAlias : ModelItem := mkItem "fast" (mkCatalogModel sampleCanonical "active" "") [] ["openai"] (Some "m").

Lemma alias_stands_for_listed_model_witness :
  ∃ rule key item,
    matchModelRule (ModelRules sampleAPIKey) "fast" = Some rule
    ∧ (key, item) ∈ sampleListed ∧ NormalizeModelKey key = NormalizeModelKey (rule_Target rule)
    ∧ Some "m" = Some (it_id item).
Proof.
  destruct (alias_stands_for_listed_model (ModelRules sampleAPIKey) sampleListed sampleAlias)
    as (_ & rule & key & item & H1 & H2 & H3 & H4 & _).
  - apply (bool_decide_unpack _). vm_compute. exact I.
  - vm_compute. left.
  - exists rule, key, item. exact (conj H1 (conj H2 (conj H3 H4))).
Defined.

(** A model whose only route is in a transient cooldown is still offered, but no longer
    listed. *)
Theorem cooling_model_is_hidden :
  let keys := mkTables (tb_credentials sampleTables) (tb_states sampleTables) (tb_keyModels sampleTables)
    [mkCooldown 31%N 1%N (Some 7%N) None "model" "gateway" CooldownReasonUpstreamStreamUnstable 100 None "" 0] in
  listedModels (ResolveAPIKeyModelListAccess sampleAPIKey sampleAccess) (sampleRoutes keys) 5 = []
  ∧ map cd_Cooling (sampleItems keys) = [true].
Proof. vm_compute. done. Qed.

(** A Grok sign-in whose state is stale is refused by the router, but its model is listed. *)
Theorem stale_sign_in_is_listed :
  let keys := mkTables [Credentials.sampleKey 11%N "grok_sso:1"] [sampleState 11%N "stale" None] [sampleBinding 21%N 11%N ""] [] in
  map it_id (listedModels (ResolveAPIKeyModelListAccess sampleAPIKey sampleAccess) (sampleRoutes keys) 5) = ["m"]
  ∧ sampleItems keys = [].
Proof. vm_compute. done. Qed.
