(* ===== verification/ModelsCache.v ===== *)
(** * The cache of the model lists

    [modelsCache] of [gateway/models_cache.go]: a list is kept per API key, for the revision
    of the key's access it was built for; builds run beside the requests, and a change of
    the tables invalidates what was built or is being built.  No request sees a list of
    another key or another access, nor one whose building had begun before the last
    invalidation.

    Every operation holds the lock to its end but the waiting for a build.  A payload is a
    value here: what is stored and what is given out are copies. *)

From S2P Require Import Prelude.

Definition modelsCacheFreshTTL : Z := 5 * Minute.
Definition modelsCacheStaleTTL : Z := 30 * Minute.

Section cache.
Context {payload : Type}.

Record modelsCacheEntry := mkEntry { me_revision : string; me_payload : payload; me_cached : Z }.

(** A build: the key and the revision it is for, whether it was cancelled, and its outcome
    once [done] is closed. *)
Record modelsCacheCall := mkCall {
  mc_key : uuid;
  mc_revision : string;
  mc_cancelled : bool;
  mc_outcome : option (result payload string)
}.

(** The calls are shared by pointer: a call is its place in the list. *)
Record modelsCache := mkCache {
  ca_items : gmap uuid modelsCacheEntry;
  ca_inflight : gmap uuid nat;
  ca_calls : list modelsCacheCall
}.

Definition newModelsCache : modelsCache := mkCache ∅ ∅ [].

(** Starts the goroutine of a build, or joins the one that runs for this revision. *)
Definition startBuildLocked (key : uuid) (revision : string) (c : modelsCache) : modelsCache * nat :=
  let running := call ← ca_inflight c !! key; build ← ca_calls c !! call;
                 if bool_decide (mc_revision build = revision) then Some call else None in
  match running with
  | Some call => (c, call)
  | None =>
      let call := length (ca_calls c) in
      (mkCache (ca_items c) (<[key := call]> (ca_inflight c)) (ca_calls c ++ [mkCall key revision false None]), call)
  end.

(** What a request gets: a stored list, or the build it waits for. *)
Inductive answer := Stored (p : payload) | Waits (call : nat).

(** The locked part of [getOrBuild]. *)
Definition getOrBuild (key : uuid) (revision : string) (now : Z) (c : modelsCache) : modelsCache * answer :=
  let hit := item ← ca_items c !! key;
             if bool_decide (me_revision item = revision) && (now - me_cached item <=? modelsCacheStaleTTL)
             then Some item else None in
  match hit with
  | Some item =>
      (if modelsCacheFreshTTL <? now - me_cached item then (startBuildLocked key revision c).1 else c,
       Stored (me_payload item))
  | None =>
      let (c, call) := startBuildLocked key revision (mkCache (delete key (ca_items c)) (ca_inflight c) (ca_calls c)) in
      (c, Waits call)
  end.

(** The end of the goroutine; it runs once. *)
Definition finishBuild (call : nat) (outcome : result payload string) (now : Z) (c : modelsCache) : modelsCache :=
  match ca_calls c !! call with
  | Some (mkCall key revision cancelled None) =>
      let calls := <[call := mkCall key revision cancelled (Some outcome)]> (ca_calls c) in
      if bool_decide (ca_inflight c !! key = Some call) then
        mkCache (match outcome with Ok p => <[key := mkEntry revision p now]> (ca_items c) | Err _ => ca_items c end)
          (delete key (ca_inflight c)) calls
      else mkCache (ca_items c) (ca_inflight c) calls
  | _ => c
  end.

Definition cancelCall (call : nat) (calls : list modelsCacheCall) : list modelsCacheCall :=
  alter (λ b, mkCall (mc_key b) (mc_revision b) true (mc_outcome b)) call calls.

Definition invalidate (c : modelsCache) : modelsCache :=
  mkCache ∅ ∅ (fold_left (λ calls call, cancelCall call calls) (map_to_list (ca_inflight c)).*2 (ca_calls c)).

Definition invalidateKey (key : uuid) (c : modelsCache) : modelsCache :=
  if bool_decide (key = uuid_Nil) then c
  else mkCache (delete key (ca_items c)) (delete key (ca_inflight c))
         (match ca_inflight c !! key with Some call => cancelCall call (ca_calls c) | None => ca_calls c end).

(** ** Everything that happens to the cache *)

Inductive event :=
  | Get (key : uuid) (revision : string) (now : Z)
  | Finish (call : nat) (outcome : result payload string) (now : Z)
  | Invalidate
  | InvalidateKey (key : uuid).

Definition step (c : modelsCache) (ev : event) : modelsCache :=
  match ev with
  | Get key revision now => (getOrBuild key revision now c).1
  | Finish call outcome now => finishBuild call outcome now c
  | Invalidate => invalidate c
  | InvalidateKey key => invalidateKey key c
  end.

Definition run (evs : list event) : modelsCache := fold_left step evs newModelsCache.

(** The event takes away what was built or is being built for the key. *)
Definition invalidates (key : uuid) (ev : event) : Prop :=
  match ev with
  | Invalidate => True
  | InvalidateKey key' => key' = key ∧ key ≠ uuid_Nil
  | _ => False
  end.

(** Since the build [call] began, nothing invalidated the lists of [key]. *)
Definition validSince (evs : list event) (call : nat) (key : uuid) : Prop :=
  ∃ before after, evs = before ++ after ∧ (length (ca_calls (run before)) ≤ call)%nat
    ∧ ∀ ev, ev ∈ after → ¬ invalidates key ev.

(** ** Lemmas *)

Lemma validSince_snoc evs ev call key : validSince evs call key → ¬ invalidates key ev → validSince (evs ++ [ev]) call key.
Proof.
  intros (before & after & -> & Hlen & Hno) Hev. exists before, (after ++ [ev]). split; [by rewrite app_assoc|]. split; [done|].
  intros ev' [Hin| ->%list_elem_of_singleton]%elem_of_app; [by apply Hno|done].
Qed.

(** A build that begins with this event. *)
Lemma validSince_new evs ev key : ¬ invalidates key ev → validSince (evs ++ [ev]) (length (ca_calls (run evs))) key.
Proof.
  intros Hev. exists evs, [ev]. split_and!; [done..|]. intros ev' ->%list_elem_of_singleton. done.
Qed.

Lemma run_snoc evs ev : run (evs ++ [ev]) = step (run evs) ev.
Proof. unfold run. by rewrite fold_left_app. Qed.

(** Cancelling keeps the key, the revision and the outcome of every build. *)
Lemma cancelCall_lookup call calls i b :
  cancelCall call calls !! i = Some b →
  ∃ b0, calls !! i = Some b0 ∧ mc_key b = mc_key b0 ∧ mc_revision b = mc_revision b0 ∧ mc_outcome b = mc_outcome b0
    ∧ (i ≠ call → b = b0).
Proof.
  unfold cancelCall. destruct (decide (i = call)) as [->|Hne].
  - rewrite list_lookup_alter_eq. destruct (calls !! call) as [b0|]; [|done]. intros [= <-]. by exists b0.
  - rewrite list_lookup_alter_ne by done. intros Hb. by exists b.
Qed.

Lemma cancelCall_some call calls i b0 :
  calls !! i = Some b0 →
  ∃ b, cancelCall call calls !! i = Some b ∧ mc_key b = mc_key b0 ∧ mc_revision b = mc_revision b0
    ∧ mc_outcome b = mc_outcome b0 ∧ (i ≠ call → b = b0).
Proof.
  intros Hb. assert (Hs : is_Some (cancelCall call calls !! i))
    by (apply lookup_lt_is_Some; unfold cancelCall; rewrite length_alter; by eapply lookup_lt_Some).
  destruct Hs as [b Hb']. exists b. split; [done|]. apply cancelCall_lookup in Hb' as (b1 & Hb1 & H). congruence.
Qed.

(** ** What the cache holds *)

Record cache_ok (evs : list event) (c : modelsCache) : Prop := {
  co_running : ∀ key call, ca_inflight c !! key = Some call →
    ∃ revision, ca_calls c !! call = Some (mkCall key revision false None) ∧ validSince evs call key;
  co_stored : ∀ key item, ca_items c !! key = Some item →
    ∃ call b, ca_calls c !! call = Some b ∧ mc_key b = key ∧ mc_revision b = me_revision item
      ∧ Finish call (Ok (me_payload item)) (me_cached item) ∈ evs ∧ validSince evs call key
}.

Lemma start_ok evs ev key revision c :
  cache_ok evs c → ¬ invalidates key ev → validSince (evs ++ [ev]) (length (ca_calls c)) key →
  (∀ key, ¬ invalidates key ev) →
  let r := startBuildLocked key revision c in
  cache_ok (evs ++ [ev]) r.1
  ∧ ca_calls r.1 !! r.2 = Some (mkCall key revision false None) ∧ validSince (evs ++ [ev]) r.2 key
  ∧ ca_inflight r.1 !! key = Some r.2.
Proof.
  intros [Hrun Hst] Hev Hnew Hany. unfold startBuildLocked.
  destruct (call ← ca_inflight c !! key; build ← ca_calls c !! call; _) as [call|] eqn:E; cbn [fst snd].
  - destruct (ca_inflight c !! key) as [call0|] eqn:Ei; [|done]. cbn [mbind option_bind] in E.
    destruct (Hrun _ _ Ei) as (revision' & Hb & Hv). rewrite Hb in E. cbn [mbind option_bind mc_revision] in E.
    case_bool_decide as Er; [|done]. injection E as <-. subst revision'.
    split; [|split_and!; [done|by apply validSince_snoc|done]]. split.
    + intros key' call' (rev & Hb' & Hv')%Hrun. exists rev. split; [done|]. by apply validSince_snoc.
    + intros key' item (call' & b & H1 & H2 & H3 & H4 & H5)%Hst. exists call', b.
      split_and!; [done..|apply elem_of_app; by left|by apply validSince_snoc].
  - clear E. cbn [ca_items ca_inflight ca_calls]. split; [|split_and!; [by rewrite list_lookup_middle|done|by rewrite lookup_insert_eq]].
    split; cbn [ca_items ca_inflight ca_calls].
    + intros key' call'. destruct (decide (key' = key)) as [->|Hne].
      * rewrite lookup_insert_eq. intros [= <-]. exists revision. split; [by rewrite list_lookup_middle|done].
      * rewrite lookup_insert_ne by done. intros (rev & Hb' & Hv')%Hrun. exists rev. split; [|by apply validSince_snoc].
        by apply lookup_app_l_Some.
    + intros key' item (call' & b & H1 & H2 & H3 & H4 & H5)%Hst. exists call', b.
      split_and!; [by apply lookup_app_l_Some|done..|apply elem_of_app; by left|by apply validSince_snoc].
Qed.

Lemma later_ok evs ev c : cache_ok evs c → (∀ key, ¬ invalidates key ev) → cache_ok (evs ++ [ev]) c.
Proof.
  intros [Hrun Hst] Hany. split.
  - intros key' call' (rev & Hb' & Hv')%Hrun. exists rev. split; [done|]. by apply validSince_snoc.
  - intros key' item (call' & b & H1 & H2 & H3 & H4 & H5)%Hst. exists call', b.
    split_and!; [done..|apply elem_of_app; by left|by apply validSince_snoc].
Qed.

(** An item of the cache that a request finds. *)
Lemma getOrBuild_ok evs key revision now c :
  cache_ok evs c → c = run evs →
  let ev := Get key revision now in
  let r := getOrBuild key revision now c in
  cache_ok (evs ++ [ev]) r.1
  ∧ match r.2 with
    | Stored p =>
        (∃ call t b, Finish call (Ok p) t ∈ evs ∧ ca_calls c !! call = Some b ∧ mc_key b = key ∧ mc_revision b = revision
           ∧ validSince evs call key ∧ now - t ≤ modelsCacheStaleTTL
           ∧ (modelsCacheFreshTTL < now - t → ∃ call', ca_inflight r.1 !! key = Some call'
                ∧ ca_calls r.1 !! call' = Some (mkCall key revision false None)))
    | Waits call =>
        ca_calls r.1 !! call = Some (mkCall key revision false None) ∧ validSince (evs ++ [ev]) call key
        ∧ ca_inflight r.1 !! key = Some call
    end.
Proof.
  intros Hok Hc ev. assert (Hany : ∀ key, ¬ invalidates key ev) by (intros ? Hf; exact Hf).
  assert (Hnew : validSince (evs ++ [ev]) (length (ca_calls c)) key) by (rewrite Hc; by apply validSince_new).
  unfold getOrBuild.
  destruct (item ← ca_items c !! key; _) as [item|] eqn:E.
  - destruct (ca_items c !! key) as [item'|] eqn:Ei; [|done]. cbn [mbind option_bind] in E.
    destruct (bool_decide (me_revision item' = revision) && _) eqn:Eh; [|done]. injection E as <-. bool_to_prop.
    destruct (start_ok evs ev key revision c Hok (Hany key) Hnew Hany) as (Hok' & Hb & Hv & Hin).
    destruct (co_stored _ _ Hok _ _ Ei) as (call & b & H1 & H2 & H3 & H4 & H5).
    destruct (Z.ltb_spec modelsCacheFreshTTL (now - me_cached item')) as [Hage|Hage]; cbn [fst snd].
    + split; [done|]. exists call, (me_cached item'), b. split_and!; [done..|congruence|done|done|]. intros _. by eexists.
    + split; [by apply later_ok|]. exists call, (me_cached item'), b. split_and!; [done..|congruence|done|done|lia].
  - set (c' := mkCache (delete key (ca_items c)) (ca_inflight c) (ca_calls c)).
    assert (Hok0 : cache_ok evs c').
    { split; cbn; [apply Hok|]. intros key' item Hi. apply lookup_delete_Some in Hi as [_ Hi]. by apply Hok. }
    destruct (start_ok evs ev key revision c' Hok0 (Hany key) Hnew Hany) as (Hok' & Hb & Hv & Hin).
    destruct (startBuildLocked key revision c') as [c'' call]. cbn [fst snd] in *. done.
Qed.

Lemma finish_ok evs call outcome now c :
  cache_ok evs c → cache_ok (evs ++ [Finish call outcome now]) (finishBuild call outcome now c).
Proof.
  intros Hok. pose proof (later_ok evs (Finish call outcome now) c Hok (λ key Hf, Hf)) as Hlater.
  unfold finishBuild. destruct (ca_calls c !! call) as [[key revision cancelled [o|]]|] eqn:Eb; [done| |done].
  set (b := mkCall key revision cancelled (Some outcome)).
  assert (Hother : ∀ i b', i ≠ call → ca_calls c !! i = Some b' → <[call := b]> (ca_calls c) !! i = Some b')
    by (intros; by rewrite list_lookup_insert_ne).
  assert (Hself : <[call := b]> (ca_calls c) !! call = Some b) by (apply list_lookup_insert_eq; by eapply lookup_lt_Some).
  destruct Hlater as [Hrun Hst]. assert (Hst' : ∀ key' item, ca_items c !! key' = Some item →
     ∃ call' b', <[call := b]> (ca_calls c) !! call' = Some b' ∧ mc_key b' = key' ∧ mc_revision b' = me_revision item
       ∧ Finish call' (Ok (me_payload item)) (me_cached item) ∈ evs ++ [Finish call outcome now]
       ∧ validSince (evs ++ [Finish call outcome now]) call' key').
  { intros key' item (call' & b' & H1 & H2 & H3 & H4 & H5)%Hst. destruct (decide (call' = call)) as [->|Hne].
    - exists call, b. rewrite Eb in H1. injection H1 as <-. done.
    - exists call', b'. split_and!; [by apply Hother|done..]. }
  assert (Hrun' : ∀ key' call', ca_inflight c !! key' = Some call' → call' ≠ call →
     ∃ revision', <[call := b]> (ca_calls c) !! call' = Some (mkCall key' revision' false None)
       ∧ validSince (evs ++ [Finish call outcome now]) call' key').
  { intros key' call' Hi Hne. destruct (Hrun _ _ Hi) as (rev & Hb' & Hv'). exists rev. split; [by apply Hother|done]. }
  case_bool_decide as Ei.
  - split; cbn [ca_items ca_inflight ca_calls].
    + intros key' call' [Hne Hi]%lookup_delete_Some. apply Hrun'; [done|]. intros ->.
      destruct (Hrun _ _ Hi) as (rev & Hb' & _). rewrite Eb in Hb'. congruence.
    + intros key' item. destruct outcome as [p|]; [|apply Hst']. destruct (decide (key' = key)) as [->|Hne].
      * rewrite lookup_insert_eq. intros [= <-]. exists call, b. cbn. split_and!; [done..| |].
        -- apply elem_of_app. right. by left.
        -- by destruct (Hrun _ _ Ei) as (? & _ & ?).
      * rewrite lookup_insert_ne by done. apply Hst'.
  - split; cbn [ca_items ca_inflight ca_calls]; [|apply Hst'].
    intros key' call' Hi. apply Hrun'; [done|]. intros ->. destruct (Hrun _ _ Hi) as (rev & Hb' & _).
    rewrite Eb in Hb'. injection Hb' as -> _ _. done.
Qed.

Lemma cancelled_kept (calls : list modelsCacheCall) l : ∀ i b,
  fold_left (λ calls call, cancelCall call calls) l calls !! i = Some b →
  ∃ b0, calls !! i = Some b0 ∧ mc_key b = mc_key b0 ∧ mc_revision b = mc_revision b0 ∧ mc_outcome b = mc_outcome b0.
Proof.
  revert calls. induction l as [|call l IH]; intros calls i b; cbn [fold_left]; [intros Hb; by exists b|].
  intros (b1 & Hb1 & H1 & H2 & H3)%IH. apply cancelCall_lookup in Hb1 as (b0 & Hb0 & E1 & E2 & E3 & _).
  exists b0. split_and!; [done|congruence..].
Qed.

Lemma invalidate_ok evs c : cache_ok (evs ++ [Invalidate]) (invalidate c).
Proof. split; cbn; [by intros key call ?%lookup_empty_Some|by intros key item ?%lookup_empty_Some]. Qed.

Lemma invalidateKey_ok evs key c : cache_ok evs c → cache_ok (evs ++ [InvalidateKey key]) (invalidateKey key c).
Proof.
  intros Hok. unfold invalidateKey. case_bool_decide as Hnil.
  { apply later_ok; [done|]. intros key' [Hk Hne]. congruence. }
  destruct Hok as [Hrun Hst].
  assert (Hkeep : ∀ key', key' ≠ key → ∀ call, validSince evs call key' → validSince (evs ++ [InvalidateKey key]) call key')
    by (intros key' Hne call Hv; apply validSince_snoc; [done|]; by intros [? _]).
  split; cbn [ca_items ca_inflight ca_calls].
  - intros key' call' [Hne Hi]%lookup_delete_Some. destruct (Hrun _ _ Hi) as (rev & Hb & Hv). exists rev.
    split; [|by apply Hkeep]. destruct (ca_inflight c !! key) as [call|] eqn:Ei; [|done].
    destruct (cancelCall_some call (ca_calls c) call' _ Hb) as (b & Hb' & _ & _ & _ & Hsame). rewrite Hb'. f_equal.
    apply Hsame. intros ->. destruct (Hrun _ _ Ei) as (rev' & Hb2 & _). congruence.
  - intros key' item [Hne Hi]%lookup_delete_Some. destruct (Hst _ _ Hi) as (call & b & H1 & H2 & H3 & H4 & H5).
    assert (Hb : ∃ b', match ca_inflight c !! key with Some call => cancelCall call (ca_calls c) | None => ca_calls c end !! call = Some b'
              ∧ mc_key b' = mc_key b ∧ mc_revision b' = mc_revision b).
    { destruct (ca_inflight c !! key) as [call0|]; [|by exists b].
      destruct (cancelCall_some call0 (ca_calls c) call _ H1) as (b' & Hb' & E1 & E2 & _). by exists b'. }
    destruct Hb as (b' & Hb' & E1 & E2). exists call, b'. split_and!; [done|congruence|congruence|apply elem_of_app; by left|by apply Hkeep].
Qed.

Lemma run_cache_ok evs : cache_ok evs (run evs).
Proof.
  induction evs as [|ev evs IH] using rev_ind.
  - split; cbn; [by intros key call ?%lookup_empty_Some|by intros key item ?%lookup_empty_Some].
  - rewrite run_snoc. destruct ev as [key revision now|call outcome now| |key]; cbn [step].
    + by apply getOrBuild_ok.
    + by apply finish_ok.
    + apply invalidate_ok.
    + by apply invalidateKey_ok.
Qed.

(** A build that has ended keeps its outcome. *)
Lemma outcome_stays evs evs' call b o :
  ca_calls (run evs) !! call = Some b → mc_outcome b = Some o →
  ∃ b', ca_calls (run (evs ++ evs')) !! call = Some b' ∧ mc_outcome b' = Some o.
Proof.
  intros Hb Ho. induction evs' as [|ev evs' (b1 & Hb1 & Ho1)] using rev_ind; [rewrite app_nil_r; by exists b|].
  rewrite app_assoc, run_snoc. set (c := run (evs ++ evs')) in *.
  assert (Hstart : ∀ key revision c', ca_calls c' = ca_calls c →
            ca_calls (startBuildLocked key revision c').1 !! call = Some b1).
  { intros key revision c' E. unfold startBuildLocked. destruct (_ ≫= _); cbn; rewrite E; [done|by apply lookup_app_l_Some]. }
  destruct ev as [key revision now|call' outcome now| |key]; cbn [step].
  - exists b1. split; [|done]. unfold getOrBuild. destruct (_ ≫= _); cbn [fst].
    + destruct (_ <? _); [by apply Hstart|done].
    + set (c' := mkCache _ _ _). pose proof (Hstart key revision c' eq_refl) as Hs.
      by destruct (startBuildLocked key revision c').
  - unfold finishBuild. destruct (ca_calls c !! call') as [[key revision cancelled [o'|]]|] eqn:E; [by exists b1| |by exists b1].
    assert (Hne : call ≠ call') by (intros ->; rewrite Hb1 in E; injection E as ->; done).
    exists b1. split; [|done]. case_bool_decide; cbn; by rewrite list_lookup_insert_ne.
  - cbn. assert (Hs : is_Some (fold_left (λ calls call, cancelCall call calls) (map_to_list (ca_inflight c)).*2 (ca_calls c) !! call)).
    { apply lookup_lt_is_Some. assert (Hlen : ∀ l calls, length (fold_left (λ calls call, cancelCall call calls) l calls) = length calls).
      { induction l as [|x l IHl]; intros calls; [done|]. cbn. rewrite IHl. apply length_alter. }
      rewrite Hlen. by eapply lookup_lt_Some. }
    destruct Hs as [b2 Hb2]. exists b2. split; [done|]. apply cancelled_kept in Hb2 as (b0 & Hb0 & _ & _ & E). congruence.
  - unfold invalidateKey. case_bool_decide; [by exists b1|]. cbn. destruct (ca_inflight c !! key) as [call'|]; [|by exists b1].
    destruct (cancelCall_some call' (ca_calls c) call _ Hb1) as (b2 & Hb2 & _ & _ & E & _). exists b2. split; [done|congruence].
Qed.

(** C28: A list that is given out was not overtaken.  Whatever requests, builds and
    invalidations came before, in any order: a request gets a stored list only if it was
    built without an error for this very key and revision of its access, in a build that
    began after the last invalidation of the key, and at most 30 minutes ago; when it is
    older than 5 minutes, a fresh build is on its way.  Else the request waits for a build
    of this key and revision that is not cancelled and began after the last invalidation;
    what such a build comes to, it comes to once. *)
Theorem lists_are_not_overtaken evs key revision now :
  let r := getOrBuild key revision now (run evs) in
  match r.2 with
  | Stored p =>
      ∃ call t b, Finish call (Ok p) t ∈ evs ∧ ca_calls (run evs) !! call = Some b
        ∧ mc_key b = key ∧ mc_revision b = revision
        ∧ validSince evs call key ∧ now - t ≤ modelsCacheStaleTTL
        ∧ (modelsCacheFreshTTL < now - t → ∃ call', ca_inflight r.1 !! key = Some call'
             ∧ ca_calls r.1 !! call' = Some (mkCall key revision false None))
  | Waits call =>
      ca_calls r.1 !! call = Some (mkCall key revision false None)
      ∧ validSince (evs ++ [Get key revision now]) call key
      ∧ ∀ evs1 evs2 b b' o,
          ca_calls (run ((evs ++ [Get key revision now]) ++ evs1)) !! call = Some b → mc_outcome b = Some o →
          ca_calls (run (((evs ++ [Get key revision now]) ++ evs1) ++ evs2)) !! call = Some b' → mc_outcome b' = Some o
  end.
Proof.
  destruct (getOrBuild_ok evs key revision now (run evs) (run_cache_ok evs) eq_refl) as [_ H]. cbv zeta in *.
  destruct (getOrBuild key revision now (run evs)) as [c' [p|call]]; cbn [fst snd] in *; [done|].
  destruct H as (H1 & H2 & _). split_and!; [done..|]. intros evs1 evs2 b b' o Hb Ho Hb'.
  destruct (outcome_stays _ evs2 _ _ _ Hb Ho) as (b2 & Hb2 & Ho2). congruence.
Qed.
End cache.

(** A list is stored, kept for half an hour, and gone with the invalidation. *)
Example stored_until_invalidated :
  let evs := [Get 1%N "r" 0; Finish 0 (Ok "list") (1 * Minute)] in
  (getOrBuild 1%N "r" (31 * Minute) (run evs)).2 = Stored "list"
  ∧ (getOrBuild 1%N "r" (32 * Minute) (run evs)).2 = Waits 1
  ∧ (getOrBuild 1%N "other" (2 * Minute) (run evs)).2 = Waits 1
  ∧ (getOrBuild 1%N "r" (2 * Minute) (run (evs ++ [Invalidate]))).2 = Waits 1.
Proof. vm_compute. done. Qed.

(** At 31 minutes the list of minute 1 is still given out, and a fresh one is on its way. *)
Lemma lists_are_not_overtaken_witness :
  let evs := [Get 1%N "r" 0; Finish 0 (Ok "list") (1 * Minute)] in
  let r := getOrBuild 1%N "r" (31 * Minute) (run evs) in
  ∃ call t b, Finish call (Ok "list") t ∈ evs ∧ ca_calls (run evs) !! call = Some b
    ∧ mc_key b = 1%N ∧ mc_revision b = "r" ∧ validSince evs call 1%N ∧ 31 * Minute - t ≤ modelsCacheStaleTTL
    ∧ (modelsCacheFreshTTL < 31 * Minute - t → ∃ call', ca_inflight r.1 !! 1%N = Some call'
         ∧ ca_calls r.1 !! call' = Some (mkCall 1%N "r" false None)).
Proof. exact (lists_are_not_overtaken [Get 1%N "r" 0; Finish 0 (Ok "list") (1 * Minute)] 1%N "r" (31 * Minute)). Defined.

(** An invalidation cancels the build a request waits for, and the request stays with it: it
    gets the error of the cancelled build, not a list built anew. *)
Theorem waiter_stays_with_cancelled_build :
  (getOrBuild 1%N "r" 0 (run (payload:=string) [])).2 = Waits 0
  ∧ ca_calls (run (payload:=string) [Get 1%N "r" 0; Invalidate]) !! 0%nat = Some (mkCall 1%N "r" true None)
  ∧ (mc_outcome <$> ca_calls (run (payload:=string) [Get 1%N "r" 0; Invalidate; Finish 0 (Err "context canceled") 1]) !! 0%nat)
    = Some (Some (Err "context canceled")).
Proof. vm_compute. done. Qed.
